(* ===== verification/_CoqProject ===== *)
-Q . S2P
Prelude.v
GoStrings.v
GoTime.v
GoFloat.v
GoSort.v
Calendar.v
Errors.v
Event.v
Rbac.v
Json.v
Auth.v
OpenApi.v
Models.v
Store.v
Queries.v
Availability.v
Rss.v
Writes.v
Integrity.v
WritesSpec.v
Outbox.v
OutboxSpec.v
EntCore.v
EntComponent.v
EntComponentAttr.v
EntIncident.v
EntIncidentStatus.v
EntNotificationOutbox.v
EntComponentBuild.v
EntComponentAttrBuild.v
EntIncidentBuild.v
EntIncidentStatusBuild.v
EntNotificationOutboxBuild.v
EntWhere.v
EntQuery.v
EntLaws.v
EntGraph.v
EntFacade.v
EntQuerySpec.v
EntRead.v
EntRun.v
EntSpec.v
EntRefine.v
EntReadSpec.v
Notify.v
Conf.v
StaticCache.v
StaticProxy.v
StaticSpec.v
NotifySpec.v
Facade.v
WorkerSpec.v
Metrics.v
Workers.v
WorkersHands.v
Checker.v
CheckerSpec.v
Api.v
Handlers.v
ApiSpec.v
System.v
Scheduler.v
App.v
Router.v
RouterSpec.v
Samples.v
PropsAccess.v
PropsListing.v
PropsStore.v
PropsMove.v
PropsChecker.v
PropsNotify.v
PropsSystem.v
PropsStatic.v
PropsConfig.v
PropsPublic.v
PropsReport.v
PropsRouter.v
PropsWorkers.v
PropsEnt.v
