(* ===== verification/Prelude.v ===== *)
(** * Status Dashboard backend: verification library

    This library models the backend of a status dashboard: a Go service that stores
    events (incidents, maintenances, information events) with the components they
    affect and the history of their statuses, serves them over a /v2 API with
    role-based access, moves scheduled events along the clock, mails maintenance changes
    through a transactional outbox, reports availability and news feeds, and serves the
    web frontend from replicated origins through a cache.  Several replicas run on one
    database and take turns at the periodic tasks.

    ** The parts and where they are modelled

    - [GoStrings], [GoTime]: the standard-library functions the source calls on
      strings, runes, integers in decimal, and instants.  Strings are byte strings;
      [ToLower] maps the ASCII letters.  Instants and durations are integers of
      nanoseconds, [int64] is the wrap-around where an overflow can matter.
    - [GoFloat], [GoSort], [Calendar], [Json]: IEEE binary64 (the SpecFloat operations of
      the standard library) with [time.ParseDuration]; [sort.Slice]; months and their
      first instants; decoded JSON documents.
    - [Errors]: the sentinel errors of [internal/db/errors.go] and
      [internal/api/errors] with their texts.
    - [Event]: [internal/event/event.go], the types and statuses of events.
    - [Rbac]: [internal/api/rbac/rbac.go], from role names to roles.
    - [Auth]: [internal/api/auth], from the payload of a token to the caller's identity
      and role names, and the questions start-up asks of the identity provider.
    - [OpenApi]: [internal/api/swagger.go], the filter of the public API document.
    - [Models]: the structs of [internal/db/models.go] and the rows of the tables
      declared in [ent/schema].
    - [Store]: the effect [M] of the Go code.  A run reads an environment and threads
      a world: the tables, the serials, the wake-up channel of the worker, and two
      counters.  The environment supplies each reading of the clock, each generated
      id, each random spread, each outcome of the mail library and whether each
      statement fails, so a theorem about all environments covers every clock and a
      database that fails at any statement.  A run ends in a value, an error or a
      panic.  [WithTx] and [execWithTx] are [internal/db/tx.go]: a failed body, a
      panic or a failed commit restores the tables.
    - [Queries]: the reads of [internal/db] ([db.go], [mappers.go], [raw.go],
      [event_types.go]), with SQL's three truth values on nullable columns.
    - [Availability]: the availability handler of [internal/api/v2/v2.go] with its query
      and its floating-point percentages.
    - [Rss]: the feeds of [internal/rss] and [internal/api/rss].
    - [Writes]: the writes of [db.go] and [write.go], with the validators of the
      schema and the optimistic lock on [version].
    - [Outbox]: [notification.go] and [notification_ops.go] of [internal/db].
    - [EntCore], then one file per entity ([EntComponent], [EntComponentAttr],
      [EntIncident], [EntIncidentStatus], [EntNotificationOutbox]) and one for its builders
      ([EntComponentBuild] and so on), and [EntWhere]: the data layer that entgo generated
      into [ent/]: columns, validators, nodes, mutations ([mutation.go]), create, update and
      delete builders, scanning of rows, predicates ([where.go]).  A builder produces the
      specification it hands to the SQL graph library, which is the class [SqlGraph].
    - [EntGraph]: an instance of that class on the tables of [Store].
    - [EntQuery]: the query builders of the same entities ([*_query.go]): predicates, order,
      pages, selected fields, steps along edges, eager loads, and the calls that end a query
      ([All], [First], [Only], [IDs], [Count], [Exist]), over the class [SqlReader];
      [EntRead] gives its instance on the tables, and has the schema of
      [ent/migrate/schema.go] (module [Migrate]): columns, keys, foreign keys and unique
      indexes, and what it means that the stored rows conform to it.
    - [EntFacade], [EntRefine]: the calls of the generated code in [internal/db], and the
      operations of the facade written with them (module [Gen]).
    - [EntReadSpec]: the reads of the facade written with the query chains of the code
      (module [Reads]).
    - [Notify]: [internal/notification]: recipients, deduplication keys, publishing,
      rendering (the two templates included), backoff, delivery, drain, retention, and the
      set-up of the mail client.
    - [Metrics]: [metrics.go] of the same package: the counters, the worker with its calls of
      them (module [Metered]), and the collector that a scrape runs.
    - [Workers]: the worker of [internal/notification/worker.go] in several processes at once,
      statement by statement: transactions with row locks, [SKIP LOCKED], sends and the
      writes of their outcomes under their time limits, crashes.
    - [Conf]: [internal/conf/conf.go] and [notification.ConfigFromConf]: the settings, the
      merge with a .env file, defaults and checks, and the log of the settings, with what it
      uses of [net/url].
    - [StaticCache], [StaticProxy]: [internal/static]: the cache of origin responses, and
      the proxy with failover, stale replies, streaming and shared fetches.
    - [Checker]: [internal/checker], the scans of maintenances and information events.
    - [Api], [Handlers]: [internal/api/v2], [internal/api/middleware.go] and
      [internal/api/routes.go]: requests and their checks, the views of events, the
      handlers, the middlewares and the chains of the routes.
    - [System]: one step relation over all writing entry points, in any order and in
      any environment.
    - [Scheduler]: [internal/scheduler], [internal/db/lock.go], [newScheduler] of
      [cmd/main.go] and the loop of [Worker.Run]: replicas, advisory locks, ticks,
      crashes.
    - [App]: [internal/app/app.go], [internal/api/api.go] and the shutdown of
      [cmd/main.go]: from loaded settings to a running service, the check that the outbox table exists
      ([EnsureNotificationSchema]) included.
    - [Router]: the table of [internal/api/routes.go], [internal/api/health.go] and the
      global middlewares: one dispatch from a request to its reply, and the chains with
      their audit entries.

    [Integrity], [WritesSpec], [OutboxSpec], [NotifySpec], [WorkerSpec],
    [WorkersHands], [CheckerSpec], [ApiSpec], [StaticSpec] and [RouterSpec] hold the lemmas
    on each part, and [EntLaws], [EntQuerySpec], [EntRead], [EntRun], [EntSpec],
    [EntRefine] and [EntReadSpec] those on the generated code: [EntLaws] has the interface
    [ent.Mutation] as a class with lawful instances, [EntSpec] the specification that each
    chain of calls produces, [EntReadSpec] a [_refines] lemma for each read.  The storage layer and its clients meet in the class [Facade]: it states that every writing operation stays within a
    relation on worlds; [ApiSpec] proves the routes and scans against the class, and
    [Facade] gives the instances for integrity ([db_step]) and for the consistency of
    the queue ([queue_step]).  [Samples] holds the store on which the theorems are
    instantiated.

    ** What the theorems show

    - [PropsSystem]: in every state reachable from an empty database the stored data
      is consistent and satisfies the declared schema, and the notification queue is
      consistent; no run loses an event, a component or a history entry, or changes the status or time of
      an entry.
    - [PropsStore]: creating an event is all or nothing; an accepted patch is stored
      and touches nothing else; the version check decides every modification of a
      maintenance and excludes lost updates; a saved event is read back.
    - [PropsMove]: extraction partitions the components; a move is all or nothing;
      creation of components; when a system incident leaves a component alone.
    - [PropsListing]: what a listing selects, in which order, and its pages.
    - [PropsAccess]: role resolution, who may create and patch what, that the routes
      refuse before they read or write, what callers without rights can see.
    - [PropsChecker]: the status of a maintenance by the clock, the back-filled
      history, what a pass stores, that it succeeds, and what a scan never touches.
    - [PropsNotify]: recipients, keys, publishing once, claiming, recovery, the
      recorded outcome of a delivery, termination of a drain, what the metrics count,
      retention, backoff.
    - [PropsStatic]: the cache refines a bounded list in the order of use; what a GET
      returns for every behaviour of the origins; in every reachable state every reply is
      justified by an origin's answer and no waiting request is forgotten.
    - [PropsConfig]: which settings are accepted; start-up cannot fail for a reason in
      accepted settings; the log of the settings does not depend on the credentials of a
      database URL that parses; rounds of one task exclude each other across replicas and leave
      no lock behind; and, from accepted settings to any interleaving of replicas, the
      stored data and the queue stay consistent.
    - [PropsPublic]: the role of a caller is what the token's role claims assert; the
      public API document shows the read-only API only.
    - [PropsReport]: the availability report is exact before it is rounded; the feeds
      show public events only.
    - [PropsWorkers]: however the statements of several workers interleave, each step is one
      of the transactions that [Outbox] takes as a whole; while the lease covers a claim, a
      send and the write of its outcome no row is in two hands, and with a tighter lease or
      a larger batch it can be.
    - [PropsEnt]: the generated mutations keep their contract; every write of the facade, made
      through the generated builders, is the operation on tables that the other theorems
      are about, and every read made through the generated queries is the one of [Queries];
      the generated filters select what the model's select; what a create returns is what a
      query reads.
    - [PropsRouter]: every request is answered, a panic included, and no answer tells of
      the storage; nothing changes the store without a caller who may, and without leaving
      an audit entry.

    ** Bounds and fuel

    These definitions take fuel.  [drain_loop] gets one round for every attempt the
    queued rows have left, and one more; [drain_ends] shows that it is never used up.
    [delete_loop] gets one round per row and one more; [retention_spec] shows that
    every returning run has a total.  [evict] gets one round per element;
    [cache_refines_lru] needs the budget it reaches.  [downtime_loop] gets one round per
    month between the two ends of an outage and one more; [availability_exact] shows that
    no part of an outage is lost.  [duration_loop] gets the length of its string, which
    every round shortens.  [chunks] and the trimming of strings use the length of their
    argument.  Nothing else is bounded: lists, tables and integers are
    unbounded except where the code's width matters ([page_of], [Backoff]).

    ** Modelling decisions

    - Outside [Workers] a transaction is one step: interleavings are those of whole requests,
      scans, drains and prunings, and no row is locked by another session.  Two requests that
      read before either writes are covered where it matters, by [no_lost_update].
    - The generated code is translated method by method: a pointer receiver becomes an
      argument and a result, a nil pointer [None], a set of ids a [gset], a map of cleared
      fields a set of names.  Hooks and interceptors are lists, and the service registers
      none.  A column is a [value] or NULL; the order of the rows of a query without an
      order is that of their ids.
    - Row ids are positive serials, so the conversions between [int] and [uint] are
      the identity.
    - A function that mutates a struct behind a pointer returns the mutated struct.
      Where the code shares structs between iterations (the opened incidents of
      [processComponentMovement]) the changed struct is threaded on.
    - A violated constraint inside a transaction is reported as an error and the
      transaction goes on; PostgreSQL would refuse the statements that follow.  A
      publication reaches this case only for an event that does not exist.
    - Decoding of JSON and queries is gin's.  A handler receives the decoded value and
      applies the [binding] tags; the detail a decoder adds to a message is left out.
    - Third-party code is a parameter of the definitions that call it:
      the token verifier of go-oidc (a token gives its subject and payload, or nothing), the
      metadata it discovered, what [envconfig.Process] and [godotenv.Read] returned, the
      mail client, the answers of the HTTP origins, the serialiser of the feeds.  Two
      functions of the standard library are parameters too: [net/mail.ParseAddress], and
      the form of a host that [net/url] accepts, which differs between releases of Go.  So is the order in
      which Go ranges over a map, where an error depends on it.
    - Shared fetches ([singleflight.Group]) are a step relation: requests arrive, a fetch
      finishes with the answer for all that wait, results are delivered, clients leave.
      A request that is served without waiting is one step.
    - Advisory locks belong to sessions and are counted, as PostgreSQL documents.  The
      body of a task is one step; its lock, its unlock and the end of its session are
      others.  A body that panics ends the process, which is a crash step.
    - The drain is stated without metrics; [metrics_account] shows that counting does not
      change it.  So with the audit trail: [Router.Audited] has the chains with their entries,
      and [requests_audited] shows that the entries change nothing.  Of other log entries the
      settings' and the request log's are modelled.
    - Rows that an order does not tell apart keep the order of their ids in the model; in
      PostgreSQL their order is unspecified.

    ** What is not modelled

    The files of the Swagger UI; opening the database ([db.New]), which start-up sees as
    succeeding or failing; sockets and signals; the HTTP handler of
    the metrics.  Of the generated code: the upserts and bulk creates, which nothing calls,
    the variants that panic on an error, cloning of queries, the group-by and aggregate
    builders, interceptors, of which none is registered, and running the migration, which is the work of
    the ent library: only what it declares is modelled.  Requests that
    interleave between their statements are the next part to model. *)

From stdpp Require Export base option list gmap strings sorting fin_maps.
From Stdlib Require Export ZArith Lia.

(** ** Notations *)

Declare Scope go_scope.
Delimit Scope go_scope with go.

(** Go's [==] and [!=] on comparable values. *)
Notation "x == y" := (bool_decide (x = y)) (at level 70, no associativity) : go_scope.
Notation "x != y" := (negb (bool_decide (x = y))) (at level 70, no associativity) : go_scope.
#[global] Open Scope go_scope.

(** ** Tactics *)

(** Turn every boolean test of a hypothesis into the proposition it decides. *)
Ltac bool_facts :=
  repeat match goal with
  | H : context [bool_decide _ = true] |- _ => setoid_rewrite bool_decide_eq_true in H
  | H : context [bool_decide _ = false] |- _ => setoid_rewrite bool_decide_eq_false in H
  | H : (_ && _)%bool = true |- _ => apply andb_true_iff in H as [? ?]
  | H : (_ || _)%bool = false |- _ => apply orb_false_iff in H as [? ?]
  | H : negb _ = true |- _ => apply negb_true_iff in H
  | H : negb _ = false |- _ => apply negb_false_iff in H
  | H : (_ <? _)%Z = true |- _ => apply Z.ltb_lt in H
  | H : (_ <? _)%Z = false |- _ => apply Z.ltb_ge in H
  | H : (_ <=? _)%Z = true |- _ => apply Z.leb_le in H
  | H : (_ <=? _)%Z = false |- _ => apply Z.leb_gt in H
  | H : (_ =? _)%Z = true |- _ => apply Z.eqb_eq in H
  | H : (_ =? _)%Z = false |- _ => apply Z.eqb_neq in H
  end.

(** Case on every [if]/[match] scrutinee of the goal, keeping the equation. *)
Ltac split_ifs :=
  repeat match goal with
  | |- context [if ?b then _ else _] => destruct b eqn:?
  end.

Ltac split_ifs_in H :=
  repeat match type of H with
  | context [if ?b then _ else _] => destruct b eqn:?
  end.

Create HintDb sd discriminated.
Create HintDb sdrw.

(** ** Lists *)

Section ListFacts.
Context {A B : Type}.
Implicit Types (l k : list A).

Lemma existsb_app_true (f : A → bool) l k :
  existsb f (l ++ k) = existsb f l || existsb f k.
Proof. induction l as [|x l IH]; simpl; [done|]. by rewrite IH, orb_assoc. Qed.

Lemma existsb_false_iff (f : A → bool) l :
  existsb f l = false ↔ ∀ x, x ∈ l → f x = false.
Proof.
  induction l as [|y l IH]; simpl.
  - split; [intros _ x Hx; inversion Hx | done].
  - rewrite orb_false_iff, IH. split.
    + intros [Hy Hl] x [->|Hx]%elem_of_cons; auto.
    + intros H. split; [apply H; left | intros x Hx; apply H; by right].
Qed.

Lemma existsb_true_iff (f : A → bool) l :
  existsb f l = true ↔ ∃ x, x ∈ l ∧ f x = true.
Proof.
  rewrite existsb_exists. setoid_rewrite list_elem_of_In. done.
Qed.

Lemma forallb_true_iff (f : A → bool) l :
  forallb f l = true ↔ ∀ x, x ∈ l → f x = true.
Proof. rewrite forallb_forall. setoid_rewrite list_elem_of_In. done. Qed.

Lemma elem_of_omap (f : A → option B) l y :
  y ∈ omap f l ↔ ∃ x, x ∈ l ∧ f x = Some y.
Proof.
  induction l as [|x l IH]; simpl.
  - split; [intros H; inversion H | intros (x & H & _); inversion H].
  - destruct (f x) as [z|] eqn:Hfx; rewrite ?elem_of_cons, IH; split.
    + intros [->|(x' & ? & ?)]; [exists x|exists x']; (split; [set_solver|done]).
    + intros (x' & [->|?]%elem_of_cons & Hf); [left; congruence|right; eauto].
    + intros (x' & ? & ?). exists x'. split; [set_solver|done].
    + intros (x' & [->|?]%elem_of_cons & Hf); [congruence|eauto].
Qed.

Lemma omap_cons (f : A → option B) x l :
  omap f (x :: l) = match f x with Some y => y :: omap f l | None => omap f l end.
Proof. done. Qed.
End ListFacts.

(** Keep the elements on which a boolean test holds (stdpp's [filter] takes a
    decidable predicate; the source's loops test booleans). *)
Fixpoint filterb {A} (f : A → bool) (l : list A) : list A :=
  match l with
  | [] => []
  | x :: l => if f x then x :: filterb f l else filterb f l
  end.

Section Filterb.
Context {A : Type} (f : A → bool).
Implicit Types (l k : list A).

Lemma elem_of_filterb l x : x ∈ filterb f l ↔ x ∈ l ∧ f x = true.
Proof.
  induction l as [|y l IH]; simpl; [set_solver|].
  destruct (f y) eqn:Hy; rewrite ?elem_of_cons, IH; split; intros H;
    repeat match goal with H : _ ∨ _ |- _ => destruct H | H : _ ∧ _ |- _ => destruct H end;
    subst; auto; congruence.
Qed.

Lemma filterb_app l k : filterb f (l ++ k) = filterb f l ++ filterb f k.
Proof. induction l as [|x l IH]; simpl; [done|]. destruct (f x); by rewrite IH. Qed.

Lemma NoDup_filterb l : NoDup l → NoDup (filterb f l).
Proof.
  induction 1 as [|x l Hx Hl IH]; simpl; [constructor|].
  destruct (f x); [|done]. constructor; [|done]. rewrite elem_of_filterb. tauto.
Qed.

Lemma filterb_length_le l : length (filterb f l) ≤ length l.
Proof. induction l as [|x l IH]; simpl; [lia|]. destruct (f x); simpl; lia. Qed.

Lemma filterb_true_id l : (∀ x, x ∈ l → f x = true) → filterb f l = l.
Proof.
  induction l as [|x l IH]; simpl; [done|]. intros H.
  rewrite H by left. f_equal. apply IH. intros y Hy. apply H. by right.
Qed.

Lemma filterb_false_nil l : (∀ x, x ∈ l → f x = false) → filterb f l = [].
Proof.
  induction l as [|x l IH]; simpl; [done|]. intros H.
  rewrite H by left. apply IH. intros y Hy. apply H. by right.
Qed.
End Filterb.

Lemma filterb_ext {A} (f g : A → bool) l :
  (∀ x, x ∈ l → f x = g x) → filterb f l = filterb g l.
Proof.
  induction l as [|x l IH]; simpl; [done|]. intros H.
  rewrite (H x) by left. destruct (g x); rewrite IH; auto; intros y Hy; apply H; by right.
Qed.

Lemma filterb_Permutation {A} (f : A → bool) (l k : list A) :
  l ≡ₚ k → filterb f l ≡ₚ filterb f k.
Proof.
  induction 1 as [|x l k H IH|x y l|l k j H1 IH1 H2 IH2]; simpl; [done| | |by etrans].
  - destruct (f x); [by constructor|done].
  - destruct (f x), (f y); try done. constructor.
Qed.

Lemma filterb_filterb {A} (f g : A → bool) l :
  filterb f (filterb g l) = filterb (λ x, g x && f x) l.
Proof.
  induction l as [|x l IH]; simpl; [done|].
  destruct (g x) eqn:Hg; simpl; [destruct (f x) eqn:Hf|]; by rewrite IH.
Qed.

(** An element of a duplicate-free list can be moved to its front. *)
Lemma filterb_move_front {A} `{EqDecision A} (a : A) l :
  NoDup l → a ∈ l → a :: filterb (λ x, x != a) l ≡ₚ l.
Proof.
  intros Hnd Ha. induction Hnd as [|x l Hx Hnd IH]; [inversion Ha|]. cbn [filterb].
  destruct (decide (x = a)) as [->|Hne].
  - rewrite bool_decide_true by done. cbn [negb]. rewrite filterb_true_id; [done|].
    intros y Hy. apply negb_true_iff, bool_decide_eq_false. by intros ->.
  - rewrite bool_decide_false by done. cbn [negb].
    apply elem_of_cons in Ha as [->|Ha]; [done|]. rewrite <- (IH Ha) at 2. constructor.
Qed.

(** ** Rows of a table in key order *)

(** [ORDER BY id ASC] over a table stored as a finite map. *)
Definition key_le {A} (p q : Z * A) : Prop := (p.1 ≤ q.1)%Z.
#[global] Instance key_le_dec {A} : RelDecision (@key_le A).
Proof. intros p q. unfold key_le. apply _. Defined.
#[global] Instance key_le_trans {A} : Transitive (@key_le A).
Proof. intros p q r. unfold key_le. lia. Qed.
#[global] Instance key_le_total {A} : Total (@key_le A).
Proof. intros p q. unfold key_le. lia. Qed.

Definition rows {A} (m : gmap Z A) : list (Z * A) := merge_sort key_le (map_to_list m).

Section Rows.
Context {A : Type}.
Implicit Types (m : gmap Z A).

Lemma rows_perm m : rows m ≡ₚ map_to_list m.
Proof. apply merge_sort_Permutation. Qed.

Lemma elem_of_rows m k x : (k, x) ∈ rows m ↔ m !! k = Some x.
Proof. rewrite rows_perm. apply elem_of_map_to_list. Qed.

Lemma NoDup_rows m : NoDup (rows m).
Proof. rewrite rows_perm. apply NoDup_map_to_list. Qed.

Lemma NoDup_rows_keys m : NoDup (rows m).*1.
Proof. rewrite rows_perm. apply NoDup_fst_map_to_list. Qed.

Lemma rows_sorted m : StronglySorted key_le (rows m).
Proof. apply StronglySorted_merge_sort; apply _. Qed.

Lemma rows_empty : rows (∅ : gmap Z A) = [].
Proof. by unfold rows; rewrite map_to_list_empty. Qed.
End Rows.

(** A selection of rows keeps their order and the keys distinct. *)
Lemma NoDup_filterb_keys {A} (f : Z * A → bool) l : NoDup l.*1 → NoDup (filterb f l).*1.
Proof.
  induction l as [|kr l IH]; [done|]. rewrite fmap_cons. intros [Hk Hl]%NoDup_cons. simpl.
  destruct (f kr); [|by apply IH]. rewrite fmap_cons. constructor; [|by apply IH].
  rewrite list_elem_of_fmap. intros (kr' & Heq & [Hin _]%elem_of_filterb). apply Hk.
  rewrite Heq. apply list_elem_of_fmap. eauto.
Qed.

Lemma StronglySorted_filterb {A} (R : A → A → Prop) f l :
  StronglySorted R l → StronglySorted R (filterb f l).
Proof.
  induction 1 as [|x l Hs IH Hx]; simpl; [constructor|]. destruct (f x); [|done].
  constructor; [done|]. rewrite Forall_forall in Hx. apply Forall_forall.
  intros y [Hy _]%elem_of_filterb. auto.
Qed.

(** Two lists of rows sorted by distinct keys with the same elements are equal. *)
Lemma key_sorted_unique {A} (l k : list (Z * A)) :
  StronglySorted key_le l → StronglySorted key_le k →
  NoDup l.*1 → l ≡ₚ k → l = k.
Proof.
  intros Hl; revert k. induction Hl as [|x l Hl IH Hx]; intros k Hk Hnd Hp.
  - by apply Permutation_nil in Hp.
  - destruct k as [|y k]; [by apply Permutation_sym, Permutation_nil in Hp|].
    apply StronglySorted_inv in Hk as [Hk Hy].
    simpl in Hnd. apply NoDup_cons in Hnd as [Hxn Hnd].
    assert (x = y) as ->.
    { assert (y ∈ x :: l) as Hyin by (rewrite Hp; left).
      assert (x ∈ y :: k) as Hxin by (rewrite <- Hp; left).
      apply elem_of_cons in Hyin as [->|Hyin]; [done|].
      apply elem_of_cons in Hxin as [->|Hxin]; [done|].
      rewrite Forall_forall in Hx, Hy. specialize (Hx y Hyin). specialize (Hy x Hxin).
      unfold key_le in *. exfalso. apply Hxn. replace x.1 with y.1 by lia.
      apply list_elem_of_fmap. eauto. }
    f_equal. apply IH; [done|done|]. by apply Permutation_cons_inv in Hp.
Qed.

(** ** Finite maps used as tables *)

(** [UPDATE t SET f WHERE p]: the rows that satisfy [p] are rewritten by [f]. *)
Definition update_where {A} (p : Z → A → bool) (f : A → A) (m : gmap Z A) : gmap Z A :=
  map_imap (λ k x, Some (if p k x then f x else x)) m.

(** The number of affected rows of such a statement. *)
Definition count_where {A} (p : Z → A → bool) (m : gmap Z A) : Z :=
  Z.of_nat (length (filterb (λ kx, p kx.1 kx.2) (map_to_list m))).

(** [DELETE FROM t WHERE p]. *)
Definition delete_where {A} (p : Z → A → bool) (m : gmap Z A) : gmap Z A :=
  map_imap (λ k x, if p k x then None else Some x) m.

Section UpdateWhere.
Context {A : Type}.
Implicit Types (m : gmap Z A) (p : Z → A → bool) (f : A → A).

Lemma lookup_update_where p f m k :
  update_where p f m !! k = (λ x, if p k x then f x else x) <$> m !! k.
Proof. unfold update_where. rewrite map_lookup_imap. by destruct (m !! k). Qed.

Lemma lookup_delete_where p m k :
  delete_where p m !! k = x ← m !! k; if p k x then None else Some x.
Proof. unfold delete_where. rewrite map_lookup_imap. by destruct (m !! k). Qed.

Lemma dom_update_where p f m : dom (update_where p f m) = dom m.
Proof.
  apply set_eq. intros k. rewrite !elem_of_dom, lookup_update_where.
  by rewrite fmap_is_Some.
Qed.

Lemma count_where_zero p m :
  count_where p m = 0%Z ↔ ∀ k x, m !! k = Some x → p k x = false.
Proof.
  unfold count_where. split.
  - intros H k x Hk. destruct (p k x) eqn:Hp; [|done].
    assert ((k, x) ∈ filterb (λ kx, p kx.1 kx.2) (map_to_list m)) as Hin.
    { apply elem_of_filterb. by rewrite elem_of_map_to_list. }
    destruct (filterb _ _); [inversion Hin|simpl in H; lia].
  - intros H. rewrite filterb_false_nil; [done|].
    intros [k x] Hin. apply elem_of_map_to_list in Hin. by apply H.
Qed.

Lemma update_where_none p f m :
  (∀ k x, m !! k = Some x → p k x = false) → update_where p f m = m.
Proof.
  intros H. apply map_eq. intros k. rewrite lookup_update_where.
  destruct (m !! k) as [x|] eqn:Hk; simpl; [|done]. by rewrite H.
Qed.

(** An update on one key is an [alter]. *)
Lemma update_where_key p f m i :
  update_where (λ k x, bool_decide (k = i) && p k x) f m
  = alter (λ x, if p i x then f x else x) i m.
Proof.
  apply map_eq. intros k. rewrite lookup_update_where.
  destruct (decide (k = i)) as [->|Hne].
  - rewrite lookup_alter. rewrite decide_True by done.
    rewrite bool_decide_true by done. done.
  - rewrite lookup_alter_ne by done. rewrite bool_decide_false by done.
    by destruct (m !! k).
Qed.
End UpdateWhere.

(** *** How a count changes *)

Lemma count_where_insert {A} (p : Z → A → bool) m k x :
  m !! k = None → (count_where p (<[k := x]> m) = count_where p m + (if p k x then 1 else 0))%Z.
Proof.
  intros Hk. unfold count_where.
  rewrite (Permutation_length (filterb_Permutation _ _ _ (map_to_list_insert m k x Hk))).
  cbn. destruct (p k x); cbn [length]; lia.
Qed.

Lemma count_where_update {A} (p : Z → A → bool) m k x y : m !! k = Some x →
  (count_where p (<[k := y]> m) + (if p k x then 1 else 0) = count_where p m + (if p k y then 1 else 0))%Z.
Proof.
  intros Hk. rewrite <- (insert_delete_id m k x Hk) at 2. rewrite <- insert_delete_eq.
  rewrite !count_where_insert by apply lookup_delete_eq. lia.
Qed.

Lemma count_where_same {A} (p q : Z → A → bool) (f : A → A) m :
  (∀ k x, m !! k = Some x → q k x = true → p k x = false ∧ p k (f x) = false) →
  count_where p (update_where q f m) = count_where p m.
Proof.
  intros H. unfold count_where. f_equal. apply Permutation_length.
  apply NoDup_Permutation; [apply NoDup_filterb, NoDup_map_to_list..|]. intros [k y].
  rewrite !elem_of_filterb, !elem_of_map_to_list, lookup_update_where. cbn [fst snd].
  destruct (m !! k) as [x|] eqn:Hx; cbn; [|done]. destruct (q k x) eqn:Hq; [|done].
  destruct (H k x Hx Hq) as [H1 H2]. split; intros [[= <-] Hp]; congruence.
Qed.

#[export] Hint Rewrite @lookup_update_where @lookup_delete_where @dom_update_where : sdrw.
