(* ===== verification/GoStrings.v ===== *)
(** * Go's string functions

    The functions of Go's [strings], [strconv] and [unicode/utf8] packages that
    the modelled source calls, on byte strings.  A Go string is a sequence of
    bytes, so a [string] of [ascii] characters is one byte per character.
    [ToLower] maps the ASCII letters and leaves bytes above 127 alone: the
    source applies it to e-mail addresses, domains and header names. *)

From stdpp Require Export pretty.
From Stdlib Require Export Ascii.
From S2P Require Import Prelude.

Local Open Scope string_scope.

Definition byte_val (c : ascii) : N := N_of_ascii c.

(** [fmt]'s %d on an integer. *)
Definition Itoa (z : Z) : string := pretty z.

(** [strings.HasPrefix], [strings.TrimPrefix]. *)
Fixpoint cut_prefix (p s : string) : option string :=
  match p, s with
  | "", _ => Some s
  | String a p', String b s' => if decide (a = b) then cut_prefix p' s' else None
  | String _ _, "" => None
  end.
Definition HasPrefix (s p : string) : bool := bool_decide (is_Some (cut_prefix p s)).
Definition TrimPrefix (s p : string) : string := default s (cut_prefix p s).

(** Byte-order reversal, used for the suffix functions. *)
Fixpoint rev_onto (s acc : string) : string :=
  match s with "" => acc | String a s' => rev_onto s' (String a acc) end.
Definition rev_string (s : string) : string := rev_onto s "".

Definition HasSuffix (s p : string) : bool := HasPrefix (rev_string s) (rev_string p).
Definition TrimSuffix (s p : string) : string :=
  match cut_prefix (rev_string p) (rev_string s) with
  | Some r => rev_string r
  | None => s
  end.

(** [strings.Split] with a one-byte separator: always at least one part. *)
Fixpoint Split (s : string) (sep : ascii) : list string :=
  match s with
  | "" => [""]
  | String a s' =>
    if decide (a = sep) then "" :: Split s' sep
    else match Split s' sep with
         | [] => [String a ""]
         | p :: ps => String a p :: ps
         end
  end.

(** [strings.Join]. *)
Fixpoint Join (l : list string) (sep : string) : string :=
  match l with
  | [] => ""
  | [x] => x
  | x :: l => x +:+ sep +:+ Join l sep
  end.

(** [strings.Index]: the byte offset of the first occurrence of [p]. *)
Fixpoint Index (s p : string) : option nat :=
  if HasPrefix s p then Some 0
  else match s with
       | "" => None
       | String _ s' => S <$> Index s' p
       end.
Definition Contains (s p : string) : bool := bool_decide (is_Some (Index s p)).

(** [strings.ContainsAny] with a set of one-byte characters. *)
Fixpoint ContainsAny (s : string) (cs : list ascii) : bool :=
  match s with
  | "" => false
  | String a s' => bool_decide (a ∈ cs) || ContainsAny s' cs
  end.

(** The text after the last occurrence of [c], as in [s[LastIndex(s, c)+1:]];
    [None] when [c] does not occur. *)
Fixpoint after_last (s : string) (c : ascii) : option string :=
  match s with
  | "" => None
  | String a s' =>
    match after_last s' c with
    | Some r => Some r
    | None => if decide (a = c) then Some s' else None
    end
  end.

Definition lower_ascii (c : ascii) : ascii :=
  let n := byte_val c in
  if ((65 <=? n) && (n <=? 90))%N then ascii_of_N (n + 32) else c.
Fixpoint ToLower (s : string) : string :=
  match s with "" => "" | String a s' => String (lower_ascii a) (ToLower s') end.

Definition upper_ascii (c : ascii) : ascii :=
  let n := byte_val c in if ((97 <=? n) && (n <=? 122))%N then ascii_of_N (n - 32) else c.
Fixpoint ToUpper (s : string) : string :=
  match s with "" => "" | String c s' => String (upper_ascii c) (ToUpper s') end.

(** ** White space *)

Definition bytes (l : list N) : string := foldr (λ n s, String (ascii_of_N n) s) "" l.

(** The code points on which [unicode.IsSpace] holds, in UTF-8. *)
Definition space_runes : list string :=
  ((λ n, bytes [n]) <$> [9; 10; 11; 12; 13; 32]%N)
  ++ (bytes <$> [[194; 133]; [194; 160]; [225; 154; 128]]%N)
  ++ ((λ n, bytes [226; 128; n]%N)
        <$> [128; 129; 130; 131; 132; 133; 134; 135; 136; 137; 138; 168; 169; 175]%N)
  ++ [bytes [226; 129; 159]%N; bytes [227; 128; 128]%N].

(** Drop one leading rune of [rs], if there is one. *)
Fixpoint cut_any (rs : list string) (s : string) : option string :=
  match rs with
  | [] => None
  | r :: rs => match cut_prefix r s with Some t => Some t | None => cut_any rs s end
  end.

(** Every rune is at least one byte, so the length of the text is fuel enough. *)
Fixpoint trim_left (fuel : nat) (rs : list string) (s : string) : string :=
  match fuel with
  | O => s
  | S fuel => match cut_any rs s with Some t => trim_left fuel rs t | None => s end
  end.

Definition TrimLeftSpace (s : string) : string := trim_left (String.length s) space_runes s.
Definition TrimRightSpace (s : string) : string :=
  rev_string (trim_left (String.length s) (rev_string <$> space_runes) (rev_string s)).

(** [strings.TrimSpace]. *)
Definition TrimSpace (s : string) : string := TrimRightSpace (TrimLeftSpace s).

(** [strings.TrimRight] with a one-byte cutset. *)
Definition TrimRight (s : string) (c : ascii) : string :=
  rev_string (trim_left (String.length s) [String c ""] (rev_string s)).

(** ** Integers *)

Definition digit_val (c : ascii) : option Z :=
  let n := Z.of_N (byte_val c) in
  if ((48 <=? n) && (n <=? 57))%Z then Some (n - 48)%Z else None.

Fixpoint digits_val (s : string) (acc : Z) : option Z :=
  match s with
  | "" => Some acc
  | String c s' => d ← digit_val c; digits_val s' (acc * 10 + d)%Z
  end.

Definition max_int64 : Z := 2 ^ 63 - 1.
Definition min_int64 : Z := - 2 ^ 63.

(** [strconv.Atoi] ([strconv.ParseInt] in base 10 on a 64-bit target): an optional
    sign, at least one digit, and a value that fits 64 bits. *)
Definition Atoi (s : string) : option Z :=
  let parse (neg : bool) (t : string) : option Z :=
    match t with
    | "" => None
    | _ => n ← digits_val t 0;
           let v := if neg then (- n)%Z else n in
           if ((min_int64 <=? v) && (v <=? max_int64))%Z then Some v else None
    end in
  match s with
  | String "+" t => parse false t
  | String "-" t => parse true t
  | t => parse false t
  end.

(** ** UTF-8 *)

Definition cont_in (lo hi : N) (c : ascii) : bool :=
  ((lo <=? byte_val c) && (byte_val c <=? hi))%N.

(** The text after the first rune of a non-empty text and whether the rune is a
    valid encoding; an invalid byte is a rune of its own ([utf8.DecodeRune]). *)
Definition decode_rune (c : ascii) (s : string) : bool * string :=
  let n := byte_val c in
  let two lo hi := match s with
    | String a t => if cont_in lo hi a then (true, t) else (false, s)
    | _ => (false, s) end in
  let three lo hi := match s with
    | String a (String b t) =>
      if cont_in lo hi a && cont_in 128 191 b then (true, t) else (false, s)
    | _ => (false, s) end in
  let four lo hi := match s with
    | String a (String b (String d t)) =>
      if cont_in lo hi a && cont_in 128 191 b && cont_in 128 191 d then (true, t) else (false, s)
    | _ => (false, s) end in
  if (n <? 128)%N then (true, s)
  else if ((194 <=? n) && (n <=? 223))%N then two 128%N 191%N
  else if (n =? 224)%N then three 160%N 191%N
  else if (n =? 237)%N then three 128%N 159%N
  else if ((225 <=? n) && (n <=? 239))%N then three 128%N 191%N
  else if (n =? 240)%N then four 144%N 191%N
  else if ((241 <=? n) && (n <=? 243))%N then four 128%N 191%N
  else if (n =? 244)%N then four 128%N 143%N
  else (false, s).

Fixpoint rune_count_fuel (fuel : nat) (s : string) : Z :=
  match fuel, s with
  | S fuel, String c t => (1 + rune_count_fuel fuel (decode_rune c t).2)%Z
  | _, _ => 0%Z
  end.
(** [utf8.RuneCountInString]. *)
Definition RuneCountInString (s : string) : Z := rune_count_fuel (String.length s) s.

Fixpoint valid_fuel (fuel : nat) (s : string) : bool :=
  match fuel, s with
  | S fuel, String c t => let '(ok, t') := decode_rune c t in ok && valid_fuel fuel t'
  | _, _ => true
  end.
(** [utf8.ValidString]. *)
Definition ValidString (s : string) : bool := valid_fuel (String.length s) s.

(** ** Facts *)

Lemma app_string_cons a (s t : string) : String a s +:+ t = String a (s +:+ t).
Proof. done. Qed.

Lemma app_string_nil_r (s : string) : s +:+ "" = s.
Proof. induction s as [|a s IH]; [done|]. by rewrite app_string_cons, IH. Qed.

Lemma app_string_assoc (s t u : string) : (s +:+ t) +:+ u = s +:+ (t +:+ u).
Proof. induction s as [|a s IH]; [done|]. by rewrite !app_string_cons, IH. Qed.

Lemma cut_prefix_Some p s t : cut_prefix p s = Some t ↔ s = p +:+ t.
Proof.
  revert s. induction p as [|a p IH]; intros s; simpl.
  - split; [intros [= ->]; done | by intros ->].
  - destruct s as [|b s]; [split; [done|discriminate]|].
    case_decide; [subst; rewrite IH, app_string_cons; split; [intros ->; done|by intros [= ->]]|].
    split; [done|]. rewrite app_string_cons. intros [= -> _]. done.
Qed.

Lemma TrimPrefix_app p s : TrimPrefix (p +:+ s) p = s.
Proof.
  unfold TrimPrefix. assert (cut_prefix p (p +:+ s) = Some s) as -> by by apply cut_prefix_Some.
  done.
Qed.

Lemma lower_ascii_idem c : lower_ascii (lower_ascii c) = lower_ascii c.
Proof. destruct c as [[] [] [] [] [] [] [] []]; reflexivity. Qed.

Lemma ToLower_idem s : ToLower (ToLower s) = ToLower s.
Proof. induction s as [|c s IH]; simpl; [done|]. by rewrite lower_ascii_idem, IH. Qed.

Example TrimSpace_ex : TrimSpace "  a b	 " = "a b".
Proof. reflexivity. Qed.
Example Split_ex : Split "a,,b" "," = ["a"; ""; "b"].
Proof. reflexivity. Qed.
Example Atoi_ex : Atoi "-12" = Some (-12)%Z ∧ Atoi "1x" = None ∧ Atoi "" = None
  ∧ Atoi "9223372036854775808" = None.
Proof. repeat split; reflexivity. Qed.
Example Itoa_ex : Itoa 42 = "42".
Proof. reflexivity. Qed.

(** ** Separators *)

Fixpoint no_char (c : ascii) (s : string) : bool :=
  match s with
  | EmptyString => true
  | String a s => (a != c) && no_char c s
  end.

(** A separator that a field does not contain delimits it. *)
Lemma split_at c a a' x y : no_char c a = true → no_char c a' = true →
  a +:+ String c x = a' +:+ String c y → a = a' ∧ x = y.
Proof.
  revert a'. induction a as [|b a IH]; intros [|b' a']; cbn; intros H H' Heq; bool_facts.
  - by injection Heq.
  - by injection Heq as -> ?.
  - by injection Heq as -> ?.
  - injection Heq as -> Heq. by destruct (IH a' ltac:(done) ltac:(done) Heq) as [-> ->].
Qed.

Lemma no_char_app c s t : no_char c (s +:+ t) = no_char c s && no_char c t.
Proof.
  induction s as [|a s IH]; [done|]. rewrite app_string_cons. cbn. by rewrite IH, andb_assoc.
Qed.
