(* ===== verification/GoTime.v ===== *)
(** * Instants, durations and calendar dates

    Durations are integers of nanoseconds, as Go's [time.Duration]; [int64] is the
    wrap-around of its 64 bits.  [civil] is the proleptic Gregorian date of an instant
    in UTC, which [time.Time.Format] prints. *)

From S2P Require Import Prelude GoStrings.
Local Open Scope Z_scope.

Definition Nanosecond : Z := 1.
Definition Second : Z := 1000000000.
Definition Minute : Z := 60 * Second.
Definition Hour : Z := 60 * Minute.
Definition Day : Z := 24 * Hour.

(** Go's [int] and [time.Duration] wrap around at 64 bits. *)
Definition int64 (z : Z) : Z := (z + 2 ^ 63) mod 2 ^ 64 - 2 ^ 63.

Lemma int64_id z : min_int64 <= z <= max_int64 → int64 z = z.
Proof.
  unfold int64, min_int64, max_int64. intros Hz. rewrite Z.mod_small; lia.
Qed.

Record civil_date := mkCivil { cv_year : Z; cv_month : Z; cv_day : Z }.

(** The date of a day number counted from 1970-01-01, by 400-year eras of 146097 days
    whose years start in March. *)
Definition civil_of_days (days : Z) : civil_date :=
  let z := days + 719468 in
  let era := z / 146097 in
  let doe := z mod 146097 in
  let yoe := (doe - doe / 1460 + doe / 36524 - doe / 146096) / 365 in
  let doy := doe - (365 * yoe + yoe / 4 - yoe / 100) in
  let mp := (5 * doy + 2) / 153 in
  let d := doy - (153 * mp + 2) / 5 + 1 in
  let m := if mp <? 10 then mp + 3 else mp - 9 in
  mkCivil (yoe + era * 400 + (if m <=? 2 then 1 else 0)) m d.

(** The day number of a date. *)
Definition days_of_civil (c : civil_date) : Z :=
  let y := cv_year c - (if cv_month c <=? 2 then 1 else 0) in
  let era := y / 400 in
  let yoe := y mod 400 in
  let mp := if 2 <? cv_month c then cv_month c - 3 else cv_month c + 9 in
  let doy := (153 * mp + 2) / 5 + cv_day c - 1 in
  let doe := yoe * 365 + yoe / 4 - yoe / 100 + doy in
  era * 146097 + doe - 719468.

(** A decimal number padded with zeros to a width. *)
Definition pad (width : nat) (n : Z) : string :=
  let s := Itoa n in
  foldr (λ _ acc, "0" +:+ acc)%string s (seq 0 (width - String.length s)).

(** [t.UTC().Format(time.RFC3339)]. *)
Definition RFC3339 (t : Z) : string :=
  let secs := t / Second in
  let c := civil_of_days (secs / 86400) in
  let s := secs mod 86400 in
  (pad 4 (cv_year c) +:+ "-" +:+ pad 2 (cv_month c) +:+ "-" +:+ pad 2 (cv_day c)
     +:+ "T" +:+ pad 2 (s / 3600) +:+ ":" +:+ pad 2 (s mod 3600 / 60) +:+ ":" +:+ pad 2 (s mod 60)
     +:+ "Z")%string.

(** 2024-02-29 is day 19782. *)
Example civil_leap_day : civil_of_days 19782 = mkCivil 2024 2 29.
Proof. reflexivity. Qed.
Example RFC3339_leap_day : RFC3339 ((19782 * 86400 + 3723) * Second) = "2024-02-29T01:02:03Z"%string.
Proof. vm_compute. reflexivity. Qed.
