(* ===== verification/GoFloat.v ===== *)
(** * Floating-point numbers and the duration syntax

    Go's [float64] is IEEE 754 binary64 rounded to nearest even.  [Stdlib]'s [SpecFloat]
    computes it on integers, so every operation below evaluates.  [ParseDuration] is
    [time.ParseDuration], which the configuration is read with: its fraction part is
    the one place where it computes in [float64]. *)

From Stdlib Require Import SpecFloat.
From S2P Require Import Prelude GoStrings GoTime.
Local Open Scope Z_scope.

Notation float64 := spec_float.

Definition prec : Z := 53.
Definition emax : Z := 1024.

(** [float64(z)]. *)
Definition f_of_Z (z : Z) : float64 := binary_normalize prec emax z 0 false.
Definition f_add : float64 → float64 → float64 := SFadd prec emax.
Definition f_sub : float64 → float64 → float64 := SFsub prec emax.
Definition f_mul : float64 → float64 → float64 := SFmul prec emax.
Definition f_div : float64 → float64 → float64 := SFdiv prec emax.

(** [m * 2 ^ e]: its integral and fractional parts, for a number that is finite. *)
Definition shift_Z (m e : Z) : Z := if 0 <=? e then m * 2 ^ e else m / 2 ^ (- e).

(** The conversion to an unsigned integer, which truncates. *)
Definition Z_of_f (x : float64) : Z :=
  match x with
  | S754_finite false m e => shift_Z (Z.pos m) e
  | S754_finite true m e => - shift_Z (Z.pos m) e
  | _ => 0
  end.

(** [math.Round]: to the nearest integer, halves away from zero. *)
Definition f_round (x : float64) : float64 :=
  match x with
  | S754_finite s m e =>
    if 0 <=? e then x
    else let r := (2 * Z.pos m + 2 ^ (- e)) / (2 * 2 ^ (- e)) in
         if r =? 0 then S754_zero s
         else binary_normalize prec emax (if s then - r else r) 0 s
  | _ => x
  end.

(** ** [time.ParseDuration] *)

Definition uint64 (z : Z) : Z := z mod 2 ^ 64.

(** The leading digits of a string; [None] when their value passes 2^63. *)
Fixpoint leadingInt (s : string) (x : Z) : option (Z * string) :=
  match s with
  | ""%string => Some (x, s)
  | String c s' =>
    match digit_val c with
    | None => Some (x, s)
    | Some d =>
      if 2 ^ 63 / 10 <? x then None
      else if 2 ^ 63 <? x * 10 + d then None else leadingInt s' (x * 10 + d)
    end
  end.

(** The digits after a point: their value, the power of ten they are scaled by, and
    the rest.  Digits past the range of [int64] are skipped. *)
Fixpoint leadingFraction (s : string) (x : Z) (scale : float64) (overflow : bool)
  : Z * float64 * string :=
  match s with
  | ""%string => (x, scale, s)
  | String c s' =>
    match digit_val c with
    | None => (x, scale, s)
    | Some d =>
      if overflow then leadingFraction s' x scale true
      else if (2 ^ 63 - 1) / 10 <? x then leadingFraction s' x scale true
      else if 2 ^ 63 <? x * 10 + d then leadingFraction s' x scale true
      else leadingFraction s' (x * 10 + d) (f_mul scale (f_of_Z 10)) false
    end
  end.

Definition is_number_byte (c : ascii) : bool :=
  bool_decide (c = "."%char) || bool_decide (is_Some (digit_val c)).

(** The unit is everything up to the next digit or point. *)
Fixpoint span_unit (s : string) : string * string :=
  match s with
  | ""%string => (""%string, ""%string)
  | String c s' => if is_number_byte c then (""%string, s)
                   else let (u, r) := span_unit s' in (String c u, r)
  end.

(** [unitMap]; the micro sign is U+00B5 or U+03BC. *)
Definition unitMap (u : string) : option Z :=
  if u == "ns"%string then Some 1
  else if (u == "us"%string) || (u == bytes [0xC2; 0xB5; 0x73]%N) || (u == bytes [0xCE; 0xBC; 0x73]%N)
       then Some 1000
  else if u == "ms"%string then Some 1000000
  else if u == "s"%string then Some Second
  else if u == "m"%string then Some Minute
  else if u == "h"%string then Some Hour
  else None.

(** [v*unit + f/scale*unit], or [None] on overflow. *)
Definition component_value (v f : Z) (scale : float64) (unit : Z) : option Z :=
  if 2 ^ 63 / unit <? v then None
  else let v := v * unit in
       if 0 <? f then
         let v := uint64 (v + Z_of_f (f_mul (f_of_Z f) (f_div (f_of_Z unit) scale))) in
         if 2 ^ 63 <? v then None else Some v
       else Some v.

(** One round of the loop: a number with its unit. *)
Definition duration_component (s : string) : option (Z * string) :=
  match s with
  | String c _ =>
    if negb (is_number_byte c) then None
    else
      '(v, s1) ← leadingInt s 0;
      let pre := String.length s != String.length s1 in
      let '(f, scale, s2, post) :=
        match s1 with
        | String "." s1' =>
            let '(f, scale, s2) := leadingFraction s1' 0 (f_of_Z 1) false in
            (f, scale, s2, String.length s1' != String.length s2)
        | _ => (0, f_of_Z 1, s1, false)
        end in
      if negb pre && negb post then None
      else
        let (u, s3) := span_unit s2 in
        if u == ""%string then None
        else unit ← unitMap u; v ← component_value v f scale unit; Some (v, s3)
  | ""%string => None
  end.

(** Each round consumes a byte at least, so the length of the text is fuel enough. *)
Fixpoint duration_loop (fuel : nat) (s : string) (d : Z) : option Z :=
  match s, fuel with
  | ""%string, _ => Some d
  | _, O => None
  | _, S fuel =>
    '(v, s') ← duration_component s;
    let d := uint64 (d + v) in
    if 2 ^ 63 <? d then None else duration_loop fuel s' d
  end.

Definition ParseDuration (s : string) : option Z :=
  let (neg, s) := match s with
                  | String "-" s' => (true, s')
                  | String "+" s' => (false, s')
                  | _ => (false, s)
                  end in
  if s == "0"%string then Some 0
  else if s == ""%string then None
  else
    d ← duration_loop (String.length s) s 0;
    if neg : bool then Some (int64 (- d))
    else if 2 ^ 63 - 1 <? d then None else Some d.

Example duration_samples :
  ParseDuration "30s" = Some (30 * Second) ∧ ParseDuration "1h15m30.918273645s" = Some 4530918273645
  ∧ ParseDuration "-1.5h" = Some (-90 * Minute) ∧ ParseDuration "5" = None
  ∧ ParseDuration "9223372036854775807ns" = Some max_int64
  ∧ ParseDuration "9223372036854775808ns" = None ∧ ParseDuration ".5" = None
  ∧ ParseDuration "" = None ∧ ParseDuration "0" = Some 0.
Proof. vm_compute. done. Qed.

(** ** Range *)

Lemma leadingInt_range s x v r : 0 <= x <= 2 ^ 63 → leadingInt s x = Some (v, r) → 0 <= v <= 2 ^ 63.
Proof.
  revert x. induction s as [|c s IH]; intros x Hx; cbn [leadingInt]; [by intros [= <- <-]|].
  destruct (digit_val c) as [d|] eqn:Hd; [|by intros [= <- <-]].
  destruct (_ <? x); [done|]. destruct (_ <? _) eqn:Hov; [done|]. bool_facts. apply IH.
  assert (0 <= d). { unfold digit_val in Hd. split_ifs_in Hd; [|done]. simplify_eq. bool_facts. lia. }
  lia.
Qed.

Lemma uint64_range z : 0 <= uint64 z < 2 ^ 64.
Proof. apply Z.mod_pos_bound. lia. Qed.

Lemma duration_loop_range fuel s d r : 0 <= d <= 2 ^ 63 →
  duration_loop fuel s d = Some r → 0 <= r <= 2 ^ 63.
Proof.
  revert s d. induction fuel as [|fuel IH]; intros [|c s] d Hd; cbn [duration_loop];
    try (by intros [= <-]); try done.
  destruct (duration_component _) as [[v s']|]; [|done]. cbn. destruct (_ <? _) eqn:Hov; [done|].
  bool_facts. pose proof (uint64_range (d + v)). apply IH. lia.
Qed.

(** A parsed duration is an [int64]. *)
Lemma ParseDuration_range s d : ParseDuration s = Some d → min_int64 <= d <= max_int64.
Proof.
  unfold ParseDuration.
  set (p := match s with String "-" _ => _ | _ => _ end). destruct p as [neg t].
  destruct (t == "0"%string); [intros [= <-]; unfold min_int64, max_int64; lia|].
  destruct (t == ""%string); [done|].
  destruct (duration_loop _ t 0) as [r|] eqn:Hr; [|done]. cbn.
  apply duration_loop_range in Hr; [|lia]. destruct neg.
  - intros [= <-]. unfold int64, min_int64, max_int64.
    pose proof (Z.mod_pos_bound (- r + 2 ^ 63) (2 ^ 64)). lia.
  - destruct (_ <? _) eqn:Hov; [done|]. intros [= <-]. bool_facts. unfold min_int64, max_int64. lia.
Qed.

(** ** The loop ends by itself *)

Lemma leadingInt_length s x v r : leadingInt s x = Some (v, r) → (String.length r ≤ String.length s)%nat.
Proof.
  revert x. induction s as [|c s IH]; intros x; cbn [leadingInt String.length]; [by intros [= _ <-]|].
  destruct (digit_val c); [|by intros [= _ <-]].
  destruct (_ <? x); [done|]. destruct (_ <? _); [done|]. intros H%IH. lia.
Qed.

Lemma leadingFraction_length s x scale ov f sc r : leadingFraction s x scale ov = (f, sc, r) →
  (String.length r ≤ String.length s)%nat.
Proof.
  revert x scale ov. induction s as [|c s IH]; intros x scale ov; cbn [leadingFraction String.length];
    [by intros [= _ _ <-]|].
  destruct (digit_val c); [|by intros [= _ _ <-]].
  destruct ov; [intros H%IH; lia|]. destruct (_ <? x); [intros H%IH; lia|].
  destruct (_ <? _); intros H%IH; lia.
Qed.

Lemma span_unit_length s u r : span_unit s = (u, r) → u ≠ ""%string →
  (String.length r < String.length s)%nat.
Proof.
  intros H Hu. assert (∀ s u r, span_unit s = (u, r) → String.length s = (String.length u + String.length r)%nat) as HL.
  { clear. induction s as [|c s IH]; intros u r; cbn [span_unit]; [by intros [= <- <-]|].
    destruct (is_number_byte c); [by intros [= <- <-]|].
    destruct (span_unit s) as [u' r'] eqn:Hs. intros [= <- <-]. cbn. by rewrite (IH _ _ eq_refl). }
  rewrite (HL _ _ _ H). destruct u; [done|]. cbn. lia.
Qed.

Lemma duration_component_length s v r : duration_component s = Some (v, r) →
  (String.length r < String.length s)%nat.
Proof.
  destruct s as [|c s]; [done|]. cbn [duration_component]. destruct (negb (is_number_byte c)); [done|].
  destruct (leadingInt (String c s) 0) as [[v0 s1]|] eqn:Hi; [|done]. cbn [mbind option_bind].
  apply leadingInt_length in Hi.
  set (p := match s1 with String "." _ => _ | _ => _ end).
  assert (String.length p.1.2 ≤ String.length s1)%nat as Hp.
  { subst p. destruct s1 as [|a s1']; [done|].
    destruct a as [[] [] [] [] [] [] [] []]; try (cbn; lia).
    destruct (leadingFraction _ _ _ _) as [[f sc] s2] eqn:Hf. apply leadingFraction_length in Hf. cbn. lia. }
  destruct p as [[[f sc] s2] post]. cbn [fst snd] in Hp. destruct (_ && _); [done|].
  destruct (span_unit s2) as [u s3] eqn:Hs. destruct (u == ""%string) eqn:Hu; [done|]. bool_facts.
  destruct (unitMap u); [|done]. cbn [mbind option_bind].
  destruct (component_value _ _ _ _); [|done]. cbn [mbind option_bind]. intros [= _ <-].
  pose proof (span_unit_length _ _ _ Hs Hu). lia.
Qed.

(** More rounds than bytes change nothing: the fuel is never used up. *)
Lemma duration_loop_fuel n m s d : (String.length s ≤ n)%nat → (String.length s ≤ m)%nat →
  duration_loop n s d = duration_loop m s d.
Proof.
  revert m s d. induction n as [|n IH]; intros m [|c s] d Hn Hm; try (by destruct m); cbn in Hn; [lia|].
  destruct m as [|m]; cbn in Hm; [lia|]. cbn [duration_loop].
  destruct (duration_component _) as [[v r]|] eqn:Hc; [|done]. cbn.
  apply duration_component_length in Hc. cbn in Hc. destruct (_ <? _); [done|]. apply IH; lia.
Qed.
