(* ===== verification/GoSort.v ===== *)
(** * [sort.Slice] on short lists

    Up to twelve elements [sort.Slice] is an insertion sort: each element moves left past
    the ones it is less than.  The lists the service sorts this way (ten events of a
    feed, twelve months of a report) are that short. *)

From S2P Require Import Prelude.

Section Sort.
Context {A : Type} (less : A → A → bool).

(** Insert into the sorted prefix, which is kept reversed: from its end to the left. *)
Fixpoint insert_back (x : A) (rp : list A) : list A :=
  match rp with
  | [] => [x]
  | y :: rp => if less x y then y :: insert_back x rp else x :: y :: rp
  end.
Definition SliceSort (l : list A) : list A := reverse (foldl (λ rp x, insert_back x rp) [] l).

Lemma insert_back_perm x rp : insert_back x rp ≡ₚ x :: rp.
Proof.
  induction rp as [|y rp IH]; cbn; [done|]. destruct (less x y); [|done]. rewrite IH. constructor.
Qed.

Lemma SliceSort_perm l : SliceSort l ≡ₚ l.
Proof.
  unfold SliceSort. rewrite reverse_Permutation.
  assert (∀ rp, foldl (λ rp x, insert_back x rp) rp l ≡ₚ rp ++ l) as H; [|by rewrite H].
  induction l as [|x l IH]; intros rp; cbn; [by rewrite app_nil_r|].
  rewrite IH, insert_back_perm. apply Permutation_middle.
Qed.

(** [le x y]: [y] is not less than [x], so [x] may stand before [y]. *)
Definition sort_le (x y : A) : Prop := less y x = false.

Context (total : ∀ x y, less x y = true → sort_le x y).
Context (trans : ∀ x y z, sort_le x y → sort_le y z → sort_le x z).

Lemma insert_back_sorted x rp : StronglySorted (flip sort_le) rp →
  StronglySorted (flip sort_le) (insert_back x rp).
Proof.
  induction 1 as [|y rp Hrp IH Hy]; cbn; [repeat constructor|]. destruct (less x y) eqn:Hl.
  - constructor; [done|]. rewrite Forall_forall in Hy. apply Forall_forall. intros z Hz.
    rewrite insert_back_perm in Hz. apply elem_of_cons in Hz as [->|Hz]; [by apply total|auto].
  - constructor; [by constructor|]. constructor; [done|]. rewrite Forall_forall in Hy.
    apply Forall_forall. intros z Hz. apply trans with y; [apply Hy, Hz|done].
Qed.

Lemma StronglySorted_snoc (R : A → A → Prop) l x :
  StronglySorted R l → Forall (λ y, R y x) l → StronglySorted R (l ++ [x]).
Proof.
  induction 1 as [|y l Hl IH Hy]; intros Hx; cbn; [repeat constructor|].
  apply Forall_cons in Hx as [Hyx Hx]. constructor; [auto|].
  apply Forall_app. split; [done|]. by constructor.
Qed.

Lemma StronglySorted_reverse (R : A → A → Prop) l :
  StronglySorted (flip R) l → StronglySorted R (reverse l).
Proof.
  induction 1 as [|x l Hl IH Hx]; [constructor|]. rewrite reverse_cons. apply StronglySorted_snoc; [done|].
  rewrite Forall_forall in Hx. apply Forall_forall. intros y Hy. apply Hx. by rewrite <- elem_of_reverse.
Qed.

Lemma SliceSort_sorted l : StronglySorted sort_le (SliceSort l).
Proof.
  unfold SliceSort. apply StronglySorted_reverse.
  assert (∀ rp, StronglySorted (flip sort_le) rp →
    StronglySorted (flip sort_le) (foldl (λ rp x, insert_back x rp) rp l)) as H; [|apply H; constructor].
  induction l as [|x l IH]; intros rp Hrp; cbn; [done|]. apply IH. by apply insert_back_sorted.
Qed.
End Sort.

(** ** Sorted lists *)

Lemma StronglySorted_app_intro {A} (R : A → A → Prop) l k :
  StronglySorted R l → StronglySorted R k → (∀ x y, x ∈ l → y ∈ k → R x y) → StronglySorted R (l ++ k).
Proof.
  induction 1 as [|x l Hl IH Hx]; intros Hk Hlk; [done|]. cbn. constructor.
  - apply IH; [done|]. intros a b Ha Hb. apply Hlk; [by right|done].
  - apply Forall_app. split; [done|]. apply Forall_forall. intros y Hy. apply Hlk; [left|done].
Qed.

Lemma StronglySorted_impl_in {A} (R S : A → A → Prop) l :
  (∀ x y, x ∈ l → y ∈ l → R x y → S x y) → StronglySorted R l → StronglySorted S l.
Proof.
  intros H. induction 1 as [|x l Hl IH Hx]; constructor.
  - apply IH. intros a b Ha Hb. apply H; by right.
  - rewrite Forall_forall in Hx. apply Forall_forall. intros y Hy. apply H; [left|by right|auto].
Qed.
