(* ===== verification/Calendar.v ===== *)
(** * Months

    [time.Date] on the first of a month, [AddDate] by months, and [Year] and [Month] of
    an instant, as numbers of months counted from year 0: what the availability report
    and the feeds compute with.  The lemmas show that every instant lies in its month
    and that the months follow each other without a gap. *)

From S2P Require Import Prelude GoStrings GoTime.
Local Open Scope Z_scope.

(** [t.Year()] and [t.Month()] as one number, [12 * year + month - 1]. *)
Definition month_of_civil (c : civil_date) : Z := 12 * cv_year c + cv_month c - 1.
Definition month_of (t : Z) : Z := month_of_civil (civil_of_days (t / Day)).
Definition year_of_month (k : Z) : Z := k / 12.
Definition month_in_year (k : Z) : Z := k mod 12 + 1.

(** [time.Date(year, month, 1, 0, 0, 0, 0, time.UTC)]; [AddDate] by months on such a
    date adds to the number. *)
Definition month_start_days (k : Z) : Z := days_of_civil (mkCivil (year_of_month k) (month_in_year k) 1).
Definition month_start (k : Z) : Z := month_start_days k * Day.

(** ** Years from March *)

(** Days before the year [y], counted from March of year 0. *)
Definition year_days (y : Z) : Z := 365 * y + y / 4 - y / 100 + y / 400.
Definition month_days (mp : Z) : Z := (153 * mp + 2) / 5.

Lemma era_year doe : 0 <= doe < 146097 →
  let y := (doe - doe / 1460 + doe / 36524 - doe / 146096) / 365 in
  0 <= y <= 399 ∧ year_days y <= doe < year_days (y + 1).
Proof. intros H y. unfold year_days. subst y. Z.to_euclidean_division_equations. lia. Qed.

Lemma year_days_era e y : 0 <= y < 400 → year_days (y + 400 * e) = 146097 * e + year_days y.
Proof. intros H. unfold year_days. Z.to_euclidean_division_equations. lia. Qed.

Lemma year_days_small y : 0 <= y < 400 → year_days y = y * 365 + y / 4 - y / 100.
Proof. intros H. unfold year_days. Z.to_euclidean_division_equations. lia. Qed.

Lemma year_days_length y : 365 <= year_days (y + 1) - year_days y <= 366.
Proof. unfold year_days. Z.to_euclidean_division_equations. lia. Qed.

Lemma month_days_mono mp : 0 <= mp → month_days mp + 28 <= month_days (mp + 1).
Proof. intros H. unfold month_days. Z.to_euclidean_division_equations. lia. Qed.

(** The months of a year, the last one up to the next year. *)
Lemma month_start_march k : month_start_days k
  = year_days ((k - 2) / 12) + month_days ((k - 2) mod 12) - 719468.
Proof.
  unfold month_start_days, days_of_civil, month_in_year, year_of_month. cbn [cv_year cv_month cv_day].
  set (y := k / 12 - _).
  set (mp := if 2 <? k mod 12 + 1 then _ else _).
  assert (y = (k - 2) / 12 ∧ mp = (k - 2) mod 12) as [-> ->].
  { subst y mp. destruct (k mod 12 + 1 <=? 2) eqn:H1, (2 <? k mod 12 + 1) eqn:H2; bool_facts;
      Z.to_euclidean_division_equations; lia. }
  set (y := (k - 2) / 12). unfold month_days.
  pose proof (Z.div_mod y 400 ltac:(lia)) as Hy. pose proof (Z.mod_pos_bound y 400 ltac:(lia)) as Hm.
  assert (year_days y = 146097 * (y / 400) + year_days (y mod 400)) as ->.
  { rewrite <- year_days_era by lia. f_equal. lia. }
  rewrite year_days_small by lia. lia.
Qed.

(** The year, the day in the year and the month of a day within an era. *)
Lemma march_bounds doe : 0 <= doe < 146097 →
  let y := (doe - doe / 1460 + doe / 36524 - doe / 146096) / 365 in
  let doy := doe - (365 * y + y / 4 - y / 100) in
  let mp := (5 * doy + 2) / 153 in
  0 <= y <= 399 ∧ doe = year_days y + doy ∧ 0 <= doy < year_days (y + 1) - year_days y
  ∧ 0 <= mp <= 11 ∧ month_days mp <= doy < month_days (mp + 1).
Proof.
  intros H y doy mp. destruct (era_year doe H) as [Hy [Hlo Hhi]]. fold y in Hy, Hlo, Hhi.
  pose proof (year_days_small y ltac:(lia)) as Hys. pose proof (year_days_length y) as Hlen.
  assert (doy = doe - year_days y) as Hd by (subst doy; lia).
  split_and!; try lia; subst mp; unfold month_days; Z.to_euclidean_division_equations; lia.
Qed.

(** The number of the month of a day, by its year and month from March. *)
Lemma month_of_days_march d :
  let z := d + 719468 in
  let doe := z mod 146097 in
  let yoe := (doe - doe / 1460 + doe / 36524 - doe / 146096) / 365 in
  let doy := doe - (365 * yoe + yoe / 4 - yoe / 100) in
  month_of_civil (civil_of_days d) = 12 * (yoe + 400 * (z / 146097)) + (5 * doy + 2) / 153 + 2.
Proof.
  intros z doe yoe doy. unfold month_of_civil, civil_of_days. fold z. fold doe. fold yoe. fold doy.
  cbn [cv_year cv_month]. set (mp := (5 * doy + 2) / 153).
  destruct (march_bounds doe (Z.mod_pos_bound z 146097 ltac:(lia))) as (_ & _ & _ & Hmp & _).
  fold yoe in Hmp. fold doy in Hmp. fold mp in Hmp.
  destruct (mp <? 10) eqn:H1; destruct (_ <=? 2) eqn:H2; bool_facts; lia.
Qed.

(** The day lies between the starts of its month and of the next one. *)
Lemma month_of_days_bounds d : let k := month_of_civil (civil_of_days d) in
  month_start_days k <= d < month_start_days (k + 1).
Proof.
  cbv zeta. pose proof (month_of_days_march d) as Hk. cbv zeta in Hk.
  set (z := d + 719468) in *. set (doe := z mod 146097) in *. set (e := z / 146097) in *.
  pose proof (march_bounds doe (Z.mod_pos_bound z 146097 ltac:(lia))) as HM. cbv zeta in HM.
  set (y := (doe - doe / 1460 + doe / 36524 - doe / 146096) / 365) in *.
  set (doy := doe - (365 * y + y / 4 - y / 100)) in *. set (mp := (5 * doy + 2) / 153) in *.
  set (k := month_of_civil _) in *. destruct HM as (Hy & Hdoe & Hdoy & Hmp & Hmd).
  clearbody mp doy y.
  pose proof (Z.div_mod z 146097 ltac:(lia)) as Hz. fold e doe in Hz.
  assert ((k - 2) / 12 = y + 400 * e ∧ (k - 2) mod 12 = mp) as [Hq Hr].
  { rewrite Hk. split; [symmetry; apply (Z.div_unique _ _ _ mp); lia|
      symmetry; apply (Z.mod_unique _ _ (y + 400 * e)); lia]. }
  rewrite !month_start_march, Hq, Hr, year_days_era by lia. split; [lia|].
  destruct (decide (mp = 11)) as [Hm|Hm].
  - assert ((k + 1 - 2) / 12 = y + 1 + 400 * e ∧ (k + 1 - 2) mod 12 = 0) as [-> ->].
    { rewrite Hk. split; [symmetry; apply (Z.div_unique _ _ _ 0); lia|
        symmetry; apply (Z.mod_unique _ _ (y + 1 + 400 * e)); lia]. }
    assert (year_days (y + 1 + 400 * e) = 146097 * e + year_days (y + 1)) as ->.
    { unfold year_days. Z.to_euclidean_division_equations. lia. }
    change (month_days 0) with 0. lia.
  - assert ((k + 1 - 2) / 12 = y + 400 * e ∧ (k + 1 - 2) mod 12 = mp + 1) as [-> ->].
    { rewrite Hk. split; [symmetry; apply (Z.div_unique _ _ _ (mp + 1)); lia|
        symmetry; apply (Z.mod_unique _ _ (y + 400 * e)); lia]. }
    rewrite year_days_era by lia. lia.
Qed.

(** A month has 28 to 31 days. *)
Lemma month_length k : 28 <= month_start_days (k + 1) - month_start_days k <= 31.
Proof.
  rewrite !month_start_march. set (j := k - 2). replace (k + 1 - 2) with (j + 1) by lia.
  pose proof (Z.div_mod j 12 ltac:(lia)) as Hj. pose proof (Z.mod_pos_bound j 12 ltac:(lia)) as Hm.
  destruct (decide (j mod 12 = 11)) as [He|Hne].
  - assert ((j + 1) / 12 = j / 12 + 1 ∧ (j + 1) mod 12 = 0) as [-> ->].
    { split; [symmetry; apply (Z.div_unique _ _ _ 0); lia|symmetry; apply (Z.mod_unique _ _ (j / 12 + 1)); lia]. }
    pose proof (year_days_length (j / 12)). rewrite He. change (month_days 0) with 0.
    change (month_days 11) with 337. lia.
  - assert ((j + 1) / 12 = j / 12 ∧ (j + 1) mod 12 = j mod 12 + 1) as [-> ->].
    { split; [symmetry; apply (Z.div_unique _ _ _ (j mod 12 + 1)); lia|
        symmetry; apply (Z.mod_unique _ _ (j / 12)); lia]. }
    unfold month_days. generalize dependent (j mod 12). intros mp ? ? ?.
    Z.to_euclidean_division_equations. lia.
Qed.

(** ** Instants *)

Lemma month_start_lt k : month_start k < month_start (k + 1).
Proof. unfold month_start, Day, Hour, Minute, Second. pose proof (month_length k). lia. Qed.

Lemma month_start_mono a b : a <= b → month_start a <= month_start b.
Proof.
  intros H. replace b with (a + Z.of_nat (Z.to_nat (b - a))) by lia.
  induction (Z.to_nat (b - a)) as [|n IH]; [rewrite Z.add_0_r; lia|].
  pose proof (month_start_lt (a + Z.of_nat n)). rewrite Nat2Z.inj_succ.
  replace (a + Z.succ (Z.of_nat n)) with (a + Z.of_nat n + 1) by lia. lia.
Qed.

Lemma month_of_bounds t : month_start (month_of t) <= t < month_start (month_of t + 1).
Proof.
  unfold month_start, month_of. pose proof (month_of_days_bounds (t / Day)) as H. cbv zeta in H.
  pose proof (Z.div_mod t Day ltac:(done)). pose proof (Z.mod_pos_bound t Day ltac:(done)).
  assert (0 < Day) by done. nia.
Qed.

(** The month of an instant is the one it lies in. *)
Lemma month_of_unique t k : month_start k <= t < month_start (k + 1) → month_of t = k.
Proof.
  intros H. pose proof (month_of_bounds t) as Hb.
  destruct (Z.lt_trichotomy (month_of t) k) as [Hlt|[?|Hgt]]; [|done|].
  - pose proof (month_start_mono (month_of t + 1) k). lia.
  - pose proof (month_start_mono (k + 1) (month_of t)). lia.
Qed.

Lemma month_of_start k : month_of (month_start k) = k.
Proof. apply month_of_unique. pose proof (month_start_lt k). lia. Qed.

Lemma month_of_mono s t : s <= t → month_of s <= month_of t.
Proof.
  intros H. destruct (Z.le_gt_cases (month_of s) (month_of t)) as [|Hgt]; [done|].
  pose proof (month_of_bounds s). pose proof (month_of_bounds t).
  pose proof (month_start_mono (month_of t + 1) (month_of s)). lia.
Qed.

(** February 2024 starts on day 19754 and has 29 days. *)
Example february_2024 :
  month_start_days (2024 * 12 + 1) = 19754 ∧ month_start_days (2024 * 12 + 2) = 19783.
Proof. done. Qed.
