(* ===== verification/Errors.v ===== *)
(** * Error values

    The sentinel errors of [internal/db/errors.go], [internal/db/notification.go]
    and [internal/api/errors], the errors the Ent client reports, and the messages
    the API puts in [errMsg]. *)

From S2P Require Import Prelude GoStrings.
Local Open Scope string_scope.

(** Errors of the storage facade. *)
Inductive db_err :=
| ErrDBComponentDSNotExist
| ErrDBComponentExists
| ErrDBIncidentDSNotExist
| ErrIncidentStartDateRequired
| ErrIncidentTextRequired
| ErrDBEventUpdateDSNotExist
| ErrDBIncidentFilterActiveFalse
| ErrDBVersionConflict
| ErrNotificationSchemaMissing
| ErrLockBusy
| ErrNotificationDuplicate
| ErrNotificationNotFound.
#[global] Instance db_err_eq_dec : EqDecision db_err.
Proof. solve_decision. Defined.

(** Errors the Ent client distinguishes: a missing row, a violated constraint, a
    field validator of the schema. *)
Inductive ent_err := NotFoundError | ConstraintError | ValidationError.
#[global] Instance ent_err_eq_dec : EqDecision ent_err.
Proof. solve_decision. Defined.

(** Errors of the API layer. *)
Inductive api_err :=
| ErrAuthNotAuthenticated
| ErrAuthTokenInvalid
| ErrAuthForbidden
| ErrInsufficientRole
| ErrComponentDSNotExist
| NewErrComponentDSNotExist (componentID : Z)
| ErrComponentExist
| ErrComponentInvalidFormat
| ErrComponentAttrInvalidFormat
| ErrComponentTypeAttrMissing
| ErrComponentCategoryAttrMissing
| ErrPageNotFound
| ErrInternalError
| ErrIncidentDSNotExist
| ErrIncidentEndDateShouldBeEmpty
| ErrIncidentStartDateInFuture
| ErrIncidentUpdatesShouldBeEmpty
| ErrIncidentDescriptionTooLong
| ErrIncidentTypeImpactMismatch
| ErrIncidentInvalidType
| ErrIncidentSystemCreationWrongType
| ErrIncidentCreationMaintenanceExists
| ErrIncidentCreationLowImpact
| ErrIncidentFQueryInvalidFormat
| ErrIncidentPatchMaintenanceImpactForbidden
| ErrIncidentPatchMaintenanceStatus
| ErrIncidentPatchInfoStatus
| ErrIncidentPatchIncidentStatus
| ErrIncidentPatchClosedStatus
| ErrIncidentPatchOpenedStartDate
| ErrIncidentPatchOpenedEndDateMissing
| ErrIncidentPatchImpactStatusWrong
| ErrIncidentPatchTypeForbidden
| ErrMaintenanceEndDateEmpty
| ErrUpdateTextEmpty
| ErrUpdateDSNotExist
| ErrMaintenanceContactEmailRequired
| ErrMaintenanceContactEmailInvalid
| ErrMaintenanceEndDateBeforeStart
| ErrMaintenanceDescriptionRequired
| NewErrMaintenanceContactEmailDomain (allowed : list string)
| NewErrNotificationStatusInvalid (allowed : list string)
| NewErrNotificationLimitInvalid (maxLimit : Z)
| NewErrNotificationRedriveLimitInvalid (maxIDs : Z)
| ErrExtractForbiddenRole
| ErrExtractForbiddenType
| ErrVersionConflict
| ErrMaintenanceStatusTransitionConflict.
#[global] Instance api_err_eq_dec : EqDecision api_err.
Proof. solve_decision. Defined.

(** A Go [error] value: one of the above, a failure of the database driver, or an
    error built in place from a message. *)
Inductive err :=
| EDb (e : db_err)
| EEnt (e : ent_err)
| EApi (e : api_err)
| ESql
| EMsg (msg : string).
#[global] Instance err_eq_dec : EqDecision err.
Proof. solve_decision. Defined.

(** The text of an API error, as [err.Error()] returns it. *)
Definition api_err_text (e : api_err) : string :=
  match e with
  | ErrAuthNotAuthenticated => "not authenticated"
  | ErrAuthTokenInvalid => "token invalid"
  | ErrAuthForbidden => "access is denied"
  | ErrInsufficientRole => "insufficient role"
  | ErrComponentDSNotExist => "component does not exist"
  | NewErrComponentDSNotExist id => "component does not exist, component_id: " +:+ Itoa id
  | ErrComponentExist => "component already exists"
  | ErrComponentInvalidFormat => "component invalid format"
  | ErrComponentAttrInvalidFormat => "component attribute has invalid format"
  | ErrComponentTypeAttrMissing =>
      "component attribute type is missing or invalid"
  | ErrComponentCategoryAttrMissing =>
      "component attribute category is missing or invalid"
  | ErrPageNotFound => "page not found"
  | ErrInternalError => "internal server error"
  | ErrIncidentDSNotExist => "event does not exist"
  | ErrIncidentEndDateShouldBeEmpty => "event end_date should be empty"
  | ErrIncidentStartDateInFuture => "event start_date should not be in the future"
  | ErrIncidentUpdatesShouldBeEmpty => "event updates should be empty"
  | ErrIncidentDescriptionTooLong => "event description should be 1500 characters or fewer"
  | ErrIncidentTypeImpactMismatch =>
      "impact must be 0 for type 'maintenance' or 'info' and gt 0 for 'incident'"
  | ErrIncidentInvalidType =>
      "event type is invalid, must be 'maintenance' 'info' or 'incident'"
  | ErrIncidentSystemCreationWrongType => "system incident must be of type 'incident'"
  | ErrIncidentCreationMaintenanceExists =>
      "event creation failed, component has active or planned maintenance"
  | ErrIncidentCreationLowImpact =>
      "incident creation failed, exists the incident with higher impact for component"
  | ErrIncidentFQueryInvalidFormat => "filter query parameter has an invalid format or value"
  | ErrIncidentPatchMaintenanceImpactForbidden =>
      "can not change impact for maintenance"
  | ErrIncidentPatchMaintenanceStatus => "wrong status for maintenance"
  | ErrIncidentPatchInfoStatus => "wrong status for info event"
  | ErrIncidentPatchIncidentStatus => "wrong status for incident"
  | ErrIncidentPatchClosedStatus => "wrong status for closed incident"
  | ErrIncidentPatchOpenedStartDate => "can not change start date for open incident"
  | ErrIncidentPatchOpenedEndDateMissing =>
      "wrong end date with resolved status"
  | ErrIncidentPatchImpactStatusWrong => "wrong status for changing impact"
  | ErrIncidentPatchTypeForbidden => "can not change event type"
  | ErrMaintenanceEndDateEmpty => "maintenance end_date is empty"
  | ErrUpdateTextEmpty => "text field is required"
  | ErrUpdateDSNotExist => "update does not exist"
  | ErrMaintenanceContactEmailRequired =>
      "contact_email is required for maintenance"
  | ErrMaintenanceContactEmailInvalid => "contact_email has invalid format"
  | ErrMaintenanceEndDateBeforeStart => "end_date must be after start_date"
  | ErrMaintenanceDescriptionRequired => "description is required for maintenance"
  | NewErrMaintenanceContactEmailDomain l =>
      "contact_email domain is not allowed, permitted domains: " +:+ Join l ", "
  | NewErrNotificationStatusInvalid l => "invalid status, expected one of: " +:+ Join l ", "
  | NewErrNotificationLimitInvalid n =>
      "invalid limit, expected a number in range 1:" +:+ Itoa n
  | NewErrNotificationRedriveLimitInvalid n => "too many ids, expected at most " +:+ Itoa n
  | ErrExtractForbiddenRole => "extract is only available for operators and admins"
  | ErrExtractForbiddenType => "extract is only available for incident type events"
  | ErrVersionConflict => "version conflict: event has been modified by another user"
  | ErrMaintenanceStatusTransitionConflict =>
      "status transition not allowed for current event state"
  end.
