(* ===== verification/Event.v ===== *)
(** * Event types and statuses ([internal/event/event.go])

    [Status] is a Go string type: constants of different event types share a value
    ("planned", "completed", "cancelled"), and a stored status may be any text. *)

From S2P Require Import Prelude GoStrings.
Local Open Scope string_scope.

Definition TypeInformation : string := "info".
Definition TypeIncident : string := "incident".
Definition TypeMaintenance : string := "maintenance".

Definition Status : Type := string.

Definition OutDatedSystem : Status := "SYSTEM".

(** Incident statuses. *)
Definition IncidentDetected : Status := "detected".
Definition IncidentAnalysing : Status := "analysing".
Definition IncidentFixing : Status := "fixing".
Definition IncidentImpactChanged : Status := "impact changed".
Definition IncidentObserving : Status := "observing".
Definition IncidentResolved : Status := "resolved".
Definition IncidentReopened : Status := "reopened".
Definition IncidentChanged : Status := "changed".

Definition IncidentDetectedStatusText : string := "The incident is detected.".

Definition IsIncidentOpenStatus (status : Status) : bool :=
  bool_decide (status ∈ [IncidentDetected; IncidentAnalysing; IncidentFixing;
    IncidentImpactChanged; IncidentObserving; IncidentResolved]).

Definition IsIncidentClosedStatus (status : Status) : bool :=
  bool_decide (status ∈ [IncidentReopened; IncidentChanged]).

(** Maintenance statuses. *)
Definition MaintenancePendingReview : Status := "pending_review".
Definition MaintenanceReviewed : Status := "reviewed".
Definition MaintenancePlanned : Status := "planned".
Definition MaintenanceInProgress : Status := "in_progress".
Definition MaintenanceModified : Status := "modified".
Definition MaintenanceCompleted : Status := "completed".
Definition MaintenanceCancelled : Status := "cancelled".

Definition MaintenancePendingReviewStatusText : string := "Maintenance is pending_review.".
Definition MaintenancePlannedStatusText : string := "Maintenance is planned.".
Definition MaintenanceInProgressStatusText : string := "Maintenance is in_progress.".
Definition MaintenanceCompletedStatusText : string := "Maintenance is completed.".

Definition IsMaintenanceStatus (status : Status) : bool :=
  bool_decide (status ∈ [MaintenancePendingReview; MaintenanceReviewed; MaintenancePlanned;
    MaintenanceInProgress; MaintenanceModified; MaintenanceCompleted; MaintenanceCancelled]).

(** Information statuses. *)
Definition InfoPlanned : Status := "planned".
Definition InfoActive : Status := "active".
Definition InfoCompleted : Status := "completed".
Definition InfoCancelled : Status := "cancelled".

Definition InfoPlannedStatusText : string := "The informational notification is planned.".
Definition InfoActiveStatusText : string := "The informational notification is active.".
Definition InfoCompletedStatusText : string := "The informational notification is completed.".

Definition IsInformationStatus (status : Status) : bool :=
  bool_decide (status ∈ [InfoPlanned; InfoActive; InfoCompleted; InfoCancelled]).

(** The three event types. *)
Definition valid_type (t : string) : bool :=
  bool_decide (t ∈ [TypeIncident; TypeInformation; TypeMaintenance]).

(** An event's type constrains its impact ("impact must be 0 for type 'maintenance'
    or 'info' and gt 0 for 'incident'"). *)
Definition type_impact_ok (t : string) (impact : Z) : Prop :=
  (t = TypeIncident → impact ≠ 0%Z) ∧
  (t = TypeMaintenance ∨ t = TypeInformation → impact = 0%Z).
#[global] Instance type_impact_ok_dec t i : Decision (type_impact_ok t i).
Proof. unfold type_impact_ok. apply _. Defined.
