(* ===== verification/Rbac.v ===== *)
(** * Role resolution ([internal/api/rbac/rbac.go])

    A service maps the role names of the identity provider to application roles.
    [Role] is a Go [int] with named constants; the permission predicates compare
    the numbers. *)

From S2P Require Import Prelude GoStrings.
Local Open Scope Z_scope.

Definition Role : Type := Z.
Definition NoRole : Role := 0.
Definition Reporter : Role := 5.
Definition Creator : Role := 10.
Definition Operator : Role := 30.
Definition Admin : Role := 50.

(** Comma-separated role names per application role. *)
Record Config := mkConfig {
  Creators : string; Operators : string; Admins : string; Reporters : string }.

Record Service := mkService {
  admins : gset string; operators : gset string;
  creators : gset string; reporters : gset string }.

Definition role_part (part : string) : string := TrimPrefix (TrimSpace part) "/".

Definition parseRoles (input : string) : gset string :=
  list_to_set (filterb (λ p, p != ""%string) (role_part <$> Split input ",")).

Definition New (cfg : Config) : Service :=
  mkService (parseRoles (Admins cfg)) (parseRoles (Operators cfg))
            (parseRoles (Creators cfg)) (parseRoles (Reporters cfg)).

Definition roleForName (s : Service) (roleName : string) : Role :=
  if bool_decide (roleName ∈ admins s) then Admin
  else if bool_decide (roleName ∈ operators s) then Operator
  else if bool_decide (roleName ∈ creators s) then Creator
  else if bool_decide (roleName ∈ reporters s) then Reporter
  else NoRole.

Definition normalizeRoleName (roleName : string) : string := TrimPrefix roleName "/".

#[global] Arguments normalizeRoleName : simpl never.
#[global] Arguments roleForName : simpl never.

Definition RoleNames (s : Service) : list string :=
  merge_sort String.le (elements (creators s ∪ operators s ∪ admins s ∪ reporters s)).

Fixpoint HasAuthorizedRole (s : Service) (roleNames : list string) : bool :=
  match roleNames with
  | [] => false
  | roleName :: rest =>
    if roleForName s (normalizeRoleName roleName) != NoRole then true
    else HasAuthorizedRole s rest
  end.

(** The loop of [ResolveRole] with its accumulator and its early return. *)
Fixpoint resolve_from (s : Service) (currentRole : Role) (roleNames : list string) : Role :=
  match roleNames with
  | [] => currentRole
  | roleName :: rest =>
    let role := roleForName s (normalizeRoleName roleName) in
    if role == Admin then Admin
    else resolve_from s (if currentRole <? role then role else currentRole) rest
  end.
Definition ResolveRole (s : Service) (roleNames : list string) : Role :=
  resolve_from s NoRole roleNames.

Definition IsAdmin (r : Role) : bool := Admin <=? r.
Definition CanApprove (r : Role) : bool := Operator <=? r.
Definition CanCreate (r : Role) : bool := Creator <=? r.
Definition IsReporter (r : Role) : bool := r == Reporter.
Definition CanViewInternalFields (r : Role) : bool := Creator <=? r.

(** ** Facts *)

Definition is_role (r : Role) : Prop := r ∈ [NoRole; Reporter; Creator; Operator; Admin].

Lemma roleForName_is_role s n : is_role (roleForName s n).
Proof. unfold roleForName, is_role. split_ifs; set_solver. Qed.

Lemma is_role_range r : is_role r → NoRole <= r <= Admin.
Proof.
  unfold is_role. rewrite !elem_of_cons, elem_of_nil.
  unfold NoRole, Reporter, Creator, Operator, Admin. lia.
Qed.

(** The reference meaning: the maximum over all names, no early exit. *)
Definition max_role (s : Service) (roleNames : list string) : Role :=
  foldr (λ n acc, Z.max (roleForName s (normalizeRoleName n)) acc) NoRole roleNames.

Lemma max_role_range s names : NoRole <= max_role s names <= Admin.
Proof.
  unfold max_role. induction names as [|n names IH]; cbn; [unfold NoRole, Admin; lia|].
  pose proof (is_role_range _ (roleForName_is_role s (normalizeRoleName n))). lia.
Qed.

Lemma resolve_from_max s names : ∀ cur, NoRole <= cur <= Admin →
  resolve_from s cur names = Z.max cur (max_role s names).
Proof.
  induction names as [|n names IH]; intros cur Hcur; cbn.
  - unfold max_role; cbn. lia.
  - pose proof (max_role_range s names) as Hr. unfold max_role in *; cbn.
    pose proof (is_role_range _ (roleForName_is_role s (normalizeRoleName n))) as Hn.
    case_bool_decide as E.
    + rewrite E. lia.
    + destruct (_ <? _) eqn:Hlt; bool_facts; rewrite IH; lia.
Qed.

Lemma ResolveRole_max_role s names : ResolveRole s names = max_role s names.
Proof.
  unfold ResolveRole. rewrite resolve_from_max by (unfold NoRole, Admin; lia).
  pose proof (max_role_range s names). lia.
Qed.

Lemma max_role_ge s names n : n ∈ names → roleForName s (normalizeRoleName n) <= max_role s names.
Proof.
  unfold max_role. induction 1 as [n names|n m names Hn IH]; cbn; lia.
Qed.

Lemma max_role_attained s names :
  max_role s names = NoRole ∨
  ∃ n, n ∈ names ∧ roleForName s (normalizeRoleName n) = max_role s names.
Proof.
  induction names as [|n names IH]; [by left|]. right.
  change (max_role s (n :: names))
    with (Z.max (roleForName s (normalizeRoleName n)) (max_role s names)).
  pose proof (is_role_range _ (roleForName_is_role s (normalizeRoleName n))) as Hn.
  destruct (Z.max_spec (roleForName s (normalizeRoleName n)) (max_role s names)) as [[Hlt ->]|[Hle ->]].
  - destruct IH as [IH|(m & Hm & <-)]; [unfold NoRole in *; lia|].
    exists m. split; [by right|done].
  - exists n. split; [left|done].
Qed.

Lemma HasAuthorizedRole_spec s names :
  HasAuthorizedRole s names = true ↔ max_role s names ≠ NoRole.
Proof.
  unfold max_role. induction names as [|n names IH]; cbn; [done|].
  pose proof (is_role_range _ (roleForName_is_role s (normalizeRoleName n))) as Hn.
  pose proof (max_role_range s names) as Hr. unfold max_role in Hr.
  case_bool_decide as E; cbn; unfold NoRole in *.
  - rewrite E, IH. rewrite Z.max_r by lia. done.
  - split; [lia|done].
Qed.

Lemma elem_of_parseRoles input x :
  x ∈ parseRoles input ↔ x ≠ ""%string ∧ ∃ part, part ∈ Split input "," ∧ x = role_part part.
Proof.
  unfold parseRoles. rewrite elem_of_list_to_set, elem_of_filterb, list_elem_of_fmap.
  rewrite negb_true_iff, bool_decide_eq_false. naive_solver.
Qed.
