(* ===== verification/Json.v ===== *)
(** * JSON values

    A decoded JSON or YAML document as Go's [any]: the payload of a token and the
    OpenAPI document.  An object is a Go map; its members are listed in some order with
    distinct keys ([well_keyed]), which the decoders guarantee. *)

From S2P Require Import Prelude GoStrings.

Inductive json :=
| JNull
| JBool (b : bool)
| JNum (text : string)
| JStr (s : string)
| JArr (items : list json)
| JObj (members : list (string * json)).

(** Induction with the hypothesis on every item and every member. *)
Section JsonInd.
Context (P : json → Prop).
Context (HNull : P JNull) (HBool : ∀ b, P (JBool b)) (HNum : ∀ t, P (JNum t)) (HStr : ∀ s, P (JStr s)).
Context (HArr : ∀ l, Forall P l → P (JArr l)).
Context (HObj : ∀ m, Forall (λ kv, P kv.2) m → P (JObj m)).

Fixpoint json_nested_ind (v : json) : P v :=
  match v with
  | JNull => HNull
  | JBool b => HBool b
  | JNum t => HNum t
  | JStr s => HStr s
  | JArr l => HArr l ((fix items (l : list json) : Forall P l :=
      match l with
      | [] => Forall_nil_2 P
      | x :: l => Forall_cons_2 P x l (json_nested_ind x) (items l)
      end) l)
  | JObj m => HObj m ((fix members (m : list (string * json)) : Forall (λ kv, P kv.2) m :=
      match m with
      | [] => Forall_nil_2 _
      | kv :: m => Forall_cons_2 _ kv m (json_nested_ind kv.2) (members m)
      end) m)
  end.
End JsonInd.

Notation obj := (list (string * json)).

(** [m[key]]. *)
Fixpoint obj_get (key : string) (m : obj) : option json :=
  match m with
  | [] => None
  | (k, v) :: m => if k == key then Some v else obj_get key m
  end.
(** [delete(m, key)]. *)
Definition obj_delete (key : string) (m : obj) : obj := filterb (λ kv, kv.1 != key) m.
(** [m[key] = v] for a key that is present. *)
Definition obj_set (key : string) (v : json) (m : obj) : obj :=
  map (λ kv, if kv.1 == key then (kv.1, v) else kv) m.

(** Type assertions. *)
Definition as_string (v : option json) : option string :=
  match v with Some (JStr s) => Some s | _ => None end.
Definition as_list (v : option json) : option (list json) :=
  match v with Some (JArr l) => Some l | _ => None end.
Definition as_map (v : option json) : option obj :=
  match v with Some (JObj m) => Some m | _ => None end.

Section Objects.
Implicit Types (m : obj).

Lemma obj_get_elem key m v : obj_get key m = Some v → (key, v) ∈ m.
Proof.
  induction m as [|[k x] m IH]; cbn; [done|]. destruct (k == key) eqn:Hk; bool_facts.
  - intros [= ->]. subst. left.
  - intros H. right. by apply IH.
Qed.

Lemma obj_get_iff key m v : NoDup m.*1 → obj_get key m = Some v ↔ (key, v) ∈ m.
Proof.
  intros Hnd. split; [apply obj_get_elem|]. induction m as [|[k x] m IH]; cbn; [intros H; inversion H|].
  cbn in Hnd. apply NoDup_cons in Hnd as [Hk Hnd]. intros [[= -> ->]|Hin]%elem_of_cons.
  - by rewrite bool_decide_true.
  - rewrite bool_decide_false; [auto|]. intros ->. apply Hk. apply list_elem_of_fmap. by exists (key, v).
Qed.

Lemma obj_get_None key m : obj_get key m = None ↔ key ∉ m.*1.
Proof.
  induction m as [|[k x] m IH]; cbn; [set_solver|]. rewrite not_elem_of_cons.
  destruct (k == key) eqn:Hk; bool_facts; [naive_solver|]. rewrite IH. naive_solver.
Qed.

Lemma elem_obj_delete key m kv : kv ∈ obj_delete key m ↔ kv ∈ m ∧ kv.1 ≠ key.
Proof. unfold obj_delete. rewrite elem_of_filterb, negb_true_iff, bool_decide_eq_false. done. Qed.

Lemma obj_get_delete key m : obj_get key (obj_delete key m) = None.
Proof.
  apply obj_get_None. intros (kv & -> & Hin)%list_elem_of_fmap. by apply elem_obj_delete in Hin as [_ ?].
Qed.

Lemma obj_get_delete_ne key k m : k ≠ key → obj_get k (obj_delete key m) = obj_get k m.
Proof.
  intros Hne. unfold obj_delete. induction m as [|[x v] m IH]; cbn; [done|].
  destruct (x == key) eqn:Hx; bool_facts; cbn; rewrite IH; [|done].
  subst. by rewrite (bool_decide_false (key = k)) by done.
Qed.

Lemma obj_get_set key v k m :
  obj_get k (obj_set key v m) = if k == key then (λ _, v) <$> obj_get k m else obj_get k m.
Proof.
  unfold obj_set. induction m as [|[x y] m IH]; cbn; [by destruct (k == key)|].
  destruct (x == key) eqn:Hx; bool_facts; cbn; rewrite IH.
  - subst. destruct (decide (key = k)) as [->|Hne].
    + by rewrite !bool_decide_true.
    + rewrite (bool_decide_false (key = k)), (bool_decide_false (k = key)) by done. done.
  - destruct (x == k) eqn:Hk; bool_facts; [subst; by rewrite bool_decide_false|done].
Qed.

Lemma keys_obj_set key v m : (obj_set key v m).*1 = m.*1.
Proof. unfold obj_set. induction m as [|[x y] m IH]; cbn; [done|]. rewrite IH. by destruct (x == key). Qed.
End Objects.
