(* ===== verification/Auth.v ===== *)
(** * Token verification

    [internal/api/auth]: the identity and the roles a verified token carries.  The JWT
    verifier (signature, issuer, audience, expiry) is third-party and a parameter: it
    returns the subject of an accepted token and its claims, which may fail to decode.
    At start-up [NewProvider] asks the issuer for its metadata and its keys; the answers
    are a record [Idp].  The members of the two documents are matched by their exact
    names. *)

From S2P Require Import Prelude GoStrings Json Rbac.
Local Open Scope Z_scope.

Definition ProviderZitadel : string := "zitadel".
Definition maxRolesClaimDepth : Z := 3.
Definition userRolesClaim : string := "urn:zitadel:iam:org:project:roles".
Definition groupsClaim : string := "groups".
Definition projectRolesClaimPrefix : string := "urn:zitadel:iam:org:project:".
Definition projectRolesClaimSuffix : string := ":roles".

Record Claims := mkClaims {
  cl_Subject : string; cl_Username : string; cl_Email : string; cl_Roles : list string;
  cl_Provider : string }.

Record ProviderConfig := mkProviderConfig {
  pc_Issuer : string; pc_ClientID : string; pc_RoleNames : list string; pc_UsernameClaim : string }.

(** [Provider] without its verifier. *)
Record Provider := mkProvider { pv_roleNames : gset string; pv_usernameClaim : string }.

Definition roleNameSet (names : list string) : gset string :=
  list_to_set (filterb (λ n, n != ""%string) (TrimSpace <$> names)).

(** ** Start-up *)

(** The identity provider: the metadata document that the discovery of an issuer finds,
    and the answer to a GET, its status and its body when that is JSON. *)
Record Idp := mkIdp {
  idp_discover : string → option obj;
  idp_get : string → option (Z * option json) }.

Inductive keyset_err := KeysUnreachable | KeysStatus (code : Z) | KeysUndecodable | KeysEmpty.
Inductive provider_err :=
| DiscoveryFailed (issuer : string) | MetadataInvalid | NoJwksURI (issuer : string)
| PrefetchFailed (jwksURL : string) (e : keyset_err).

(** A string member of a struct: absent and null are empty, another value is an error. *)
Definition jwksURI (metadata : obj) (issuer : string) : provider_err + string :=
  match obj_get "jwks_uri" metadata with
  | None | Some JNull => inl (NoJwksURI issuer)
  | Some (JStr uri) => if uri == ""%string then inl (NoJwksURI issuer) else inr uri
  | Some _ => inl MetadataInvalid
  end.

(** The member [keys] of a key set; null and an absent member are an empty list. *)
Definition decode_keys (body : json) : option (list json) :=
  match body with
  | JNull => Some []
  | JObj members => match obj_get "keys" members with
                    | None | Some JNull => Some []
                    | Some (JArr keys) => Some keys
                    | Some _ => None
                    end
  | _ => None
  end.

(** The result is nil ([None]) or the error. *)
Definition checkKeySet (idp : Idp) (jwksURL : string) : option keyset_err :=
  match idp_get idp jwksURL with
  | None => Some KeysUnreachable
  | Some (code, body) =>
    if negb (code =? 200) then Some (KeysStatus code)
    else match b ← body; decode_keys b with
         | None => Some KeysUndecodable
         | Some [] => Some KeysEmpty
         | Some _ => None
         end
  end.

Definition NewProvider (idp : Idp) (cfg : ProviderConfig) : provider_err + Provider :=
  match idp_discover idp (pc_Issuer cfg) with
  | None => inl (DiscoveryFailed (pc_Issuer cfg))
  | Some metadata =>
    match jwksURI metadata (pc_Issuer cfg) with
    | inl e => inl e
    | inr jwksURL =>
      match checkKeySet idp jwksURL with
      | Some e => inl (PrefetchFailed jwksURL e)
      | None => inr (mkProvider (roleNameSet (pc_RoleNames cfg)) (pc_UsernameClaim cfg))
      end
    end
  end.

Definition stringClaim (payload : obj) (claim : string) : string :=
  if claim == ""%string then ""%string else default ""%string (as_string (obj_get claim payload)).

Definition isProjectRolesClaim (name : string) : bool :=
  if negb (HasPrefix name projectRolesClaimPrefix) || negb (HasSuffix name projectRolesClaimSuffix)
  then false
  else (String.length projectRolesClaimPrefix + String.length projectRolesClaimSuffix
          <? String.length name)%nat.

(** The loops over a map and over a list, with [found] threaded through. *)
Fixpoint collectRoleNames (known : gset string) (value : json) (found : gset string) (depth : Z)
  : gset string :=
  if maxRolesClaimDepth <? depth then found
  else match value with
  | JObj members =>
      (fix loop (members : obj) (found : gset string) : gset string :=
        match members with
        | [] => found
        | (name, nested) :: members =>
          let found := if bool_decide (name ∈ known) then {[name]} ∪ found else found in
          loop members (collectRoleNames known nested found (depth + 1))
        end) members found
  | JArr items =>
      (fix loop (items : list json) (found : gset string) : gset string :=
        match items with
        | [] => found
        | item :: items => loop items (collectRoleNames known item found depth)
        end) items found
  | JStr typed => if bool_decide (typed ∈ known) then {[typed]} ∪ found else found
  | _ => found
  end.

Definition sortedRoleNames (found : gset string) : list string := merge_sort String.le (elements found).

Definition extractRolesFromClaims (payload : obj) (known : gset string) : list string :=
  if bool_decide (known = ∅) then []
  else
    let from_claim found claim :=
      collectRoleNames known (default JNull (obj_get claim payload)) found 0 in
    let found := foldl from_claim ∅ [userRolesClaim; groupsClaim] in
    let found := foldl (λ found nv, if isProjectRolesClaim nv.1
                                    then collectRoleNames known nv.2 found 0 else found) found payload in
    sortedRoleNames found.

Section Verify.
(** The subject of an accepted token, and its claims unless they do not decode. *)
Context (verifier : string → option (string * option obj)).

Definition Verify (p : Provider) (rawToken : string) : option Claims :=
  match verifier rawToken with
  | None => None
  | Some (subject, claims) =>
    if subject == ""%string then None
    else match claims with
         | None => None
         | Some payload =>
           Some (mkClaims subject (stringClaim payload (pv_usernameClaim p)) (stringClaim payload "email")
                   (extractRolesFromClaims payload (pv_roleNames p)) ProviderZitadel)
         end
  end.
End Verify.

(** A provider is built exactly when the issuer publishes the address of a key set and
    that answers with at least one key. *)
Lemma NewProvider_inr idp cfg p : NewProvider idp cfg = inr p ↔
  p = mkProvider (roleNameSet (pc_RoleNames cfg)) (pc_UsernameClaim cfg)
  ∧ ∃ metadata uri body keys, idp_discover idp (pc_Issuer cfg) = Some metadata
    ∧ obj_get "jwks_uri" metadata = Some (JStr uri) ∧ uri ≠ ""%string
    ∧ idp_get idp uri = Some (200, Some body) ∧ decode_keys body = Some keys ∧ keys ≠ [].
Proof.
  unfold NewProvider, jwksURI, checkKeySet. split.
  - destruct (idp_discover _ _) as [md|]; [|done].
    destruct (obj_get "jwks_uri" md) as [[| | |uri| |]|] eqn:Hu; try done.
    destruct (uri == ""%string) eqn:Hne; [done|]. apply bool_decide_eq_false in Hne.
    destruct (idp_get idp uri) as [[code body]|] eqn:Hg; [|done]. destruct (code =? 200) eqn:Hc; [|done].
    apply Z.eqb_eq in Hc as ->. cbn [negb]. destruct body as [body|]; cbn; [|done].
    destruct (decode_keys body) as [[|k ks]|] eqn:Hk; try done. intros [= <-]. eauto 15.
  - intros (-> & md & uri & body & keys & -> & -> & Hne & Hg & Hk & Hks).
    rewrite (bool_decide_eq_false_2 _ Hne). rewrite Hg. cbn. rewrite Hk. by destruct keys.
Qed.

(** ** Names in a claim *)

(** [name] occurs in the value as a string or as a key, no deeper than the limit: an
    object is one level, a list is none. *)
Inductive occurs (name : string) : Z → json → Prop :=
| occurs_string d : d <= maxRolesClaimDepth → occurs name d (JStr name)
| occurs_item d x l : x ∈ l → d <= maxRolesClaimDepth → occurs name d x → occurs name d (JArr l)
| occurs_key d v m : (name, v) ∈ m → d <= maxRolesClaimDepth → occurs name d (JObj m)
| occurs_member d k v m : (k, v) ∈ m → d <= maxRolesClaimDepth → occurs name (d + 1) v →
    occurs name d (JObj m).

Lemma collect_string (known : gset string) s found name :
  name ∈ (if bool_decide (s ∈ known) then {[s]} ∪ found else found : gset string)
  ↔ name ∈ found ∨ name ∈ known ∧ name = s.
Proof. case_bool_decide; set_solver. Qed.

Lemma collect_spec known value : ∀ found depth name,
  name ∈ collectRoleNames known value found depth
  ↔ name ∈ found ∨ name ∈ known ∧ occurs name depth value.
Proof.
  induction value as [| | |s|l IH|m IH] using json_nested_ind; intros found depth name;
    cbn [collectRoleNames]; destruct (maxRolesClaimDepth <? depth) eqn:Hd; bool_facts;
    try (split; [tauto|intros [?|[_ Ho]]; [done|inversion Ho; subst; lia]]).
  - rewrite collect_string. split; intros [?|[? H]]; auto; right; split; try done.
    + subst. by constructor.
    + by inversion H.
  - transitivity (name ∈ found ∨ name ∈ known ∧ ∃ x, x ∈ l ∧ occurs name depth x).
    2: { split; (intros [?|[? H]]; [by left|right; split; [done|]]).
         - destruct H as (x & ? & ?). by econstructor.
         - inversion H; subst; eauto. }
    revert found. induction IH as [|x l Hx _ IHl]; intros found.
    + split; [by left|]. intros [?|(_ & x & Hx & _)]; [done|inversion Hx].
    + rewrite IHl, Hx. setoid_rewrite elem_of_cons. naive_solver.
  - transitivity (name ∈ found ∨ name ∈ known
      ∧ ∃ k v, (k, v) ∈ m ∧ (name = k ∨ occurs name (depth + 1) v)).
    2: { split; (intros [?|[? H]]; [by left|right; split; [done|]]).
         - destruct H as (k & v & Hin & [->|Ho]); [by eapply occurs_key|by eapply occurs_member].
         - inversion H; subst; eauto 10. }
    revert found. induction IH as [|[k v] m Hx _ IHl]; intros found.
    + split; [by left|]. intros [?|(_ & k & v & Hx & _)]; [done|inversion Hx].
    + rewrite IHl, Hx, collect_string. setoid_rewrite elem_of_cons. cbn. naive_solver.
Qed.

(** The claims roles are taken from. *)
Definition role_claim (name : string) : bool :=
  (name == userRolesClaim) || (name == groupsClaim) || isProjectRolesClaim name.

(** A role name the token asserts: it occurs in the value of a role claim. *)
Definition claimed (payload : obj) (name : string) : Prop :=
  ∃ claim value, (claim, value) ∈ payload ∧ role_claim claim = true ∧ occurs name 0 value.

Lemma elem_sortedRoleNames found n : n ∈ sortedRoleNames found ↔ n ∈ found.
Proof. unfold sortedRoleNames. rewrite merge_sort_Permutation. apply elem_of_elements. Qed.

Lemma collect_projects known payload : ∀ found name,
  name ∈ foldl (λ found nv, if isProjectRolesClaim nv.1 then collectRoleNames known nv.2 found 0
                            else found) found payload
  ↔ name ∈ found ∨ name ∈ known ∧ ∃ claim value, (claim, value) ∈ payload
      ∧ isProjectRolesClaim claim = true ∧ occurs name 0 value.
Proof.
  induction payload as [|[c v] payload IH]; intros found name; cbn [foldl].
  - split; [by left|]. intros [?|(_ & c & v & H & _)]; [done|inversion H].
  - rewrite IH. setoid_rewrite elem_of_cons. cbn [fst snd].
    destruct (isProjectRolesClaim c) eqn:Hp; rewrite ?collect_spec; split.
    + intros [[?|[? ?]]|(? & c' & v' & ? & ? & ?)]; eauto 10.
    + intros [?|(? & c' & v' & [[= -> ->]|?] & ? & ?)]; eauto 10.
    + intros [?|(? & c' & v' & ? & ? & ?)]; eauto 10.
    + intros [?|(? & c' & v' & [[= -> ->]|?] & ? & ?)]; [eauto|congruence|eauto 10].
Qed.

Lemma occurs_lookup payload claim name : NoDup payload.*1 →
  occurs name 0 (default JNull (obj_get claim payload))
  ↔ ∃ value, (claim, value) ∈ payload ∧ occurs name 0 value.
Proof.
  intros Hnd. setoid_rewrite <- obj_get_iff; [|done]. destruct (obj_get claim payload) as [v|]; cbn.
  - naive_solver.
  - split; [intros H; inversion H|naive_solver].
Qed.

(** The extracted roles are exactly the known names the token asserts. *)
Lemma extract_spec payload known name : NoDup payload.*1 →
  name ∈ extractRolesFromClaims payload known ↔ name ∈ known ∧ claimed payload name.
Proof.
  intros Hnd. unfold extractRolesFromClaims. case_bool_decide as Hk; [subst; set_solver|].
  rewrite elem_sortedRoleNames, collect_projects. cbn [foldl].
  rewrite !collect_spec, !occurs_lookup by done. unfold claimed, role_claim.
  setoid_rewrite orb_true_iff. setoid_rewrite orb_true_iff. setoid_rewrite bool_decide_eq_true.
  set_solver.
Qed.

Lemma extract_sorted payload known : StronglySorted String.le (extractRolesFromClaims payload known)
  ∧ NoDup (extractRolesFromClaims payload known).
Proof.
  unfold extractRolesFromClaims. case_bool_decide; [split; constructor|].
  unfold sortedRoleNames. split; [apply (StronglySorted_merge_sort String.le); apply _|].
  rewrite merge_sort_Permutation. apply NoDup_elements.
Qed.
