(* ===== verification/OpenApi.v ===== *)
(** * The public OpenAPI document

    [internal/api/swagger.go]: the document served at /openapi.json is the YAML file
    stripped of everything that is not a GET operation, of the authentication details
    and of the server list.  Reading the file and parsing the YAML are not the code's:
    [loadOpenAPISpec] takes the parsed document.  Maps that the code changes in place
    are returned changed; a nil slice is an empty list. *)

From S2P Require Import Prelude GoStrings Json.
Local Open Scope string_scope.

(** [s[:n]] and [s[n:]]. *)
Fixpoint str_take (n : nat) (s : string) : string :=
  match n, s with S n, String c s => String c (str_take n s) | _, _ => "" end.
Fixpoint str_drop (n : nat) (s : string) : string :=
  match n, s with O, _ => s | S n, String c s => str_drop n s | S _, "" => "" end.

Definition collectTags (operation : json) (tags : gset string) : gset string :=
  match operation with
  | JObj opMap =>
    match as_list (obj_get "tags" opMap) with
    | None => tags
    | Some tagList =>
        foldl (λ tags t, match t with JStr tag => {[tag]} ∪ tags | _ => tags end) tags tagList
    end
  | _ => tags
  end.

Fixpoint filter_get_loop (paths : obj) (filtered : obj) (usedTags : gset string) : obj * gset string :=
  match paths with
  | [] => (filtered, usedTags)
  | (path, methods) :: paths =>
    match methods with
    | JObj methodMap =>
      match obj_get "get" methodMap with
      | None => filter_get_loop paths filtered usedTags
      | Some getOp => filter_get_loop paths (filtered ++ [(path, JObj [("get", getOp)])])
                        (collectTags getOp usedTags)
      end
    | _ => filter_get_loop paths filtered usedTags
    end
  end.
Definition filterGETPaths (paths : obj) : obj * gset string := filter_get_loop paths [] ∅.

Definition extractTagName (tag : json) : string :=
  match tag with
  | JObj tagMap => default "" (as_string (obj_get "name" tagMap))
  | _ => ""
  end.

Definition pruneUnusedTags (spec : obj) (usedTags : gset string) : obj :=
  match as_list (obj_get "tags" spec) with
  | None => spec
  | Some tags =>
    let kept := filterb (λ t, (extractTagName t != "") && bool_decide (extractTagName t ∈ usedTags)) tags in
    obj_set "tags" (JArr kept) spec
  end.

Definition stripNonGetMethods (spec : obj) : obj :=
  match as_map (obj_get "paths" spec) with
  | None => spec
  | Some paths =>
    let (filtered, usedTags) := filterGETPaths paths in
    pruneUnusedTags (obj_set "paths" (JObj filtered) spec) usedTags
  end.

Definition sentinelStart : string := "<!-- auth-start -->".
Definition sentinelEnd : string := "<!-- auth-end -->".
Definition legacyHeading : string := "## Authentication".

(** The description without its authentication section; [None] when it is kept. *)
Definition strip_description (desc : string) : option string :=
  match Index desc sentinelStart with
  | Some start =>
    let head := str_take start desc in
    let rest := str_drop start desc in
    let tail := match Index rest sentinelEnd with
                | Some stop => str_drop (stop + String.length sentinelEnd) rest
                | None => ""
                end in
    Some (TrimSpace (head +:+ tail))
  | None => (λ idx, TrimSpace (str_take idx desc)) <$> Index desc legacyHeading
  end.

Definition stripInfoDescription (spec : obj) : obj :=
  match as_map (obj_get "info" spec) with
  | None => spec
  | Some info =>
    match as_string (obj_get "description" info) with
    | None => spec
    | Some desc =>
      match strip_description desc with
      | None => spec
      | Some d => obj_set "info" (JObj (obj_set "description" (JStr d) info)) spec
      end
    end
  end.

Definition rbac_hidden : list string := ["creator"; "contact_email"; "version"].
(** The hidden properties of a schema. *)
Definition rbacSchemaFields (name : string) : option (list string) :=
  if bool_decide (name ∈ ["Component"; "ComponentRequest"; "Incident"; "Event"]) then Some rbac_hidden
  else None.

Definition hidden_name (fields : list string) (r : json) : bool :=
  match r with JStr name => bool_decide (name ∈ fields) | _ => false end.

Definition strip_properties (fields : list string) (schemaMap : obj) : obj :=
  match as_map (obj_get "properties" schemaMap) with
  | Some props => obj_set "properties" (JObj (foldl (λ props field, obj_delete field props) props fields)) schemaMap
  | None => schemaMap
  end.
Definition strip_required (fields : list string) (schemaMap : obj) : obj :=
  match as_list (obj_get "required" schemaMap) with
  | Some required => obj_set "required" (JArr (filterb (λ r, negb (hidden_name fields r)) required)) schemaMap
  | None => schemaMap
  end.
Definition stripRBACFields (schema : json) (fields : list string) : json :=
  match schema with
  | JObj schemaMap => JObj (strip_required fields (strip_properties fields schemaMap))
  | _ => schema
  end.

(** One round of the loop over the schemas; [None] deletes the schema. *)
Definition strip_schema (ns : string * json) : option (string * json) :=
  if HasPrefix ns.1 "Token" then None
  else match rbacSchemaFields ns.1 with
       | None => Some ns
       | Some fields => Some (ns.1, stripRBACFields ns.2 fields)
       end.

Definition stripAuthSchemas (spec : obj) : obj :=
  match as_map (obj_get "components" spec) with
  | None => spec
  | Some components =>
    let components := obj_delete "securitySchemes" components in
    match as_map (obj_get "schemas" components) with
    | None => obj_set "components" (JObj components) spec
    | Some schemas =>
      obj_set "components" (JObj (obj_set "schemas" (JObj (omap strip_schema schemas)) components)) spec
    end
  end.

Definition stripAuthDetails (spec : obj) : obj :=
  stripAuthSchemas (stripInfoDescription (obj_delete "security" spec)).

(** [None] is a file that could not be read or parsed. *)
Definition loadOpenAPISpec (parsed : option obj) : option obj :=
  spec ← parsed; Some (obj_delete "servers" (stripAuthDetails (stripNonGetMethods spec))).

(** The handler answers with the document it was built from. *)
Definition filteredOpenAPIHandler (parsed : option obj) : option (Z * json) :=
  spec ← loadOpenAPISpec parsed; Some (200%Z, JObj spec).

(** ** Lemmas *)

(** Setting one key leaves the others. *)
Lemma obj_get_set_ne key v k m : k ≠ key → obj_get k (obj_set key v m) = obj_get k m.
Proof. intros H. rewrite obj_get_set. by rewrite bool_decide_false. Qed.
Lemma obj_get_set_eq key v m w : obj_get key m = Some w → obj_get key (obj_set key v m) = Some v.
Proof. intros H. rewrite obj_get_set, H. by rewrite bool_decide_true. Qed.

Lemma as_map_Some v m : as_map v = Some m ↔ v = Some (JObj m).
Proof. destruct v as [[]|]; cbn; naive_solver. Qed.
Lemma as_list_Some v l : as_list v = Some l ↔ v = Some (JArr l).
Proof. destruct v as [[]|]; cbn; naive_solver. Qed.

Definition paths_of (spec : obj) : option obj := as_map (obj_get "paths" spec).
Definition schemas_of (spec : obj) : option obj :=
  c ← as_map (obj_get "components" spec); as_map (obj_get "schemas" c).

(** Each stage changes one key. *)
Lemma get_stripInfoDescription k spec : k ≠ "info" →
  obj_get k (stripInfoDescription spec) = obj_get k spec.
Proof.
  intros Hk. unfold stripInfoDescription. destruct (as_map _); [|done].
  destruct (as_string _); [|done]. destruct (strip_description _); [|done]. by apply obj_get_set_ne.
Qed.
Lemma get_stripAuthSchemas k spec : k ≠ "components" →
  obj_get k (stripAuthSchemas spec) = obj_get k spec.
Proof.
  intros Hk. unfold stripAuthSchemas. destruct (as_map _); [|done].
  destruct (as_map _); by apply obj_get_set_ne.
Qed.
Lemma get_pruneUnusedTags k spec used : k ≠ "tags" →
  obj_get k (pruneUnusedTags spec used) = obj_get k spec.
Proof. intros Hk. unfold pruneUnusedTags. destruct (as_list _); [by apply obj_get_set_ne|done]. Qed.

Lemma get_public k spec : k ≠ "servers" → k ≠ "components" → k ≠ "info" → k ≠ "security" →
  obj_get k (obj_delete "servers" (stripAuthDetails (stripNonGetMethods spec)))
  = obj_get k (stripNonGetMethods spec).
Proof.
  intros. rewrite obj_get_delete_ne by done. unfold stripAuthDetails.
  rewrite get_stripAuthSchemas, get_stripInfoDescription by done. by apply obj_get_delete_ne.
Qed.

(** The operation a path keeps. *)
Definition get_operation (spec : obj) (path : string) (op : json) : Prop :=
  ∃ paths methods, paths_of spec = Some paths ∧ (path, JObj methods) ∈ paths
  ∧ obj_get "get" methods = Some op.

Lemma filter_get_loop_paths paths : ∀ filtered used path v,
  (path, v) ∈ (filter_get_loop paths filtered used).1
  ↔ (path, v) ∈ filtered ∨ ∃ methods op, (path, JObj methods) ∈ paths
      ∧ obj_get "get" methods = Some op ∧ v = JObj [("get", op)].
Proof.
  induction paths as [|[p ms] paths IH]; intros filtered used path v; cbn [filter_get_loop].
  - split; [by left|]. intros [?|(m & op & H & _)]; [done|inversion H].
  - setoid_rewrite elem_of_cons.
    assert ((∀ m, ms = JObj m → obj_get "get" m = None) → (path, v) ∈ (filter_get_loop paths filtered used).1 ↔
      (path, v) ∈ filtered ∨ ∃ methods op, ((path, JObj methods) = (p, ms) ∨ (path, JObj methods) ∈ paths)
      ∧ obj_get "get" methods = Some op ∧ v = JObj [("get", op)]) as Hskip.
    { intros Hno. rewrite IH. split; (intros [?|(m & op & H & Hg & ->)]; [by left|right]).
      - eauto 10.
      - destruct H as [[= -> <-]|H]; [rewrite (Hno m eq_refl) in Hg; done|eauto]. }
    destruct ms as [| | | | |m]; try (apply Hskip; done).
    destruct (obj_get "get" m) as [op|] eqn:Hg; [|apply Hskip; by intros m' [= <-]].
    rewrite IH, elem_of_app, list_elem_of_singleton. split.
    + intros [[?|[= -> ->]]|(m' & op' & ? & ? & ?)]; [by left|right..]; eauto 10.
    + intros [?|(m' & op' & [[= -> ->]|?] & Hg' & ->)]; [by left; left| |right; eauto].
      left. right. congruence.
Qed.

Lemma collectTags_elem op tags tag : tag ∈ collectTags op tags ↔
  tag ∈ tags ∨ ∃ m l, op = JObj m ∧ as_list (obj_get "tags" m) = Some l ∧ JStr tag ∈ l.
Proof.
  unfold collectTags. destruct op as [| | | | |m];
    try (split; [by left|intros [?|(? & ? & ? & _)]; done]).
  destruct (as_list (obj_get "tags" m)) as [l|] eqn:Hl.
  2: { split; [by left|]. intros [?|(? & ? & [= <-] & ? & _)]; [done|congruence]. }
  transitivity (tag ∈ tags ∨ JStr tag ∈ l).
  2: { split; (intros [?|H]; [by left|right]); [eauto 10|].
       destruct H as (? & ? & [= <-] & H & ?). simplify_eq. done. }
  clear Hl. revert tags. induction l as [|t l IH]; intros tags; cbn [foldl].
  - split; [by left|]. intros [?|H]; [done|inversion H].
  - rewrite IH, elem_of_cons. destruct t; set_solver.
Qed.

Lemma filter_get_loop_tags paths : ∀ filtered used tag,
  tag ∈ (filter_get_loop paths filtered used).2 →
  tag ∈ used ∨ ∃ path methods op, (path, JObj methods) ∈ paths ∧ obj_get "get" methods = Some op
    ∧ tag ∈ collectTags op ∅.
Proof.
  induction paths as [|[p ms] paths IH]; intros filtered used tag; cbn [filter_get_loop]; [by left|].
  setoid_rewrite elem_of_cons.
  destruct ms as [| | | | |m]; try (intros H; apply IH in H as [?|(? & ? & ? & ? & ? & ?)]; eauto 10).
  destruct (obj_get "get" m) as [op|] eqn:Hg;
    (intros H; apply IH in H as [H|(? & ? & ? & ? & ? & ?)]; [|eauto 10]); [|by left].
  apply collectTags_elem in H as [?|H]; [by left|right]. exists p, m, op. split_and!; [by left|done|].
  apply collectTags_elem. by right.
Qed.

(** What survives in a schema that hides fields. *)
Definition hides (fields : list string) (schema : json) : Prop :=
  ∀ m f, schema = JObj m → f ∈ fields →
  (∀ props, as_map (obj_get "properties" m) = Some props → obj_get f props = None)
  ∧ ∀ required, as_list (obj_get "required" m) = Some required → JStr f ∉ required.

Lemma deletes_None f fields : ∀ props, obj_get f props = None ∨ f ∈ fields →
  obj_get f (foldl (λ props field, obj_delete field props) props fields) = None.
Proof.
  induction fields as [|x fields IH]; intros props H; cbn [foldl]; [set_solver|].
  apply IH. destruct (decide (f = x)) as [->|Hne]; [left; apply obj_get_delete|].
  rewrite obj_get_delete_ne by done. set_solver.
Qed.

Lemma get_strip_required k fields m : k ≠ "required" → obj_get k (strip_required fields m) = obj_get k m.
Proof. intros H. unfold strip_required. destruct (as_list _); [by apply obj_get_set_ne|done]. Qed.

Lemma stripRBACFields_hides schema fields : hides fields (stripRBACFields schema fields).
Proof.
  intros m f Hm Hf. destruct schema as [| | | | |sm]; cbn in Hm; try done. injection Hm as <-. split.
  - intros props. rewrite get_strip_required by done. unfold strip_properties.
    destruct (as_map (obj_get "properties" sm)) as [ps|] eqn:Hp; [|congruence].
    apply as_map_Some in Hp. rewrite (obj_get_set_eq _ _ _ _ Hp). cbn. intros [= <-].
    apply deletes_None. by right.
  - intros required. unfold strip_required. set (pm := strip_properties fields sm).
    destruct (as_list (obj_get "required" pm)) as [rs|] eqn:Hr; [|congruence].
    apply as_list_Some in Hr. rewrite (obj_get_set_eq _ _ _ _ Hr). cbn. intros [= <-].
    rewrite elem_of_filterb. intros [_ H]. cbn in H. by rewrite bool_decide_true in H.
Qed.

Lemma components_public spec c :
  as_map (obj_get "components" (obj_delete "servers" (stripAuthDetails (stripNonGetMethods spec)))) = Some c →
  obj_get "securitySchemes" c = None
  ∧ ∀ ss, as_map (obj_get "schemas" c) = Some ss → ∃ ss0, ss = omap strip_schema ss0.
Proof.
  rewrite obj_get_delete_ne by done. unfold stripAuthDetails, stripAuthSchemas.
  set (sp := stripInfoDescription _).
  destruct (as_map (obj_get "components" sp)) as [c0|] eqn:Hc; [|congruence].
  apply as_map_Some in Hc. set (c1 := obj_delete "securitySchemes" c0).
  assert (obj_get "securitySchemes" c1 = None) as Hno by apply obj_get_delete.
  destruct (as_map (obj_get "schemas" c1)) as [ss0|] eqn:Hs;
    rewrite (obj_get_set_eq _ _ _ _ Hc); cbn; intros [= <-].
  - rewrite obj_get_set_ne by done. split; [done|]. intros ss. apply as_map_Some in Hs.
    rewrite (obj_get_set_eq _ _ _ _ Hs). cbn. intros [= <-]. eauto.
  - split; [done|]. congruence.
Qed.

Lemma elem_strip_schema (ss0 : obj) name s : (name, s) ∈ omap strip_schema ss0 →
  HasPrefix name "Token" = false ∧ ∀ fields, rbacSchemaFields name = Some fields → hides fields s.
Proof.
  intros ([n v] & Hin & H)%elem_of_omap. unfold strip_schema in H. cbn [fst snd] in H.
  destruct (HasPrefix n "Token") eqn:Ht; [done|].
  destruct (rbacSchemaFields n) as [fields|] eqn:Hr; injection H as <- <-.
  - split; [done|]. intros f. rewrite Hr. intros [= <-]. apply stripRBACFields_hides.
  - split; [done|]. intros f. congruence.
Qed.
