(* ===== verification/Models.v ===== *)
(** * Domain structs and stored rows

    The structs of [internal/db/models.go] with their helper methods, and the rows of
    the tables as [ent/schema] declares them.  Pointers are options; instants are
    integers (nanoseconds, UTC) and [zero_time] is Go's zero [time.Time].  Row ids are
    positive serials, so the conversions between [int] and [uint] ids are the identity
    and ids are plain integers.  [Component.Incidents] is not a field here: only the
    query behind the availability report, which is not modelled, loads it. *)

From S2P Require Import Prelude GoStrings Event.
Local Open Scope Z_scope.

(** January 1, year 1, 00:00:00 UTC. *)
Definition zero_time : Z := -62135596800 * 1000000000.
Definition IsZero (t : Z) : bool := t == zero_time.

Definition regionAttrName : string := "region".

Record ComponentAttr := mkAttr {
  attr_ID : Z; attr_ComponentID : Z; attr_Name : string; attr_Value : string }.
#[global] Instance ComponentAttr_eq_dec : EqDecision ComponentAttr.
Proof. solve_decision. Defined.

Record Component := mkComponent {
  comp_ID : Z; comp_Name : string; comp_Attrs : list ComponentAttr;
  comp_CreatedAt : option Z; comp_ModifiedAt : option Z; comp_DeletedAt : option Z }.
#[global] Instance Component_eq_dec : EqDecision Component.
Proof. solve_decision. Defined.

(** The value of the last attribute of that name, "" without one. *)
Definition last_attr (name : string) (attrs : list ComponentAttr) : string :=
  foldl (λ v a, if attr_Name a == name then attr_Value a else v) ""%string attrs.

Definition PrintAttrs (c : Component) : string :=
  (comp_Name c +:+ " (" +:+ last_attr "category" (comp_Attrs c)
     +:+ ", " +:+ last_attr regionAttrName (comp_Attrs c)
     +:+ ", " +:+ last_attr "type" (comp_Attrs c) +:+ ")")%string.

Definition Region (c : Component) : string := last_attr regionAttrName (comp_Attrs c).
Definition CType (c : Component) : string := last_attr "type" (comp_Attrs c).

Record IncidentStatus := mkIncidentStatus {
  st_ID : Z; st_IncidentID : Z; st_Status : Status; st_Text : string; st_Timestamp : Z;
  st_CreatedAt : option Z; st_ModifiedAt : option Z; st_DeletedAt : option Z;
  st_CreatedBy : option string; st_ModifiedBy : option string }.
#[global] Instance IncidentStatus_eq_dec : EqDecision IncidentStatus.
Proof. solve_decision. Defined.

(** An update built in memory: not stored yet (id 0), the optional columns unset. *)
Definition newStatus (incidentID : Z) (status : Status) (text : string) (ts : Z)
    (createdBy : option string) : IncidentStatus :=
  mkIncidentStatus 0 incidentID status text ts None None None createdBy None.

Definition st_set_Text (x : string) (s : IncidentStatus) : IncidentStatus :=
  mkIncidentStatus (st_ID s) (st_IncidentID s) (st_Status s) x (st_Timestamp s)
    (st_CreatedAt s) (st_ModifiedAt s) (st_DeletedAt s) (st_CreatedBy s) (st_ModifiedBy s).
Definition st_set_ModifiedBy (x : option string) (s : IncidentStatus) : IncidentStatus :=
  mkIncidentStatus (st_ID s) (st_IncidentID s) (st_Status s) (st_Text s) (st_Timestamp s)
    (st_CreatedAt s) (st_ModifiedAt s) (st_DeletedAt s) (st_CreatedBy s) x.
Definition st_set_dates (c m : option Z) (s : IncidentStatus) : IncidentStatus :=
  mkIncidentStatus (st_ID s) (st_IncidentID s) (st_Status s) (st_Text s) (st_Timestamp s)
    c m (st_DeletedAt s) (st_CreatedBy s) (st_ModifiedBy s).
Definition st_set_ids (id incidentID : Z) (s : IncidentStatus) : IncidentStatus :=
  mkIncidentStatus id incidentID (st_Status s) (st_Text s) (st_Timestamp s)
    (st_CreatedAt s) (st_ModifiedAt s) (st_DeletedAt s) (st_CreatedBy s) (st_ModifiedBy s).

Record Incident := mkIncident {
  inc_ID : Z; inc_Text : option string; inc_Description : option string;
  inc_StartDate : option Z; inc_EndDate : option Z; inc_Impact : option Z;
  inc_Statuses : list IncidentStatus; inc_Status : Status; inc_System : bool;
  inc_Type : string; inc_Components : list Component;
  inc_CreatedAt : option Z; inc_ModifiedAt : option Z; inc_DeletedAt : option Z;
  inc_CreatedBy : option string; inc_ContactEmail : option string; inc_Version : option Z }.
#[global] Instance Incident_eq_dec : EqDecision Incident.
Proof. solve_decision. Defined.

(** Field assignments [inc.F = x]. *)
Section Setters.
Context (i : Incident).
Definition set_ID x := mkIncident x (inc_Text i) (inc_Description i) (inc_StartDate i)
  (inc_EndDate i) (inc_Impact i) (inc_Statuses i) (inc_Status i) (inc_System i) (inc_Type i)
  (inc_Components i) (inc_CreatedAt i) (inc_ModifiedAt i) (inc_DeletedAt i) (inc_CreatedBy i)
  (inc_ContactEmail i) (inc_Version i).
Definition set_Text x := mkIncident (inc_ID i) x (inc_Description i) (inc_StartDate i)
  (inc_EndDate i) (inc_Impact i) (inc_Statuses i) (inc_Status i) (inc_System i) (inc_Type i)
  (inc_Components i) (inc_CreatedAt i) (inc_ModifiedAt i) (inc_DeletedAt i) (inc_CreatedBy i)
  (inc_ContactEmail i) (inc_Version i).
Definition set_Description x := mkIncident (inc_ID i) (inc_Text i) x (inc_StartDate i)
  (inc_EndDate i) (inc_Impact i) (inc_Statuses i) (inc_Status i) (inc_System i) (inc_Type i)
  (inc_Components i) (inc_CreatedAt i) (inc_ModifiedAt i) (inc_DeletedAt i) (inc_CreatedBy i)
  (inc_ContactEmail i) (inc_Version i).
Definition set_StartDate x := mkIncident (inc_ID i) (inc_Text i) (inc_Description i) x
  (inc_EndDate i) (inc_Impact i) (inc_Statuses i) (inc_Status i) (inc_System i) (inc_Type i)
  (inc_Components i) (inc_CreatedAt i) (inc_ModifiedAt i) (inc_DeletedAt i) (inc_CreatedBy i)
  (inc_ContactEmail i) (inc_Version i).
Definition set_EndDate x := mkIncident (inc_ID i) (inc_Text i) (inc_Description i)
  (inc_StartDate i) x (inc_Impact i) (inc_Statuses i) (inc_Status i) (inc_System i)
  (inc_Type i) (inc_Components i) (inc_CreatedAt i) (inc_ModifiedAt i) (inc_DeletedAt i)
  (inc_CreatedBy i) (inc_ContactEmail i) (inc_Version i).
Definition set_Impact x := mkIncident (inc_ID i) (inc_Text i) (inc_Description i)
  (inc_StartDate i) (inc_EndDate i) x (inc_Statuses i) (inc_Status i) (inc_System i)
  (inc_Type i) (inc_Components i) (inc_CreatedAt i) (inc_ModifiedAt i) (inc_DeletedAt i)
  (inc_CreatedBy i) (inc_ContactEmail i) (inc_Version i).
Definition set_Statuses x := mkIncident (inc_ID i) (inc_Text i) (inc_Description i)
  (inc_StartDate i) (inc_EndDate i) (inc_Impact i) x (inc_Status i) (inc_System i)
  (inc_Type i) (inc_Components i) (inc_CreatedAt i) (inc_ModifiedAt i) (inc_DeletedAt i)
  (inc_CreatedBy i) (inc_ContactEmail i) (inc_Version i).
Definition set_Status x := mkIncident (inc_ID i) (inc_Text i) (inc_Description i)
  (inc_StartDate i) (inc_EndDate i) (inc_Impact i) (inc_Statuses i) x (inc_System i)
  (inc_Type i) (inc_Components i) (inc_CreatedAt i) (inc_ModifiedAt i) (inc_DeletedAt i)
  (inc_CreatedBy i) (inc_ContactEmail i) (inc_Version i).
Definition set_System x := mkIncident (inc_ID i) (inc_Text i) (inc_Description i)
  (inc_StartDate i) (inc_EndDate i) (inc_Impact i) (inc_Statuses i) (inc_Status i) x
  (inc_Type i) (inc_Components i) (inc_CreatedAt i) (inc_ModifiedAt i) (inc_DeletedAt i)
  (inc_CreatedBy i) (inc_ContactEmail i) (inc_Version i).
Definition set_Components x := mkIncident (inc_ID i) (inc_Text i) (inc_Description i)
  (inc_StartDate i) (inc_EndDate i) (inc_Impact i) (inc_Statuses i) (inc_Status i)
  (inc_System i) (inc_Type i) x (inc_CreatedAt i) (inc_ModifiedAt i) (inc_DeletedAt i)
  (inc_CreatedBy i) (inc_ContactEmail i) (inc_Version i).
Definition set_CreatedAt x := mkIncident (inc_ID i) (inc_Text i) (inc_Description i)
  (inc_StartDate i) (inc_EndDate i) (inc_Impact i) (inc_Statuses i) (inc_Status i)
  (inc_System i) (inc_Type i) (inc_Components i) x (inc_ModifiedAt i) (inc_DeletedAt i)
  (inc_CreatedBy i) (inc_ContactEmail i) (inc_Version i).
Definition set_ModifiedAt x := mkIncident (inc_ID i) (inc_Text i) (inc_Description i)
  (inc_StartDate i) (inc_EndDate i) (inc_Impact i) (inc_Statuses i) (inc_Status i)
  (inc_System i) (inc_Type i) (inc_Components i) (inc_CreatedAt i) x (inc_DeletedAt i)
  (inc_CreatedBy i) (inc_ContactEmail i) (inc_Version i).
Definition set_Version x := mkIncident (inc_ID i) (inc_Text i) (inc_Description i)
  (inc_StartDate i) (inc_EndDate i) (inc_Impact i) (inc_Statuses i) (inc_Status i)
  (inc_System i) (inc_Type i) (inc_Components i) (inc_CreatedAt i) (inc_ModifiedAt i)
  (inc_DeletedAt i) (inc_CreatedBy i) (inc_ContactEmail i) x.
End Setters.

(** [inc.Statuses = append(inc.Statuses, s)]. *)
Definition add_Status (i : Incident) (s : IncidentStatus) : Incident :=
  set_Statuses i (inc_Statuses i ++ [s]).

(** [in.Link()]: panics on a missing title, hence an option. *)
Definition Link (i : Incident) : option string :=
  (λ text, ("<a href='/incidents/" +:+ Itoa (inc_ID i) +:+ "'>" +:+ text +:+ "</a>")%string)
    <$> inc_Text i.

(** A value of a decoded JSON object: a string or something else. *)
Inductive json_value := JString (s : string) | JOther.
#[global] Instance json_value_eq_dec : EqDecision json_value.
Proof. solve_decision. Defined.

Record NotificationOutbox := mkOutbox {
  no_ID : Z; no_Kind : string; no_IncidentID : Z; no_Recipient : string;
  no_Payload : gmap string json_value; no_ChangeID : string; no_DedupKey : string;
  no_Status : string; no_Attempts : Z; no_NextAttemptAt : option Z;
  no_LockedBy : option string; no_LockedAt : option Z; no_LastError : option string;
  no_CreatedAt : Z; no_UpdatedAt : Z }.

(** ** Stored rows *)

(** [incident]: [status], the dates and the authors are nullable. *)
Record IncidentRow := mkIncidentRow {
  ir_text : string; ir_description : option string; ir_start : Z; ir_end : option Z;
  ir_impact : Z; ir_system : bool; ir_type : string; ir_status : option string;
  ir_created : option Z; ir_modified : option Z; ir_deleted : option Z;
  ir_created_by : option string; ir_contact : option string; ir_version : Z }.
#[global] Instance IncidentRow_eq_dec : EqDecision IncidentRow.
Proof. solve_decision. Defined.

(** [incident_status]: no foreign key on [incident_id]. *)
Record StatusRow := mkStatusRow {
  sr_incident : Z; sr_timestamp : Z; sr_text : string; sr_status : string;
  sr_created : option Z; sr_modified : option Z; sr_deleted : option Z;
  sr_created_by : option string; sr_modified_by : option string }.
#[global] Instance StatusRow_eq_dec : EqDecision StatusRow.
Proof. solve_decision. Defined.

Record ComponentRow := mkComponentRow {
  cr_name : string; cr_created : option Z; cr_modified : option Z; cr_deleted : option Z }.

Record AttrRow := mkAttrRow { ar_component : Z; ar_name : string; ar_value : string }.

(** [notification_outbox]: the id is the key of the table. *)
Record OutboxRow := mkOutboxRow {
  or_kind : string; or_incident : Z; or_recipient : string;
  or_payload : gmap string json_value; or_change : string; or_dedup : string;
  or_status : string; or_attempts : Z; or_next : option Z;
  or_locked_by : option string; or_locked_at : option Z; or_error : option string;
  or_created : Z; or_updated : Z }.
