(* ===== verification/Store.v ===== *)
(** * The world a request runs in: tables, clock, faults, transactions

    [M A] is the effect of the Go code: it reads an environment (the clock, the
    statements that fail, the identifiers a generator returns), threads the tables,
    the serials, the worker's wake-up channel and two counters, and ends in a value,
    an error or a panic.  Every SQL statement first consults the fault schedule, so a
    theorem about [m E w] for every [E] covers a database that fails at any statement.
    Transactions are those of [internal/db/tx.go]; a rollback restores the tables and
    not the serials, as in PostgreSQL. *)

From S2P Require Import Prelude GoStrings Errors Event Models.
Local Open Scope Z_scope.

Record Tables := mkTables {
  t_incident : gmap Z IncidentRow;
  t_rel : gset (Z * Z);            (* (incident_id, component_id) *)
  t_status : gmap Z StatusRow;
  t_component : gmap Z ComponentRow;
  t_attr : gmap Z AttrRow;
  t_outbox : gmap Z OutboxRow }.

(** The next value of each serial. *)
Record Seqs := mkSeqs {
  seq_incident : Z; seq_status : Z; seq_component : Z; seq_attr : Z; seq_outbox : Z }.

Record World := mkWorld {
  w_tab : Tables; w_seq : Seqs;
  w_tick : nat;      (* readings of the clock and of the id generator so far *)
  w_stmt : nat;      (* statements issued so far *)
  w_signal : bool }. (* the worker's one-slot wake-up channel *)

(** What the mail library reports for one message: accepted, an unusable sender or
    recipient address, a transport error, an SMTP reply, or a panic of the library. *)
Inductive mail_result :=
| MailOK
| MailBadFrom (text : string)
| MailBadRecipient (text : string)
| MailTransport (text : string)
| MailReply (temp : bool) (code : Z) (text : string)
| MailPanic (text : string).

Record Env := mkEnv {
  now_at : nat → Z;                 (* the clock *)
  fault_at : nat → bool;            (* which statements fail *)
  uuid_at : nat → string;           (* [uuid.NewString] *)
  jitter_at : nat → Z → Z;          (* the random spread of a retry delay *)
  mail_at : nat → string → string → string → mail_result;  (* recipient, subject, body *)
  cancel_at : nat → bool }.         (* [ctx.Err() != nil] *)

(** The clock never runs backwards. *)
Definition clock_mono (E : Env) : Prop := ∀ m n, (m ≤ n)%nat → now_at E m <= now_at E n.
(** No statement fails. *)
Definition fault_free (E : Env) : Prop := ∀ n, fault_at E n = false.

(** ** The effect *)

Inductive outcome (A : Type) := Ret (a : A) | Fail (e : err) | Panic.
Arguments Ret {A} a. Arguments Fail {A} e. Arguments Panic {A}.

Definition M (A : Type) : Type := Env → World → outcome A * World.

#[global] Instance M_ret : MRet M := λ A a E w, (Ret a, w).
#[global] Instance M_bind : MBind M := λ A B f m E w,
  match m E w with
  | (Ret a, w') => f a E w'
  | (Fail e, w') => (Fail e, w')
  | (Panic, w') => (Panic, w')
  end.

Definition throw {A} (e : err) : M A := λ E w, (Fail e, w).
Definition panic {A} : M A := λ E w, (Panic, w).
(** [*p]: a nil pointer panics. *)
Definition deref {A} (p : option A) : M A :=
  match p with Some a => mret a | None => panic end.

(** [if err := m; err != nil { ... }]: the error as a value; a panic propagates. *)
Definition try {A} (m : M A) : M (err + A) := λ E w,
  match m E w with
  | (Ret a, w') => (Ret (inr a), w')
  | (Fail e, w') => (Ret (inl e), w')
  | (Panic, w') => (Panic, w')
  end.

(** [for _, x := range l { ... }] with the mutated locals as accumulator. *)
Fixpoint foldM {A B} (f : B → A → M B) (b : B) (l : list A) : M B :=
  match l with
  | [] => mret b
  | x :: l => b' ← f b x; foldM f b' l
  end.
Fixpoint mapM {A B} (f : A → M B) (l : list A) : M (list B) :=
  match l with
  | [] => mret []
  | x :: l => y ← f x; ys ← mapM f l; mret (y :: ys)
  end.

(** A reading of one of the environment's sources, by the count of readings so far. *)
Definition reading {A} (f : Env → nat → A) : M A := λ E w,
  (Ret (f E (w_tick w)),
   mkWorld (w_tab w) (w_seq w) (S (w_tick w)) (w_stmt w) (w_signal w)).

(** [time.Now().UTC()]. *)
Definition now : M Z := reading now_at.
(** [uuid.NewString()]. *)
Definition uuid : M string := reading uuid_at.

(** A send on the worker's channel of capacity one never blocks. *)
Definition wake : M unit := λ E w,
  (Ret tt, mkWorld (w_tab w) (w_seq w) (w_tick w) (w_stmt w) true).

(** ** Statements *)

(** One round trip to the database, which the environment may fail. *)
Definition stmt : M unit := λ E w,
  let w' := mkWorld (w_tab w) (w_seq w) (w_tick w) (S (w_stmt w)) (w_signal w) in
  if fault_at E (w_stmt w) then (Fail ESql, w') else (Ret tt, w').

Definition get_tab : M Tables := λ E w, (Ret (w_tab w), w).
Definition put_tab (t : Tables) : M unit := λ E w,
  (Ret tt, mkWorld t (w_seq w) (w_tick w) (w_stmt w) (w_signal w)).
Definition get_seq : M Seqs := λ E w, (Ret (w_seq w), w).
Definition put_seq (s : Seqs) : M unit := λ E w,
  (Ret tt, mkWorld (w_tab w) s (w_tick w) (w_stmt w) (w_signal w)).

(** [SELECT]. *)
Definition select {A} (f : Tables → A) : M A := _ ← stmt; t ← get_tab; mret (f t).

Definition set_incidents (x : gmap Z IncidentRow) (t : Tables) : Tables :=
  mkTables x (t_rel t) (t_status t) (t_component t) (t_attr t) (t_outbox t).
Definition set_rel (x : gset (Z * Z)) (t : Tables) : Tables :=
  mkTables (t_incident t) x (t_status t) (t_component t) (t_attr t) (t_outbox t).
Definition set_statuses (x : gmap Z StatusRow) (t : Tables) : Tables :=
  mkTables (t_incident t) (t_rel t) x (t_component t) (t_attr t) (t_outbox t).
Definition set_components (x : gmap Z ComponentRow) (t : Tables) : Tables :=
  mkTables (t_incident t) (t_rel t) (t_status t) x (t_attr t) (t_outbox t).
Definition set_attrs (x : gmap Z AttrRow) (t : Tables) : Tables :=
  mkTables (t_incident t) (t_rel t) (t_status t) (t_component t) x (t_outbox t).
Definition set_outbox (x : gmap Z OutboxRow) (t : Tables) : Tables :=
  mkTables (t_incident t) (t_rel t) (t_status t) (t_component t) (t_attr t) x.

(** ** Transactions *)

(** The tables of [w] back, everything else as [w'] left it. *)
Definition rollback_to (w w' : World) : World :=
  mkWorld (w_tab w) (w_seq w') (w_tick w') (w_stmt w') (w_signal w').

(** [begin], the body, then [commit]; the deferred [rollback] undoes the writes of a
    body that fails or panics and of a commit that fails. *)
Definition WithTx {A} (fn : M A) : M A := λ E w,
  match stmt E w with
  | (Ret _, w0) =>
    match fn E w0 with
    | (Ret a, w1) =>
      match stmt E w1 with
      | (Ret _, w2) => (Ret a, w2)
      | (Fail e, w2) => (Fail e, rollback_to w w2)
      | (Panic, w2) => (Panic, rollback_to w w2)
      end
    | (Fail e, w1) => (Fail e, rollback_to w w1)
    | (Panic, w1) => (Panic, rollback_to w w1)
    end
  | (Fail e, w0) => (Fail e, w0)
  | (Panic, w0) => (Panic, w0)
  end.

(** [execWithTx]: the caller's transaction when there is one, a new one otherwise. *)
Definition execWithTx {A} (in_tx : bool) (fn : M A) : M A :=
  if in_tx then fn else WithTx fn.

(** ** Reasoning about runs *)

Section Runs.
Context {A B : Type}.
Implicit Types (E : Env) (w : World) (m : M A) (f : A → M B).

Lemma bind_run m f E w :
  (m ≫= f) E w = match m E w with
                 | (Ret a, w') => f a E w'
                 | (Fail e, w') => (Fail e, w')
                 | (Panic, w') => (Panic, w') end.
Proof. reflexivity. Qed.

Lemma bind_Ret_inv m f E w b w' :
  (m ≫= f) E w = (Ret b, w') → ∃ a w1, m E w = (Ret a, w1) ∧ f a E w1 = (Ret b, w').
Proof.
  rewrite bind_run. destruct (m E w) as [[a|e|] w1] eqn:Hm; intros H; [eauto| |]; done.
Qed.

Lemma bind_run_Ret m f E w a w1 :
  m E w = (Ret a, w1) → (m ≫= f) E w = f a E w1.
Proof. rewrite bind_run. by intros ->. Qed.

Lemma ret_run (a : A) E w : (mret a : M A) E w = (Ret a, w).
Proof. reflexivity. Qed.
End Runs.

Lemma deref_Ret {A} (p : option A) E w a w' :
  deref p E w = (Ret a, w') → p = Some a ∧ w' = w.
Proof. destruct p; simpl; [intros [= <- <-]; done|done]. Qed.

Lemma try_Ret {A} (m : M A) E w r w' :
  try m E w = (Ret r, w') →
  match r with inr a => m E w = (Ret a, w') | inl e => m E w = (Fail e, w') end.
Proof. unfold try. destruct (m E w) as [[a|e|] w1]; intros [= <- <-]; done. Qed.

Lemma try_not_Fail {A} (m : M A) E w e w' : try m E w ≠ (Fail e, w').
Proof. unfold try. by destruct (m E w) as [[]]. Qed.

Lemma stmt_Ret E w w' : stmt E w = (Ret tt, w') →
  fault_at E (w_stmt w) = false ∧
  w' = mkWorld (w_tab w) (w_seq w) (w_tick w) (S (w_stmt w)) (w_signal w).
Proof. unfold stmt. destruct (fault_at _ _); [done|]. by intros [= <-]. Qed.

Lemma stmt_ok E w : fault_at E (w_stmt w) = false →
  stmt E w = (Ret tt, mkWorld (w_tab w) (w_seq w) (w_tick w) (S (w_stmt w)) (w_signal w)).
Proof. unfold stmt. by intros ->. Qed.

Lemma select_run {A} (f : Tables → A) E w :
  select f E w =
  (let w' := mkWorld (w_tab w) (w_seq w) (w_tick w) (S (w_stmt w)) (w_signal w) in
   if fault_at E (w_stmt w) then (Fail ESql, w') else (Ret (f (w_tab w)), w')).
Proof.
  unfold select. rewrite bind_run. unfold stmt. destruct (fault_at _ _); reflexivity.
Qed.

Lemma select_Ret {A} (f : Tables → A) E w a w' :
  select f E w = (Ret a, w') →
  a = f (w_tab w) ∧ w' = mkWorld (w_tab w) (w_seq w) (w_tick w) (S (w_stmt w)) (w_signal w)
  ∧ fault_at E (w_stmt w) = false.
Proof. rewrite select_run. simpl. destruct (fault_at _ _); [done|]. by intros [= <- <-]. Qed.

(** Decompose a successful run of a sequence of effects. *)
Ltac run_inv H :=
  repeat match type of H with
  | (mbind _ _) _ _ = (Ret _, _) =>
    let a := fresh "a" in let w := fresh "w" in let H1 := fresh "Hrun" in
    apply bind_Ret_inv in H as (a & w & H1 & H)
  end.

(** ** Preserved predicates *)

(** Every run of [m], however it ends, preserves [I]. *)
Class Preserves (I : Env → World → Prop) {A} (m : M A) : Prop :=
  preserves : ∀ E w o w', m E w = (o, w') → I E w → I E w'.

Section Preserves.
Context (I : Env → World → Prop).

#[global] Instance preserves_ret {A} (a : A) : Preserves I (mret a : M A).
Proof. intros E w o w' [= <- <-]. done. Qed.
#[global] Instance preserves_throw {A} e : Preserves I (throw e : M A).
Proof. intros E w o w' [= <- <-]. done. Qed.
#[global] Instance preserves_panic {A} : Preserves I (panic : M A).
Proof. intros E w o w' [= <- <-]. done. Qed.
#[global] Instance preserves_deref {A} (p : option A) : Preserves I (deref p).
Proof. destruct p; apply _. Qed.

#[global] Instance preserves_bind {A B} (m : M A) (f : A → M B) :
  Preserves I m → (∀ a, Preserves I (f a)) → Preserves I (m ≫= f).
Proof.
  intros Hm Hf E w o w'. rewrite bind_run.
  destruct (m E w) as [[a|e|] w1] eqn:Em; [|intros [= <- <-]; eauto..].
  intros H Hw. eapply (Hf a); eauto.
Qed.

#[global] Instance preserves_try {A} (m : M A) : Preserves I m → Preserves I (try m).
Proof.
  intros Hm E w o w'. unfold try.
  destruct (m E w) as [[a|e|] w1] eqn:Em; intros [= <- <-]; eauto.
Qed.

#[global] Instance preserves_foldM {A B} (f : B → A → M B) b l :
  (∀ b a, Preserves I (f b a)) → Preserves I (foldM f b l).
Proof. intros Hf. revert b. induction l; intros b; cbn; apply _. Qed.

#[global] Instance preserves_mapM {A B} (f : A → M B) l :
  (∀ a, Preserves I (f a)) → Preserves I (mapM f l).
Proof. intros Hf. induction l; cbn; apply _. Qed.
End Preserves.

(** Predicates of the tables alone are blind to the clock, the counters and the
    channel. *)
Definition on_tab (P : Tables → Prop) (E : Env) (w : World) : Prop := P (w_tab w).

Section TabPreserves.
Context (P : Tables → Prop).
#[global] Instance preserves_reading {A} (f : Env → nat → A) : Preserves (on_tab P) (reading f).
Proof. intros E w o w' [= <- <-]. done. Qed.
#[global] Instance preserves_now : Preserves (on_tab P) now.
Proof. apply preserves_reading. Qed.
#[global] Instance preserves_uuid : Preserves (on_tab P) uuid.
Proof. apply preserves_reading. Qed.
#[global] Instance preserves_wake : Preserves (on_tab P) wake.
Proof. intros E w o w' [= <- <-]. done. Qed.
#[global] Instance preserves_stmt : Preserves (on_tab P) stmt.
Proof. intros E w o w'. unfold stmt. destruct (fault_at _ _); by intros [= <- <-]. Qed.
#[global] Instance preserves_select {A} (f : Tables → A) : Preserves (on_tab P) (select f).
Proof. intros E w o w'. rewrite select_run. simpl. destruct (fault_at _ _); by intros [= <- <-]. Qed.
#[global] Instance preserves_put_seq s : Preserves (on_tab P) (put_seq s).
Proof. intros E w o w' [= <- <-]. done. Qed.
#[global] Instance preserves_get_tab : Preserves (on_tab P) get_tab.
Proof. intros E w o w' [= <- <-]. done. Qed.
#[global] Instance preserves_get_seq : Preserves (on_tab P) get_seq.
Proof. intros E w o w' [= <- <-]. done. Qed.
#[global] Instance preserves_WithTx {A} (m : M A) :
  Preserves (on_tab P) m → Preserves (on_tab P) (WithTx m).
Proof.
  intros Hm E w o w' H Hw. unfold WithTx in H.
  destruct (stmt E w) as [o0 w0] eqn:E0.
  pose proof (preserves_stmt E w o0 w0 E0 Hw) as Hw0.
  destruct o0; [|by injection H as <- <-..].
  destruct (m E w0) as [o1 w1] eqn:E1. pose proof (Hm E w0 o1 w1 E1 Hw0) as Hw1.
  destruct o1; [|injection H as <- <-; exact Hw..].
  destruct (stmt E w1) as [o2 w2] eqn:E2.
  pose proof (preserves_stmt E w1 o2 w2 E2 Hw1) as Hw2.
  destruct o2; injection H as <- <-; [exact Hw2|exact Hw|exact Hw].
Qed.
End TabPreserves.

(** Reads leave the tables alone. *)
Class ReadOnly {A} (m : M A) : Prop := read_only : ∀ P, Preserves (on_tab P) m.

Lemma ReadOnly_tab {A} (m : M A) `{!ReadOnly m} E w o w' :
  m E w = (o, w') → w_tab w' = w_tab w.
Proof. intros H. exact (read_only (λ t, t = w_tab w) E w o w' H eq_refl). Qed.

#[global] Instance read_only_Preserves {A} (m : M A) P :
  ReadOnly m → Preserves (on_tab P) m | 100.
Proof. intros H. apply H. Qed.

#[global] Instance ro_stmt : ReadOnly stmt. Proof. intros P. apply _. Qed.
#[global] Instance ro_now : ReadOnly now. Proof. intros P. apply _. Qed.
#[global] Instance ro_uuid : ReadOnly uuid. Proof. intros P. apply _. Qed.
#[global] Instance ro_select {A} (f : Tables → A) : ReadOnly (select f).
Proof. intros P. apply _. Qed.

(** What a statement read holds of well-behaved tables. *)
Lemma preserves_select_bind {A B} (P : Tables → Prop) (f : Tables → A) (k : A → M B) :
  (∀ t, P t → Preserves (on_tab P) (k (f t))) → Preserves (on_tab P) (select f ≫= k).
Proof.
  intros Hk E w o w'. rewrite bind_run, select_run. simpl.
  destruct (fault_at _ _); [intros [= <- <-] Hw; exact Hw|].
  intros H Hw. eapply (Hk _ Hw); [exact H|exact Hw].
Qed.

(** Discharge a preservation goal along the structure of the effect. *)
Ltac pres :=
  repeat first
    [ progress intros
    | solve [apply _ | eauto with sd typeclass_instances]
    | apply preserves_bind; [|intros ?]
    | match goal with
      | |- Preserves _ (if ?b then _ else _) => destruct b
      | |- Preserves _ (match ?x with _ => _ end) => destruct x
      | |- Preserves _ (let '(_, _) := ?x in _) => destruct x
      end
    | apply preserves_foldM | apply preserves_mapM | apply preserves_try
    | apply preserves_WithTx ].

(** A failed transaction leaves every table as it found it, whatever the statements
    of its body did and wherever the fault struck. *)
Lemma WithTx_not_Ret {A} (m : M A) E w o w' :
  WithTx m E w = (o, w') → (∀ a, o ≠ Ret a) → w_tab w' = w_tab w.
Proof.
  unfold WithTx. destruct (stmt E w) as [[[]|e|] w0] eqn:E0;
    [|intros [= <- <-] _; exact (ReadOnly_tab stmt E w _ _ E0)..].
  destruct (m E w0) as [[a|e|] w1]; [|by intros [= <- <-]..].
  destruct (stmt E w1) as [[[]|e|] w2]; intros [= <- <-] H; [by destruct (H a)|done|done].
Qed.

Lemma WithTx_Ret {A} (m : M A) E w a w' :
  WithTx m E w = (Ret a, w') →
  ∃ w0 w1, w_tab w0 = w_tab w ∧ w_seq w0 = w_seq w ∧ w_tick w0 = w_tick w
    ∧ w_signal w0 = w_signal w ∧ w_stmt w0 = S (w_stmt w)
    ∧ m E w0 = (Ret a, w1)
    ∧ w_tab w' = w_tab w1 ∧ w_seq w' = w_seq w1 ∧ w_signal w' = w_signal w1
    ∧ w_tick w' = w_tick w1.
Proof.
  unfold WithTx. destruct (stmt E w) as [[[]|e|] w0] eqn:E0; [|done|done].
  apply stmt_Ret in E0 as [_ ->].
  destruct (m E _) as [[x|e|] w1] eqn:Em; [|done|done].
  destruct (stmt E w1) as [[[]|e|] w2] eqn:E2; intros [= <- <-].
  apply stmt_Ret in E2 as [_ ->].
  exists (mkWorld (w_tab w) (w_seq w) (w_tick w) (S (w_stmt w)) (w_signal w)), w1.
  by repeat split.
Qed.

(** ** Respected relations *)

(** Every run of [m], however it ends, relates the worlds before and after by [R]. *)
Class Respects (R : World → World → Prop) {A} (m : M A) : Prop :=
  respects : ∀ E w o w', m E w = (o, w') → R w w'.

Section Respects.
Context (R : World → World → Prop) `{!PreOrder R}.

#[global] Instance respects_ret {A} (a : A) : Respects R (mret a : M A).
Proof. intros E w o w' [= <- <-]. reflexivity. Qed.
#[global] Instance respects_throw {A} e : Respects R (throw e : M A).
Proof. intros E w o w' [= <- <-]. reflexivity. Qed.
#[global] Instance respects_panic {A} : Respects R (panic : M A).
Proof. intros E w o w' [= <- <-]. reflexivity. Qed.
#[global] Instance respects_deref {A} (p : option A) : Respects R (deref p).
Proof. destruct p; apply _. Qed.

#[global] Instance respects_bind {A B} (m : M A) (f : A → M B) :
  Respects R m → (∀ a, Respects R (f a)) → Respects R (m ≫= f).
Proof.
  intros Hm Hf E w o w'. rewrite bind_run.
  destruct (m E w) as [[a|e|] w1] eqn:Em; [|intros [= <- <-]; by eapply Hm..].
  intros H. transitivity w1; [by eapply Hm|by eapply Hf].
Qed.

Lemma respects_assoc {A B C} (m : M A) (f : A → M B) (g : B → M C) :
  Respects R (m ≫= λ a, f a ≫= g) → Respects R ((m ≫= f) ≫= g).
Proof.
  intros H E w o w' Hrun. apply (H E w o w'). rewrite <- Hrun. rewrite !bind_run.
  by destruct (m E w) as [[a|e|] w1].
Qed.

#[global] Instance respects_try {A} (m : M A) : Respects R m → Respects R (try m).
Proof.
  intros Hm E w o w'. unfold try.
  destruct (m E w) as [[a|e|] w1] eqn:Em; intros [= <- <-]; by eapply Hm.
Qed.

#[global] Instance respects_foldM {A B} (f : B → A → M B) b l :
  (∀ b a, Respects R (f b a)) → Respects R (foldM f b l).
Proof. intros Hf. revert b. induction l; intros b; cbn; apply _. Qed.

#[global] Instance respects_mapM {A B} (f : A → M B) l :
  (∀ a, Respects R (f a)) → Respects R (mapM f l).
Proof. intros Hf. induction l; cbn; apply _. Qed.
End Respects.

(** Relations that ignore the clock, the counters and the channel, and that a rollback
    re-establishes. *)
Class DbRel (R : World → World → Prop) : Prop := {
  db_rel_pre :: PreOrder R;
  db_rel_frame : ∀ w w', w_tab w' = w_tab w → w_seq w' = w_seq w → R w w';
  db_rel_rollback : ∀ w w', R w w' → R w (rollback_to w w') }.

Section DbRel.
Context (R : World → World → Prop) `{!DbRel R}.
#[global] Instance respects_reading {A} (f : Env → nat → A) : Respects R (reading f).
Proof. intros E w o w' [= <- <-]. by apply db_rel_frame. Qed.
#[global] Instance respects_now : Respects R now.
Proof. apply respects_reading. Qed.
#[global] Instance respects_uuid : Respects R uuid.
Proof. apply respects_reading. Qed.
#[global] Instance respects_wake : Respects R wake.
Proof. intros E w o w' [= <- <-]. by apply db_rel_frame. Qed.
#[global] Instance respects_stmt : Respects R stmt.
Proof. intros E w o w'. unfold stmt. destruct (fault_at _ _); intros [= <- <-]; by apply db_rel_frame. Qed.
#[global] Instance respects_get_tab : Respects R get_tab.
Proof. intros E w o w' [= <- <-]. reflexivity. Qed.
#[global] Instance respects_get_seq : Respects R get_seq.
Proof. intros E w o w' [= <- <-]. reflexivity. Qed.
#[global] Instance respects_select {A} (f : Tables → A) : Respects R (select f).
Proof. unfold select. apply _. Qed.
#[global] Instance respects_WithTx {A} (m : M A) : Respects R m → Respects R (WithTx m).
Proof.
  intros Hm E w o w'. unfold WithTx.
  destruct (stmt E w) as [o0 w0] eqn:E0. pose proof (respects_stmt E w o0 w0 E0) as R0.
  destruct o0; [|by intros [= <- <-]..].
  destruct (m E w0) as [o1 w1] eqn:E1. pose proof (Hm E w0 o1 w1 E1) as R1.
  assert (R w w1) as R01 by (by transitivity w0).
  destruct o1; [|intros [= <- <-]; by apply db_rel_rollback..].
  destruct (stmt E w1) as [o2 w2] eqn:E2. pose proof (respects_stmt E w1 o2 w2 E2) as R2.
  assert (R w w2) as R02 by (by transitivity w1).
  destruct o2; intros [= <- <-]; [done|by apply db_rel_rollback..].
Qed.
End DbRel.

(** Discharge a [Respects] goal along the structure of the effect. *)
Ltac resp :=
  repeat first
    [ progress intros
    | solve [apply _]
    | apply respects_bind; [apply _| |intros ?]
    | match goal with
      | |- Respects _ (if ?b then _ else _) => destruct b
      | |- Respects _ (match ?x with _ => _ end) => destruct x
      | |- Respects _ (let '(_, _) := ?x in _) => destruct x
      end
    | apply respects_foldM; [apply _|] | apply respects_mapM; [apply _|]
    | apply respects_try | apply respects_WithTx; [apply _|] ].
