(* ===== verification/Queries.v ===== *)
(** * Reads of the storage facade

    [internal/db/mappers.go] (rows to domain structs), the filters and queries of
    [internal/db/db.go], [raw.go], [event_types.go], [info.go] and [maintenances.go].
    A [WHERE] clause is evaluated in SQL's three-valued logic over the nullable
    columns.  A query with its eager loads is one round trip in the fault schedule.
    Rows without an [ORDER BY] come in key order; the order of ties of a sort is left to
    the sorting function. *)

From S2P Require Import Prelude GoStrings GoTime Errors Event Models Store.
Local Open Scope Z_scope.

(** ** Mappers *)

Definition optTimePtr (v : Z) : option Z := if IsZero v then None else Some v.

(** Ent reads a NULL time as the zero time; the mapper turns it back into nil. *)
Definition nullable_time (v : option Z) : option Z := optTimePtr (default zero_time v).

Definition componentAttrFromEnt (id : Z) (a : AttrRow) : ComponentAttr :=
  mkAttr id (ar_component a) (ar_name a) (ar_value a).

Definition attrs_of (t : Tables) (componentID : Z) : list ComponentAttr :=
  omap (λ ka : Z * AttrRow, if ar_component ka.2 == componentID
          then Some (componentAttrFromEnt ka.1 ka.2) else None)
       (rows (t_attr t)).

Definition componentFromEnt (t : Tables) (id : Z) (c : ComponentRow) : Component :=
  mkComponent id (cr_name c) (attrs_of t id) (nullable_time (cr_created c))
    (nullable_time (cr_modified c)) (nullable_time (cr_deleted c)).

(** The eager load selects only [id] and [name]; the other columns stay zero. *)
Definition trimmed_component (t : Tables) (id : Z) (c : ComponentRow) : Component :=
  mkComponent id (cr_name c) (attrs_of t id) None None None.

Definition components_of (t : Tables) (incidentID : Z) : list Component :=
  omap (λ kc : Z * ComponentRow, if bool_decide ((incidentID, kc.1) ∈ t_rel t)
          then Some (trimmed_component t kc.1 kc.2) else None)
       (rows (t_component t)).

Definition incidentFromEnt (id : Z) (e : IncidentRow) (comps : list Component) : Incident :=
  mkIncident id (Some (ir_text e)) (ir_description e) (Some (ir_start e))
    (nullable_time (ir_end e)) (Some (ir_impact e)) [] (default ""%string (ir_status e))
    (ir_system e) (ir_type e) comps (nullable_time (ir_created e))
    (nullable_time (ir_modified e)) (nullable_time (ir_deleted e)) (ir_created_by e)
    (ir_contact e) (Some (ir_version e)).

Definition incidentStatusFromEnt (id : Z) (e : StatusRow) : IncidentStatus :=
  mkIncidentStatus id (sr_incident e) (sr_status e) (sr_text e) (sr_timestamp e)
    (nullable_time (sr_created e)) (nullable_time (sr_modified e))
    (nullable_time (sr_deleted e)) (sr_created_by e) (sr_modified_by e).

(** The update history of one incident, by ascending row id. *)
Definition statuses_of (t : Tables) (incidentID : Z) : list IncidentStatus :=
  (λ ks : Z * StatusRow, incidentStatusFromEnt ks.1 ks.2)
    <$> filterb (λ ks : Z * StatusRow, sr_incident ks.2 == incidentID) (rows (t_status t)).

Definition incidentStatusChunkSize : nat := 1000.

(** The slices [ids[start:end]] of the loops over an IN list. *)
Fixpoint chunks_fuel {A} (fuel n : nat) (l : list A) : list (list A) :=
  match fuel, l with
  | S fuel, _ :: _ => take n l :: chunks_fuel fuel n (drop n l)
  | _, _ => []
  end.
Definition chunks {A} (n : nat) (l : list A) : list (list A) := chunks_fuel (length l) n l.

(** [grouped[r.IncidentID] = append(grouped[r.IncidentID], r)]. *)
Definition group_status (grouped : gmap Z (list IncidentStatus)) (r : IncidentStatus) :
    gmap Z (list IncidentStatus) :=
  <[st_IncidentID r := default [] (grouped !! st_IncidentID r) ++ [r]]> grouped.

Definition statuses_in (ids : list Z) (t : Tables) : list IncidentStatus :=
  (λ ks : Z * StatusRow, incidentStatusFromEnt ks.1 ks.2)
    <$> filterb (λ ks : Z * StatusRow, bool_decide (sr_incident ks.2 ∈ ids)) (rows (t_status t)).

Definition statusesByIncident (ids : list Z) : M (gmap Z (list IncidentStatus)) :=
  foldM (λ grouped chunk,
           rs ← select (statuses_in chunk);
           mret (foldl group_status grouped rs))
        ∅ (chunks incidentStatusChunkSize ids).

Definition attachStatuses (incidents : list Incident)
    (grouped : gmap Z (list IncidentStatus)) : list Incident :=
  (λ inc, set_Statuses inc (default [] (grouped !! inc_ID inc))) <$> incidents.

(** ** Filters *)

(** SQL truth values: [None] is unknown. *)
Definition tri : Type := option bool.
Definition tri_not (a : tri) : tri := negb <$> a.
Definition tri_and (a b : tri) : tri :=
  match a, b with
  | Some false, _ | _, Some false => Some false
  | Some true, Some true => Some true
  | _, _ => None
  end.
Definition tri_or (a b : tri) : tri :=
  match a, b with
  | Some true, _ | _, Some true => Some true
  | Some false, Some false => Some false
  | _, _ => None
  end.
(** A comparison with a nullable column. *)
Definition col {A} (x : option A) (p : A → bool) : tri := p <$> x.

(** [predicate.Incident]: a condition on a row of [incident]. *)
Definition pred : Type := Tables → Z → IncidentRow → tri.

(** A row is selected when every predicate is true of it. *)
Definition where_all (preds : list pred) (t : Tables) (id : Z) (r : IncidentRow) : bool :=
  forallb (λ p : pred, bool_decide (p t id r = Some true)) preds.

Definition TypeIn (types : list string) : pred := λ _ _ r, Some (bool_decide (ir_type r ∈ types)).
Definition StatusIn (l : list Status) : pred := λ _ _ r, col (ir_status r) (λ s, bool_decide (s ∈ l)).
Definition StatusNotIn (l : list Status) : pred :=
  λ _ _ r, col (ir_status r) (λ s, bool_decide (s ∉ l)).
Definition StatusEQ (s : Status) : pred := StatusIn [s].
Definition HasComponentIn (ids : list Z) : pred := λ t i r,
  Some (existsb (λ c, bool_decide ((i, c) ∈ t_rel t) && bool_decide (is_Some (t_component t !! c))) ids).
Definition pred_not (p : pred) : pred := λ t i r, tri_not (p t i r).
Definition pred_and (p q : pred) : pred := λ t i r, tri_and (p t i r) (q t i r).
Definition pred_or (p q : pred) : pred := λ t i r, tri_or (p t i r) (q t i r).

(** The statuses that make a maintenance public. *)
Definition publicStatuses : list Status :=
  [MaintenancePlanned; MaintenanceInProgress; MaintenanceModified; MaintenanceCompleted].

(** [NOT EXISTS (SELECT 1 FROM incident_status WHERE ... status IN (...))]. *)
Definition noPublicStatus : pred := λ t i r,
  Some (negb (existsb (λ ks : Z * StatusRow, bool_decide (sr_incident ks.2 = i)
                        && bool_decide (sr_status ks.2 ∈ publicStatuses))
                (rows (t_status t)))).

Definition publicEventPredicates : list pred :=
  [ pred_not (pred_and (TypeIn [TypeMaintenance])
                       (StatusIn [MaintenancePendingReview; MaintenanceReviewed]));
    pred_not (pred_and (TypeIn [TypeMaintenance])
                       (pred_and (StatusEQ MaintenanceCancelled) noPublicStatus)) ].

Record IncidentsParams := mkParams {
  p_Types : option (list string); p_Status : option Status;
  p_StartDate : option Z; p_EndDate : option Z; p_Impact : option Z;
  p_IsSystem : option bool; p_ComponentIDs : list Z; p_LastCount : Z;
  p_IsActive : option bool; p_Limit : option Z; p_Page : option Z }.
Definition no_params : IncidentsParams :=
  mkParams None None None None None None [] 0 None None None.

(** Statuses that end an event, as the [active] filters list them. *)
Definition terminalStatuses : list Status :=
  [IncidentResolved; MaintenanceCompleted; MaintenanceCancelled; MaintenancePendingReview;
   MaintenanceReviewed; InfoCompleted; InfoCancelled].
Definition terminalStatusesByComponent : list Status :=
  [IncidentResolved; MaintenanceCompleted; MaintenanceCancelled; InfoCompleted; InfoCancelled].

Definition active_at (terminal : list Status) (currentTime : Z) : pred :=
  pred_or (λ _ _ r, Some (bool_decide (ir_end r = None)))
    (pred_and (λ _ _ r, Some (ir_start r <=? currentTime))
      (pred_and (λ _ _ r, col (ir_end r) (λ e, currentTime <=? e)) (StatusNotIn terminal))).

Definition opt_pred {A} (x : option A) (f : A → pred) : list pred :=
  match x with Some a => [f a] | None => [] end.

Definition applyEventsFilters (params : IncidentsParams) (isAuth : bool) : M (list pred) :=
  let p1 := opt_pred (p_Types params) TypeIn
    ++ opt_pred (p_Impact params) (λ n _ _ r, Some (ir_impact r == n))
    ++ opt_pred (p_IsSystem params) (λ b _ _ r, Some (ir_system r == b))
    ++ match p_ComponentIDs params with [] => [] | ids => [HasComponentIn ids] end in
  p2 ← match p_IsActive params with
       | Some false => throw (EDb ErrDBIncidentFilterActiveFalse)
       | Some true => currentTime ← now; mret [active_at terminalStatuses currentTime]
       | None => mret []
       end;
  let p3 := opt_pred (p_Status params) StatusEQ
    ++ opt_pred (p_StartDate params) (λ d _ _ r, Some (d <=? ir_start r))
    ++ opt_pred (p_EndDate params) (λ d _ _ r, col (ir_end r) (λ e, e <=? d)) in
  mret (p1 ++ p2 ++ p3 ++ (if isAuth then [] else publicEventPredicates)).

(** ** Queries *)

Definition load (t : Tables) (kr : Z * IncidentRow) : Incident :=
  incidentFromEnt kr.1 kr.2 (components_of t kr.1).

(** [ORDER BY start_date DESC]. *)
Definition start_desc (a b : Z * IncidentRow) : Prop := ir_start b.2 <= ir_start a.2.
#[global] Instance start_desc_dec : RelDecision start_desc.
Proof. intros a b. unfold start_desc. apply _. Defined.

Definition matching (preds : list pred) (t : Tables) : list (Z * IncidentRow) :=
  filterb (λ kr : Z * IncidentRow, where_all preds t kr.1 kr.2) (rows (t_incident t)).

(** [LIMIT]/[OFFSET] of the listing; a negative offset is refused by the database. *)
Definition page_of {A} (param : IncidentsParams) (l : list A) : option (list A) :=
  match p_Limit param with
  | Some limit =>
    if 0 <? limit then
      let offset := match p_Page param with
                    | Some page => if 1 <? page then int64 ((page - 1) * limit) else 0
                    | None => 0 end in
      if offset <? 0 then None
      else Some (take (Z.to_nat limit) (drop (Z.to_nat offset) l))
    else if 0 <? p_LastCount param then Some (take (Z.to_nat (p_LastCount param)) l) else Some l
  | None =>
    if 0 <? p_LastCount param then Some (take (Z.to_nat (p_LastCount param)) l) else Some l
  end.

Definition GetEventsWithCount (isAuth : bool) (param : IncidentsParams) : M (list Incident * Z) :=
  preds ← applyEventsFilters param isAuth;
  total ← select (λ t, Z.of_nat (length (matching preds t)));
  page ← select (λ t, map (load t) <$> page_of param (merge_sort start_desc (matching preds t)));
  match page with
  | None => throw ESql
  | Some events =>
    grouped ← statusesByIncident (inc_ID <$> events);
    mret (attachStatuses events grouped, total)
  end.

Definition GetEvents (isAuth : bool) (param : IncidentsParams) : M (list Incident) :=
  r ← GetEventsWithCount isAuth param; mret r.1.

Definition GetEventsInternal (param : IncidentsParams) : M (list Incident) := GetEvents true param.

Definition GetIncident (id : Z) : M Incident :=
  r ← select (λ t, (λ row, load t (id, row)) <$> t_incident t !! id);
  match r with
  | None => throw (EDb ErrDBIncidentDSNotExist)
  | Some inc =>
    grouped ← statusesByIncident [id];
    match attachStatuses [inc] grouped with
    | inc' :: _ => mret inc'
    | [] => mret inc
    end
  end.

Definition GetEventsByComponentID (componentID : Z) (param : IncidentsParams) : M (list Incident) :=
  active ← match p_IsActive param with
           | Some true => currentTime ← now; mret [active_at terminalStatusesByComponent currentTime]
           | _ => mret []
           end;
  let types := match p_Types param with
               | Some (t :: ts) => [TypeIn (t :: ts)]
               | _ => [] end in
  let preds := HasComponentIn [componentID] :: publicEventPredicates ++ active ++ types in
  incidents ← select (λ t,
    map (load t) (if p_LastCount param == 0 then matching preds t
                  else take (Z.to_nat (p_LastCount param)) (reverse (matching preds t))));
  grouped ← statusesByIncident (inc_ID <$> incidents);
  mret (attachStatuses incidents grouped).

Definition incidentIDChunkSize : nat := 1000.

Definition incidentsByIDs (ids : list Z) : M (list Incident) :=
  match ids with
  | [] => mret []
  | _ =>
    byID ← foldM (λ byID chunk,
        rs ← select (λ t, (λ kr, (kr.1, load t kr)) <$>
               filterb (λ kr : Z * IncidentRow, bool_decide (kr.1 ∈ chunk)) (rows (t_incident t)));
        mret (foldl (λ (m : gmap Z Incident) kr, <[kr.1 := kr.2]> m) byID rs))
      (∅ : gmap Z Incident) (chunks incidentIDChunkSize ids);
    let incidents := omap (λ id, byID !! id) ids in
    grouped ← statusesByIncident ids;
    mret (attachStatuses incidents grouped)
  end.

(** The join of [incidentsByComponentAttrQuery]: one id per matching component. *)
Definition ids_by_attr (name value : string) (t : Tables) : list Z :=
  flat_map (λ kr : Z * IncidentRow,
    if where_all publicEventPredicates t kr.1 kr.2 then
      omap (λ ka : Z * AttrRow,
              if bool_decide ((kr.1, ar_component ka.2) ∈ t_rel t) && (ar_name ka.2 == name)
                 && (ar_value ka.2 == value)
              then Some kr.1 else None) (rows (t_attr t))
    else []) (rows (t_incident t)).

Definition GetIncidentsByComponentAttr (attr : ComponentAttr) (param : IncidentsParams) :
    M (list Incident) :=
  ids ← select (λ t,
    let ids := ids_by_attr (attr_Name attr) (attr_Value attr) t in
    if p_LastCount param == 0 then ids
    else take (Z.to_nat (p_LastCount param)) (reverse ids));
  incidentsByIDs ids.

Definition getEventsByType (eventType : string) (desc : bool) : M (list Incident) :=
  incidents ← select (λ t,
    let rs := filterb (λ kr : Z * IncidentRow, ir_type kr.2 == eventType) (rows (t_incident t)) in
    (λ kr : Z * IncidentRow, incidentFromEnt kr.1 kr.2 []) <$> (if desc then reverse rs else rs));
  grouped ← statusesByIncident (inc_ID <$> incidents);
  mret (attachStatuses incidents grouped).

Definition GetInfoEvents : M (list Incident) := getEventsByType TypeInformation true.
Definition GetMaintenances : M (list Incident) := getEventsByType TypeMaintenance false.

Definition GetComponent (id : Z) : M Component :=
  r ← select (λ t, componentFromEnt t id <$> t_component t !! id);
  match r with
  | None => throw (EDb ErrDBComponentDSNotExist)
  | Some c => mret c
  end.

Definition GetComponentsAsMap : M (gmap Z Component) :=
  select (λ t, map_imap (λ id c, Some (mkComponent id (cr_name c) [] (nullable_time (cr_created c))
    (nullable_time (cr_modified c)) (nullable_time (cr_deleted c)))) (t_component t)).

Definition GetComponentsWithValues : M (list Component) :=
  select (λ t, (λ kc : Z * ComponentRow, componentFromEnt t kc.1 kc.2) <$> rows (t_component t)).

Definition component_has_attr (t : Tables) (id : Z) (p : AttrRow → bool) : bool :=
  existsb (λ ka : Z * AttrRow, bool_decide (ar_component ka.2 = id) && p ka.2) (rows (t_attr t)).

Definition GetComponentFromNameAttrs (name : string) (attr : ComponentAttr) : M Component :=
  r ← select (λ t, head (omap (λ kc : Z * ComponentRow,
        if (cr_name kc.2 == name) && component_has_attr t kc.1 (λ a, ar_value a == attr_Value attr)
        then Some (componentFromEnt t kc.1 kc.2) else None) (rows (t_component t))));
  match r with
  | None => throw (EDb ErrDBComponentDSNotExist)
  | Some c => mret c
  end.

Definition GetEventUpdates (incidentID : Z) : M (list IncidentStatus) :=
  select (λ t, statuses_of t incidentID).

(** ** Facts *)

#[global] Arguments attachStatuses : simpl never.
#[global] Arguments load : simpl never.
#[global] Arguments statusesByIncident : simpl never.

Lemma tri_and_true a b : tri_and a b = Some true ↔ a = Some true ∧ b = Some true.
Proof. destruct a as [[]|], b as [[]|]; simpl; intuition congruence. Qed.
Lemma tri_or_true a b : tri_or a b = Some true ↔ a = Some true ∨ b = Some true.
Proof. destruct a as [[]|], b as [[]|]; simpl; intuition congruence. Qed.
Lemma tri_not_true a : tri_not a = Some true ↔ a = Some false.
Proof. destruct a as [[]|]; simpl; intuition congruence. Qed.
Lemma tri_and_false a b : tri_and a b = Some false ↔ a = Some false ∨ b = Some false.
Proof. destruct a as [[]|], b as [[]|]; simpl; intuition congruence. Qed.

Lemma where_all_true preds t id r :
  where_all preds t id r = true ↔ ∀ p, p ∈ preds → p t id r = Some true.
Proof. unfold where_all. rewrite forallb_true_iff. by setoid_rewrite bool_decide_eq_true. Qed.

Lemma where_all_app l k t id r :
  where_all (l ++ k) t id r = where_all l t id r && where_all k t id r.
Proof. unfold where_all. apply forallb_app. Qed.

(** *** Chunked loading *)

Lemma chunks_fuel_concat {A} n : (0 < n)%nat → ∀ fuel (l : list A),
  (length l ≤ fuel)%nat → concat (chunks_fuel fuel n l) = l.
Proof.
  intros Hn. induction fuel as [|fuel IH]; intros l Hl.
  - destruct l; [done|simpl in Hl; lia].
  - destruct l as [|x l]; [done|].
    change (take n (x :: l) ++ concat (chunks_fuel fuel n (drop n (x :: l))) = x :: l).
    rewrite IH; [apply take_drop|]. rewrite length_drop. simpl in *. lia.
Qed.

Lemma chunks_concat {A} n (l : list A) : (0 < n)%nat → concat (chunks n l) = l.
Proof. intros Hn. by apply chunks_fuel_concat. Qed.

Lemma group_status_lookup rs : ∀ grouped i,
  default [] (foldl group_status grouped rs !! i)
  = default [] (grouped !! i) ++ filterb (λ r, st_IncidentID r == i) rs.
Proof.
  induction rs as [|r rs IH]; intros grouped i; simpl; [by rewrite app_nil_r|].
  rewrite IH. unfold group_status. rewrite lookup_insert.
  case_decide as Hi; case_bool_decide; try done; subst; simpl.
  by rewrite <- app_assoc.
Qed.

Lemma filterb_fmap {A B} (g : A → B) (f : B → bool) l :
  filterb f (g <$> l) = g <$> filterb (λ x, f (g x)) l.
Proof.
  induction l as [|x l IH]; [done|]. rewrite fmap_cons. simpl.
  destruct (f (g x)); [rewrite fmap_cons|]; by rewrite IH.
Qed.

Lemma statuses_in_of t ids i :
  filterb (λ r, st_IncidentID r == i) (statuses_in ids t)
  = if decide (i ∈ ids) then statuses_of t i else [].
Proof.
  unfold statuses_in, statuses_of. rewrite filterb_fmap, filterb_filterb. simpl.
  case_decide as Hi.
  - f_equal. apply filterb_ext. intros [k s] _. simpl.
    destruct (decide (sr_incident s = i)) as [->|Hn].
    + rewrite !bool_decide_true by done. done.
    + rewrite (bool_decide_false (sr_incident s = i)) by done. apply andb_false_r.
  - rewrite filterb_false_nil; [done|]. intros [k s] _. simpl.
    destruct (decide (sr_incident s = i)) as [->|Hn].
    + by rewrite (bool_decide_false (i ∈ ids)).
    + rewrite (bool_decide_false (sr_incident s = i)) by done. apply andb_false_r.
Qed.

#[global] Instance ro_statusesByIncident ids : ReadOnly (statusesByIncident ids).
Proof. intros P. unfold statusesByIncident. pres. Qed.

Lemma statuses_loop cs : ∀ grouped E w g w',
  foldM (λ grouped chunk, rs ← select (statuses_in chunk); mret (foldl group_status grouped rs))
    grouped cs E w = (Ret g, w') →
  NoDup (concat cs) →
  ∀ i, default [] (g !! i)
       = default [] (grouped !! i) ++ (if decide (i ∈ concat cs) then statuses_of (w_tab w) i else []).
Proof.
  induction cs as [|c cs IH]; intros grouped E w g w' H Hnd i; cbn in H.
  - injection H as <- <-. destruct (decide (i ∈ concat [])) as [Hi|_]; [inversion Hi|].
    by rewrite app_nil_r.
  - apply bind_Ret_inv in H as (g1 & w1 & H1 & H).
    apply bind_Ret_inv in H1 as (rs & w2 & H1 & H2).
    apply select_Ret in H1 as (-> & -> & _). injection H2 as <- <-.
    simpl in Hnd |- *. apply NoDup_app in Hnd as (Hc & Hdisj & Hnd).
    rewrite (IH _ _ _ _ _ H Hnd i). rewrite group_status_lookup, statuses_in_of. simpl.
    rewrite <- app_assoc. f_equal.
    destruct (decide (i ∈ c)) as [Hic|Hic].
    + rewrite (decide_False (P := i ∈ concat cs)) by eauto.
      rewrite decide_True by (apply elem_of_app; by left). by rewrite app_nil_r.
    + simpl. destruct (decide (i ∈ concat cs)) as [Hir|Hir].
      * rewrite decide_True by (apply elem_of_app; by right). done.
      * rewrite decide_False; [done|]. intros [?|?]%elem_of_app; done.
Qed.

(** Loading the histories a thousand incidents at a time yields, for every requested
    incident, exactly its rows in id order. *)
Lemma statusesByIncident_lookup ids E w g w' :
  statusesByIncident ids E w = (Ret g, w') → NoDup ids →
  ∀ i, default [] (g !! i) = if decide (i ∈ ids) then statuses_of (w_tab w) i else [].
Proof.
  intros H Hnd i. unfold statusesByIncident in H.
  assert (concat (chunks incidentStatusChunkSize ids) = ids) as Hcat
    by (apply chunks_concat; unfold incidentStatusChunkSize; lia).
  rewrite (statuses_loop _ _ _ _ _ _ H); [|by rewrite Hcat].
  rewrite Hcat, lookup_empty. done.
Qed.

Lemma attachStatuses_spec l ids E w g w' :
  statusesByIncident ids E w = (Ret g, w') → NoDup ids →
  (∀ inc, inc ∈ l → inc_ID inc ∈ ids) →
  attachStatuses l g = (λ inc, set_Statuses inc (statuses_of (w_tab w) (inc_ID inc))) <$> l.
Proof.
  intros H Hnd Hl. unfold attachStatuses. apply list_fmap_ext.
  intros k inc Hk. f_equal. rewrite (statusesByIncident_lookup _ _ _ _ _ H Hnd).
  apply decide_True. apply Hl. by eapply list_elem_of_lookup_2.
Qed.

(** *** Reads leave the tables alone *)

#[global] Instance ro_applyEventsFilters p a : ReadOnly (applyEventsFilters p a).
Proof. intros P. unfold applyEventsFilters. pres. Qed.
#[global] Instance ro_GetEventsWithCount a p : ReadOnly (GetEventsWithCount a p).
Proof. intros P. unfold GetEventsWithCount. pres. Qed.
#[global] Instance ro_GetEvents a p : ReadOnly (GetEvents a p).
Proof. intros P. unfold GetEvents. pres. Qed.
#[global] Instance ro_GetEventsInternal p : ReadOnly (GetEventsInternal p).
Proof. intros P. unfold GetEventsInternal. pres. Qed.
#[global] Instance ro_GetIncident id : ReadOnly (GetIncident id).
Proof. intros P. unfold GetIncident. pres. Qed.
#[global] Instance ro_GetEventsByComponentID c p : ReadOnly (GetEventsByComponentID c p).
Proof. intros P. unfold GetEventsByComponentID. pres. Qed.
#[global] Instance ro_incidentsByIDs ids : ReadOnly (incidentsByIDs ids).
Proof. intros P. unfold incidentsByIDs. pres. Qed.
#[global] Instance ro_GetIncidentsByComponentAttr a p : ReadOnly (GetIncidentsByComponentAttr a p).
Proof. intros P. unfold GetIncidentsByComponentAttr. pres. Qed.
#[global] Instance ro_getEventsByType t d : ReadOnly (getEventsByType t d).
Proof. intros P. unfold getEventsByType. pres. Qed.
#[global] Instance ro_GetComponent id : ReadOnly (GetComponent id).
Proof. intros P. unfold GetComponent. pres. Qed.
#[global] Instance ro_GetComponentFromNameAttrs n a : ReadOnly (GetComponentFromNameAttrs n a).
Proof. intros P. unfold GetComponentFromNameAttrs. pres. Qed.
#[global] Instance ro_GetComponentsAsMap : ReadOnly GetComponentsAsMap.
Proof. intros P. unfold GetComponentsAsMap. pres. Qed.

(** *** What the reads return *)

(** The event of a row with its components and its history. *)
Definition event_of (t : Tables) (kr : Z * IncidentRow) : Incident :=
  set_Statuses (load t kr) (statuses_of t kr.1).

Lemma GetIncident_Ret id E w inc w' :
  GetIncident id E w = (Ret inc, w') →
  ∃ r, t_incident (w_tab w) !! id = Some r ∧ inc = event_of (w_tab w) (id, r)
       ∧ w_tab w' = w_tab w.
Proof.
  intros H. pose proof (ReadOnly_tab _ _ _ _ _ H) as Ht. unfold GetIncident in H.
  apply bind_Ret_inv in H as (r & w1 & H1 & H). apply select_Ret in H1 as (-> & -> & _).
  destruct (t_incident (w_tab w) !! id) as [row|] eqn:Hrow; simpl in H; [|done].
  apply bind_Ret_inv in H as (g & w2 & H1 & H).
  cbn in H. injection H as <- <-. exists row. split_and!; [done| |done].
  rewrite (statusesByIncident_lookup _ _ _ _ _ H1) by apply NoDup_singleton.
  rewrite decide_True by left. done.
Qed.

Lemma GetIncident_missing id E w o w' :
  t_incident (w_tab w) !! id = None → GetIncident id E w = (o, w') →
  o = Fail (EDb ErrDBIncidentDSNotExist) ∨ o = Fail ESql.
Proof.
  intros Hn. unfold GetIncident. rewrite bind_run, select_run. simpl.
  destruct (fault_at _ _); [intros [= <- <-]; by right|].
  rewrite Hn. intros [= <- <-]. by left.
Qed.

Lemma NoDup_matching preds t : NoDup (matching preds t).*1.
Proof.
  unfold matching. pose proof (NoDup_rows_keys (t_incident t)) as H.
  induction (rows (t_incident t)) as [|kr l IH]; [constructor|].
  rewrite fmap_cons in H. apply NoDup_cons in H as [Hk Hl]. cbn.
  destruct (where_all _ _ _ _); [|by apply IH]. rewrite fmap_cons. constructor; [|by apply IH].
  rewrite list_elem_of_fmap. intros (kr' & Heq & [Hin _]%elem_of_filterb). apply Hk.
  rewrite Heq. apply list_elem_of_fmap. eauto.
Qed.

Lemma elem_of_matching preds t k r :
  (k, r) ∈ matching preds t ↔ t_incident t !! k = Some r ∧ where_all preds t k r = true.
Proof. unfold matching. by rewrite elem_of_filterb, elem_of_rows. Qed.

Lemma page_of_sublist {A} param (l p : list A) : page_of param l = Some p → sublist p l.
Proof.
  unfold page_of. intros H.
  repeat case_match; simplify_eq; try done; try apply sublist_take.
  all: etrans; [apply sublist_take|apply sublist_drop].
Qed.

Lemma load_ID t kr : inc_ID (load t kr) = kr.1.
Proof. done. Qed.

(** A successful listing: the total counts the matching rows, and the events are the
    page of the sorted matching rows, each with its full history. *)
Lemma GetEventsWithCount_Ret isAuth param E w evs total w' :
  GetEventsWithCount isAuth param E w = (Ret (evs, total), w') →
  ∃ preds w1 page,
    applyEventsFilters param isAuth E w = (Ret preds, w1)
    ∧ page_of param (merge_sort start_desc (matching preds (w_tab w))) = Some page
    ∧ evs = event_of (w_tab w) <$> page
    ∧ total = Z.of_nat (length (matching preds (w_tab w)))
    ∧ w_tab w' = w_tab w.
Proof.
  intros H. pose proof (ReadOnly_tab _ _ _ _ _ H) as Ht. unfold GetEventsWithCount in H.
  apply bind_Ret_inv in H as (preds & w1 & H1 & H).
  pose proof (ReadOnly_tab _ _ _ _ _ H1) as Hw1.
  apply bind_Ret_inv in H as (tot & w2 & H2 & H). apply select_Ret in H2 as (-> & -> & _).
  apply bind_Ret_inv in H as (pg & w3 & H3 & H). apply select_Ret in H3 as (-> & -> & _).
  simpl in H. rewrite Hw1 in H.
  destruct (page_of _ _) as [page|] eqn:Hpage; simpl in H; [|done].
  apply bind_Ret_inv in H as (g & w4 & H4 & H). injection H as <- <- <-.
  exists preds, w1, page. split_and!; try done.
  rewrite (attachStatuses_spec _ _ _ _ _ _ H4).
  - rewrite <- list_fmap_compose. done.
  - rewrite <- list_fmap_compose.
    apply (sublist_NoDup _ (merge_sort start_desc (matching preds (w_tab w))).*1).
    + rewrite merge_sort_Permutation. apply NoDup_matching.
    + apply fmap_sublist. by eapply page_of_sublist.
  - intros inc Hinc. apply list_elem_of_fmap. eauto.
Qed.
