(* ===== verification/Availability.v ===== *)
(** * The availability report

    [GetComponentsAvailabilityHandler] and [calculateAvailability] of
    [internal/api/v2/v2.go], with [GetComponentsWithIncidents].  For every component the
    report gives the share of time without an outage in each of the last twelve months.
    Durations are exact integers of nanoseconds; the percentages are computed in
    [float64] as the code computes them.  Stored instants are in UTC. *)

From S2P Require Import Prelude GoStrings GoTime GoFloat GoSort Calendar Errors Event Models Store Queries.
Local Open Scope Z_scope.

Definition monthsInYear : Z := 12.
Definition availabilityMonths : Z := 11.
Definition outageImpact : Z := 3.

Record MonthlyAvailability := mkMonthly { ma_Year : Z; ma_Month : Z; ma_Percentage : float64 }.

Record ComponentAvailability := mkCompAvail {
  ca_ID : Z; ca_Region : string; ca_Name : string; ca_Availability : list MonthlyAvailability }.

(** ** Reading the components *)

(** The events of a component, by id. *)
Definition incidents_of (t : Tables) (comp : Z) : list Incident :=
  (λ kr : Z * IncidentRow, incidentFromEnt kr.1 kr.2 []) <$>
    filterb (λ kr : Z * IncidentRow, bool_decide ((kr.1, comp) ∈ t_rel t)) (rows (t_incident t)).

(** A component with its attributes and its events. *)
Definition GetComponentsWithIncidents : M (list (Component * list Incident)) :=
  comps ← select (λ t, (λ kc : Z * ComponentRow, (componentFromEnt t kc.1 kc.2, incidents_of t kc.1))
                         <$> rows (t_component t));
  grouped ← statusesByIncident (inc_ID <$> flat_map snd comps);
  mret ((λ ci, (ci.1, attachStatuses ci.2 grouped)) <$> comps).

(** ** Time *)

(** [adjustIncidentPeriod]; [None] when the incident lies outside the period. *)
Definition adjustIncidentPeriod (incidentStart incidentEnd periodStart periodEnd : Z) : option (Z * Z) :=
  if (incidentEnd <? periodStart) || (periodEnd <? incidentStart) then None
  else Some (if incidentStart <? periodStart then periodStart else incidentStart,
             if periodEnd <? incidentEnd then periodEnd else incidentEnd).

Definition minTime (start end_ : Z) : Z := if start <? end_ then start else end_.
Definition maxTime (start end_ : Z) : Z := if end_ <? start then start else end_.

(** [Duration.Hours]. *)
Definition Hours (d : Z) : float64 :=
  f_add (f_of_Z (Z.quot d Hour)) (f_div (f_of_Z (Z.rem d Hour)) (f_of_Z Hour)).

(** [hoursInMonth], by the number of the month. *)
Definition hoursInMonth (k : Z) : float64 := Hours (month_start (k + 1) - month_start k).

(** The loop over the months of one outage: the month's index and the downtime in it.
    One round per month is enough ([downtime_loop_spec]). *)
Fixpoint downtime_loop (fuel : nat) (incidentStart incidentEnd current period : Z) : list (Z * Z) :=
  match fuel with
  | O => []
  | S fuel =>
    if current <? incidentEnd then
      let monthStart := month_start (month_of current) in
      let monthEnd := month_start (month_of current + 1) in
      let downtimeStart := maxTime incidentStart monthStart in
      let downtimeEnd := minTime incidentEnd monthEnd in
      (month_of downtimeStart - period, downtimeEnd - downtimeStart)
        :: downtime_loop fuel incidentStart incidentEnd monthEnd period
    else []
  end.
Definition downtimes (incidentStart incidentEnd period : Z) : list (Z * Z) :=
  downtime_loop (S (Z.to_nat (month_of incidentEnd - month_of incidentStart)))
    incidentStart incidentEnd incidentStart period.

(** [monthlyDowntime[monthIndex] += downtime.Hours()], within the twelve months. *)
Definition add_downtime (monthly : list float64) (md : Z * Z) : list float64 :=
  if (0 <=? md.1) && (md.1 <? Z.of_nat (length monthly))
  then alter (λ x, f_add x (Hours md.2)) (Z.to_nat md.1) monthly else monthly.

(** ** The report *)

(** The percentage of a month with [downtime] hours of outage, to five digits. *)
Definition percentage (downtime totalHours : float64) : float64 :=
  let fullPercentage := f_of_Z 100 in
  let precisionFactor := f_of_Z 100000 in
  let availability := f_sub fullPercentage (f_mul (f_div downtime totalHours) fullPercentage) in
  f_div (f_of_Z (Z_of_f (f_add (f_mul availability precisionFactor) (f_div (f_of_Z 1) (f_of_Z 2)))))
    precisionFactor.

(** One round of the loop over the incidents; [period] is the first month. *)
Definition incident_downtime (period periodEnd : Z) (monthly : list float64) (inc : Incident) : M (list float64) :=
  match inc_EndDate inc with
  | None => mret monthly
  | Some end_ =>
    impact ← deref (inc_Impact inc);
    if impact != outageImpact then mret monthly
    else
      start ← deref (inc_StartDate inc);
      match adjustIncidentPeriod start end_ (month_start period) periodEnd with
      | None => mret monthly
      | Some (incidentStart, incidentEnd) =>
          mret (foldl add_downtime monthly (downtimes incidentStart incidentEnd period))
      end
  end.

(** The twelve months, oldest first. *)
Definition monthly_report (period : Z) (monthly : list float64) : list MonthlyAvailability :=
  (λ i, let k := period + Z.of_nat i in
        mkMonthly (year_of_month k) (month_in_year k)
          (percentage (default (f_of_Z 0) (monthly !! i)) (hoursInMonth k))) <$> seq 0 12.

Definition calculateAvailability (incidents : list Incident) : M (list MonthlyAvailability) :=
  match incidents with
  | [] => mret []
  | _ =>
    periodEndDate ← now;
    let period := month_of periodEndDate - availabilityMonths in
    monthly ← foldM (incident_downtime period periodEndDate)
                (repeat (f_of_Z 0) (Z.to_nat monthsInYear)) incidents;
    mret (monthly_report period monthly)
  end.

(** Latest first. *)
Definition month_less (a b : MonthlyAvailability) : bool :=
  if ma_Year a == ma_Year b then ma_Month b <? ma_Month a else ma_Year b <? ma_Year a.
Definition sortComponentAvailability (l : list MonthlyAvailability) : list MonthlyAvailability :=
  SliceSort month_less l.

(** The value of the first region attribute. *)
Definition region_value (comp : Component) : string :=
  default ""%string (attr_Value <$> head (filterb (λ a, attr_Name a == "region"%string) (comp_Attrs comp))).

(** The handler dereferences the title and the start of every event; [None] is the 500. *)
Definition GetComponentsAvailabilityHandler : M (option (list ComponentAvailability)) :=
  r ← try GetComponentsWithIncidents;
  match r with
  | inl _ => mret None
  | inr components =>
    l ← mapM (λ ci : Component * list Incident,
      _ ← mapM (λ inc, _ ← deref (inc_Text inc); deref (inc_StartDate inc)) ci.2;
      avail ← calculateAvailability ci.2;
      mret (mkCompAvail (comp_ID ci.1) (region_value ci.1) (comp_Name ci.1)
              (sortComponentAvailability avail))) components;
    mret (Some l)
  end.

(** ** The downtime of a month *)

(** How long [s, e) lies in the month [k], and the contribution that gives. *)
Definition overlap (s e k : Z) : Z := Z.min e (month_start (k + 1)) - Z.max s (month_start k).
Definition piece (s e k : Z) : list Z := if 0 <? overlap s e k then [overlap s e k] else [].

(** The durations recorded for an index. *)
Definition at_index (i : Z) (l : list (Z * Z)) : list Z := snd <$> filterb (λ md, md.1 == i) l.

Lemma at_index_cons i md l : at_index i (md :: l) = (if md.1 == i then [md.2] else []) ++ at_index i l.
Proof. unfold at_index. cbn [filterb]. by destruct (md.1 == i). Qed.

Lemma piece_pos s e k : 0 < overlap s e k → piece s e k = [overlap s e k].
Proof. intros H. unfold piece. by rewrite (proj2 (Z.ltb_lt _ _)). Qed.
Lemma piece_neg s e k : overlap s e k <= 0 → piece s e k = [].
Proof. intros H. unfold piece. by rewrite (proj2 (Z.ltb_ge _ _)). Qed.

Lemma maxTime_max a b : maxTime a b = Z.max a b.
Proof. unfold maxTime. destruct (b <? a) eqn:H; bool_facts; lia. Qed.
Lemma minTime_min a b : minTime a b = Z.min a b.
Proof. unfold minTime. destruct (a <? b) eqn:H; bool_facts; lia. Qed.

(** The loop records each month's overlap, once, from the month of [current] on. *)
Lemma downtime_loop_spec s e period fuel : ∀ current,
  s <= current → (current = s ∨ current = month_start (month_of current)) →
  month_of e - month_of current < Z.of_nat fuel →
  ∀ k, at_index (k - period) (downtime_loop fuel s e current period)
       = if month_of current <=? k then piece s e k else [].
Proof.
  induction fuel as [|fuel IH]; intros current Hs Hc Hfuel k; cbn [downtime_loop];
    pose proof (month_of_bounds current) as Hb.
  - assert (e < current) as He.
    { destruct (Z.le_gt_cases current e) as [Hle|]; [|lia]. pose proof (month_of_mono _ _ Hle). lia. }
    destruct (month_of current <=? k) eqn:Hk; [|done]. bool_facts. symmetry. apply piece_neg. unfold overlap.
    pose proof (month_start_mono _ _ Hk). destruct Hc as [->|Hc]; lia.
  - destruct (current <? e) eqn:Hlt; bool_facts.
    2: { destruct (month_of current <=? k) eqn:Hk; [|done]. bool_facts. symmetry. apply piece_neg.
         unfold overlap. pose proof (month_start_mono _ _ Hk). destruct Hc as [->|Hc]; lia. }
    rewrite maxTime_max, minTime_min, at_index_cons. cbn [fst snd].
    set (k0 := month_of current) in *.
    assert (Z.max s (month_start k0) = current) as Hmax by (destruct Hc; lia). rewrite Hmax. fold k0.
    rewrite (IH (month_start (k0 + 1))); [|lia|rewrite month_of_start; by right|rewrite month_of_start; lia].
    rewrite month_of_start. assert (0 < overlap s e k0) as Hpos by (unfold overlap; lia).
    destruct (k0 - period == k - period) eqn:Hi; bool_facts.
    + assert (k = k0) as -> by lia. rewrite (proj2 (Z.leb_gt _ _)), (proj2 (Z.leb_le _ _)) by lia.
      rewrite piece_pos by done. unfold overlap. rewrite Hmax. done.
    + cbn [app]. destruct (k0 + 1 <=? k) eqn:H1, (k0 <=? k) eqn:H2; bool_facts; try done; lia.
Qed.

(** The outage [s, e) adds to each month exactly the time it lasts there. *)
Lemma downtimes_spec s e period k : at_index (k - period) (downtimes s e period) = piece s e k.
Proof.
  unfold downtimes. rewrite downtime_loop_spec; [|lia|by left|lia].
  destruct (month_of s <=? k) eqn:Hk; [done|]. bool_facts. symmetry. apply piece_neg.
  pose proof (month_of_bounds s). pose proof (month_start_mono (k + 1) (month_of s)). unfold overlap. lia.
Qed.

(** Adding a list of downtimes adds, in each month, the ones of its index in order. *)
Lemma add_downtime_lookup l : ∀ monthly i, (i < length monthly)%nat →
  length (foldl add_downtime monthly l) = length monthly
  ∧ foldl add_downtime monthly l !! i
    = (λ x, foldl (λ x d, f_add x (Hours d)) x (at_index (Z.of_nat i) l)) <$> monthly !! i.
Proof.
  induction l as [|[j d] l IH]; intros monthly i Hi; cbn [foldl].
  - split; [done|]. destruct (monthly !! i); done.
  - assert (length (add_downtime monthly (j, d)) = length monthly) as Hlen.
    { unfold add_downtime. destruct (_ && _); [apply length_alter|done]. }
    destruct (IH (add_downtime monthly (j, d)) i) as [H1 H2]; [lia|]. split; [lia|]. rewrite H2.
    rewrite at_index_cons. cbn [fst snd]. unfold add_downtime. cbn [fst snd].
    destruct (j == Z.of_nat i) eqn:Hj; bool_facts.
    + subst j. rewrite (proj2 (Z.leb_le _ _)), (proj2 (Z.ltb_lt _ _)) by lia. cbn [andb].
      rewrite Nat2Z.id, list_lookup_alter_eq. destruct (monthly !! i); done.
    + cbn [app]. destruct ((0 <=? j) && (j <? Z.of_nat (length monthly))) eqn:Hr; [|done]. bool_facts.
      by rewrite list_lookup_alter_ne by lia.
Qed.

(** ** The report against its specification *)

(** The outage an event stands for, cut to the period: a closed event of impact 3. *)
Definition outage (period periodEnd : Z) (inc : Incident) : option (Z * Z) :=
  s ← inc_StartDate inc; e ← inc_EndDate inc;
  if inc_Impact inc == Some outageImpact then Some (Z.max s (month_start period), Z.min e periodEnd)
  else None.

(** [adjustIncidentPeriod] cuts to the period, and leaves out what does not meet it. *)
Lemma adjustIncidentPeriod_spec s e ps pe :
  match adjustIncidentPeriod s e ps pe with
  | Some (s', e') => s' = Z.max s ps ∧ e' = Z.min e pe
  | None => ∀ k, piece (Z.max s ps) (Z.min e pe) k = []
  end.
Proof.
  unfold adjustIncidentPeriod. destruct (_ || _) eqn:H.
  - intros k. unfold piece. destruct (0 <? overlap _ _ _) eqn:Hp; [|done]. unfold overlap in Hp.
    apply orb_true_iff in H as [H|H]; bool_facts; lia.
  - bool_facts. split; destruct (_ <? _) eqn:Hc; bool_facts; lia.
Qed.

(** The downtimes of month [k], one for each outage that reaches into it. *)
Definition month_downtimes (period periodEnd k : Z) (incidents : list Incident) : list Z :=
  flat_map (λ inc, match outage period periodEnd inc with Some (s, e) => piece s e k | None => [] end)
    incidents.

(** The total in hours, added up in [float64]. *)
Definition total_hours (ds : list Z) : float64 := foldl (λ x d, f_add x (Hours d)) (f_of_Z 0) ds.

(** An event that can be read without a nil dereference. *)
Definition complete (inc : Incident) : Prop :=
  is_Some (inc_Text inc) ∧ is_Some (inc_StartDate inc) ∧ is_Some (inc_Impact inc).

Lemma incident_downtime_run period periodEnd inc monthly E w : complete inc →
  length monthly = 12%nat →
  ∃ monthly', incident_downtime period periodEnd monthly inc E w = (Ret monthly', w)
  ∧ length monthly' = 12%nat
  ∧ ∀ i, (i < 12)%nat → monthly' !! i
      = (λ x, foldl (λ x d, f_add x (Hours d)) x (month_downtimes period periodEnd (period + Z.of_nat i) [inc]))
          <$> monthly !! i.
Proof.
  intros (_ & [s Hs] & [im Him]) Hlen. unfold incident_downtime, month_downtimes, outage. cbn [flat_map].
  rewrite Hs, Him. cbn [mbind option_bind].
  assert (∀ l : list float64, ∀ i, l !! i = (λ x, x) <$> l !! i) as Hid by (intros l i; by destruct (l !! i)).
  cbv beta iota delta [deref mbind M_bind mret M_ret].
  destruct (inc_EndDate inc) as [e|]; [|eexists; split; [reflexivity|]; eauto].
  destruct (decide (im = outageImpact)) as [->|Hne].
  - rewrite (bool_decide_true (Some _ = Some _)) by done. cbn [option_bind].
    pose proof (adjustIncidentPeriod_spec s e (month_start period) periodEnd) as Ha.
    destruct (adjustIncidentPeriod s e (month_start period) periodEnd) as [[s' e']|].
    + destruct Ha as [-> ->]. eexists. split; [rewrite bool_decide_true by done; reflexivity|]. split.
      * by rewrite (proj1 (add_downtime_lookup _ monthly 0 ltac:(lia))).
      * intros i Hi. rewrite (proj2 (add_downtime_lookup _ monthly i ltac:(lia))), app_nil_r.
        rewrite <- (downtimes_spec _ _ period). by replace (period + Z.of_nat i - period) with (Z.of_nat i) by lia.
    + eexists. split; [rewrite bool_decide_true by done; reflexivity|]. split; [done|]. intros i _.
      rewrite Ha. apply Hid.
  - rewrite (bool_decide_false (Some im = Some _)) by congruence. cbn [option_bind].
    eexists. split; [rewrite bool_decide_false by done; reflexivity|]. eauto.
Qed.

Lemma incidents_downtime_run period periodEnd E w incidents : ∀ monthly, Forall complete incidents →
  length monthly = 12%nat →
  ∃ monthly', foldM (incident_downtime period periodEnd) monthly incidents E w = (Ret monthly', w)
  ∧ length monthly' = 12%nat
  ∧ ∀ i, (i < 12)%nat → monthly' !! i
      = (λ x, foldl (λ x d, f_add x (Hours d)) x (month_downtimes period periodEnd (period + Z.of_nat i) incidents))
          <$> monthly !! i.
Proof.
  induction incidents as [|inc incidents IH]; intros monthly Hc Hlen.
  - eexists. split; [reflexivity|]. split; [done|]. intros i Hi. by destruct (monthly !! i).
  - apply Forall_cons in Hc as [Hc Hcs].
    destruct (incident_downtime_run period periodEnd inc monthly E w Hc Hlen) as (m1 & H1 & L1 & I1).
    destruct (IH m1 Hcs L1) as (m2 & H2 & L2 & I2). exists m2. split; [|split; [done|]].
    + cbn [foldM]. rewrite bind_run, H1. exact H2.
    + intros i Hi. rewrite I2, I1 by done. destruct (monthly !! i); [|done]. cbn. f_equal.
      rewrite app_nil_r. unfold month_downtimes. by rewrite foldl_app.
Qed.

(** The entry of a month. *)
Definition month_entry (period periodEnd : Z) (incidents : list Incident) (k : Z) : MonthlyAvailability :=
  mkMonthly (year_of_month k) (month_in_year k)
    (percentage (total_hours (month_downtimes period periodEnd k incidents)) (hoursInMonth k)).

Lemma calculateAvailability_run incidents E w : incidents ≠ [] → Forall complete incidents →
  let periodEnd := now_at E (w_tick w) in
  let period := month_of periodEnd - availabilityMonths in
  ∃ w', calculateAvailability incidents E w
        = (Ret ((λ i, month_entry period periodEnd incidents (period + Z.of_nat i)) <$> seq 0 12), w')
  ∧ w_tab w' = w_tab w.
Proof.
  intros Hne Hc periodEnd period.
  set (w1 := mkWorld (w_tab w) (w_seq w) (S (w_tick w)) (w_stmt w) (w_signal w)).
  destruct (incidents_downtime_run period periodEnd E w1 incidents (repeat (f_of_Z 0) (Z.to_nat monthsInYear)) Hc)
    as (m & Hm & Hlen & Hi); [done|].
  exists w1. split; [|done]. destruct incidents as [|inc0 incidents]; [done|].
  unfold calculateAvailability. rewrite bind_run. unfold now at 1, reading. fold periodEnd period w1.
  rewrite bind_run, Hm. unfold monthly_report, mret, M_ret. f_equal. f_equal. apply list_fmap_ext.
  intros j i Hj. apply lookup_seq in Hj as [-> Hj]. cbn [Nat.add]. unfold month_entry, total_hours.
  rewrite Hi by lia. do 2 f_equal.
  do 12 (destruct j as [|j]; [reflexivity|]). lia.
Qed.

(** ** The order of the report *)

Lemma month_less_spec a b : month_less a b = true
  ↔ ma_Year b < ma_Year a ∨ ma_Year a = ma_Year b ∧ ma_Month b < ma_Month a.
Proof.
  unfold month_less. destruct (ma_Year a == ma_Year b) eqn:H; bool_facts; rewrite Z.ltb_lt; lia.
Qed.

Lemma month_le_spec a b : sort_le month_less a b
  ↔ ma_Year b < ma_Year a ∨ ma_Year a = ma_Year b ∧ ma_Month b <= ma_Month a.
Proof. unfold sort_le. rewrite <- not_true_iff_false, month_less_spec. lia. Qed.

Lemma month_number a b :
  year_of_month b < year_of_month a ∨ year_of_month a = year_of_month b ∧ month_in_year b <= month_in_year a
  ↔ b <= a.
Proof. unfold year_of_month, month_in_year. Z.to_euclidean_division_equations. lia. Qed.

(** Entries of consecutive months are sorted to the latest first: a reversal. *)
Lemma sort_months (entry : Z → MonthlyAvailability) period n :
  (∀ k, ma_Year (entry k) = year_of_month k ∧ ma_Month (entry k) = month_in_year k) →
  sortComponentAvailability ((λ i, entry (period + Z.of_nat i)) <$> seq 0 n)
  = reverse ((λ i, entry (period + Z.of_nat i)) <$> seq 0 n).
Proof.
  intros He. set (l := _ <$> _). assert (∀ a b, sort_le month_less (entry a) (entry b) ↔ b <= a) as Hle.
  { intros a b. destruct (He a) as [Ya Ma], (He b) as [Yb Mb]. by rewrite month_le_spec, Ya, Yb, Ma, Mb, month_number. }
  apply (StronglySorted_unique_strong (sort_le month_less)).
  - intros x y Hx Hy Hxy Hyx. unfold sortComponentAvailability in Hx. rewrite SliceSort_perm in Hx.
    rewrite elem_of_reverse in Hy. apply list_elem_of_fmap in Hx as (i & -> & _), Hy as (j & -> & _).
    rewrite Hle in Hxy, Hyx. f_equal. lia.
  - apply SliceSort_sorted; intros *; rewrite ?month_less_spec, ?month_le_spec; lia.
  - apply StronglySorted_reverse. unfold l. clear l. generalize 0%nat.
    induction n as [|n IH]; intros m; cbn; [constructor|]. constructor; [apply IH|].
    apply Forall_forall. intros x (i & -> & Hi)%list_elem_of_fmap. apply elem_of_seq in Hi.
    unfold flip. apply Hle. lia.
  - unfold sortComponentAvailability. by rewrite SliceSort_perm, reverse_Permutation.
Qed.

(** A month without downtime reports exactly 100, whatever its length. *)
Lemma full_month k : percentage (total_hours []) (hoursInMonth k) = f_of_Z 100.
Proof.
  unfold hoursInMonth, month_start. rewrite <- Z.mul_sub_distr_r. pose proof (month_length k) as H.
  assert (month_start_days (k + 1) - month_start_days k ∈ [28; 29; 30; 31]) as Hin.
  { rewrite !elem_of_cons. lia. }
  rewrite !elem_of_cons, elem_of_nil in Hin. destruct Hin as [->|[->|[->|[->|[]]]]]; vm_compute; reflexivity.
Qed.
