(* ===== verification/Rss.v ===== *)
(** * RSS feeds

    [internal/rss/rss.go] (the /v2 feed, one item per update) and
    [internal/api/rss/rss.go] (the older feed, one item per event).  A feed lists at most
    ten public events.  Serialising it ([feed.ToRss] of gorilla/feeds) is a parameter
    that may fail.  A request is its query parameters and the scheme and host of its
    URL. *)

From S2P Require Import Prelude GoStrings GoTime GoSort Errors Event Models Store Queries.
Local Open Scope Z_scope.

Definition generalTitle : string := "Incidents | Status Dashboard".
Definition maxEvents : Z := 10.
Definition newline : string := String "010" "".
Definition errRSSWrongParams : string :=
  ("Status Dashboard RSS feed" +:+ newline +:+ "Please read the documentation to" +:+ newline
     +:+ "make the correct request")%string.

Record RssRequest := mkRssRequest {
  rr_mt : string; rr_srv : string; rr_scheme : string; rr_host : string; rr_rawQuery : string }.

(** [feeds.Item] and [feeds.Feed], the fields the code sets. *)
Record Item := mkItem {
  it_Title : string; it_Href : string; it_Created : Z; it_Updated : option Z; it_Description : string }.
Record Feed := mkFeed {
  fd_Title : string; fd_Href : string; fd_Description : string; fd_Created : Z; fd_Items : list Item }.

Inductive FeedReply := FeedError (status : Z) (msg : string) | FeedOK (f : Feed).

(** ** Times *)

Definition date_part (t : Z) : string :=
  let c := civil_of_days (t / Second / 86400) in
  (pad 4 (cv_year c) +:+ "-" +:+ pad 2 (cv_month c) +:+ "-" +:+ pad 2 (cv_day c))%string.
Definition minute_part (t : Z) : string :=
  let s := (t / Second) mod 86400 in
  (pad 2 (s / 3600) +:+ ":" +:+ pad 2 (s mod 3600 / 60))%string.
Definition second_part (t : Z) : string := (":" +:+ pad 2 ((t / Second) mod 60))%string.
(** [time.DateTime]; the layouts with a zone, in UTC. *)
Definition DateTime (t : Z) : string := (date_part t +:+ " " +:+ minute_part t +:+ second_part t)%string.
Definition DateMinuteZone (t : Z) : string := (date_part t +:+ " " +:+ minute_part t +:+ " UTC")%string.
Definition DateTimeZone (t : Z) : string := (DateTime t +:+ " UTC")%string.

(** ** Selecting the events *)

Definition validateRegion (region : string) : bool :=
  bool_decide (region ∈ ["EU-DE"; "EU-NL"; "EU-CH2"; "Global"]%string).

Definition feed_params : IncidentsParams :=
  mkParams None None None None None None [] maxEvents None None None.

Definition getEvents (region componentName : string) : M (list Incident) :=
  if (componentName != ""%string) && (region != ""%string) then
    component ← GetComponentFromNameAttrs componentName (mkAttr 0 0 "region" region);
    GetEventsByComponentID (comp_ID component) feed_params
  else if (componentName == ""%string) && (region != ""%string) then
    GetIncidentsByComponentAttr (mkAttr 0 0 "region" region) feed_params
  else GetEvents false feed_params.

(** Stored events have a start. *)
Definition start_of (i : Incident) : Z := default zero_time (inc_StartDate i).
Definition end_of (i : Incident) : Z := default zero_time (inc_EndDate i).

Definition sortEvents (incidents : list Incident) : list Incident :=
  let is_open i := bool_decide (inc_EndDate i = None) in
  SliceSort (λ a b, start_of b <? start_of a) (filterb is_open incidents)
  ++ SliceSort (λ a b, end_of b <? end_of a) (filterb (λ i, negb (is_open i)) incidents).

(** ** Items, one per update *)

Definition getIncidentImpactsStr (impact : Z) : string :=
  if impact == 1 then "Minor incident (i.e. performance impact)"%string
  else if impact == 2 then "Major incident"%string
  else "Service outage"%string.

Definition event_link (baseURL : string) (i : Incident) : string :=
  (baseURL +:+ "/incidents/" +:+ Itoa (inc_ID i))%string.

(** The list "name in region, name in region." *)
Definition located (sep stop : string) (cs : list Component) : string :=
  (Join ((λ c, comp_Name c +:+ " in " +:+ Region c) <$> cs) sep +:+ stop)%string.

Definition incident_title (impact : string) (i : Incident) : string :=
  match inc_Components i with
  | [] => ("Status change to " +:+ impact)%string
  | [c] => (comp_Name c +:+ " status changed to " +:+ impact)%string
  | _ => ("Status change of multiple services to " +:+ impact)%string
  end.

Definition incident_description (impact : string) (startDate : Z) (i : Incident) : string :=
  let detected := ("A " +:+ impact +:+ " was detected at " +:+ DateTime startDate)%string in
  let first := match inc_Components i with
               | [] => (detected +:+ " UTC.")%string
               | cs => (detected +:+ " UTC for " +:+ located ", " "." cs)%string
               end in
  match inc_Description i with
  | Some d => if d != ""%string then (first +:+ " " +:+ d)%string else first
  | None => first
  end.

Definition update_description (i : Incident) (s : IncidentStatus) : string :=
  let d := ("An update was provided at " +:+ DateTime (st_Timestamp s) +:+ " UTC")%string in
  let d := match inc_Components i with
           | [] => (d +:+ ":")%string
           | [c] => (d +:+ " for " +:+ comp_Name c +:+ " in " +:+ Region c +:+ ":")%string
           | cs => (TrimSuffix (foldl (λ d c, d +:+ " " +:+ comp_Name c +:+ " (" +:+ Region c +:+ "),")
                                  (d +:+ " for") cs) "," +:+ ":")%string
           end in
  (d +:+ " " +:+ st_Status s +:+ " - " +:+ st_Text s)%string.

Definition createIncidentFeedItems (i : Incident) (baseURL : string) : M (list Item) :=
  impact ← deref (inc_Impact i);
  startDate ← deref (inc_StartDate i);
  let impact := getIncidentImpactsStr impact in
  let main := mkItem (incident_title impact i) (event_link baseURL i) startDate None
                (incident_description impact startDate i) in
  updates ← mapM (λ s,
      text ← deref (inc_Text i);
      mret (mkItem ("Update published for: " +:+ text) (event_link baseURL i) (st_Timestamp s) None
              (update_description i s)))
    (filterb (λ s, st_Status s != IncidentDetected) (inc_Statuses i));
  mret (main :: updates).

(** The text shown for a maintenance: its description, else the text of the first
    planned entry. *)
Definition general_description (m : Incident) : string :=
  let planned := default ""%string
    (st_Text <$> head (filterb (λ s, st_Status s == MaintenancePlanned) (inc_Statuses m))) in
  match inc_Description m with
  | Some d => if d != ""%string then d else planned
  | None => planned
  end.

(** One round of the loop over the history; [None] skips the entry. *)
Definition maintenance_item (m : Incident) (baseURL shortNames longNames genDesc : string)
    (s : IncidentStatus) : M (option Item) :=
  let item title description :=
    mret (Some (mkItem (title +:+ shortNames)%string (event_link baseURL m) (st_Timestamp s) None description)) in
  if st_Status s == MaintenancePlanned then
    start ← deref (inc_StartDate m); end_ ← deref (inc_EndDate m);
    item "Maintenance planned for "%string
      ("A maintenance is planned for " +:+ longNames +:+ " between " +:+ DateTime start +:+ " UTC and "
         +:+ DateTime end_ +:+ " UTC: " +:+ st_Text s)%string
  else if st_Status s == MaintenanceInProgress then
    end_ ← deref (inc_EndDate m);
    item "Maintenance started for "%string
      ("A maintenance started for " +:+ longNames +:+ " planned until " +:+ DateTime end_ +:+ " UTC: "
         +:+ genDesc)%string
  else if st_Status s == MaintenanceModified then
    item "Maintenance modified for "%string
      ("A maintenance modified for " +:+ longNames +:+ ": " +:+ st_Text s)%string
  else if st_Status s == MaintenanceCompleted then
    item "Maintenance completed for "%string ("A maintenance completed for " +:+ longNames +:+ ".")%string
  else if st_Status s == MaintenanceCancelled then
    item "Maintenance cancelled for "%string ("A maintenance cancelled for " +:+ longNames +:+ ".")%string
  else mret None.

Definition createMaintenanceFeedItems (m : Incident) (baseURL : string) : M (list Item) :=
  let shortNames := Join (CType <$> inc_Components m) ", " in
  let longNames := Join ((λ c, comp_Name c +:+ " (" +:+ Region c +:+ ")")%string <$> inc_Components m) ", " in
  items ← mapM (maintenance_item m baseURL shortNames longNames (general_description m)) (inc_Statuses m);
  mret (omap id items).

Definition createFeedItems (i : Incident) (baseURL : string) : M (list Item) :=
  if inc_Type i == TypeMaintenance then createMaintenanceFeedItems i baseURL
  else if inc_Type i == TypeInformation then mret []
  else createIncidentFeedItems i baseURL.

Definition prepareFeedTitle (region component : string) : string :=
  if region == ""%string then generalTitle
  else if component != ""%string then (component +:+ " (" +:+ region +:+ ") - " +:+ generalTitle)%string
  else (region +:+ " - " +:+ generalTitle)%string.

(** ** Items, one per event (the older feed) *)

(** The text of an impact; a number without one has the empty text. *)
Definition getIncidentImpacts (impact : Z) : string :=
  if impact == 0 then "Scheduled maintenance"%string
  else if impact == 1 then "Minor incident (i.e. performance impact)"%string
  else if impact == 2 then "Major incident"%string
  else if impact == 3 then "Service outage"%string
  else ""%string.

(** A review entry of a maintenance is not shown. *)
Definition hidden_status (i : Incident) (s : IncidentStatus) : bool :=
  (inc_Type i == TypeMaintenance)
  && ((st_Status s == MaintenancePendingReview) || (st_Status s == MaintenanceReviewed)).

Definition status_content (s : IncidentStatus) : string :=
  ("<small>" +:+ DateMinuteZone (st_Timestamp s) +:+ "</small><br><strong>" +:+ st_Status s
     +:+ " - </strong>" +:+ st_Text s +:+ "<br><br><br>")%string.

Definition createFeedContent (i : Incident) : M string :=
  let history := foldl (λ content s, if hidden_status i s then content else content +:+ status_content s)%string
                   ""%string (reverse (inc_Statuses i)) in
  impact ← deref (inc_Impact i);
  start ← deref (inc_StartDate i);
  mret (history +:+ "Incident impact: " +:+ getIncidentImpacts impact +:+ "<br>"
          +:+ "Start date: " +:+ DateTimeZone start +:+ "<br>"
          +:+ match inc_EndDate i with
              | Some e => "End date: " +:+ DateTimeZone e +:+ "<br>"
              | None => ""
              end
          +:+ "<br>We apologize for the inconvenience and will share an update once we have more information.")%string.

(** The time of the last entry is assigned first and always overwritten. *)
Definition createFeedItem (i : Incident) (baseURL : string) : M Item :=
  text ← deref (inc_Text i);
  start ← deref (inc_StartDate i);
  description ← createFeedContent i;
  let updated := match inc_EndDate i with Some e => e | None => start end in
  mret (mkItem (text +:+ newline)%string (event_link baseURL i) start (Some updated) description).

Definition prepareTitle (region component : string) : string :=
  if region != ""%string then
    if component != ""%string then (component +:+ " (" +:+ region +:+ ") - " +:+ generalTitle)%string
    else (region +:+ " - " +:+ generalTitle)%string
  else generalTitle.

(** [getIncidents] and [sortIncidents] have the text of [getEvents] and [sortEvents]. *)
Definition getIncidents (region componentName : string) : M (list Incident) := getEvents region componentName.
Definition sortIncidents (incidents : list Incident) : list Incident := sortEvents incidents.

(** ** The handlers *)

Definition has_nul (s : string) : bool := ContainsAny s ["000"%char].

(** The checks both handlers start with; [None] lets the request pass. *)
Definition check_params (r : RssRequest) : option FeedReply :=
  if (rr_srv r != ""%string) && (rr_mt r == ""%string) then Some (FeedError 404 errRSSWrongParams)
  else if (rr_mt r != ""%string) && negb (validateRegion (rr_mt r)) then
    Some (FeedError 404 ("the region '" +:+ rr_mt r +:+ "' is not valid"))
  else if has_nul (rr_srv r) || negb (ValidString (rr_srv r)) then Some (FeedError 400 errRSSWrongParams)
  else None.

(** What a client sees of an error: only a missing component is named. *)
Definition feed_error (r : RssRequest) (e : err) : FeedReply :=
  if (rr_srv r != ""%string) && (e == EDb ErrDBComponentDSNotExist)
  then FeedError 404 "component does not exist" else FeedError 500 "internal server error".

Definition base_url (r : RssRequest) : string := (rr_scheme r +:+ "://" +:+ rr_host r)%string.
Definition self_link (r : RssRequest) : string := (base_url r +:+ "/rss/" +:+ rr_rawQuery r)%string.

Section Handlers.
Context (ToRss : Feed → bool).

Definition render (f : Feed) : M FeedReply :=
  mret (if ToRss f then FeedOK f else FeedError 500 "internal server error").

Definition HandleRSS (r : RssRequest) : M FeedReply :=
  match check_params r with
  | Some reply => mret reply
  | None =>
    res ← try (getEvents (rr_mt r) (rr_srv r));
    match res with
    | inl e => mret (feed_error r e)
    | inr events =>
      created ← now;
      items ← mapM (λ e, createFeedItems e (base_url r)) (sortEvents events);
      let title := prepareFeedTitle (rr_mt r) (rr_srv r) in
      render (mkFeed title (self_link r) (title +:+ " - Incidents") created (concat items))
    end
  end.

Definition LegacyHandleRSS (r : RssRequest) : M FeedReply :=
  match check_params r with
  | Some reply => mret reply
  | None =>
    res ← try (getIncidents (rr_mt r) (rr_srv r));
    match res with
    | inl e => mret (feed_error r e)
    | inr incidents =>
      created ← now;
      items ← mapM (λ i, createFeedItem i (base_url r)) (sortIncidents incidents);
      let title := prepareTitle (rr_mt r) (rr_srv r) in
      render (mkFeed title (self_link r) (title +:+ " - Incidents") created items)
    end
  end.
End Handlers.

(** ** Reads *)

#[global] Instance ro_createFeedItems i b : ReadOnly (createFeedItems i b).
Proof.
  intros P. unfold createFeedItems, createMaintenanceFeedItems, createIncidentFeedItems, maintenance_item. pres.
Qed.
#[global] Instance ro_createFeedItem i b : ReadOnly (createFeedItem i b).
Proof. intros P. unfold createFeedItem, createFeedContent. pres. Qed.
#[global] Instance ro_getEvents region comp : ReadOnly (getEvents region comp).
Proof. intros P. unfold getEvents. pres. Qed.
