(* ===== verification/Writes.v ===== *)
(** * Writes of the storage facade

    The writing operations of [internal/db/db.go] and [internal/db/write.go].  A
    function that mutates the struct behind a pointer returns the mutated struct; the
    struct of a failed call is not observed by any caller.  The field validators are
    those of the Ent schema (non-empty text, status and names; a known event type),
    and the only foreign key that a write can violate is the one on
    [incident_component_relation.component_id]. *)

From S2P Require Import Prelude GoStrings Errors Event Models Store Queries.
Local Open Scope Z_scope.

Definition valueOr {A} (p : option A) (fallback : A) : A := default fallback p.

(** ** Statements on one table *)

Definition ent_check (ok : bool) : M unit :=
  if ok then mret tt else throw (EEnt ValidationError).

(** Run a statement that rewrites the tables. *)
Definition exec (f : Tables → Tables) : M unit := _ ← stmt; t ← get_tab; put_tab (f t).

(** [c.Incident.Update().Where(p)...Save]: the number of affected rows. *)
Definition update_incidents (p : Z → IncidentRow → bool) (f : IncidentRow → IncidentRow) : M Z :=
  _ ← stmt; t ← get_tab;
  _ ← put_tab (set_incidents (update_where p f (t_incident t)) t);
  mret (count_where p (t_incident t)).

(** [c.Incident.UpdateOneID(id)...Save] with fields only. *)
Definition update_incident_one (id : Z) (f : IncidentRow → IncidentRow) : M unit :=
  _ ← stmt; t ← get_tab;
  match t_incident t !! id with
  | None => throw (EEnt NotFoundError)
  | Some r => put_tab (set_incidents (<[id := f r]> (t_incident t)) t)
  end.

(** [UpdateOneID(id).RemoveComponentIDs(rm...).AddComponentIDs(add...).Save]; callers
    add only edges that are missing. *)
Definition update_incident_edges (id : Z) (rm add : list Z) : M unit :=
  _ ← stmt; t ← get_tab;
  match t_incident t !! id with
  | None => throw (EEnt NotFoundError)
  | Some _ =>
    if forallb (λ c, bool_decide (is_Some (t_component t !! c))) add
    then put_tab (set_rel ((t_rel t ∖ list_to_set (pair id <$> rm))
                           ∪ list_to_set (pair id <$> add)) t)
    else throw (EEnt ConstraintError)
  end.

Definition next_incident_id : M Z :=
  s ← get_seq;
  _ ← put_seq (mkSeqs (seq_incident s + 1) (seq_status s) (seq_component s) (seq_attr s) (seq_outbox s));
  mret (seq_incident s).
Definition next_status_id : M Z :=
  s ← get_seq;
  _ ← put_seq (mkSeqs (seq_incident s) (seq_status s + 1) (seq_component s) (seq_attr s) (seq_outbox s));
  mret (seq_status s).
Definition next_component_id : M Z :=
  s ← get_seq;
  _ ← put_seq (mkSeqs (seq_incident s) (seq_status s) (seq_component s + 1) (seq_attr s) (seq_outbox s));
  mret (seq_component s).
Definition next_attr_id : M Z :=
  s ← get_seq;
  _ ← put_seq (mkSeqs (seq_incident s) (seq_status s) (seq_component s) (seq_attr s + 1) (seq_outbox s));
  mret (seq_attr s).

(** ** Update rows *)

Definition status_row (s : IncidentStatus) (incidentID createdAt modifiedAt : Z) : StatusRow :=
  mkStatusRow incidentID (st_Timestamp s) (st_Text s) (st_Status s)
    (Some createdAt) (Some modifiedAt) None (st_CreatedBy s) (st_ModifiedBy s).

Definition insertIncidentStatus (s : IncidentStatus) (fallbackIncidentID : Z) :
    M (Z * IncidentStatus) :=
  n ← now;
  let createdAt := valueOr (st_CreatedAt s) n in
  let modifiedAt := valueOr (st_ModifiedAt s) n in
  let incidentID := if st_IncidentID s == 0 then fallbackIncidentID else st_IncidentID s in
  _ ← ent_check ((st_Text s != ""%string) && (st_Status s != ""%string));
  _ ← stmt;
  id ← next_status_id;
  t ← get_tab;
  _ ← put_tab (set_statuses (<[id := status_row s incidentID createdAt modifiedAt]> (t_status t)) t);
  mret (id, st_set_dates (Some createdAt) (Some modifiedAt) s).

(** The loop over [inc.Statuses] that stores the updates without an id. *)
Definition insertNewStatuses (incID : Z) (statuses : list IncidentStatus) : M (list IncidentStatus) :=
  mapM (λ s, if st_ID s == 0
             then r ← insertIncidentStatus s incID; mret (st_set_ids r.1 incID r.2)
             else mret s) statuses.

(** [dropIncidentComponent]. *)
Definition dropIncidentComponent (inc : Incident) (componentID : Z) : Incident :=
  set_Components inc (filterb (λ c, comp_ID c != componentID) (inc_Components inc)).

(** ** Saving and modifying *)

Definition nonzero_ids (comps : list Component) : list Z :=
  filterb (λ id, id != 0) (comp_ID <$> comps).

Definition SaveIncidentTx (inc : Incident) : M Incident :=
  match inc_Text inc with
  | None => throw (EDb ErrIncidentTextRequired)
  | Some ""%string => throw (EDb ErrIncidentTextRequired)
  | Some text =>
    n ← now;
    let createdAt := valueOr (inc_CreatedAt inc) n in
    let modifiedAt := valueOr (inc_ModifiedAt inc) n in
    let row := mkIncidentRow text (inc_Description inc) (valueOr (inc_StartDate inc) n)
      (inc_EndDate inc) (valueOr (inc_Impact inc) 0) (inc_System inc) (inc_Type inc)
      (if inc_Status inc == ""%string then None else Some (inc_Status inc))
      (Some createdAt) (Some modifiedAt) None (inc_CreatedBy inc) (inc_ContactEmail inc)
      (valueOr (inc_Version inc) 1) in
    let componentIDs := nonzero_ids (inc_Components inc) in
    _ ← ent_check (valid_type (inc_Type inc));
    _ ← stmt;
    id ← next_incident_id;
    t ← get_tab;
    _ ← (if forallb (λ c, bool_decide (is_Some (t_component t !! c))) componentIDs
         then put_tab (set_rel (t_rel t ∪ list_to_set (pair id <$> componentIDs))
                        (set_incidents (<[id := row]> (t_incident t)) t))
         else throw (EEnt ConstraintError));
    let inc1 := set_Version (set_ID (set_ModifiedAt (set_CreatedAt inc (Some createdAt))
                  (Some modifiedAt)) id) (Some (ir_version row)) in
    statuses ← insertNewStatuses id (inc_Statuses inc1);
    mret (set_Statuses inc1 statuses)
  end.

Definition SaveIncident (inc : Incident) : M Incident := SaveIncidentTx inc.

(** [applyIncidentPatch]: only the non-zero fields are written. *)
Definition opt_set {A} (x : option A) (old : option A) : option A :=
  match x with Some a => Some a | None => old end.

Definition applyIncidentPatch (inc : Incident) (r : IncidentRow) : IncidentRow :=
  mkIncidentRow (default (ir_text r) (inc_Text inc))
    (opt_set (inc_Description inc) (ir_description r))
    (default (ir_start r) (inc_StartDate inc))
    (opt_set (inc_EndDate inc) (ir_end r))
    (default (ir_impact r) (inc_Impact inc))
    (if inc_System inc then true else ir_system r)
    (if inc_Type inc == ""%string then ir_type r else inc_Type inc)
    (if inc_Status inc == ""%string then ir_status r else Some (inc_Status inc))
    (opt_set (inc_CreatedAt inc) (ir_created r))
    (ir_modified r) (ir_deleted r)
    (opt_set (inc_CreatedBy inc) (ir_created_by r))
    (opt_set (inc_ContactEmail inc) (ir_contact r))
    (ir_version r).

Definition set_version_modified (v m : Z) (r : IncidentRow) : IncidentRow :=
  mkIncidentRow (ir_text r) (ir_description r) (ir_start r) (ir_end r) (ir_impact r)
    (ir_system r) (ir_type r) (ir_status r) (ir_created r) (Some m) (ir_deleted r)
    (ir_created_by r) (ir_contact r) v.

(** The validators that run on the fields a patch sets. *)
Definition patch_valid (inc : Incident) : bool :=
  (inc_Text inc != Some ""%string) && ((inc_Type inc == ""%string) || valid_type (inc_Type inc)).

Definition modifyIncident (inc : Incident) : M Incident :=
  match inc_Version inc with
  | None => throw (EMsg "version is required for event modification")
  | Some expectedVersion =>
    let newVersion := expectedVersion + 1 in
    n ← now;
    _ ← ent_check (patch_valid inc);
    affected ← update_incidents
      (λ k r, bool_decide (k = inc_ID inc)
              && (if inc_Type inc == TypeMaintenance
                  then bool_decide (ir_version r = expectedVersion) else true))
      (λ r, set_version_modified newVersion n (applyIncidentPatch inc r));
    if (inc_Type inc == TypeMaintenance) && (affected =? 0)
    then throw (EDb ErrDBVersionConflict)
    else
      statuses ← insertNewStatuses (inc_ID inc) (inc_Statuses inc);
      mret (set_Statuses (set_Version inc (Some newVersion)) statuses)
  end.

Definition ModifyIncidentTx (inc : Incident) : M Incident := modifyIncident inc.
Definition ModifyIncident (inc : Incident) : M Incident := execWithTx false (modifyIncident inc).

Definition set_version (v : Z) (r : IncidentRow) : IncidentRow :=
  mkIncidentRow (ir_text r) (ir_description r) (ir_start r) (ir_end r) (ir_impact r)
    (ir_system r) (ir_type r) (ir_status r) (ir_created r) (ir_modified r) (ir_deleted r)
    (ir_created_by r) (ir_contact r) v.

Definition AddComponentToIncident (inc : Incident) (comp : Component) (status : IncidentStatus) :
    M Incident :=
  match inc_Version inc with
  | None => throw (EMsg "version is required for incident modification")
  | Some expectedVersion =>
    let newVersion := expectedVersion + 1 in
    inc' ← execWithTx false (
      affected ← update_incidents
        (λ k r, bool_decide (k = inc_ID inc) && bool_decide (ir_version r = expectedVersion))
        (set_version newVersion);
      if affected =? 0 then throw (EDb ErrDBVersionConflict)
      else
        inc' ← (if comp_ID comp != 0
                then _ ← update_incident_edges (inc_ID inc) [] [comp_ID comp];
                     mret (set_Components inc (inc_Components inc ++ [comp]))
                else mret inc);
        _ ← insertIncidentStatus status (inc_ID inc);
        mret inc');
    mret (set_Version inc' (Some newVersion))
  end.

Definition clear_end (r : IncidentRow) : IncidentRow :=
  mkIncidentRow (ir_text r) (ir_description r) (ir_start r) None (ir_impact r)
    (ir_system r) (ir_type r) (ir_status r) (ir_created r) (ir_modified r) (ir_deleted r)
    (ir_created_by r) (ir_contact r) (ir_version r).

(** A missing row is not an error here. *)
Definition ReOpenIncident (inc : Incident) : M unit :=
  r ← try (update_incident_one (inc_ID inc) clear_end);
  match r with
  | inl e => if decide (e = EEnt NotFoundError) then mret tt else throw e
  | inr _ => mret tt
  end.

(** ** Full saves *)

Definition full_row (inc : Incident) (text : string) (start createdAt n : Z) (r : IncidentRow) :
    IncidentRow :=
  mkIncidentRow text (inc_Description inc) start (inc_EndDate inc) (valueOr (inc_Impact inc) 0)
    (inc_System inc) (inc_Type inc) (Some (inc_Status inc)) (Some createdAt) (Some n)
    (inc_DeletedAt inc) (inc_CreatedBy inc) (inc_ContactEmail inc) (valueOr (inc_Version inc) 1).

Definition stored_components (t : Tables) (incidentID : Z) : list Z :=
  filterb (λ c, bool_decide ((incidentID, c) ∈ t_rel t)) (rows (t_component t)).*1.

Definition reconcileIncidentComponents (inc : Incident) : M unit :=
  let want := nonzero_ids (inc_Components inc) in
  currentIDs ← select (λ t, stored_components t (inc_ID inc));
  let extra := filterb (λ id, bool_decide (id ∉ want)) currentIDs in
  let missing := filterb (λ id, bool_decide (id ∉ currentIDs)) want in
  match extra, missing with
  | [], [] => mret tt
  | _, _ => update_incident_edges (inc_ID inc) extra missing
  end.

Definition insertNewIncidentStatuses (inc : Incident) : M Incident :=
  statuses ← insertNewStatuses (inc_ID inc) (inc_Statuses inc);
  mret (set_Statuses inc statuses).

Definition saveIncidentFull (inc : Incident) : M Incident :=
  match inc_Text inc, inc_StartDate inc with
  | None, _ | Some ""%string, _ => throw (EDb ErrIncidentTextRequired)
  | Some _, None => throw (EDb ErrIncidentStartDateRequired)
  | Some text, Some start =>
    n ← now;
    let createdAt := valueOr (inc_CreatedAt inc) n in
    let inc1 := set_ModifiedAt (set_CreatedAt inc (Some createdAt)) (Some n) in
    _ ← ent_check (valid_type (inc_Type inc));
    _ ← update_incident_one (inc_ID inc) (full_row inc1 text start createdAt n);
    _ ← reconcileIncidentComponents inc1;
    insertNewIncidentStatuses inc1
  end.

Definition removeIncidentComponent (incidentID componentID : Z) : M unit :=
  update_incident_edges incidentID [componentID] [].

(** ** Moving components between incidents *)

(** Returns [incNew] and [incOld] as the call leaves them. *)
Definition MoveComponentFromOldToAnotherIncident (comp0 : Component) (incOld incNew : Incident)
    (closeOld : bool) : M (Incident * Incident) :=
  timeNow ← now;
  comp ← (if comp_Name comp0 == ""%string then GetComponent (comp_ID comp0) else mret comp0);
  let incNew1 := set_Components incNew (inc_Components incNew ++ [comp]) in
  oldLink ← deref (Link incOld);
  let incNew2 := add_Status incNew1 (newStatus (inc_ID incNew) OutDatedSystem
                   (PrintAttrs comp +:+ " moved from " +:+ oldLink) timeNow None) in
  newLink ← deref (Link incNew2);
  let text := (PrintAttrs comp +:+ " moved to " +:+ newLink)%string in
  let text' := if closeOld then (text +:+ ", Incident closed by system")%string else text in
  let status := if closeOld then IncidentResolved else OutDatedSystem in
  let incOld1 := if closeOld then set_Status incOld IncidentResolved else incOld in
  let incOld2 := add_Status incOld1 (newStatus (inc_ID incOld) status text' timeNow None) in
  let incOld3 := if closeOld then set_EndDate incOld2 (Some timeNow) else incOld2 in
  execWithTx false (
    incOld4 ← (if negb closeOld && (comp_ID comp != 0)
               then _ ← removeIncidentComponent (inc_ID incOld) (comp_ID comp);
                    mret (dropIncidentComponent incOld3 (comp_ID comp))
               else mret incOld3);
    incNew' ← saveIncidentFull incNew2;
    incOld' ← saveIncidentFull incOld4;
    mret (incNew', incOld')).

(** The relation rows of [comp] leave the old incident one statement at a time. *)
Definition removeComponents (incOld : Incident) (comp : list Component) : M Incident :=
  foldM (λ old c, if comp_ID c == 0 then mret old
                  else _ ← removeIncidentComponent (inc_ID old) (comp_ID c);
                       mret (dropIncidentComponent old (comp_ID c))) incOld comp.

Definition move_texts (verb link : string) (incID : Z) (ts : Z) (comp : list Component) :
    list IncidentStatus :=
  (λ c, newStatus incID OutDatedSystem (PrintAttrs c +:+ verb +:+ link) ts None) <$> comp.

(** Returns the new incident and [incOld] as the call leaves it. *)
Definition ExtractComponentsToNewIncident (comp : list Component) (incOld : Incident)
    (impact : Z) (text : string) (description : option string) : M (Incident * Incident) :=
  match comp with
  | [] => throw (EMsg "no components to extract")
  | _ =>
    timeNow ← now;
    let inc0 := mkIncident 0 (Some text) description (Some timeNow) None (Some impact) []
      OutDatedSystem false TypeIncident comp None None None None None None in
    inc1 ← SaveIncident inc0;
    oldLink ← deref (Link incOld);
    let inc2 := set_Statuses inc1
      (inc_Statuses inc1 ++ move_texts " moved from " oldLink (inc_ID inc1) timeNow comp) in
    newLink ← deref (Link inc2);
    let incOld1 := set_Statuses incOld
      (inc_Statuses incOld ++ move_texts " moved to " newLink (inc_ID incOld) timeNow comp) in
    execWithTx false (
      incOld2 ← removeComponents incOld1 comp;
      inc' ← saveIncidentFull inc2;
      incOld' ← saveIncidentFull incOld2;
      mret (inc', incOld'))
  end.

(** [IncreaseIncidentImpact] writes the non-zero fields and the version it holds. *)
Definition increase_row (inc : Incident) (timeNow : Z) (r : IncidentRow) : IncidentRow :=
  let r' := applyIncidentPatch inc r in
  mkIncidentRow (ir_text r') (ir_description r') (ir_start r') (ir_end r') (ir_impact r')
    (ir_system r') (ir_type r') (ir_status r') (ir_created r') (Some timeNow) (ir_deleted r')
    (ir_created_by r') (ir_contact r') (default (ir_version r) (inc_Version inc)).

Definition IncreaseIncidentImpact (inc : Incident) (impact : Z) : M Incident :=
  timeNow ← now;
  old ← deref (inc_Impact inc);
  let text := ("impact changed from " +:+ Itoa old +:+ " to " +:+ Itoa impact)%string in
  let s := st_set_dates (Some timeNow) (Some timeNow)
             (newStatus (inc_ID inc) OutDatedSystem text timeNow None) in
  let inc1 := set_ModifiedAt (set_Impact (add_Status inc s) (Some impact)) (Some timeNow) in
  WithTx (
    _ ← ent_check ((inc_Type inc1 == ""%string) || valid_type (inc_Type inc1));
    (* an empty title is not written *)
    let inc2 := if inc_Text inc1 == Some ""%string then set_Text inc1 None else inc1 in
    _ ← update_incident_one (inc_ID inc1) (increase_row inc2 timeNow);
    _ ← insertIncidentStatus s (inc_ID inc1);
    mret inc1).

(** ** Components *)

Definition component_taken (t : Tables) (name region : string) : bool :=
  existsb (λ kc : Z * ComponentRow, bool_decide (cr_name kc.2 = name)
     && component_has_attr t kc.1 (λ a, (ar_name a == regionAttrName) && (ar_value a == region)))
    (rows (t_component t)).

Definition insert_attr (componentID : Z) (a : ComponentAttr) : M ComponentAttr :=
  _ ← ent_check ((attr_Name a != ""%string) && (attr_Value a != ""%string));
  _ ← stmt;
  id ← next_attr_id;
  t ← get_tab;
  if existsb (λ ka : Z * AttrRow, bool_decide (ar_component ka.2 = componentID)
                && (ar_name ka.2 == attr_Name a)) (rows (t_attr t))
  then throw (EEnt ConstraintError)
  else
    _ ← put_tab (set_attrs (<[id := mkAttrRow componentID (attr_Name a) (attr_Value a)]> (t_attr t)) t);
    mret (mkAttr id componentID (attr_Name a) (attr_Value a)).

(** [SaveComponent]: the first region attribute decides the duplicate check. *)
Definition SaveComponent (comp : Component) : M Component :=
  match head (filterb (λ a, attr_Name a == regionAttrName) (comp_Attrs comp)) with
  | None => throw (EMsg "missing required region attribute")
  | Some attr =>
    exists_ ← select (λ t, component_taken t (comp_Name comp) (attr_Value attr));
    if exists_ : bool then throw (EDb ErrDBComponentExists)
    else
      n ← now;
      let createdAt := valueOr (comp_CreatedAt comp) n in
      let modifiedAt := valueOr (comp_ModifiedAt comp) n in
      WithTx (
        _ ← ent_check (comp_Name comp != ""%string);
        _ ← stmt;
        id ← next_component_id;
        t ← get_tab;
        _ ← put_tab (set_components
              (<[id := mkComponentRow (comp_Name comp) (Some createdAt) (Some modifiedAt) None]>
                 (t_component t)) t);
        attrs ← mapM (insert_attr id) (comp_Attrs comp);
        mret (mkComponent id (comp_Name comp) attrs (Some createdAt) (Some modifiedAt)
                (comp_DeletedAt comp)))
  end.

(** ** Update texts *)

Definition set_status_text (text : string) (n : Z) (r : StatusRow) : StatusRow :=
  mkStatusRow (sr_incident r) (sr_timestamp r) text (sr_status r) (sr_created r) (Some n)
    (sr_deleted r) (sr_created_by r) (sr_modified_by r).

Definition ModifyEventUpdateTx (update : IncidentStatus) : M IncidentStatus :=
  n ← now;
  _ ← ent_check (st_Text update != ""%string);
  _ ← stmt;
  t ← get_tab;
  let p (k : Z) (r : StatusRow) :=
    bool_decide (k = st_ID update) && bool_decide (sr_incident r = st_IncidentID update) in
  _ ← put_tab (set_statuses (update_where p (set_status_text (st_Text update) n) (t_status t)) t);
  if count_where p (t_status t) =? 0 then throw (EDb ErrDBEventUpdateDSNotExist)
  else
    row ← select (λ t, t_status t !! st_ID update);
    match row with
    | None => throw (EEnt NotFoundError)
    | Some r => mret (incidentStatusFromEnt (st_ID update) r)
    end.

Definition ModifyEventUpdate (update : IncidentStatus) : M IncidentStatus :=
  ModifyEventUpdateTx update.
