(* ===== verification/Integrity.v ===== *)
(** * Integrity of the stored data

    What the schema and the writes of the facade keep true of the tables: positive
    serials below the next value, foreign keys, unique attribute names, known event
    types and non-empty texts, unique notification keys; and that no write of the
    facade removes an event, a component or an entry of an event's history. *)

From S2P Require Import Prelude GoStrings Errors Event Models Store Queries Writes.
Local Open Scope Z_scope.

(** The ids of a table are positive and below the next serial. *)
Definition ids_below {A} (m : gmap Z A) (next : Z) : Prop :=
  ∀ k, is_Some (m !! k) → 0 < k < next.

Definition incident_row_ok (r : IncidentRow) : Prop :=
  ir_text r ≠ ""%string ∧ valid_type (ir_type r) = true.
Definition status_row_ok (r : StatusRow) : Prop :=
  sr_text r ≠ ""%string ∧ sr_status r ≠ ""%string.

Record wf (w : World) : Prop := mk_wf {
  wf_seqs : 0 < seq_incident (w_seq w) ∧ 0 < seq_status (w_seq w) ∧ 0 < seq_component (w_seq w)
            ∧ 0 < seq_attr (w_seq w) ∧ 0 < seq_outbox (w_seq w);
  wf_incident_ids : ids_below (t_incident (w_tab w)) (seq_incident (w_seq w));
  wf_status_ids : ids_below (t_status (w_tab w)) (seq_status (w_seq w));
  wf_component_ids : ids_below (t_component (w_tab w)) (seq_component (w_seq w));
  wf_attr_ids : ids_below (t_attr (w_tab w)) (seq_attr (w_seq w));
  wf_outbox_ids : ids_below (t_outbox (w_tab w)) (seq_outbox (w_seq w));
  wf_rel_fk : ∀ i c, (i, c) ∈ t_rel (w_tab w) →
    is_Some (t_incident (w_tab w) !! i) ∧ is_Some (t_component (w_tab w) !! c);
  wf_attr_fk : ∀ k a, t_attr (w_tab w) !! k = Some a →
    is_Some (t_component (w_tab w) !! ar_component a);
  wf_attr_unique : ∀ k1 k2 a1 a2,
    t_attr (w_tab w) !! k1 = Some a1 → t_attr (w_tab w) !! k2 = Some a2 →
    ar_component a1 = ar_component a2 → ar_name a1 = ar_name a2 → k1 = k2;
  wf_outbox_unique : ∀ k1 k2 r1 r2,
    t_outbox (w_tab w) !! k1 = Some r1 → t_outbox (w_tab w) !! k2 = Some r2 →
    or_dedup r1 = or_dedup r2 → k1 = k2;
  wf_outbox_fk : ∀ k r, t_outbox (w_tab w) !! k = Some r →
    is_Some (t_incident (w_tab w) !! or_incident r);
  wf_rows : ∀ k r, t_incident (w_tab w) !! k = Some r → incident_row_ok r;
  wf_updates : ∀ k r, t_status (w_tab w) !! k = Some r → status_row_ok r }.

Definition seq_le (s s' : Seqs) : Prop :=
  seq_incident s <= seq_incident s' ∧ seq_status s <= seq_status s'
  ∧ seq_component s <= seq_component s' ∧ seq_attr s <= seq_attr s'
  ∧ seq_outbox s <= seq_outbox s'.

(** Every history entry is still there with its event, its status and its time: only
    its text may have been edited. *)
Definition history_le (m m' : gmap Z StatusRow) : Prop :=
  ∀ k r, m !! k = Some r → ∃ r', m' !! k = Some r' ∧ sr_incident r' = sr_incident r
    ∧ sr_status r' = sr_status r ∧ sr_timestamp r' = sr_timestamp r.

Definition keeps {A} (m m' : gmap Z A) : Prop := ∀ k, is_Some (m !! k) → is_Some (m' !! k).

(** A step of the storage: integrity is preserved and nothing is lost. *)
Definition db_step (w w' : World) : Prop :=
  seq_le (w_seq w) (w_seq w') ∧
  (wf w → wf w' ∧ history_le (t_status (w_tab w)) (t_status (w_tab w'))
        ∧ keeps (t_incident (w_tab w)) (t_incident (w_tab w'))
        ∧ keeps (t_component (w_tab w)) (t_component (w_tab w'))).

(** ** The relation *)

Lemma ids_below_mono {A} (m : gmap Z A) n n' : n <= n' → ids_below m n → ids_below m n'.
Proof. intros Hle H k Hk. specialize (H k Hk). lia. Qed.

Lemma ids_below_insert {A} (m : gmap Z A) n x : 0 < n → ids_below m n → ids_below (<[n := x]> m) (n + 1).
Proof.
  intros Hn H k [y Hk]. rewrite lookup_insert in Hk. case_decide; [lia|].
  specialize (H k (ltac:(eauto))). lia.
Qed.

Lemma ids_below_fresh {A} (m : gmap Z A) n : ids_below m n → m !! n = None.
Proof. intros H. destruct (m !! n) eqn:Hn; [|done]. specialize (H n (ltac:(eauto))). lia. Qed.

Lemma ids_below_update {A} p f (m : gmap Z A) n :
  ids_below m n → ids_below (update_where p f m) n.
Proof. intros H k. rewrite lookup_update_where, fmap_is_Some. apply H. Qed.

#[global] Instance seq_le_preorder : PreOrder seq_le.
Proof. split; [intros s|intros s1 s2 s3]; unfold seq_le; lia. Qed.
#[global] Instance history_le_preorder : PreOrder history_le.
Proof.
  split; [intros m k r Hr; eauto|]. intros m1 m2 m3 H12 H23 k r Hr.
  destruct (H12 k r Hr) as (r2 & Hr2 & ? & ? & ?).
  destruct (H23 k r2 Hr2) as (r3 & Hr3 & ? & ? & ?). exists r3. split_and!; congruence.
Qed.
#[global] Instance keeps_preorder {A} : PreOrder (@keeps A).
Proof. split; [intros m k H; done|]. intros m1 m2 m3 H1 H2 k Hk. eauto. Qed.

Lemma keeps_insert {A} (m : gmap Z A) k x : keeps m (<[k := x]> m).
Proof. intros j Hj. rewrite lookup_insert_is_Some'. by right. Qed.

#[global] Instance db_step_preorder : PreOrder db_step.
Proof.
  split.
  - intros w. split; [reflexivity|]. intros Hw. split_and!; [done|reflexivity..].
  - intros w1 w2 w3 [S12 H12] [S23 H23]. split; [by etrans|]. intros Hw.
    destruct (H12 Hw) as (Hw2 & Hh & Hi & Hc). destruct (H23 Hw2) as (Hw3 & Hh' & Hi' & Hc').
    split_and!; [done|by etrans..].
Qed.

Lemma wf_same w w' : w_tab w' = w_tab w → seq_le (w_seq w) (w_seq w') → wf w → wf w'.
Proof.
  intros Ht (? & ? & ? & ? & ?) [(? & ? & ? & ? & ?)]. constructor; rewrite ?Ht; auto; try lia.
  all: by eapply ids_below_mono.
Qed.

#[global] Instance db_step_rel : DbRel db_step.
Proof.
  split; [apply _| |].
  - intros w w' Ht Hs. split; [rewrite Hs; reflexivity|]. intros Hw.
    rewrite Ht. split_and!; [|reflexivity..].
    apply (wf_same w); [done| |done]. rewrite Hs. reflexivity.
  - intros w w' [Hs H]. split; [done|]. intros Hw. simpl. split_and!; [|reflexivity..].
    by apply (wf_same w).
Qed.

Lemma ent_check_bind {A} (b : bool) (k : () → M A) :
  (b = true → Respects db_step (k tt)) → Respects db_step (ent_check b ≫= k).
Proof.
  intros Hk. destruct b; [exact (Hk eq_refl)|].
  intros E w o w' [= <- <-]. reflexivity.
Qed.

(** ** Single statements *)

(** A write that starts from well-formed tables and re-establishes each clause. *)
Lemma db_step_put w t' s' (n m : nat) b :
  seq_le (w_seq w) s' →
  (wf w → wf (mkWorld t' s' n m b)
        ∧ history_le (t_status (w_tab w)) (t_status t')
        ∧ keeps (t_incident (w_tab w)) (t_incident t')
        ∧ keeps (t_component (w_tab w)) (t_component t')) →
  db_step w (mkWorld t' s' n m b).
Proof. intros Hs H. by split. Qed.

(** Run the effects that only touch the tables and the serials. *)
Ltac eval_run H :=
  cbv [mbind M_bind mret M_ret throw get_tab put_tab get_seq put_seq
       next_incident_id next_status_id next_component_id next_attr_id] in H;
  cbn [w_tab w_seq w_tick w_stmt w_signal] in H.

Ltac bump := unfold seq_le; simpl; lia.

#[global] Instance respects_update_incidents p f :
  (∀ r, incident_row_ok r → incident_row_ok (f r)) →
  Respects db_step (update_incidents p f).
Proof.
  intros Hf E w o w'. unfold update_incidents. rewrite bind_run. unfold stmt.
  destruct (fault_at _ _); intros [= <- <-]; [by apply db_rel_frame|].
  apply db_step_put; [reflexivity|]. intros []. simpl. split_and!; try reflexivity.
  - constructor; simpl; auto.
    + by apply ids_below_update.
    + intros i c Hic. rewrite lookup_update_where, fmap_is_Some. eauto.
    + intros k r Hk. rewrite lookup_update_where, fmap_is_Some. eauto.
    + intros k r. rewrite lookup_update_where. intros (r0 & Hr0 & ->)%fmap_Some.
      destruct (p k r0); eauto.
  - intros k Hk. by rewrite lookup_update_where, fmap_is_Some.
Qed.

#[global] Instance respects_update_incident_one id f :
  (∀ r, incident_row_ok r → incident_row_ok (f r)) →
  Respects db_step (update_incident_one id f).
Proof.
  intros Hf E w o w'. unfold update_incident_one. rewrite bind_run. unfold stmt.
  destruct (fault_at _ _); [intros [= <- <-]; by apply db_rel_frame|].
  rewrite bind_run. simpl. destruct (t_incident _ !! id) as [r0|] eqn:Hr0; intros [= <- <-];
    [|by apply db_rel_frame].
  apply db_step_put; [reflexivity|]. intros []. simpl.
  assert (keeps (t_incident (w_tab w)) (<[id:=f r0]> (t_incident (w_tab w)))) as Hkeep.
  { apply keeps_insert. }
  split_and!; try reflexivity; [|done].
  constructor; simpl; auto.
  - intros k [y Hk]. rewrite lookup_insert in Hk. case_decide; subst; eauto.
  - intros i c Hic. destruct (wf_rel_fk0 i c Hic) as [Hi Hc]. split; [by apply Hkeep|done].
  - intros k r Hk. apply Hkeep. eauto.
  - intros k r. rewrite lookup_insert. case_decide; [intros [= <-]; subst; eauto|eauto].
Qed.

#[global] Instance respects_update_incident_edges id rm add :
  Respects db_step (update_incident_edges id rm add).
Proof.
  intros E w o w'. unfold update_incident_edges. rewrite bind_run. unfold stmt.
  destruct (fault_at _ _); [intros [= <- <-]; by apply db_rel_frame|].
  rewrite bind_run. simpl. destruct (t_incident _ !! id) as [r0|] eqn:Hr0;
    [|intros [= <- <-]; by apply db_rel_frame].
  destruct (forallb _ _) eqn:Hfk; intros [= <- <-];
    [|by apply db_rel_frame].
  apply db_step_put; [reflexivity|]. intros []. simpl. split_and!; try reflexivity.
  constructor; simpl; auto. intros i c [Hic|Hic]%elem_of_union.
  - apply elem_of_difference in Hic as [Hic _]. eauto.
  - apply elem_of_list_to_set, list_elem_of_fmap in Hic as (c' & [= -> ->] & Hc).
    split; [eauto|]. rewrite forallb_true_iff in Hfk. specialize (Hfk _ Hc).
    by apply bool_decide_eq_true in Hfk.
Qed.

#[global] Instance respects_insertIncidentStatus s fb : Respects db_step (insertIncidentStatus s fb).
Proof.
  unfold insertIncidentStatus. apply respects_bind; [apply _..|]. intros n.
  apply ent_check_bind. intros [Htext Hstatus]%andb_true_iff.
  apply respects_bind; [apply _..|]. intros _.
  intros E w o w' [= <- <-]. apply db_step_put; [bump|]. intros []. simpl.
  pose proof (ids_below_fresh _ _ wf_status_ids0) as Hfresh.
  split_and!; try reflexivity.
  - constructor; simpl; auto; [lia|apply ids_below_insert; [lia|done]|].
    intros k r [[_ <-]|[_ ?]]%lookup_insert_Some; [|eauto].
    split; simpl; by bool_facts.
  - intros k r Hk. exists r. rewrite lookup_insert_ne by congruence. done.
Qed.

#[global] Instance respects_insertNewStatuses i l : Respects db_step (insertNewStatuses i l).
Proof. unfold insertNewStatuses. resp. Qed.

(** ** Operations *)

#[global] Instance respects_SaveIncidentTx inc : Respects db_step (SaveIncidentTx inc).
Proof.
  unfold SaveIncidentTx. destruct (inc_Text inc) as [[|c text]|]; [apply _| |apply _].
  apply respects_bind; [apply _..|]. intros n. apply ent_check_bind. intros Htype.
  apply respects_bind; [apply _..|]. intros _.
  set (row := mkIncidentRow _ _ _ _ _ _ _ _ _ _ _ _ _ _).
  intros E w o w' Hrun.
  rewrite bind_run in Hrun. simpl in Hrun. rewrite bind_run in Hrun. simpl in Hrun.
  rewrite bind_run in Hrun. destruct (forallb _ _) eqn:Hfk; simpl in Hrun.
  - assert (Respects db_step (statuses ← insertNewStatuses (seq_incident (w_seq w)) (inc_Statuses inc);
        mret (set_Statuses (set_Version (set_ID (set_ModifiedAt (set_CreatedAt inc
          (Some (valueOr (inc_CreatedAt inc) n))) (Some (valueOr (inc_ModifiedAt inc) n)))
          (seq_incident (w_seq w))) (Some (ir_version row))) statuses))) as Hrest by apply _.
    eapply transitivity; [|eapply Hrest, Hrun].
    apply db_step_put; [bump|]. intros []. simpl. split_and!; try reflexivity.
    + constructor; simpl; auto; [lia|apply ids_below_insert; [lia|done]| | |].
      * intros i c' [Hic|Hic]%elem_of_union.
        -- destruct (wf_rel_fk0 i c' Hic) as [Hi Hc]. split; [|done].
           by apply keeps_insert.
        -- apply elem_of_list_to_set, list_elem_of_fmap in Hic as (c'' & [= -> ->] & Hc).
           rewrite lookup_insert_eq. split; [eauto|].
           rewrite forallb_true_iff in Hfk. specialize (Hfk _ Hc).
           by apply bool_decide_eq_true in Hfk.
      * intros k r Hk. apply keeps_insert. eauto.
      * intros k r [[_ <-]|[_ ?]]%lookup_insert_Some; [by split|eauto].
    + apply keeps_insert.
  - injection Hrun as <- <-. apply db_step_put; [bump|]. intros Hw.
    split_and!; try reflexivity. apply (wf_same w); [done|bump|done].
Qed.

Lemma applyIncidentPatch_ok inc r : patch_valid inc = true → incident_row_ok r →
  incident_row_ok (applyIncidentPatch inc r).
Proof.
  unfold patch_valid, incident_row_ok. intros [Ht Hty]%andb_true_iff [Hr Htyp]. simpl. split.
  - destruct (inc_Text inc) as [t|]; simpl; [|done]. bool_facts. congruence.
  - case_bool_decide; [done|]. by apply orb_true_iff in Hty as [?|?].
Qed.

#[global] Instance respects_modifyIncident inc : Respects db_step (modifyIncident inc).
Proof.
  unfold modifyIncident. destruct (inc_Version inc); [|apply _].
  apply respects_bind; [apply _..|]. intros n. apply ent_check_bind. intros Hv.
  apply respects_bind; [apply _| |intros affected].
  - apply respects_update_incidents. intros r Hr.
    destruct (applyIncidentPatch_ok inc r Hv Hr). by split.
  - resp.
Qed.

#[global] Instance respects_AddComponentToIncident inc c s :
  Respects db_step (AddComponentToIncident inc c s).
Proof.
  unfold AddComponentToIncident, execWithTx. destruct (inc_Version inc); [|apply _].
  apply respects_bind; [apply _| |resp]. apply respects_WithTx; [apply _|].
  apply respects_bind; [apply _| |resp]. by apply respects_update_incidents.
Qed.

#[global] Instance respects_ReOpenIncident inc : Respects db_step (ReOpenIncident inc).
Proof.
  unfold ReOpenIncident. apply respects_bind; [apply _| |resp].
  apply respects_try. by apply respects_update_incident_one.
Qed.

#[global] Instance respects_reconcile inc : Respects db_step (reconcileIncidentComponents inc).
Proof. unfold reconcileIncidentComponents. resp. Qed.

#[global] Instance respects_saveIncidentFull inc : Respects db_step (saveIncidentFull inc).
Proof.
  unfold saveIncidentFull.
  destruct (inc_Text inc) as [[|c text]|]; [apply _| |apply _].
  destruct (inc_StartDate inc); [|apply _].
  apply respects_bind; [apply _..|]. intros n. apply ent_check_bind. intros Hv.
  apply respects_bind; [apply _| |].
  - apply respects_update_incident_one. intros r _. by split.
  - intros _. unfold insertNewIncidentStatuses. resp.
Qed.

#[global] Instance respects_GetComponent id : Respects db_step (GetComponent id).
Proof. unfold GetComponent. resp. Qed.
#[global] Instance respects_removeIncidentComponent i c : Respects db_step (removeIncidentComponent i c).
Proof. unfold removeIncidentComponent. apply _. Qed.
#[global] Instance respects_removeComponents i l : Respects db_step (removeComponents i l).
Proof. unfold removeComponents. resp. Qed.

#[global] Instance respects_Move c o n b :
  Respects db_step (MoveComponentFromOldToAnotherIncident c o n b).
Proof. unfold MoveComponentFromOldToAnotherIncident, execWithTx. resp. Qed.

#[global] Instance respects_Extract cs o i t d :
  Respects db_step (ExtractComponentsToNewIncident cs o i t d).
Proof. unfold ExtractComponentsToNewIncident, SaveIncident, execWithTx. resp. Qed.

#[global] Instance respects_IncreaseIncidentImpact inc i :
  Respects db_step (IncreaseIncidentImpact inc i).
Proof.
  unfold IncreaseIncidentImpact. apply respects_bind; [apply _..|]. intros n.
  apply respects_bind; [apply _..|]. intros old. apply respects_WithTx; [apply _|].
  apply ent_check_bind. intros Hty. apply respects_bind; [apply _| |resp].
  apply respects_update_incident_one. intros r Hr. simpl.
  set (inc2 := if _ : bool then _ else _).
  assert (patch_valid inc2 = true) as Hv.
  { unfold patch_valid, inc2. simpl in *. destruct (inc_Text inc == Some ""%string) eqn:Ht; simpl.
    - exact Hty.
    - rewrite Ht. exact Hty. }
  destruct (applyIncidentPatch_ok inc2 r Hv Hr). by split.
Qed.

(** While the component exists, adding an attribute is a step that keeps it. *)
Definition attr_step (id : Z) (w w' : World) : Prop :=
  is_Some (t_component (w_tab w) !! id) →
  db_step w w' ∧ is_Some (t_component (w_tab w') !! id).

#[global] Instance attr_step_preorder id : PreOrder (attr_step id).
Proof.
  split; [intros w Hw; by split|]. intros w1 w2 w3 H12 H23 Hw.
  destruct (H12 Hw) as [S12 Hw2]. destruct (H23 Hw2) as [S23 Hw3]. split; [by etrans|done].
Qed.

Lemma db_step_insert_attr w (n m : nat) b id a :
  is_Some (t_component (w_tab w) !! id) →
  existsb (λ ka : Z * AttrRow, bool_decide (ar_component ka.2 = id)
             && (ar_name ka.2 == attr_Name a)) (rows (t_attr (w_tab w))) = false →
  db_step w (mkWorld
    (set_attrs (<[seq_attr (w_seq w) := mkAttrRow id (attr_Name a) (attr_Value a)]>
                  (t_attr (w_tab w))) (w_tab w))
    (mkSeqs (seq_incident (w_seq w)) (seq_status (w_seq w)) (seq_component (w_seq w))
            (seq_attr (w_seq w) + 1) (seq_outbox (w_seq w))) n m b).
Proof.
  intros Hc Hex. apply db_step_put; [bump|]. intros []. simpl in *. split_and!; try reflexivity.
  assert (∀ k a', t_attr (w_tab w) !! k = Some a' → ar_component a' = id →
      ar_name a' = attr_Name a → False) as Hno.
  { intros k a' Hk Hid Hname. rewrite existsb_false_iff in Hex.
    specialize (Hex (k, a')). rewrite elem_of_rows in Hex. specialize (Hex Hk). simpl in Hex.
    rewrite !bool_decide_true in Hex by done. done. }
  constructor; simpl; auto; [lia|apply ids_below_insert; [lia|done]| |].
  - intros k a' [[_ <-]|[_ ?]]%lookup_insert_Some; eauto.
  - intros k1 k2 a1 a2 [[<- <-]|[? ?]]%lookup_insert_Some
      [[<- <-]|[? ?]]%lookup_insert_Some; simpl; intros; eauto; exfalso; eauto.
Qed.

#[global] Instance respects_insert_attr id a : Respects (attr_step id) (insert_attr id a).
Proof.
  intros E w o w' H Hc. unfold insert_attr, ent_check in H.
  destruct (_ && _)%bool; [|injection H as <- <-; by split].
  unfold stmt in H. eval_run H.
  destruct (fault_at _ _); [injection H as <- <-; split; [by apply db_rel_frame|done]|].
  eval_run H. match type of H with context [if ?b then _ else _] => destruct b eqn:Hex end;
    injection H as <- <-; (split; [|done]).
  - apply db_step_put; [bump|]. intros Hw. split_and!; try reflexivity.
    apply (wf_same w); [done|bump|done].
  - by apply db_step_insert_attr.
Qed.

#[global] Instance respects_SaveComponent comp : Respects db_step (SaveComponent comp).
Proof.
  unfold SaveComponent. destruct (head _); [|apply _].
  apply respects_bind; [apply _..|]. intros [|]; [apply _|].
  apply respects_bind; [apply _..|]. intros n. apply respects_WithTx; [apply _|].
  apply ent_check_bind. intros Hname. apply respects_bind; [apply _..|]. intros _.
  intros E w o w' H.
  eval_run H.
  set (w1 := mkWorld _ _ _ _ _) in H.
  assert (db_step w w1) as Hstep.
  { apply db_step_put; [bump|]. intros []. simpl. split_and!; try reflexivity.
    - constructor; simpl; auto; [lia|apply ids_below_insert; [lia|done]| |].
      + intros i c' Hic. destruct (wf_rel_fk0 i c' Hic). split; [done|].
        by apply keeps_insert.
      + intros k a' Hk. apply keeps_insert. eauto.
    - apply keeps_insert. }
  etrans; [exact Hstep|].
  assert (is_Some (t_component (w_tab w1) !! seq_component (w_seq w))) as Hc1.
  { simpl. rewrite lookup_insert_eq. eauto. }
  destruct (mapM _ _ E w1) as [o2 w2] eqn:Hm.
  assert (Respects (attr_step (seq_component (w_seq w)))
    (mapM (insert_attr (seq_component (w_seq w))) (comp_Attrs comp))) as Hloop by apply _.
  destruct (Hloop _ _ _ _ Hm Hc1) as [Hs _]. by destruct o2; injection H as <- <-.
Qed.

#[global] Instance respects_ModifyEventUpdateTx u : Respects db_step (ModifyEventUpdateTx u).
Proof.
  unfold ModifyEventUpdateTx. apply respects_bind; [apply _..|]. intros n.
  apply ent_check_bind. intros Htext. apply respects_bind; [apply _..|]. intros _.
  intros E w o w' H. rewrite bind_run in H. simpl in H. rewrite bind_run in H.
  set (p := λ k r, _) in H. unfold put_tab in H. cbv beta iota in H.
  set (w1 := mkWorld _ _ _ _ _) in H.
  assert (db_step w w1) as Hstep.
  { apply db_step_put; [reflexivity|]. intros []. simpl. split_and!; try reflexivity.
    - constructor; simpl; auto; [by apply ids_below_update|].
      intros k r. rewrite lookup_update_where. intros (r0 & Hr0 & ->)%fmap_Some.
      destruct (p k r0); [|eauto]. split; simpl; [by bool_facts|]. eapply wf_updates0, Hr0.
    - intros k r Hk. rewrite lookup_update_where, Hk. simpl. eexists. split; [done|].
      by destruct (p k r). }
  etrans; [exact Hstep|]. revert H.
  match goal with |- ?m E _ = _ → _ => enough (Respects db_step m) as Hr; [apply Hr|] end.
  resp.
Qed.
