(* ===== verification/WritesSpec.v ===== *)
(** * What the writes store

    The effect of each writing operation on the tables: appended history entries,
    optimistic locking, save and load round trips, reconciled component relations,
    moves and extractions. *)

From S2P Require Import Prelude GoStrings GoTime Errors Event Models Store Queries Writes Integrity.
Local Open Scope Z_scope.

(** ** Appending rows *)

Lemma rows_insert_last {A} (m : gmap Z A) k x :
  (∀ j, is_Some (m !! j) → j < k) → rows (<[k := x]> m) = rows m ++ [(k, x)].
Proof.
  intros Hlt. assert (m !! k = None) as Hk.
  { destruct (m !! k) eqn:Hk; [|done]. specialize (Hlt k (ltac:(eauto))). lia. }
  assert (∀ p, p ∈ rows m → p.1 < k) as Hrows.
  { intros [j y] Hj%elem_of_rows. simpl. eauto. }
  apply key_sorted_unique.
  - apply rows_sorted.
  - pose proof (rows_sorted m) as Hs. induction Hs as [|p l Hl IH Hp]; cbn.
    + repeat constructor.
    + constructor; [apply IH; intros q Hq; apply Hrows; by right|].
      rewrite Forall_app. split; [done|]. constructor; [|done].
      unfold key_le. specialize (Hrows p (ltac:(left))). simpl. lia.
  - apply NoDup_rows_keys.
  - rewrite rows_perm, map_to_list_insert by done.
    rewrite <- (rows_perm m). rewrite Permutation_app_comm. done.
Qed.

(** The history entry a stored update reads back as. *)
Definition stored_status (id incidentID n : Z) (s : IncidentStatus) : IncidentStatus :=
  incidentStatusFromEnt id
    (status_row s incidentID (valueOr (st_CreatedAt s) n) (valueOr (st_ModifiedAt s) n)).

Definition with_new_status (id i n : Z) (s : IncidentStatus) (t : Tables) : Tables :=
  set_statuses (<[id := status_row s i (valueOr (st_CreatedAt s) n) (valueOr (st_ModifiedAt s) n)]>
    (t_status t)) t.

Lemma statuses_of_new t id i n s j :
  (∀ k, is_Some (t_status t !! k) → k < id) →
  statuses_of (with_new_status id i n s t) j
  = statuses_of t j ++ (if decide (i = j) then [stored_status id i n s] else []).
Proof.
  intros Hlt. unfold statuses_of, with_new_status. cbn [t_status set_statuses].
  rewrite rows_insert_last by done. rewrite filterb_app, fmap_app. f_equal. cbn [filterb].
  cbn [snd sr_incident status_row]. case_decide as Hi.
  - by rewrite bool_decide_true.
  - by rewrite bool_decide_false.
Qed.

(** The event an update belongs to. *)
Definition owner (s : IncidentStatus) (fallback : Z) : Z :=
  if st_IncidentID s == 0 then fallback else st_IncidentID s.

Lemma insertIncidentStatus_Ret s fb E w r w' :
  insertIncidentStatus s fb E w = (Ret r, w') →
  let n := now_at E (w_tick w) in
  let id := seq_status (w_seq w) in
  w_tab w' = with_new_status id (owner s fb) n s (w_tab w)
  ∧ w_seq w' = mkSeqs (seq_incident (w_seq w)) (id + 1) (seq_component (w_seq w))
                 (seq_attr (w_seq w)) (seq_outbox (w_seq w))
  ∧ r = (id, st_set_dates (Some (valueOr (st_CreatedAt s) n)) (Some (valueOr (st_ModifiedAt s) n)) s)
  ∧ st_Text s ≠ ""%string ∧ st_Status s ≠ ""%string.
Proof.
  intros H. simpl. unfold insertIncidentStatus in H.
  apply bind_Ret_inv in H as (n & w1 & H1 & H). injection H1 as <- <-.
  apply bind_Ret_inv in H as ([] & w2 & H1 & H). unfold ent_check in H1.
  destruct ((_ != _) && _)%bool eqn:Hok; [|done]. injection H1 as <-.
  apply bind_Ret_inv in H as ([] & w3 & H1 & H). apply stmt_Ret in H1 as [_ ->].
  injection H as <- <-. simpl. bool_facts. split_and!; try done; by bool_facts.
Qed.

(** The entries a list of updates adds to the history of [i]. *)
Definition appended (i : Z) (s st : IncidentStatus) : Prop :=
  st_IncidentID st = i ∧ st_Status st = st_Status s ∧ st_Text st = st_Text s
  ∧ st_Timestamp st = st_Timestamp s ∧ st_CreatedBy st = st_CreatedBy s.

(** Only the update table grows. *)
Definition status_grow (w w' : World) : Prop :=
  t_incident (w_tab w') = t_incident (w_tab w) ∧ t_rel (w_tab w') = t_rel (w_tab w)
  ∧ t_component (w_tab w') = t_component (w_tab w) ∧ t_attr (w_tab w') = t_attr (w_tab w)
  ∧ t_outbox (w_tab w') = t_outbox (w_tab w).

#[global] Instance status_grow_preorder : PreOrder status_grow.
Proof.
  split; [by repeat split|]. intros w1 w2 w3 (? & ? & ? & ? & ?) (? & ? & ? & ? & ?).
  unfold status_grow. split_and!; congruence.
Qed.

Lemma insertNewStatuses_Ret i l : ∀ E w l' w',
  insertNewStatuses i l E w = (Ret l', w') →
  0 < seq_status (w_seq w) → ids_below (t_status (w_tab w)) (seq_status (w_seq w)) →
  (∀ s, s ∈ l → st_ID s = 0 → owner s i = i) →
  status_grow w w'
  ∧ (∃ new, statuses_of (w_tab w') i = statuses_of (w_tab w) i ++ new
       ∧ Forall2 (appended i) (filterb (λ s, st_ID s == 0) l) new)
  ∧ (∀ j, j ≠ i → statuses_of (w_tab w') j = statuses_of (w_tab w) j)
  ∧ seq_incident (w_seq w') = seq_incident (w_seq w).
Proof.
  induction l as [|s l IH]; intros E w l' w' H Hpos Hids Hown; cbn [insertNewStatuses mapM] in H.
  - injection H as <- <-. split_and!; [reflexivity| |done|done].
    exists []. split; [by rewrite app_nil_r|constructor].
  - apply bind_Ret_inv in H as (y & w1 & H1 & H). apply bind_Ret_inv in H as (ys & w2 & H2 & H).
    injection H as <- <-. cbn [filterb].
    assert (∀ s', s' ∈ l → st_ID s' = 0 → owner s' i = i) as Hown' by (intros; apply Hown; [by right|done]).
    destruct (st_ID s == 0) eqn:Hs.
    + apply bool_decide_eq_true in Hs. apply bind_Ret_inv in H1 as (r & w3 & H1 & H3).
      injection H3 as <- <-. apply insertIncidentStatus_Ret in H1 as (Ht & Hseq & _).
      rewrite (Hown s (ltac:(left)) Hs) in Ht.
      assert (status_grow w w3) as Hg by (unfold status_grow; by rewrite Ht).
      assert (∀ k, is_Some (t_status (w_tab w) !! k) → k < seq_status (w_seq w)) as Hlt
        by (intros k Hk; apply Hids in Hk; lia).
      apply IH in H2 as (Hg2 & (new & Hnew & Hall) & Hother & Hsi); [| | |done].
      * split_and!.
        -- by etrans.
        -- eexists (stored_status _ _ _ _ :: new). rewrite Hnew, Ht.
           rewrite statuses_of_new by done. rewrite decide_True by done.
           split; [by rewrite <- app_assoc|]. constructor; [by repeat split|done].
        -- intros j Hj. rewrite Hother by done. rewrite Ht, statuses_of_new by done.
           rewrite decide_False by done. by rewrite app_nil_r.
        -- by rewrite Hsi, Hseq.
      * rewrite Hseq. simpl. lia.
      * rewrite Hseq, Ht. simpl. by apply ids_below_insert.
    + injection H1 as <- <-. by apply IH in H2.
Qed.

(** ** Runs without faults *)

Lemma stmt_free E w : fault_free E →
  stmt E w = (Ret tt, mkWorld (w_tab w) (w_seq w) (w_tick w) (S (w_stmt w)) (w_signal w)).
Proof. intros H. apply stmt_ok, H. Qed.

(** Without faults a transaction ends as its body does. *)
Lemma WithTx_free {A} (m : M A) E w : fault_free E →
  let w0 := mkWorld (w_tab w) (w_seq w) (w_tick w) (S (w_stmt w)) (w_signal w) in
  (WithTx m E w).1 = (m E w0).1.
Proof.
  intros H. simpl. unfold WithTx. rewrite stmt_free by done.
  destruct (m E _) as [[a|e|] w1]; [|done..]. by rewrite stmt_free.
Qed.

Lemma update_incidents_free p f E w : fault_free E →
  update_incidents p f E w
  = (Ret (count_where p (t_incident (w_tab w))),
     mkWorld (set_incidents (update_where p f (t_incident (w_tab w))) (w_tab w)) (w_seq w)
       (w_tick w) (S (w_stmt w)) (w_signal w)).
Proof. intros HE. unfold update_incidents. rewrite bind_run, stmt_free by done. reflexivity. Qed.

(** An update that the schema accepts. *)
Definition status_valid (s : IncidentStatus) : Prop :=
  st_Text s ≠ ""%string ∧ st_Status s ≠ ""%string.

Lemma insertIncidentStatus_free s i E w : fault_free E → status_valid s →
  ∃ r w', insertIncidentStatus s i E w = (Ret r, w').
Proof.
  intros HE [Ht Hs]. unfold insertIncidentStatus. rewrite bind_run. cbn [now reading].
  rewrite bind_run. unfold ent_check. rewrite !bool_decide_false by done. cbn [negb andb].
  rewrite ret_run, bind_run, stmt_free by done. cbv beta iota. eauto.
Qed.

Lemma insertNewStatuses_free i l : ∀ E w, fault_free E →
  (∀ s, s ∈ l → st_ID s = 0 → status_valid s) →
  ∃ l' w', insertNewStatuses i l E w = (Ret l', w').
Proof.
  induction l as [|s l IH]; intros E w HE Hl; cbn [insertNewStatuses mapM]; [by eexists _, _|].
  rewrite bind_run. destruct (st_ID s == 0) eqn:Hs.
  - apply bool_decide_eq_true in Hs.
    destruct (insertIncidentStatus_free s i E w HE) as (r & w1 & H1); [apply Hl; [left|done]|].
    rewrite bind_run, H1. rewrite ret_run. cbv beta iota. rewrite bind_run.
    destruct (IH E w1 HE) as (l' & w2 & H2); [intros; apply Hl; [by right|done]|].
    unfold insertNewStatuses in H2. rewrite H2. by eexists _, _.
  - rewrite ret_run. cbv beta iota. rewrite bind_run.
    destruct (IH E w HE) as (l' & w2 & H2); [intros; apply Hl; [by right|done]|].
    unfold insertNewStatuses in H2. rewrite H2. by eexists _, _.
Qed.

(** ** Modifying an event *)

(** The row a modification selects. *)
Definition modify_matches (inc : Incident) (v : Z) (k : Z) (r : IncidentRow) : bool :=
  bool_decide (k = inc_ID inc)
  && (if inc_Type inc == TypeMaintenance then bool_decide (ir_version r = v) else true).

Definition modified_row (inc : Incident) (v n : Z) (r : IncidentRow) : IncidentRow :=
  set_version_modified (v + 1) n (applyIncidentPatch inc r).

Definition with_modified (inc : Incident) (v n : Z) (t : Tables) : Tables :=
  set_incidents (update_where (modify_matches inc v) (modified_row inc v n) (t_incident t)) t.

Lemma modifyIncident_Ret inc E w inc' w' :
  modifyIncident inc E w = (Ret inc', w') →
  ∃ v w1 l, inc_Version inc = Some v ∧ patch_valid inc = true
    ∧ w_tab w1 = with_modified inc v (now_at E (w_tick w)) (w_tab w) ∧ w_seq w1 = w_seq w
    ∧ (inc_Type inc = TypeMaintenance →
       ∃ r, t_incident (w_tab w) !! inc_ID inc = Some r ∧ ir_version r = v)
    ∧ insertNewStatuses (inc_ID inc) (inc_Statuses inc) E w1 = (Ret l, w')
    ∧ inc' = set_Statuses (set_Version inc (Some (v + 1))) l.
Proof.
  unfold modifyIncident. destruct (inc_Version inc) as [v|]; [|done]. intros H.
  apply bind_Ret_inv in H as (n & w1 & H1 & H). injection H1 as <- <-.
  apply bind_Ret_inv in H as ([] & w2 & H1 & H). unfold ent_check in H1.
  destruct (patch_valid inc) eqn:Hv; [|done]. injection H1 as <-.
  apply bind_Ret_inv in H as (aff & w3 & H1 & H). unfold update_incidents in H1.
  apply bind_Ret_inv in H1 as ([] & w4 & H2 & H1). apply stmt_Ret in H2 as [_ ->].
  injection H1 as <- <-. cbn [w_tab w_seq w_tick] in *.
  destruct (_ && _)%bool eqn:Hconf; [done|].
  apply bind_Ret_inv in H as (l & w5 & H1 & H). injection H as <- <-.
  exists v. eexists _, l. split_and!; [done|done| | | |exact H1|done]; [done|done|].
  intros Hty. rewrite bool_decide_true in Hconf by done. simpl in Hconf. bool_facts.
  rewrite count_where_zero in Hconf.
  destruct (t_incident (w_tab w) !! inc_ID inc) as [r|] eqn:Hr.
  - exists r. split; [done|]. destruct (decide (ir_version r = v)) as [|Hne]; [done|]. exfalso.
    apply Hconf. intros k x Hk. destruct (decide (k = inc_ID inc)) as [->|Hne'].
    + rewrite Hr in Hk. injection Hk as <-.
      rewrite (bool_decide_false (ir_version r = v)) by done.
      apply andb_false_r.
    + by rewrite bool_decide_false.
  - exfalso. apply Hconf. intros k x Hk. rewrite bool_decide_false; [done|]. intros ->. congruence.
Qed.

Lemma modify_matches_none inc v t :
  (∀ r, t_incident t !! inc_ID inc = Some r → inc_Type inc = TypeMaintenance ∧ ir_version r ≠ v) →
  ∀ k r, t_incident t !! k = Some r → modify_matches inc v k r = false.
Proof.
  intros H k r Hk. unfold modify_matches. destruct (decide (k = inc_ID inc)) as [->|Hne].
  - destruct (H r Hk) as [-> Hv]. rewrite (bool_decide_true (TypeMaintenance = _)) by done.
    rewrite (bool_decide_false (ir_version r = v)) by done. apply andb_false_r.
  - by rewrite bool_decide_false.
Qed.

(** Without faults a stale version is refused. *)
Lemma modifyIncident_conflict inc v E w : fault_free E →
  inc_Version inc = Some v → inc_Type inc = TypeMaintenance → patch_valid inc = true →
  (∀ r, t_incident (w_tab w) !! inc_ID inc = Some r → ir_version r ≠ v) →
  (modifyIncident inc E w).1 = Fail (EDb ErrDBVersionConflict).
Proof.
  intros HE Hv Hty Hval Hno. unfold modifyIncident. rewrite Hv. rewrite bind_run. cbn [now reading].
  rewrite bind_run. unfold ent_check. rewrite Hval, ret_run. rewrite bind_run.
  rewrite update_incidents_free by done. cbn [w_tab].
  match goal with |- context [count_where ?p ?m =? 0] => assert (count_where p m = 0) as -> end.
  - apply count_where_zero. intros k r Hk.
    exact (modify_matches_none inc v (w_tab w) (λ r Hr, conj Hty (Hno r Hr)) k r Hk).
  - by rewrite bool_decide_true.
Qed.

(** Without faults a current version is accepted. *)
Lemma modifyIncident_free inc v r E w : fault_free E →
  inc_Version inc = Some v → patch_valid inc = true →
  t_incident (w_tab w) !! inc_ID inc = Some r →
  (inc_Type inc = TypeMaintenance → ir_version r = v) →
  (∀ s, s ∈ inc_Statuses inc → st_ID s = 0 → status_valid s) →
  ∃ inc' w', modifyIncident inc E w = (Ret inc', w').
Proof.
  intros HE Hv Hval Hr Hver Hst. unfold modifyIncident. rewrite Hv. rewrite bind_run. cbn [now reading].
  rewrite bind_run. unfold ent_check. rewrite Hval, ret_run. rewrite bind_run.
  rewrite update_incidents_free by done. cbn [w_tab].
  match goal with |- context [count_where ?p ?m =? 0] => assert (count_where p m =? 0 = false) as -> end.
  { apply Z.eqb_neq. rewrite count_where_zero. intros Hz. specialize (Hz _ _ Hr).
    rewrite bool_decide_true in Hz by done. simpl in Hz.
    destruct (inc_Type inc == TypeMaintenance) eqn:Hty; [|done]. apply bool_decide_eq_true in Hty.
    by rewrite bool_decide_true in Hz by auto. }
  rewrite andb_false_r, bind_run.
  match goal with |- context [insertNewStatuses ?i ?l E ?w0] =>
    destruct (insertNewStatuses_free i l E w0 HE Hst) as (l' & w' & ->) end.
  by eexists _, _.
Qed.

(** ** Saving a new event *)

(** The row a new event is stored as. *)
Definition saved_row (inc : Incident) (text : string) (n : Z) : IncidentRow :=
  mkIncidentRow text (inc_Description inc) (valueOr (inc_StartDate inc) n)
    (inc_EndDate inc) (valueOr (inc_Impact inc) 0) (inc_System inc) (inc_Type inc)
    (if inc_Status inc == ""%string then None else Some (inc_Status inc))
    (Some (valueOr (inc_CreatedAt inc) n)) (Some (valueOr (inc_ModifiedAt inc) n)) None
    (inc_CreatedBy inc) (inc_ContactEmail inc) (valueOr (inc_Version inc) 1).

(** Which components an event is attached to. *)
Definition attached (w : World) (i : Z) (ids : list Z) : Prop :=
  ∀ c, (i, c) ∈ t_rel (w_tab w) ↔ c ∈ ids.

(** The relation rows of every other event are left alone. *)
Definition rel_frame (i : Z) (w w' : World) : Prop :=
  ∀ j c, j ≠ i → (j, c) ∈ t_rel (w_tab w') ↔ (j, c) ∈ t_rel (w_tab w).

Lemma SaveIncidentTx_Ret inc E w inc' w' :
  SaveIncidentTx inc E w = (Ret inc', w') → wf w →
  (∀ s, s ∈ inc_Statuses inc → st_ID s = 0 → st_IncidentID s = 0) →
  let n := now_at E (w_tick w) in
  let id := seq_incident (w_seq w) in
  ∃ text new, inc_Text inc = Some text ∧ text ≠ ""%string ∧ valid_type (inc_Type inc) = true
    ∧ t_incident (w_tab w) !! id = None
    ∧ t_incident (w_tab w') = <[id := saved_row inc text n]> (t_incident (w_tab w))
    ∧ attached w' id (nonzero_ids (inc_Components inc)) ∧ rel_frame id w w'
    ∧ t_component (w_tab w') = t_component (w_tab w)
    ∧ statuses_of (w_tab w') id = statuses_of (w_tab w) id ++ new
    ∧ Forall2 (appended id) (filterb (λ s, st_ID s == 0) (inc_Statuses inc)) new
    ∧ inc_ID inc' = id ∧ inc_Components inc' = inc_Components inc ∧ inc_Text inc' = Some text
    ∧ inc_Version inc' = Some (valueOr (inc_Version inc) 1)
    ∧ (inc_Statuses inc = [] → inc_Statuses inc' = []).
Proof.
  intros H Hwf Hst. simpl. unfold SaveIncidentTx in H.
  destruct (inc_Text inc) as [text|] eqn:Htext; [|done].
  destruct (decide (text = ""%string)) as [->|Hne]; [done|].
  destruct text as [|ch text'] eqn:Hteq; [done|]. rewrite <- Hteq in *. clear Hteq ch text'.
  apply bind_Ret_inv in H as (n & w1 & H1 & H). injection H1 as <- <-.
  apply bind_Ret_inv in H as ([] & w2 & H1 & H). unfold ent_check in H1.
  destruct (valid_type (inc_Type inc)) eqn:Hv; [|done]. injection H1 as <-.
  apply bind_Ret_inv in H as ([] & w3 & H1 & H). apply stmt_Ret in H1 as [_ ->].
  apply bind_Ret_inv in H as (id & w4 & H1 & H). injection H1 as <- <-.
  apply bind_Ret_inv in H as (t & w5 & H1 & H). injection H1 as <- <-.
  apply bind_Ret_inv in H as ([] & w6 & H1 & H). cbn [w_tab w_seq w_tick w_stmt w_signal] in *.
  destruct (forallb _ _) eqn:Hfk; [|done]. injection H1 as <-.
  fold (saved_row inc text (now_at E (w_tick w))) in H.
  set (id := seq_incident (w_seq w)) in *. set (row := saved_row _ _ _) in *.
  apply bind_Ret_inv in H as (l & w7 & H1 & H). injection H as <- <-.
  assert (inc_Statuses inc = [] → l = []) as Hnil.
  { cbn in H1. intros Hnil. rewrite Hnil in H1. by injection H1 as <- <-. }
  destruct Hwf.
  apply insertNewStatuses_Ret in H1 as ((Hi & Hr & Hc & _) & (new & Hnew & Hall) & _ & _); simpl in *;
    [|lia|done|].
  2:{ intros s Hs H0. unfold owner. rewrite bool_decide_true; [done|]. by apply Hst. }
  assert (t_incident (w_tab w) !! id = None) as Hid by (by eapply ids_below_fresh).
  exists text, new. split_and!; try done.
  - intros c. rewrite Hr, elem_of_union, elem_of_list_to_set, list_elem_of_fmap. split.
    + intros [Hin|(c' & [= ->] & ?)]; [|done].
      match goal with Hfk : ∀ i c, (i, c) ∈ _ → _ |- _ => destruct (Hfk _ _ Hin) as [[? ?] _] end.
      congruence.
    + intros Hin. right. eauto.
  - intros j c Hj. rewrite Hr, elem_of_union, elem_of_list_to_set, list_elem_of_fmap.
    split; [intros [?|(c' & [= -> ->] & ?)]; done|by left].
Qed.

(** The struct the caller holds after the insert. *)
Lemma SaveIncidentTx_struct inc E w inc' w' :
  SaveIncidentTx inc E w = (Ret inc', w') →
  ∃ cr md l, inc' = set_Statuses (set_Version (set_ID (set_ModifiedAt (set_CreatedAt inc (Some cr))
    (Some md)) (seq_incident (w_seq w))) (Some (valueOr (inc_Version inc) 1))) l.
Proof.
  unfold SaveIncidentTx. destruct (inc_Text inc) as [[|ch text]|]; [done| |done]. intros H.
  run_inv H. injection H as <- _.
  repeat match goal with
  | Hr : now _ _ = _ |- _ => injection Hr as <- <-
  | Hr : next_incident_id _ _ = _ |- _ => injection Hr as <- <-
  | Hr : get_tab _ _ = _ |- _ => injection Hr as <- <-
  | Hr : stmt _ _ = _ |- _ => destruct a1; apply stmt_Ret in Hr as [_ ->]
  | Hr : ent_check ?b _ _ = _ |- _ => unfold ent_check in Hr; destruct b; [injection Hr as <- <-|done]
  end.
  eauto.
Qed.

(** ** Full saves *)

Lemma update_incident_edges_Ret id rm add E w u w' :
  update_incident_edges id rm add E w = (Ret u, w') →
  is_Some (t_incident (w_tab w) !! id)
  ∧ (∀ c, c ∈ add → is_Some (t_component (w_tab w) !! c))
  ∧ w' = mkWorld (set_rel ((t_rel (w_tab w) ∖ list_to_set (pair id <$> rm))
            ∪ list_to_set (pair id <$> add)) (w_tab w)) (w_seq w) (w_tick w) (S (w_stmt w)) (w_signal w).
Proof.
  unfold update_incident_edges. intros H. apply bind_Ret_inv in H as ([] & w1 & H1 & H).
  apply stmt_Ret in H1 as [_ ->]. rewrite bind_run in H. cbn [get_tab w_tab] in H.
  destruct (t_incident (w_tab w) !! id) as [r|] eqn:Hr; [|done].
  destruct (forallb _ _) eqn:Hfk; [|done]. injection H as <- <-. split; [eauto|]. split; [|done].
  intros c Hc. rewrite forallb_true_iff in Hfk. specialize (Hfk c Hc).
  by apply bool_decide_eq_true in Hfk.
Qed.

Lemma elem_of_edges (rel : gset (Z * Z)) id rm add j c :
  (j, c) ∈ (rel ∖ list_to_set (pair id <$> rm)) ∪ list_to_set (pair id <$> add)
  ↔ ((j, c) ∈ rel ∧ ¬ (j = id ∧ c ∈ rm)) ∨ (j = id ∧ c ∈ add).
Proof.
  rewrite elem_of_union, elem_of_difference, !elem_of_list_to_set, !list_elem_of_fmap.
  split.
  - intros [[? Hn]|(x & [= -> ->] & ?)]; [left|right; done]. split; [done|].
    intros [-> ?]. apply Hn. eauto.
  - intros [[? Hn]|[-> ?]]; [left|right; eauto]. split; [done|].
    intros (x & [= -> ->] & ?). by apply Hn.
Qed.

(** Only the relation of event [i] changes. *)
Definition rel_only (i : Z) (w w' : World) : Prop :=
  t_incident (w_tab w') = t_incident (w_tab w) ∧ t_status (w_tab w') = t_status (w_tab w)
  ∧ t_component (w_tab w') = t_component (w_tab w) ∧ t_attr (w_tab w') = t_attr (w_tab w)
  ∧ t_outbox (w_tab w') = t_outbox (w_tab w) ∧ w_seq w' = w_seq w ∧ rel_frame i w w'.

Lemma elem_of_stored_components w i c : wf w →
  c ∈ stored_components (w_tab w) i ↔ (i, c) ∈ t_rel (w_tab w).
Proof.
  intros []. unfold stored_components. rewrite elem_of_filterb, bool_decide_eq_true. split.
  - by intros [_ ?].
  - intros Hic. split; [|done].
    match goal with Hfk : ∀ i c, (i, c) ∈ _ → _ |- _ => destruct (Hfk _ _ Hic) as [_ [x Hx]] end.
    apply list_elem_of_fmap. exists (c, x). by rewrite elem_of_rows.
Qed.

(** Reconciling makes the stored relation exactly the components of the struct. *)
Lemma reconcile_Ret inc E w u w' :
  reconcileIncidentComponents inc E w = (Ret u, w') → wf w →
  attached w' (inc_ID inc) (nonzero_ids (inc_Components inc)) ∧ rel_only (inc_ID inc) w w'.
Proof.
  intros H Hwf. unfold reconcileIncidentComponents in H.
  apply bind_Ret_inv in H as (cur & w1 & H1 & H). apply select_Ret in H1 as (-> & -> & _).
  set (want := nonzero_ids _) in *. set (cur := stored_components _ _) in *.
  set (extra := filterb _ cur) in *. set (miss := filterb _ want) in *.
  assert (∀ c, c ∈ cur ↔ (inc_ID inc, c) ∈ t_rel (w_tab w)) as Hcur
    by (intros; by apply elem_of_stored_components).
  assert (∀ c, c ∈ extra ↔ c ∈ cur ∧ c ∉ want) as Hex
    by (intros; unfold extra; by rewrite elem_of_filterb, bool_decide_eq_true).
  assert (∀ c, c ∈ miss ↔ c ∈ want ∧ c ∉ cur) as Hmi
    by (intros; unfold miss; by rewrite elem_of_filterb, bool_decide_eq_true).
  assert ((w_tab w' = w_tab w ∧ w_seq w' = w_seq w ∧ extra = [] ∧ miss = []) ∨
    ∃ w0 u, update_incident_edges (inc_ID inc) extra miss E w0 = (Ret u, w')
      ∧ w_tab w0 = w_tab w ∧ w_seq w0 = w_seq w) as [(Ht & Hs & He & Hm)|(w0 & u' & H1 & Ht0 & Hs0)].
  { destruct extra, miss; [left; by injection H as <- <-|right; by eexists _, _..]. }
  - split.
    + intros c. rewrite Ht, <- Hcur. destruct (decide (c ∈ cur)) as [Hc|Hc].
      * split; [intros _|done]. destruct (decide (c ∈ want)); [done|].
        assert (c ∈ extra) as Hbad by (by apply Hex). rewrite He in Hbad. inversion Hbad.
      * split; [done|]. intros Hw. assert (c ∈ miss) as Hbad by (by apply Hmi).
        rewrite Hm in Hbad. inversion Hbad.
    + unfold rel_only, rel_frame. by rewrite Ht, Hs.
  - apply update_incident_edges_Ret in H1 as (_ & _ & ->). simpl. rewrite Ht0, Hs0. split.
    + intros c. simpl. rewrite elem_of_edges, <- Hcur, Hex, Hmi.
      destruct (decide (c ∈ cur)), (decide (c ∈ want)); naive_solver.
    + split_and!; try done. intros j c Hj. simpl. rewrite elem_of_edges. naive_solver.
Qed.

Lemma respects_wf {A} (m : M A) `{!Respects db_step m} E w o w' : m E w = (o, w') → wf w → wf w'.
Proof. intros H Hw. by destruct (respects E w o w' H) as [_ [? _]]. Qed.

(** A full save: the row is rewritten, the relation is exactly the struct's components,
    and the new updates are appended. *)
Lemma saveIncidentFull_Ret inc E w inc' w' :
  saveIncidentFull inc E w = (Ret inc', w') → wf w →
  (∀ s, s ∈ inc_Statuses inc → st_ID s = 0 → owner s (inc_ID inc) = inc_ID inc) →
  let i := inc_ID inc in
  ∃ text start r n createdAt new, inc_Text inc = Some text ∧ inc_StartDate inc = Some start
    ∧ t_incident (w_tab w) !! i = Some r
    ∧ t_incident (w_tab w') = <[i := full_row inc text start createdAt n r]> (t_incident (w_tab w))
    ∧ attached w' i (nonzero_ids (inc_Components inc)) ∧ rel_frame i w w'
    ∧ t_component (w_tab w') = t_component (w_tab w)
    ∧ statuses_of (w_tab w') i = statuses_of (w_tab w) i ++ new
    ∧ Forall2 (appended i) (filterb (λ s, st_ID s == 0) (inc_Statuses inc)) new
    ∧ (∀ j, j ≠ i → statuses_of (w_tab w') j = statuses_of (w_tab w) j)
    ∧ inc_ID inc' = i ∧ inc_Components inc' = inc_Components inc.
Proof.
  intros H Hwf Hown. simpl. unfold saveIncidentFull in H.
  destruct (inc_Text inc) as [[|c text]|] eqn:Htext; [done| |done].
  destruct (inc_StartDate inc) as [start|] eqn:Hstart; [|done].
  apply bind_Ret_inv in H as (n & w1 & H1 & H). injection H1 as <- <-.
  apply bind_Ret_inv in H as ([] & w2 & H1 & H). unfold ent_check in H1.
  destruct (valid_type (inc_Type inc)) eqn:Hv; [|done]. injection H1 as <-.
  set (w0 := mkWorld _ _ _ _ _) in H. set (n := now_at E (w_tick w)) in *.
  set (createdAt := valueOr (inc_CreatedAt inc) n) in *.
  set (inc1 := set_ModifiedAt _ _) in *.
  apply bind_Ret_inv in H as ([] & w3 & H1 & H).
  assert (Respects db_step (update_incident_one (inc_ID inc) (full_row inc1 (String c text) start createdAt n)))
    as Hstep by (apply respects_update_incident_one; intros r _; by split).
  assert (wf w3) as Hwf3 by (eapply (respects_wf _ _ _ _ _ H1); by apply (wf_same w)). clear Hstep.
  unfold update_incident_one in H1. apply bind_Ret_inv in H1 as ([] & w4 & H2 & H1).
  apply stmt_Ret in H2 as [_ ->]. rewrite bind_run in H1. cbn [get_tab w_tab w0] in H1.
  destruct (t_incident (w_tab w) !! inc_ID inc) as [r|] eqn:Hr; [|done].
  injection H1 as <-.
  apply bind_Ret_inv in H as ([] & w5 & H1 & H).
  assert (wf w5) as Hwf5 by (by eapply (respects_wf _ _ _ _ _ H1)).
  apply reconcile_Ret in H1 as [Hatt (Hi & Hs & Hc & _ & _ & Hseq & Hrf)]; [|done].
  unfold insertNewIncidentStatuses in H. apply bind_Ret_inv in H as (l & w6 & H1 & H).
  injection H as <- <-. destruct Hwf5.
  apply insertNewStatuses_Ret in H1 as ((Hi6 & Hr6 & Hc6 & _) & (new & Hnew & Hall) & Hoth & _);
    [|lia|done|done].
  assert (∀ j, statuses_of (w_tab w5) j = statuses_of (w_tab w) j) as Hst5
    by (intros j; unfold statuses_of; by rewrite Hs).
  change (inc_ID inc1) with (inc_ID inc) in *.
  exists (String c text), start, r, n, createdAt, new. split_and!; try done.
  - by rewrite Hi6, Hi.
  - intros x. rewrite Hr6. apply Hatt.
  - intros j x Hj. rewrite Hr6. by apply Hrf.
  - by rewrite Hc6, Hc.
  - by rewrite Hnew, Hst5.
  - intros j Hj. by rewrite Hoth, Hst5.
Qed.

(** ** Moving components *)

Lemma nonzero_ids_app l k : nonzero_ids (l ++ k) = nonzero_ids l ++ nonzero_ids k.
Proof. unfold nonzero_ids. by rewrite fmap_app, filterb_app. Qed.

Lemma elem_of_nonzero_ids l c : c ∈ nonzero_ids l ↔ c ≠ 0 ∧ ∃ x, x ∈ l ∧ comp_ID x = c.
Proof.
  unfold nonzero_ids. rewrite elem_of_filterb, list_elem_of_fmap, negb_true_iff, bool_decide_eq_false.
  naive_solver.
Qed.

Lemma elem_of_dropped inc c x :
  x ∈ nonzero_ids (inc_Components (dropIncidentComponent inc c))
  ↔ x ≠ c ∧ x ∈ nonzero_ids (inc_Components inc).
Proof.
  rewrite !elem_of_nonzero_ids. simpl. setoid_rewrite elem_of_filterb.
  setoid_rewrite negb_true_iff. setoid_rewrite bool_decide_eq_false. naive_solver.
Qed.

(** The updates of an event loaded from the store carry ids of stored rows; the new
    ones name the event. *)
Definition updates_owned (inc : Incident) : Prop :=
  ∀ s, s ∈ inc_Statuses inc → st_ID s = 0 → owner s (inc_ID inc) = inc_ID inc.

Lemma owner_new i s text ts by_ : owner (newStatus i s text ts by_) i = i.
Proof. unfold owner. simpl. case_bool_decide; done. Qed.

Lemma updates_owned_add inc l :
  updates_owned inc → (∀ s, s ∈ l → owner s (inc_ID inc) = inc_ID inc) →
  updates_owned (set_Statuses inc (inc_Statuses inc ++ l)).
Proof. intros H Hl s [Hs|Hs]%elem_of_app H0; [by apply H|by apply Hl]. Qed.

Lemma GetComponent_Ret id E w c w' :
  GetComponent id E w = (Ret c, w') → comp_ID c = id ∧ w_tab w' = w_tab w ∧ w_seq w' = w_seq w.
Proof.
  unfold GetComponent. intros H. apply bind_Ret_inv in H as (r & w1 & H1 & H).
  apply select_Ret in H1 as (-> & -> & _). destruct (t_component _ !! id); [|done].
  by injection H as <- <-.
Qed.

Lemma attached_ext w i l k : (∀ c, c ∈ l ↔ c ∈ k) → attached w i l → attached w i k.
Proof. intros H Hl c. rewrite <- (H c). apply Hl. Qed.

Lemma attached_frame i j l w w' : i ≠ j → rel_frame j w w' → attached w i l → attached w' i l.
Proof. intros Hij Hf Hl c. rewrite (Hf i c Hij). apply Hl. Qed.

(** Two full saves of different events, one after the other. *)
Lemma saveFull_two a b E w a' b' w' :
  (x ← saveIncidentFull a; y ← saveIncidentFull b; mret (x, y)) E w = (Ret (a', b'), w') →
  wf w → updates_owned a → updates_owned b → inc_ID a ≠ inc_ID b →
  attached w' (inc_ID a) (nonzero_ids (inc_Components a))
  ∧ attached w' (inc_ID b) (nonzero_ids (inc_Components b))
  ∧ (∃ r, t_incident (w_tab w') !! inc_ID b = Some r ∧ ir_status r = Some (inc_Status b)
        ∧ ir_end r = inc_EndDate b)
  ∧ inc_ID a' = inc_ID a ∧ inc_ID b' = inc_ID b.
Proof.
  intros H Hwf Ha Hb Hne. apply bind_Ret_inv in H as (x & w1 & H1 & H).
  apply bind_Ret_inv in H as (y & w2 & H2 & H). injection H as <- <- <-.
  pose proof (respects_wf _ _ _ _ _ H1 Hwf) as Hwf1.
  apply saveIncidentFull_Ret in H1 as (_ & _ & _ & _ & _ & _ & _ & _ & _ & _ & Hatt & _ & _ & _ & _ & _ & Hid & _);
    [|done|done].
  apply saveIncidentFull_Ret in H2 as (text & start & r & n & ca & _ & _ & _ & Hr & Hi & Hatt2 & Hf & _ & _ & _ & _ & Hid2 & _);
    [|done|done].
  split_and!; [by eapply attached_frame|done| |done|done].
  rewrite Hi, lookup_insert_eq. eexists. split; [done|]. by split.
Qed.

Lemma Move_Ret c old new close E w new' old' w' :
  MoveComponentFromOldToAnotherIncident c old new close E w = (Ret (new', old'), w') →
  wf w → updates_owned old → updates_owned new → inc_ID old ≠ inc_ID new → comp_ID c ≠ 0 →
  attached w' (inc_ID new) (nonzero_ids (inc_Components new) ++ [comp_ID c])
  ∧ attached w' (inc_ID old)
      (if close then nonzero_ids (inc_Components old)
       else filterb (λ x, x != comp_ID c) (nonzero_ids (inc_Components old)))
  ∧ ∃ r, t_incident (w_tab w') !! inc_ID old = Some r
      ∧ ir_status r = Some (if close then IncidentResolved else inc_Status old)
      ∧ ir_end r = (if close then Some (now_at E (w_tick w)) else inc_EndDate old).
Proof.
  intros H Hwf Hold Hnew Hne Hc. unfold MoveComponentFromOldToAnotherIncident in H.
  apply bind_Ret_inv in H as (tn & w1 & H1 & H). injection H1 as <- <-.
  set (w0 := mkWorld _ _ _ _ _) in H.
  apply bind_Ret_inv in H as (comp & w2 & H1 & H).
  assert (comp_ID comp = comp_ID c ∧ w_tab w2 = w_tab w ∧ w_seq w2 = w_seq w) as (Hid & Ht2 & Hs2).
  { destruct (comp_Name c == _); [by apply GetComponent_Ret in H1|by injection H1 as <- <-]. }
  assert (wf w2) as Hwf2 by (apply (wf_same w); [done|by rewrite Hs2|done]). clear H1.
  apply bind_Ret_inv in H as (lo & w3 & H1 & H). apply deref_Ret in H1 as [_ ->].
  apply bind_Ret_inv in H as (ln & w3 & H1 & H). apply deref_Ret in H1 as [_ ->].
  apply WithTx_Ret in H as (w3 & w4 & Ht3 & Hs3 & _ & _ & _ & H & Ht4 & _).
  assert (wf w3) as Hwf3 by (apply (wf_same w2); [done|by rewrite Hs3|done]).
  apply bind_Ret_inv in H as (old4 & w5 & H1 & H).
  set (old3 := if close then set_EndDate _ _ else _) in H1.
  assert (wf w5 ∧ old4 = if close then old3 else dropIncidentComponent old3 (comp_ID c)) as [Hwf5 ->].
  { rewrite Hid in H1. destruct close; cbn [negb andb] in H1; [by injection H1 as <- <-|].
    rewrite bool_decide_false in H1 by done. cbn [negb] in H1.
    apply bind_Ret_inv in H1 as ([] & w6 & H1 & H2). injection H2 as <- <-. split; [|done].
    by eapply (respects_wf _ _ _ _ _ H1). }
  assert (inc_ID old3 = inc_ID old ∧ inc_Components old3 = inc_Components old) as [Hoid Hocomp]
    by (by destruct close).
  apply saveFull_two in H as (Hatt1 & Hatt2 & (r & Hr & Hrs & Hre) & _ & _); [|done| | |].
  - split_and!.
    + intros x. rewrite Ht4. rewrite (Hatt1 x).
      cbn [inc_Components add_Status set_Statuses set_Components].
      rewrite nonzero_ids_app, !elem_of_app. unfold nonzero_ids at 2. cbn.
      rewrite Hid, bool_decide_false by done. done.
    + intros x. rewrite Ht4.
      replace (inc_ID old) with (inc_ID (if close then old3 else dropIncidentComponent old3 (comp_ID c)))
        by (by destruct close).
      rewrite (Hatt2 x). destruct close; [done|]. rewrite elem_of_dropped, elem_of_filterb, Hocomp.
      rewrite negb_true_iff, bool_decide_eq_false. tauto.
    + exists r. rewrite Ht4. destruct close; by split_and!.
  - intros s Hs H0. cbn in Hs. apply elem_of_app in Hs as [Hs|Hs]; [by apply Hnew|].
    apply list_elem_of_singleton in Hs as ->. apply owner_new.
  - assert (updates_owned old3) as Ho3; [|by destruct close].
    intros s Hs H0. rewrite Hoid.
    assert (s ∈ inc_Statuses old ++ [newStatus (inc_ID old) (if close then IncidentResolved else OutDatedSystem)
      (if close then (PrintAttrs comp +:+ " moved to " +:+ ln) +:+ ", Incident closed by system"
       else PrintAttrs comp +:+ " moved to " +:+ ln) (now_at E (w_tick w)) None]) as Hs'
      by (by destruct close).
    apply elem_of_app in Hs' as [Hs'|Hs']; [by apply Hold|].
    apply list_elem_of_singleton in Hs' as ->. apply owner_new.
  - by destruct close.
Qed.

Lemma removeComponents_Ret comp : ∀ old E w old' w',
  removeComponents old comp E w = (Ret old', w') →
  inc_ID old' = inc_ID old ∧ inc_Statuses old' = inc_Statuses old
  ∧ (∀ x, x ∈ nonzero_ids (inc_Components old')
          ↔ x ∈ nonzero_ids (inc_Components old) ∧ x ∉ nonzero_ids comp).
Proof.
  induction comp as [|c comp IH]; intros old E w old' w' H; cbn [removeComponents foldM] in H.
  - injection H as <- <-. split_and!; [done|done|]. intros x. split; [|by intros [? _]].
    intros Hx. split; [done|]. intros Hn. inversion Hn.
  - apply bind_Ret_inv in H as (old1 & w1 & H1 & H). apply IH in H as (Hid & Hst & Hx).
    assert (inc_ID old1 = inc_ID old ∧ inc_Statuses old1 = inc_Statuses old
      ∧ ∀ x, x ∈ nonzero_ids (inc_Components old1)
             ↔ x ∈ nonzero_ids (inc_Components old) ∧ x ∉ nonzero_ids [c]) as (Hid1 & Hst1 & Hx1).
    { destruct (comp_ID c == 0) eqn:Hc.
      - injection H1 as <- <-. apply bool_decide_eq_true in Hc. split_and!; [done|done|].
        intros x. rewrite (elem_of_nonzero_ids [c]). split; [|by intros [? _]]. intros H.
        split; [done|]. intros (? & y & ->%list_elem_of_singleton & <-). done.
      - apply bind_Ret_inv in H1 as (u & w2 & _ & H1). injection H1 as <- <-.
        apply bool_decide_eq_false in Hc. split_and!; [done|done|].
        intros x. rewrite elem_of_dropped, (elem_of_nonzero_ids [c]). split.
        + intros [Hne H]. split; [done|]. by intros (? & y & ->%list_elem_of_singleton & <-).
        + intros [H Hn]. split; [|done]. intros ->. apply Hn. split; [done|]. exists c.
          split; [apply list_elem_of_singleton; done|done]. }
    split_and!; [congruence|congruence|]. intros x. rewrite Hx, Hx1.
    change (c :: comp) with ([c] ++ comp). rewrite nonzero_ids_app, elem_of_app. tauto.
Qed.

Lemma move_texts_owned verb lk i ts comp s : s ∈ move_texts verb lk i ts comp → owner s i = i.
Proof. intros (c & -> & _)%list_elem_of_fmap. apply owner_new. Qed.

Lemma Extract_Ret comp old impact text desc E w new' old' w' :
  ExtractComponentsToNewIncident comp old impact text desc E w = (Ret (new', old'), w') →
  wf w → updates_owned old → is_Some (t_incident (w_tab w) !! inc_ID old) →
  inc_ID new' = seq_incident (w_seq w)
  ∧ t_incident (w_tab w) !! inc_ID new' = None
  ∧ attached w' (inc_ID new') (nonzero_ids comp)
  ∧ attached w' (inc_ID old)
      (filterb (λ x, bool_decide (x ∉ nonzero_ids comp)) (nonzero_ids (inc_Components old))).
Proof.
  intros H Hwf Hold [ro Hro]. unfold ExtractComponentsToNewIncident in H.
  destruct comp as [|c0 comp'] eqn:Hcomp; [done|]. rewrite <- Hcomp in *. clear Hcomp c0 comp'.
  apply bind_Ret_inv in H as (tn & w1 & H1 & H). injection H1 as <- <-.
  set (w0 := mkWorld _ _ _ _ _) in H.
  assert (wf w0) as Hwf0 by (by apply (wf_same w)).
  apply bind_Ret_inv in H as (inc1 & w2 & H1 & H). unfold SaveIncident in H1.
  pose proof (respects_wf _ _ _ _ _ H1 Hwf0) as Hwf2.
  apply SaveIncidentTx_Ret in H1 as (txt & nw & Htxt & _ & _ & Hfresh & Hi & _ & _ & _ & _ & _ & Hid1 & Hc1 & _ & _ & Hsnil);
    [|done|by intros s Hs; inversion Hs].
  cbn in Hfresh, Hid1, Hc1.
  apply bind_Ret_inv in H as (lo & w3 & H1 & H). apply deref_Ret in H1 as [_ ->].
  apply bind_Ret_inv in H as (ln & w3 & H1 & H). apply deref_Ret in H1 as [_ ->].
  apply WithTx_Ret in H as (w3 & w4 & Ht3 & Hs3 & _ & _ & _ & H & Ht4 & _).
  assert (wf w3) as Hwf3 by (apply (wf_same w2); [done|by rewrite Hs3|done]).
  apply bind_Ret_inv in H as (old2 & w5 & H1 & H).
  pose proof (respects_wf _ _ _ _ _ H1 Hwf3) as Hwf5.
  apply removeComponents_Ret in H1 as (Hoid & Host & Hox). cbn in Hoid, Host.
  specialize (Hsnil eq_refl).
  assert (inc_ID old ≠ inc_ID inc1) as Hne by (rewrite Hid1; congruence).
  apply saveFull_two in H as (Hatt1 & Hatt2 & _ & Hid & _); [|done| | |].
  - cbn in Hid, Hatt1. rewrite Hid, Hid1. rewrite Hoid in Hatt2. split_and!; [done|done| |].
    + intros x. rewrite Ht4, <- Hid1, (Hatt1 x), Hc1. done.
    + intros x. rewrite Ht4, (Hatt2 x), Hox, elem_of_filterb, bool_decide_eq_true. done.
  - intros s Hs _. cbn in Hs. rewrite Hsnil in Hs. by apply move_texts_owned in Hs.
  - intros s Hs H0. rewrite Host in Hs. rewrite Hoid.
    apply elem_of_app in Hs as [Hs|Hs]; [by apply Hold|by apply move_texts_owned in Hs].
  - cbn. rewrite Hoid. congruence.
Qed.

(** Without faults a stored event can be read. *)
Lemma GetIncident_free id r E w : fault_free E → t_incident (w_tab w) !! id = Some r →
  ∃ w', GetIncident id E w = (Ret (event_of (w_tab w) (id, r)), w').
Proof.
  intros HE Hr. destruct (GetIncident id E w) as [o w'] eqn:H. exists w'.
  assert (∃ inc, o = Ret inc) as [inc ->].
  { unfold GetIncident in H. rewrite bind_run, select_run in H. rewrite HE, Hr in H. simpl in H.
    rewrite bind_run in H. unfold statusesByIncident in H. cbn [chunks chunks_fuel length foldM] in H.
    rewrite !bind_run, select_run in H. rewrite HE in H. injection H as <- <-. eauto. }
  destruct (GetIncident_Ret _ _ _ _ _ H) as (r' & Hr' & -> & _). congruence.
Qed.

(** ** All or nothing *)

(** A run that does not return leaves the tables as it found them. *)
Class Atomic {A} (m : M A) : Prop :=
  atomic : ∀ E w o w', m E w = (o, w') → (∀ a, o ≠ Ret a) → w_tab w' = w_tab w.

Lemma atomic_read_only {A} (m : M A) : ReadOnly m → Atomic m.
Proof. intros Hm E w o w' H _. exact (ReadOnly_tab m E w o w' H). Qed.

#[global] Instance atomic_WithTx {A} (m : M A) : Atomic (WithTx m).
Proof. intros E w o w' H Ho. by eapply WithTx_not_Ret. Qed.

#[global] Instance atomic_execWithTx {A} (m : M A) : Atomic (execWithTx false m).
Proof. apply atomic_WithTx. Qed.

(** Reads before the transaction. *)
Lemma atomic_bind {A B} (m : M A) (k : A → M B) :
  ReadOnly m → (∀ a, Atomic (k a)) → Atomic (m ≫= k).
Proof.
  intros Hm Hk E w o w'. rewrite bind_run. destruct (m E w) as [o1 w1] eqn:H1.
  pose proof (ReadOnly_tab m E w o1 w1 H1) as Hw1.
  destruct o1 as [a|e|]; [|by intros [= <- <-]..].
  intros H Ho. rewrite <- Hw1. by eapply Hk.
Qed.

#[global] Instance ro_mret {A} (a : A) : ReadOnly (mret a : M A).
Proof. intros P. apply _. Qed.
#[global] Instance ro_deref {A} (p : option A) : ReadOnly (deref p).
Proof. intros P. apply _. Qed.
