(* ===== verification/Outbox.v ===== *)
(** * The notification outbox

    [internal/db/notification.go] and [internal/db/notification_ops.go]: enqueueing,
    claiming, marking, recovering, re-driving and pruning the rows of
    [notification_outbox].  [in_tx] says whether the caller passed its transaction.
    A transaction is one step of the interleaving, so no row is locked by another
    session when it starts and [SKIP LOCKED] skips nothing. *)

From S2P Require Import Prelude GoStrings Errors Event Models Store Queries Writes Integrity.
Local Open Scope Z_scope.

Definition NotificationStatusPending : string := "pending".
Definition NotificationStatusProcessing : string := "processing".
Definition NotificationStatusSent : string := "sent".
Definition NotificationStatusFailed : string := "failed".

Definition NotificationKindPendingReview : string := "pending_review".
Definition NotificationKindReviewed : string := "reviewed".
Definition NotificationKindStatusChanged : string := "status_changed".

(** The mapper of the Ent row reads a NULL time as the zero time; the scan of a raw row
    keeps the NULL. *)
Definition notificationOutboxFromEnt (id : Z) (e : OutboxRow) : NotificationOutbox :=
  mkOutbox id (or_kind e) (or_incident e) (or_recipient e) (or_payload e) (or_change e)
    (or_dedup e) (or_status e) (or_attempts e) (nullable_time (or_next e)) (or_locked_by e)
    (nullable_time (or_locked_at e)) (or_error e) (or_created e) (or_updated e).

Definition scanOutboxRow (id : Z) (e : OutboxRow) : NotificationOutbox :=
  mkOutbox id (or_kind e) (or_incident e) (or_recipient e) (or_payload e) (or_change e)
    (or_dedup e) (or_status e) (or_attempts e) (or_next e) (or_locked_by e)
    (or_locked_at e) (or_error e) (or_created e) (or_updated e).

(** ** Enqueueing *)

Definition rowExists (dedupKey : string) : M bool :=
  select (λ t, existsb (λ kr : Z * OutboxRow, or_dedup kr.2 == dedupKey) (rows (t_outbox t))).

Definition next_outbox_id : M Z :=
  s ← get_seq;
  _ ← put_seq (mkSeqs (seq_incident s) (seq_status s) (seq_component s) (seq_attr s) (seq_outbox s + 1));
  mret (seq_outbox s).

(** The row a create builder inserts; [dbNow] is the column default [NOW()]. *)
Definition newOutboxCreate (row : NotificationOutbox) (dbNow : Z) : OutboxRow :=
  mkOutboxRow (no_Kind row) (no_IncidentID row) (no_Recipient row) (no_Payload row)
    (no_ChangeID row) (no_DedupKey row)
    (if no_Status row == ""%string then NotificationStatusPending else no_Status row)
    (no_Attempts row) (no_NextAttemptAt row) (no_LockedBy row) (no_LockedAt row) (no_LastError row)
    (if IsZero (no_CreatedAt row) then dbNow else no_CreatedAt row)
    (if IsZero (no_UpdatedAt row) then dbNow else no_UpdatedAt row).

(** The insert: the validators, then the unique key and the foreign key. *)
Definition insert_outbox (row : NotificationOutbox) : M unit :=
  _ ← ent_check ((no_Kind row != ""%string) && (no_Recipient row != ""%string)
                 && (no_ChangeID row != ""%string) && (no_DedupKey row != ""%string));
  _ ← stmt;
  dbNow ← now;
  id ← next_outbox_id;
  t ← get_tab;
  if existsb (λ kr : Z * OutboxRow, or_dedup kr.2 == no_DedupKey row) (rows (t_outbox t))
     || negb (bool_decide (is_Some (t_incident t !! no_IncidentID row)))
  then throw (EEnt ConstraintError)
  else put_tab (set_outbox (<[id := newOutboxCreate row dbNow]> (t_outbox t)) t).

Definition Enqueue (in_tx : bool) (row : NotificationOutbox) : M unit :=
  if no_DedupKey row == ""%string then throw (EMsg "notification: dedup_key is required")
  else execWithTx in_tx (
    exists_ ← rowExists (no_DedupKey row);
    if exists_ : bool then throw (EDb ErrNotificationDuplicate)
    else
      r ← try (insert_outbox row);
      match r with
      | inr _ => mret tt
      | inl e => if decide (e = EEnt ConstraintError) then throw (EDb ErrNotificationDuplicate)
                 else throw e
      end).

(** ** Claiming *)

(** [status = 'pending' AND (next_attempt_at IS NULL OR next_attempt_at <= now)]. *)
Definition due (n : Z) (r : OutboxRow) : bool :=
  (or_status r == NotificationStatusPending)
  && match or_next r with None => true | Some a => a <=? n end.

(** [LIMIT]: a negative one is refused by the database. *)
Definition limited {A} (limit : Z) (l : list A) : option (list A) :=
  if limit <? 0 then None else Some (take (Z.to_nat limit) l).

(** An update of the row with that id. *)
Definition update_outbox (p : Z → OutboxRow → bool) (f : OutboxRow → OutboxRow) : M Z :=
  _ ← stmt; t ← get_tab;
  _ ← put_tab (set_outbox (update_where p f (t_outbox t)) t);
  mret (count_where p (t_outbox t)).

Definition set_lease (status : string) (attempts : Z) (by_ : option string) (at_ : option Z)
    (n : Z) (r : OutboxRow) : OutboxRow :=
  mkOutboxRow (or_kind r) (or_incident r) (or_recipient r) (or_payload r) (or_change r)
    (or_dedup r) status attempts (or_next r) by_ at_ (or_error r) (or_created r) n.

(** The claimed struct after the loop body's assignments. *)
Definition claimed_row (leaseOwner : string) (n : Z) (r : NotificationOutbox) : NotificationOutbox :=
  mkOutbox (no_ID r) (no_Kind r) (no_IncidentID r) (no_Recipient r) (no_Payload r) (no_ChangeID r)
    (no_DedupKey r) NotificationStatusProcessing (no_Attempts r + 1) (no_NextAttemptAt r)
    (Some leaseOwner) (Some n) (no_LastError r) (no_CreatedAt r) (no_UpdatedAt r).

Definition ClaimPending (in_tx : bool) (limit : Z) (leaseOwner : string) : M (list NotificationOutbox) :=
  execWithTx in_tx (
    dueAt ← now;
    claimed ← select (λ t, limited limit (filterb (λ kr : Z * OutboxRow, due dueAt kr.2) (rows (t_outbox t))));
    match claimed with
    | None => throw ESql
    | Some claimed =>
      n ← now;
      mapM (λ kr : Z * OutboxRow,
        let c := claimed_row leaseOwner n (scanOutboxRow kr.1 kr.2) in
        _ ← update_outbox (λ k _, k == no_ID c)
              (set_lease (no_Status c) (no_Attempts c) (no_LockedBy c) (no_LockedAt c) n);
        mret c) claimed
    end).

(** ** Outcomes *)

Definition sent_row (n : Z) (r : OutboxRow) : OutboxRow :=
  mkOutboxRow (or_kind r) (or_incident r) (or_recipient r) (or_payload r) (or_change r)
    (or_dedup r) NotificationStatusSent (or_attempts r) (or_next r) None None None (or_created r) n.

Definition MarkSent (in_tx : bool) (id : Z) : M unit :=
  execWithTx in_tx (
    n ← now;
    affected ← update_outbox (λ k _, k == id) (sent_row n);
    if affected =? 0 then throw (EDb ErrNotificationNotFound) else mret tt).

Definition getRowByID (id : Z) : M NotificationOutbox :=
  r ← select (λ t, notificationOutboxFromEnt id <$> t_outbox t !! id);
  match r with
  | None => throw (EDb ErrNotificationNotFound)
  | Some row => mret row
  end.

Definition failed_row (status : string) (next : option Z) (errText : string) (n : Z) (r : OutboxRow) :
    OutboxRow :=
  mkOutboxRow (or_kind r) (or_incident r) (or_recipient r) (or_payload r) (or_change r)
    (or_dedup r) status (or_attempts r) next None None (Some errText) (or_created r) n.

Definition MarkFailed (in_tx : bool) (id : Z) (errText : string) (maxAttempts : Z)
    (backoff : Z → M Z) : M unit :=
  execWithTx in_tx (
    row ← getRowByID id;
    n ← now;
    upd ← (if maxAttempts <=? no_Attempts row
           then mret (failed_row NotificationStatusFailed None errText n)
           else at_ ← backoff (no_Attempts row);
                mret (failed_row NotificationStatusPending (Some at_) errText n));
    _ ← update_outbox (λ k _, k == id) upd;
    mret tt).

Definition MarkFailedTerminal (in_tx : bool) (id : Z) (errText : string) : M unit :=
  execWithTx in_tx (
    n ← now;
    affected ← update_outbox (λ k _, k == id) (failed_row NotificationStatusFailed None errText n);
    if affected =? 0 then throw (EDb ErrNotificationNotFound) else mret tt).

(** [status = 'processing' AND locked_at < cutoff]; a NULL is not less. *)
Definition stale (cutoff : Z) (r : OutboxRow) : bool :=
  (or_status r == NotificationStatusProcessing)
  && match or_locked_at r with None => false | Some a => a <? cutoff end.

Definition recovered_row (maxAttempts n : Z) (r : NotificationOutbox) : NotificationOutbox :=
  let exhausted := maxAttempts <=? no_Attempts r in
  mkOutbox (no_ID r) (no_Kind r) (no_IncidentID r) (no_Recipient r) (no_Payload r) (no_ChangeID r)
    (no_DedupKey r) (if exhausted then NotificationStatusFailed else NotificationStatusPending)
    (no_Attempts r) (if exhausted then None else Some n) None None (no_LastError r)
    (no_CreatedAt r) (no_UpdatedAt r).

Definition set_recovered (c : NotificationOutbox) (n : Z) (r : OutboxRow) : OutboxRow :=
  mkOutboxRow (or_kind r) (or_incident r) (or_recipient r) (or_payload r) (or_change r)
    (or_dedup r) (no_Status c) (or_attempts r) (no_NextAttemptAt c) (no_LockedBy c) (no_LockedAt c)
    (or_error r) (or_created r) n.

Definition RecoverStaleProcessing (in_tx : bool) (leaseTimeout maxAttempts : Z) :
    M (list NotificationOutbox) :=
  execWithTx in_tx (
    n0 ← now;
    let cutoff := n0 - leaseTimeout in
    n ← now;
    found ← select (λ t, filterb (λ kr : Z * OutboxRow, stale cutoff kr.2) (rows (t_outbox t)));
    mapM (λ kr : Z * OutboxRow,
      let c := recovered_row maxAttempts n (scanOutboxRow kr.1 kr.2) in
      _ ← update_outbox (λ k r, (k == no_ID c) && stale cutoff r) (set_recovered c n);
      mret c) found).

(** ** Operations interface *)

Record NotificationStats := mkStats {
  ns_Pending : Z; ns_Processing : Z; ns_Sent : Z; ns_Failed : Z;
  ns_StaleProcessing : Z; ns_RetryBacklog : Z;
  ns_OldestPendingAge : Z }.   (* nanoseconds; the code reports seconds *)

Definition status_count (s : string) (m : gmap Z OutboxRow) : Z :=
  count_where (λ _ r, or_status r == s) m.

(** [MIN(CASE WHEN status IN ('pending','processing') THEN created_at END)]. *)
Definition oldest_open (m : gmap Z OutboxRow) : option Z :=
  foldr (λ kr acc,
    if bool_decide (or_status kr.2 ∈ [NotificationStatusPending; NotificationStatusProcessing])
    then Some (match acc with None => or_created kr.2 | Some a => Z.min (or_created kr.2) a end)
    else acc) None (rows m).

Definition GetNotificationStats (staleThreshold : Z) : M NotificationStats :=
  n ← now;
  let cutoff := n - staleThreshold in
  dbNow ← now;
  select (λ t, let m := t_outbox t in
    mkStats (status_count NotificationStatusPending m) (status_count NotificationStatusProcessing m)
      (status_count NotificationStatusSent m) (status_count NotificationStatusFailed m)
      (count_where (λ _ r, stale cutoff r) m)
      (count_where (λ _ r, (or_status r == NotificationStatusPending)
                           && match or_next r with None => false | Some a => dbNow <? a end) m)
      (match oldest_open m with None => 0 | Some a => dbNow - a end)).

(** [ORDER BY updated_at DESC]. *)
Definition updated_desc (a b : Z * OutboxRow) : Prop := or_updated b.2 <= or_updated a.2.
#[global] Instance updated_desc_dec : RelDecision updated_desc.
Proof. intros a b. unfold updated_desc. apply _. Defined.

Definition ListNotificationsByStatus (status : string) (limit : Z) : M (list NotificationOutbox) :=
  if limit =? 0 then mret []
  else select (λ t,
    let rs := merge_sort updated_desc
                (filterb (λ kr : Z * OutboxRow, or_status kr.2 == status) (rows (t_outbox t))) in
    (λ kr : Z * OutboxRow, notificationOutboxFromEnt kr.1 kr.2)
      <$> (if 0 <? limit then take (Z.to_nat limit) rs else rs)).

Definition redriven_row (n : Z) (r : OutboxRow) : OutboxRow :=
  mkOutboxRow (or_kind r) (or_incident r) (or_recipient r) (or_payload r) (or_change r)
    (or_dedup r) NotificationStatusPending 0 (Some n) None None None (or_created r) n.

Definition redrivable (ids : list Z) (k : Z) (r : OutboxRow) : bool :=
  (or_status r == NotificationStatusFailed)
  && match ids with [] => true | _ => bool_decide (k ∈ ids) end.

Definition RedriveFailed (ids : list Z) : M Z :=
  n ← now;
  update_outbox (redrivable ids) (redriven_row n).

(** ** Retention *)

Definition expired (before : Z) (r : OutboxRow) : bool :=
  (or_status r == NotificationStatusSent) && (or_updated r <? before).

(** The ids one [DELETE ... WHERE id IN (SELECT ... ORDER BY id LIMIT n)] removes. *)
Definition expired_batch (before batchSize : Z) (t : Tables) : option (list Z) :=
  limited batchSize (filterb (λ kr : Z * OutboxRow, expired before kr.2) (rows (t_outbox t))).*1.

Definition delete_batch (before batchSize : Z) : M Z :=
  _ ← stmt;
  t ← get_tab;
  match expired_batch before batchSize t with
  | None => throw ESql
  | Some ids =>
    _ ← put_tab (set_outbox (delete_where (λ k _, bool_decide (k ∈ ids)) (t_outbox t)) t);
    mret (Z.of_nat (length ids))
  end.

Definition ctx_done : M bool := reading cancel_at.

(** The loop with its accumulated total; [None] is an exhausted fuel. *)
Fixpoint delete_loop (fuel : nat) (before batchSize total : Z) : M (option Z) :=
  match fuel with
  | O => mret None
  | S fuel =>
    cancelled ← ctx_done;
    if cancelled : bool then throw (EMsg "context canceled")
    else
      removed ← delete_batch before batchSize;
      if removed <? batchSize then mret (Some (total + removed))
      else delete_loop fuel before batchSize (total + removed)
  end.

(** As many rounds as there are rows, and the last one that finds too few. *)
Definition DeleteSentBefore (before batchSize : Z) : M (option Z) :=
  t ← get_tab;
  delete_loop (S (size (t_outbox t))) before batchSize 0.
