(* ===== verification/OutboxSpec.v ===== *)
(** * What the outbox operations do

    Each operation of [Outbox] as a set-oriented change of the table, the states a row
    moves through, and the invariants of the queue. *)

From S2P Require Import Prelude GoStrings Errors Event Models Store Queries Writes Integrity Outbox.
Local Open Scope Z_scope.

#[global] Arguments update_outbox : simpl never.
#[global] Arguments rows : simpl never.

(** ** Single statements *)

Lemma update_outbox_Ret p f E w n w' :
  update_outbox p f E w = (Ret n, w') →
  n = count_where p (t_outbox (w_tab w))
  ∧ w' = mkWorld (set_outbox (update_where p f (t_outbox (w_tab w))) (w_tab w)) (w_seq w)
           (w_tick w) (S (w_stmt w)) (w_signal w).
Proof.
  unfold update_outbox. intros H. apply bind_Ret_inv in H as ([] & w1 & H1 & H).
  apply stmt_Ret in H1 as [_ ->]. by injection H as <- <-.
Qed.

(** An update by key, when the row is there. *)
Lemma update_where_lookup {A} (f : A → A) (m : gmap Z A) i r :
  m !! i = Some r → update_where (λ k _, k == i) f m = <[i := f r]> m.
Proof.
  intros Hi. apply map_eq. intros k. rewrite lookup_update_where.
  destruct (decide (k = i)) as [->|Hne].
  - by rewrite Hi, lookup_insert_eq, bool_decide_true by done.
  - rewrite lookup_insert_ne by done. rewrite bool_decide_false by done. by destruct (m !! k).
Qed.

(** A loop that updates the rows it read, one statement each, is one bulk update. *)
Lemma update_loop {B} (p : Z * OutboxRow → Z → OutboxRow → bool) (q : OutboxRow → bool)
    (g : Z * OutboxRow → OutboxRow → OutboxRow) (f : OutboxRow → OutboxRow)
    (h : Z * OutboxRow → B) l : ∀ E w res w',
  mapM (λ kr : Z * OutboxRow, _ ← update_outbox (p kr) (g kr); mret (h kr)) l E w = (Ret res, w') →
  (∀ kr k r, p kr k r = (k == kr.1) && q r) →
  (∀ kr, g kr kr.2 = f kr.2) →
  NoDup l.*1 →
  (∀ kr, kr ∈ l → t_outbox (w_tab w) !! kr.1 = Some kr.2) →
  res = h <$> l
  ∧ w_tab w' = set_outbox (update_where (λ k r, bool_decide (k ∈ l.*1) && q r) f
                             (t_outbox (w_tab w))) (w_tab w)
  ∧ w_seq w' = w_seq w ∧ w_tick w' = w_tick w ∧ w_signal w' = w_signal w.
Proof.
  intros E w res w' H Hp Hg. revert w res w' H.
  induction l as [|[i r] l IH]; intros w res w' H Hnd Hin.
  - cbn in H. injection H as <- <-. split_and!; try done.
    rewrite update_where_none; [by destruct (w_tab w)|]. intros k x _.
    rewrite bool_decide_false; [done|]. intros Hk. inversion Hk.
  - cbn [mapM] in H. apply bind_Ret_inv in H as (y & w1 & H1 & H).
    apply bind_Ret_inv in H1 as (n & w2 & H1 & H2). injection H2 as <- <-.
    apply update_outbox_Ret in H1 as [_ ->].
    apply bind_Ret_inv in H as (ys & w3 & H2 & H). injection H as <- <-.
    rewrite fmap_cons in Hnd. apply NoDup_cons in Hnd as [Hi Hnd]. cbn [fst snd] in *.
    apply IH in H2 as (-> & Ht & Hs & Hk & Hsig); [|done|].
    2:{ intros [k x] Hkx. pose proof (Hin (k, x) (ltac:(by right))) as Hx. simpl in Hx |- *.
        rewrite lookup_update_where, Hx. simpl. rewrite Hp.
        rewrite bool_decide_false; [done|]. simpl. intros ->. apply Hi.
        apply list_elem_of_fmap. by exists (i, x). }
    cbn [w_tab w_seq w_tick w_signal] in *. split_and!; try done.
    rewrite Ht. unfold set_outbox. cbn [w_tab t_incident t_rel t_status t_component t_attr t_outbox].
    f_equal. apply map_eq. intros k. rewrite !lookup_update_where, fmap_cons. cbn [fst].
    set (ks := l.*1) in *.
    destruct (t_outbox (w_tab w) !! k) as [x|] eqn:Hx; [|done]. simpl. f_equal. rewrite Hp. simpl.
    destruct (decide (k = i)) as [->|Hne].
    + assert (x = r) as ->.
      { specialize (Hin (i, r) (ltac:(left))). simpl in Hin. congruence. }
      rewrite (bool_decide_true (i = i)) by done.
      rewrite (bool_decide_true (i ∈ _ :: _)) by left.
      rewrite (bool_decide_false (i ∈ ks)) by done. simpl.
      specialize (Hg (i, r)). simpl in Hg. by destruct (q r).
    + rewrite (bool_decide_false (k = i)) by done. simpl.
      rewrite (bool_decide_ext (k ∈ i :: ks) (k ∈ ks)) by (rewrite elem_of_cons; tauto).
      done.
Qed.

(** ** Claims *)

(** The change one claim makes to a row. *)
Definition claim (leaseOwner : string) (n : Z) (r : OutboxRow) : OutboxRow :=
  set_lease NotificationStatusProcessing (or_attempts r + 1) (Some leaseOwner) (Some n) n r.

(** The ids a claim takes: the first [limit] due ones in id order. *)
Definition claimable (dueAt limit : Z) (t : Tables) : list (Z * OutboxRow) :=
  take (Z.to_nat limit) (filterb (λ kr : Z * OutboxRow, due dueAt kr.2) (rows (t_outbox t))).

Lemma claimable_sound dueAt limit t kr :
  kr ∈ claimable dueAt limit t → t_outbox t !! kr.1 = Some kr.2 ∧ due dueAt kr.2 = true.
Proof.
  unfold claimable. intros H. eapply elem_of_sublist in H; [|apply sublist_take].
  apply elem_of_filterb in H as [H Hdue]. destruct kr as [k r]. by apply elem_of_rows in H.
Qed.

Lemma NoDup_claimable dueAt limit t : NoDup (claimable dueAt limit t).*1.
Proof.
  unfold claimable. eapply sublist_NoDup; [|apply fmap_sublist, sublist_take].
  apply NoDup_filterb_keys, NoDup_rows_keys.
Qed.

Lemma ClaimPending_Ret limit owner E w res w' :
  ClaimPending false limit owner E w = (Ret res, w') →
  let dueAt := now_at E (w_tick w) in
  let n := now_at E (S (w_tick w)) in
  let ids := claimable dueAt limit (w_tab w) in
  0 <= limit
  ∧ res = (λ kr, claimed_row owner n (scanOutboxRow kr.1 kr.2)) <$> ids
  ∧ w_tab w' = set_outbox (update_where (λ k _, bool_decide (k ∈ ids.*1)) (claim owner n)
                             (t_outbox (w_tab w))) (w_tab w)
  ∧ w_seq w' = w_seq w.
Proof.
  intros H. simpl. apply WithTx_Ret in H as (w0 & w1 & Ht0 & Hs0 & Hk0 & _ & _ & H & Ht1 & Hs1 & _).
  apply bind_Ret_inv in H as (dueAt & w2 & H1 & H). injection H1 as <- <-.
  apply bind_Ret_inv in H as (cl & w3 & H1 & H). apply select_Ret in H1 as (-> & -> & _).
  cbn [w_tab w_seq w_tick w_stmt w_signal] in H. unfold limited in H.
  destruct (limit <? 0) eqn:Hlim; [done|]. bool_facts.
  apply bind_Ret_inv in H as (n & w3 & H1 & H). injection H1 as <- <-.
  rewrite Ht0, Hk0 in *. fold (claimable (now_at E (w_tick w)) limit (w_tab w)) in H.
  cbn [w_tab w_seq w_tick w_stmt w_signal] in H.
  set (n := now_at E (S (w_tick w))) in *. set (ids := claimable _ _ _) in *.
  destruct (update_loop (λ kr k _, k == kr.1) (λ _, true)
    (λ kr, set_lease NotificationStatusProcessing (or_attempts kr.2 + 1) (Some owner) (Some n) n)
    (claim owner n) (λ kr, claimed_row owner n (scanOutboxRow kr.1 kr.2)) ids E _ _ _ H)
    as (-> & Ht & Hs & _).
  - intros kr k r. by rewrite andb_true_r.
  - done.
  - apply NoDup_claimable.
  - intros kr Hkr. by apply claimable_sound in Hkr as [? _].
  - split_and!; [lia|done| |].
    + rewrite Ht1, Ht. unfold set_outbox. f_equal.
      apply map_eq. intros k. rewrite !lookup_update_where. apply option_fmap_ext.
      intros x. by rewrite andb_true_r.
    + rewrite Hs1, Hs. done.
Qed.

(** ** Outcomes *)

(** The change stale recovery makes to a row. *)
Definition recover (maxAttempts n : Z) (r : OutboxRow) : OutboxRow :=
  set_recovered (recovered_row maxAttempts n (scanOutboxRow 0 r)) n r.

Lemma RecoverStaleProcessing_Ret lease maxAttempts E w res w' :
  RecoverStaleProcessing false lease maxAttempts E w = (Ret res, w') →
  let cutoff := now_at E (w_tick w) - lease in
  let n := now_at E (S (w_tick w)) in
  w_tab w' = set_outbox (update_where (λ _ r, stale cutoff r) (recover maxAttempts n)
                           (t_outbox (w_tab w))) (w_tab w)
  ∧ w_seq w' = w_seq w
  ∧ length res = Z.to_nat (count_where (λ _ r, stale cutoff r) (t_outbox (w_tab w))).
Proof.
  intros H. simpl. apply WithTx_Ret in H as (w0 & w1 & Ht0 & Hs0 & Hk0 & _ & _ & H & Ht1 & Hs1 & _).
  apply bind_Ret_inv in H as (n0 & w2 & H1 & H). injection H1 as <- <-.
  apply bind_Ret_inv in H as (n & w3 & H1 & H). injection H1 as <- <-.
  apply bind_Ret_inv in H as (cl & w3 & H1 & H). apply select_Ret in H1 as (-> & -> & _).
  cbn [w_tab w_seq w_tick w_stmt w_signal] in H. rewrite Ht0, Hk0, Hs0 in *.
  set (n := now_at E (S (w_tick w))) in *. set (cutoff := now_at E (w_tick w) - lease) in *.
  set (l := filterb _ _) in *.
  assert (∀ kr, kr ∈ l ↔ t_outbox (w_tab w) !! kr.1 = Some kr.2 ∧ stale cutoff kr.2 = true) as Hl.
  { intros [k r]. unfold l. by rewrite elem_of_filterb, elem_of_rows. }
  destruct (update_loop (λ kr k r, (k == kr.1) && stale cutoff r) (stale cutoff)
    (λ kr, set_recovered (recovered_row maxAttempts n (scanOutboxRow kr.1 kr.2)) n)
    (recover maxAttempts n) (λ kr, recovered_row maxAttempts n (scanOutboxRow kr.1 kr.2)) l E _ _ _ H)
    as (-> & Ht & Hs & _); [by intros|by intros| | |].
  - apply NoDup_filterb_keys, NoDup_rows_keys.
  - intros kr [? _]%Hl. done.
  - split_and!; [|by rewrite Hs1, Hs|].
    + rewrite Ht1, Ht. unfold set_outbox. cbn [w_tab]. f_equal.
      apply map_eq. intros k. rewrite !lookup_update_where.
      destruct (t_outbox (w_tab w) !! k) as [x|] eqn:Hx; [|done]. simpl. f_equal.
      destruct (stale cutoff x) eqn:Hstale; [|by rewrite andb_false_r].
      rewrite bool_decide_true; [done|]. apply list_elem_of_fmap. exists (k, x). by rewrite Hl.
    + rewrite length_fmap. unfold count_where. rewrite Nat2Z.id. unfold l.
      apply Permutation_length, filterb_Permutation, rows_perm.
Qed.

Lemma MarkSent_Ret id E w u w' :
  MarkSent false id E w = (Ret u, w') →
  is_Some (t_outbox (w_tab w) !! id)
  ∧ w_tab w' = set_outbox (update_where (λ k _, k == id) (sent_row (now_at E (w_tick w)))
                             (t_outbox (w_tab w))) (w_tab w).
Proof.
  intros H. apply WithTx_Ret in H as (w0 & w1 & Ht0 & _ & Hk0 & _ & _ & H & Ht1 & _).
  apply bind_Ret_inv in H as (n0 & w2 & H1 & H). injection H1 as <- <-.
  apply bind_Ret_inv in H as (aff & w3 & H1 & H). apply update_outbox_Ret in H1 as [-> ->].
  destruct (_ =? 0) eqn:Hc; [done|]. injection H as <- <-. bool_facts. simpl in *.
  rewrite Ht0, Hk0 in *. split; [|done].
  destruct (t_outbox (w_tab w) !! id) eqn:Hid; [eauto|]. destruct Hc.
  apply count_where_zero. intros k x Hk. apply bool_decide_eq_false. congruence.
Qed.

Lemma MarkFailedTerminal_Ret id txt E w u w' :
  MarkFailedTerminal false id txt E w = (Ret u, w') →
  w_tab w' = set_outbox (update_where (λ k _, k == id)
               (failed_row NotificationStatusFailed None txt (now_at E (w_tick w)))
               (t_outbox (w_tab w))) (w_tab w).
Proof.
  intros H. apply WithTx_Ret in H as (w0 & w1 & Ht0 & _ & Hk0 & _ & _ & H & Ht1 & _).
  apply bind_Ret_inv in H as (n0 & w2 & H1 & H). injection H1 as <- <-.
  apply bind_Ret_inv in H as (aff & w3 & H1 & H). apply update_outbox_Ret in H1 as [-> ->].
  destruct (_ =? 0) eqn:Hc; [done|]. injection H as <- <-. simpl in *. by rewrite Ht0, Hk0 in *.
Qed.

(** The outcome of a failed delivery: retried while attempts remain, failed after. *)
Lemma MarkFailed_Ret id txt maxAttempts backoff E w u w' :
  (∀ a, ReadOnly (backoff a)) →
  MarkFailed false id txt maxAttempts backoff E w = (Ret u, w') →
  ∃ r n next,
    t_outbox (w_tab w) !! id = Some r
    ∧ (if maxAttempts <=? or_attempts r then next = None else is_Some next)
    ∧ w_tab w' = set_outbox (<[id := failed_row
         (if maxAttempts <=? or_attempts r then NotificationStatusFailed else NotificationStatusPending)
         next txt n r]> (t_outbox (w_tab w))) (w_tab w).
Proof.
  intros Hro H. apply WithTx_Ret in H as (w0 & w1 & Ht0 & _ & _ & _ & _ & H & Ht1 & _).
  apply bind_Ret_inv in H as (row & w2 & H1 & H).
  apply bind_Ret_inv in H1 as (r0 & w3 & H1 & H2). apply select_Ret in H1 as (-> & -> & _).
  rewrite Ht0 in H2. destruct (t_outbox (w_tab w) !! id) as [r|] eqn:Hr; [|done].
  injection H2 as <- <-.
  apply bind_Ret_inv in H as (n & w4 & H1 & H). injection H1 as <- <-.
  apply bind_Ret_inv in H as (upd & w5 & H1 & H). cbn [no_Attempts notificationOutboxFromEnt] in H1.
  apply bind_Ret_inv in H as (aff & w6 & H2 & H). apply update_outbox_Ret in H2 as [-> ->].
  injection H as <- <-. exists r, (now_at E (w_tick w0)). rewrite Ht1. simpl.
  destruct (maxAttempts <=? or_attempts r).
  - injection H1 as <- <-. exists None. split_and!; [done..|]. simpl. rewrite ?Ht0.
    by rewrite (update_where_lookup _ _ _ _ Hr).
  - apply bind_Ret_inv in H1 as (at_ & w7 & H1 & H2).
    apply (ReadOnly_tab (backoff _)) in H1. injection H2 as <- <-.
    exists (Some at_). split_and!; [done|eauto|]. rewrite H1. simpl. rewrite ?Ht0.
    by rewrite (update_where_lookup _ _ _ _ Hr).
Qed.

Lemma RedriveFailed_Ret ids E w n w' :
  RedriveFailed ids E w = (Ret n, w') →
  n = count_where (redrivable ids) (t_outbox (w_tab w))
  ∧ w_tab w' = set_outbox (update_where (redrivable ids) (redriven_row (now_at E (w_tick w)))
                             (t_outbox (w_tab w))) (w_tab w).
Proof.
  intros H. apply bind_Ret_inv in H as (n0 & w2 & H1 & H). injection H1 as <- <-.
  by apply update_outbox_Ret in H as [-> ->].
Qed.

(** ** The queue invariant *)

(** A row is waiting with attempts to spare, leased to a worker, delivered or failed;
    only a row being processed carries a lease, and no row exceeds the attempts. *)
Inductive row_state (maxAttempts : Z) (r : OutboxRow) : Prop :=
| state_pending : or_status r = NotificationStatusPending → or_attempts r < maxAttempts →
    or_locked_by r = None → or_locked_at r = None → row_state maxAttempts r
| state_processing : or_status r = NotificationStatusProcessing → 0 < or_attempts r →
    is_Some (or_locked_by r) → is_Some (or_locked_at r) → row_state maxAttempts r
| state_sent : or_status r = NotificationStatusSent →
    or_locked_by r = None → or_locked_at r = None → or_error r = None → row_state maxAttempts r
| state_failed : or_status r = NotificationStatusFailed → or_next r = None →
    or_locked_by r = None → or_locked_at r = None → row_state maxAttempts r.

Definition row_ok (maxAttempts : Z) (r : OutboxRow) : Prop :=
  0 <= or_attempts r <= maxAttempts ∧ row_state maxAttempts r.

Definition queue_ok (maxAttempts : Z) (m : gmap Z OutboxRow) : Prop :=
  ∀ k r, m !! k = Some r → row_ok maxAttempts r.

Section Queue.
Context (maxAttempts : Z).
Notation ok := (row_ok maxAttempts).

Lemma claim_ok owner n r :
  ok r → or_status r = NotificationStatusPending → ok (claim owner n r).
Proof.
  intros [Ha Hs] Hp. destruct Hs as [_ ? _ _|H|H|H]; try (rewrite Hp in H; discriminate).
  split; simpl; [lia|]. apply state_processing; simpl; [done|lia|eauto..].
Qed.

Lemma sent_ok n r : ok r → ok (sent_row n r).
Proof. intros [Ha _]. split; [done|]. by apply state_sent. Qed.

Lemma failed_ok txt n r : ok r → ok (failed_row NotificationStatusFailed None txt n r).
Proof. intros [Ha _]. split; [done|]. by apply state_failed. Qed.

Lemma retry_ok txt n next r : ok r → or_attempts r < maxAttempts →
  ok (failed_row NotificationStatusPending next txt n r).
Proof. intros [Ha _] Hlt. split; [done|]. by apply state_pending. Qed.

Lemma recover_ok n r : ok r → ok (recover maxAttempts n r).
Proof.
  intros [Ha _]. split; [done|]. unfold recover, set_recovered, recovered_row. simpl.
  destruct (maxAttempts <=? or_attempts r) eqn:Hmax; bool_facts.
  - by apply state_failed.
  - by apply state_pending.
Qed.

Lemma redriven_ok n r : 0 < maxAttempts → ok (redriven_row n r).
Proof. intros Hm. split; simpl; [lia|]. by apply state_pending. Qed.

Lemma queue_ok_update p f m :
  (∀ k r, m !! k = Some r → ok r → p k r = true → ok (f r)) →
  queue_ok maxAttempts m → queue_ok maxAttempts (update_where p f m).
Proof.
  intros Hf Hm k r. rewrite lookup_update_where. intros (r0 & Hr0 & ->)%fmap_Some.
  destruct (p k r0) eqn:Hp; [|by eapply Hm]. apply (Hf k); [done|by eapply Hm|done].
Qed.

Lemma queue_ok_insert k r m : ok r → queue_ok maxAttempts m → queue_ok maxAttempts (<[k := r]> m).
Proof. intros Hr Hm k' r' [[_ <-]|[_ ?]]%lookup_insert_Some; eauto. Qed.
End Queue.
