(* ===== verification/EntCore.v ===== *)
(** * The generated data layer: what the five entities share

    [ent/]: the values of fields, operations, errors, predicates and the specifications
    that the builders hand to the SQL graph library.  Those specifications
    ([sqlgraph.CreateSpec], [sqlgraph.UpdateSpec], [sqlgraph.EdgeSpec], [sql.Selector]) are
    data here: what the library makes of them is the subject of [EntSpec]. *)

From S2P Require Import Prelude GoStrings GoTime Errors Models.
From coqutil Require Export Datatypes.RecordSetters.
Export TriangleBracketNotations.
Local Open Scope Z_scope.

(** [ent.Value]: what an interface value of a field can hold. *)
Inductive value :=
| VInt (n : Z) | VString (s : string) | VBool (b : bool) | VTime (t : Z)
| VType (s : string) | VJSON (m : gmap string json_value).
#[global] Instance value_eq_dec : EqDecision value.
Proof. solve_decision. Defined.

(** [%T]. *)
Definition type_name (v : value) : string :=
  match v with
  | VInt _ => "int" | VString _ => "string" | VBool _ => "bool" | VTime _ => "time.Time"
  | VType _ => "incident.Type" | VJSON _ => "map[string]interface {}"
  end.

(** ** Operations *)

Inductive Op := OpCreate | OpDelete | OpDeleteOne | OpUpdate | OpUpdateOne.
#[global] Instance Op_eq_dec : EqDecision Op.
Proof. solve_decision. Defined.

(** [op.Is(a | b | ...)]. *)
Definition op_is (op : Op) (l : list Op) : bool := bool_decide (op ∈ l).
Definition op_string (op : Op) : string :=
  match op with
  | OpCreate => "OpCreate" | OpDelete => "OpDelete" | OpDeleteOne => "OpDeleteOne"
  | OpUpdate => "OpUpdate" | OpUpdateOne => "OpUpdateOne"
  end.

(** The configuration a builder carries: whether its driver is a transaction's. *)
Record config := mkConfig { cfg_txDriver : bool }.

(** ** Errors ([ent.go]) *)

Inductive ent_error :=
| EntValidation (name msg : string) | EntNotFound (label : string) | EntNotSingular (label : string)
| EntNotLoaded (edge : string) | EntConstraint (msg : string) | EntOther (msg : string).
#[global] Instance ent_error_eq_dec : EqDecision ent_error.
Proof. solve_decision. Defined.

Definition Error (e : ent_error) : string :=
  match e with
  | EntValidation _ msg => msg
  | EntNotFound label => "ent: " +:+ label +:+ " not found"
  | EntNotSingular label => "ent: " +:+ label +:+ " not singular"
  | EntNotLoaded edge => "ent: " +:+ edge +:+ " edge was not loaded"
  | EntConstraint msg => "ent: constraint failed: " +:+ msg
  | EntOther msg => msg
  end.

Definition IsValidationError (e : option ent_error) : bool := match e with Some (EntValidation _ _) => true | _ => false end.
Definition IsNotFound (e : option ent_error) : bool := match e with Some (EntNotFound _) => true | _ => false end.
Definition MaskNotFound (e : option ent_error) : option ent_error := if IsNotFound e then None else e.
Definition IsNotSingular (e : option ent_error) : bool := match e with Some (EntNotSingular _) => true | _ => false end.
Definition IsNotLoaded (e : option ent_error) : bool := match e with Some (EntNotLoaded _) => true | _ => false end.
Definition IsConstraintError (e : option ent_error) : bool := match e with Some (EntConstraint _) => true | _ => false end.

(** ** Fields by name *)

(** A Go [switch] on a string. *)
Fixpoint switch {A} (name : string) (cases : list (string * A)) (default : A) : A :=
  match cases with
  | [] => default
  | (key, a) :: cases => if name == key then a else switch name cases default
  end.

(** The names whose condition holds, in order: a sequence of [append]s under [if]s. *)
Definition collect (l : list (string * bool)) : list string := (filterb snd l).*1.

Definition some {A} (x : option A) : bool := match x with Some _ => true | None => false end.

Definition unexpected_type {A} (v : value) (name : string) : string + A :=
  inl ("unexpected type " +:+ type_name v +:+ " for field " +:+ name).

(** [value.(T)] and the setter of the field. *)
Definition as_int {A} (name : string) (v : value) (k : Z → A) : string + A :=
  match v with VInt n => inr (k n) | _ => unexpected_type v name end.
Definition as_string {A} (name : string) (v : value) (k : string → A) : string + A :=
  match v with VString s => inr (k s) | _ => unexpected_type v name end.
Definition as_bool {A} (name : string) (v : value) (k : bool → A) : string + A :=
  match v with VBool b => inr (k b) | _ => unexpected_type v name end.
Definition as_time {A} (name : string) (v : value) (k : Z → A) : string + A :=
  match v with VTime t => inr (k t) | _ => unexpected_type v name end.
Definition as_type {A} (name : string) (v : value) (k : string → A) : string + A :=
  match v with VType s => inr (k s) | _ => unexpected_type v name end.
Definition as_json {A} (name : string) (v : value) (k : gmap string json_value → A) : string + A :=
  match v with VJSON m => inr (k m) | _ => unexpected_type v name end.

(** ** Old values

    [oldValue]: the node that was given, or a query by id that runs once. *)
Inductive old (N : Type) := OldGiven (n : N) | OldQuery (id : Z) (memo : option (string + N)).
Arguments OldGiven {N} _. Arguments OldQuery {N} _ _.

Definition old_value {N} (get : Z → string + N) (done : bool) (o : old N) : (string + N) * old N :=
  match o with
  | OldGiven n => (inr n, o)
  | OldQuery _ (Some r) => (r, o)
  | OldQuery id None =>
      let r := if done then inl "querying old values post mutation is not allowed"%string else get id in
      (r, OldQuery id (Some r))
  end.

(** The body of an [OldX] method. *)
Definition old_field {N A} (method : string) (op : Op) (id : option Z) (o : option (old N)) (done : bool)
    (get : Z → string + N) (field : N → A) : (string + A) * option (old N) :=
  if negb (op_is op [OpUpdateOne]) then (inl (method +:+ " is only allowed on UpdateOne operations"), o)
  else match id, o with
       | Some _, Some o =>
           let '(r, o) := old_value get done o in
           (match r with
            | inl e => inl ("querying old value for " +:+ method +:+ ": " +:+ e)
            | inr n => inr (field n)
            end, Some o)
       | _, _ => (inl (method +:+ " requires an ID field in the mutation"), o)
       end.

Definition old_any {A M} (f : A → option value) (r : (string + A) * M) : (string + option value) * M :=
  (match r.1 with inl e => inl e | inr a => inr (f a) end, r.2).

(** The validator of a field declared [NotEmpty] in the schema. *)
Definition NotEmpty (s : string) : bool := s != ""%string.

(** ** Edges *)

Definition add_ids (ids : list Z) (m : option (gset Z)) : option (gset Z) := Some (list_to_set ids ∪ default ∅ m).
Definition drop_ids (ids : list Z) (m : option (gset Z)) : option (gset Z) := (λ s, s ∖ list_to_set ids) <$> m.
(** The keys of a map, in the order of its iteration. *)
Definition edge_ids (m : option (gset Z)) : list Z := elements (default ∅ m).

Inductive Rel := O2O | O2M | M2O | M2M.
#[global] Instance Rel_eq_dec : EqDecision Rel.
Proof. solve_decision. Defined.
Record EdgeSpec := mkEdge {
  es_Rel : Rel; es_Inverse : bool; es_Table : string; es_Columns : list string; es_Nodes : list Z }.
(** A step of a traversal: the edge, with the table it leads to. *)
Record Step := mkStep {
  st_Rel : Rel; st_Inverse : bool; st_Table : string; st_Columns : list string; st_To : option string }.

(** ** Predicates: what [where.go] adds to a selector *)

Inductive sql_pred :=
| FieldEQ (col : string) (v : value) | FieldNEQ (col : string) (v : value)
| FieldIn (col : string) (vs : list value) | FieldNotIn (col : string) (vs : list value)
| FieldGT (col : string) (v : value) | FieldGTE (col : string) (v : value)
| FieldLT (col : string) (v : value) | FieldLTE (col : string) (v : value)
| FieldIsNull (col : string) | FieldNotNull (col : string)
| FieldContains (col s : string) | FieldHasPrefix (col s : string) | FieldHasSuffix (col s : string)
| FieldEqualFold (col s : string) | FieldContainsFold (col s : string)
| HasNeighbors (step : Step) | HasNeighborsWith (step : Step) (ps : list sql_pred)
| RawPredicate (query : string) (args : list value)
| AndPredicates (ps : list sql_pred) | OrPredicates (ps : list sql_pred) | NotPredicates (p : sql_pred).

(** ** Specifications *)

Record CreateSpec := mkCreateSpec {
  cs_Table : string; cs_ID : option Z; cs_Fields : list (string * value); cs_Edges : list EdgeSpec }.

Record UpdateSpec := mkUpdateSpec {
  us_Table : string; us_Columns : list string; us_ID : option Z; us_Predicates : list sql_pred;
  us_Set : list (string * value); us_Add : list (string * Z); us_Clear : list string;
  us_EdgesClear : list EdgeSpec; us_EdgesAdd : list EdgeSpec }.

(** [_spec.SetField] under [if value, ok := ...; ok]. *)
Definition set_fields (l : list (string * option value)) : list (string * value) :=
  omap (λ kv : string * option value, (λ v, (kv.1, v)) <$> kv.2) l.
Definition add_fields (l : list (string * option Z)) : list (string * Z) :=
  omap (λ kv : string * option Z, (λ v, (kv.1, v)) <$> kv.2) l.

(** [edge := &sqlgraph.EdgeSpec{...}] under [len(nodes) > 0], and under a cleared flag. *)
Definition edge_to (nodes : list Z) (rel : Rel) (inverse : bool) (table : string) (columns : list string) : list EdgeSpec :=
  match nodes with [] => [] | _ => [mkEdge rel inverse table columns nodes] end.
Definition edge_cleared (cleared : bool) (rel : Rel) (inverse : bool) (table : string) (columns : list string) : list EdgeSpec :=
  if cleared then [mkEdge rel inverse table columns []] else [].

(** ** Checks of the builders

    The text of the error that a validator returns is left out. *)

Definition quoted (s : string) : string :=
  let q := String (Ascii.ascii_of_nat 34) EmptyString in q +:+ s +:+ q.

Definition required {A} (entity name : string) (x : option A) : option ent_error :=
  if some x then None
  else Some (EntValidation name ("ent: missing required field " +:+ quoted (entity +:+ "." +:+ name))).
Definition validated {A} (entity name : string) (validator : A → bool) (x : option A) : option ent_error :=
  match x with
  | Some v => if validator v then None
              else Some (EntValidation name ("ent: validator failed for field " +:+ quoted (entity +:+ "." +:+ name)))
  | None => None
  end.
Definition required_edge (entity name : string) (ids : list Z) : option ent_error :=
  match ids with
  | [] => Some (EntValidation name ("ent: missing required edge " +:+ quoted (entity +:+ "." +:+ name)))
  | _ => None
  end.
Definition unclearable_edge (entity name : string) (cleared : bool) (ids : list Z) : option ent_error :=
  if cleared && negb (bool_decide (ids = []))
  then Some (EntOther ("ent: clearing a required unique edge " +:+ quoted (entity +:+ "." +:+ name))) else None.
Definition missing_id (entity : string) : ent_error :=
  EntValidation "id" ("ent: missing " +:+ quoted (entity +:+ ".id") +:+ " for update").

Fixpoint first_error (l : list (option ent_error)) : option ent_error :=
  match l with [] => None | Some e :: _ => Some e | None :: l => first_error l end.

(** The columns an [UpdateOne] returns: all, or the ones of [Select]. *)
Definition selected (columns : list string) (id : string) (valid : string → bool) (fields : list string) :
    ent_error + list string :=
  match fields with
  | [] => inr columns
  | _ => match List.find (λ f, negb (valid f)) fields with
         | Some f => inl (EntValidation f ("ent: invalid field " +:+ quoted f +:+ " for query"))
         | None => inr (id :: filterb (λ f, f != id) fields)
         end
  end.

(** [if value, ok := ...; ok { _node.X = value }]. *)
Definition assign {A N} (x : option A) (f : A → N → N) (n : N) : N := match x with Some v => f v n | None => n end.

(** ** Scanning ([sql.NullString] and the like) *)

Inductive scan_kind := SInt64 | SString | SBool | STime | SBytes | SUnknown.
Inductive scanned :=
| NullInt64 (v : option Z) | NullString (v : option string) | NullBool (v : option bool)
| NullTime (v : option Z) | NullBytes (v : option (gmap string json_value)) | UnknownType (v : option value).
Inductive scan_err := ScanMismatch (values columns : nat) | UnexpectedScan (v : scanned) (field : string).

(** What the driver makes of a column; JSON text is taken as decoded. *)
Definition scan (k : scan_kind) (v : option value) : scanned :=
  match k, v with
  | SInt64, None => NullInt64 None | SInt64, Some (VInt n) => NullInt64 (Some n)
  | SString, None => NullString None | SString, Some (VString s) => NullString (Some s)
  | SString, Some (VType s) => NullString (Some s)
  | SBool, None => NullBool None | SBool, Some (VBool b) => NullBool (Some b)
  | STime, None => NullTime None | STime, Some (VTime t) => NullTime (Some t)
  | SBytes, None => NullBytes None | SBytes, Some (VJSON m) => NullBytes (Some m)
  | _, _ => UnknownType v
  end.

(** The value of a column goes to the field, unless it is NULL. *)
Section Column.
Context {N : Type} (v : scanned) (field : string).
Definition assign_int (f : Z → N → N) (n : N) : scan_err + N :=
  match v with NullInt64 x => inr (assign x f n) | _ => inl (UnexpectedScan v field) end.
Definition assign_string (f : string → N → N) (n : N) : scan_err + N :=
  match v with NullString x => inr (assign x f n) | _ => inl (UnexpectedScan v field) end.
Definition assign_bool (f : bool → N → N) (n : N) : scan_err + N :=
  match v with NullBool x => inr (assign x f n) | _ => inl (UnexpectedScan v field) end.
Definition assign_time (f : Z → N → N) (n : N) : scan_err + N :=
  match v with NullTime x => inr (assign x f n) | _ => inl (UnexpectedScan v field) end.
Definition assign_bytes (f : gmap string json_value → N → N) (n : N) : scan_err + N :=
  match v with NullBytes x => inr (assign x f n) | _ => inl (UnexpectedScan v field) end.
(** The id is assigned in any case. *)
Definition assign_id (f : Z → N → N) (n : N) : scan_err + N :=
  match v with NullInt64 x => inr (f (default 0 x) n) | _ => inl (UnexpectedScan v field) end.
End Column.

Section Assign.
Context {N : Type} (f : string → scanned → N → scan_err + N).

Fixpoint assign_loop (columns : list string) (values : list scanned) (n : N) : scan_err + N :=
  match columns, values with
  | c :: columns, v :: values => match f c v n with inl e => inl e | inr n => assign_loop columns values n end
  | _, _ => inr n
  end.
Definition assign_all (columns : list string) (values : list scanned) (n : N) : scan_err + N :=
  if (length values <? length columns)%nat then inl (ScanMismatch (length values) (length columns))
  else assign_loop columns values n.
End Assign.

(** ** The SQL graph library

    What the builders ask of [entgo.io/ent/dialect/sql/sqlgraph], as an interface: each
    function takes a specification and the database, and returns an error or the result
    with the database afterwards. *)
Inductive graph_err := GNotFound (msg : string) | GConstraint (msg : string) | GOther (msg : string) | GAssign (e : scan_err).

Class SqlGraph (DB : Type) := {
  g_CreateNode : CreateSpec → DB → (graph_err + Z) * DB;
  g_UpdateNodes : UpdateSpec → DB → (graph_err + Z) * DB;
  g_UpdateNode : ∀ {N}, UpdateSpec → (list (option value) → scan_err + N) → DB → (graph_err + N) * DB;
  g_DeleteNodes : string → list sql_pred → DB → (graph_err + Z) * DB }.

Definition create_error (e : graph_err) : ent_error :=
  match e with
  | GConstraint msg => EntConstraint msg
  | GNotFound msg | GOther msg => EntOther msg
  | GAssign (ScanMismatch _ _) => EntOther "mismatch number of scan values"
  | GAssign (UnexpectedScan _ field) => EntOther ("unexpected type for field " +:+ field)
  end.
Definition update_error (label : string) (e : graph_err) : ent_error :=
  match e with GNotFound _ => EntNotFound label | _ => create_error e end.

(** ** Hooks ([withHooks]): wrapped from the last to the first; a missing one is an error. *)
Section Hooks.
Context {M R : Type} (fail : ent_error → R).

Fixpoint wrap_hooks (mut : M → R) (rev_hooks : list (option ((M → R) → M → R))) : ent_error + (M → R) :=
  match rev_hooks with
  | [] => inr mut
  | None :: _ => inl (EntOther "ent: uninitialized hook (forgotten import ent/runtime?)")
  | Some h :: hooks => wrap_hooks (h mut) hooks
  end.

Definition withHooks (exec : M → R) (m : M) (hooks : list (option ((M → R) → M → R))) : R :=
  match hooks with
  | [] => exec m
  | _ => match wrap_hooks exec (rev hooks) with inl e => fail e | inr mut => mut m end
  end.
End Hooks.
