(* ===== verification/EntComponent.v ===== *)
(** * The generated code of the entity [Component]

    [ent/component/component.go], the entity of [ent/component.go], and
    its mutation in [ent/mutation.go]: the pointer fields of the struct are options, its
    maps are sets, and a method that changes the mutation returns it. *)

From S2P Require Import Prelude GoStrings GoTime Errors Models EntCore.
Local Open Scope Z_scope.

(** ** The package [component]: names, columns and defaults *)

Definition component_Label : string := "component".
Definition component_FieldID : string := "id".
Definition component_FieldName : string := "name".
Definition component_FieldCreatedAt : string := "created_at".
Definition component_FieldModifiedAt : string := "modified_at".
Definition component_FieldDeletedAt : string := "deleted_at".
Definition component_EdgeAttributes : string := "attributes".
Definition component_EdgeIncidents : string := "incidents".
Definition component_Table : string := "component".
Definition component_AttributesTable : string := "component_attribute".
Definition component_AttributesInverseTable : string := "component_attribute".
Definition component_AttributesColumn : string := "component_id".
Definition component_IncidentsTable : string := "incident_component_relation".
Definition component_IncidentsInverseTable : string := "incident".
Definition component_Columns : list string :=
  [component_FieldID; component_FieldName; component_FieldCreatedAt; component_FieldModifiedAt;
    component_FieldDeletedAt].
Definition component_IncidentsPrimaryKey : list string := ["incident_id"; "component_id"].
Definition component_ValidColumn (column : string) : bool := existsb (λ c, column == c) component_Columns.
Definition component_NameValidator : string → bool := NotEmpty.
Definition component_newAttributesStep : Step :=
  mkStep O2M false component_AttributesTable [component_AttributesColumn] (Some
    component_AttributesInverseTable).
Definition component_newIncidentsStep : Step :=
  mkStep M2M true component_IncidentsTable component_IncidentsPrimaryKey (Some component_IncidentsInverseTable).

(** ** The entity, without its loaded edges *)

Record ComponentNode := mkComponentNode {
  cn_ID : Z; cn_Name : string; cn_CreatedAt : Z; cn_ModifiedAt : Z; cn_DeletedAt : Z }.
(** [&Component{}] *)
Definition newComponentNode : ComponentNode := mkComponentNode 0 "" zero_time zero_time zero_time.

(** ** The mutation *)

Record ComponentMutation := mkComponentMutation {
  cm_config : config; cm_op : Op; cm_typ : string; cm_id : option Z; cm_name : option string;
  cm_created_at : option Z; cm_modified_at : option Z; cm_deleted_at : option Z;
  cm_clearedFields : gset string; cm_attributes : option (gset Z);
  cm_removedattributes : option (gset Z); cm_clearedattributes : bool; cm_incidents : option (gset Z);
  cm_removedincidents : option (gset Z); cm_clearedincidents : bool; cm_done : bool;
  cm_oldValue : option (old ComponentNode); cm_predicates : list sql_pred }.
Definition newComponentMutation (c : config) (op : Op) (opts : list (ComponentMutation → ComponentMutation))
    : ComponentMutation :=
  foldl (λ m opt, opt m) {| cm_config := c; cm_op := op; cm_typ := "Component"; cm_id := None;
    cm_name := None; cm_created_at := None; cm_modified_at := None; cm_deleted_at := None;
    cm_clearedFields := ∅; cm_attributes := None; cm_removedattributes := None;
    cm_clearedattributes := false; cm_incidents := None; cm_removedincidents := None;
    cm_clearedincidents := false; cm_done := false; cm_oldValue := None; cm_predicates := [] |} opts.
Definition withComponentID (id : Z) (m : ComponentMutation) : ComponentMutation :=
  m <| cm_oldValue := Some (OldQuery id None) |> <| cm_id := Some id |>.
Definition withComponent (node : ComponentNode) (m : ComponentMutation) : ComponentMutation :=
  m <| cm_oldValue := Some (OldGiven node) |> <| cm_id := Some (cn_ID node) |>.
Definition ComponentMutation_Client (m : ComponentMutation) : config := cm_config m.
Definition ComponentMutation_Tx (m : ComponentMutation) : string + config :=
  if cfg_txDriver (cm_config m) then inr (cm_config m) else inl "ent: mutation is not running in a
    transaction"%string.
Definition ComponentMutation_SetID (id : Z) (m : ComponentMutation) : ComponentMutation :=
  m <| cm_id := Some id |>.
Definition ComponentMutation_ID (m : ComponentMutation) : option Z := cm_id m.
Definition ComponentMutation_IDs (query : list sql_pred → string + list Z) (m : ComponentMutation)
    : string + list Z :=
  match op_is (cm_op m) [OpUpdateOne; OpDeleteOne], ComponentMutation_ID m with
  | true, Some id => inr [id]
  | _, _ => if op_is (cm_op m) [OpUpdateOne; OpDeleteOne; OpUpdate; OpDelete] then query (cm_predicates m)
            else inl ("IDs is not allowed on " +:+ op_string (cm_op m) +:+ " operations")
  end.
Definition ComponentMutation_SetName (v : string) (m : ComponentMutation) : ComponentMutation :=
  m <| cm_name := Some v |>.
Definition ComponentMutation_Name (m : ComponentMutation) : option string := cm_name m.
Definition ComponentMutation_OldName (get : Z → string + ComponentNode) (m : ComponentMutation)
    : (string + string) * ComponentMutation :=
  let '(r, o) := old_field "OldName" (cm_op m) (cm_id m) (cm_oldValue m) (cm_done m) get cn_Name in (r, m
    <| cm_oldValue := o |>).
Definition ComponentMutation_ResetName (m : ComponentMutation) : ComponentMutation := m <| cm_name := None |>.
Definition ComponentMutation_SetCreatedAt (v : Z) (m : ComponentMutation) : ComponentMutation :=
  m <| cm_created_at := Some v |>.
Definition ComponentMutation_CreatedAt (m : ComponentMutation) : option Z := cm_created_at m.
Definition ComponentMutation_OldCreatedAt (get : Z → string + ComponentNode) (m : ComponentMutation)
    : (string + Z) * ComponentMutation :=
  let '(r, o) := old_field "OldCreatedAt" (cm_op m) (cm_id m) (cm_oldValue m) (cm_done m) get cn_CreatedAt in
    (r, m <| cm_oldValue := o |>).
Definition ComponentMutation_ClearCreatedAt (m : ComponentMutation) : ComponentMutation :=
  m <| cm_created_at := None |> <| cm_clearedFields ::= (λ c, {[component_FieldCreatedAt]} ∪ c) |>.
Definition ComponentMutation_CreatedAtCleared (m : ComponentMutation) : bool :=
  bool_decide (component_FieldCreatedAt ∈ cm_clearedFields m).
Definition ComponentMutation_ResetCreatedAt (m : ComponentMutation) : ComponentMutation :=
  m <| cm_created_at := None |> <| cm_clearedFields ::= (λ c, c ∖ {[component_FieldCreatedAt]}) |>.
Definition ComponentMutation_SetModifiedAt (v : Z) (m : ComponentMutation) : ComponentMutation :=
  m <| cm_modified_at := Some v |>.
Definition ComponentMutation_ModifiedAt (m : ComponentMutation) : option Z := cm_modified_at m.
Definition ComponentMutation_OldModifiedAt (get : Z → string + ComponentNode) (m : ComponentMutation)
    : (string + Z) * ComponentMutation :=
  let '(r, o) := old_field "OldModifiedAt" (cm_op m) (cm_id m) (cm_oldValue m) (cm_done m) get cn_ModifiedAt
    in (r, m <| cm_oldValue := o |>).
Definition ComponentMutation_ClearModifiedAt (m : ComponentMutation) : ComponentMutation :=
  m <| cm_modified_at := None |> <| cm_clearedFields ::= (λ c, {[component_FieldModifiedAt]} ∪ c) |>.
Definition ComponentMutation_ModifiedAtCleared (m : ComponentMutation) : bool :=
  bool_decide (component_FieldModifiedAt ∈ cm_clearedFields m).
Definition ComponentMutation_ResetModifiedAt (m : ComponentMutation) : ComponentMutation :=
  m <| cm_modified_at := None |> <| cm_clearedFields ::= (λ c, c ∖ {[component_FieldModifiedAt]}) |>.
Definition ComponentMutation_SetDeletedAt (v : Z) (m : ComponentMutation) : ComponentMutation :=
  m <| cm_deleted_at := Some v |>.
Definition ComponentMutation_DeletedAt (m : ComponentMutation) : option Z := cm_deleted_at m.
Definition ComponentMutation_OldDeletedAt (get : Z → string + ComponentNode) (m : ComponentMutation)
    : (string + Z) * ComponentMutation :=
  let '(r, o) := old_field "OldDeletedAt" (cm_op m) (cm_id m) (cm_oldValue m) (cm_done m) get cn_DeletedAt in
    (r, m <| cm_oldValue := o |>).
Definition ComponentMutation_ClearDeletedAt (m : ComponentMutation) : ComponentMutation :=
  m <| cm_deleted_at := None |> <| cm_clearedFields ::= (λ c, {[component_FieldDeletedAt]} ∪ c) |>.
Definition ComponentMutation_DeletedAtCleared (m : ComponentMutation) : bool :=
  bool_decide (component_FieldDeletedAt ∈ cm_clearedFields m).
Definition ComponentMutation_ResetDeletedAt (m : ComponentMutation) : ComponentMutation :=
  m <| cm_deleted_at := None |> <| cm_clearedFields ::= (λ c, c ∖ {[component_FieldDeletedAt]}) |>.
Definition ComponentMutation_AddAttributeIDs (ids : list Z) (m : ComponentMutation) : ComponentMutation :=
  m <| cm_attributes ::= add_ids ids |>.
Definition ComponentMutation_ClearAttributes (m : ComponentMutation) : ComponentMutation :=
  m <| cm_clearedattributes := true |>.
Definition ComponentMutation_AttributesCleared (m : ComponentMutation) : bool := cm_clearedattributes m.
Definition ComponentMutation_RemoveAttributeIDs (ids : list Z) (m : ComponentMutation) : ComponentMutation :=
  m <| cm_attributes ::= drop_ids ids |> <| cm_removedattributes ::= add_ids ids |>.
Definition ComponentMutation_RemovedAttributesIDs (m : ComponentMutation) : list Z :=
  edge_ids (cm_removedattributes m).
Definition ComponentMutation_AttributesIDs (m : ComponentMutation) : list Z := edge_ids (cm_attributes m).
Definition ComponentMutation_ResetAttributes (m : ComponentMutation) : ComponentMutation :=
  m <| cm_attributes := None |> <| cm_clearedattributes := false |> <| cm_removedattributes := None |>.
Definition ComponentMutation_AddIncidentIDs (ids : list Z) (m : ComponentMutation) : ComponentMutation :=
  m <| cm_incidents ::= add_ids ids |>.
Definition ComponentMutation_ClearIncidents (m : ComponentMutation) : ComponentMutation :=
  m <| cm_clearedincidents := true |>.
Definition ComponentMutation_IncidentsCleared (m : ComponentMutation) : bool := cm_clearedincidents m.
Definition ComponentMutation_RemoveIncidentIDs (ids : list Z) (m : ComponentMutation) : ComponentMutation :=
  m <| cm_incidents ::= drop_ids ids |> <| cm_removedincidents ::= add_ids ids |>.
Definition ComponentMutation_RemovedIncidentsIDs (m : ComponentMutation) : list Z :=
  edge_ids (cm_removedincidents m).
Definition ComponentMutation_IncidentsIDs (m : ComponentMutation) : list Z := edge_ids (cm_incidents m).
Definition ComponentMutation_ResetIncidents (m : ComponentMutation) : ComponentMutation :=
  m <| cm_incidents := None |> <| cm_clearedincidents := false |> <| cm_removedincidents := None |>.
Definition ComponentMutation_Where (ps : list sql_pred) (m : ComponentMutation) : ComponentMutation :=
  m <| cm_predicates ::= (λ old, old ++ ps) |>.
Definition ComponentMutation_WhereP (ps : list sql_pred) (m : ComponentMutation) : ComponentMutation :=
  ComponentMutation_Where ps m.
Definition ComponentMutation_Op (m : ComponentMutation) : Op := cm_op m.
Definition ComponentMutation_SetOp (op : Op) (m : ComponentMutation) : ComponentMutation := m <| cm_op := op |>.
Definition ComponentMutation_Type (m : ComponentMutation) : string := cm_typ m.
Definition ComponentMutation_Fields (m : ComponentMutation) : list string :=
  collect
  [(component_FieldName, some (cm_name m));
   (component_FieldCreatedAt, some (cm_created_at m));
   (component_FieldModifiedAt, some (cm_modified_at m));
   (component_FieldDeletedAt, some (cm_deleted_at m))].
Definition ComponentMutation_Field (name : string) (m : ComponentMutation) : option value :=
  switch name
  [(component_FieldName, VString <$> ComponentMutation_Name m);
   (component_FieldCreatedAt, VTime <$> ComponentMutation_CreatedAt m);
   (component_FieldModifiedAt, VTime <$> ComponentMutation_ModifiedAt m);
   (component_FieldDeletedAt, VTime <$> ComponentMutation_DeletedAt m)]
  None.
Definition ComponentMutation_OldField (get : Z → string + ComponentNode) (name : string) (m : ComponentMutation)
    : (string + option value) * ComponentMutation :=
  switch name
  [(component_FieldName, old_any (Some ∘ VString) (ComponentMutation_OldName get m));
   (component_FieldCreatedAt, old_any (Some ∘ VTime) (ComponentMutation_OldCreatedAt get m));
   (component_FieldModifiedAt, old_any (Some ∘ VTime) (ComponentMutation_OldModifiedAt get m));
   (component_FieldDeletedAt, old_any (Some ∘ VTime) (ComponentMutation_OldDeletedAt get m))]
  (inl ("unknown Component field " +:+ name), m).
Definition ComponentMutation_SetField (name : string) (v : value) (m : ComponentMutation)
    : string + ComponentMutation :=
  switch name
  [(component_FieldName, as_string name v (λ v, ComponentMutation_SetName v m));
   (component_FieldCreatedAt, as_time name v (λ v, ComponentMutation_SetCreatedAt v m));
   (component_FieldModifiedAt, as_time name v (λ v, ComponentMutation_SetModifiedAt v m));
   (component_FieldDeletedAt, as_time name v (λ v, ComponentMutation_SetDeletedAt v m))]
  (inl ("unknown Component field " +:+ name)).
Definition ComponentMutation_AddedFields (m : ComponentMutation) : list string :=
  [].
Definition ComponentMutation_AddedField (name : string) (m : ComponentMutation) : option value :=
  None.
Definition ComponentMutation_AddField (name : string) (v : value) (m : ComponentMutation)
    : string + ComponentMutation :=
  (inl ("unknown Component numeric field " +:+ name)).
Definition ComponentMutation_FieldCleared (name : string) (m : ComponentMutation) : bool :=
  bool_decide (name ∈ cm_clearedFields m).
Definition ComponentMutation_ClearedFields (m : ComponentMutation) : list string :=
  collect
  [(component_FieldCreatedAt, ComponentMutation_FieldCleared component_FieldCreatedAt m);
   (component_FieldModifiedAt, ComponentMutation_FieldCleared component_FieldModifiedAt m);
   (component_FieldDeletedAt, ComponentMutation_FieldCleared component_FieldDeletedAt m)].
Definition ComponentMutation_ClearField (name : string) (m : ComponentMutation) : string + ComponentMutation :=
  switch name
  [(component_FieldCreatedAt, inr (ComponentMutation_ClearCreatedAt m));
   (component_FieldModifiedAt, inr (ComponentMutation_ClearModifiedAt m));
   (component_FieldDeletedAt, inr (ComponentMutation_ClearDeletedAt m))]
  (inl ("unknown Component nullable field " +:+ name)).
Definition ComponentMutation_ResetField (name : string) (m : ComponentMutation) : string + ComponentMutation :=
  switch name
  [(component_FieldName, inr (ComponentMutation_ResetName m));
   (component_FieldCreatedAt, inr (ComponentMutation_ResetCreatedAt m));
   (component_FieldModifiedAt, inr (ComponentMutation_ResetModifiedAt m));
   (component_FieldDeletedAt, inr (ComponentMutation_ResetDeletedAt m))]
  (inl ("unknown Component field " +:+ name)).
Definition ComponentMutation_AddedEdges (m : ComponentMutation) : list string :=
  collect
  [(component_EdgeAttributes, some (cm_attributes m));
   (component_EdgeIncidents, some (cm_incidents m))].
Definition ComponentMutation_AddedIDs (name : string) (m : ComponentMutation) : list Z :=
  switch name
  [(component_EdgeAttributes, edge_ids (cm_attributes m));
   (component_EdgeIncidents, edge_ids (cm_incidents m))]
  [].
Definition ComponentMutation_RemovedEdges (m : ComponentMutation) : list string :=
  collect
  [(component_EdgeAttributes, some (cm_removedattributes m));
   (component_EdgeIncidents, some (cm_removedincidents m))].
Definition ComponentMutation_RemovedIDs (name : string) (m : ComponentMutation) : list Z :=
  switch name
  [(component_EdgeAttributes, edge_ids (cm_removedattributes m));
   (component_EdgeIncidents, edge_ids (cm_removedincidents m))]
  [].
Definition ComponentMutation_ClearedEdges (m : ComponentMutation) : list string :=
  collect
  [(component_EdgeAttributes, cm_clearedattributes m);
   (component_EdgeIncidents, cm_clearedincidents m)].
Definition ComponentMutation_EdgeCleared (name : string) (m : ComponentMutation) : bool :=
  switch name
  [(component_EdgeAttributes, cm_clearedattributes m);
   (component_EdgeIncidents, cm_clearedincidents m)]
  false.
Definition ComponentMutation_ClearEdge (name : string) (m : ComponentMutation) : string + ComponentMutation :=
  (inl ("unknown Component unique edge " +:+ name)).
Definition ComponentMutation_ResetEdge (name : string) (m : ComponentMutation) : string + ComponentMutation :=
  switch name
  [(component_EdgeAttributes, inr (ComponentMutation_ResetAttributes m));
   (component_EdgeIncidents, inr (ComponentMutation_ResetIncidents m))]
  (inl ("unknown Component edge " +:+ name)).
