(* ===== verification/EntComponentAttr.v ===== *)
(** * The generated code of the entity [ComponentAttr]

    [ent/componentattr/componentattr.go], the entity of [ent/componentattr.go], and
    its mutation in [ent/mutation.go]: the pointer fields of the struct are options, its
    maps are sets, and a method that changes the mutation returns it. *)

From S2P Require Import Prelude GoStrings GoTime Errors Models EntCore.
Local Open Scope Z_scope.

(** ** The package [componentattr]: names, columns and defaults *)

Definition componentattr_Label : string := "component_attr".
Definition componentattr_FieldID : string := "id".
Definition componentattr_FieldComponentID : string := "component_id".
Definition componentattr_FieldName : string := "name".
Definition componentattr_FieldValue : string := "value".
Definition componentattr_EdgeComponent : string := "component".
Definition componentattr_Table : string := "component_attribute".
Definition componentattr_ComponentTable : string := "component_attribute".
Definition componentattr_ComponentInverseTable : string := "component".
Definition componentattr_ComponentColumn : string := "component_id".
Definition componentattr_Columns : list string :=
  [componentattr_FieldID; componentattr_FieldComponentID; componentattr_FieldName; componentattr_FieldValue].
Definition componentattr_ValidColumn (column : string) : bool :=
  existsb (λ c, column == c) componentattr_Columns.
Definition componentattr_NameValidator : string → bool := NotEmpty.
Definition componentattr_ValueValidator : string → bool := NotEmpty.
Definition componentattr_newComponentStep : Step :=
  mkStep M2O true componentattr_ComponentTable [componentattr_ComponentColumn] (Some
    componentattr_ComponentInverseTable).

(** ** The entity, without its loaded edges *)

Record ComponentAttrNode := mkComponentAttrNode {
  an_ID : Z; an_ComponentID : Z; an_Name : string; an_Value : string }.
(** [&ComponentAttr{}] *)
Definition newComponentAttrNode : ComponentAttrNode := mkComponentAttrNode 0 0 "" "".

(** ** The mutation *)

Record ComponentAttrMutation := mkComponentAttrMutation {
  am_config : config; am_op : Op; am_typ : string; am_id : option Z; am_name : option string;
  am_value : option string; am_clearedFields : gset string; am_component : option Z;
  am_clearedcomponent : bool; am_done : bool; am_oldValue : option (old ComponentAttrNode);
  am_predicates : list sql_pred }.
Definition newComponentAttrMutation (c : config) (op : Op) (opts : list (ComponentAttrMutation → ComponentAttrMutation))
    : ComponentAttrMutation :=
  foldl (λ m opt, opt m) {| am_config := c; am_op := op; am_typ := "ComponentAttr"; am_id := None;
    am_name := None; am_value := None; am_clearedFields := ∅; am_component := None;
    am_clearedcomponent := false; am_done := false; am_oldValue := None; am_predicates := [] |} opts.
Definition withComponentAttrID (id : Z) (m : ComponentAttrMutation) : ComponentAttrMutation :=
  m <| am_oldValue := Some (OldQuery id None) |> <| am_id := Some id |>.
Definition withComponentAttr (node : ComponentAttrNode) (m : ComponentAttrMutation) : ComponentAttrMutation :=
  m <| am_oldValue := Some (OldGiven node) |> <| am_id := Some (an_ID node) |>.
Definition ComponentAttrMutation_Client (m : ComponentAttrMutation) : config := am_config m.
Definition ComponentAttrMutation_Tx (m : ComponentAttrMutation) : string + config :=
  if cfg_txDriver (am_config m) then inr (am_config m) else inl "ent: mutation is not running in a
    transaction"%string.
Definition ComponentAttrMutation_SetID (id : Z) (m : ComponentAttrMutation) : ComponentAttrMutation :=
  m <| am_id := Some id |>.
Definition ComponentAttrMutation_ID (m : ComponentAttrMutation) : option Z := am_id m.
Definition ComponentAttrMutation_IDs (query : list sql_pred → string + list Z) (m : ComponentAttrMutation)
    : string + list Z :=
  match op_is (am_op m) [OpUpdateOne; OpDeleteOne], ComponentAttrMutation_ID m with
  | true, Some id => inr [id]
  | _, _ => if op_is (am_op m) [OpUpdateOne; OpDeleteOne; OpUpdate; OpDelete] then query (am_predicates m)
            else inl ("IDs is not allowed on " +:+ op_string (am_op m) +:+ " operations")
  end.
Definition ComponentAttrMutation_SetComponentID (v : Z) (m : ComponentAttrMutation) : ComponentAttrMutation :=
  m <| am_component := Some v |>.
Definition ComponentAttrMutation_ComponentID (m : ComponentAttrMutation) : option Z := am_component m.
Definition ComponentAttrMutation_OldComponentID (get : Z → string + ComponentAttrNode) (m : ComponentAttrMutation)
    : (string + Z) * ComponentAttrMutation :=
  let '(r, o) := old_field "OldComponentID" (am_op m) (am_id m) (am_oldValue m) (am_done m) get
    an_ComponentID in (r, m <| am_oldValue := o |>).
Definition ComponentAttrMutation_ClearComponentID (m : ComponentAttrMutation) : ComponentAttrMutation :=
  m <| am_component := None |> <| am_clearedFields ::= (λ c, {[componentattr_FieldComponentID]} ∪ c) |>.
Definition ComponentAttrMutation_ComponentIDCleared (m : ComponentAttrMutation) : bool :=
  bool_decide (componentattr_FieldComponentID ∈ am_clearedFields m).
Definition ComponentAttrMutation_ResetComponentID (m : ComponentAttrMutation) : ComponentAttrMutation :=
  m <| am_component := None |> <| am_clearedFields ::= (λ c, c ∖ {[componentattr_FieldComponentID]}) |>.
Definition ComponentAttrMutation_SetName (v : string) (m : ComponentAttrMutation) : ComponentAttrMutation :=
  m <| am_name := Some v |>.
Definition ComponentAttrMutation_Name (m : ComponentAttrMutation) : option string := am_name m.
Definition ComponentAttrMutation_OldName (get : Z → string + ComponentAttrNode) (m : ComponentAttrMutation)
    : (string + string) * ComponentAttrMutation :=
  let '(r, o) := old_field "OldName" (am_op m) (am_id m) (am_oldValue m) (am_done m) get an_Name in (r, m
    <| am_oldValue := o |>).
Definition ComponentAttrMutation_ResetName (m : ComponentAttrMutation) : ComponentAttrMutation :=
  m <| am_name := None |>.
Definition ComponentAttrMutation_SetValue (v : string) (m : ComponentAttrMutation) : ComponentAttrMutation :=
  m <| am_value := Some v |>.
Definition ComponentAttrMutation_Value (m : ComponentAttrMutation) : option string := am_value m.
Definition ComponentAttrMutation_OldValue (get : Z → string + ComponentAttrNode) (m : ComponentAttrMutation)
    : (string + string) * ComponentAttrMutation :=
  let '(r, o) := old_field "OldValue" (am_op m) (am_id m) (am_oldValue m) (am_done m) get an_Value in (r, m
    <| am_oldValue := o |>).
Definition ComponentAttrMutation_ResetValue (m : ComponentAttrMutation) : ComponentAttrMutation :=
  m <| am_value := None |>.
Definition ComponentAttrMutation_ClearComponent (m : ComponentAttrMutation) : ComponentAttrMutation :=
  m <| am_clearedcomponent := true |> <| am_clearedFields ::= (λ c, {[componentattr_FieldComponentID]} ∪ c) |>.
Definition ComponentAttrMutation_ComponentCleared (m : ComponentAttrMutation) : bool :=
  ComponentAttrMutation_ComponentIDCleared m || am_clearedcomponent m.
Definition ComponentAttrMutation_ComponentIDs (m : ComponentAttrMutation) : list Z :=
  option_list (am_component m).
Definition ComponentAttrMutation_ResetComponent (m : ComponentAttrMutation) : ComponentAttrMutation :=
  m <| am_component := None |> <| am_clearedcomponent := false |>.
Definition ComponentAttrMutation_Where (ps : list sql_pred) (m : ComponentAttrMutation)
    : ComponentAttrMutation :=
  m <| am_predicates ::= (λ old, old ++ ps) |>.
Definition ComponentAttrMutation_WhereP (ps : list sql_pred) (m : ComponentAttrMutation)
    : ComponentAttrMutation :=
  ComponentAttrMutation_Where ps m.
Definition ComponentAttrMutation_Op (m : ComponentAttrMutation) : Op := am_op m.
Definition ComponentAttrMutation_SetOp (op : Op) (m : ComponentAttrMutation) : ComponentAttrMutation :=
  m <| am_op := op |>.
Definition ComponentAttrMutation_Type (m : ComponentAttrMutation) : string := am_typ m.
Definition ComponentAttrMutation_Fields (m : ComponentAttrMutation) : list string :=
  collect
  [(componentattr_FieldComponentID, some (am_component m));
   (componentattr_FieldName, some (am_name m));
   (componentattr_FieldValue, some (am_value m))].
Definition ComponentAttrMutation_Field (name : string) (m : ComponentAttrMutation) : option value :=
  switch name
  [(componentattr_FieldComponentID, VInt <$> ComponentAttrMutation_ComponentID m);
   (componentattr_FieldName, VString <$> ComponentAttrMutation_Name m);
   (componentattr_FieldValue, VString <$> ComponentAttrMutation_Value m)]
  None.
Definition ComponentAttrMutation_OldField (get : Z → string + ComponentAttrNode) (name : string) (m : ComponentAttrMutation)
    : (string + option value) * ComponentAttrMutation :=
  switch name
  [(componentattr_FieldComponentID, old_any (Some ∘ VInt) (ComponentAttrMutation_OldComponentID get m));
   (componentattr_FieldName, old_any (Some ∘ VString) (ComponentAttrMutation_OldName get m));
   (componentattr_FieldValue, old_any (Some ∘ VString) (ComponentAttrMutation_OldValue get m))]
  (inl ("unknown ComponentAttr field " +:+ name), m).
Definition ComponentAttrMutation_SetField (name : string) (v : value) (m : ComponentAttrMutation)
    : string + ComponentAttrMutation :=
  switch name
  [(componentattr_FieldComponentID, as_int name v (λ v, ComponentAttrMutation_SetComponentID v m));
   (componentattr_FieldName, as_string name v (λ v, ComponentAttrMutation_SetName v m));
   (componentattr_FieldValue, as_string name v (λ v, ComponentAttrMutation_SetValue v m))]
  (inl ("unknown ComponentAttr field " +:+ name)).
Definition ComponentAttrMutation_AddedFields (m : ComponentAttrMutation) : list string :=
  [].
Definition ComponentAttrMutation_AddedField (name : string) (m : ComponentAttrMutation) : option value :=
  None.
Definition ComponentAttrMutation_AddField (name : string) (v : value) (m : ComponentAttrMutation)
    : string + ComponentAttrMutation :=
  (inl ("unknown ComponentAttr numeric field " +:+ name)).
Definition ComponentAttrMutation_FieldCleared (name : string) (m : ComponentAttrMutation) : bool :=
  bool_decide (name ∈ am_clearedFields m).
Definition ComponentAttrMutation_ClearedFields (m : ComponentAttrMutation) : list string :=
  collect
  [(componentattr_FieldComponentID, ComponentAttrMutation_FieldCleared componentattr_FieldComponentID m)].
Definition ComponentAttrMutation_ClearField (name : string) (m : ComponentAttrMutation)
    : string + ComponentAttrMutation :=
  switch name
  [(componentattr_FieldComponentID, inr (ComponentAttrMutation_ClearComponentID m))]
  (inl ("unknown ComponentAttr nullable field " +:+ name)).
Definition ComponentAttrMutation_ResetField (name : string) (m : ComponentAttrMutation)
    : string + ComponentAttrMutation :=
  switch name
  [(componentattr_FieldComponentID, inr (ComponentAttrMutation_ResetComponentID m));
   (componentattr_FieldName, inr (ComponentAttrMutation_ResetName m));
   (componentattr_FieldValue, inr (ComponentAttrMutation_ResetValue m))]
  (inl ("unknown ComponentAttr field " +:+ name)).
Definition ComponentAttrMutation_AddedEdges (m : ComponentAttrMutation) : list string :=
  collect
  [(componentattr_EdgeComponent, some (am_component m))].
Definition ComponentAttrMutation_AddedIDs (name : string) (m : ComponentAttrMutation) : list Z :=
  switch name
  [(componentattr_EdgeComponent, option_list (am_component m))]
  [].
Definition ComponentAttrMutation_RemovedEdges (m : ComponentAttrMutation) : list string :=
  [].
Definition ComponentAttrMutation_RemovedIDs (name : string) (m : ComponentAttrMutation) : list Z :=
  [].
Definition ComponentAttrMutation_ClearedEdges (m : ComponentAttrMutation) : list string :=
  collect
  [(componentattr_EdgeComponent, am_clearedcomponent m)].
Definition ComponentAttrMutation_EdgeCleared (name : string) (m : ComponentAttrMutation) : bool :=
  switch name
  [(componentattr_EdgeComponent, am_clearedcomponent m)]
  false.
Definition ComponentAttrMutation_ClearEdge (name : string) (m : ComponentAttrMutation)
    : string + ComponentAttrMutation :=
  switch name
  [(componentattr_EdgeComponent, inr (ComponentAttrMutation_ClearComponent m))]
  (inl ("unknown ComponentAttr unique edge " +:+ name)).
Definition ComponentAttrMutation_ResetEdge (name : string) (m : ComponentAttrMutation)
    : string + ComponentAttrMutation :=
  switch name
  [(componentattr_EdgeComponent, inr (ComponentAttrMutation_ResetComponent m))]
  (inl ("unknown ComponentAttr edge " +:+ name)).
