(* ===== verification/EntIncident.v ===== *)
(** * The generated code of the entity [Incident]

    [ent/incident/incident.go], the entity of [ent/incident.go], and
    its mutation in [ent/mutation.go]: the pointer fields of the struct are options, its
    maps are sets, and a method that changes the mutation returns it. *)

From S2P Require Import Prelude GoStrings GoTime Errors Models EntCore.
Local Open Scope Z_scope.

(** ** The package [incident]: names, columns and defaults *)

Definition incident_Label : string := "incident".
Definition incident_FieldID : string := "id".
Definition incident_FieldText : string := "text".
Definition incident_FieldDescription : string := "description".
Definition incident_FieldStartDate : string := "start_date".
Definition incident_FieldEndDate : string := "end_date".
Definition incident_FieldImpact : string := "impact".
Definition incident_FieldSystem : string := "system".
Definition incident_FieldType : string := "type".
Definition incident_FieldStatus : string := "status".
Definition incident_FieldCreatedAt : string := "created_at".
Definition incident_FieldModifiedAt : string := "modified_at".
Definition incident_FieldDeletedAt : string := "deleted_at".
Definition incident_FieldCreatedBy : string := "created_by".
Definition incident_FieldContactEmail : string := "contact_email".
Definition incident_FieldVersion : string := "version".
Definition incident_EdgeComponents : string := "components".
Definition incident_EdgeNotifications : string := "notifications".
Definition incident_Table : string := "incident".
Definition incident_ComponentsTable : string := "incident_component_relation".
Definition incident_ComponentsInverseTable : string := "component".
Definition incident_NotificationsTable : string := "notification_outbox".
Definition incident_NotificationsInverseTable : string := "notification_outbox".
Definition incident_NotificationsColumn : string := "incident_id".
Definition incident_Columns : list string :=
  [incident_FieldID; incident_FieldText; incident_FieldDescription; incident_FieldStartDate;
    incident_FieldEndDate; incident_FieldImpact; incident_FieldSystem; incident_FieldType;
    incident_FieldStatus; incident_FieldCreatedAt; incident_FieldModifiedAt; incident_FieldDeletedAt;
    incident_FieldCreatedBy; incident_FieldContactEmail; incident_FieldVersion].
Definition incident_ComponentsPrimaryKey : list string := ["incident_id"; "component_id"].
Definition incident_ValidColumn (column : string) : bool := existsb (λ c, column == c) incident_Columns.
Definition incident_TextValidator : string → bool := NotEmpty.
Definition incident_DefaultSystem : bool := false.
Definition incident_DefaultVersion : Z := 1.
Definition incident_TypeIncident : string := "incident".
Definition incident_TypeInfo : string := "info".
Definition incident_TypeMaintenance : string := "maintenance".
Definition incident_TypeValidator (t : string) : bool :=
  bool_decide (t ∈ [incident_TypeIncident; incident_TypeInfo; incident_TypeMaintenance]).
Definition incident_newComponentsStep : Step :=
  mkStep M2M false incident_ComponentsTable incident_ComponentsPrimaryKey (Some
    incident_ComponentsInverseTable).
Definition incident_newNotificationsStep : Step :=
  mkStep O2M false incident_NotificationsTable [incident_NotificationsColumn] (Some
    incident_NotificationsInverseTable).

(** ** The entity, without its loaded edges *)

Record IncidentNode := mkIncidentNode {
  in_ID : Z; in_Text : string; in_Description : option string; in_StartDate : Z; in_EndDate : Z;
    in_Impact : Z; in_System : bool; in_Type : string; in_Status : string; in_CreatedAt : Z;
    in_ModifiedAt : Z; in_DeletedAt : Z; in_CreatedBy : option string; in_ContactEmail : option string;
    in_Version : Z }.
(** [&Incident{}] *)
Definition newIncidentNode : IncidentNode := mkIncidentNode 0 "" None zero_time zero_time 0 false "" ""
  zero_time zero_time zero_time None None 0.

(** ** The mutation *)

Record IncidentMutation := mkIncidentMutation {
  im_config : config; im_op : Op; im_typ : string; im_id : option Z; im_text : option string;
  im_description : option string; im_start_date : option Z; im_end_date : option Z; im_impact : option Z;
  im_addimpact : option Z; im_system : option bool; im_type : option string; im_status : option string;
  im_created_at : option Z; im_modified_at : option Z; im_deleted_at : option Z;
  im_created_by : option string; im_contact_email : option string; im_version : option Z;
  im_addversion : option Z; im_clearedFields : gset string; im_components : option (gset Z);
  im_removedcomponents : option (gset Z); im_clearedcomponents : bool;
  im_notifications : option (gset Z); im_removednotifications : option (gset Z);
  im_clearednotifications : bool; im_done : bool; im_oldValue : option (old IncidentNode);
  im_predicates : list sql_pred }.
Definition newIncidentMutation (c : config) (op : Op) (opts : list (IncidentMutation → IncidentMutation))
    : IncidentMutation :=
  foldl (λ m opt, opt m) {| im_config := c; im_op := op; im_typ := "Incident"; im_id := None;
    im_text := None; im_description := None; im_start_date := None; im_end_date := None; im_impact := None;
    im_addimpact := None; im_system := None; im_type := None; im_status := None; im_created_at := None;
    im_modified_at := None; im_deleted_at := None; im_created_by := None; im_contact_email := None;
    im_version := None; im_addversion := None; im_clearedFields := ∅; im_components := None;
    im_removedcomponents := None; im_clearedcomponents := false; im_notifications := None;
    im_removednotifications := None; im_clearednotifications := false; im_done := false; im_oldValue := None;
    im_predicates := [] |} opts.
Definition withIncidentID (id : Z) (m : IncidentMutation) : IncidentMutation :=
  m <| im_oldValue := Some (OldQuery id None) |> <| im_id := Some id |>.
Definition withIncident (node : IncidentNode) (m : IncidentMutation) : IncidentMutation :=
  m <| im_oldValue := Some (OldGiven node) |> <| im_id := Some (in_ID node) |>.
Definition IncidentMutation_Client (m : IncidentMutation) : config := im_config m.
Definition IncidentMutation_Tx (m : IncidentMutation) : string + config :=
  if cfg_txDriver (im_config m) then inr (im_config m) else inl "ent: mutation is not running in a
    transaction"%string.
Definition IncidentMutation_SetID (id : Z) (m : IncidentMutation) : IncidentMutation :=
  m <| im_id := Some id |>.
Definition IncidentMutation_ID (m : IncidentMutation) : option Z := im_id m.
Definition IncidentMutation_IDs (query : list sql_pred → string + list Z) (m : IncidentMutation)
    : string + list Z :=
  match op_is (im_op m) [OpUpdateOne; OpDeleteOne], IncidentMutation_ID m with
  | true, Some id => inr [id]
  | _, _ => if op_is (im_op m) [OpUpdateOne; OpDeleteOne; OpUpdate; OpDelete] then query (im_predicates m)
            else inl ("IDs is not allowed on " +:+ op_string (im_op m) +:+ " operations")
  end.
Definition IncidentMutation_SetText (v : string) (m : IncidentMutation) : IncidentMutation :=
  m <| im_text := Some v |>.
Definition IncidentMutation_Text (m : IncidentMutation) : option string := im_text m.
Definition IncidentMutation_OldText (get : Z → string + IncidentNode) (m : IncidentMutation)
    : (string + string) * IncidentMutation :=
  let '(r, o) := old_field "OldText" (im_op m) (im_id m) (im_oldValue m) (im_done m) get in_Text in (r, m
    <| im_oldValue := o |>).
Definition IncidentMutation_ResetText (m : IncidentMutation) : IncidentMutation := m <| im_text := None |>.
Definition IncidentMutation_SetDescription (v : string) (m : IncidentMutation) : IncidentMutation :=
  m <| im_description := Some v |>.
Definition IncidentMutation_Description (m : IncidentMutation) : option string := im_description m.
Definition IncidentMutation_OldDescription (get : Z → string + IncidentNode) (m : IncidentMutation)
    : (string + (option string)) * IncidentMutation :=
  let '(r, o) := old_field "OldDescription" (im_op m) (im_id m) (im_oldValue m) (im_done m) get
    in_Description in (r, m <| im_oldValue := o |>).
Definition IncidentMutation_ClearDescription (m : IncidentMutation) : IncidentMutation :=
  m <| im_description := None |> <| im_clearedFields ::= (λ c, {[incident_FieldDescription]} ∪ c) |>.
Definition IncidentMutation_DescriptionCleared (m : IncidentMutation) : bool :=
  bool_decide (incident_FieldDescription ∈ im_clearedFields m).
Definition IncidentMutation_ResetDescription (m : IncidentMutation) : IncidentMutation :=
  m <| im_description := None |> <| im_clearedFields ::= (λ c, c ∖ {[incident_FieldDescription]}) |>.
Definition IncidentMutation_SetStartDate (v : Z) (m : IncidentMutation) : IncidentMutation :=
  m <| im_start_date := Some v |>.
Definition IncidentMutation_StartDate (m : IncidentMutation) : option Z := im_start_date m.
Definition IncidentMutation_OldStartDate (get : Z → string + IncidentNode) (m : IncidentMutation)
    : (string + Z) * IncidentMutation :=
  let '(r, o) := old_field "OldStartDate" (im_op m) (im_id m) (im_oldValue m) (im_done m) get in_StartDate in
    (r, m <| im_oldValue := o |>).
Definition IncidentMutation_ResetStartDate (m : IncidentMutation) : IncidentMutation :=
  m <| im_start_date := None |>.
Definition IncidentMutation_SetEndDate (v : Z) (m : IncidentMutation) : IncidentMutation :=
  m <| im_end_date := Some v |>.
Definition IncidentMutation_EndDate (m : IncidentMutation) : option Z := im_end_date m.
Definition IncidentMutation_OldEndDate (get : Z → string + IncidentNode) (m : IncidentMutation)
    : (string + Z) * IncidentMutation :=
  let '(r, o) := old_field "OldEndDate" (im_op m) (im_id m) (im_oldValue m) (im_done m) get in_EndDate in (r,
    m <| im_oldValue := o |>).
Definition IncidentMutation_ClearEndDate (m : IncidentMutation) : IncidentMutation :=
  m <| im_end_date := None |> <| im_clearedFields ::= (λ c, {[incident_FieldEndDate]} ∪ c) |>.
Definition IncidentMutation_EndDateCleared (m : IncidentMutation) : bool :=
  bool_decide (incident_FieldEndDate ∈ im_clearedFields m).
Definition IncidentMutation_ResetEndDate (m : IncidentMutation) : IncidentMutation :=
  m <| im_end_date := None |> <| im_clearedFields ::= (λ c, c ∖ {[incident_FieldEndDate]}) |>.
Definition IncidentMutation_SetImpact (v : Z) (m : IncidentMutation) : IncidentMutation :=
  m <| im_impact := Some v |> <| im_addimpact := None |>.
Definition IncidentMutation_Impact (m : IncidentMutation) : option Z := im_impact m.
Definition IncidentMutation_OldImpact (get : Z → string + IncidentNode) (m : IncidentMutation)
    : (string + Z) * IncidentMutation :=
  let '(r, o) := old_field "OldImpact" (im_op m) (im_id m) (im_oldValue m) (im_done m) get in_Impact in (r, m
    <| im_oldValue := o |>).
Definition IncidentMutation_AddImpact (i : Z) (m : IncidentMutation) : IncidentMutation :=
  m <| im_addimpact ::= (λ a, match a with Some x => Some (int64 (x + i)) | None => Some i end) |>.
Definition IncidentMutation_AddedImpact (m : IncidentMutation) : option Z := im_addimpact m.
Definition IncidentMutation_ResetImpact (m : IncidentMutation) : IncidentMutation :=
  m <| im_impact := None |> <| im_addimpact := None |>.
Definition IncidentMutation_SetSystem (v : bool) (m : IncidentMutation) : IncidentMutation :=
  m <| im_system := Some v |>.
Definition IncidentMutation_System (m : IncidentMutation) : option bool := im_system m.
Definition IncidentMutation_OldSystem (get : Z → string + IncidentNode) (m : IncidentMutation)
    : (string + bool) * IncidentMutation :=
  let '(r, o) := old_field "OldSystem" (im_op m) (im_id m) (im_oldValue m) (im_done m) get in_System in (r, m
    <| im_oldValue := o |>).
Definition IncidentMutation_ResetSystem (m : IncidentMutation) : IncidentMutation := m <| im_system := None |>.
Definition IncidentMutation_SetType (v : string) (m : IncidentMutation) : IncidentMutation :=
  m <| im_type := Some v |>.
Definition IncidentMutation_GetType (m : IncidentMutation) : option string := im_type m.
Definition IncidentMutation_OldType (get : Z → string + IncidentNode) (m : IncidentMutation)
    : (string + string) * IncidentMutation :=
  let '(r, o) := old_field "OldType" (im_op m) (im_id m) (im_oldValue m) (im_done m) get in_Type in (r, m
    <| im_oldValue := o |>).
Definition IncidentMutation_ResetType (m : IncidentMutation) : IncidentMutation := m <| im_type := None |>.
Definition IncidentMutation_SetStatus (v : string) (m : IncidentMutation) : IncidentMutation :=
  m <| im_status := Some v |>.
Definition IncidentMutation_Status (m : IncidentMutation) : option string := im_status m.
Definition IncidentMutation_OldStatus (get : Z → string + IncidentNode) (m : IncidentMutation)
    : (string + string) * IncidentMutation :=
  let '(r, o) := old_field "OldStatus" (im_op m) (im_id m) (im_oldValue m) (im_done m) get in_Status in (r, m
    <| im_oldValue := o |>).
Definition IncidentMutation_ClearStatus (m : IncidentMutation) : IncidentMutation :=
  m <| im_status := None |> <| im_clearedFields ::= (λ c, {[incident_FieldStatus]} ∪ c) |>.
Definition IncidentMutation_StatusCleared (m : IncidentMutation) : bool :=
  bool_decide (incident_FieldStatus ∈ im_clearedFields m).
Definition IncidentMutation_ResetStatus (m : IncidentMutation) : IncidentMutation :=
  m <| im_status := None |> <| im_clearedFields ::= (λ c, c ∖ {[incident_FieldStatus]}) |>.
Definition IncidentMutation_SetCreatedAt (v : Z) (m : IncidentMutation) : IncidentMutation :=
  m <| im_created_at := Some v |>.
Definition IncidentMutation_CreatedAt (m : IncidentMutation) : option Z := im_created_at m.
Definition IncidentMutation_OldCreatedAt (get : Z → string + IncidentNode) (m : IncidentMutation)
    : (string + Z) * IncidentMutation :=
  let '(r, o) := old_field "OldCreatedAt" (im_op m) (im_id m) (im_oldValue m) (im_done m) get in_CreatedAt in
    (r, m <| im_oldValue := o |>).
Definition IncidentMutation_ClearCreatedAt (m : IncidentMutation) : IncidentMutation :=
  m <| im_created_at := None |> <| im_clearedFields ::= (λ c, {[incident_FieldCreatedAt]} ∪ c) |>.
Definition IncidentMutation_CreatedAtCleared (m : IncidentMutation) : bool :=
  bool_decide (incident_FieldCreatedAt ∈ im_clearedFields m).
Definition IncidentMutation_ResetCreatedAt (m : IncidentMutation) : IncidentMutation :=
  m <| im_created_at := None |> <| im_clearedFields ::= (λ c, c ∖ {[incident_FieldCreatedAt]}) |>.
Definition IncidentMutation_SetModifiedAt (v : Z) (m : IncidentMutation) : IncidentMutation :=
  m <| im_modified_at := Some v |>.
Definition IncidentMutation_ModifiedAt (m : IncidentMutation) : option Z := im_modified_at m.
Definition IncidentMutation_OldModifiedAt (get : Z → string + IncidentNode) (m : IncidentMutation)
    : (string + Z) * IncidentMutation :=
  let '(r, o) := old_field "OldModifiedAt" (im_op m) (im_id m) (im_oldValue m) (im_done m) get in_ModifiedAt
    in (r, m <| im_oldValue := o |>).
Definition IncidentMutation_ClearModifiedAt (m : IncidentMutation) : IncidentMutation :=
  m <| im_modified_at := None |> <| im_clearedFields ::= (λ c, {[incident_FieldModifiedAt]} ∪ c) |>.
Definition IncidentMutation_ModifiedAtCleared (m : IncidentMutation) : bool :=
  bool_decide (incident_FieldModifiedAt ∈ im_clearedFields m).
Definition IncidentMutation_ResetModifiedAt (m : IncidentMutation) : IncidentMutation :=
  m <| im_modified_at := None |> <| im_clearedFields ::= (λ c, c ∖ {[incident_FieldModifiedAt]}) |>.
Definition IncidentMutation_SetDeletedAt (v : Z) (m : IncidentMutation) : IncidentMutation :=
  m <| im_deleted_at := Some v |>.
Definition IncidentMutation_DeletedAt (m : IncidentMutation) : option Z := im_deleted_at m.
Definition IncidentMutation_OldDeletedAt (get : Z → string + IncidentNode) (m : IncidentMutation)
    : (string + Z) * IncidentMutation :=
  let '(r, o) := old_field "OldDeletedAt" (im_op m) (im_id m) (im_oldValue m) (im_done m) get in_DeletedAt in
    (r, m <| im_oldValue := o |>).
Definition IncidentMutation_ClearDeletedAt (m : IncidentMutation) : IncidentMutation :=
  m <| im_deleted_at := None |> <| im_clearedFields ::= (λ c, {[incident_FieldDeletedAt]} ∪ c) |>.
Definition IncidentMutation_DeletedAtCleared (m : IncidentMutation) : bool :=
  bool_decide (incident_FieldDeletedAt ∈ im_clearedFields m).
Definition IncidentMutation_ResetDeletedAt (m : IncidentMutation) : IncidentMutation :=
  m <| im_deleted_at := None |> <| im_clearedFields ::= (λ c, c ∖ {[incident_FieldDeletedAt]}) |>.
Definition IncidentMutation_SetCreatedBy (v : string) (m : IncidentMutation) : IncidentMutation :=
  m <| im_created_by := Some v |>.
Definition IncidentMutation_CreatedBy (m : IncidentMutation) : option string := im_created_by m.
Definition IncidentMutation_OldCreatedBy (get : Z → string + IncidentNode) (m : IncidentMutation)
    : (string + (option string)) * IncidentMutation :=
  let '(r, o) := old_field "OldCreatedBy" (im_op m) (im_id m) (im_oldValue m) (im_done m) get in_CreatedBy in
    (r, m <| im_oldValue := o |>).
Definition IncidentMutation_ClearCreatedBy (m : IncidentMutation) : IncidentMutation :=
  m <| im_created_by := None |> <| im_clearedFields ::= (λ c, {[incident_FieldCreatedBy]} ∪ c) |>.
Definition IncidentMutation_CreatedByCleared (m : IncidentMutation) : bool :=
  bool_decide (incident_FieldCreatedBy ∈ im_clearedFields m).
Definition IncidentMutation_ResetCreatedBy (m : IncidentMutation) : IncidentMutation :=
  m <| im_created_by := None |> <| im_clearedFields ::= (λ c, c ∖ {[incident_FieldCreatedBy]}) |>.
Definition IncidentMutation_SetContactEmail (v : string) (m : IncidentMutation) : IncidentMutation :=
  m <| im_contact_email := Some v |>.
Definition IncidentMutation_ContactEmail (m : IncidentMutation) : option string := im_contact_email m.
Definition IncidentMutation_OldContactEmail (get : Z → string + IncidentNode) (m : IncidentMutation)
    : (string + (option string)) * IncidentMutation :=
  let '(r, o) := old_field "OldContactEmail" (im_op m) (im_id m) (im_oldValue m) (im_done m) get
    in_ContactEmail in (r, m <| im_oldValue := o |>).
Definition IncidentMutation_ClearContactEmail (m : IncidentMutation) : IncidentMutation :=
  m <| im_contact_email := None |> <| im_clearedFields ::= (λ c, {[incident_FieldContactEmail]} ∪ c) |>.
Definition IncidentMutation_ContactEmailCleared (m : IncidentMutation) : bool :=
  bool_decide (incident_FieldContactEmail ∈ im_clearedFields m).
Definition IncidentMutation_ResetContactEmail (m : IncidentMutation) : IncidentMutation :=
  m <| im_contact_email := None |> <| im_clearedFields ::= (λ c, c ∖ {[incident_FieldContactEmail]}) |>.
Definition IncidentMutation_SetVersion (v : Z) (m : IncidentMutation) : IncidentMutation :=
  m <| im_version := Some v |> <| im_addversion := None |>.
Definition IncidentMutation_Version (m : IncidentMutation) : option Z := im_version m.
Definition IncidentMutation_OldVersion (get : Z → string + IncidentNode) (m : IncidentMutation)
    : (string + Z) * IncidentMutation :=
  let '(r, o) := old_field "OldVersion" (im_op m) (im_id m) (im_oldValue m) (im_done m) get in_Version in (r,
    m <| im_oldValue := o |>).
Definition IncidentMutation_AddVersion (i : Z) (m : IncidentMutation) : IncidentMutation :=
  m <| im_addversion ::= (λ a, match a with Some x => Some (int64 (x + i)) | None => Some i end) |>.
Definition IncidentMutation_AddedVersion (m : IncidentMutation) : option Z := im_addversion m.
Definition IncidentMutation_ResetVersion (m : IncidentMutation) : IncidentMutation :=
  m <| im_version := None |> <| im_addversion := None |>.
Definition IncidentMutation_AddComponentIDs (ids : list Z) (m : IncidentMutation) : IncidentMutation :=
  m <| im_components ::= add_ids ids |>.
Definition IncidentMutation_ClearComponents (m : IncidentMutation) : IncidentMutation :=
  m <| im_clearedcomponents := true |>.
Definition IncidentMutation_ComponentsCleared (m : IncidentMutation) : bool := im_clearedcomponents m.
Definition IncidentMutation_RemoveComponentIDs (ids : list Z) (m : IncidentMutation) : IncidentMutation :=
  m <| im_components ::= drop_ids ids |> <| im_removedcomponents ::= add_ids ids |>.
Definition IncidentMutation_RemovedComponentsIDs (m : IncidentMutation) : list Z :=
  edge_ids (im_removedcomponents m).
Definition IncidentMutation_ComponentsIDs (m : IncidentMutation) : list Z := edge_ids (im_components m).
Definition IncidentMutation_ResetComponents (m : IncidentMutation) : IncidentMutation :=
  m <| im_components := None |> <| im_clearedcomponents := false |> <| im_removedcomponents := None |>.
Definition IncidentMutation_AddNotificationIDs (ids : list Z) (m : IncidentMutation) : IncidentMutation :=
  m <| im_notifications ::= add_ids ids |>.
Definition IncidentMutation_ClearNotifications (m : IncidentMutation) : IncidentMutation :=
  m <| im_clearednotifications := true |>.
Definition IncidentMutation_NotificationsCleared (m : IncidentMutation) : bool := im_clearednotifications m.
Definition IncidentMutation_RemoveNotificationIDs (ids : list Z) (m : IncidentMutation) : IncidentMutation :=
  m <| im_notifications ::= drop_ids ids |> <| im_removednotifications ::= add_ids ids |>.
Definition IncidentMutation_RemovedNotificationsIDs (m : IncidentMutation) : list Z :=
  edge_ids (im_removednotifications m).
Definition IncidentMutation_NotificationsIDs (m : IncidentMutation) : list Z := edge_ids (im_notifications m).
Definition IncidentMutation_ResetNotifications (m : IncidentMutation) : IncidentMutation :=
  m <| im_notifications := None |> <| im_clearednotifications := false |> <| im_removednotifications := None |>.
Definition IncidentMutation_Where (ps : list sql_pred) (m : IncidentMutation) : IncidentMutation :=
  m <| im_predicates ::= (λ old, old ++ ps) |>.
Definition IncidentMutation_WhereP (ps : list sql_pred) (m : IncidentMutation) : IncidentMutation :=
  IncidentMutation_Where ps m.
Definition IncidentMutation_Op (m : IncidentMutation) : Op := im_op m.
Definition IncidentMutation_SetOp (op : Op) (m : IncidentMutation) : IncidentMutation := m <| im_op := op |>.
Definition IncidentMutation_Type (m : IncidentMutation) : string := im_typ m.
Definition IncidentMutation_Fields (m : IncidentMutation) : list string :=
  collect
  [(incident_FieldText, some (im_text m));
   (incident_FieldDescription, some (im_description m));
   (incident_FieldStartDate, some (im_start_date m));
   (incident_FieldEndDate, some (im_end_date m));
   (incident_FieldImpact, some (im_impact m));
   (incident_FieldSystem, some (im_system m));
   (incident_FieldType, some (im_type m));
   (incident_FieldStatus, some (im_status m));
   (incident_FieldCreatedAt, some (im_created_at m));
   (incident_FieldModifiedAt, some (im_modified_at m));
   (incident_FieldDeletedAt, some (im_deleted_at m));
   (incident_FieldCreatedBy, some (im_created_by m));
   (incident_FieldContactEmail, some (im_contact_email m));
   (incident_FieldVersion, some (im_version m))].
Definition IncidentMutation_Field (name : string) (m : IncidentMutation) : option value :=
  switch name
  [(incident_FieldText, VString <$> IncidentMutation_Text m);
   (incident_FieldDescription, VString <$> IncidentMutation_Description m);
   (incident_FieldStartDate, VTime <$> IncidentMutation_StartDate m);
   (incident_FieldEndDate, VTime <$> IncidentMutation_EndDate m);
   (incident_FieldImpact, VInt <$> IncidentMutation_Impact m);
   (incident_FieldSystem, VBool <$> IncidentMutation_System m);
   (incident_FieldType, VType <$> IncidentMutation_GetType m);
   (incident_FieldStatus, VString <$> IncidentMutation_Status m);
   (incident_FieldCreatedAt, VTime <$> IncidentMutation_CreatedAt m);
   (incident_FieldModifiedAt, VTime <$> IncidentMutation_ModifiedAt m);
   (incident_FieldDeletedAt, VTime <$> IncidentMutation_DeletedAt m);
   (incident_FieldCreatedBy, VString <$> IncidentMutation_CreatedBy m);
   (incident_FieldContactEmail, VString <$> IncidentMutation_ContactEmail m);
   (incident_FieldVersion, VInt <$> IncidentMutation_Version m)]
  None.
Definition IncidentMutation_OldField (get : Z → string + IncidentNode) (name : string) (m : IncidentMutation)
    : (string + option value) * IncidentMutation :=
  switch name
  [(incident_FieldText, old_any (Some ∘ VString) (IncidentMutation_OldText get m));
   (incident_FieldDescription, old_any (fmap VString) (IncidentMutation_OldDescription get m));
   (incident_FieldStartDate, old_any (Some ∘ VTime) (IncidentMutation_OldStartDate get m));
   (incident_FieldEndDate, old_any (Some ∘ VTime) (IncidentMutation_OldEndDate get m));
   (incident_FieldImpact, old_any (Some ∘ VInt) (IncidentMutation_OldImpact get m));
   (incident_FieldSystem, old_any (Some ∘ VBool) (IncidentMutation_OldSystem get m));
   (incident_FieldType, old_any (Some ∘ VType) (IncidentMutation_OldType get m));
   (incident_FieldStatus, old_any (Some ∘ VString) (IncidentMutation_OldStatus get m));
   (incident_FieldCreatedAt, old_any (Some ∘ VTime) (IncidentMutation_OldCreatedAt get m));
   (incident_FieldModifiedAt, old_any (Some ∘ VTime) (IncidentMutation_OldModifiedAt get m));
   (incident_FieldDeletedAt, old_any (Some ∘ VTime) (IncidentMutation_OldDeletedAt get m));
   (incident_FieldCreatedBy, old_any (fmap VString) (IncidentMutation_OldCreatedBy get m));
   (incident_FieldContactEmail, old_any (fmap VString) (IncidentMutation_OldContactEmail get m));
   (incident_FieldVersion, old_any (Some ∘ VInt) (IncidentMutation_OldVersion get m))]
  (inl ("unknown Incident field " +:+ name), m).
Definition IncidentMutation_SetField (name : string) (v : value) (m : IncidentMutation)
    : string + IncidentMutation :=
  switch name
  [(incident_FieldText, as_string name v (λ v, IncidentMutation_SetText v m));
   (incident_FieldDescription, as_string name v (λ v, IncidentMutation_SetDescription v m));
   (incident_FieldStartDate, as_time name v (λ v, IncidentMutation_SetStartDate v m));
   (incident_FieldEndDate, as_time name v (λ v, IncidentMutation_SetEndDate v m));
   (incident_FieldImpact, as_int name v (λ v, IncidentMutation_SetImpact v m));
   (incident_FieldSystem, as_bool name v (λ v, IncidentMutation_SetSystem v m));
   (incident_FieldType, as_type name v (λ v, IncidentMutation_SetType v m));
   (incident_FieldStatus, as_string name v (λ v, IncidentMutation_SetStatus v m));
   (incident_FieldCreatedAt, as_time name v (λ v, IncidentMutation_SetCreatedAt v m));
   (incident_FieldModifiedAt, as_time name v (λ v, IncidentMutation_SetModifiedAt v m));
   (incident_FieldDeletedAt, as_time name v (λ v, IncidentMutation_SetDeletedAt v m));
   (incident_FieldCreatedBy, as_string name v (λ v, IncidentMutation_SetCreatedBy v m));
   (incident_FieldContactEmail, as_string name v (λ v, IncidentMutation_SetContactEmail v m));
   (incident_FieldVersion, as_int name v (λ v, IncidentMutation_SetVersion v m))]
  (inl ("unknown Incident field " +:+ name)).
Definition IncidentMutation_AddedFields (m : IncidentMutation) : list string :=
  collect
  [(incident_FieldImpact, some (im_addimpact m));
   (incident_FieldVersion, some (im_addversion m))].
Definition IncidentMutation_AddedField (name : string) (m : IncidentMutation) : option value :=
  switch name
  [(incident_FieldImpact, VInt <$> IncidentMutation_AddedImpact m);
   (incident_FieldVersion, VInt <$> IncidentMutation_AddedVersion m)]
  None.
Definition IncidentMutation_AddField (name : string) (v : value) (m : IncidentMutation)
    : string + IncidentMutation :=
  switch name
  [(incident_FieldImpact, as_int name v (λ v, IncidentMutation_AddImpact v m));
   (incident_FieldVersion, as_int name v (λ v, IncidentMutation_AddVersion v m))]
  (inl ("unknown Incident numeric field " +:+ name)).
Definition IncidentMutation_FieldCleared (name : string) (m : IncidentMutation) : bool :=
  bool_decide (name ∈ im_clearedFields m).
Definition IncidentMutation_ClearedFields (m : IncidentMutation) : list string :=
  collect
  [(incident_FieldDescription, IncidentMutation_FieldCleared incident_FieldDescription m);
   (incident_FieldEndDate, IncidentMutation_FieldCleared incident_FieldEndDate m);
   (incident_FieldStatus, IncidentMutation_FieldCleared incident_FieldStatus m);
   (incident_FieldCreatedAt, IncidentMutation_FieldCleared incident_FieldCreatedAt m);
   (incident_FieldModifiedAt, IncidentMutation_FieldCleared incident_FieldModifiedAt m);
   (incident_FieldDeletedAt, IncidentMutation_FieldCleared incident_FieldDeletedAt m);
   (incident_FieldCreatedBy, IncidentMutation_FieldCleared incident_FieldCreatedBy m);
   (incident_FieldContactEmail, IncidentMutation_FieldCleared incident_FieldContactEmail m)].
Definition IncidentMutation_ClearField (name : string) (m : IncidentMutation) : string + IncidentMutation :=
  switch name
  [(incident_FieldDescription, inr (IncidentMutation_ClearDescription m));
   (incident_FieldEndDate, inr (IncidentMutation_ClearEndDate m));
   (incident_FieldStatus, inr (IncidentMutation_ClearStatus m));
   (incident_FieldCreatedAt, inr (IncidentMutation_ClearCreatedAt m));
   (incident_FieldModifiedAt, inr (IncidentMutation_ClearModifiedAt m));
   (incident_FieldDeletedAt, inr (IncidentMutation_ClearDeletedAt m));
   (incident_FieldCreatedBy, inr (IncidentMutation_ClearCreatedBy m));
   (incident_FieldContactEmail, inr (IncidentMutation_ClearContactEmail m))]
  (inl ("unknown Incident nullable field " +:+ name)).
Definition IncidentMutation_ResetField (name : string) (m : IncidentMutation) : string + IncidentMutation :=
  switch name
  [(incident_FieldText, inr (IncidentMutation_ResetText m));
   (incident_FieldDescription, inr (IncidentMutation_ResetDescription m));
   (incident_FieldStartDate, inr (IncidentMutation_ResetStartDate m));
   (incident_FieldEndDate, inr (IncidentMutation_ResetEndDate m));
   (incident_FieldImpact, inr (IncidentMutation_ResetImpact m));
   (incident_FieldSystem, inr (IncidentMutation_ResetSystem m));
   (incident_FieldType, inr (IncidentMutation_ResetType m));
   (incident_FieldStatus, inr (IncidentMutation_ResetStatus m));
   (incident_FieldCreatedAt, inr (IncidentMutation_ResetCreatedAt m));
   (incident_FieldModifiedAt, inr (IncidentMutation_ResetModifiedAt m));
   (incident_FieldDeletedAt, inr (IncidentMutation_ResetDeletedAt m));
   (incident_FieldCreatedBy, inr (IncidentMutation_ResetCreatedBy m));
   (incident_FieldContactEmail, inr (IncidentMutation_ResetContactEmail m));
   (incident_FieldVersion, inr (IncidentMutation_ResetVersion m))]
  (inl ("unknown Incident field " +:+ name)).
Definition IncidentMutation_AddedEdges (m : IncidentMutation) : list string :=
  collect
  [(incident_EdgeComponents, some (im_components m));
   (incident_EdgeNotifications, some (im_notifications m))].
Definition IncidentMutation_AddedIDs (name : string) (m : IncidentMutation) : list Z :=
  switch name
  [(incident_EdgeComponents, edge_ids (im_components m));
   (incident_EdgeNotifications, edge_ids (im_notifications m))]
  [].
Definition IncidentMutation_RemovedEdges (m : IncidentMutation) : list string :=
  collect
  [(incident_EdgeComponents, some (im_removedcomponents m));
   (incident_EdgeNotifications, some (im_removednotifications m))].
Definition IncidentMutation_RemovedIDs (name : string) (m : IncidentMutation) : list Z :=
  switch name
  [(incident_EdgeComponents, edge_ids (im_removedcomponents m));
   (incident_EdgeNotifications, edge_ids (im_removednotifications m))]
  [].
Definition IncidentMutation_ClearedEdges (m : IncidentMutation) : list string :=
  collect
  [(incident_EdgeComponents, im_clearedcomponents m);
   (incident_EdgeNotifications, im_clearednotifications m)].
Definition IncidentMutation_EdgeCleared (name : string) (m : IncidentMutation) : bool :=
  switch name
  [(incident_EdgeComponents, im_clearedcomponents m);
   (incident_EdgeNotifications, im_clearednotifications m)]
  false.
Definition IncidentMutation_ClearEdge (name : string) (m : IncidentMutation) : string + IncidentMutation :=
  (inl ("unknown Incident unique edge " +:+ name)).
Definition IncidentMutation_ResetEdge (name : string) (m : IncidentMutation) : string + IncidentMutation :=
  switch name
  [(incident_EdgeComponents, inr (IncidentMutation_ResetComponents m));
   (incident_EdgeNotifications, inr (IncidentMutation_ResetNotifications m))]
  (inl ("unknown Incident edge " +:+ name)).
