(* ===== verification/EntIncidentStatus.v ===== *)
(** * The generated code of the entity [IncidentStatus]

    [ent/incidentstatus/incidentstatus.go], the entity of [ent/incidentstatus.go], and
    its mutation in [ent/mutation.go]: the pointer fields of the struct are options, its
    maps are sets, and a method that changes the mutation returns it. *)

From S2P Require Import Prelude GoStrings GoTime Errors Models EntCore.
Local Open Scope Z_scope.

(** ** The package [incidentstatus]: names, columns and defaults *)

Definition incidentstatus_Label : string := "incident_status".
Definition incidentstatus_FieldID : string := "id".
Definition incidentstatus_FieldIncidentID : string := "incident_id".
Definition incidentstatus_FieldTimestamp : string := "timestamp".
Definition incidentstatus_FieldText : string := "text".
Definition incidentstatus_FieldStatus : string := "status".
Definition incidentstatus_FieldCreatedAt : string := "created_at".
Definition incidentstatus_FieldModifiedAt : string := "modified_at".
Definition incidentstatus_FieldDeletedAt : string := "deleted_at".
Definition incidentstatus_FieldCreatedBy : string := "created_by".
Definition incidentstatus_FieldModifiedBy : string := "modified_by".
Definition incidentstatus_Table : string := "incident_status".
Definition incidentstatus_Columns : list string :=
  [incidentstatus_FieldID; incidentstatus_FieldIncidentID; incidentstatus_FieldTimestamp;
    incidentstatus_FieldText; incidentstatus_FieldStatus; incidentstatus_FieldCreatedAt;
    incidentstatus_FieldModifiedAt; incidentstatus_FieldDeletedAt; incidentstatus_FieldCreatedBy;
    incidentstatus_FieldModifiedBy].
Definition incidentstatus_ValidColumn (column : string) : bool :=
  existsb (λ c, column == c) incidentstatus_Columns.
Definition incidentstatus_TextValidator : string → bool := NotEmpty.
Definition incidentstatus_StatusValidator : string → bool := NotEmpty.

(** ** The entity, without its loaded edges *)

Record IncidentStatusNode := mkIncidentStatusNode {
  sn_ID : Z; sn_IncidentID : Z; sn_Timestamp : Z; sn_Text : string; sn_Status : string; sn_CreatedAt : Z;
    sn_ModifiedAt : Z; sn_DeletedAt : Z; sn_CreatedBy : option string; sn_ModifiedBy : option string }.
(** [&IncidentStatus{}] *)
Definition newIncidentStatusNode : IncidentStatusNode := mkIncidentStatusNode 0 0 zero_time "" "" zero_time
  zero_time zero_time None None.

(** ** The mutation *)

Record IncidentStatusMutation := mkIncidentStatusMutation {
  sm_config : config; sm_op : Op; sm_typ : string; sm_id : option Z; sm_incident_id : option Z;
  sm_addincident_id : option Z; sm_timestamp : option Z; sm_text : option string;
  sm_status : option string; sm_created_at : option Z; sm_modified_at : option Z;
  sm_deleted_at : option Z; sm_created_by : option string; sm_modified_by : option string;
  sm_clearedFields : gset string; sm_done : bool; sm_oldValue : option (old IncidentStatusNode);
  sm_predicates : list sql_pred }.
Definition newIncidentStatusMutation (c : config) (op : Op) (opts : list (IncidentStatusMutation → IncidentStatusMutation))
    : IncidentStatusMutation :=
  foldl (λ m opt, opt m) {| sm_config := c; sm_op := op; sm_typ := "IncidentStatus"; sm_id := None;
    sm_incident_id := None; sm_addincident_id := None; sm_timestamp := None; sm_text := None;
    sm_status := None; sm_created_at := None; sm_modified_at := None; sm_deleted_at := None;
    sm_created_by := None; sm_modified_by := None; sm_clearedFields := ∅; sm_done := false;
    sm_oldValue := None; sm_predicates := [] |} opts.
Definition withIncidentStatusID (id : Z) (m : IncidentStatusMutation) : IncidentStatusMutation :=
  m <| sm_oldValue := Some (OldQuery id None) |> <| sm_id := Some id |>.
Definition withIncidentStatus (node : IncidentStatusNode) (m : IncidentStatusMutation)
    : IncidentStatusMutation :=
  m <| sm_oldValue := Some (OldGiven node) |> <| sm_id := Some (sn_ID node) |>.
Definition IncidentStatusMutation_Client (m : IncidentStatusMutation) : config := sm_config m.
Definition IncidentStatusMutation_Tx (m : IncidentStatusMutation) : string + config :=
  if cfg_txDriver (sm_config m) then inr (sm_config m) else inl "ent: mutation is not running in a
    transaction"%string.
Definition IncidentStatusMutation_SetID (id : Z) (m : IncidentStatusMutation) : IncidentStatusMutation :=
  m <| sm_id := Some id |>.
Definition IncidentStatusMutation_ID (m : IncidentStatusMutation) : option Z := sm_id m.
Definition IncidentStatusMutation_IDs (query : list sql_pred → string + list Z) (m : IncidentStatusMutation)
    : string + list Z :=
  match op_is (sm_op m) [OpUpdateOne; OpDeleteOne], IncidentStatusMutation_ID m with
  | true, Some id => inr [id]
  | _, _ => if op_is (sm_op m) [OpUpdateOne; OpDeleteOne; OpUpdate; OpDelete] then query (sm_predicates m)
            else inl ("IDs is not allowed on " +:+ op_string (sm_op m) +:+ " operations")
  end.
Definition IncidentStatusMutation_SetIncidentID (v : Z) (m : IncidentStatusMutation) : IncidentStatusMutation :=
  m <| sm_incident_id := Some v |> <| sm_addincident_id := None |>.
Definition IncidentStatusMutation_IncidentID (m : IncidentStatusMutation) : option Z := sm_incident_id m.
Definition IncidentStatusMutation_OldIncidentID (get : Z → string + IncidentStatusNode) (m : IncidentStatusMutation)
    : (string + Z) * IncidentStatusMutation :=
  let '(r, o) := old_field "OldIncidentID" (sm_op m) (sm_id m) (sm_oldValue m) (sm_done m) get sn_IncidentID
    in (r, m <| sm_oldValue := o |>).
Definition IncidentStatusMutation_AddIncidentID (i : Z) (m : IncidentStatusMutation) : IncidentStatusMutation :=
  m <| sm_addincident_id ::= (λ a, match a with Some x => Some (int64 (x + i)) | None => Some i end) |>.
Definition IncidentStatusMutation_AddedIncidentID (m : IncidentStatusMutation) : option Z :=
  sm_addincident_id m.
Definition IncidentStatusMutation_ClearIncidentID (m : IncidentStatusMutation) : IncidentStatusMutation :=
  m <| sm_incident_id := None |> <| sm_addincident_id := None |>
    <| sm_clearedFields ::= (λ c, {[incidentstatus_FieldIncidentID]} ∪ c) |>.
Definition IncidentStatusMutation_IncidentIDCleared (m : IncidentStatusMutation) : bool :=
  bool_decide (incidentstatus_FieldIncidentID ∈ sm_clearedFields m).
Definition IncidentStatusMutation_ResetIncidentID (m : IncidentStatusMutation) : IncidentStatusMutation :=
  m <| sm_incident_id := None |> <| sm_addincident_id := None |>
    <| sm_clearedFields ::= (λ c, c ∖ {[incidentstatus_FieldIncidentID]}) |>.
Definition IncidentStatusMutation_SetTimestamp (v : Z) (m : IncidentStatusMutation) : IncidentStatusMutation :=
  m <| sm_timestamp := Some v |>.
Definition IncidentStatusMutation_Timestamp (m : IncidentStatusMutation) : option Z := sm_timestamp m.
Definition IncidentStatusMutation_OldTimestamp (get : Z → string + IncidentStatusNode) (m : IncidentStatusMutation)
    : (string + Z) * IncidentStatusMutation :=
  let '(r, o) := old_field "OldTimestamp" (sm_op m) (sm_id m) (sm_oldValue m) (sm_done m) get sn_Timestamp in
    (r, m <| sm_oldValue := o |>).
Definition IncidentStatusMutation_ResetTimestamp (m : IncidentStatusMutation) : IncidentStatusMutation :=
  m <| sm_timestamp := None |>.
Definition IncidentStatusMutation_SetText (v : string) (m : IncidentStatusMutation) : IncidentStatusMutation :=
  m <| sm_text := Some v |>.
Definition IncidentStatusMutation_Text (m : IncidentStatusMutation) : option string := sm_text m.
Definition IncidentStatusMutation_OldText (get : Z → string + IncidentStatusNode) (m : IncidentStatusMutation)
    : (string + string) * IncidentStatusMutation :=
  let '(r, o) := old_field "OldText" (sm_op m) (sm_id m) (sm_oldValue m) (sm_done m) get sn_Text in (r, m
    <| sm_oldValue := o |>).
Definition IncidentStatusMutation_ResetText (m : IncidentStatusMutation) : IncidentStatusMutation :=
  m <| sm_text := None |>.
Definition IncidentStatusMutation_SetStatus (v : string) (m : IncidentStatusMutation)
    : IncidentStatusMutation :=
  m <| sm_status := Some v |>.
Definition IncidentStatusMutation_Status (m : IncidentStatusMutation) : option string := sm_status m.
Definition IncidentStatusMutation_OldStatus (get : Z → string + IncidentStatusNode) (m : IncidentStatusMutation)
    : (string + string) * IncidentStatusMutation :=
  let '(r, o) := old_field "OldStatus" (sm_op m) (sm_id m) (sm_oldValue m) (sm_done m) get sn_Status in (r, m
    <| sm_oldValue := o |>).
Definition IncidentStatusMutation_ResetStatus (m : IncidentStatusMutation) : IncidentStatusMutation :=
  m <| sm_status := None |>.
Definition IncidentStatusMutation_SetCreatedAt (v : Z) (m : IncidentStatusMutation) : IncidentStatusMutation :=
  m <| sm_created_at := Some v |>.
Definition IncidentStatusMutation_CreatedAt (m : IncidentStatusMutation) : option Z := sm_created_at m.
Definition IncidentStatusMutation_OldCreatedAt (get : Z → string + IncidentStatusNode) (m : IncidentStatusMutation)
    : (string + Z) * IncidentStatusMutation :=
  let '(r, o) := old_field "OldCreatedAt" (sm_op m) (sm_id m) (sm_oldValue m) (sm_done m) get sn_CreatedAt in
    (r, m <| sm_oldValue := o |>).
Definition IncidentStatusMutation_ClearCreatedAt (m : IncidentStatusMutation) : IncidentStatusMutation :=
  m <| sm_created_at := None |> <| sm_clearedFields ::= (λ c, {[incidentstatus_FieldCreatedAt]} ∪ c) |>.
Definition IncidentStatusMutation_CreatedAtCleared (m : IncidentStatusMutation) : bool :=
  bool_decide (incidentstatus_FieldCreatedAt ∈ sm_clearedFields m).
Definition IncidentStatusMutation_ResetCreatedAt (m : IncidentStatusMutation) : IncidentStatusMutation :=
  m <| sm_created_at := None |> <| sm_clearedFields ::= (λ c, c ∖ {[incidentstatus_FieldCreatedAt]}) |>.
Definition IncidentStatusMutation_SetModifiedAt (v : Z) (m : IncidentStatusMutation) : IncidentStatusMutation :=
  m <| sm_modified_at := Some v |>.
Definition IncidentStatusMutation_ModifiedAt (m : IncidentStatusMutation) : option Z := sm_modified_at m.
Definition IncidentStatusMutation_OldModifiedAt (get : Z → string + IncidentStatusNode) (m : IncidentStatusMutation)
    : (string + Z) * IncidentStatusMutation :=
  let '(r, o) := old_field "OldModifiedAt" (sm_op m) (sm_id m) (sm_oldValue m) (sm_done m) get sn_ModifiedAt
    in (r, m <| sm_oldValue := o |>).
Definition IncidentStatusMutation_ClearModifiedAt (m : IncidentStatusMutation) : IncidentStatusMutation :=
  m <| sm_modified_at := None |> <| sm_clearedFields ::= (λ c, {[incidentstatus_FieldModifiedAt]} ∪ c) |>.
Definition IncidentStatusMutation_ModifiedAtCleared (m : IncidentStatusMutation) : bool :=
  bool_decide (incidentstatus_FieldModifiedAt ∈ sm_clearedFields m).
Definition IncidentStatusMutation_ResetModifiedAt (m : IncidentStatusMutation) : IncidentStatusMutation :=
  m <| sm_modified_at := None |> <| sm_clearedFields ::= (λ c, c ∖ {[incidentstatus_FieldModifiedAt]}) |>.
Definition IncidentStatusMutation_SetDeletedAt (v : Z) (m : IncidentStatusMutation) : IncidentStatusMutation :=
  m <| sm_deleted_at := Some v |>.
Definition IncidentStatusMutation_DeletedAt (m : IncidentStatusMutation) : option Z := sm_deleted_at m.
Definition IncidentStatusMutation_OldDeletedAt (get : Z → string + IncidentStatusNode) (m : IncidentStatusMutation)
    : (string + Z) * IncidentStatusMutation :=
  let '(r, o) := old_field "OldDeletedAt" (sm_op m) (sm_id m) (sm_oldValue m) (sm_done m) get sn_DeletedAt in
    (r, m <| sm_oldValue := o |>).
Definition IncidentStatusMutation_ClearDeletedAt (m : IncidentStatusMutation) : IncidentStatusMutation :=
  m <| sm_deleted_at := None |> <| sm_clearedFields ::= (λ c, {[incidentstatus_FieldDeletedAt]} ∪ c) |>.
Definition IncidentStatusMutation_DeletedAtCleared (m : IncidentStatusMutation) : bool :=
  bool_decide (incidentstatus_FieldDeletedAt ∈ sm_clearedFields m).
Definition IncidentStatusMutation_ResetDeletedAt (m : IncidentStatusMutation) : IncidentStatusMutation :=
  m <| sm_deleted_at := None |> <| sm_clearedFields ::= (λ c, c ∖ {[incidentstatus_FieldDeletedAt]}) |>.
Definition IncidentStatusMutation_SetCreatedBy (v : string) (m : IncidentStatusMutation)
    : IncidentStatusMutation :=
  m <| sm_created_by := Some v |>.
Definition IncidentStatusMutation_CreatedBy (m : IncidentStatusMutation) : option string := sm_created_by m.
Definition IncidentStatusMutation_OldCreatedBy (get : Z → string + IncidentStatusNode) (m : IncidentStatusMutation)
    : (string + (option string)) * IncidentStatusMutation :=
  let '(r, o) := old_field "OldCreatedBy" (sm_op m) (sm_id m) (sm_oldValue m) (sm_done m) get sn_CreatedBy in
    (r, m <| sm_oldValue := o |>).
Definition IncidentStatusMutation_ClearCreatedBy (m : IncidentStatusMutation) : IncidentStatusMutation :=
  m <| sm_created_by := None |> <| sm_clearedFields ::= (λ c, {[incidentstatus_FieldCreatedBy]} ∪ c) |>.
Definition IncidentStatusMutation_CreatedByCleared (m : IncidentStatusMutation) : bool :=
  bool_decide (incidentstatus_FieldCreatedBy ∈ sm_clearedFields m).
Definition IncidentStatusMutation_ResetCreatedBy (m : IncidentStatusMutation) : IncidentStatusMutation :=
  m <| sm_created_by := None |> <| sm_clearedFields ::= (λ c, c ∖ {[incidentstatus_FieldCreatedBy]}) |>.
Definition IncidentStatusMutation_SetModifiedBy (v : string) (m : IncidentStatusMutation)
    : IncidentStatusMutation :=
  m <| sm_modified_by := Some v |>.
Definition IncidentStatusMutation_ModifiedBy (m : IncidentStatusMutation) : option string := sm_modified_by m.
Definition IncidentStatusMutation_OldModifiedBy (get : Z → string + IncidentStatusNode) (m : IncidentStatusMutation)
    : (string + (option string)) * IncidentStatusMutation :=
  let '(r, o) := old_field "OldModifiedBy" (sm_op m) (sm_id m) (sm_oldValue m) (sm_done m) get sn_ModifiedBy
    in (r, m <| sm_oldValue := o |>).
Definition IncidentStatusMutation_ClearModifiedBy (m : IncidentStatusMutation) : IncidentStatusMutation :=
  m <| sm_modified_by := None |> <| sm_clearedFields ::= (λ c, {[incidentstatus_FieldModifiedBy]} ∪ c) |>.
Definition IncidentStatusMutation_ModifiedByCleared (m : IncidentStatusMutation) : bool :=
  bool_decide (incidentstatus_FieldModifiedBy ∈ sm_clearedFields m).
Definition IncidentStatusMutation_ResetModifiedBy (m : IncidentStatusMutation) : IncidentStatusMutation :=
  m <| sm_modified_by := None |> <| sm_clearedFields ::= (λ c, c ∖ {[incidentstatus_FieldModifiedBy]}) |>.
Definition IncidentStatusMutation_Where (ps : list sql_pred) (m : IncidentStatusMutation)
    : IncidentStatusMutation :=
  m <| sm_predicates ::= (λ old, old ++ ps) |>.
Definition IncidentStatusMutation_WhereP (ps : list sql_pred) (m : IncidentStatusMutation)
    : IncidentStatusMutation :=
  IncidentStatusMutation_Where ps m.
Definition IncidentStatusMutation_Op (m : IncidentStatusMutation) : Op := sm_op m.
Definition IncidentStatusMutation_SetOp (op : Op) (m : IncidentStatusMutation) : IncidentStatusMutation :=
  m <| sm_op := op |>.
Definition IncidentStatusMutation_Type (m : IncidentStatusMutation) : string := sm_typ m.
Definition IncidentStatusMutation_Fields (m : IncidentStatusMutation) : list string :=
  collect
  [(incidentstatus_FieldIncidentID, some (sm_incident_id m));
   (incidentstatus_FieldTimestamp, some (sm_timestamp m));
   (incidentstatus_FieldText, some (sm_text m));
   (incidentstatus_FieldStatus, some (sm_status m));
   (incidentstatus_FieldCreatedAt, some (sm_created_at m));
   (incidentstatus_FieldModifiedAt, some (sm_modified_at m));
   (incidentstatus_FieldDeletedAt, some (sm_deleted_at m));
   (incidentstatus_FieldCreatedBy, some (sm_created_by m));
   (incidentstatus_FieldModifiedBy, some (sm_modified_by m))].
Definition IncidentStatusMutation_Field (name : string) (m : IncidentStatusMutation) : option value :=
  switch name
  [(incidentstatus_FieldIncidentID, VInt <$> IncidentStatusMutation_IncidentID m);
   (incidentstatus_FieldTimestamp, VTime <$> IncidentStatusMutation_Timestamp m);
   (incidentstatus_FieldText, VString <$> IncidentStatusMutation_Text m);
   (incidentstatus_FieldStatus, VString <$> IncidentStatusMutation_Status m);
   (incidentstatus_FieldCreatedAt, VTime <$> IncidentStatusMutation_CreatedAt m);
   (incidentstatus_FieldModifiedAt, VTime <$> IncidentStatusMutation_ModifiedAt m);
   (incidentstatus_FieldDeletedAt, VTime <$> IncidentStatusMutation_DeletedAt m);
   (incidentstatus_FieldCreatedBy, VString <$> IncidentStatusMutation_CreatedBy m);
   (incidentstatus_FieldModifiedBy, VString <$> IncidentStatusMutation_ModifiedBy m)]
  None.
Definition IncidentStatusMutation_OldField (get : Z → string + IncidentStatusNode) (name : string) (m : IncidentStatusMutation)
    : (string + option value) * IncidentStatusMutation :=
  switch name
  [(incidentstatus_FieldIncidentID, old_any (Some ∘ VInt) (IncidentStatusMutation_OldIncidentID get m));
   (incidentstatus_FieldTimestamp, old_any (Some ∘ VTime) (IncidentStatusMutation_OldTimestamp get m));
   (incidentstatus_FieldText, old_any (Some ∘ VString) (IncidentStatusMutation_OldText get m));
   (incidentstatus_FieldStatus, old_any (Some ∘ VString) (IncidentStatusMutation_OldStatus get m));
   (incidentstatus_FieldCreatedAt, old_any (Some ∘ VTime) (IncidentStatusMutation_OldCreatedAt get m));
   (incidentstatus_FieldModifiedAt, old_any (Some ∘ VTime) (IncidentStatusMutation_OldModifiedAt get m));
   (incidentstatus_FieldDeletedAt, old_any (Some ∘ VTime) (IncidentStatusMutation_OldDeletedAt get m));
   (incidentstatus_FieldCreatedBy, old_any (fmap VString) (IncidentStatusMutation_OldCreatedBy get m));
   (incidentstatus_FieldModifiedBy, old_any (fmap VString) (IncidentStatusMutation_OldModifiedBy get m))]
  (inl ("unknown IncidentStatus field " +:+ name), m).
Definition IncidentStatusMutation_SetField (name : string) (v : value) (m : IncidentStatusMutation)
    : string + IncidentStatusMutation :=
  switch name
  [(incidentstatus_FieldIncidentID, as_int name v (λ v, IncidentStatusMutation_SetIncidentID v m));
   (incidentstatus_FieldTimestamp, as_time name v (λ v, IncidentStatusMutation_SetTimestamp v m));
   (incidentstatus_FieldText, as_string name v (λ v, IncidentStatusMutation_SetText v m));
   (incidentstatus_FieldStatus, as_string name v (λ v, IncidentStatusMutation_SetStatus v m));
   (incidentstatus_FieldCreatedAt, as_time name v (λ v, IncidentStatusMutation_SetCreatedAt v m));
   (incidentstatus_FieldModifiedAt, as_time name v (λ v, IncidentStatusMutation_SetModifiedAt v m));
   (incidentstatus_FieldDeletedAt, as_time name v (λ v, IncidentStatusMutation_SetDeletedAt v m));
   (incidentstatus_FieldCreatedBy, as_string name v (λ v, IncidentStatusMutation_SetCreatedBy v m));
   (incidentstatus_FieldModifiedBy, as_string name v (λ v, IncidentStatusMutation_SetModifiedBy v m))]
  (inl ("unknown IncidentStatus field " +:+ name)).
Definition IncidentStatusMutation_AddedFields (m : IncidentStatusMutation) : list string :=
  collect
  [(incidentstatus_FieldIncidentID, some (sm_addincident_id m))].
Definition IncidentStatusMutation_AddedField (name : string) (m : IncidentStatusMutation) : option value :=
  switch name
  [(incidentstatus_FieldIncidentID, VInt <$> IncidentStatusMutation_AddedIncidentID m)]
  None.
Definition IncidentStatusMutation_AddField (name : string) (v : value) (m : IncidentStatusMutation)
    : string + IncidentStatusMutation :=
  switch name
  [(incidentstatus_FieldIncidentID, as_int name v (λ v, IncidentStatusMutation_AddIncidentID v m))]
  (inl ("unknown IncidentStatus numeric field " +:+ name)).
Definition IncidentStatusMutation_FieldCleared (name : string) (m : IncidentStatusMutation) : bool :=
  bool_decide (name ∈ sm_clearedFields m).
Definition IncidentStatusMutation_ClearedFields (m : IncidentStatusMutation) : list string :=
  collect
  [(incidentstatus_FieldIncidentID, IncidentStatusMutation_FieldCleared incidentstatus_FieldIncidentID m);
   (incidentstatus_FieldCreatedAt, IncidentStatusMutation_FieldCleared incidentstatus_FieldCreatedAt m);
   (incidentstatus_FieldModifiedAt, IncidentStatusMutation_FieldCleared incidentstatus_FieldModifiedAt m);
   (incidentstatus_FieldDeletedAt, IncidentStatusMutation_FieldCleared incidentstatus_FieldDeletedAt m);
   (incidentstatus_FieldCreatedBy, IncidentStatusMutation_FieldCleared incidentstatus_FieldCreatedBy m);
   (incidentstatus_FieldModifiedBy, IncidentStatusMutation_FieldCleared incidentstatus_FieldModifiedBy m)].
Definition IncidentStatusMutation_ClearField (name : string) (m : IncidentStatusMutation)
    : string + IncidentStatusMutation :=
  switch name
  [(incidentstatus_FieldIncidentID, inr (IncidentStatusMutation_ClearIncidentID m));
   (incidentstatus_FieldCreatedAt, inr (IncidentStatusMutation_ClearCreatedAt m));
   (incidentstatus_FieldModifiedAt, inr (IncidentStatusMutation_ClearModifiedAt m));
   (incidentstatus_FieldDeletedAt, inr (IncidentStatusMutation_ClearDeletedAt m));
   (incidentstatus_FieldCreatedBy, inr (IncidentStatusMutation_ClearCreatedBy m));
   (incidentstatus_FieldModifiedBy, inr (IncidentStatusMutation_ClearModifiedBy m))]
  (inl ("unknown IncidentStatus nullable field " +:+ name)).
Definition IncidentStatusMutation_ResetField (name : string) (m : IncidentStatusMutation)
    : string + IncidentStatusMutation :=
  switch name
  [(incidentstatus_FieldIncidentID, inr (IncidentStatusMutation_ResetIncidentID m));
   (incidentstatus_FieldTimestamp, inr (IncidentStatusMutation_ResetTimestamp m));
   (incidentstatus_FieldText, inr (IncidentStatusMutation_ResetText m));
   (incidentstatus_FieldStatus, inr (IncidentStatusMutation_ResetStatus m));
   (incidentstatus_FieldCreatedAt, inr (IncidentStatusMutation_ResetCreatedAt m));
   (incidentstatus_FieldModifiedAt, inr (IncidentStatusMutation_ResetModifiedAt m));
   (incidentstatus_FieldDeletedAt, inr (IncidentStatusMutation_ResetDeletedAt m));
   (incidentstatus_FieldCreatedBy, inr (IncidentStatusMutation_ResetCreatedBy m));
   (incidentstatus_FieldModifiedBy, inr (IncidentStatusMutation_ResetModifiedBy m))]
  (inl ("unknown IncidentStatus field " +:+ name)).
Definition IncidentStatusMutation_AddedEdges (m : IncidentStatusMutation) : list string :=
  [].
Definition IncidentStatusMutation_AddedIDs (name : string) (m : IncidentStatusMutation) : list Z :=
  [].
Definition IncidentStatusMutation_RemovedEdges (m : IncidentStatusMutation) : list string :=
  [].
Definition IncidentStatusMutation_RemovedIDs (name : string) (m : IncidentStatusMutation) : list Z :=
  [].
Definition IncidentStatusMutation_ClearedEdges (m : IncidentStatusMutation) : list string :=
  [].
Definition IncidentStatusMutation_EdgeCleared (name : string) (m : IncidentStatusMutation) : bool :=
  false.
Definition IncidentStatusMutation_ClearEdge (name : string) (m : IncidentStatusMutation)
    : string + IncidentStatusMutation :=
  (inl ("unknown IncidentStatus unique edge " +:+ name)).
Definition IncidentStatusMutation_ResetEdge (name : string) (m : IncidentStatusMutation)
    : string + IncidentStatusMutation :=
  (inl ("unknown IncidentStatus edge " +:+ name)).
