(* ===== verification/EntNotificationOutbox.v ===== *)
(** * The generated code of the entity [NotificationOutbox]

    [ent/notificationoutbox/notificationoutbox.go], the entity of [ent/notificationoutbox.go], and
    its mutation in [ent/mutation.go]: the pointer fields of the struct are options, its
    maps are sets, and a method that changes the mutation returns it. *)

From S2P Require Import Prelude GoStrings GoTime Errors Models EntCore.
Local Open Scope Z_scope.

(** ** The package [notificationoutbox]: names, columns and defaults *)

Definition notificationoutbox_Label : string := "notification_outbox".
Definition notificationoutbox_FieldID : string := "id".
Definition notificationoutbox_FieldKind : string := "kind".
Definition notificationoutbox_FieldIncidentID : string := "incident_id".
Definition notificationoutbox_FieldRecipient : string := "recipient".
Definition notificationoutbox_FieldPayload : string := "payload".
Definition notificationoutbox_FieldChangeID : string := "change_id".
Definition notificationoutbox_FieldDedupKey : string := "dedup_key".
Definition notificationoutbox_FieldStatus : string := "status".
Definition notificationoutbox_FieldAttempts : string := "attempts".
Definition notificationoutbox_FieldNextAttemptAt : string := "next_attempt_at".
Definition notificationoutbox_FieldLockedBy : string := "locked_by".
Definition notificationoutbox_FieldLockedAt : string := "locked_at".
Definition notificationoutbox_FieldLastError : string := "last_error".
Definition notificationoutbox_FieldCreatedAt : string := "created_at".
Definition notificationoutbox_FieldUpdatedAt : string := "updated_at".
Definition notificationoutbox_EdgeIncident : string := "incident".
Definition notificationoutbox_Table : string := "notification_outbox".
Definition notificationoutbox_IncidentTable : string := "notification_outbox".
Definition notificationoutbox_IncidentInverseTable : string := "incident".
Definition notificationoutbox_IncidentColumn : string := "incident_id".
Definition notificationoutbox_Columns : list string :=
  [notificationoutbox_FieldID; notificationoutbox_FieldKind; notificationoutbox_FieldIncidentID;
    notificationoutbox_FieldRecipient; notificationoutbox_FieldPayload; notificationoutbox_FieldChangeID;
    notificationoutbox_FieldDedupKey; notificationoutbox_FieldStatus; notificationoutbox_FieldAttempts;
    notificationoutbox_FieldNextAttemptAt; notificationoutbox_FieldLockedBy;
    notificationoutbox_FieldLockedAt; notificationoutbox_FieldLastError; notificationoutbox_FieldCreatedAt;
    notificationoutbox_FieldUpdatedAt].
Definition notificationoutbox_ValidColumn (column : string) : bool :=
  existsb (λ c, column == c) notificationoutbox_Columns.
Definition notificationoutbox_KindValidator : string → bool := NotEmpty.
Definition notificationoutbox_RecipientValidator : string → bool := NotEmpty.
Definition notificationoutbox_ChangeIDValidator : string → bool := NotEmpty.
Definition notificationoutbox_DedupKeyValidator : string → bool := NotEmpty.
Definition notificationoutbox_DefaultStatus : string := "pending".
Definition notificationoutbox_DefaultAttempts : Z := 0.
Definition notificationoutbox_newIncidentStep : Step :=
  mkStep M2O true notificationoutbox_IncidentTable [notificationoutbox_IncidentColumn] (Some
    notificationoutbox_IncidentInverseTable).

(** ** The entity, without its loaded edges *)

Record NotificationOutboxNode := mkNotificationOutboxNode {
  nn_ID : Z; nn_Kind : string; nn_IncidentID : Z; nn_Recipient : string; nn_Payload : gmap string json_value;
    nn_ChangeID : string; nn_DedupKey : string; nn_Status : string; nn_Attempts : Z; nn_NextAttemptAt : Z;
    nn_LockedBy : option string; nn_LockedAt : Z; nn_LastError : option string; nn_CreatedAt : Z;
    nn_UpdatedAt : Z }.
(** [&NotificationOutbox{}] *)
Definition newNotificationOutboxNode : NotificationOutboxNode := mkNotificationOutboxNode 0 "" 0 "" ∅ "" ""
  "" 0 zero_time None zero_time None zero_time zero_time.

(** ** The mutation *)

Record NotificationOutboxMutation := mkNotificationOutboxMutation {
  nm_config : config; nm_op : Op; nm_typ : string; nm_id : option Z; nm_kind : option string;
  nm_recipient : option string; nm_payload : option (gmap string json_value);
  nm_change_id : option string; nm_dedup_key : option string; nm_status : option string;
  nm_attempts : option Z; nm_addattempts : option Z; nm_next_attempt_at : option Z;
  nm_locked_by : option string; nm_locked_at : option Z; nm_last_error : option string;
  nm_created_at : option Z; nm_updated_at : option Z; nm_clearedFields : gset string;
  nm_incident : option Z; nm_clearedincident : bool; nm_done : bool;
  nm_oldValue : option (old NotificationOutboxNode); nm_predicates : list sql_pred }.
Definition newNotificationOutboxMutation (c : config) (op : Op) (opts : list (NotificationOutboxMutation → NotificationOutboxMutation))
    : NotificationOutboxMutation :=
  foldl (λ m opt, opt m) {| nm_config := c; nm_op := op; nm_typ := "NotificationOutbox"; nm_id := None;
    nm_kind := None; nm_recipient := None; nm_payload := None; nm_change_id := None; nm_dedup_key := None;
    nm_status := None; nm_attempts := None; nm_addattempts := None; nm_next_attempt_at := None;
    nm_locked_by := None; nm_locked_at := None; nm_last_error := None; nm_created_at := None;
    nm_updated_at := None; nm_clearedFields := ∅; nm_incident := None; nm_clearedincident := false;
    nm_done := false; nm_oldValue := None; nm_predicates := [] |} opts.
Definition withNotificationOutboxID (id : Z) (m : NotificationOutboxMutation) : NotificationOutboxMutation :=
  m <| nm_oldValue := Some (OldQuery id None) |> <| nm_id := Some id |>.
Definition withNotificationOutbox (node : NotificationOutboxNode) (m : NotificationOutboxMutation)
    : NotificationOutboxMutation :=
  m <| nm_oldValue := Some (OldGiven node) |> <| nm_id := Some (nn_ID node) |>.
Definition NotificationOutboxMutation_Client (m : NotificationOutboxMutation) : config := nm_config m.
Definition NotificationOutboxMutation_Tx (m : NotificationOutboxMutation) : string + config :=
  if cfg_txDriver (nm_config m) then inr (nm_config m) else inl "ent: mutation is not running in a
    transaction"%string.
Definition NotificationOutboxMutation_SetID (id : Z) (m : NotificationOutboxMutation)
    : NotificationOutboxMutation :=
  m <| nm_id := Some id |>.
Definition NotificationOutboxMutation_ID (m : NotificationOutboxMutation) : option Z := nm_id m.
Definition NotificationOutboxMutation_IDs (query : list sql_pred → string + list Z) (m : NotificationOutboxMutation)
    : string + list Z :=
  match op_is (nm_op m) [OpUpdateOne; OpDeleteOne], NotificationOutboxMutation_ID m with
  | true, Some id => inr [id]
  | _, _ => if op_is (nm_op m) [OpUpdateOne; OpDeleteOne; OpUpdate; OpDelete] then query (nm_predicates m)
            else inl ("IDs is not allowed on " +:+ op_string (nm_op m) +:+ " operations")
  end.
Definition NotificationOutboxMutation_SetKind (v : string) (m : NotificationOutboxMutation)
    : NotificationOutboxMutation :=
  m <| nm_kind := Some v |>.
Definition NotificationOutboxMutation_Kind (m : NotificationOutboxMutation) : option string := nm_kind m.
Definition NotificationOutboxMutation_OldKind (get : Z → string + NotificationOutboxNode) (m : NotificationOutboxMutation)
    : (string + string) * NotificationOutboxMutation :=
  let '(r, o) := old_field "OldKind" (nm_op m) (nm_id m) (nm_oldValue m) (nm_done m) get nn_Kind in (r, m
    <| nm_oldValue := o |>).
Definition NotificationOutboxMutation_ResetKind (m : NotificationOutboxMutation) : NotificationOutboxMutation :=
  m <| nm_kind := None |>.
Definition NotificationOutboxMutation_SetIncidentID (v : Z) (m : NotificationOutboxMutation)
    : NotificationOutboxMutation :=
  m <| nm_incident := Some v |>.
Definition NotificationOutboxMutation_IncidentID (m : NotificationOutboxMutation) : option Z := nm_incident m.
Definition NotificationOutboxMutation_OldIncidentID (get : Z → string + NotificationOutboxNode) (m : NotificationOutboxMutation)
    : (string + Z) * NotificationOutboxMutation :=
  let '(r, o) := old_field "OldIncidentID" (nm_op m) (nm_id m) (nm_oldValue m) (nm_done m) get nn_IncidentID
    in (r, m <| nm_oldValue := o |>).
Definition NotificationOutboxMutation_ResetIncidentID (m : NotificationOutboxMutation)
    : NotificationOutboxMutation :=
  m <| nm_incident := None |>.
Definition NotificationOutboxMutation_SetRecipient (v : string) (m : NotificationOutboxMutation)
    : NotificationOutboxMutation :=
  m <| nm_recipient := Some v |>.
Definition NotificationOutboxMutation_Recipient (m : NotificationOutboxMutation) : option string :=
  nm_recipient m.
Definition NotificationOutboxMutation_OldRecipient (get : Z → string + NotificationOutboxNode) (m : NotificationOutboxMutation)
    : (string + string) * NotificationOutboxMutation :=
  let '(r, o) := old_field "OldRecipient" (nm_op m) (nm_id m) (nm_oldValue m) (nm_done m) get nn_Recipient in
    (r, m <| nm_oldValue := o |>).
Definition NotificationOutboxMutation_ResetRecipient (m : NotificationOutboxMutation)
    : NotificationOutboxMutation :=
  m <| nm_recipient := None |>.
Definition NotificationOutboxMutation_SetPayload (v : gmap string json_value) (m : NotificationOutboxMutation)
    : NotificationOutboxMutation :=
  m <| nm_payload := Some v |>.
Definition NotificationOutboxMutation_Payload (m : NotificationOutboxMutation)
    : option (gmap string json_value) :=
  nm_payload m.
Definition NotificationOutboxMutation_OldPayload (get : Z → string + NotificationOutboxNode) (m : NotificationOutboxMutation)
    : (string + (gmap string json_value)) * NotificationOutboxMutation :=
  let '(r, o) := old_field "OldPayload" (nm_op m) (nm_id m) (nm_oldValue m) (nm_done m) get nn_Payload in (r,
    m <| nm_oldValue := o |>).
Definition NotificationOutboxMutation_ResetPayload (m : NotificationOutboxMutation)
    : NotificationOutboxMutation :=
  m <| nm_payload := None |>.
Definition NotificationOutboxMutation_SetChangeID (v : string) (m : NotificationOutboxMutation)
    : NotificationOutboxMutation :=
  m <| nm_change_id := Some v |>.
Definition NotificationOutboxMutation_ChangeID (m : NotificationOutboxMutation) : option string :=
  nm_change_id m.
Definition NotificationOutboxMutation_OldChangeID (get : Z → string + NotificationOutboxNode) (m : NotificationOutboxMutation)
    : (string + string) * NotificationOutboxMutation :=
  let '(r, o) := old_field "OldChangeID" (nm_op m) (nm_id m) (nm_oldValue m) (nm_done m) get nn_ChangeID in
    (r, m <| nm_oldValue := o |>).
Definition NotificationOutboxMutation_ResetChangeID (m : NotificationOutboxMutation)
    : NotificationOutboxMutation :=
  m <| nm_change_id := None |>.
Definition NotificationOutboxMutation_SetDedupKey (v : string) (m : NotificationOutboxMutation)
    : NotificationOutboxMutation :=
  m <| nm_dedup_key := Some v |>.
Definition NotificationOutboxMutation_DedupKey (m : NotificationOutboxMutation) : option string :=
  nm_dedup_key m.
Definition NotificationOutboxMutation_OldDedupKey (get : Z → string + NotificationOutboxNode) (m : NotificationOutboxMutation)
    : (string + string) * NotificationOutboxMutation :=
  let '(r, o) := old_field "OldDedupKey" (nm_op m) (nm_id m) (nm_oldValue m) (nm_done m) get nn_DedupKey in
    (r, m <| nm_oldValue := o |>).
Definition NotificationOutboxMutation_ResetDedupKey (m : NotificationOutboxMutation)
    : NotificationOutboxMutation :=
  m <| nm_dedup_key := None |>.
Definition NotificationOutboxMutation_SetStatus (v : string) (m : NotificationOutboxMutation)
    : NotificationOutboxMutation :=
  m <| nm_status := Some v |>.
Definition NotificationOutboxMutation_Status (m : NotificationOutboxMutation) : option string := nm_status m.
Definition NotificationOutboxMutation_OldStatus (get : Z → string + NotificationOutboxNode) (m : NotificationOutboxMutation)
    : (string + string) * NotificationOutboxMutation :=
  let '(r, o) := old_field "OldStatus" (nm_op m) (nm_id m) (nm_oldValue m) (nm_done m) get nn_Status in (r, m
    <| nm_oldValue := o |>).
Definition NotificationOutboxMutation_ResetStatus (m : NotificationOutboxMutation)
    : NotificationOutboxMutation :=
  m <| nm_status := None |>.
Definition NotificationOutboxMutation_SetAttempts (v : Z) (m : NotificationOutboxMutation)
    : NotificationOutboxMutation :=
  m <| nm_attempts := Some v |> <| nm_addattempts := None |>.
Definition NotificationOutboxMutation_Attempts (m : NotificationOutboxMutation) : option Z := nm_attempts m.
Definition NotificationOutboxMutation_OldAttempts (get : Z → string + NotificationOutboxNode) (m : NotificationOutboxMutation)
    : (string + Z) * NotificationOutboxMutation :=
  let '(r, o) := old_field "OldAttempts" (nm_op m) (nm_id m) (nm_oldValue m) (nm_done m) get nn_Attempts in
    (r, m <| nm_oldValue := o |>).
Definition NotificationOutboxMutation_AddAttempts (i : Z) (m : NotificationOutboxMutation)
    : NotificationOutboxMutation :=
  m <| nm_addattempts ::= (λ a, match a with Some x => Some (int64 (x + i)) | None => Some i end) |>.
Definition NotificationOutboxMutation_AddedAttempts (m : NotificationOutboxMutation) : option Z :=
  nm_addattempts m.
Definition NotificationOutboxMutation_ResetAttempts (m : NotificationOutboxMutation)
    : NotificationOutboxMutation :=
  m <| nm_attempts := None |> <| nm_addattempts := None |>.
Definition NotificationOutboxMutation_SetNextAttemptAt (v : Z) (m : NotificationOutboxMutation)
    : NotificationOutboxMutation :=
  m <| nm_next_attempt_at := Some v |>.
Definition NotificationOutboxMutation_NextAttemptAt (m : NotificationOutboxMutation) : option Z :=
  nm_next_attempt_at m.
Definition NotificationOutboxMutation_OldNextAttemptAt (get : Z → string + NotificationOutboxNode) (m : NotificationOutboxMutation)
    : (string + Z) * NotificationOutboxMutation :=
  let '(r, o) := old_field "OldNextAttemptAt" (nm_op m) (nm_id m) (nm_oldValue m) (nm_done m) get
    nn_NextAttemptAt in (r, m <| nm_oldValue := o |>).
Definition NotificationOutboxMutation_ClearNextAttemptAt (m : NotificationOutboxMutation)
    : NotificationOutboxMutation :=
  m <| nm_next_attempt_at := None |>
    <| nm_clearedFields ::= (λ c, {[notificationoutbox_FieldNextAttemptAt]} ∪ c) |>.
Definition NotificationOutboxMutation_NextAttemptAtCleared (m : NotificationOutboxMutation) : bool :=
  bool_decide (notificationoutbox_FieldNextAttemptAt ∈ nm_clearedFields m).
Definition NotificationOutboxMutation_ResetNextAttemptAt (m : NotificationOutboxMutation)
    : NotificationOutboxMutation :=
  m <| nm_next_attempt_at := None |>
    <| nm_clearedFields ::= (λ c, c ∖ {[notificationoutbox_FieldNextAttemptAt]}) |>.
Definition NotificationOutboxMutation_SetLockedBy (v : string) (m : NotificationOutboxMutation)
    : NotificationOutboxMutation :=
  m <| nm_locked_by := Some v |>.
Definition NotificationOutboxMutation_LockedBy (m : NotificationOutboxMutation) : option string :=
  nm_locked_by m.
Definition NotificationOutboxMutation_OldLockedBy (get : Z → string + NotificationOutboxNode) (m : NotificationOutboxMutation)
    : (string + (option string)) * NotificationOutboxMutation :=
  let '(r, o) := old_field "OldLockedBy" (nm_op m) (nm_id m) (nm_oldValue m) (nm_done m) get nn_LockedBy in
    (r, m <| nm_oldValue := o |>).
Definition NotificationOutboxMutation_ClearLockedBy (m : NotificationOutboxMutation)
    : NotificationOutboxMutation :=
  m <| nm_locked_by := None |> <| nm_clearedFields ::= (λ c, {[notificationoutbox_FieldLockedBy]} ∪ c) |>.
Definition NotificationOutboxMutation_LockedByCleared (m : NotificationOutboxMutation) : bool :=
  bool_decide (notificationoutbox_FieldLockedBy ∈ nm_clearedFields m).
Definition NotificationOutboxMutation_ResetLockedBy (m : NotificationOutboxMutation)
    : NotificationOutboxMutation :=
  m <| nm_locked_by := None |> <| nm_clearedFields ::= (λ c, c ∖ {[notificationoutbox_FieldLockedBy]}) |>.
Definition NotificationOutboxMutation_SetLockedAt (v : Z) (m : NotificationOutboxMutation)
    : NotificationOutboxMutation :=
  m <| nm_locked_at := Some v |>.
Definition NotificationOutboxMutation_LockedAt (m : NotificationOutboxMutation) : option Z := nm_locked_at m.
Definition NotificationOutboxMutation_OldLockedAt (get : Z → string + NotificationOutboxNode) (m : NotificationOutboxMutation)
    : (string + Z) * NotificationOutboxMutation :=
  let '(r, o) := old_field "OldLockedAt" (nm_op m) (nm_id m) (nm_oldValue m) (nm_done m) get nn_LockedAt in
    (r, m <| nm_oldValue := o |>).
Definition NotificationOutboxMutation_ClearLockedAt (m : NotificationOutboxMutation)
    : NotificationOutboxMutation :=
  m <| nm_locked_at := None |> <| nm_clearedFields ::= (λ c, {[notificationoutbox_FieldLockedAt]} ∪ c) |>.
Definition NotificationOutboxMutation_LockedAtCleared (m : NotificationOutboxMutation) : bool :=
  bool_decide (notificationoutbox_FieldLockedAt ∈ nm_clearedFields m).
Definition NotificationOutboxMutation_ResetLockedAt (m : NotificationOutboxMutation)
    : NotificationOutboxMutation :=
  m <| nm_locked_at := None |> <| nm_clearedFields ::= (λ c, c ∖ {[notificationoutbox_FieldLockedAt]}) |>.
Definition NotificationOutboxMutation_SetLastError (v : string) (m : NotificationOutboxMutation)
    : NotificationOutboxMutation :=
  m <| nm_last_error := Some v |>.
Definition NotificationOutboxMutation_LastError (m : NotificationOutboxMutation) : option string :=
  nm_last_error m.
Definition NotificationOutboxMutation_OldLastError (get : Z → string + NotificationOutboxNode) (m : NotificationOutboxMutation)
    : (string + (option string)) * NotificationOutboxMutation :=
  let '(r, o) := old_field "OldLastError" (nm_op m) (nm_id m) (nm_oldValue m) (nm_done m) get nn_LastError in
    (r, m <| nm_oldValue := o |>).
Definition NotificationOutboxMutation_ClearLastError (m : NotificationOutboxMutation)
    : NotificationOutboxMutation :=
  m <| nm_last_error := None |> <| nm_clearedFields ::= (λ c, {[notificationoutbox_FieldLastError]} ∪ c) |>.
Definition NotificationOutboxMutation_LastErrorCleared (m : NotificationOutboxMutation) : bool :=
  bool_decide (notificationoutbox_FieldLastError ∈ nm_clearedFields m).
Definition NotificationOutboxMutation_ResetLastError (m : NotificationOutboxMutation)
    : NotificationOutboxMutation :=
  m <| nm_last_error := None |> <| nm_clearedFields ::= (λ c, c ∖ {[notificationoutbox_FieldLastError]}) |>.
Definition NotificationOutboxMutation_SetCreatedAt (v : Z) (m : NotificationOutboxMutation)
    : NotificationOutboxMutation :=
  m <| nm_created_at := Some v |>.
Definition NotificationOutboxMutation_CreatedAt (m : NotificationOutboxMutation) : option Z := nm_created_at m.
Definition NotificationOutboxMutation_OldCreatedAt (get : Z → string + NotificationOutboxNode) (m : NotificationOutboxMutation)
    : (string + Z) * NotificationOutboxMutation :=
  let '(r, o) := old_field "OldCreatedAt" (nm_op m) (nm_id m) (nm_oldValue m) (nm_done m) get nn_CreatedAt in
    (r, m <| nm_oldValue := o |>).
Definition NotificationOutboxMutation_ResetCreatedAt (m : NotificationOutboxMutation)
    : NotificationOutboxMutation :=
  m <| nm_created_at := None |>.
Definition NotificationOutboxMutation_SetUpdatedAt (v : Z) (m : NotificationOutboxMutation)
    : NotificationOutboxMutation :=
  m <| nm_updated_at := Some v |>.
Definition NotificationOutboxMutation_UpdatedAt (m : NotificationOutboxMutation) : option Z := nm_updated_at m.
Definition NotificationOutboxMutation_OldUpdatedAt (get : Z → string + NotificationOutboxNode) (m : NotificationOutboxMutation)
    : (string + Z) * NotificationOutboxMutation :=
  let '(r, o) := old_field "OldUpdatedAt" (nm_op m) (nm_id m) (nm_oldValue m) (nm_done m) get nn_UpdatedAt in
    (r, m <| nm_oldValue := o |>).
Definition NotificationOutboxMutation_ResetUpdatedAt (m : NotificationOutboxMutation)
    : NotificationOutboxMutation :=
  m <| nm_updated_at := None |>.
Definition NotificationOutboxMutation_ClearIncident (m : NotificationOutboxMutation)
    : NotificationOutboxMutation :=
  m <| nm_clearedincident := true |>
    <| nm_clearedFields ::= (λ c, {[notificationoutbox_FieldIncidentID]} ∪ c) |>.
Definition NotificationOutboxMutation_IncidentCleared (m : NotificationOutboxMutation) : bool :=
  nm_clearedincident m.
Definition NotificationOutboxMutation_IncidentIDs (m : NotificationOutboxMutation) : list Z :=
  option_list (nm_incident m).
Definition NotificationOutboxMutation_ResetIncident (m : NotificationOutboxMutation)
    : NotificationOutboxMutation :=
  m <| nm_incident := None |> <| nm_clearedincident := false |>.
Definition NotificationOutboxMutation_Where (ps : list sql_pred) (m : NotificationOutboxMutation)
    : NotificationOutboxMutation :=
  m <| nm_predicates ::= (λ old, old ++ ps) |>.
Definition NotificationOutboxMutation_WhereP (ps : list sql_pred) (m : NotificationOutboxMutation)
    : NotificationOutboxMutation :=
  NotificationOutboxMutation_Where ps m.
Definition NotificationOutboxMutation_Op (m : NotificationOutboxMutation) : Op := nm_op m.
Definition NotificationOutboxMutation_SetOp (op : Op) (m : NotificationOutboxMutation)
    : NotificationOutboxMutation :=
  m <| nm_op := op |>.
Definition NotificationOutboxMutation_Type (m : NotificationOutboxMutation) : string := nm_typ m.
Definition NotificationOutboxMutation_Fields (m : NotificationOutboxMutation) : list string :=
  collect
  [(notificationoutbox_FieldKind, some (nm_kind m));
   (notificationoutbox_FieldIncidentID, some (nm_incident m));
   (notificationoutbox_FieldRecipient, some (nm_recipient m));
   (notificationoutbox_FieldPayload, some (nm_payload m));
   (notificationoutbox_FieldChangeID, some (nm_change_id m));
   (notificationoutbox_FieldDedupKey, some (nm_dedup_key m));
   (notificationoutbox_FieldStatus, some (nm_status m));
   (notificationoutbox_FieldAttempts, some (nm_attempts m));
   (notificationoutbox_FieldNextAttemptAt, some (nm_next_attempt_at m));
   (notificationoutbox_FieldLockedBy, some (nm_locked_by m));
   (notificationoutbox_FieldLockedAt, some (nm_locked_at m));
   (notificationoutbox_FieldLastError, some (nm_last_error m));
   (notificationoutbox_FieldCreatedAt, some (nm_created_at m));
   (notificationoutbox_FieldUpdatedAt, some (nm_updated_at m))].
Definition NotificationOutboxMutation_Field (name : string) (m : NotificationOutboxMutation) : option value :=
  switch name
  [(notificationoutbox_FieldKind, VString <$> NotificationOutboxMutation_Kind m);
   (notificationoutbox_FieldIncidentID, VInt <$> NotificationOutboxMutation_IncidentID m);
   (notificationoutbox_FieldRecipient, VString <$> NotificationOutboxMutation_Recipient m);
   (notificationoutbox_FieldPayload, VJSON <$> NotificationOutboxMutation_Payload m);
   (notificationoutbox_FieldChangeID, VString <$> NotificationOutboxMutation_ChangeID m);
   (notificationoutbox_FieldDedupKey, VString <$> NotificationOutboxMutation_DedupKey m);
   (notificationoutbox_FieldStatus, VString <$> NotificationOutboxMutation_Status m);
   (notificationoutbox_FieldAttempts, VInt <$> NotificationOutboxMutation_Attempts m);
   (notificationoutbox_FieldNextAttemptAt, VTime <$> NotificationOutboxMutation_NextAttemptAt m);
   (notificationoutbox_FieldLockedBy, VString <$> NotificationOutboxMutation_LockedBy m);
   (notificationoutbox_FieldLockedAt, VTime <$> NotificationOutboxMutation_LockedAt m);
   (notificationoutbox_FieldLastError, VString <$> NotificationOutboxMutation_LastError m);
   (notificationoutbox_FieldCreatedAt, VTime <$> NotificationOutboxMutation_CreatedAt m);
   (notificationoutbox_FieldUpdatedAt, VTime <$> NotificationOutboxMutation_UpdatedAt m)]
  None.
Definition NotificationOutboxMutation_OldField (get : Z → string + NotificationOutboxNode) (name : string) (m : NotificationOutboxMutation)
    : (string + option value) * NotificationOutboxMutation :=
  switch name
  [(notificationoutbox_FieldKind, old_any (Some ∘ VString) (NotificationOutboxMutation_OldKind get m));
   (notificationoutbox_FieldIncidentID, old_any (Some ∘ VInt) (NotificationOutboxMutation_OldIncidentID get m));
   (notificationoutbox_FieldRecipient, old_any (Some ∘ VString) (NotificationOutboxMutation_OldRecipient get
     m));
   (notificationoutbox_FieldPayload, old_any (Some ∘ VJSON) (NotificationOutboxMutation_OldPayload get m));
   (notificationoutbox_FieldChangeID, old_any (Some ∘ VString) (NotificationOutboxMutation_OldChangeID get m));
   (notificationoutbox_FieldDedupKey, old_any (Some ∘ VString) (NotificationOutboxMutation_OldDedupKey get m));
   (notificationoutbox_FieldStatus, old_any (Some ∘ VString) (NotificationOutboxMutation_OldStatus get m));
   (notificationoutbox_FieldAttempts, old_any (Some ∘ VInt) (NotificationOutboxMutation_OldAttempts get m));
   (notificationoutbox_FieldNextAttemptAt, old_any (Some ∘ VTime)
     (NotificationOutboxMutation_OldNextAttemptAt get m));
   (notificationoutbox_FieldLockedBy, old_any (fmap VString) (NotificationOutboxMutation_OldLockedBy get m));
   (notificationoutbox_FieldLockedAt, old_any (Some ∘ VTime) (NotificationOutboxMutation_OldLockedAt get m));
   (notificationoutbox_FieldLastError, old_any (fmap VString) (NotificationOutboxMutation_OldLastError get m));
   (notificationoutbox_FieldCreatedAt, old_any (Some ∘ VTime) (NotificationOutboxMutation_OldCreatedAt get m));
   (notificationoutbox_FieldUpdatedAt, old_any (Some ∘ VTime) (NotificationOutboxMutation_OldUpdatedAt get m))]
  (inl ("unknown NotificationOutbox field " +:+ name), m).
Definition NotificationOutboxMutation_SetField (name : string) (v : value) (m : NotificationOutboxMutation)
    : string + NotificationOutboxMutation :=
  switch name
  [(notificationoutbox_FieldKind, as_string name v (λ v, NotificationOutboxMutation_SetKind v m));
   (notificationoutbox_FieldIncidentID, as_int name v (λ v, NotificationOutboxMutation_SetIncidentID v m));
   (notificationoutbox_FieldRecipient, as_string name v (λ v, NotificationOutboxMutation_SetRecipient v m));
   (notificationoutbox_FieldPayload, as_json name v (λ v, NotificationOutboxMutation_SetPayload v m));
   (notificationoutbox_FieldChangeID, as_string name v (λ v, NotificationOutboxMutation_SetChangeID v m));
   (notificationoutbox_FieldDedupKey, as_string name v (λ v, NotificationOutboxMutation_SetDedupKey v m));
   (notificationoutbox_FieldStatus, as_string name v (λ v, NotificationOutboxMutation_SetStatus v m));
   (notificationoutbox_FieldAttempts, as_int name v (λ v, NotificationOutboxMutation_SetAttempts v m));
   (notificationoutbox_FieldNextAttemptAt, as_time name v (λ v, NotificationOutboxMutation_SetNextAttemptAt v
     m));
   (notificationoutbox_FieldLockedBy, as_string name v (λ v, NotificationOutboxMutation_SetLockedBy v m));
   (notificationoutbox_FieldLockedAt, as_time name v (λ v, NotificationOutboxMutation_SetLockedAt v m));
   (notificationoutbox_FieldLastError, as_string name v (λ v, NotificationOutboxMutation_SetLastError v m));
   (notificationoutbox_FieldCreatedAt, as_time name v (λ v, NotificationOutboxMutation_SetCreatedAt v m));
   (notificationoutbox_FieldUpdatedAt, as_time name v (λ v, NotificationOutboxMutation_SetUpdatedAt v m))]
  (inl ("unknown NotificationOutbox field " +:+ name)).
Definition NotificationOutboxMutation_AddedFields (m : NotificationOutboxMutation) : list string :=
  collect
  [(notificationoutbox_FieldAttempts, some (nm_addattempts m))].
Definition NotificationOutboxMutation_AddedField (name : string) (m : NotificationOutboxMutation)
    : option value :=
  switch name
  [(notificationoutbox_FieldAttempts, VInt <$> NotificationOutboxMutation_AddedAttempts m)]
  None.
Definition NotificationOutboxMutation_AddField (name : string) (v : value) (m : NotificationOutboxMutation)
    : string + NotificationOutboxMutation :=
  switch name
  [(notificationoutbox_FieldAttempts, as_int name v (λ v, NotificationOutboxMutation_AddAttempts v m))]
  (inl ("unknown NotificationOutbox numeric field " +:+ name)).
Definition NotificationOutboxMutation_FieldCleared (name : string) (m : NotificationOutboxMutation) : bool :=
  bool_decide (name ∈ nm_clearedFields m).
Definition NotificationOutboxMutation_ClearedFields (m : NotificationOutboxMutation) : list string :=
  collect
  [(notificationoutbox_FieldNextAttemptAt, NotificationOutboxMutation_FieldCleared
    notificationoutbox_FieldNextAttemptAt m);
   (notificationoutbox_FieldLockedBy, NotificationOutboxMutation_FieldCleared
     notificationoutbox_FieldLockedBy m);
   (notificationoutbox_FieldLockedAt, NotificationOutboxMutation_FieldCleared
     notificationoutbox_FieldLockedAt m);
   (notificationoutbox_FieldLastError, NotificationOutboxMutation_FieldCleared
     notificationoutbox_FieldLastError m)].
Definition NotificationOutboxMutation_ClearField (name : string) (m : NotificationOutboxMutation)
    : string + NotificationOutboxMutation :=
  switch name
  [(notificationoutbox_FieldNextAttemptAt, inr (NotificationOutboxMutation_ClearNextAttemptAt m));
   (notificationoutbox_FieldLockedBy, inr (NotificationOutboxMutation_ClearLockedBy m));
   (notificationoutbox_FieldLockedAt, inr (NotificationOutboxMutation_ClearLockedAt m));
   (notificationoutbox_FieldLastError, inr (NotificationOutboxMutation_ClearLastError m))]
  (inl ("unknown NotificationOutbox nullable field " +:+ name)).
Definition NotificationOutboxMutation_ResetField (name : string) (m : NotificationOutboxMutation)
    : string + NotificationOutboxMutation :=
  switch name
  [(notificationoutbox_FieldKind, inr (NotificationOutboxMutation_ResetKind m));
   (notificationoutbox_FieldIncidentID, inr (NotificationOutboxMutation_ResetIncidentID m));
   (notificationoutbox_FieldRecipient, inr (NotificationOutboxMutation_ResetRecipient m));
   (notificationoutbox_FieldPayload, inr (NotificationOutboxMutation_ResetPayload m));
   (notificationoutbox_FieldChangeID, inr (NotificationOutboxMutation_ResetChangeID m));
   (notificationoutbox_FieldDedupKey, inr (NotificationOutboxMutation_ResetDedupKey m));
   (notificationoutbox_FieldStatus, inr (NotificationOutboxMutation_ResetStatus m));
   (notificationoutbox_FieldAttempts, inr (NotificationOutboxMutation_ResetAttempts m));
   (notificationoutbox_FieldNextAttemptAt, inr (NotificationOutboxMutation_ResetNextAttemptAt m));
   (notificationoutbox_FieldLockedBy, inr (NotificationOutboxMutation_ResetLockedBy m));
   (notificationoutbox_FieldLockedAt, inr (NotificationOutboxMutation_ResetLockedAt m));
   (notificationoutbox_FieldLastError, inr (NotificationOutboxMutation_ResetLastError m));
   (notificationoutbox_FieldCreatedAt, inr (NotificationOutboxMutation_ResetCreatedAt m));
   (notificationoutbox_FieldUpdatedAt, inr (NotificationOutboxMutation_ResetUpdatedAt m))]
  (inl ("unknown NotificationOutbox field " +:+ name)).
Definition NotificationOutboxMutation_AddedEdges (m : NotificationOutboxMutation) : list string :=
  collect
  [(notificationoutbox_EdgeIncident, some (nm_incident m))].
Definition NotificationOutboxMutation_AddedIDs (name : string) (m : NotificationOutboxMutation) : list Z :=
  switch name
  [(notificationoutbox_EdgeIncident, option_list (nm_incident m))]
  [].
Definition NotificationOutboxMutation_RemovedEdges (m : NotificationOutboxMutation) : list string :=
  [].
Definition NotificationOutboxMutation_RemovedIDs (name : string) (m : NotificationOutboxMutation) : list Z :=
  [].
Definition NotificationOutboxMutation_ClearedEdges (m : NotificationOutboxMutation) : list string :=
  collect
  [(notificationoutbox_EdgeIncident, nm_clearedincident m)].
Definition NotificationOutboxMutation_EdgeCleared (name : string) (m : NotificationOutboxMutation) : bool :=
  switch name
  [(notificationoutbox_EdgeIncident, nm_clearedincident m)]
  false.
Definition NotificationOutboxMutation_ClearEdge (name : string) (m : NotificationOutboxMutation)
    : string + NotificationOutboxMutation :=
  switch name
  [(notificationoutbox_EdgeIncident, inr (NotificationOutboxMutation_ClearIncident m))]
  (inl ("unknown NotificationOutbox unique edge " +:+ name)).
Definition NotificationOutboxMutation_ResetEdge (name : string) (m : NotificationOutboxMutation)
    : string + NotificationOutboxMutation :=
  switch name
  [(notificationoutbox_EdgeIncident, inr (NotificationOutboxMutation_ResetIncident m))]
  (inl ("unknown NotificationOutbox edge " +:+ name)).
