(* ===== verification/EntComponentBuild.v ===== *)
(** * The builders of the entity [Component]

    Scanning ([ent/component.go]) and the create, update and delete builders
    ([ent/component_create.go], [ent/component_update.go], [ent/component_delete.go]).
    A builder carries its mutation; no hook is registered.  The options for conflicts
    ([OnConflict] and the upsert builders) and bulk creation are left out: nothing uses them. *)

From S2P Require Import Prelude GoStrings GoTime Errors Models EntCore EntComponent EntComponentAttr EntIncident EntIncidentStatus EntNotificationOutbox.
Local Open Scope Z_scope.

(** ** Scanning *)

Definition Component_scanValues (columns : list string) : list scan_kind :=
  (λ c, switch c
    [(component_FieldID, SInt64); (component_FieldName, SString); (component_FieldCreatedAt, STime);
      (component_FieldModifiedAt, STime); (component_FieldDeletedAt, STime)] SUnknown) <$> columns.
Definition Component_assign (column : string) (v : scanned) (n : ComponentNode) : scan_err + ComponentNode :=
  switch column
  [(component_FieldID, assign_id v "id" (λ v n, n <| cn_ID := v |>) n);
   (component_FieldName, assign_string v "name" (λ v n, n <| cn_Name := v |>) n);
   (component_FieldCreatedAt, assign_time v "created_at" (λ v n, n <| cn_CreatedAt := v |>) n);
   (component_FieldModifiedAt, assign_time v "modified_at" (λ v n, n <| cn_ModifiedAt := v |>) n);
   (component_FieldDeletedAt, assign_time v "deleted_at" (λ v n, n <| cn_DeletedAt := v |>) n)]
  (inr n).
Definition Component_assignValues (columns : list string) (values : list scanned) (n : ComponentNode) : scan_err + ComponentNode :=
  assign_all Component_assign columns values n.

(** ** [ComponentCreate] *)

Record ComponentCreate := mkComponentCreate { ComponentCreate_mutation : ComponentMutation }.
Definition ComponentCreate_SetName (v : string) (c : ComponentCreate) : ComponentCreate :=
  c <| ComponentCreate_mutation ::= ComponentMutation_SetName v |>.
Definition ComponentCreate_SetCreatedAt (v : Z) (c : ComponentCreate) : ComponentCreate :=
  c <| ComponentCreate_mutation ::= ComponentMutation_SetCreatedAt v |>.
Definition ComponentCreate_SetNillableCreatedAt (v : option Z) (c : ComponentCreate) : ComponentCreate :=
  match v with Some v => ComponentCreate_SetCreatedAt v c | None => c end.
Definition ComponentCreate_SetModifiedAt (v : Z) (c : ComponentCreate) : ComponentCreate :=
  c <| ComponentCreate_mutation ::= ComponentMutation_SetModifiedAt v |>.
Definition ComponentCreate_SetNillableModifiedAt (v : option Z) (c : ComponentCreate) : ComponentCreate :=
  match v with Some v => ComponentCreate_SetModifiedAt v c | None => c end.
Definition ComponentCreate_SetDeletedAt (v : Z) (c : ComponentCreate) : ComponentCreate :=
  c <| ComponentCreate_mutation ::= ComponentMutation_SetDeletedAt v |>.
Definition ComponentCreate_SetNillableDeletedAt (v : option Z) (c : ComponentCreate) : ComponentCreate :=
  match v with Some v => ComponentCreate_SetDeletedAt v c | None => c end.
Definition ComponentCreate_SetID (v : Z) (c : ComponentCreate) : ComponentCreate :=
  c <| ComponentCreate_mutation ::= ComponentMutation_SetID v |>.
Definition ComponentCreate_AddAttributeIDs (ids : list Z) (c : ComponentCreate) : ComponentCreate :=
  c <| ComponentCreate_mutation ::= ComponentMutation_AddAttributeIDs ids |>.
Definition ComponentCreate_AddAttributes (v : list ComponentAttrNode) (c : ComponentCreate) : ComponentCreate :=
  ComponentCreate_AddAttributeIDs (an_ID <$> v) c.
Definition ComponentCreate_AddIncidentIDs (ids : list Z) (c : ComponentCreate) : ComponentCreate :=
  c <| ComponentCreate_mutation ::= ComponentMutation_AddIncidentIDs ids |>.
Definition ComponentCreate_AddIncidents (v : list IncidentNode) (c : ComponentCreate) : ComponentCreate :=
  ComponentCreate_AddIncidentIDs (in_ID <$> v) c.
Definition ComponentCreate_Mutation (c : ComponentCreate) : ComponentMutation := ComponentCreate_mutation c.
Definition ComponentCreate_check (c : ComponentCreate) : option ent_error :=
  let m := ComponentCreate_mutation c in
  first_error [required "Component" "name" (ComponentMutation_Name m);
    validated "Component" "name" component_NameValidator (ComponentMutation_Name m)].
Definition ComponentCreate_createSpec (c : ComponentCreate) : ComponentNode * CreateSpec :=
  let m := ComponentCreate_mutation c in
  (foldl (λ n f, f n) newComponentNode
    [assign (ComponentMutation_ID m) (λ v n, n <| cn_ID := v |>);
     assign (ComponentMutation_Name m) (λ v n, n <| cn_Name := v |>);
     assign (ComponentMutation_CreatedAt m) (λ v n, n <| cn_CreatedAt := v |>);
     assign (ComponentMutation_ModifiedAt m) (λ v n, n <| cn_ModifiedAt := v |>);
     assign (ComponentMutation_DeletedAt m) (λ v n, n <| cn_DeletedAt := v |>)],
   mkCreateSpec component_Table (ComponentMutation_ID m)
    (set_fields
    [(component_FieldName, VString <$> ComponentMutation_Name m);
     (component_FieldCreatedAt, VTime <$> ComponentMutation_CreatedAt m);
     (component_FieldModifiedAt, VTime <$> ComponentMutation_ModifiedAt m);
     (component_FieldDeletedAt, VTime <$> ComponentMutation_DeletedAt m)])
    (edge_to (ComponentMutation_AttributesIDs m) O2M false component_AttributesTable
      [component_AttributesColumn] ++
     edge_to (ComponentMutation_IncidentsIDs m) M2M true component_IncidentsTable
       component_IncidentsPrimaryKey)).
Definition ComponentCreate_sqlSave `{SqlGraph DB} (c : ComponentCreate) (db : DB)
    : (ent_error + ComponentNode) * ComponentCreate * DB :=
  match ComponentCreate_check c with
  | Some e => (inl e, c, db)
  | None =>
      let '(node, spec) := ComponentCreate_createSpec c in
      match g_CreateNode spec db with
      | (inl e, db) => (inl (create_error e), c, db)
      | (inr id, db) => (inr (node <| cn_ID := id |>),
                         c <| ComponentCreate_mutation ::= (λ m, m <| cm_id := Some id |>
                           <| cm_done := true |>) |>, db)
      end
  end.
Definition ComponentCreate_Save `{SqlGraph DB} (c : ComponentCreate) (db : DB)
    : (ent_error + ComponentNode) * ComponentCreate * DB :=
  let c := c in
  withHooks (λ e, (inl e, c, db))
    (λ m, ComponentCreate_sqlSave (c <| ComponentCreate_mutation := m |>) db)
    (ComponentCreate_mutation c) [].
Definition ComponentCreate_Exec `{SqlGraph DB} (c : ComponentCreate) (db : DB)
    : (ent_error + unit) * ComponentCreate * DB :=
  let '(r, c, db) := ComponentCreate_Save c db in (match r with inl e => inl e | inr _ => inr tt end, c, db).

(** ** [ComponentUpdate] *)

Record ComponentUpdate := mkComponentUpdate { ComponentUpdate_mutation : ComponentMutation }.
Definition ComponentUpdate_Where (ps : list sql_pred) (c : ComponentUpdate) : ComponentUpdate :=
  c <| ComponentUpdate_mutation ::= ComponentMutation_Where ps |>.
Definition ComponentUpdate_SetName (v : string) (c : ComponentUpdate) : ComponentUpdate :=
  c <| ComponentUpdate_mutation ::= ComponentMutation_SetName v |>.
Definition ComponentUpdate_SetNillableName (v : option string) (c : ComponentUpdate) : ComponentUpdate :=
  match v with Some v => ComponentUpdate_SetName v c | None => c end.
Definition ComponentUpdate_SetCreatedAt (v : Z) (c : ComponentUpdate) : ComponentUpdate :=
  c <| ComponentUpdate_mutation ::= ComponentMutation_SetCreatedAt v |>.
Definition ComponentUpdate_SetNillableCreatedAt (v : option Z) (c : ComponentUpdate) : ComponentUpdate :=
  match v with Some v => ComponentUpdate_SetCreatedAt v c | None => c end.
Definition ComponentUpdate_ClearCreatedAt (c : ComponentUpdate) : ComponentUpdate :=
  c <| ComponentUpdate_mutation ::= ComponentMutation_ClearCreatedAt |>.
Definition ComponentUpdate_SetModifiedAt (v : Z) (c : ComponentUpdate) : ComponentUpdate :=
  c <| ComponentUpdate_mutation ::= ComponentMutation_SetModifiedAt v |>.
Definition ComponentUpdate_SetNillableModifiedAt (v : option Z) (c : ComponentUpdate) : ComponentUpdate :=
  match v with Some v => ComponentUpdate_SetModifiedAt v c | None => c end.
Definition ComponentUpdate_ClearModifiedAt (c : ComponentUpdate) : ComponentUpdate :=
  c <| ComponentUpdate_mutation ::= ComponentMutation_ClearModifiedAt |>.
Definition ComponentUpdate_SetDeletedAt (v : Z) (c : ComponentUpdate) : ComponentUpdate :=
  c <| ComponentUpdate_mutation ::= ComponentMutation_SetDeletedAt v |>.
Definition ComponentUpdate_SetNillableDeletedAt (v : option Z) (c : ComponentUpdate) : ComponentUpdate :=
  match v with Some v => ComponentUpdate_SetDeletedAt v c | None => c end.
Definition ComponentUpdate_ClearDeletedAt (c : ComponentUpdate) : ComponentUpdate :=
  c <| ComponentUpdate_mutation ::= ComponentMutation_ClearDeletedAt |>.
Definition ComponentUpdate_AddAttributeIDs (ids : list Z) (c : ComponentUpdate) : ComponentUpdate :=
  c <| ComponentUpdate_mutation ::= ComponentMutation_AddAttributeIDs ids |>.
Definition ComponentUpdate_AddAttributes (v : list ComponentAttrNode) (c : ComponentUpdate) : ComponentUpdate :=
  ComponentUpdate_AddAttributeIDs (an_ID <$> v) c.
Definition ComponentUpdate_AddIncidentIDs (ids : list Z) (c : ComponentUpdate) : ComponentUpdate :=
  c <| ComponentUpdate_mutation ::= ComponentMutation_AddIncidentIDs ids |>.
Definition ComponentUpdate_AddIncidents (v : list IncidentNode) (c : ComponentUpdate) : ComponentUpdate :=
  ComponentUpdate_AddIncidentIDs (in_ID <$> v) c.
Definition ComponentUpdate_Mutation (c : ComponentUpdate) : ComponentMutation := ComponentUpdate_mutation c.
Definition ComponentUpdate_ClearAttributes (c : ComponentUpdate) : ComponentUpdate :=
  c <| ComponentUpdate_mutation ::= ComponentMutation_ClearAttributes |>.
Definition ComponentUpdate_RemoveAttributeIDs (ids : list Z) (c : ComponentUpdate) : ComponentUpdate :=
  c <| ComponentUpdate_mutation ::= ComponentMutation_RemoveAttributeIDs ids |>.
Definition ComponentUpdate_RemoveAttributes (v : list ComponentAttrNode) (c : ComponentUpdate)
    : ComponentUpdate :=
  ComponentUpdate_RemoveAttributeIDs (an_ID <$> v) c.
Definition ComponentUpdate_ClearIncidents (c : ComponentUpdate) : ComponentUpdate :=
  c <| ComponentUpdate_mutation ::= ComponentMutation_ClearIncidents |>.
Definition ComponentUpdate_RemoveIncidentIDs (ids : list Z) (c : ComponentUpdate) : ComponentUpdate :=
  c <| ComponentUpdate_mutation ::= ComponentMutation_RemoveIncidentIDs ids |>.
Definition ComponentUpdate_RemoveIncidents (v : list IncidentNode) (c : ComponentUpdate) : ComponentUpdate :=
  ComponentUpdate_RemoveIncidentIDs (in_ID <$> v) c.
Definition ComponentUpdate_check (c : ComponentUpdate) : option ent_error :=
  let m := ComponentUpdate_mutation c in
  first_error [validated "Component" "name" component_NameValidator (ComponentMutation_Name m)].
Definition ComponentUpdate_spec (c : ComponentUpdate) : UpdateSpec :=
  let m := ComponentUpdate_mutation c in
  mkUpdateSpec component_Table component_Columns None (cm_predicates m)
    (set_fields
    [(component_FieldName, VString <$> ComponentMutation_Name m);
     (component_FieldCreatedAt, VTime <$> ComponentMutation_CreatedAt m);
     (component_FieldModifiedAt, VTime <$> ComponentMutation_ModifiedAt m);
     (component_FieldDeletedAt, VTime <$> ComponentMutation_DeletedAt m)])
    ([])
    (collect
    [(component_FieldCreatedAt, ComponentMutation_CreatedAtCleared m);
     (component_FieldModifiedAt, ComponentMutation_ModifiedAtCleared m);
     (component_FieldDeletedAt, ComponentMutation_DeletedAtCleared m)])
    (edge_cleared (ComponentMutation_AttributesCleared m) O2M false component_AttributesTable
      [component_AttributesColumn] ++
     edge_to (if ComponentMutation_AttributesCleared m then [] else ComponentMutation_RemovedAttributesIDs m)
       O2M false component_AttributesTable [component_AttributesColumn] ++
     edge_cleared (ComponentMutation_IncidentsCleared m) M2M true component_IncidentsTable
       component_IncidentsPrimaryKey ++
     edge_to (if ComponentMutation_IncidentsCleared m then [] else ComponentMutation_RemovedIncidentsIDs m)
       M2M true component_IncidentsTable component_IncidentsPrimaryKey)
    (edge_to (ComponentMutation_AttributesIDs m) O2M false component_AttributesTable
      [component_AttributesColumn] ++
     edge_to (ComponentMutation_IncidentsIDs m) M2M true component_IncidentsTable
       component_IncidentsPrimaryKey).
Definition ComponentUpdate_sqlSave `{SqlGraph DB} (c : ComponentUpdate) (db : DB)
    : (ent_error + Z) * ComponentUpdate * DB :=
  match ComponentUpdate_check c with
  | Some e => (inl e, c, db)
  | None =>
      match g_UpdateNodes (ComponentUpdate_spec c) db with
      | (inl e, db) => (inl (update_error component_Label e), c, db)
      | (inr affected, db) => (inr affected, c <| ComponentUpdate_mutation ::= (λ m, m
        <| cm_done := true |>) |>, db)
      end
  end.
Definition ComponentUpdate_Save `{SqlGraph DB} (c : ComponentUpdate) (db : DB)
    : (ent_error + Z) * ComponentUpdate * DB :=
  withHooks (λ e, (inl e, c, db))
    (λ m, ComponentUpdate_sqlSave (c <| ComponentUpdate_mutation := m |>) db) (ComponentUpdate_mutation c) [].
Definition ComponentUpdate_Exec `{SqlGraph DB} (c : ComponentUpdate) (db : DB)
    : (ent_error + unit) * ComponentUpdate * DB :=
  let '(r, c, db) := ComponentUpdate_Save c db in (match r with inl e => inl e | inr _ => inr tt end, c, db).

(** ** [ComponentUpdateOne] *)

Record ComponentUpdateOne := mkComponentUpdateOne { ComponentUpdateOne_mutation : ComponentMutation; ComponentUpdateOne_fields : list string }.
Definition ComponentUpdateOne_SetName (v : string) (c : ComponentUpdateOne) : ComponentUpdateOne :=
  c <| ComponentUpdateOne_mutation ::= ComponentMutation_SetName v |>.
Definition ComponentUpdateOne_SetNillableName (v : option string) (c : ComponentUpdateOne)
    : ComponentUpdateOne :=
  match v with Some v => ComponentUpdateOne_SetName v c | None => c end.
Definition ComponentUpdateOne_SetCreatedAt (v : Z) (c : ComponentUpdateOne) : ComponentUpdateOne :=
  c <| ComponentUpdateOne_mutation ::= ComponentMutation_SetCreatedAt v |>.
Definition ComponentUpdateOne_SetNillableCreatedAt (v : option Z) (c : ComponentUpdateOne)
    : ComponentUpdateOne :=
  match v with Some v => ComponentUpdateOne_SetCreatedAt v c | None => c end.
Definition ComponentUpdateOne_ClearCreatedAt (c : ComponentUpdateOne) : ComponentUpdateOne :=
  c <| ComponentUpdateOne_mutation ::= ComponentMutation_ClearCreatedAt |>.
Definition ComponentUpdateOne_SetModifiedAt (v : Z) (c : ComponentUpdateOne) : ComponentUpdateOne :=
  c <| ComponentUpdateOne_mutation ::= ComponentMutation_SetModifiedAt v |>.
Definition ComponentUpdateOne_SetNillableModifiedAt (v : option Z) (c : ComponentUpdateOne)
    : ComponentUpdateOne :=
  match v with Some v => ComponentUpdateOne_SetModifiedAt v c | None => c end.
Definition ComponentUpdateOne_ClearModifiedAt (c : ComponentUpdateOne) : ComponentUpdateOne :=
  c <| ComponentUpdateOne_mutation ::= ComponentMutation_ClearModifiedAt |>.
Definition ComponentUpdateOne_SetDeletedAt (v : Z) (c : ComponentUpdateOne) : ComponentUpdateOne :=
  c <| ComponentUpdateOne_mutation ::= ComponentMutation_SetDeletedAt v |>.
Definition ComponentUpdateOne_SetNillableDeletedAt (v : option Z) (c : ComponentUpdateOne)
    : ComponentUpdateOne :=
  match v with Some v => ComponentUpdateOne_SetDeletedAt v c | None => c end.
Definition ComponentUpdateOne_ClearDeletedAt (c : ComponentUpdateOne) : ComponentUpdateOne :=
  c <| ComponentUpdateOne_mutation ::= ComponentMutation_ClearDeletedAt |>.
Definition ComponentUpdateOne_AddAttributeIDs (ids : list Z) (c : ComponentUpdateOne) : ComponentUpdateOne :=
  c <| ComponentUpdateOne_mutation ::= ComponentMutation_AddAttributeIDs ids |>.
Definition ComponentUpdateOne_AddAttributes (v : list ComponentAttrNode) (c : ComponentUpdateOne)
    : ComponentUpdateOne :=
  ComponentUpdateOne_AddAttributeIDs (an_ID <$> v) c.
Definition ComponentUpdateOne_AddIncidentIDs (ids : list Z) (c : ComponentUpdateOne) : ComponentUpdateOne :=
  c <| ComponentUpdateOne_mutation ::= ComponentMutation_AddIncidentIDs ids |>.
Definition ComponentUpdateOne_AddIncidents (v : list IncidentNode) (c : ComponentUpdateOne)
    : ComponentUpdateOne :=
  ComponentUpdateOne_AddIncidentIDs (in_ID <$> v) c.
Definition ComponentUpdateOne_Mutation (c : ComponentUpdateOne) : ComponentMutation :=
  ComponentUpdateOne_mutation c.
Definition ComponentUpdateOne_ClearAttributes (c : ComponentUpdateOne) : ComponentUpdateOne :=
  c <| ComponentUpdateOne_mutation ::= ComponentMutation_ClearAttributes |>.
Definition ComponentUpdateOne_RemoveAttributeIDs (ids : list Z) (c : ComponentUpdateOne) : ComponentUpdateOne :=
  c <| ComponentUpdateOne_mutation ::= ComponentMutation_RemoveAttributeIDs ids |>.
Definition ComponentUpdateOne_RemoveAttributes (v : list ComponentAttrNode) (c : ComponentUpdateOne)
    : ComponentUpdateOne :=
  ComponentUpdateOne_RemoveAttributeIDs (an_ID <$> v) c.
Definition ComponentUpdateOne_ClearIncidents (c : ComponentUpdateOne) : ComponentUpdateOne :=
  c <| ComponentUpdateOne_mutation ::= ComponentMutation_ClearIncidents |>.
Definition ComponentUpdateOne_RemoveIncidentIDs (ids : list Z) (c : ComponentUpdateOne) : ComponentUpdateOne :=
  c <| ComponentUpdateOne_mutation ::= ComponentMutation_RemoveIncidentIDs ids |>.
Definition ComponentUpdateOne_RemoveIncidents (v : list IncidentNode) (c : ComponentUpdateOne)
    : ComponentUpdateOne :=
  ComponentUpdateOne_RemoveIncidentIDs (in_ID <$> v) c.
Definition ComponentUpdateOne_Where (ps : list sql_pred) (c : ComponentUpdateOne) : ComponentUpdateOne :=
  c <| ComponentUpdateOne_mutation ::= ComponentMutation_Where ps |>.
Definition ComponentUpdateOne_Select (field : string) (fields : list string) (c : ComponentUpdateOne)
    : ComponentUpdateOne :=
  c <| ComponentUpdateOne_fields := field :: fields |>.
Definition ComponentUpdateOne_check (c : ComponentUpdateOne) : option ent_error :=
  let m := ComponentUpdateOne_mutation c in
  first_error [validated "Component" "name" component_NameValidator (ComponentMutation_Name m)].
Definition ComponentUpdateOne_spec (c : ComponentUpdateOne) (id : Z) (columns : list string) : UpdateSpec :=
  let m := ComponentUpdateOne_mutation c in
  mkUpdateSpec component_Table columns (Some id) (cm_predicates m)
    (set_fields
    [(component_FieldName, VString <$> ComponentMutation_Name m);
     (component_FieldCreatedAt, VTime <$> ComponentMutation_CreatedAt m);
     (component_FieldModifiedAt, VTime <$> ComponentMutation_ModifiedAt m);
     (component_FieldDeletedAt, VTime <$> ComponentMutation_DeletedAt m)])
    ([])
    (collect
    [(component_FieldCreatedAt, ComponentMutation_CreatedAtCleared m);
     (component_FieldModifiedAt, ComponentMutation_ModifiedAtCleared m);
     (component_FieldDeletedAt, ComponentMutation_DeletedAtCleared m)])
    (edge_cleared (ComponentMutation_AttributesCleared m) O2M false component_AttributesTable
      [component_AttributesColumn] ++
     edge_to (if ComponentMutation_AttributesCleared m then [] else ComponentMutation_RemovedAttributesIDs m)
       O2M false component_AttributesTable [component_AttributesColumn] ++
     edge_cleared (ComponentMutation_IncidentsCleared m) M2M true component_IncidentsTable
       component_IncidentsPrimaryKey ++
     edge_to (if ComponentMutation_IncidentsCleared m then [] else ComponentMutation_RemovedIncidentsIDs m)
       M2M true component_IncidentsTable component_IncidentsPrimaryKey)
    (edge_to (ComponentMutation_AttributesIDs m) O2M false component_AttributesTable
      [component_AttributesColumn] ++
     edge_to (ComponentMutation_IncidentsIDs m) M2M true component_IncidentsTable
       component_IncidentsPrimaryKey).
Definition ComponentUpdateOne_sqlSave `{SqlGraph DB} (c : ComponentUpdateOne) (db : DB)
    : (ent_error + ComponentNode) * ComponentUpdateOne * DB :=
  match ComponentUpdateOne_check c with
  | Some e => (inl e, c, db)
  | None =>
      match ComponentMutation_ID (ComponentUpdateOne_mutation c) with
      | None => (inl (missing_id "Component"), c, db)
      | Some id =>
          match selected component_Columns component_FieldID component_ValidColumn (ComponentUpdateOne_fields
            c) with
          | inl e => (inl e, c, db)
          | inr columns =>
              match g_UpdateNode (ComponentUpdateOne_spec c id columns)
                      (λ row, Component_assignValues columns (zip_with scan (Component_scanValues columns)
                        row) newComponentNode) db with
              | (inl e, db) => (inl (update_error component_Label e), c, db)
              | (inr node, db) => (inr node, c <| ComponentUpdateOne_mutation ::= (λ m, m
                <| cm_done := true |>) |>, db)
              end
          end
      end
  end.
Definition ComponentUpdateOne_Save `{SqlGraph DB} (c : ComponentUpdateOne) (db : DB)
    : (ent_error + ComponentNode) * ComponentUpdateOne * DB :=
  withHooks (λ e, (inl e, c, db))
    (λ m, ComponentUpdateOne_sqlSave (c
      <| ComponentUpdateOne_mutation := m |>) db) (ComponentUpdateOne_mutation c) [].
Definition ComponentUpdateOne_Exec `{SqlGraph DB} (c : ComponentUpdateOne) (db : DB)
    : (ent_error + unit) * ComponentUpdateOne * DB :=
  let '(r, c, db) := ComponentUpdateOne_Save c db in (match r with inl e => inl e | inr _ => inr tt end, c, db).

(** ** [ComponentDelete] *)

Record ComponentDelete := mkComponentDelete { ComponentDelete_mutation : ComponentMutation }.
Definition ComponentDelete_Where (ps : list sql_pred) (c : ComponentDelete) : ComponentDelete :=
  c <| ComponentDelete_mutation ::= ComponentMutation_Where ps |>.
Definition ComponentDelete_sqlExec `{SqlGraph DB} (c : ComponentDelete) (db : DB)
    : (ent_error + Z) * ComponentDelete * DB :=
  let '(r, db) := g_DeleteNodes component_Table (cm_predicates (ComponentDelete_mutation c)) db in
  (match r with inl e => inl (create_error e) | inr n => inr n end,
   c <| ComponentDelete_mutation ::= (λ m, m <| cm_done := true |>) |>, db).
Definition ComponentDelete_Exec `{SqlGraph DB} (c : ComponentDelete) (db : DB)
    : (ent_error + Z) * ComponentDelete * DB :=
  withHooks (λ e, (inl e, c, db))
    (λ m, ComponentDelete_sqlExec (c <| ComponentDelete_mutation := m |>) db) (ComponentDelete_mutation c) [].
Definition ComponentDeleteOne_Where (ps : list sql_pred) (c : ComponentDelete) : ComponentDelete :=
  ComponentDelete_Where ps c.
Definition ComponentDeleteOne_Exec `{SqlGraph DB} (c : ComponentDelete) (db : DB)
    : (ent_error + unit) * ComponentDelete * DB :=
  let '(r, c, db) := ComponentDelete_Exec c db in
  (match r with inl e => inl e | inr n => if n =? 0 then inl (EntNotFound component_Label) else inr tt end,
    c, db).

(** ** The client: fresh builders *)

Definition ComponentClient_Create (c : config) : ComponentCreate :=
  mkComponentCreate (newComponentMutation c OpCreate []).
Definition ComponentClient_Update (c : config) : ComponentUpdate :=
  mkComponentUpdate (newComponentMutation c OpUpdate []).
Definition ComponentClient_UpdateOne (c : config) (node : ComponentNode) : ComponentUpdateOne :=
  mkComponentUpdateOne (newComponentMutation c OpUpdateOne [withComponent node]) [].
Definition ComponentClient_UpdateOneID (c : config) (id : Z) : ComponentUpdateOne :=
  mkComponentUpdateOne (newComponentMutation c OpUpdateOne [withComponentID id]) [].
Definition ComponentClient_Delete (c : config) : ComponentDelete :=
  mkComponentDelete (newComponentMutation c OpDelete []).
Definition ComponentClient_DeleteOneID (c : config) (id : Z) : ComponentDelete :=
  (ComponentDelete_Where [FieldEQ component_FieldID (VInt id)] (ComponentClient_Delete c))
    <| ComponentDelete_mutation ::= (λ m, m <| cm_id := Some id |> <| cm_op := OpDeleteOne |>) |>.
Definition ComponentClient_DeleteOne (c : config) (node : ComponentNode) : ComponentDelete :=
  ComponentClient_DeleteOneID c (cn_ID node).
