(* ===== verification/EntComponentAttrBuild.v ===== *)
(** * The builders of the entity [ComponentAttr]

    Scanning ([ent/componentattr.go]) and the create, update and delete builders
    ([ent/componentattr_create.go], [ent/componentattr_update.go], [ent/componentattr_delete.go]).
    A builder carries its mutation; no hook is registered.  The options for conflicts
    ([OnConflict] and the upsert builders) and bulk creation are left out: nothing uses them. *)

From S2P Require Import Prelude GoStrings GoTime Errors Models EntCore EntComponent EntComponentAttr EntIncident EntIncidentStatus EntNotificationOutbox.
Local Open Scope Z_scope.

(** ** Scanning *)

Definition ComponentAttr_scanValues (columns : list string) : list scan_kind :=
  (λ c, switch c
    [(componentattr_FieldID, SInt64); (componentattr_FieldComponentID, SInt64);
      (componentattr_FieldName, SString); (componentattr_FieldValue, SString)] SUnknown) <$> columns.
Definition ComponentAttr_assign (column : string) (v : scanned) (n : ComponentAttrNode)
    : scan_err + ComponentAttrNode :=
  switch column
  [(componentattr_FieldID, assign_id v "id" (λ v n, n <| an_ID := v |>) n);
   (componentattr_FieldComponentID, assign_int v "component_id" (λ v n, n <| an_ComponentID := v |>) n);
   (componentattr_FieldName, assign_string v "name" (λ v n, n <| an_Name := v |>) n);
   (componentattr_FieldValue, assign_string v "value" (λ v n, n <| an_Value := v |>) n)]
  (inr n).
Definition ComponentAttr_assignValues (columns : list string) (values : list scanned) (n : ComponentAttrNode) : scan_err + ComponentAttrNode :=
  assign_all ComponentAttr_assign columns values n.

(** ** [ComponentAttrCreate] *)

Record ComponentAttrCreate := mkComponentAttrCreate { ComponentAttrCreate_mutation : ComponentAttrMutation }.
Definition ComponentAttrCreate_SetComponentID (v : Z) (c : ComponentAttrCreate) : ComponentAttrCreate :=
  c <| ComponentAttrCreate_mutation ::= ComponentAttrMutation_SetComponentID v |>.
Definition ComponentAttrCreate_SetNillableComponentID (v : option Z) (c : ComponentAttrCreate)
    : ComponentAttrCreate :=
  match v with Some v => ComponentAttrCreate_SetComponentID v c | None => c end.
Definition ComponentAttrCreate_SetName (v : string) (c : ComponentAttrCreate) : ComponentAttrCreate :=
  c <| ComponentAttrCreate_mutation ::= ComponentAttrMutation_SetName v |>.
Definition ComponentAttrCreate_SetValue (v : string) (c : ComponentAttrCreate) : ComponentAttrCreate :=
  c <| ComponentAttrCreate_mutation ::= ComponentAttrMutation_SetValue v |>.
Definition ComponentAttrCreate_SetID (v : Z) (c : ComponentAttrCreate) : ComponentAttrCreate :=
  c <| ComponentAttrCreate_mutation ::= ComponentAttrMutation_SetID v |>.
Definition ComponentAttrCreate_SetComponent (v : ComponentNode) (c : ComponentAttrCreate)
    : ComponentAttrCreate :=
  ComponentAttrCreate_SetComponentID (cn_ID v) c.
Definition ComponentAttrCreate_Mutation (c : ComponentAttrCreate) : ComponentAttrMutation :=
  ComponentAttrCreate_mutation c.
Definition ComponentAttrCreate_check (c : ComponentAttrCreate) : option ent_error :=
  let m := ComponentAttrCreate_mutation c in
  first_error [required "ComponentAttr" "name" (ComponentAttrMutation_Name m);
    validated "ComponentAttr" "name" componentattr_NameValidator (ComponentAttrMutation_Name m);
    required "ComponentAttr" "value" (ComponentAttrMutation_Value m);
    validated "ComponentAttr" "value" componentattr_ValueValidator (ComponentAttrMutation_Value m)].
Definition ComponentAttrCreate_createSpec (c : ComponentAttrCreate) : ComponentAttrNode * CreateSpec :=
  let m := ComponentAttrCreate_mutation c in
  (foldl (λ n f, f n) newComponentAttrNode
    [assign (ComponentAttrMutation_ID m) (λ v n, n <| an_ID := v |>);
     assign (ComponentAttrMutation_Name m) (λ v n, n <| an_Name := v |>);
     assign (ComponentAttrMutation_Value m) (λ v n, n <| an_Value := v |>);
     assign (head (ComponentAttrMutation_ComponentIDs m)) (λ v n, n <| an_ComponentID := v |>)],
   mkCreateSpec componentattr_Table (ComponentAttrMutation_ID m)
    (set_fields
    [(componentattr_FieldName, VString <$> ComponentAttrMutation_Name m);
     (componentattr_FieldValue, VString <$> ComponentAttrMutation_Value m)])
    (edge_to (ComponentAttrMutation_ComponentIDs m) M2O true componentattr_ComponentTable
      [componentattr_ComponentColumn])).
Definition ComponentAttrCreate_sqlSave `{SqlGraph DB} (c : ComponentAttrCreate) (db : DB)
    : (ent_error + ComponentAttrNode) * ComponentAttrCreate * DB :=
  match ComponentAttrCreate_check c with
  | Some e => (inl e, c, db)
  | None =>
      let '(node, spec) := ComponentAttrCreate_createSpec c in
      match g_CreateNode spec db with
      | (inl e, db) => (inl (create_error e), c, db)
      | (inr id, db) => (inr (node <| an_ID := id |>),
                         c <| ComponentAttrCreate_mutation ::= (λ m, m <| am_id := Some id |>
                           <| am_done := true |>) |>, db)
      end
  end.
Definition ComponentAttrCreate_Save `{SqlGraph DB} (c : ComponentAttrCreate) (db : DB)
    : (ent_error + ComponentAttrNode) * ComponentAttrCreate * DB :=
  let c := c in
  withHooks (λ e, (inl e, c, db))
    (λ m, ComponentAttrCreate_sqlSave (c <| ComponentAttrCreate_mutation := m |>) db)
    (ComponentAttrCreate_mutation c) [].
Definition ComponentAttrCreate_Exec `{SqlGraph DB} (c : ComponentAttrCreate) (db : DB)
    : (ent_error + unit) * ComponentAttrCreate * DB :=
  let '(r, c, db) := ComponentAttrCreate_Save c db in (match r with inl e => inl e | inr _ => inr tt end, c,
    db).

(** ** [ComponentAttrUpdate] *)

Record ComponentAttrUpdate := mkComponentAttrUpdate { ComponentAttrUpdate_mutation : ComponentAttrMutation }.
Definition ComponentAttrUpdate_Where (ps : list sql_pred) (c : ComponentAttrUpdate) : ComponentAttrUpdate :=
  c <| ComponentAttrUpdate_mutation ::= ComponentAttrMutation_Where ps |>.
Definition ComponentAttrUpdate_SetComponentID (v : Z) (c : ComponentAttrUpdate) : ComponentAttrUpdate :=
  c <| ComponentAttrUpdate_mutation ::= ComponentAttrMutation_SetComponentID v |>.
Definition ComponentAttrUpdate_SetNillableComponentID (v : option Z) (c : ComponentAttrUpdate)
    : ComponentAttrUpdate :=
  match v with Some v => ComponentAttrUpdate_SetComponentID v c | None => c end.
Definition ComponentAttrUpdate_ClearComponentID (c : ComponentAttrUpdate) : ComponentAttrUpdate :=
  c <| ComponentAttrUpdate_mutation ::= ComponentAttrMutation_ClearComponentID |>.
Definition ComponentAttrUpdate_SetName (v : string) (c : ComponentAttrUpdate) : ComponentAttrUpdate :=
  c <| ComponentAttrUpdate_mutation ::= ComponentAttrMutation_SetName v |>.
Definition ComponentAttrUpdate_SetNillableName (v : option string) (c : ComponentAttrUpdate)
    : ComponentAttrUpdate :=
  match v with Some v => ComponentAttrUpdate_SetName v c | None => c end.
Definition ComponentAttrUpdate_SetValue (v : string) (c : ComponentAttrUpdate) : ComponentAttrUpdate :=
  c <| ComponentAttrUpdate_mutation ::= ComponentAttrMutation_SetValue v |>.
Definition ComponentAttrUpdate_SetNillableValue (v : option string) (c : ComponentAttrUpdate)
    : ComponentAttrUpdate :=
  match v with Some v => ComponentAttrUpdate_SetValue v c | None => c end.
Definition ComponentAttrUpdate_SetComponent (v : ComponentNode) (c : ComponentAttrUpdate)
    : ComponentAttrUpdate :=
  ComponentAttrUpdate_SetComponentID (cn_ID v) c.
Definition ComponentAttrUpdate_Mutation (c : ComponentAttrUpdate) : ComponentAttrMutation :=
  ComponentAttrUpdate_mutation c.
Definition ComponentAttrUpdate_ClearComponent (c : ComponentAttrUpdate) : ComponentAttrUpdate :=
  c <| ComponentAttrUpdate_mutation ::= ComponentAttrMutation_ClearComponent |>.
Definition ComponentAttrUpdate_check (c : ComponentAttrUpdate) : option ent_error :=
  let m := ComponentAttrUpdate_mutation c in
  first_error [validated "ComponentAttr" "name" componentattr_NameValidator (ComponentAttrMutation_Name m);
    validated "ComponentAttr" "value" componentattr_ValueValidator (ComponentAttrMutation_Value m)].
Definition ComponentAttrUpdate_spec (c : ComponentAttrUpdate) : UpdateSpec :=
  let m := ComponentAttrUpdate_mutation c in
  mkUpdateSpec componentattr_Table componentattr_Columns None (am_predicates m)
    (set_fields
    [(componentattr_FieldName, VString <$> ComponentAttrMutation_Name m);
     (componentattr_FieldValue, VString <$> ComponentAttrMutation_Value m)])
    ([])
    ([])
    (edge_cleared (ComponentAttrMutation_ComponentCleared m) M2O true componentattr_ComponentTable
      [componentattr_ComponentColumn])
    (edge_to (ComponentAttrMutation_ComponentIDs m) M2O true componentattr_ComponentTable
      [componentattr_ComponentColumn]).
Definition ComponentAttrUpdate_sqlSave `{SqlGraph DB} (c : ComponentAttrUpdate) (db : DB)
    : (ent_error + Z) * ComponentAttrUpdate * DB :=
  match ComponentAttrUpdate_check c with
  | Some e => (inl e, c, db)
  | None =>
      match g_UpdateNodes (ComponentAttrUpdate_spec c) db with
      | (inl e, db) => (inl (update_error componentattr_Label e), c, db)
      | (inr affected, db) => (inr affected, c <| ComponentAttrUpdate_mutation ::= (λ m, m
        <| am_done := true |>) |>, db)
      end
  end.
Definition ComponentAttrUpdate_Save `{SqlGraph DB} (c : ComponentAttrUpdate) (db : DB)
    : (ent_error + Z) * ComponentAttrUpdate * DB :=
  withHooks (λ e, (inl e, c, db))
    (λ m, ComponentAttrUpdate_sqlSave (c
      <| ComponentAttrUpdate_mutation := m |>) db) (ComponentAttrUpdate_mutation c) [].
Definition ComponentAttrUpdate_Exec `{SqlGraph DB} (c : ComponentAttrUpdate) (db : DB)
    : (ent_error + unit) * ComponentAttrUpdate * DB :=
  let '(r, c, db) := ComponentAttrUpdate_Save c db in (match r with inl e => inl e | inr _ => inr tt end, c,
    db).

(** ** [ComponentAttrUpdateOne] *)

Record ComponentAttrUpdateOne := mkComponentAttrUpdateOne { ComponentAttrUpdateOne_mutation : ComponentAttrMutation; ComponentAttrUpdateOne_fields : list string }.
Definition ComponentAttrUpdateOne_SetComponentID (v : Z) (c : ComponentAttrUpdateOne)
    : ComponentAttrUpdateOne :=
  c <| ComponentAttrUpdateOne_mutation ::= ComponentAttrMutation_SetComponentID v |>.
Definition ComponentAttrUpdateOne_SetNillableComponentID (v : option Z) (c : ComponentAttrUpdateOne)
    : ComponentAttrUpdateOne :=
  match v with Some v => ComponentAttrUpdateOne_SetComponentID v c | None => c end.
Definition ComponentAttrUpdateOne_ClearComponentID (c : ComponentAttrUpdateOne) : ComponentAttrUpdateOne :=
  c <| ComponentAttrUpdateOne_mutation ::= ComponentAttrMutation_ClearComponentID |>.
Definition ComponentAttrUpdateOne_SetName (v : string) (c : ComponentAttrUpdateOne) : ComponentAttrUpdateOne :=
  c <| ComponentAttrUpdateOne_mutation ::= ComponentAttrMutation_SetName v |>.
Definition ComponentAttrUpdateOne_SetNillableName (v : option string) (c : ComponentAttrUpdateOne)
    : ComponentAttrUpdateOne :=
  match v with Some v => ComponentAttrUpdateOne_SetName v c | None => c end.
Definition ComponentAttrUpdateOne_SetValue (v : string) (c : ComponentAttrUpdateOne) : ComponentAttrUpdateOne :=
  c <| ComponentAttrUpdateOne_mutation ::= ComponentAttrMutation_SetValue v |>.
Definition ComponentAttrUpdateOne_SetNillableValue (v : option string) (c : ComponentAttrUpdateOne)
    : ComponentAttrUpdateOne :=
  match v with Some v => ComponentAttrUpdateOne_SetValue v c | None => c end.
Definition ComponentAttrUpdateOne_SetComponent (v : ComponentNode) (c : ComponentAttrUpdateOne)
    : ComponentAttrUpdateOne :=
  ComponentAttrUpdateOne_SetComponentID (cn_ID v) c.
Definition ComponentAttrUpdateOne_Mutation (c : ComponentAttrUpdateOne) : ComponentAttrMutation :=
  ComponentAttrUpdateOne_mutation c.
Definition ComponentAttrUpdateOne_ClearComponent (c : ComponentAttrUpdateOne) : ComponentAttrUpdateOne :=
  c <| ComponentAttrUpdateOne_mutation ::= ComponentAttrMutation_ClearComponent |>.
Definition ComponentAttrUpdateOne_Where (ps : list sql_pred) (c : ComponentAttrUpdateOne)
    : ComponentAttrUpdateOne :=
  c <| ComponentAttrUpdateOne_mutation ::= ComponentAttrMutation_Where ps |>.
Definition ComponentAttrUpdateOne_Select (field : string) (fields : list string) (c : ComponentAttrUpdateOne)
    : ComponentAttrUpdateOne :=
  c <| ComponentAttrUpdateOne_fields := field :: fields |>.
Definition ComponentAttrUpdateOne_check (c : ComponentAttrUpdateOne) : option ent_error :=
  let m := ComponentAttrUpdateOne_mutation c in
  first_error [validated "ComponentAttr" "name" componentattr_NameValidator (ComponentAttrMutation_Name m);
    validated "ComponentAttr" "value" componentattr_ValueValidator (ComponentAttrMutation_Value m)].
Definition ComponentAttrUpdateOne_spec (c : ComponentAttrUpdateOne) (id : Z) (columns : list string)
    : UpdateSpec :=
  let m := ComponentAttrUpdateOne_mutation c in
  mkUpdateSpec componentattr_Table columns (Some id) (am_predicates m)
    (set_fields
    [(componentattr_FieldName, VString <$> ComponentAttrMutation_Name m);
     (componentattr_FieldValue, VString <$> ComponentAttrMutation_Value m)])
    ([])
    ([])
    (edge_cleared (ComponentAttrMutation_ComponentCleared m) M2O true componentattr_ComponentTable
      [componentattr_ComponentColumn])
    (edge_to (ComponentAttrMutation_ComponentIDs m) M2O true componentattr_ComponentTable
      [componentattr_ComponentColumn]).
Definition ComponentAttrUpdateOne_sqlSave `{SqlGraph DB} (c : ComponentAttrUpdateOne) (db : DB)
    : (ent_error + ComponentAttrNode) * ComponentAttrUpdateOne * DB :=
  match ComponentAttrUpdateOne_check c with
  | Some e => (inl e, c, db)
  | None =>
      match ComponentAttrMutation_ID (ComponentAttrUpdateOne_mutation c) with
      | None => (inl (missing_id "ComponentAttr"), c, db)
      | Some id =>
          match selected componentattr_Columns componentattr_FieldID componentattr_ValidColumn
            (ComponentAttrUpdateOne_fields c) with
          | inl e => (inl e, c, db)
          | inr columns =>
              match g_UpdateNode (ComponentAttrUpdateOne_spec c id columns)
                      (λ row, ComponentAttr_assignValues columns (zip_with scan (ComponentAttr_scanValues
                        columns) row) newComponentAttrNode) db with
              | (inl e, db) => (inl (update_error componentattr_Label e), c, db)
              | (inr node, db) => (inr node, c <| ComponentAttrUpdateOne_mutation ::= (λ m, m
                <| am_done := true |>) |>, db)
              end
          end
      end
  end.
Definition ComponentAttrUpdateOne_Save `{SqlGraph DB} (c : ComponentAttrUpdateOne) (db : DB)
    : (ent_error + ComponentAttrNode) * ComponentAttrUpdateOne * DB :=
  withHooks (λ e, (inl e, c, db))
    (λ m, ComponentAttrUpdateOne_sqlSave (c
      <| ComponentAttrUpdateOne_mutation := m |>) db) (ComponentAttrUpdateOne_mutation c) [].
Definition ComponentAttrUpdateOne_Exec `{SqlGraph DB} (c : ComponentAttrUpdateOne) (db : DB)
    : (ent_error + unit) * ComponentAttrUpdateOne * DB :=
  let '(r, c, db) := ComponentAttrUpdateOne_Save c db in (match r with inl e => inl e | inr _ => inr tt end,
    c, db).

(** ** [ComponentAttrDelete] *)

Record ComponentAttrDelete := mkComponentAttrDelete { ComponentAttrDelete_mutation : ComponentAttrMutation }.
Definition ComponentAttrDelete_Where (ps : list sql_pred) (c : ComponentAttrDelete) : ComponentAttrDelete :=
  c <| ComponentAttrDelete_mutation ::= ComponentAttrMutation_Where ps |>.
Definition ComponentAttrDelete_sqlExec `{SqlGraph DB} (c : ComponentAttrDelete) (db : DB)
    : (ent_error + Z) * ComponentAttrDelete * DB :=
  let '(r, db) := g_DeleteNodes componentattr_Table (am_predicates (ComponentAttrDelete_mutation c)) db in
  (match r with inl e => inl (create_error e) | inr n => inr n end,
   c <| ComponentAttrDelete_mutation ::= (λ m, m <| am_done := true |>) |>, db).
Definition ComponentAttrDelete_Exec `{SqlGraph DB} (c : ComponentAttrDelete) (db : DB)
    : (ent_error + Z) * ComponentAttrDelete * DB :=
  withHooks (λ e, (inl e, c, db))
    (λ m, ComponentAttrDelete_sqlExec (c
      <| ComponentAttrDelete_mutation := m |>) db) (ComponentAttrDelete_mutation c) [].
Definition ComponentAttrDeleteOne_Where (ps : list sql_pred) (c : ComponentAttrDelete) : ComponentAttrDelete :=
  ComponentAttrDelete_Where ps c.
Definition ComponentAttrDeleteOne_Exec `{SqlGraph DB} (c : ComponentAttrDelete) (db : DB)
    : (ent_error + unit) * ComponentAttrDelete * DB :=
  let '(r, c, db) := ComponentAttrDelete_Exec c db in
  (match r with inl e => inl e | inr n => if n =? 0 then inl (EntNotFound componentattr_Label) else inr tt
    end, c, db).

(** ** The client: fresh builders *)

Definition ComponentAttrClient_Create (c : config) : ComponentAttrCreate :=
  mkComponentAttrCreate (newComponentAttrMutation c OpCreate []).
Definition ComponentAttrClient_Update (c : config) : ComponentAttrUpdate :=
  mkComponentAttrUpdate (newComponentAttrMutation c OpUpdate []).
Definition ComponentAttrClient_UpdateOne (c : config) (node : ComponentAttrNode) : ComponentAttrUpdateOne :=
  mkComponentAttrUpdateOne (newComponentAttrMutation c OpUpdateOne [withComponentAttr node]) [].
Definition ComponentAttrClient_UpdateOneID (c : config) (id : Z) : ComponentAttrUpdateOne :=
  mkComponentAttrUpdateOne (newComponentAttrMutation c OpUpdateOne [withComponentAttrID id]) [].
Definition ComponentAttrClient_Delete (c : config) : ComponentAttrDelete :=
  mkComponentAttrDelete (newComponentAttrMutation c OpDelete []).
Definition ComponentAttrClient_DeleteOneID (c : config) (id : Z) : ComponentAttrDelete :=
  (ComponentAttrDelete_Where [FieldEQ componentattr_FieldID (VInt id)] (ComponentAttrClient_Delete c))
    <| ComponentAttrDelete_mutation ::= (λ m, m <| am_id := Some id |> <| am_op := OpDeleteOne |>) |>.
Definition ComponentAttrClient_DeleteOne (c : config) (node : ComponentAttrNode) : ComponentAttrDelete :=
  ComponentAttrClient_DeleteOneID c (an_ID node).
