(* ===== verification/EntIncidentBuild.v ===== *)
(** * The builders of the entity [Incident]

    Scanning ([ent/incident.go]) and the create, update and delete builders
    ([ent/incident_create.go], [ent/incident_update.go], [ent/incident_delete.go]).
    A builder carries its mutation; no hook is registered.  The options for conflicts
    ([OnConflict] and the upsert builders) and bulk creation are left out: nothing uses them. *)

From S2P Require Import Prelude GoStrings GoTime Errors Models EntCore EntComponent EntComponentAttr EntIncident EntIncidentStatus EntNotificationOutbox.
Local Open Scope Z_scope.

(** ** Scanning *)

Definition Incident_scanValues (columns : list string) : list scan_kind :=
  (λ c, switch c
    [(incident_FieldSystem, SBool); (incident_FieldID, SInt64); (incident_FieldImpact, SInt64);
      (incident_FieldVersion, SInt64); (incident_FieldText, SString); (incident_FieldDescription, SString);
      (incident_FieldType, SString); (incident_FieldStatus, SString); (incident_FieldCreatedBy, SString);
      (incident_FieldContactEmail, SString); (incident_FieldStartDate, STime);
      (incident_FieldEndDate, STime); (incident_FieldCreatedAt, STime); (incident_FieldModifiedAt, STime);
      (incident_FieldDeletedAt, STime)] SUnknown) <$> columns.
Definition Incident_assign (column : string) (v : scanned) (n : IncidentNode) : scan_err + IncidentNode :=
  switch column
  [(incident_FieldID, assign_id v "id" (λ v n, n <| in_ID := v |>) n);
   (incident_FieldText, assign_string v "text" (λ v n, n <| in_Text := v |>) n);
   (incident_FieldDescription, assign_string v "description" (λ v n, n <| in_Description := Some v |>) n);
   (incident_FieldStartDate, assign_time v "start_date" (λ v n, n <| in_StartDate := v |>) n);
   (incident_FieldEndDate, assign_time v "end_date" (λ v n, n <| in_EndDate := v |>) n);
   (incident_FieldImpact, assign_int v "impact" (λ v n, n <| in_Impact := v |>) n);
   (incident_FieldSystem, assign_bool v "system" (λ v n, n <| in_System := v |>) n);
   (incident_FieldType, assign_string v "type" (λ v n, n <| in_Type := v |>) n);
   (incident_FieldStatus, assign_string v "status" (λ v n, n <| in_Status := v |>) n);
   (incident_FieldCreatedAt, assign_time v "created_at" (λ v n, n <| in_CreatedAt := v |>) n);
   (incident_FieldModifiedAt, assign_time v "modified_at" (λ v n, n <| in_ModifiedAt := v |>) n);
   (incident_FieldDeletedAt, assign_time v "deleted_at" (λ v n, n <| in_DeletedAt := v |>) n);
   (incident_FieldCreatedBy, assign_string v "created_by" (λ v n, n <| in_CreatedBy := Some v |>) n);
   (incident_FieldContactEmail, assign_string v "contact_email" (λ v n, n <| in_ContactEmail := Some v |>) n);
   (incident_FieldVersion, assign_int v "version" (λ v n, n <| in_Version := v |>) n)]
  (inr n).
Definition Incident_assignValues (columns : list string) (values : list scanned) (n : IncidentNode) : scan_err + IncidentNode :=
  assign_all Incident_assign columns values n.

(** ** [IncidentCreate] *)

Record IncidentCreate := mkIncidentCreate { IncidentCreate_mutation : IncidentMutation }.
Definition IncidentCreate_SetText (v : string) (c : IncidentCreate) : IncidentCreate :=
  c <| IncidentCreate_mutation ::= IncidentMutation_SetText v |>.
Definition IncidentCreate_SetDescription (v : string) (c : IncidentCreate) : IncidentCreate :=
  c <| IncidentCreate_mutation ::= IncidentMutation_SetDescription v |>.
Definition IncidentCreate_SetNillableDescription (v : option string) (c : IncidentCreate) : IncidentCreate :=
  match v with Some v => IncidentCreate_SetDescription v c | None => c end.
Definition IncidentCreate_SetStartDate (v : Z) (c : IncidentCreate) : IncidentCreate :=
  c <| IncidentCreate_mutation ::= IncidentMutation_SetStartDate v |>.
Definition IncidentCreate_SetEndDate (v : Z) (c : IncidentCreate) : IncidentCreate :=
  c <| IncidentCreate_mutation ::= IncidentMutation_SetEndDate v |>.
Definition IncidentCreate_SetNillableEndDate (v : option Z) (c : IncidentCreate) : IncidentCreate :=
  match v with Some v => IncidentCreate_SetEndDate v c | None => c end.
Definition IncidentCreate_SetImpact (v : Z) (c : IncidentCreate) : IncidentCreate :=
  c <| IncidentCreate_mutation ::= IncidentMutation_SetImpact v |>.
Definition IncidentCreate_SetSystem (v : bool) (c : IncidentCreate) : IncidentCreate :=
  c <| IncidentCreate_mutation ::= IncidentMutation_SetSystem v |>.
Definition IncidentCreate_SetNillableSystem (v : option bool) (c : IncidentCreate) : IncidentCreate :=
  match v with Some v => IncidentCreate_SetSystem v c | None => c end.
Definition IncidentCreate_SetType (v : string) (c : IncidentCreate) : IncidentCreate :=
  c <| IncidentCreate_mutation ::= IncidentMutation_SetType v |>.
Definition IncidentCreate_SetStatus (v : string) (c : IncidentCreate) : IncidentCreate :=
  c <| IncidentCreate_mutation ::= IncidentMutation_SetStatus v |>.
Definition IncidentCreate_SetNillableStatus (v : option string) (c : IncidentCreate) : IncidentCreate :=
  match v with Some v => IncidentCreate_SetStatus v c | None => c end.
Definition IncidentCreate_SetCreatedAt (v : Z) (c : IncidentCreate) : IncidentCreate :=
  c <| IncidentCreate_mutation ::= IncidentMutation_SetCreatedAt v |>.
Definition IncidentCreate_SetNillableCreatedAt (v : option Z) (c : IncidentCreate) : IncidentCreate :=
  match v with Some v => IncidentCreate_SetCreatedAt v c | None => c end.
Definition IncidentCreate_SetModifiedAt (v : Z) (c : IncidentCreate) : IncidentCreate :=
  c <| IncidentCreate_mutation ::= IncidentMutation_SetModifiedAt v |>.
Definition IncidentCreate_SetNillableModifiedAt (v : option Z) (c : IncidentCreate) : IncidentCreate :=
  match v with Some v => IncidentCreate_SetModifiedAt v c | None => c end.
Definition IncidentCreate_SetDeletedAt (v : Z) (c : IncidentCreate) : IncidentCreate :=
  c <| IncidentCreate_mutation ::= IncidentMutation_SetDeletedAt v |>.
Definition IncidentCreate_SetNillableDeletedAt (v : option Z) (c : IncidentCreate) : IncidentCreate :=
  match v with Some v => IncidentCreate_SetDeletedAt v c | None => c end.
Definition IncidentCreate_SetCreatedBy (v : string) (c : IncidentCreate) : IncidentCreate :=
  c <| IncidentCreate_mutation ::= IncidentMutation_SetCreatedBy v |>.
Definition IncidentCreate_SetNillableCreatedBy (v : option string) (c : IncidentCreate) : IncidentCreate :=
  match v with Some v => IncidentCreate_SetCreatedBy v c | None => c end.
Definition IncidentCreate_SetContactEmail (v : string) (c : IncidentCreate) : IncidentCreate :=
  c <| IncidentCreate_mutation ::= IncidentMutation_SetContactEmail v |>.
Definition IncidentCreate_SetNillableContactEmail (v : option string) (c : IncidentCreate) : IncidentCreate :=
  match v with Some v => IncidentCreate_SetContactEmail v c | None => c end.
Definition IncidentCreate_SetVersion (v : Z) (c : IncidentCreate) : IncidentCreate :=
  c <| IncidentCreate_mutation ::= IncidentMutation_SetVersion v |>.
Definition IncidentCreate_SetNillableVersion (v : option Z) (c : IncidentCreate) : IncidentCreate :=
  match v with Some v => IncidentCreate_SetVersion v c | None => c end.
Definition IncidentCreate_SetID (v : Z) (c : IncidentCreate) : IncidentCreate :=
  c <| IncidentCreate_mutation ::= IncidentMutation_SetID v |>.
Definition IncidentCreate_AddComponentIDs (ids : list Z) (c : IncidentCreate) : IncidentCreate :=
  c <| IncidentCreate_mutation ::= IncidentMutation_AddComponentIDs ids |>.
Definition IncidentCreate_AddComponents (v : list ComponentNode) (c : IncidentCreate) : IncidentCreate :=
  IncidentCreate_AddComponentIDs (cn_ID <$> v) c.
Definition IncidentCreate_AddNotificationIDs (ids : list Z) (c : IncidentCreate) : IncidentCreate :=
  c <| IncidentCreate_mutation ::= IncidentMutation_AddNotificationIDs ids |>.
Definition IncidentCreate_AddNotifications (v : list NotificationOutboxNode) (c : IncidentCreate)
    : IncidentCreate :=
  IncidentCreate_AddNotificationIDs (nn_ID <$> v) c.
Definition IncidentCreate_Mutation (c : IncidentCreate) : IncidentMutation := IncidentCreate_mutation c.
Definition IncidentCreate_defaults (c : IncidentCreate) : IncidentCreate :=
  c <| IncidentCreate_mutation ::= (λ m, foldl (λ m f, f m) m
    [(λ m, if some (IncidentMutation_System m) then m else IncidentMutation_SetSystem incident_DefaultSystem m);
     (λ m, if some (IncidentMutation_Version m) then m else IncidentMutation_SetVersion
       incident_DefaultVersion m)]) |>.
Definition IncidentCreate_check (c : IncidentCreate) : option ent_error :=
  let m := IncidentCreate_mutation c in
  first_error [required "Incident" "text" (IncidentMutation_Text m);
    validated "Incident" "text" incident_TextValidator (IncidentMutation_Text m);
    required "Incident" "start_date" (IncidentMutation_StartDate m);
    required "Incident" "impact" (IncidentMutation_Impact m);
    required "Incident" "system" (IncidentMutation_System m);
    required "Incident" "type" (IncidentMutation_GetType m);
    validated "Incident" "type" incident_TypeValidator (IncidentMutation_GetType m);
    required "Incident" "version" (IncidentMutation_Version m)].
Definition IncidentCreate_createSpec (c : IncidentCreate) : IncidentNode * CreateSpec :=
  let m := IncidentCreate_mutation c in
  (foldl (λ n f, f n) newIncidentNode
    [assign (IncidentMutation_ID m) (λ v n, n <| in_ID := v |>);
     assign (IncidentMutation_Text m) (λ v n, n <| in_Text := v |>);
     assign (IncidentMutation_Description m) (λ v n, n <| in_Description := Some v |>);
     assign (IncidentMutation_StartDate m) (λ v n, n <| in_StartDate := v |>);
     assign (IncidentMutation_EndDate m) (λ v n, n <| in_EndDate := v |>);
     assign (IncidentMutation_Impact m) (λ v n, n <| in_Impact := v |>);
     assign (IncidentMutation_System m) (λ v n, n <| in_System := v |>);
     assign (IncidentMutation_GetType m) (λ v n, n <| in_Type := v |>);
     assign (IncidentMutation_Status m) (λ v n, n <| in_Status := v |>);
     assign (IncidentMutation_CreatedAt m) (λ v n, n <| in_CreatedAt := v |>);
     assign (IncidentMutation_ModifiedAt m) (λ v n, n <| in_ModifiedAt := v |>);
     assign (IncidentMutation_DeletedAt m) (λ v n, n <| in_DeletedAt := v |>);
     assign (IncidentMutation_CreatedBy m) (λ v n, n <| in_CreatedBy := Some v |>);
     assign (IncidentMutation_ContactEmail m) (λ v n, n <| in_ContactEmail := Some v |>);
     assign (IncidentMutation_Version m) (λ v n, n <| in_Version := v |>)],
   mkCreateSpec incident_Table (IncidentMutation_ID m)
    (set_fields
    [(incident_FieldText, VString <$> IncidentMutation_Text m);
     (incident_FieldDescription, VString <$> IncidentMutation_Description m);
     (incident_FieldStartDate, VTime <$> IncidentMutation_StartDate m);
     (incident_FieldEndDate, VTime <$> IncidentMutation_EndDate m);
     (incident_FieldImpact, VInt <$> IncidentMutation_Impact m);
     (incident_FieldSystem, VBool <$> IncidentMutation_System m);
     (incident_FieldType, VType <$> IncidentMutation_GetType m);
     (incident_FieldStatus, VString <$> IncidentMutation_Status m);
     (incident_FieldCreatedAt, VTime <$> IncidentMutation_CreatedAt m);
     (incident_FieldModifiedAt, VTime <$> IncidentMutation_ModifiedAt m);
     (incident_FieldDeletedAt, VTime <$> IncidentMutation_DeletedAt m);
     (incident_FieldCreatedBy, VString <$> IncidentMutation_CreatedBy m);
     (incident_FieldContactEmail, VString <$> IncidentMutation_ContactEmail m);
     (incident_FieldVersion, VInt <$> IncidentMutation_Version m)])
    (edge_to (IncidentMutation_ComponentsIDs m) M2M false incident_ComponentsTable
      incident_ComponentsPrimaryKey ++
     edge_to (IncidentMutation_NotificationsIDs m) O2M false incident_NotificationsTable
       [incident_NotificationsColumn])).
Definition IncidentCreate_sqlSave `{SqlGraph DB} (c : IncidentCreate) (db : DB)
    : (ent_error + IncidentNode) * IncidentCreate * DB :=
  match IncidentCreate_check c with
  | Some e => (inl e, c, db)
  | None =>
      let '(node, spec) := IncidentCreate_createSpec c in
      match g_CreateNode spec db with
      | (inl e, db) => (inl (create_error e), c, db)
      | (inr id, db) => (inr (node <| in_ID := id |>),
                         c <| IncidentCreate_mutation ::= (λ m, m <| im_id := Some id |>
                           <| im_done := true |>) |>, db)
      end
  end.
Definition IncidentCreate_Save `{SqlGraph DB} (c : IncidentCreate) (db : DB)
    : (ent_error + IncidentNode) * IncidentCreate * DB :=
  let c := IncidentCreate_defaults c in
  withHooks (λ e, (inl e, c, db))
    (λ m, IncidentCreate_sqlSave (c <| IncidentCreate_mutation := m |>) db)
    (IncidentCreate_mutation c) [].
Definition IncidentCreate_Exec `{SqlGraph DB} (c : IncidentCreate) (db : DB)
    : (ent_error + unit) * IncidentCreate * DB :=
  let '(r, c, db) := IncidentCreate_Save c db in (match r with inl e => inl e | inr _ => inr tt end, c, db).

(** ** [IncidentUpdate] *)

Record IncidentUpdate := mkIncidentUpdate { IncidentUpdate_mutation : IncidentMutation }.
Definition IncidentUpdate_Where (ps : list sql_pred) (c : IncidentUpdate) : IncidentUpdate :=
  c <| IncidentUpdate_mutation ::= IncidentMutation_Where ps |>.
Definition IncidentUpdate_SetText (v : string) (c : IncidentUpdate) : IncidentUpdate :=
  c <| IncidentUpdate_mutation ::= IncidentMutation_SetText v |>.
Definition IncidentUpdate_SetNillableText (v : option string) (c : IncidentUpdate) : IncidentUpdate :=
  match v with Some v => IncidentUpdate_SetText v c | None => c end.
Definition IncidentUpdate_SetDescription (v : string) (c : IncidentUpdate) : IncidentUpdate :=
  c <| IncidentUpdate_mutation ::= IncidentMutation_SetDescription v |>.
Definition IncidentUpdate_SetNillableDescription (v : option string) (c : IncidentUpdate) : IncidentUpdate :=
  match v with Some v => IncidentUpdate_SetDescription v c | None => c end.
Definition IncidentUpdate_ClearDescription (c : IncidentUpdate) : IncidentUpdate :=
  c <| IncidentUpdate_mutation ::= IncidentMutation_ClearDescription |>.
Definition IncidentUpdate_SetStartDate (v : Z) (c : IncidentUpdate) : IncidentUpdate :=
  c <| IncidentUpdate_mutation ::= IncidentMutation_SetStartDate v |>.
Definition IncidentUpdate_SetNillableStartDate (v : option Z) (c : IncidentUpdate) : IncidentUpdate :=
  match v with Some v => IncidentUpdate_SetStartDate v c | None => c end.
Definition IncidentUpdate_SetEndDate (v : Z) (c : IncidentUpdate) : IncidentUpdate :=
  c <| IncidentUpdate_mutation ::= IncidentMutation_SetEndDate v |>.
Definition IncidentUpdate_SetNillableEndDate (v : option Z) (c : IncidentUpdate) : IncidentUpdate :=
  match v with Some v => IncidentUpdate_SetEndDate v c | None => c end.
Definition IncidentUpdate_ClearEndDate (c : IncidentUpdate) : IncidentUpdate :=
  c <| IncidentUpdate_mutation ::= IncidentMutation_ClearEndDate |>.
Definition IncidentUpdate_SetImpact (v : Z) (c : IncidentUpdate) : IncidentUpdate :=
  c <| IncidentUpdate_mutation ::= (λ m, IncidentMutation_SetImpact v (IncidentMutation_ResetImpact m)) |>.
Definition IncidentUpdate_SetNillableImpact (v : option Z) (c : IncidentUpdate) : IncidentUpdate :=
  match v with Some v => IncidentUpdate_SetImpact v c | None => c end.
Definition IncidentUpdate_AddImpact (v : Z) (c : IncidentUpdate) : IncidentUpdate :=
  c <| IncidentUpdate_mutation ::= IncidentMutation_AddImpact v |>.
Definition IncidentUpdate_SetSystem (v : bool) (c : IncidentUpdate) : IncidentUpdate :=
  c <| IncidentUpdate_mutation ::= IncidentMutation_SetSystem v |>.
Definition IncidentUpdate_SetNillableSystem (v : option bool) (c : IncidentUpdate) : IncidentUpdate :=
  match v with Some v => IncidentUpdate_SetSystem v c | None => c end.
Definition IncidentUpdate_SetType (v : string) (c : IncidentUpdate) : IncidentUpdate :=
  c <| IncidentUpdate_mutation ::= IncidentMutation_SetType v |>.
Definition IncidentUpdate_SetNillableType (v : option string) (c : IncidentUpdate) : IncidentUpdate :=
  match v with Some v => IncidentUpdate_SetType v c | None => c end.
Definition IncidentUpdate_SetStatus (v : string) (c : IncidentUpdate) : IncidentUpdate :=
  c <| IncidentUpdate_mutation ::= IncidentMutation_SetStatus v |>.
Definition IncidentUpdate_SetNillableStatus (v : option string) (c : IncidentUpdate) : IncidentUpdate :=
  match v with Some v => IncidentUpdate_SetStatus v c | None => c end.
Definition IncidentUpdate_ClearStatus (c : IncidentUpdate) : IncidentUpdate :=
  c <| IncidentUpdate_mutation ::= IncidentMutation_ClearStatus |>.
Definition IncidentUpdate_SetCreatedAt (v : Z) (c : IncidentUpdate) : IncidentUpdate :=
  c <| IncidentUpdate_mutation ::= IncidentMutation_SetCreatedAt v |>.
Definition IncidentUpdate_SetNillableCreatedAt (v : option Z) (c : IncidentUpdate) : IncidentUpdate :=
  match v with Some v => IncidentUpdate_SetCreatedAt v c | None => c end.
Definition IncidentUpdate_ClearCreatedAt (c : IncidentUpdate) : IncidentUpdate :=
  c <| IncidentUpdate_mutation ::= IncidentMutation_ClearCreatedAt |>.
Definition IncidentUpdate_SetModifiedAt (v : Z) (c : IncidentUpdate) : IncidentUpdate :=
  c <| IncidentUpdate_mutation ::= IncidentMutation_SetModifiedAt v |>.
Definition IncidentUpdate_SetNillableModifiedAt (v : option Z) (c : IncidentUpdate) : IncidentUpdate :=
  match v with Some v => IncidentUpdate_SetModifiedAt v c | None => c end.
Definition IncidentUpdate_ClearModifiedAt (c : IncidentUpdate) : IncidentUpdate :=
  c <| IncidentUpdate_mutation ::= IncidentMutation_ClearModifiedAt |>.
Definition IncidentUpdate_SetDeletedAt (v : Z) (c : IncidentUpdate) : IncidentUpdate :=
  c <| IncidentUpdate_mutation ::= IncidentMutation_SetDeletedAt v |>.
Definition IncidentUpdate_SetNillableDeletedAt (v : option Z) (c : IncidentUpdate) : IncidentUpdate :=
  match v with Some v => IncidentUpdate_SetDeletedAt v c | None => c end.
Definition IncidentUpdate_ClearDeletedAt (c : IncidentUpdate) : IncidentUpdate :=
  c <| IncidentUpdate_mutation ::= IncidentMutation_ClearDeletedAt |>.
Definition IncidentUpdate_SetCreatedBy (v : string) (c : IncidentUpdate) : IncidentUpdate :=
  c <| IncidentUpdate_mutation ::= IncidentMutation_SetCreatedBy v |>.
Definition IncidentUpdate_SetNillableCreatedBy (v : option string) (c : IncidentUpdate) : IncidentUpdate :=
  match v with Some v => IncidentUpdate_SetCreatedBy v c | None => c end.
Definition IncidentUpdate_ClearCreatedBy (c : IncidentUpdate) : IncidentUpdate :=
  c <| IncidentUpdate_mutation ::= IncidentMutation_ClearCreatedBy |>.
Definition IncidentUpdate_SetContactEmail (v : string) (c : IncidentUpdate) : IncidentUpdate :=
  c <| IncidentUpdate_mutation ::= IncidentMutation_SetContactEmail v |>.
Definition IncidentUpdate_SetNillableContactEmail (v : option string) (c : IncidentUpdate) : IncidentUpdate :=
  match v with Some v => IncidentUpdate_SetContactEmail v c | None => c end.
Definition IncidentUpdate_ClearContactEmail (c : IncidentUpdate) : IncidentUpdate :=
  c <| IncidentUpdate_mutation ::= IncidentMutation_ClearContactEmail |>.
Definition IncidentUpdate_SetVersion (v : Z) (c : IncidentUpdate) : IncidentUpdate :=
  c <| IncidentUpdate_mutation ::= (λ m, IncidentMutation_SetVersion v (IncidentMutation_ResetVersion m)) |>.
Definition IncidentUpdate_SetNillableVersion (v : option Z) (c : IncidentUpdate) : IncidentUpdate :=
  match v with Some v => IncidentUpdate_SetVersion v c | None => c end.
Definition IncidentUpdate_AddVersion (v : Z) (c : IncidentUpdate) : IncidentUpdate :=
  c <| IncidentUpdate_mutation ::= IncidentMutation_AddVersion v |>.
Definition IncidentUpdate_AddComponentIDs (ids : list Z) (c : IncidentUpdate) : IncidentUpdate :=
  c <| IncidentUpdate_mutation ::= IncidentMutation_AddComponentIDs ids |>.
Definition IncidentUpdate_AddComponents (v : list ComponentNode) (c : IncidentUpdate) : IncidentUpdate :=
  IncidentUpdate_AddComponentIDs (cn_ID <$> v) c.
Definition IncidentUpdate_AddNotificationIDs (ids : list Z) (c : IncidentUpdate) : IncidentUpdate :=
  c <| IncidentUpdate_mutation ::= IncidentMutation_AddNotificationIDs ids |>.
Definition IncidentUpdate_AddNotifications (v : list NotificationOutboxNode) (c : IncidentUpdate)
    : IncidentUpdate :=
  IncidentUpdate_AddNotificationIDs (nn_ID <$> v) c.
Definition IncidentUpdate_Mutation (c : IncidentUpdate) : IncidentMutation := IncidentUpdate_mutation c.
Definition IncidentUpdate_ClearComponents (c : IncidentUpdate) : IncidentUpdate :=
  c <| IncidentUpdate_mutation ::= IncidentMutation_ClearComponents |>.
Definition IncidentUpdate_RemoveComponentIDs (ids : list Z) (c : IncidentUpdate) : IncidentUpdate :=
  c <| IncidentUpdate_mutation ::= IncidentMutation_RemoveComponentIDs ids |>.
Definition IncidentUpdate_RemoveComponents (v : list ComponentNode) (c : IncidentUpdate) : IncidentUpdate :=
  IncidentUpdate_RemoveComponentIDs (cn_ID <$> v) c.
Definition IncidentUpdate_ClearNotifications (c : IncidentUpdate) : IncidentUpdate :=
  c <| IncidentUpdate_mutation ::= IncidentMutation_ClearNotifications |>.
Definition IncidentUpdate_RemoveNotificationIDs (ids : list Z) (c : IncidentUpdate) : IncidentUpdate :=
  c <| IncidentUpdate_mutation ::= IncidentMutation_RemoveNotificationIDs ids |>.
Definition IncidentUpdate_RemoveNotifications (v : list NotificationOutboxNode) (c : IncidentUpdate)
    : IncidentUpdate :=
  IncidentUpdate_RemoveNotificationIDs (nn_ID <$> v) c.
Definition IncidentUpdate_check (c : IncidentUpdate) : option ent_error :=
  let m := IncidentUpdate_mutation c in
  first_error [validated "Incident" "text" incident_TextValidator (IncidentMutation_Text m);
    validated "Incident" "type" incident_TypeValidator (IncidentMutation_GetType m)].
Definition IncidentUpdate_spec (c : IncidentUpdate) : UpdateSpec :=
  let m := IncidentUpdate_mutation c in
  mkUpdateSpec incident_Table incident_Columns None (im_predicates m)
    (set_fields
    [(incident_FieldText, VString <$> IncidentMutation_Text m);
     (incident_FieldDescription, VString <$> IncidentMutation_Description m);
     (incident_FieldStartDate, VTime <$> IncidentMutation_StartDate m);
     (incident_FieldEndDate, VTime <$> IncidentMutation_EndDate m);
     (incident_FieldImpact, VInt <$> IncidentMutation_Impact m);
     (incident_FieldSystem, VBool <$> IncidentMutation_System m);
     (incident_FieldType, VType <$> IncidentMutation_GetType m);
     (incident_FieldStatus, VString <$> IncidentMutation_Status m);
     (incident_FieldCreatedAt, VTime <$> IncidentMutation_CreatedAt m);
     (incident_FieldModifiedAt, VTime <$> IncidentMutation_ModifiedAt m);
     (incident_FieldDeletedAt, VTime <$> IncidentMutation_DeletedAt m);
     (incident_FieldCreatedBy, VString <$> IncidentMutation_CreatedBy m);
     (incident_FieldContactEmail, VString <$> IncidentMutation_ContactEmail m);
     (incident_FieldVersion, VInt <$> IncidentMutation_Version m)])
    (add_fields [(incident_FieldImpact, IncidentMutation_AddedImpact m);
      (incident_FieldVersion, IncidentMutation_AddedVersion m)])
    (collect
    [(incident_FieldDescription, IncidentMutation_DescriptionCleared m);
     (incident_FieldEndDate, IncidentMutation_EndDateCleared m);
     (incident_FieldStatus, IncidentMutation_StatusCleared m);
     (incident_FieldCreatedAt, IncidentMutation_CreatedAtCleared m);
     (incident_FieldModifiedAt, IncidentMutation_ModifiedAtCleared m);
     (incident_FieldDeletedAt, IncidentMutation_DeletedAtCleared m);
     (incident_FieldCreatedBy, IncidentMutation_CreatedByCleared m);
     (incident_FieldContactEmail, IncidentMutation_ContactEmailCleared m)])
    (edge_cleared (IncidentMutation_ComponentsCleared m) M2M false incident_ComponentsTable
      incident_ComponentsPrimaryKey ++
     edge_to (if IncidentMutation_ComponentsCleared m then [] else IncidentMutation_RemovedComponentsIDs m)
       M2M false incident_ComponentsTable incident_ComponentsPrimaryKey ++
     edge_cleared (IncidentMutation_NotificationsCleared m) O2M false incident_NotificationsTable
       [incident_NotificationsColumn] ++
     edge_to (if IncidentMutation_NotificationsCleared m then [] else
       IncidentMutation_RemovedNotificationsIDs m) O2M false incident_NotificationsTable
       [incident_NotificationsColumn])
    (edge_to (IncidentMutation_ComponentsIDs m) M2M false incident_ComponentsTable
      incident_ComponentsPrimaryKey ++
     edge_to (IncidentMutation_NotificationsIDs m) O2M false incident_NotificationsTable
       [incident_NotificationsColumn]).
Definition IncidentUpdate_sqlSave `{SqlGraph DB} (c : IncidentUpdate) (db : DB)
    : (ent_error + Z) * IncidentUpdate * DB :=
  match IncidentUpdate_check c with
  | Some e => (inl e, c, db)
  | None =>
      match g_UpdateNodes (IncidentUpdate_spec c) db with
      | (inl e, db) => (inl (update_error incident_Label e), c, db)
      | (inr affected, db) => (inr affected, c <| IncidentUpdate_mutation ::= (λ m, m
        <| im_done := true |>) |>, db)
      end
  end.
Definition IncidentUpdate_Save `{SqlGraph DB} (c : IncidentUpdate) (db : DB)
    : (ent_error + Z) * IncidentUpdate * DB :=
  withHooks (λ e, (inl e, c, db))
    (λ m, IncidentUpdate_sqlSave (c <| IncidentUpdate_mutation := m |>) db) (IncidentUpdate_mutation c) [].
Definition IncidentUpdate_Exec `{SqlGraph DB} (c : IncidentUpdate) (db : DB)
    : (ent_error + unit) * IncidentUpdate * DB :=
  let '(r, c, db) := IncidentUpdate_Save c db in (match r with inl e => inl e | inr _ => inr tt end, c, db).

(** ** [IncidentUpdateOne] *)

Record IncidentUpdateOne := mkIncidentUpdateOne { IncidentUpdateOne_mutation : IncidentMutation; IncidentUpdateOne_fields : list string }.
Definition IncidentUpdateOne_SetText (v : string) (c : IncidentUpdateOne) : IncidentUpdateOne :=
  c <| IncidentUpdateOne_mutation ::= IncidentMutation_SetText v |>.
Definition IncidentUpdateOne_SetNillableText (v : option string) (c : IncidentUpdateOne) : IncidentUpdateOne :=
  match v with Some v => IncidentUpdateOne_SetText v c | None => c end.
Definition IncidentUpdateOne_SetDescription (v : string) (c : IncidentUpdateOne) : IncidentUpdateOne :=
  c <| IncidentUpdateOne_mutation ::= IncidentMutation_SetDescription v |>.
Definition IncidentUpdateOne_SetNillableDescription (v : option string) (c : IncidentUpdateOne)
    : IncidentUpdateOne :=
  match v with Some v => IncidentUpdateOne_SetDescription v c | None => c end.
Definition IncidentUpdateOne_ClearDescription (c : IncidentUpdateOne) : IncidentUpdateOne :=
  c <| IncidentUpdateOne_mutation ::= IncidentMutation_ClearDescription |>.
Definition IncidentUpdateOne_SetStartDate (v : Z) (c : IncidentUpdateOne) : IncidentUpdateOne :=
  c <| IncidentUpdateOne_mutation ::= IncidentMutation_SetStartDate v |>.
Definition IncidentUpdateOne_SetNillableStartDate (v : option Z) (c : IncidentUpdateOne) : IncidentUpdateOne :=
  match v with Some v => IncidentUpdateOne_SetStartDate v c | None => c end.
Definition IncidentUpdateOne_SetEndDate (v : Z) (c : IncidentUpdateOne) : IncidentUpdateOne :=
  c <| IncidentUpdateOne_mutation ::= IncidentMutation_SetEndDate v |>.
Definition IncidentUpdateOne_SetNillableEndDate (v : option Z) (c : IncidentUpdateOne) : IncidentUpdateOne :=
  match v with Some v => IncidentUpdateOne_SetEndDate v c | None => c end.
Definition IncidentUpdateOne_ClearEndDate (c : IncidentUpdateOne) : IncidentUpdateOne :=
  c <| IncidentUpdateOne_mutation ::= IncidentMutation_ClearEndDate |>.
Definition IncidentUpdateOne_SetImpact (v : Z) (c : IncidentUpdateOne) : IncidentUpdateOne :=
  c <| IncidentUpdateOne_mutation ::= (λ m, IncidentMutation_SetImpact v (IncidentMutation_ResetImpact m)) |>.
Definition IncidentUpdateOne_SetNillableImpact (v : option Z) (c : IncidentUpdateOne) : IncidentUpdateOne :=
  match v with Some v => IncidentUpdateOne_SetImpact v c | None => c end.
Definition IncidentUpdateOne_AddImpact (v : Z) (c : IncidentUpdateOne) : IncidentUpdateOne :=
  c <| IncidentUpdateOne_mutation ::= IncidentMutation_AddImpact v |>.
Definition IncidentUpdateOne_SetSystem (v : bool) (c : IncidentUpdateOne) : IncidentUpdateOne :=
  c <| IncidentUpdateOne_mutation ::= IncidentMutation_SetSystem v |>.
Definition IncidentUpdateOne_SetNillableSystem (v : option bool) (c : IncidentUpdateOne) : IncidentUpdateOne :=
  match v with Some v => IncidentUpdateOne_SetSystem v c | None => c end.
Definition IncidentUpdateOne_SetType (v : string) (c : IncidentUpdateOne) : IncidentUpdateOne :=
  c <| IncidentUpdateOne_mutation ::= IncidentMutation_SetType v |>.
Definition IncidentUpdateOne_SetNillableType (v : option string) (c : IncidentUpdateOne) : IncidentUpdateOne :=
  match v with Some v => IncidentUpdateOne_SetType v c | None => c end.
Definition IncidentUpdateOne_SetStatus (v : string) (c : IncidentUpdateOne) : IncidentUpdateOne :=
  c <| IncidentUpdateOne_mutation ::= IncidentMutation_SetStatus v |>.
Definition IncidentUpdateOne_SetNillableStatus (v : option string) (c : IncidentUpdateOne)
    : IncidentUpdateOne :=
  match v with Some v => IncidentUpdateOne_SetStatus v c | None => c end.
Definition IncidentUpdateOne_ClearStatus (c : IncidentUpdateOne) : IncidentUpdateOne :=
  c <| IncidentUpdateOne_mutation ::= IncidentMutation_ClearStatus |>.
Definition IncidentUpdateOne_SetCreatedAt (v : Z) (c : IncidentUpdateOne) : IncidentUpdateOne :=
  c <| IncidentUpdateOne_mutation ::= IncidentMutation_SetCreatedAt v |>.
Definition IncidentUpdateOne_SetNillableCreatedAt (v : option Z) (c : IncidentUpdateOne) : IncidentUpdateOne :=
  match v with Some v => IncidentUpdateOne_SetCreatedAt v c | None => c end.
Definition IncidentUpdateOne_ClearCreatedAt (c : IncidentUpdateOne) : IncidentUpdateOne :=
  c <| IncidentUpdateOne_mutation ::= IncidentMutation_ClearCreatedAt |>.
Definition IncidentUpdateOne_SetModifiedAt (v : Z) (c : IncidentUpdateOne) : IncidentUpdateOne :=
  c <| IncidentUpdateOne_mutation ::= IncidentMutation_SetModifiedAt v |>.
Definition IncidentUpdateOne_SetNillableModifiedAt (v : option Z) (c : IncidentUpdateOne) : IncidentUpdateOne :=
  match v with Some v => IncidentUpdateOne_SetModifiedAt v c | None => c end.
Definition IncidentUpdateOne_ClearModifiedAt (c : IncidentUpdateOne) : IncidentUpdateOne :=
  c <| IncidentUpdateOne_mutation ::= IncidentMutation_ClearModifiedAt |>.
Definition IncidentUpdateOne_SetDeletedAt (v : Z) (c : IncidentUpdateOne) : IncidentUpdateOne :=
  c <| IncidentUpdateOne_mutation ::= IncidentMutation_SetDeletedAt v |>.
Definition IncidentUpdateOne_SetNillableDeletedAt (v : option Z) (c : IncidentUpdateOne) : IncidentUpdateOne :=
  match v with Some v => IncidentUpdateOne_SetDeletedAt v c | None => c end.
Definition IncidentUpdateOne_ClearDeletedAt (c : IncidentUpdateOne) : IncidentUpdateOne :=
  c <| IncidentUpdateOne_mutation ::= IncidentMutation_ClearDeletedAt |>.
Definition IncidentUpdateOne_SetCreatedBy (v : string) (c : IncidentUpdateOne) : IncidentUpdateOne :=
  c <| IncidentUpdateOne_mutation ::= IncidentMutation_SetCreatedBy v |>.
Definition IncidentUpdateOne_SetNillableCreatedBy (v : option string) (c : IncidentUpdateOne)
    : IncidentUpdateOne :=
  match v with Some v => IncidentUpdateOne_SetCreatedBy v c | None => c end.
Definition IncidentUpdateOne_ClearCreatedBy (c : IncidentUpdateOne) : IncidentUpdateOne :=
  c <| IncidentUpdateOne_mutation ::= IncidentMutation_ClearCreatedBy |>.
Definition IncidentUpdateOne_SetContactEmail (v : string) (c : IncidentUpdateOne) : IncidentUpdateOne :=
  c <| IncidentUpdateOne_mutation ::= IncidentMutation_SetContactEmail v |>.
Definition IncidentUpdateOne_SetNillableContactEmail (v : option string) (c : IncidentUpdateOne)
    : IncidentUpdateOne :=
  match v with Some v => IncidentUpdateOne_SetContactEmail v c | None => c end.
Definition IncidentUpdateOne_ClearContactEmail (c : IncidentUpdateOne) : IncidentUpdateOne :=
  c <| IncidentUpdateOne_mutation ::= IncidentMutation_ClearContactEmail |>.
Definition IncidentUpdateOne_SetVersion (v : Z) (c : IncidentUpdateOne) : IncidentUpdateOne :=
  c <| IncidentUpdateOne_mutation ::= (λ m, IncidentMutation_SetVersion v (IncidentMutation_ResetVersion m)) |>.
Definition IncidentUpdateOne_SetNillableVersion (v : option Z) (c : IncidentUpdateOne) : IncidentUpdateOne :=
  match v with Some v => IncidentUpdateOne_SetVersion v c | None => c end.
Definition IncidentUpdateOne_AddVersion (v : Z) (c : IncidentUpdateOne) : IncidentUpdateOne :=
  c <| IncidentUpdateOne_mutation ::= IncidentMutation_AddVersion v |>.
Definition IncidentUpdateOne_AddComponentIDs (ids : list Z) (c : IncidentUpdateOne) : IncidentUpdateOne :=
  c <| IncidentUpdateOne_mutation ::= IncidentMutation_AddComponentIDs ids |>.
Definition IncidentUpdateOne_AddComponents (v : list ComponentNode) (c : IncidentUpdateOne)
    : IncidentUpdateOne :=
  IncidentUpdateOne_AddComponentIDs (cn_ID <$> v) c.
Definition IncidentUpdateOne_AddNotificationIDs (ids : list Z) (c : IncidentUpdateOne) : IncidentUpdateOne :=
  c <| IncidentUpdateOne_mutation ::= IncidentMutation_AddNotificationIDs ids |>.
Definition IncidentUpdateOne_AddNotifications (v : list NotificationOutboxNode) (c : IncidentUpdateOne)
    : IncidentUpdateOne :=
  IncidentUpdateOne_AddNotificationIDs (nn_ID <$> v) c.
Definition IncidentUpdateOne_Mutation (c : IncidentUpdateOne) : IncidentMutation :=
  IncidentUpdateOne_mutation c.
Definition IncidentUpdateOne_ClearComponents (c : IncidentUpdateOne) : IncidentUpdateOne :=
  c <| IncidentUpdateOne_mutation ::= IncidentMutation_ClearComponents |>.
Definition IncidentUpdateOne_RemoveComponentIDs (ids : list Z) (c : IncidentUpdateOne) : IncidentUpdateOne :=
  c <| IncidentUpdateOne_mutation ::= IncidentMutation_RemoveComponentIDs ids |>.
Definition IncidentUpdateOne_RemoveComponents (v : list ComponentNode) (c : IncidentUpdateOne)
    : IncidentUpdateOne :=
  IncidentUpdateOne_RemoveComponentIDs (cn_ID <$> v) c.
Definition IncidentUpdateOne_ClearNotifications (c : IncidentUpdateOne) : IncidentUpdateOne :=
  c <| IncidentUpdateOne_mutation ::= IncidentMutation_ClearNotifications |>.
Definition IncidentUpdateOne_RemoveNotificationIDs (ids : list Z) (c : IncidentUpdateOne) : IncidentUpdateOne :=
  c <| IncidentUpdateOne_mutation ::= IncidentMutation_RemoveNotificationIDs ids |>.
Definition IncidentUpdateOne_RemoveNotifications (v : list NotificationOutboxNode) (c : IncidentUpdateOne)
    : IncidentUpdateOne :=
  IncidentUpdateOne_RemoveNotificationIDs (nn_ID <$> v) c.
Definition IncidentUpdateOne_Where (ps : list sql_pred) (c : IncidentUpdateOne) : IncidentUpdateOne :=
  c <| IncidentUpdateOne_mutation ::= IncidentMutation_Where ps |>.
Definition IncidentUpdateOne_Select (field : string) (fields : list string) (c : IncidentUpdateOne)
    : IncidentUpdateOne :=
  c <| IncidentUpdateOne_fields := field :: fields |>.
Definition IncidentUpdateOne_check (c : IncidentUpdateOne) : option ent_error :=
  let m := IncidentUpdateOne_mutation c in
  first_error [validated "Incident" "text" incident_TextValidator (IncidentMutation_Text m);
    validated "Incident" "type" incident_TypeValidator (IncidentMutation_GetType m)].
Definition IncidentUpdateOne_spec (c : IncidentUpdateOne) (id : Z) (columns : list string) : UpdateSpec :=
  let m := IncidentUpdateOne_mutation c in
  mkUpdateSpec incident_Table columns (Some id) (im_predicates m)
    (set_fields
    [(incident_FieldText, VString <$> IncidentMutation_Text m);
     (incident_FieldDescription, VString <$> IncidentMutation_Description m);
     (incident_FieldStartDate, VTime <$> IncidentMutation_StartDate m);
     (incident_FieldEndDate, VTime <$> IncidentMutation_EndDate m);
     (incident_FieldImpact, VInt <$> IncidentMutation_Impact m);
     (incident_FieldSystem, VBool <$> IncidentMutation_System m);
     (incident_FieldType, VType <$> IncidentMutation_GetType m);
     (incident_FieldStatus, VString <$> IncidentMutation_Status m);
     (incident_FieldCreatedAt, VTime <$> IncidentMutation_CreatedAt m);
     (incident_FieldModifiedAt, VTime <$> IncidentMutation_ModifiedAt m);
     (incident_FieldDeletedAt, VTime <$> IncidentMutation_DeletedAt m);
     (incident_FieldCreatedBy, VString <$> IncidentMutation_CreatedBy m);
     (incident_FieldContactEmail, VString <$> IncidentMutation_ContactEmail m);
     (incident_FieldVersion, VInt <$> IncidentMutation_Version m)])
    (add_fields [(incident_FieldImpact, IncidentMutation_AddedImpact m);
      (incident_FieldVersion, IncidentMutation_AddedVersion m)])
    (collect
    [(incident_FieldDescription, IncidentMutation_DescriptionCleared m);
     (incident_FieldEndDate, IncidentMutation_EndDateCleared m);
     (incident_FieldStatus, IncidentMutation_StatusCleared m);
     (incident_FieldCreatedAt, IncidentMutation_CreatedAtCleared m);
     (incident_FieldModifiedAt, IncidentMutation_ModifiedAtCleared m);
     (incident_FieldDeletedAt, IncidentMutation_DeletedAtCleared m);
     (incident_FieldCreatedBy, IncidentMutation_CreatedByCleared m);
     (incident_FieldContactEmail, IncidentMutation_ContactEmailCleared m)])
    (edge_cleared (IncidentMutation_ComponentsCleared m) M2M false incident_ComponentsTable
      incident_ComponentsPrimaryKey ++
     edge_to (if IncidentMutation_ComponentsCleared m then [] else IncidentMutation_RemovedComponentsIDs m)
       M2M false incident_ComponentsTable incident_ComponentsPrimaryKey ++
     edge_cleared (IncidentMutation_NotificationsCleared m) O2M false incident_NotificationsTable
       [incident_NotificationsColumn] ++
     edge_to (if IncidentMutation_NotificationsCleared m then [] else
       IncidentMutation_RemovedNotificationsIDs m) O2M false incident_NotificationsTable
       [incident_NotificationsColumn])
    (edge_to (IncidentMutation_ComponentsIDs m) M2M false incident_ComponentsTable
      incident_ComponentsPrimaryKey ++
     edge_to (IncidentMutation_NotificationsIDs m) O2M false incident_NotificationsTable
       [incident_NotificationsColumn]).
Definition IncidentUpdateOne_sqlSave `{SqlGraph DB} (c : IncidentUpdateOne) (db : DB)
    : (ent_error + IncidentNode) * IncidentUpdateOne * DB :=
  match IncidentUpdateOne_check c with
  | Some e => (inl e, c, db)
  | None =>
      match IncidentMutation_ID (IncidentUpdateOne_mutation c) with
      | None => (inl (missing_id "Incident"), c, db)
      | Some id =>
          match selected incident_Columns incident_FieldID incident_ValidColumn (IncidentUpdateOne_fields c)
            with
          | inl e => (inl e, c, db)
          | inr columns =>
              match g_UpdateNode (IncidentUpdateOne_spec c id columns)
                      (λ row, Incident_assignValues columns (zip_with scan (Incident_scanValues columns) row)
                        newIncidentNode) db with
              | (inl e, db) => (inl (update_error incident_Label e), c, db)
              | (inr node, db) => (inr node, c <| IncidentUpdateOne_mutation ::= (λ m, m
                <| im_done := true |>) |>, db)
              end
          end
      end
  end.
Definition IncidentUpdateOne_Save `{SqlGraph DB} (c : IncidentUpdateOne) (db : DB)
    : (ent_error + IncidentNode) * IncidentUpdateOne * DB :=
  withHooks (λ e, (inl e, c, db))
    (λ m, IncidentUpdateOne_sqlSave (c
      <| IncidentUpdateOne_mutation := m |>) db) (IncidentUpdateOne_mutation c) [].
Definition IncidentUpdateOne_Exec `{SqlGraph DB} (c : IncidentUpdateOne) (db : DB)
    : (ent_error + unit) * IncidentUpdateOne * DB :=
  let '(r, c, db) := IncidentUpdateOne_Save c db in (match r with inl e => inl e | inr _ => inr tt end, c, db).

(** ** [IncidentDelete] *)

Record IncidentDelete := mkIncidentDelete { IncidentDelete_mutation : IncidentMutation }.
Definition IncidentDelete_Where (ps : list sql_pred) (c : IncidentDelete) : IncidentDelete :=
  c <| IncidentDelete_mutation ::= IncidentMutation_Where ps |>.
Definition IncidentDelete_sqlExec `{SqlGraph DB} (c : IncidentDelete) (db : DB)
    : (ent_error + Z) * IncidentDelete * DB :=
  let '(r, db) := g_DeleteNodes incident_Table (im_predicates (IncidentDelete_mutation c)) db in
  (match r with inl e => inl (create_error e) | inr n => inr n end,
   c <| IncidentDelete_mutation ::= (λ m, m <| im_done := true |>) |>, db).
Definition IncidentDelete_Exec `{SqlGraph DB} (c : IncidentDelete) (db : DB)
    : (ent_error + Z) * IncidentDelete * DB :=
  withHooks (λ e, (inl e, c, db))
    (λ m, IncidentDelete_sqlExec (c <| IncidentDelete_mutation := m |>) db) (IncidentDelete_mutation c) [].
Definition IncidentDeleteOne_Where (ps : list sql_pred) (c : IncidentDelete) : IncidentDelete :=
  IncidentDelete_Where ps c.
Definition IncidentDeleteOne_Exec `{SqlGraph DB} (c : IncidentDelete) (db : DB)
    : (ent_error + unit) * IncidentDelete * DB :=
  let '(r, c, db) := IncidentDelete_Exec c db in
  (match r with inl e => inl e | inr n => if n =? 0 then inl (EntNotFound incident_Label) else inr tt end, c,
    db).

(** ** The client: fresh builders *)

Definition IncidentClient_Create (c : config) : IncidentCreate :=
  mkIncidentCreate (newIncidentMutation c OpCreate []).
Definition IncidentClient_Update (c : config) : IncidentUpdate :=
  mkIncidentUpdate (newIncidentMutation c OpUpdate []).
Definition IncidentClient_UpdateOne (c : config) (node : IncidentNode) : IncidentUpdateOne :=
  mkIncidentUpdateOne (newIncidentMutation c OpUpdateOne [withIncident node]) [].
Definition IncidentClient_UpdateOneID (c : config) (id : Z) : IncidentUpdateOne :=
  mkIncidentUpdateOne (newIncidentMutation c OpUpdateOne [withIncidentID id]) [].
Definition IncidentClient_Delete (c : config) : IncidentDelete :=
  mkIncidentDelete (newIncidentMutation c OpDelete []).
Definition IncidentClient_DeleteOneID (c : config) (id : Z) : IncidentDelete :=
  (IncidentDelete_Where [FieldEQ incident_FieldID (VInt id)] (IncidentClient_Delete c))
    <| IncidentDelete_mutation ::= (λ m, m <| im_id := Some id |> <| im_op := OpDeleteOne |>) |>.
Definition IncidentClient_DeleteOne (c : config) (node : IncidentNode) : IncidentDelete :=
  IncidentClient_DeleteOneID c (in_ID node).
