(* ===== verification/EntIncidentStatusBuild.v ===== *)
(** * The builders of the entity [IncidentStatus]

    Scanning ([ent/incidentstatus.go]) and the create, update and delete builders
    ([ent/incidentstatus_create.go], [ent/incidentstatus_update.go], [ent/incidentstatus_delete.go]).
    A builder carries its mutation; no hook is registered.  The options for conflicts
    ([OnConflict] and the upsert builders) and bulk creation are left out: nothing uses them. *)

From S2P Require Import Prelude GoStrings GoTime Errors Models EntCore EntComponent EntComponentAttr EntIncident EntIncidentStatus EntNotificationOutbox.
Local Open Scope Z_scope.

(** ** Scanning *)

Definition IncidentStatus_scanValues (columns : list string) : list scan_kind :=
  (λ c, switch c
    [(incidentstatus_FieldID, SInt64); (incidentstatus_FieldIncidentID, SInt64);
      (incidentstatus_FieldText, SString); (incidentstatus_FieldStatus, SString);
      (incidentstatus_FieldCreatedBy, SString); (incidentstatus_FieldModifiedBy, SString);
      (incidentstatus_FieldTimestamp, STime); (incidentstatus_FieldCreatedAt, STime);
      (incidentstatus_FieldModifiedAt, STime); (incidentstatus_FieldDeletedAt, STime)] SUnknown) <$> columns.
Definition IncidentStatus_assign (column : string) (v : scanned) (n : IncidentStatusNode)
    : scan_err + IncidentStatusNode :=
  switch column
  [(incidentstatus_FieldID, assign_id v "id" (λ v n, n <| sn_ID := v |>) n);
   (incidentstatus_FieldIncidentID, assign_int v "incident_id" (λ v n, n <| sn_IncidentID := v |>) n);
   (incidentstatus_FieldTimestamp, assign_time v "timestamp" (λ v n, n <| sn_Timestamp := v |>) n);
   (incidentstatus_FieldText, assign_string v "text" (λ v n, n <| sn_Text := v |>) n);
   (incidentstatus_FieldStatus, assign_string v "status" (λ v n, n <| sn_Status := v |>) n);
   (incidentstatus_FieldCreatedAt, assign_time v "created_at" (λ v n, n <| sn_CreatedAt := v |>) n);
   (incidentstatus_FieldModifiedAt, assign_time v "modified_at" (λ v n, n <| sn_ModifiedAt := v |>) n);
   (incidentstatus_FieldDeletedAt, assign_time v "deleted_at" (λ v n, n <| sn_DeletedAt := v |>) n);
   (incidentstatus_FieldCreatedBy, assign_string v "created_by" (λ v n, n <| sn_CreatedBy := Some v |>) n);
   (incidentstatus_FieldModifiedBy, assign_string v "modified_by" (λ v n, n <| sn_ModifiedBy := Some v |>) n)]
  (inr n).
Definition IncidentStatus_assignValues (columns : list string) (values : list scanned) (n : IncidentStatusNode) : scan_err + IncidentStatusNode :=
  assign_all IncidentStatus_assign columns values n.

(** ** [IncidentStatusCreate] *)

Record IncidentStatusCreate := mkIncidentStatusCreate { IncidentStatusCreate_mutation : IncidentStatusMutation }.
Definition IncidentStatusCreate_SetIncidentID (v : Z) (c : IncidentStatusCreate) : IncidentStatusCreate :=
  c <| IncidentStatusCreate_mutation ::= IncidentStatusMutation_SetIncidentID v |>.
Definition IncidentStatusCreate_SetNillableIncidentID (v : option Z) (c : IncidentStatusCreate)
    : IncidentStatusCreate :=
  match v with Some v => IncidentStatusCreate_SetIncidentID v c | None => c end.
Definition IncidentStatusCreate_SetTimestamp (v : Z) (c : IncidentStatusCreate) : IncidentStatusCreate :=
  c <| IncidentStatusCreate_mutation ::= IncidentStatusMutation_SetTimestamp v |>.
Definition IncidentStatusCreate_SetText (v : string) (c : IncidentStatusCreate) : IncidentStatusCreate :=
  c <| IncidentStatusCreate_mutation ::= IncidentStatusMutation_SetText v |>.
Definition IncidentStatusCreate_SetStatus (v : string) (c : IncidentStatusCreate) : IncidentStatusCreate :=
  c <| IncidentStatusCreate_mutation ::= IncidentStatusMutation_SetStatus v |>.
Definition IncidentStatusCreate_SetCreatedAt (v : Z) (c : IncidentStatusCreate) : IncidentStatusCreate :=
  c <| IncidentStatusCreate_mutation ::= IncidentStatusMutation_SetCreatedAt v |>.
Definition IncidentStatusCreate_SetNillableCreatedAt (v : option Z) (c : IncidentStatusCreate)
    : IncidentStatusCreate :=
  match v with Some v => IncidentStatusCreate_SetCreatedAt v c | None => c end.
Definition IncidentStatusCreate_SetModifiedAt (v : Z) (c : IncidentStatusCreate) : IncidentStatusCreate :=
  c <| IncidentStatusCreate_mutation ::= IncidentStatusMutation_SetModifiedAt v |>.
Definition IncidentStatusCreate_SetNillableModifiedAt (v : option Z) (c : IncidentStatusCreate)
    : IncidentStatusCreate :=
  match v with Some v => IncidentStatusCreate_SetModifiedAt v c | None => c end.
Definition IncidentStatusCreate_SetDeletedAt (v : Z) (c : IncidentStatusCreate) : IncidentStatusCreate :=
  c <| IncidentStatusCreate_mutation ::= IncidentStatusMutation_SetDeletedAt v |>.
Definition IncidentStatusCreate_SetNillableDeletedAt (v : option Z) (c : IncidentStatusCreate)
    : IncidentStatusCreate :=
  match v with Some v => IncidentStatusCreate_SetDeletedAt v c | None => c end.
Definition IncidentStatusCreate_SetCreatedBy (v : string) (c : IncidentStatusCreate) : IncidentStatusCreate :=
  c <| IncidentStatusCreate_mutation ::= IncidentStatusMutation_SetCreatedBy v |>.
Definition IncidentStatusCreate_SetNillableCreatedBy (v : option string) (c : IncidentStatusCreate)
    : IncidentStatusCreate :=
  match v with Some v => IncidentStatusCreate_SetCreatedBy v c | None => c end.
Definition IncidentStatusCreate_SetModifiedBy (v : string) (c : IncidentStatusCreate) : IncidentStatusCreate :=
  c <| IncidentStatusCreate_mutation ::= IncidentStatusMutation_SetModifiedBy v |>.
Definition IncidentStatusCreate_SetNillableModifiedBy (v : option string) (c : IncidentStatusCreate)
    : IncidentStatusCreate :=
  match v with Some v => IncidentStatusCreate_SetModifiedBy v c | None => c end.
Definition IncidentStatusCreate_SetID (v : Z) (c : IncidentStatusCreate) : IncidentStatusCreate :=
  c <| IncidentStatusCreate_mutation ::= IncidentStatusMutation_SetID v |>.
Definition IncidentStatusCreate_Mutation (c : IncidentStatusCreate) : IncidentStatusMutation :=
  IncidentStatusCreate_mutation c.
Definition IncidentStatusCreate_check (c : IncidentStatusCreate) : option ent_error :=
  let m := IncidentStatusCreate_mutation c in
  first_error [required "IncidentStatus" "timestamp" (IncidentStatusMutation_Timestamp m);
    required "IncidentStatus" "text" (IncidentStatusMutation_Text m);
    validated "IncidentStatus" "text" incidentstatus_TextValidator (IncidentStatusMutation_Text m);
    required "IncidentStatus" "status" (IncidentStatusMutation_Status m);
    validated "IncidentStatus" "status" incidentstatus_StatusValidator (IncidentStatusMutation_Status m)].
Definition IncidentStatusCreate_createSpec (c : IncidentStatusCreate) : IncidentStatusNode * CreateSpec :=
  let m := IncidentStatusCreate_mutation c in
  (foldl (λ n f, f n) newIncidentStatusNode
    [assign (IncidentStatusMutation_ID m) (λ v n, n <| sn_ID := v |>);
     assign (IncidentStatusMutation_IncidentID m) (λ v n, n <| sn_IncidentID := v |>);
     assign (IncidentStatusMutation_Timestamp m) (λ v n, n <| sn_Timestamp := v |>);
     assign (IncidentStatusMutation_Text m) (λ v n, n <| sn_Text := v |>);
     assign (IncidentStatusMutation_Status m) (λ v n, n <| sn_Status := v |>);
     assign (IncidentStatusMutation_CreatedAt m) (λ v n, n <| sn_CreatedAt := v |>);
     assign (IncidentStatusMutation_ModifiedAt m) (λ v n, n <| sn_ModifiedAt := v |>);
     assign (IncidentStatusMutation_DeletedAt m) (λ v n, n <| sn_DeletedAt := v |>);
     assign (IncidentStatusMutation_CreatedBy m) (λ v n, n <| sn_CreatedBy := Some v |>);
     assign (IncidentStatusMutation_ModifiedBy m) (λ v n, n <| sn_ModifiedBy := Some v |>)],
   mkCreateSpec incidentstatus_Table (IncidentStatusMutation_ID m)
    (set_fields
    [(incidentstatus_FieldIncidentID, VInt <$> IncidentStatusMutation_IncidentID m);
     (incidentstatus_FieldTimestamp, VTime <$> IncidentStatusMutation_Timestamp m);
     (incidentstatus_FieldText, VString <$> IncidentStatusMutation_Text m);
     (incidentstatus_FieldStatus, VString <$> IncidentStatusMutation_Status m);
     (incidentstatus_FieldCreatedAt, VTime <$> IncidentStatusMutation_CreatedAt m);
     (incidentstatus_FieldModifiedAt, VTime <$> IncidentStatusMutation_ModifiedAt m);
     (incidentstatus_FieldDeletedAt, VTime <$> IncidentStatusMutation_DeletedAt m);
     (incidentstatus_FieldCreatedBy, VString <$> IncidentStatusMutation_CreatedBy m);
     (incidentstatus_FieldModifiedBy, VString <$> IncidentStatusMutation_ModifiedBy m)])
    ([])).
Definition IncidentStatusCreate_sqlSave `{SqlGraph DB} (c : IncidentStatusCreate) (db : DB)
    : (ent_error + IncidentStatusNode) * IncidentStatusCreate * DB :=
  match IncidentStatusCreate_check c with
  | Some e => (inl e, c, db)
  | None =>
      let '(node, spec) := IncidentStatusCreate_createSpec c in
      match g_CreateNode spec db with
      | (inl e, db) => (inl (create_error e), c, db)
      | (inr id, db) => (inr (node <| sn_ID := id |>),
                         c <| IncidentStatusCreate_mutation ::= (λ m, m <| sm_id := Some id |>
                           <| sm_done := true |>) |>, db)
      end
  end.
Definition IncidentStatusCreate_Save `{SqlGraph DB} (c : IncidentStatusCreate) (db : DB)
    : (ent_error + IncidentStatusNode) * IncidentStatusCreate * DB :=
  let c := c in
  withHooks (λ e, (inl e, c, db))
    (λ m, IncidentStatusCreate_sqlSave (c <| IncidentStatusCreate_mutation := m |>) db)
    (IncidentStatusCreate_mutation c) [].
Definition IncidentStatusCreate_Exec `{SqlGraph DB} (c : IncidentStatusCreate) (db : DB)
    : (ent_error + unit) * IncidentStatusCreate * DB :=
  let '(r, c, db) := IncidentStatusCreate_Save c db in (match r with inl e => inl e | inr _ => inr tt end, c,
    db).

(** ** [IncidentStatusUpdate] *)

Record IncidentStatusUpdate := mkIncidentStatusUpdate { IncidentStatusUpdate_mutation : IncidentStatusMutation }.
Definition IncidentStatusUpdate_Where (ps : list sql_pred) (c : IncidentStatusUpdate) : IncidentStatusUpdate :=
  c <| IncidentStatusUpdate_mutation ::= IncidentStatusMutation_Where ps |>.
Definition IncidentStatusUpdate_SetIncidentID (v : Z) (c : IncidentStatusUpdate) : IncidentStatusUpdate :=
  c <| IncidentStatusUpdate_mutation ::= (λ m, IncidentStatusMutation_SetIncidentID v
    (IncidentStatusMutation_ResetIncidentID m)) |>.
Definition IncidentStatusUpdate_SetNillableIncidentID (v : option Z) (c : IncidentStatusUpdate)
    : IncidentStatusUpdate :=
  match v with Some v => IncidentStatusUpdate_SetIncidentID v c | None => c end.
Definition IncidentStatusUpdate_AddIncidentID (v : Z) (c : IncidentStatusUpdate) : IncidentStatusUpdate :=
  c <| IncidentStatusUpdate_mutation ::= IncidentStatusMutation_AddIncidentID v |>.
Definition IncidentStatusUpdate_ClearIncidentID (c : IncidentStatusUpdate) : IncidentStatusUpdate :=
  c <| IncidentStatusUpdate_mutation ::= IncidentStatusMutation_ClearIncidentID |>.
Definition IncidentStatusUpdate_SetTimestamp (v : Z) (c : IncidentStatusUpdate) : IncidentStatusUpdate :=
  c <| IncidentStatusUpdate_mutation ::= IncidentStatusMutation_SetTimestamp v |>.
Definition IncidentStatusUpdate_SetNillableTimestamp (v : option Z) (c : IncidentStatusUpdate)
    : IncidentStatusUpdate :=
  match v with Some v => IncidentStatusUpdate_SetTimestamp v c | None => c end.
Definition IncidentStatusUpdate_SetText (v : string) (c : IncidentStatusUpdate) : IncidentStatusUpdate :=
  c <| IncidentStatusUpdate_mutation ::= IncidentStatusMutation_SetText v |>.
Definition IncidentStatusUpdate_SetNillableText (v : option string) (c : IncidentStatusUpdate)
    : IncidentStatusUpdate :=
  match v with Some v => IncidentStatusUpdate_SetText v c | None => c end.
Definition IncidentStatusUpdate_SetStatus (v : string) (c : IncidentStatusUpdate) : IncidentStatusUpdate :=
  c <| IncidentStatusUpdate_mutation ::= IncidentStatusMutation_SetStatus v |>.
Definition IncidentStatusUpdate_SetNillableStatus (v : option string) (c : IncidentStatusUpdate)
    : IncidentStatusUpdate :=
  match v with Some v => IncidentStatusUpdate_SetStatus v c | None => c end.
Definition IncidentStatusUpdate_SetCreatedAt (v : Z) (c : IncidentStatusUpdate) : IncidentStatusUpdate :=
  c <| IncidentStatusUpdate_mutation ::= IncidentStatusMutation_SetCreatedAt v |>.
Definition IncidentStatusUpdate_SetNillableCreatedAt (v : option Z) (c : IncidentStatusUpdate)
    : IncidentStatusUpdate :=
  match v with Some v => IncidentStatusUpdate_SetCreatedAt v c | None => c end.
Definition IncidentStatusUpdate_ClearCreatedAt (c : IncidentStatusUpdate) : IncidentStatusUpdate :=
  c <| IncidentStatusUpdate_mutation ::= IncidentStatusMutation_ClearCreatedAt |>.
Definition IncidentStatusUpdate_SetModifiedAt (v : Z) (c : IncidentStatusUpdate) : IncidentStatusUpdate :=
  c <| IncidentStatusUpdate_mutation ::= IncidentStatusMutation_SetModifiedAt v |>.
Definition IncidentStatusUpdate_SetNillableModifiedAt (v : option Z) (c : IncidentStatusUpdate)
    : IncidentStatusUpdate :=
  match v with Some v => IncidentStatusUpdate_SetModifiedAt v c | None => c end.
Definition IncidentStatusUpdate_ClearModifiedAt (c : IncidentStatusUpdate) : IncidentStatusUpdate :=
  c <| IncidentStatusUpdate_mutation ::= IncidentStatusMutation_ClearModifiedAt |>.
Definition IncidentStatusUpdate_SetDeletedAt (v : Z) (c : IncidentStatusUpdate) : IncidentStatusUpdate :=
  c <| IncidentStatusUpdate_mutation ::= IncidentStatusMutation_SetDeletedAt v |>.
Definition IncidentStatusUpdate_SetNillableDeletedAt (v : option Z) (c : IncidentStatusUpdate)
    : IncidentStatusUpdate :=
  match v with Some v => IncidentStatusUpdate_SetDeletedAt v c | None => c end.
Definition IncidentStatusUpdate_ClearDeletedAt (c : IncidentStatusUpdate) : IncidentStatusUpdate :=
  c <| IncidentStatusUpdate_mutation ::= IncidentStatusMutation_ClearDeletedAt |>.
Definition IncidentStatusUpdate_SetCreatedBy (v : string) (c : IncidentStatusUpdate) : IncidentStatusUpdate :=
  c <| IncidentStatusUpdate_mutation ::= IncidentStatusMutation_SetCreatedBy v |>.
Definition IncidentStatusUpdate_SetNillableCreatedBy (v : option string) (c : IncidentStatusUpdate)
    : IncidentStatusUpdate :=
  match v with Some v => IncidentStatusUpdate_SetCreatedBy v c | None => c end.
Definition IncidentStatusUpdate_ClearCreatedBy (c : IncidentStatusUpdate) : IncidentStatusUpdate :=
  c <| IncidentStatusUpdate_mutation ::= IncidentStatusMutation_ClearCreatedBy |>.
Definition IncidentStatusUpdate_SetModifiedBy (v : string) (c : IncidentStatusUpdate) : IncidentStatusUpdate :=
  c <| IncidentStatusUpdate_mutation ::= IncidentStatusMutation_SetModifiedBy v |>.
Definition IncidentStatusUpdate_SetNillableModifiedBy (v : option string) (c : IncidentStatusUpdate)
    : IncidentStatusUpdate :=
  match v with Some v => IncidentStatusUpdate_SetModifiedBy v c | None => c end.
Definition IncidentStatusUpdate_ClearModifiedBy (c : IncidentStatusUpdate) : IncidentStatusUpdate :=
  c <| IncidentStatusUpdate_mutation ::= IncidentStatusMutation_ClearModifiedBy |>.
Definition IncidentStatusUpdate_Mutation (c : IncidentStatusUpdate) : IncidentStatusMutation :=
  IncidentStatusUpdate_mutation c.
Definition IncidentStatusUpdate_check (c : IncidentStatusUpdate) : option ent_error :=
  let m := IncidentStatusUpdate_mutation c in
  first_error [validated "IncidentStatus" "text" incidentstatus_TextValidator (IncidentStatusMutation_Text m);
    validated "IncidentStatus" "status" incidentstatus_StatusValidator (IncidentStatusMutation_Status m)].
Definition IncidentStatusUpdate_spec (c : IncidentStatusUpdate) : UpdateSpec :=
  let m := IncidentStatusUpdate_mutation c in
  mkUpdateSpec incidentstatus_Table incidentstatus_Columns None (sm_predicates m)
    (set_fields
    [(incidentstatus_FieldIncidentID, VInt <$> IncidentStatusMutation_IncidentID m);
     (incidentstatus_FieldTimestamp, VTime <$> IncidentStatusMutation_Timestamp m);
     (incidentstatus_FieldText, VString <$> IncidentStatusMutation_Text m);
     (incidentstatus_FieldStatus, VString <$> IncidentStatusMutation_Status m);
     (incidentstatus_FieldCreatedAt, VTime <$> IncidentStatusMutation_CreatedAt m);
     (incidentstatus_FieldModifiedAt, VTime <$> IncidentStatusMutation_ModifiedAt m);
     (incidentstatus_FieldDeletedAt, VTime <$> IncidentStatusMutation_DeletedAt m);
     (incidentstatus_FieldCreatedBy, VString <$> IncidentStatusMutation_CreatedBy m);
     (incidentstatus_FieldModifiedBy, VString <$> IncidentStatusMutation_ModifiedBy m)])
    (add_fields [(incidentstatus_FieldIncidentID, IncidentStatusMutation_AddedIncidentID m)])
    (collect
    [(incidentstatus_FieldIncidentID, IncidentStatusMutation_IncidentIDCleared m);
     (incidentstatus_FieldCreatedAt, IncidentStatusMutation_CreatedAtCleared m);
     (incidentstatus_FieldModifiedAt, IncidentStatusMutation_ModifiedAtCleared m);
     (incidentstatus_FieldDeletedAt, IncidentStatusMutation_DeletedAtCleared m);
     (incidentstatus_FieldCreatedBy, IncidentStatusMutation_CreatedByCleared m);
     (incidentstatus_FieldModifiedBy, IncidentStatusMutation_ModifiedByCleared m)])
    ([])
    ([]).
Definition IncidentStatusUpdate_sqlSave `{SqlGraph DB} (c : IncidentStatusUpdate) (db : DB)
    : (ent_error + Z) * IncidentStatusUpdate * DB :=
  match IncidentStatusUpdate_check c with
  | Some e => (inl e, c, db)
  | None =>
      match g_UpdateNodes (IncidentStatusUpdate_spec c) db with
      | (inl e, db) => (inl (update_error incidentstatus_Label e), c, db)
      | (inr affected, db) => (inr affected, c <| IncidentStatusUpdate_mutation ::= (λ m, m
        <| sm_done := true |>) |>, db)
      end
  end.
Definition IncidentStatusUpdate_Save `{SqlGraph DB} (c : IncidentStatusUpdate) (db : DB)
    : (ent_error + Z) * IncidentStatusUpdate * DB :=
  withHooks (λ e, (inl e, c, db))
    (λ m, IncidentStatusUpdate_sqlSave (c
      <| IncidentStatusUpdate_mutation := m |>) db) (IncidentStatusUpdate_mutation c) [].
Definition IncidentStatusUpdate_Exec `{SqlGraph DB} (c : IncidentStatusUpdate) (db : DB)
    : (ent_error + unit) * IncidentStatusUpdate * DB :=
  let '(r, c, db) := IncidentStatusUpdate_Save c db in (match r with inl e => inl e | inr _ => inr tt end, c,
    db).

(** ** [IncidentStatusUpdateOne] *)

Record IncidentStatusUpdateOne := mkIncidentStatusUpdateOne { IncidentStatusUpdateOne_mutation : IncidentStatusMutation; IncidentStatusUpdateOne_fields : list string }.
Definition IncidentStatusUpdateOne_SetIncidentID (v : Z) (c : IncidentStatusUpdateOne)
    : IncidentStatusUpdateOne :=
  c <| IncidentStatusUpdateOne_mutation ::= (λ m, IncidentStatusMutation_SetIncidentID v
    (IncidentStatusMutation_ResetIncidentID m)) |>.
Definition IncidentStatusUpdateOne_SetNillableIncidentID (v : option Z) (c : IncidentStatusUpdateOne)
    : IncidentStatusUpdateOne :=
  match v with Some v => IncidentStatusUpdateOne_SetIncidentID v c | None => c end.
Definition IncidentStatusUpdateOne_AddIncidentID (v : Z) (c : IncidentStatusUpdateOne)
    : IncidentStatusUpdateOne :=
  c <| IncidentStatusUpdateOne_mutation ::= IncidentStatusMutation_AddIncidentID v |>.
Definition IncidentStatusUpdateOne_ClearIncidentID (c : IncidentStatusUpdateOne) : IncidentStatusUpdateOne :=
  c <| IncidentStatusUpdateOne_mutation ::= IncidentStatusMutation_ClearIncidentID |>.
Definition IncidentStatusUpdateOne_SetTimestamp (v : Z) (c : IncidentStatusUpdateOne)
    : IncidentStatusUpdateOne :=
  c <| IncidentStatusUpdateOne_mutation ::= IncidentStatusMutation_SetTimestamp v |>.
Definition IncidentStatusUpdateOne_SetNillableTimestamp (v : option Z) (c : IncidentStatusUpdateOne)
    : IncidentStatusUpdateOne :=
  match v with Some v => IncidentStatusUpdateOne_SetTimestamp v c | None => c end.
Definition IncidentStatusUpdateOne_SetText (v : string) (c : IncidentStatusUpdateOne)
    : IncidentStatusUpdateOne :=
  c <| IncidentStatusUpdateOne_mutation ::= IncidentStatusMutation_SetText v |>.
Definition IncidentStatusUpdateOne_SetNillableText (v : option string) (c : IncidentStatusUpdateOne)
    : IncidentStatusUpdateOne :=
  match v with Some v => IncidentStatusUpdateOne_SetText v c | None => c end.
Definition IncidentStatusUpdateOne_SetStatus (v : string) (c : IncidentStatusUpdateOne)
    : IncidentStatusUpdateOne :=
  c <| IncidentStatusUpdateOne_mutation ::= IncidentStatusMutation_SetStatus v |>.
Definition IncidentStatusUpdateOne_SetNillableStatus (v : option string) (c : IncidentStatusUpdateOne)
    : IncidentStatusUpdateOne :=
  match v with Some v => IncidentStatusUpdateOne_SetStatus v c | None => c end.
Definition IncidentStatusUpdateOne_SetCreatedAt (v : Z) (c : IncidentStatusUpdateOne)
    : IncidentStatusUpdateOne :=
  c <| IncidentStatusUpdateOne_mutation ::= IncidentStatusMutation_SetCreatedAt v |>.
Definition IncidentStatusUpdateOne_SetNillableCreatedAt (v : option Z) (c : IncidentStatusUpdateOne)
    : IncidentStatusUpdateOne :=
  match v with Some v => IncidentStatusUpdateOne_SetCreatedAt v c | None => c end.
Definition IncidentStatusUpdateOne_ClearCreatedAt (c : IncidentStatusUpdateOne) : IncidentStatusUpdateOne :=
  c <| IncidentStatusUpdateOne_mutation ::= IncidentStatusMutation_ClearCreatedAt |>.
Definition IncidentStatusUpdateOne_SetModifiedAt (v : Z) (c : IncidentStatusUpdateOne)
    : IncidentStatusUpdateOne :=
  c <| IncidentStatusUpdateOne_mutation ::= IncidentStatusMutation_SetModifiedAt v |>.
Definition IncidentStatusUpdateOne_SetNillableModifiedAt (v : option Z) (c : IncidentStatusUpdateOne)
    : IncidentStatusUpdateOne :=
  match v with Some v => IncidentStatusUpdateOne_SetModifiedAt v c | None => c end.
Definition IncidentStatusUpdateOne_ClearModifiedAt (c : IncidentStatusUpdateOne) : IncidentStatusUpdateOne :=
  c <| IncidentStatusUpdateOne_mutation ::= IncidentStatusMutation_ClearModifiedAt |>.
Definition IncidentStatusUpdateOne_SetDeletedAt (v : Z) (c : IncidentStatusUpdateOne)
    : IncidentStatusUpdateOne :=
  c <| IncidentStatusUpdateOne_mutation ::= IncidentStatusMutation_SetDeletedAt v |>.
Definition IncidentStatusUpdateOne_SetNillableDeletedAt (v : option Z) (c : IncidentStatusUpdateOne)
    : IncidentStatusUpdateOne :=
  match v with Some v => IncidentStatusUpdateOne_SetDeletedAt v c | None => c end.
Definition IncidentStatusUpdateOne_ClearDeletedAt (c : IncidentStatusUpdateOne) : IncidentStatusUpdateOne :=
  c <| IncidentStatusUpdateOne_mutation ::= IncidentStatusMutation_ClearDeletedAt |>.
Definition IncidentStatusUpdateOne_SetCreatedBy (v : string) (c : IncidentStatusUpdateOne)
    : IncidentStatusUpdateOne :=
  c <| IncidentStatusUpdateOne_mutation ::= IncidentStatusMutation_SetCreatedBy v |>.
Definition IncidentStatusUpdateOne_SetNillableCreatedBy (v : option string) (c : IncidentStatusUpdateOne)
    : IncidentStatusUpdateOne :=
  match v with Some v => IncidentStatusUpdateOne_SetCreatedBy v c | None => c end.
Definition IncidentStatusUpdateOne_ClearCreatedBy (c : IncidentStatusUpdateOne) : IncidentStatusUpdateOne :=
  c <| IncidentStatusUpdateOne_mutation ::= IncidentStatusMutation_ClearCreatedBy |>.
Definition IncidentStatusUpdateOne_SetModifiedBy (v : string) (c : IncidentStatusUpdateOne)
    : IncidentStatusUpdateOne :=
  c <| IncidentStatusUpdateOne_mutation ::= IncidentStatusMutation_SetModifiedBy v |>.
Definition IncidentStatusUpdateOne_SetNillableModifiedBy (v : option string) (c : IncidentStatusUpdateOne)
    : IncidentStatusUpdateOne :=
  match v with Some v => IncidentStatusUpdateOne_SetModifiedBy v c | None => c end.
Definition IncidentStatusUpdateOne_ClearModifiedBy (c : IncidentStatusUpdateOne) : IncidentStatusUpdateOne :=
  c <| IncidentStatusUpdateOne_mutation ::= IncidentStatusMutation_ClearModifiedBy |>.
Definition IncidentStatusUpdateOne_Mutation (c : IncidentStatusUpdateOne) : IncidentStatusMutation :=
  IncidentStatusUpdateOne_mutation c.
Definition IncidentStatusUpdateOne_Where (ps : list sql_pred) (c : IncidentStatusUpdateOne)
    : IncidentStatusUpdateOne :=
  c <| IncidentStatusUpdateOne_mutation ::= IncidentStatusMutation_Where ps |>.
Definition IncidentStatusUpdateOne_Select (field : string) (fields : list string) (c : IncidentStatusUpdateOne)
    : IncidentStatusUpdateOne :=
  c <| IncidentStatusUpdateOne_fields := field :: fields |>.
Definition IncidentStatusUpdateOne_check (c : IncidentStatusUpdateOne) : option ent_error :=
  let m := IncidentStatusUpdateOne_mutation c in
  first_error [validated "IncidentStatus" "text" incidentstatus_TextValidator (IncidentStatusMutation_Text m);
    validated "IncidentStatus" "status" incidentstatus_StatusValidator (IncidentStatusMutation_Status m)].
Definition IncidentStatusUpdateOne_spec (c : IncidentStatusUpdateOne) (id : Z) (columns : list string)
    : UpdateSpec :=
  let m := IncidentStatusUpdateOne_mutation c in
  mkUpdateSpec incidentstatus_Table columns (Some id) (sm_predicates m)
    (set_fields
    [(incidentstatus_FieldIncidentID, VInt <$> IncidentStatusMutation_IncidentID m);
     (incidentstatus_FieldTimestamp, VTime <$> IncidentStatusMutation_Timestamp m);
     (incidentstatus_FieldText, VString <$> IncidentStatusMutation_Text m);
     (incidentstatus_FieldStatus, VString <$> IncidentStatusMutation_Status m);
     (incidentstatus_FieldCreatedAt, VTime <$> IncidentStatusMutation_CreatedAt m);
     (incidentstatus_FieldModifiedAt, VTime <$> IncidentStatusMutation_ModifiedAt m);
     (incidentstatus_FieldDeletedAt, VTime <$> IncidentStatusMutation_DeletedAt m);
     (incidentstatus_FieldCreatedBy, VString <$> IncidentStatusMutation_CreatedBy m);
     (incidentstatus_FieldModifiedBy, VString <$> IncidentStatusMutation_ModifiedBy m)])
    (add_fields [(incidentstatus_FieldIncidentID, IncidentStatusMutation_AddedIncidentID m)])
    (collect
    [(incidentstatus_FieldIncidentID, IncidentStatusMutation_IncidentIDCleared m);
     (incidentstatus_FieldCreatedAt, IncidentStatusMutation_CreatedAtCleared m);
     (incidentstatus_FieldModifiedAt, IncidentStatusMutation_ModifiedAtCleared m);
     (incidentstatus_FieldDeletedAt, IncidentStatusMutation_DeletedAtCleared m);
     (incidentstatus_FieldCreatedBy, IncidentStatusMutation_CreatedByCleared m);
     (incidentstatus_FieldModifiedBy, IncidentStatusMutation_ModifiedByCleared m)])
    ([])
    ([]).
Definition IncidentStatusUpdateOne_sqlSave `{SqlGraph DB} (c : IncidentStatusUpdateOne) (db : DB)
    : (ent_error + IncidentStatusNode) * IncidentStatusUpdateOne * DB :=
  match IncidentStatusUpdateOne_check c with
  | Some e => (inl e, c, db)
  | None =>
      match IncidentStatusMutation_ID (IncidentStatusUpdateOne_mutation c) with
      | None => (inl (missing_id "IncidentStatus"), c, db)
      | Some id =>
          match selected incidentstatus_Columns incidentstatus_FieldID incidentstatus_ValidColumn
            (IncidentStatusUpdateOne_fields c) with
          | inl e => (inl e, c, db)
          | inr columns =>
              match g_UpdateNode (IncidentStatusUpdateOne_spec c id columns)
                      (λ row, IncidentStatus_assignValues columns (zip_with scan (IncidentStatus_scanValues
                        columns) row) newIncidentStatusNode) db with
              | (inl e, db) => (inl (update_error incidentstatus_Label e), c, db)
              | (inr node, db) => (inr node, c <| IncidentStatusUpdateOne_mutation ::= (λ m, m
                <| sm_done := true |>) |>, db)
              end
          end
      end
  end.
Definition IncidentStatusUpdateOne_Save `{SqlGraph DB} (c : IncidentStatusUpdateOne) (db : DB)
    : (ent_error + IncidentStatusNode) * IncidentStatusUpdateOne * DB :=
  withHooks (λ e, (inl e, c, db))
    (λ m, IncidentStatusUpdateOne_sqlSave (c
      <| IncidentStatusUpdateOne_mutation := m |>) db) (IncidentStatusUpdateOne_mutation c) [].
Definition IncidentStatusUpdateOne_Exec `{SqlGraph DB} (c : IncidentStatusUpdateOne) (db : DB)
    : (ent_error + unit) * IncidentStatusUpdateOne * DB :=
  let '(r, c, db) := IncidentStatusUpdateOne_Save c db in (match r with inl e => inl e | inr _ => inr tt end,
    c, db).

(** ** [IncidentStatusDelete] *)

Record IncidentStatusDelete := mkIncidentStatusDelete { IncidentStatusDelete_mutation : IncidentStatusMutation }.
Definition IncidentStatusDelete_Where (ps : list sql_pred) (c : IncidentStatusDelete) : IncidentStatusDelete :=
  c <| IncidentStatusDelete_mutation ::= IncidentStatusMutation_Where ps |>.
Definition IncidentStatusDelete_sqlExec `{SqlGraph DB} (c : IncidentStatusDelete) (db : DB)
    : (ent_error + Z) * IncidentStatusDelete * DB :=
  let '(r, db) := g_DeleteNodes incidentstatus_Table (sm_predicates (IncidentStatusDelete_mutation c)) db in
  (match r with inl e => inl (create_error e) | inr n => inr n end,
   c <| IncidentStatusDelete_mutation ::= (λ m, m <| sm_done := true |>) |>, db).
Definition IncidentStatusDelete_Exec `{SqlGraph DB} (c : IncidentStatusDelete) (db : DB)
    : (ent_error + Z) * IncidentStatusDelete * DB :=
  withHooks (λ e, (inl e, c, db))
    (λ m, IncidentStatusDelete_sqlExec (c
      <| IncidentStatusDelete_mutation := m |>) db) (IncidentStatusDelete_mutation c) [].
Definition IncidentStatusDeleteOne_Where (ps : list sql_pred) (c : IncidentStatusDelete)
    : IncidentStatusDelete :=
  IncidentStatusDelete_Where ps c.
Definition IncidentStatusDeleteOne_Exec `{SqlGraph DB} (c : IncidentStatusDelete) (db : DB)
    : (ent_error + unit) * IncidentStatusDelete * DB :=
  let '(r, c, db) := IncidentStatusDelete_Exec c db in
  (match r with inl e => inl e | inr n => if n =? 0 then inl (EntNotFound incidentstatus_Label) else inr tt
    end, c, db).

(** ** The client: fresh builders *)

Definition IncidentStatusClient_Create (c : config) : IncidentStatusCreate :=
  mkIncidentStatusCreate (newIncidentStatusMutation c OpCreate []).
Definition IncidentStatusClient_Update (c : config) : IncidentStatusUpdate :=
  mkIncidentStatusUpdate (newIncidentStatusMutation c OpUpdate []).
Definition IncidentStatusClient_UpdateOne (c : config) (node : IncidentStatusNode) : IncidentStatusUpdateOne :=
  mkIncidentStatusUpdateOne (newIncidentStatusMutation c OpUpdateOne [withIncidentStatus node]) [].
Definition IncidentStatusClient_UpdateOneID (c : config) (id : Z) : IncidentStatusUpdateOne :=
  mkIncidentStatusUpdateOne (newIncidentStatusMutation c OpUpdateOne [withIncidentStatusID id]) [].
Definition IncidentStatusClient_Delete (c : config) : IncidentStatusDelete :=
  mkIncidentStatusDelete (newIncidentStatusMutation c OpDelete []).
Definition IncidentStatusClient_DeleteOneID (c : config) (id : Z) : IncidentStatusDelete :=
  (IncidentStatusDelete_Where [FieldEQ incidentstatus_FieldID (VInt id)] (IncidentStatusClient_Delete c))
    <| IncidentStatusDelete_mutation ::= (λ m, m <| sm_id := Some id |> <| sm_op := OpDeleteOne |>) |>.
Definition IncidentStatusClient_DeleteOne (c : config) (node : IncidentStatusNode) : IncidentStatusDelete :=
  IncidentStatusClient_DeleteOneID c (sn_ID node).
