(* ===== verification/EntNotificationOutboxBuild.v ===== *)
(** * The builders of the entity [NotificationOutbox]

    Scanning ([ent/notificationoutbox.go]) and the create, update and delete builders
    ([ent/notificationoutbox_create.go], [ent/notificationoutbox_update.go], [ent/notificationoutbox_delete.go]).
    A builder carries its mutation; no hook is registered.  The options for conflicts
    ([OnConflict] and the upsert builders) and bulk creation are left out: nothing uses them. *)

From S2P Require Import Prelude GoStrings GoTime Errors Models EntCore EntComponent EntComponentAttr EntIncident EntIncidentStatus EntNotificationOutbox.
Local Open Scope Z_scope.

(** ** Scanning *)

Definition NotificationOutbox_scanValues (columns : list string) : list scan_kind :=
  (λ c, switch c
    [(notificationoutbox_FieldPayload, SBytes); (notificationoutbox_FieldID, SInt64);
      (notificationoutbox_FieldIncidentID, SInt64); (notificationoutbox_FieldAttempts, SInt64);
      (notificationoutbox_FieldKind, SString); (notificationoutbox_FieldRecipient, SString);
      (notificationoutbox_FieldChangeID, SString); (notificationoutbox_FieldDedupKey, SString);
      (notificationoutbox_FieldStatus, SString); (notificationoutbox_FieldLockedBy, SString);
      (notificationoutbox_FieldLastError, SString); (notificationoutbox_FieldNextAttemptAt, STime);
      (notificationoutbox_FieldLockedAt, STime); (notificationoutbox_FieldCreatedAt, STime);
      (notificationoutbox_FieldUpdatedAt, STime)] SUnknown) <$> columns.
Definition NotificationOutbox_assign (column : string) (v : scanned) (n : NotificationOutboxNode)
    : scan_err + NotificationOutboxNode :=
  switch column
  [(notificationoutbox_FieldID, assign_id v "id" (λ v n, n <| nn_ID := v |>) n);
   (notificationoutbox_FieldKind, assign_string v "kind" (λ v n, n <| nn_Kind := v |>) n);
   (notificationoutbox_FieldIncidentID, assign_int v "incident_id" (λ v n, n <| nn_IncidentID := v |>) n);
   (notificationoutbox_FieldRecipient, assign_string v "recipient" (λ v n, n <| nn_Recipient := v |>) n);
   (notificationoutbox_FieldPayload, assign_bytes v "payload" (λ v n, n <| nn_Payload := v |>) n);
   (notificationoutbox_FieldChangeID, assign_string v "change_id" (λ v n, n <| nn_ChangeID := v |>) n);
   (notificationoutbox_FieldDedupKey, assign_string v "dedup_key" (λ v n, n <| nn_DedupKey := v |>) n);
   (notificationoutbox_FieldStatus, assign_string v "status" (λ v n, n <| nn_Status := v |>) n);
   (notificationoutbox_FieldAttempts, assign_int v "attempts" (λ v n, n <| nn_Attempts := v |>) n);
   (notificationoutbox_FieldNextAttemptAt, assign_time v "next_attempt_at" (λ v n, n
     <| nn_NextAttemptAt := v |>) n);
   (notificationoutbox_FieldLockedBy, assign_string v "locked_by" (λ v n, n <| nn_LockedBy := Some v |>) n);
   (notificationoutbox_FieldLockedAt, assign_time v "locked_at" (λ v n, n <| nn_LockedAt := v |>) n);
   (notificationoutbox_FieldLastError, assign_string v "last_error" (λ v n, n <| nn_LastError := Some v |>) n);
   (notificationoutbox_FieldCreatedAt, assign_time v "created_at" (λ v n, n <| nn_CreatedAt := v |>) n);
   (notificationoutbox_FieldUpdatedAt, assign_time v "updated_at" (λ v n, n <| nn_UpdatedAt := v |>) n)]
  (inr n).
Definition NotificationOutbox_assignValues (columns : list string) (values : list scanned) (n : NotificationOutboxNode) : scan_err + NotificationOutboxNode :=
  assign_all NotificationOutbox_assign columns values n.

(** ** [NotificationOutboxCreate] *)

Record NotificationOutboxCreate := mkNotificationOutboxCreate { NotificationOutboxCreate_mutation : NotificationOutboxMutation }.
Definition NotificationOutboxCreate_SetKind (v : string) (c : NotificationOutboxCreate)
    : NotificationOutboxCreate :=
  c <| NotificationOutboxCreate_mutation ::= NotificationOutboxMutation_SetKind v |>.
Definition NotificationOutboxCreate_SetIncidentID (v : Z) (c : NotificationOutboxCreate)
    : NotificationOutboxCreate :=
  c <| NotificationOutboxCreate_mutation ::= NotificationOutboxMutation_SetIncidentID v |>.
Definition NotificationOutboxCreate_SetRecipient (v : string) (c : NotificationOutboxCreate)
    : NotificationOutboxCreate :=
  c <| NotificationOutboxCreate_mutation ::= NotificationOutboxMutation_SetRecipient v |>.
Definition NotificationOutboxCreate_SetPayload (v : gmap string json_value) (c : NotificationOutboxCreate)
    : NotificationOutboxCreate :=
  c <| NotificationOutboxCreate_mutation ::= NotificationOutboxMutation_SetPayload v |>.
Definition NotificationOutboxCreate_SetChangeID (v : string) (c : NotificationOutboxCreate)
    : NotificationOutboxCreate :=
  c <| NotificationOutboxCreate_mutation ::= NotificationOutboxMutation_SetChangeID v |>.
Definition NotificationOutboxCreate_SetDedupKey (v : string) (c : NotificationOutboxCreate)
    : NotificationOutboxCreate :=
  c <| NotificationOutboxCreate_mutation ::= NotificationOutboxMutation_SetDedupKey v |>.
Definition NotificationOutboxCreate_SetStatus (v : string) (c : NotificationOutboxCreate)
    : NotificationOutboxCreate :=
  c <| NotificationOutboxCreate_mutation ::= NotificationOutboxMutation_SetStatus v |>.
Definition NotificationOutboxCreate_SetNillableStatus (v : option string) (c : NotificationOutboxCreate)
    : NotificationOutboxCreate :=
  match v with Some v => NotificationOutboxCreate_SetStatus v c | None => c end.
Definition NotificationOutboxCreate_SetAttempts (v : Z) (c : NotificationOutboxCreate)
    : NotificationOutboxCreate :=
  c <| NotificationOutboxCreate_mutation ::= NotificationOutboxMutation_SetAttempts v |>.
Definition NotificationOutboxCreate_SetNillableAttempts (v : option Z) (c : NotificationOutboxCreate)
    : NotificationOutboxCreate :=
  match v with Some v => NotificationOutboxCreate_SetAttempts v c | None => c end.
Definition NotificationOutboxCreate_SetNextAttemptAt (v : Z) (c : NotificationOutboxCreate)
    : NotificationOutboxCreate :=
  c <| NotificationOutboxCreate_mutation ::= NotificationOutboxMutation_SetNextAttemptAt v |>.
Definition NotificationOutboxCreate_SetNillableNextAttemptAt (v : option Z) (c : NotificationOutboxCreate)
    : NotificationOutboxCreate :=
  match v with Some v => NotificationOutboxCreate_SetNextAttemptAt v c | None => c end.
Definition NotificationOutboxCreate_SetLockedBy (v : string) (c : NotificationOutboxCreate)
    : NotificationOutboxCreate :=
  c <| NotificationOutboxCreate_mutation ::= NotificationOutboxMutation_SetLockedBy v |>.
Definition NotificationOutboxCreate_SetNillableLockedBy (v : option string) (c : NotificationOutboxCreate)
    : NotificationOutboxCreate :=
  match v with Some v => NotificationOutboxCreate_SetLockedBy v c | None => c end.
Definition NotificationOutboxCreate_SetLockedAt (v : Z) (c : NotificationOutboxCreate)
    : NotificationOutboxCreate :=
  c <| NotificationOutboxCreate_mutation ::= NotificationOutboxMutation_SetLockedAt v |>.
Definition NotificationOutboxCreate_SetNillableLockedAt (v : option Z) (c : NotificationOutboxCreate)
    : NotificationOutboxCreate :=
  match v with Some v => NotificationOutboxCreate_SetLockedAt v c | None => c end.
Definition NotificationOutboxCreate_SetLastError (v : string) (c : NotificationOutboxCreate)
    : NotificationOutboxCreate :=
  c <| NotificationOutboxCreate_mutation ::= NotificationOutboxMutation_SetLastError v |>.
Definition NotificationOutboxCreate_SetNillableLastError (v : option string) (c : NotificationOutboxCreate)
    : NotificationOutboxCreate :=
  match v with Some v => NotificationOutboxCreate_SetLastError v c | None => c end.
Definition NotificationOutboxCreate_SetCreatedAt (v : Z) (c : NotificationOutboxCreate)
    : NotificationOutboxCreate :=
  c <| NotificationOutboxCreate_mutation ::= NotificationOutboxMutation_SetCreatedAt v |>.
Definition NotificationOutboxCreate_SetUpdatedAt (v : Z) (c : NotificationOutboxCreate)
    : NotificationOutboxCreate :=
  c <| NotificationOutboxCreate_mutation ::= NotificationOutboxMutation_SetUpdatedAt v |>.
Definition NotificationOutboxCreate_SetID (v : Z) (c : NotificationOutboxCreate) : NotificationOutboxCreate :=
  c <| NotificationOutboxCreate_mutation ::= NotificationOutboxMutation_SetID v |>.
Definition NotificationOutboxCreate_SetIncident (v : IncidentNode) (c : NotificationOutboxCreate)
    : NotificationOutboxCreate :=
  NotificationOutboxCreate_SetIncidentID (in_ID v) c.
Definition NotificationOutboxCreate_Mutation (c : NotificationOutboxCreate) : NotificationOutboxMutation :=
  NotificationOutboxCreate_mutation c.
Definition NotificationOutboxCreate_defaults (c : NotificationOutboxCreate) : NotificationOutboxCreate :=
  c <| NotificationOutboxCreate_mutation ::= (λ m, foldl (λ m f, f m) m
    [(λ m, if some (NotificationOutboxMutation_Status m) then m else NotificationOutboxMutation_SetStatus
      notificationoutbox_DefaultStatus m);
     (λ m, if some (NotificationOutboxMutation_Attempts m) then m else NotificationOutboxMutation_SetAttempts
       notificationoutbox_DefaultAttempts m)]) |>.
Definition NotificationOutboxCreate_check (c : NotificationOutboxCreate) : option ent_error :=
  let m := NotificationOutboxCreate_mutation c in
  first_error [required "NotificationOutbox" "kind" (NotificationOutboxMutation_Kind m);
    validated "NotificationOutbox" "kind" notificationoutbox_KindValidator (NotificationOutboxMutation_Kind m);
    required "NotificationOutbox" "incident_id" (NotificationOutboxMutation_IncidentID m);
    required "NotificationOutbox" "recipient" (NotificationOutboxMutation_Recipient m);
    validated "NotificationOutbox" "recipient" notificationoutbox_RecipientValidator
      (NotificationOutboxMutation_Recipient m);
    required "NotificationOutbox" "payload" (NotificationOutboxMutation_Payload m);
    required "NotificationOutbox" "change_id" (NotificationOutboxMutation_ChangeID m);
    validated "NotificationOutbox" "change_id" notificationoutbox_ChangeIDValidator
      (NotificationOutboxMutation_ChangeID m);
    required "NotificationOutbox" "dedup_key" (NotificationOutboxMutation_DedupKey m);
    validated "NotificationOutbox" "dedup_key" notificationoutbox_DedupKeyValidator
      (NotificationOutboxMutation_DedupKey m);
    required "NotificationOutbox" "status" (NotificationOutboxMutation_Status m);
    required "NotificationOutbox" "attempts" (NotificationOutboxMutation_Attempts m);
    required_edge "NotificationOutbox" "incident" (NotificationOutboxMutation_IncidentIDs m)].
Definition NotificationOutboxCreate_createSpec (c : NotificationOutboxCreate)
    : NotificationOutboxNode * CreateSpec :=
  let m := NotificationOutboxCreate_mutation c in
  (foldl (λ n f, f n) newNotificationOutboxNode
    [assign (NotificationOutboxMutation_ID m) (λ v n, n <| nn_ID := v |>);
     assign (NotificationOutboxMutation_Kind m) (λ v n, n <| nn_Kind := v |>);
     assign (NotificationOutboxMutation_Recipient m) (λ v n, n <| nn_Recipient := v |>);
     assign (NotificationOutboxMutation_Payload m) (λ v n, n <| nn_Payload := v |>);
     assign (NotificationOutboxMutation_ChangeID m) (λ v n, n <| nn_ChangeID := v |>);
     assign (NotificationOutboxMutation_DedupKey m) (λ v n, n <| nn_DedupKey := v |>);
     assign (NotificationOutboxMutation_Status m) (λ v n, n <| nn_Status := v |>);
     assign (NotificationOutboxMutation_Attempts m) (λ v n, n <| nn_Attempts := v |>);
     assign (NotificationOutboxMutation_NextAttemptAt m) (λ v n, n <| nn_NextAttemptAt := v |>);
     assign (NotificationOutboxMutation_LockedBy m) (λ v n, n <| nn_LockedBy := Some v |>);
     assign (NotificationOutboxMutation_LockedAt m) (λ v n, n <| nn_LockedAt := v |>);
     assign (NotificationOutboxMutation_LastError m) (λ v n, n <| nn_LastError := Some v |>);
     assign (NotificationOutboxMutation_CreatedAt m) (λ v n, n <| nn_CreatedAt := v |>);
     assign (NotificationOutboxMutation_UpdatedAt m) (λ v n, n <| nn_UpdatedAt := v |>);
     assign (head (NotificationOutboxMutation_IncidentIDs m)) (λ v n, n <| nn_IncidentID := v |>)],
   mkCreateSpec notificationoutbox_Table (NotificationOutboxMutation_ID m)
    (set_fields
    [(notificationoutbox_FieldKind, VString <$> NotificationOutboxMutation_Kind m);
     (notificationoutbox_FieldRecipient, VString <$> NotificationOutboxMutation_Recipient m);
     (notificationoutbox_FieldPayload, VJSON <$> NotificationOutboxMutation_Payload m);
     (notificationoutbox_FieldChangeID, VString <$> NotificationOutboxMutation_ChangeID m);
     (notificationoutbox_FieldDedupKey, VString <$> NotificationOutboxMutation_DedupKey m);
     (notificationoutbox_FieldStatus, VString <$> NotificationOutboxMutation_Status m);
     (notificationoutbox_FieldAttempts, VInt <$> NotificationOutboxMutation_Attempts m);
     (notificationoutbox_FieldNextAttemptAt, VTime <$> NotificationOutboxMutation_NextAttemptAt m);
     (notificationoutbox_FieldLockedBy, VString <$> NotificationOutboxMutation_LockedBy m);
     (notificationoutbox_FieldLockedAt, VTime <$> NotificationOutboxMutation_LockedAt m);
     (notificationoutbox_FieldLastError, VString <$> NotificationOutboxMutation_LastError m);
     (notificationoutbox_FieldCreatedAt, VTime <$> NotificationOutboxMutation_CreatedAt m);
     (notificationoutbox_FieldUpdatedAt, VTime <$> NotificationOutboxMutation_UpdatedAt m)])
    (edge_to (NotificationOutboxMutation_IncidentIDs m) M2O true notificationoutbox_IncidentTable
      [notificationoutbox_IncidentColumn])).
Definition NotificationOutboxCreate_sqlSave `{SqlGraph DB} (c : NotificationOutboxCreate) (db : DB)
    : (ent_error + NotificationOutboxNode) * NotificationOutboxCreate * DB :=
  match NotificationOutboxCreate_check c with
  | Some e => (inl e, c, db)
  | None =>
      let '(node, spec) := NotificationOutboxCreate_createSpec c in
      match g_CreateNode spec db with
      | (inl e, db) => (inl (create_error e), c, db)
      | (inr id, db) => (inr (node <| nn_ID := id |>),
                         c <| NotificationOutboxCreate_mutation ::= (λ m, m <| nm_id := Some id |>
                           <| nm_done := true |>) |>, db)
      end
  end.
Definition NotificationOutboxCreate_Save `{SqlGraph DB} (c : NotificationOutboxCreate) (db : DB)
    : (ent_error + NotificationOutboxNode) * NotificationOutboxCreate * DB :=
  let c := NotificationOutboxCreate_defaults c in
  withHooks (λ e, (inl e, c, db))
    (λ m, NotificationOutboxCreate_sqlSave (c <| NotificationOutboxCreate_mutation := m |>) db)
    (NotificationOutboxCreate_mutation c) [].
Definition NotificationOutboxCreate_Exec `{SqlGraph DB} (c : NotificationOutboxCreate) (db : DB)
    : (ent_error + unit) * NotificationOutboxCreate * DB :=
  let '(r, c, db) := NotificationOutboxCreate_Save c db in (match r with inl e => inl e | inr _ => inr tt
    end, c, db).

(** ** [NotificationOutboxUpdate] *)

Record NotificationOutboxUpdate := mkNotificationOutboxUpdate { NotificationOutboxUpdate_mutation : NotificationOutboxMutation }.
Definition NotificationOutboxUpdate_Where (ps : list sql_pred) (c : NotificationOutboxUpdate)
    : NotificationOutboxUpdate :=
  c <| NotificationOutboxUpdate_mutation ::= NotificationOutboxMutation_Where ps |>.
Definition NotificationOutboxUpdate_SetKind (v : string) (c : NotificationOutboxUpdate)
    : NotificationOutboxUpdate :=
  c <| NotificationOutboxUpdate_mutation ::= NotificationOutboxMutation_SetKind v |>.
Definition NotificationOutboxUpdate_SetNillableKind (v : option string) (c : NotificationOutboxUpdate)
    : NotificationOutboxUpdate :=
  match v with Some v => NotificationOutboxUpdate_SetKind v c | None => c end.
Definition NotificationOutboxUpdate_SetIncidentID (v : Z) (c : NotificationOutboxUpdate)
    : NotificationOutboxUpdate :=
  c <| NotificationOutboxUpdate_mutation ::= NotificationOutboxMutation_SetIncidentID v |>.
Definition NotificationOutboxUpdate_SetNillableIncidentID (v : option Z) (c : NotificationOutboxUpdate)
    : NotificationOutboxUpdate :=
  match v with Some v => NotificationOutboxUpdate_SetIncidentID v c | None => c end.
Definition NotificationOutboxUpdate_SetRecipient (v : string) (c : NotificationOutboxUpdate)
    : NotificationOutboxUpdate :=
  c <| NotificationOutboxUpdate_mutation ::= NotificationOutboxMutation_SetRecipient v |>.
Definition NotificationOutboxUpdate_SetNillableRecipient (v : option string) (c : NotificationOutboxUpdate)
    : NotificationOutboxUpdate :=
  match v with Some v => NotificationOutboxUpdate_SetRecipient v c | None => c end.
Definition NotificationOutboxUpdate_SetPayload (v : gmap string json_value) (c : NotificationOutboxUpdate)
    : NotificationOutboxUpdate :=
  c <| NotificationOutboxUpdate_mutation ::= NotificationOutboxMutation_SetPayload v |>.
Definition NotificationOutboxUpdate_SetChangeID (v : string) (c : NotificationOutboxUpdate)
    : NotificationOutboxUpdate :=
  c <| NotificationOutboxUpdate_mutation ::= NotificationOutboxMutation_SetChangeID v |>.
Definition NotificationOutboxUpdate_SetNillableChangeID (v : option string) (c : NotificationOutboxUpdate)
    : NotificationOutboxUpdate :=
  match v with Some v => NotificationOutboxUpdate_SetChangeID v c | None => c end.
Definition NotificationOutboxUpdate_SetDedupKey (v : string) (c : NotificationOutboxUpdate)
    : NotificationOutboxUpdate :=
  c <| NotificationOutboxUpdate_mutation ::= NotificationOutboxMutation_SetDedupKey v |>.
Definition NotificationOutboxUpdate_SetNillableDedupKey (v : option string) (c : NotificationOutboxUpdate)
    : NotificationOutboxUpdate :=
  match v with Some v => NotificationOutboxUpdate_SetDedupKey v c | None => c end.
Definition NotificationOutboxUpdate_SetStatus (v : string) (c : NotificationOutboxUpdate)
    : NotificationOutboxUpdate :=
  c <| NotificationOutboxUpdate_mutation ::= NotificationOutboxMutation_SetStatus v |>.
Definition NotificationOutboxUpdate_SetNillableStatus (v : option string) (c : NotificationOutboxUpdate)
    : NotificationOutboxUpdate :=
  match v with Some v => NotificationOutboxUpdate_SetStatus v c | None => c end.
Definition NotificationOutboxUpdate_SetAttempts (v : Z) (c : NotificationOutboxUpdate)
    : NotificationOutboxUpdate :=
  c <| NotificationOutboxUpdate_mutation ::= (λ m, NotificationOutboxMutation_SetAttempts v
    (NotificationOutboxMutation_ResetAttempts m)) |>.
Definition NotificationOutboxUpdate_SetNillableAttempts (v : option Z) (c : NotificationOutboxUpdate)
    : NotificationOutboxUpdate :=
  match v with Some v => NotificationOutboxUpdate_SetAttempts v c | None => c end.
Definition NotificationOutboxUpdate_AddAttempts (v : Z) (c : NotificationOutboxUpdate)
    : NotificationOutboxUpdate :=
  c <| NotificationOutboxUpdate_mutation ::= NotificationOutboxMutation_AddAttempts v |>.
Definition NotificationOutboxUpdate_SetNextAttemptAt (v : Z) (c : NotificationOutboxUpdate)
    : NotificationOutboxUpdate :=
  c <| NotificationOutboxUpdate_mutation ::= NotificationOutboxMutation_SetNextAttemptAt v |>.
Definition NotificationOutboxUpdate_SetNillableNextAttemptAt (v : option Z) (c : NotificationOutboxUpdate)
    : NotificationOutboxUpdate :=
  match v with Some v => NotificationOutboxUpdate_SetNextAttemptAt v c | None => c end.
Definition NotificationOutboxUpdate_ClearNextAttemptAt (c : NotificationOutboxUpdate)
    : NotificationOutboxUpdate :=
  c <| NotificationOutboxUpdate_mutation ::= NotificationOutboxMutation_ClearNextAttemptAt |>.
Definition NotificationOutboxUpdate_SetLockedBy (v : string) (c : NotificationOutboxUpdate)
    : NotificationOutboxUpdate :=
  c <| NotificationOutboxUpdate_mutation ::= NotificationOutboxMutation_SetLockedBy v |>.
Definition NotificationOutboxUpdate_SetNillableLockedBy (v : option string) (c : NotificationOutboxUpdate)
    : NotificationOutboxUpdate :=
  match v with Some v => NotificationOutboxUpdate_SetLockedBy v c | None => c end.
Definition NotificationOutboxUpdate_ClearLockedBy (c : NotificationOutboxUpdate) : NotificationOutboxUpdate :=
  c <| NotificationOutboxUpdate_mutation ::= NotificationOutboxMutation_ClearLockedBy |>.
Definition NotificationOutboxUpdate_SetLockedAt (v : Z) (c : NotificationOutboxUpdate)
    : NotificationOutboxUpdate :=
  c <| NotificationOutboxUpdate_mutation ::= NotificationOutboxMutation_SetLockedAt v |>.
Definition NotificationOutboxUpdate_SetNillableLockedAt (v : option Z) (c : NotificationOutboxUpdate)
    : NotificationOutboxUpdate :=
  match v with Some v => NotificationOutboxUpdate_SetLockedAt v c | None => c end.
Definition NotificationOutboxUpdate_ClearLockedAt (c : NotificationOutboxUpdate) : NotificationOutboxUpdate :=
  c <| NotificationOutboxUpdate_mutation ::= NotificationOutboxMutation_ClearLockedAt |>.
Definition NotificationOutboxUpdate_SetLastError (v : string) (c : NotificationOutboxUpdate)
    : NotificationOutboxUpdate :=
  c <| NotificationOutboxUpdate_mutation ::= NotificationOutboxMutation_SetLastError v |>.
Definition NotificationOutboxUpdate_SetNillableLastError (v : option string) (c : NotificationOutboxUpdate)
    : NotificationOutboxUpdate :=
  match v with Some v => NotificationOutboxUpdate_SetLastError v c | None => c end.
Definition NotificationOutboxUpdate_ClearLastError (c : NotificationOutboxUpdate) : NotificationOutboxUpdate :=
  c <| NotificationOutboxUpdate_mutation ::= NotificationOutboxMutation_ClearLastError |>.
Definition NotificationOutboxUpdate_SetCreatedAt (v : Z) (c : NotificationOutboxUpdate)
    : NotificationOutboxUpdate :=
  c <| NotificationOutboxUpdate_mutation ::= NotificationOutboxMutation_SetCreatedAt v |>.
Definition NotificationOutboxUpdate_SetNillableCreatedAt (v : option Z) (c : NotificationOutboxUpdate)
    : NotificationOutboxUpdate :=
  match v with Some v => NotificationOutboxUpdate_SetCreatedAt v c | None => c end.
Definition NotificationOutboxUpdate_SetUpdatedAt (v : Z) (c : NotificationOutboxUpdate)
    : NotificationOutboxUpdate :=
  c <| NotificationOutboxUpdate_mutation ::= NotificationOutboxMutation_SetUpdatedAt v |>.
Definition NotificationOutboxUpdate_SetNillableUpdatedAt (v : option Z) (c : NotificationOutboxUpdate)
    : NotificationOutboxUpdate :=
  match v with Some v => NotificationOutboxUpdate_SetUpdatedAt v c | None => c end.
Definition NotificationOutboxUpdate_SetIncident (v : IncidentNode) (c : NotificationOutboxUpdate)
    : NotificationOutboxUpdate :=
  NotificationOutboxUpdate_SetIncidentID (in_ID v) c.
Definition NotificationOutboxUpdate_Mutation (c : NotificationOutboxUpdate) : NotificationOutboxMutation :=
  NotificationOutboxUpdate_mutation c.
Definition NotificationOutboxUpdate_ClearIncident (c : NotificationOutboxUpdate) : NotificationOutboxUpdate :=
  c <| NotificationOutboxUpdate_mutation ::= NotificationOutboxMutation_ClearIncident |>.
Definition NotificationOutboxUpdate_check (c : NotificationOutboxUpdate) : option ent_error :=
  let m := NotificationOutboxUpdate_mutation c in
  first_error [validated "NotificationOutbox" "kind" notificationoutbox_KindValidator
    (NotificationOutboxMutation_Kind m);
    validated "NotificationOutbox" "recipient" notificationoutbox_RecipientValidator
      (NotificationOutboxMutation_Recipient m);
    validated "NotificationOutbox" "change_id" notificationoutbox_ChangeIDValidator
      (NotificationOutboxMutation_ChangeID m);
    validated "NotificationOutbox" "dedup_key" notificationoutbox_DedupKeyValidator
      (NotificationOutboxMutation_DedupKey m);
    unclearable_edge "NotificationOutbox" "incident" (NotificationOutboxMutation_IncidentCleared m)
      (NotificationOutboxMutation_IncidentIDs m)].
Definition NotificationOutboxUpdate_spec (c : NotificationOutboxUpdate) : UpdateSpec :=
  let m := NotificationOutboxUpdate_mutation c in
  mkUpdateSpec notificationoutbox_Table notificationoutbox_Columns None (nm_predicates m)
    (set_fields
    [(notificationoutbox_FieldKind, VString <$> NotificationOutboxMutation_Kind m);
     (notificationoutbox_FieldRecipient, VString <$> NotificationOutboxMutation_Recipient m);
     (notificationoutbox_FieldPayload, VJSON <$> NotificationOutboxMutation_Payload m);
     (notificationoutbox_FieldChangeID, VString <$> NotificationOutboxMutation_ChangeID m);
     (notificationoutbox_FieldDedupKey, VString <$> NotificationOutboxMutation_DedupKey m);
     (notificationoutbox_FieldStatus, VString <$> NotificationOutboxMutation_Status m);
     (notificationoutbox_FieldAttempts, VInt <$> NotificationOutboxMutation_Attempts m);
     (notificationoutbox_FieldNextAttemptAt, VTime <$> NotificationOutboxMutation_NextAttemptAt m);
     (notificationoutbox_FieldLockedBy, VString <$> NotificationOutboxMutation_LockedBy m);
     (notificationoutbox_FieldLockedAt, VTime <$> NotificationOutboxMutation_LockedAt m);
     (notificationoutbox_FieldLastError, VString <$> NotificationOutboxMutation_LastError m);
     (notificationoutbox_FieldCreatedAt, VTime <$> NotificationOutboxMutation_CreatedAt m);
     (notificationoutbox_FieldUpdatedAt, VTime <$> NotificationOutboxMutation_UpdatedAt m)])
    (add_fields [(notificationoutbox_FieldAttempts, NotificationOutboxMutation_AddedAttempts m)])
    (collect
    [(notificationoutbox_FieldNextAttemptAt, NotificationOutboxMutation_NextAttemptAtCleared m);
     (notificationoutbox_FieldLockedBy, NotificationOutboxMutation_LockedByCleared m);
     (notificationoutbox_FieldLockedAt, NotificationOutboxMutation_LockedAtCleared m);
     (notificationoutbox_FieldLastError, NotificationOutboxMutation_LastErrorCleared m)])
    (edge_cleared (NotificationOutboxMutation_IncidentCleared m) M2O true notificationoutbox_IncidentTable
      [notificationoutbox_IncidentColumn])
    (edge_to (NotificationOutboxMutation_IncidentIDs m) M2O true notificationoutbox_IncidentTable
      [notificationoutbox_IncidentColumn]).
Definition NotificationOutboxUpdate_sqlSave `{SqlGraph DB} (c : NotificationOutboxUpdate) (db : DB)
    : (ent_error + Z) * NotificationOutboxUpdate * DB :=
  match NotificationOutboxUpdate_check c with
  | Some e => (inl e, c, db)
  | None =>
      match g_UpdateNodes (NotificationOutboxUpdate_spec c) db with
      | (inl e, db) => (inl (update_error notificationoutbox_Label e), c, db)
      | (inr affected, db) => (inr affected, c <| NotificationOutboxUpdate_mutation ::= (λ m, m
        <| nm_done := true |>) |>, db)
      end
  end.
Definition NotificationOutboxUpdate_Save `{SqlGraph DB} (c : NotificationOutboxUpdate) (db : DB)
    : (ent_error + Z) * NotificationOutboxUpdate * DB :=
  withHooks (λ e, (inl e, c, db))
    (λ m, NotificationOutboxUpdate_sqlSave (c
      <| NotificationOutboxUpdate_mutation := m |>) db) (NotificationOutboxUpdate_mutation c) [].
Definition NotificationOutboxUpdate_Exec `{SqlGraph DB} (c : NotificationOutboxUpdate) (db : DB)
    : (ent_error + unit) * NotificationOutboxUpdate * DB :=
  let '(r, c, db) := NotificationOutboxUpdate_Save c db in (match r with inl e => inl e | inr _ => inr tt
    end, c, db).

(** ** [NotificationOutboxUpdateOne] *)

Record NotificationOutboxUpdateOne := mkNotificationOutboxUpdateOne { NotificationOutboxUpdateOne_mutation : NotificationOutboxMutation; NotificationOutboxUpdateOne_fields : list string }.
Definition NotificationOutboxUpdateOne_SetKind (v : string) (c : NotificationOutboxUpdateOne)
    : NotificationOutboxUpdateOne :=
  c <| NotificationOutboxUpdateOne_mutation ::= NotificationOutboxMutation_SetKind v |>.
Definition NotificationOutboxUpdateOne_SetNillableKind (v : option string) (c : NotificationOutboxUpdateOne)
    : NotificationOutboxUpdateOne :=
  match v with Some v => NotificationOutboxUpdateOne_SetKind v c | None => c end.
Definition NotificationOutboxUpdateOne_SetIncidentID (v : Z) (c : NotificationOutboxUpdateOne)
    : NotificationOutboxUpdateOne :=
  c <| NotificationOutboxUpdateOne_mutation ::= NotificationOutboxMutation_SetIncidentID v |>.
Definition NotificationOutboxUpdateOne_SetNillableIncidentID (v : option Z) (c : NotificationOutboxUpdateOne)
    : NotificationOutboxUpdateOne :=
  match v with Some v => NotificationOutboxUpdateOne_SetIncidentID v c | None => c end.
Definition NotificationOutboxUpdateOne_SetRecipient (v : string) (c : NotificationOutboxUpdateOne)
    : NotificationOutboxUpdateOne :=
  c <| NotificationOutboxUpdateOne_mutation ::= NotificationOutboxMutation_SetRecipient v |>.
Definition NotificationOutboxUpdateOne_SetNillableRecipient (v : option string) (c : NotificationOutboxUpdateOne)
    : NotificationOutboxUpdateOne :=
  match v with Some v => NotificationOutboxUpdateOne_SetRecipient v c | None => c end.
Definition NotificationOutboxUpdateOne_SetPayload (v : gmap string json_value) (c : NotificationOutboxUpdateOne)
    : NotificationOutboxUpdateOne :=
  c <| NotificationOutboxUpdateOne_mutation ::= NotificationOutboxMutation_SetPayload v |>.
Definition NotificationOutboxUpdateOne_SetChangeID (v : string) (c : NotificationOutboxUpdateOne)
    : NotificationOutboxUpdateOne :=
  c <| NotificationOutboxUpdateOne_mutation ::= NotificationOutboxMutation_SetChangeID v |>.
Definition NotificationOutboxUpdateOne_SetNillableChangeID (v : option string) (c : NotificationOutboxUpdateOne)
    : NotificationOutboxUpdateOne :=
  match v with Some v => NotificationOutboxUpdateOne_SetChangeID v c | None => c end.
Definition NotificationOutboxUpdateOne_SetDedupKey (v : string) (c : NotificationOutboxUpdateOne)
    : NotificationOutboxUpdateOne :=
  c <| NotificationOutboxUpdateOne_mutation ::= NotificationOutboxMutation_SetDedupKey v |>.
Definition NotificationOutboxUpdateOne_SetNillableDedupKey (v : option string) (c : NotificationOutboxUpdateOne)
    : NotificationOutboxUpdateOne :=
  match v with Some v => NotificationOutboxUpdateOne_SetDedupKey v c | None => c end.
Definition NotificationOutboxUpdateOne_SetStatus (v : string) (c : NotificationOutboxUpdateOne)
    : NotificationOutboxUpdateOne :=
  c <| NotificationOutboxUpdateOne_mutation ::= NotificationOutboxMutation_SetStatus v |>.
Definition NotificationOutboxUpdateOne_SetNillableStatus (v : option string) (c : NotificationOutboxUpdateOne)
    : NotificationOutboxUpdateOne :=
  match v with Some v => NotificationOutboxUpdateOne_SetStatus v c | None => c end.
Definition NotificationOutboxUpdateOne_SetAttempts (v : Z) (c : NotificationOutboxUpdateOne)
    : NotificationOutboxUpdateOne :=
  c <| NotificationOutboxUpdateOne_mutation ::= (λ m, NotificationOutboxMutation_SetAttempts v
    (NotificationOutboxMutation_ResetAttempts m)) |>.
Definition NotificationOutboxUpdateOne_SetNillableAttempts (v : option Z) (c : NotificationOutboxUpdateOne)
    : NotificationOutboxUpdateOne :=
  match v with Some v => NotificationOutboxUpdateOne_SetAttempts v c | None => c end.
Definition NotificationOutboxUpdateOne_AddAttempts (v : Z) (c : NotificationOutboxUpdateOne)
    : NotificationOutboxUpdateOne :=
  c <| NotificationOutboxUpdateOne_mutation ::= NotificationOutboxMutation_AddAttempts v |>.
Definition NotificationOutboxUpdateOne_SetNextAttemptAt (v : Z) (c : NotificationOutboxUpdateOne)
    : NotificationOutboxUpdateOne :=
  c <| NotificationOutboxUpdateOne_mutation ::= NotificationOutboxMutation_SetNextAttemptAt v |>.
Definition NotificationOutboxUpdateOne_SetNillableNextAttemptAt (v : option Z) (c : NotificationOutboxUpdateOne)
    : NotificationOutboxUpdateOne :=
  match v with Some v => NotificationOutboxUpdateOne_SetNextAttemptAt v c | None => c end.
Definition NotificationOutboxUpdateOne_ClearNextAttemptAt (c : NotificationOutboxUpdateOne)
    : NotificationOutboxUpdateOne :=
  c <| NotificationOutboxUpdateOne_mutation ::= NotificationOutboxMutation_ClearNextAttemptAt |>.
Definition NotificationOutboxUpdateOne_SetLockedBy (v : string) (c : NotificationOutboxUpdateOne)
    : NotificationOutboxUpdateOne :=
  c <| NotificationOutboxUpdateOne_mutation ::= NotificationOutboxMutation_SetLockedBy v |>.
Definition NotificationOutboxUpdateOne_SetNillableLockedBy (v : option string) (c : NotificationOutboxUpdateOne)
    : NotificationOutboxUpdateOne :=
  match v with Some v => NotificationOutboxUpdateOne_SetLockedBy v c | None => c end.
Definition NotificationOutboxUpdateOne_ClearLockedBy (c : NotificationOutboxUpdateOne)
    : NotificationOutboxUpdateOne :=
  c <| NotificationOutboxUpdateOne_mutation ::= NotificationOutboxMutation_ClearLockedBy |>.
Definition NotificationOutboxUpdateOne_SetLockedAt (v : Z) (c : NotificationOutboxUpdateOne)
    : NotificationOutboxUpdateOne :=
  c <| NotificationOutboxUpdateOne_mutation ::= NotificationOutboxMutation_SetLockedAt v |>.
Definition NotificationOutboxUpdateOne_SetNillableLockedAt (v : option Z) (c : NotificationOutboxUpdateOne)
    : NotificationOutboxUpdateOne :=
  match v with Some v => NotificationOutboxUpdateOne_SetLockedAt v c | None => c end.
Definition NotificationOutboxUpdateOne_ClearLockedAt (c : NotificationOutboxUpdateOne)
    : NotificationOutboxUpdateOne :=
  c <| NotificationOutboxUpdateOne_mutation ::= NotificationOutboxMutation_ClearLockedAt |>.
Definition NotificationOutboxUpdateOne_SetLastError (v : string) (c : NotificationOutboxUpdateOne)
    : NotificationOutboxUpdateOne :=
  c <| NotificationOutboxUpdateOne_mutation ::= NotificationOutboxMutation_SetLastError v |>.
Definition NotificationOutboxUpdateOne_SetNillableLastError (v : option string) (c : NotificationOutboxUpdateOne)
    : NotificationOutboxUpdateOne :=
  match v with Some v => NotificationOutboxUpdateOne_SetLastError v c | None => c end.
Definition NotificationOutboxUpdateOne_ClearLastError (c : NotificationOutboxUpdateOne)
    : NotificationOutboxUpdateOne :=
  c <| NotificationOutboxUpdateOne_mutation ::= NotificationOutboxMutation_ClearLastError |>.
Definition NotificationOutboxUpdateOne_SetCreatedAt (v : Z) (c : NotificationOutboxUpdateOne)
    : NotificationOutboxUpdateOne :=
  c <| NotificationOutboxUpdateOne_mutation ::= NotificationOutboxMutation_SetCreatedAt v |>.
Definition NotificationOutboxUpdateOne_SetNillableCreatedAt (v : option Z) (c : NotificationOutboxUpdateOne)
    : NotificationOutboxUpdateOne :=
  match v with Some v => NotificationOutboxUpdateOne_SetCreatedAt v c | None => c end.
Definition NotificationOutboxUpdateOne_SetUpdatedAt (v : Z) (c : NotificationOutboxUpdateOne)
    : NotificationOutboxUpdateOne :=
  c <| NotificationOutboxUpdateOne_mutation ::= NotificationOutboxMutation_SetUpdatedAt v |>.
Definition NotificationOutboxUpdateOne_SetNillableUpdatedAt (v : option Z) (c : NotificationOutboxUpdateOne)
    : NotificationOutboxUpdateOne :=
  match v with Some v => NotificationOutboxUpdateOne_SetUpdatedAt v c | None => c end.
Definition NotificationOutboxUpdateOne_SetIncident (v : IncidentNode) (c : NotificationOutboxUpdateOne)
    : NotificationOutboxUpdateOne :=
  NotificationOutboxUpdateOne_SetIncidentID (in_ID v) c.
Definition NotificationOutboxUpdateOne_Mutation (c : NotificationOutboxUpdateOne)
    : NotificationOutboxMutation :=
  NotificationOutboxUpdateOne_mutation c.
Definition NotificationOutboxUpdateOne_ClearIncident (c : NotificationOutboxUpdateOne)
    : NotificationOutboxUpdateOne :=
  c <| NotificationOutboxUpdateOne_mutation ::= NotificationOutboxMutation_ClearIncident |>.
Definition NotificationOutboxUpdateOne_Where (ps : list sql_pred) (c : NotificationOutboxUpdateOne)
    : NotificationOutboxUpdateOne :=
  c <| NotificationOutboxUpdateOne_mutation ::= NotificationOutboxMutation_Where ps |>.
Definition NotificationOutboxUpdateOne_Select (field : string) (fields : list string) (c : NotificationOutboxUpdateOne)
    : NotificationOutboxUpdateOne :=
  c <| NotificationOutboxUpdateOne_fields := field :: fields |>.
Definition NotificationOutboxUpdateOne_check (c : NotificationOutboxUpdateOne) : option ent_error :=
  let m := NotificationOutboxUpdateOne_mutation c in
  first_error [validated "NotificationOutbox" "kind" notificationoutbox_KindValidator
    (NotificationOutboxMutation_Kind m);
    validated "NotificationOutbox" "recipient" notificationoutbox_RecipientValidator
      (NotificationOutboxMutation_Recipient m);
    validated "NotificationOutbox" "change_id" notificationoutbox_ChangeIDValidator
      (NotificationOutboxMutation_ChangeID m);
    validated "NotificationOutbox" "dedup_key" notificationoutbox_DedupKeyValidator
      (NotificationOutboxMutation_DedupKey m);
    unclearable_edge "NotificationOutbox" "incident" (NotificationOutboxMutation_IncidentCleared m)
      (NotificationOutboxMutation_IncidentIDs m)].
Definition NotificationOutboxUpdateOne_spec (c : NotificationOutboxUpdateOne) (id : Z) (columns : list string)
    : UpdateSpec :=
  let m := NotificationOutboxUpdateOne_mutation c in
  mkUpdateSpec notificationoutbox_Table columns (Some id) (nm_predicates m)
    (set_fields
    [(notificationoutbox_FieldKind, VString <$> NotificationOutboxMutation_Kind m);
     (notificationoutbox_FieldRecipient, VString <$> NotificationOutboxMutation_Recipient m);
     (notificationoutbox_FieldPayload, VJSON <$> NotificationOutboxMutation_Payload m);
     (notificationoutbox_FieldChangeID, VString <$> NotificationOutboxMutation_ChangeID m);
     (notificationoutbox_FieldDedupKey, VString <$> NotificationOutboxMutation_DedupKey m);
     (notificationoutbox_FieldStatus, VString <$> NotificationOutboxMutation_Status m);
     (notificationoutbox_FieldAttempts, VInt <$> NotificationOutboxMutation_Attempts m);
     (notificationoutbox_FieldNextAttemptAt, VTime <$> NotificationOutboxMutation_NextAttemptAt m);
     (notificationoutbox_FieldLockedBy, VString <$> NotificationOutboxMutation_LockedBy m);
     (notificationoutbox_FieldLockedAt, VTime <$> NotificationOutboxMutation_LockedAt m);
     (notificationoutbox_FieldLastError, VString <$> NotificationOutboxMutation_LastError m);
     (notificationoutbox_FieldCreatedAt, VTime <$> NotificationOutboxMutation_CreatedAt m);
     (notificationoutbox_FieldUpdatedAt, VTime <$> NotificationOutboxMutation_UpdatedAt m)])
    (add_fields [(notificationoutbox_FieldAttempts, NotificationOutboxMutation_AddedAttempts m)])
    (collect
    [(notificationoutbox_FieldNextAttemptAt, NotificationOutboxMutation_NextAttemptAtCleared m);
     (notificationoutbox_FieldLockedBy, NotificationOutboxMutation_LockedByCleared m);
     (notificationoutbox_FieldLockedAt, NotificationOutboxMutation_LockedAtCleared m);
     (notificationoutbox_FieldLastError, NotificationOutboxMutation_LastErrorCleared m)])
    (edge_cleared (NotificationOutboxMutation_IncidentCleared m) M2O true notificationoutbox_IncidentTable
      [notificationoutbox_IncidentColumn])
    (edge_to (NotificationOutboxMutation_IncidentIDs m) M2O true notificationoutbox_IncidentTable
      [notificationoutbox_IncidentColumn]).
Definition NotificationOutboxUpdateOne_sqlSave `{SqlGraph DB} (c : NotificationOutboxUpdateOne) (db : DB)
    : (ent_error + NotificationOutboxNode) * NotificationOutboxUpdateOne * DB :=
  match NotificationOutboxUpdateOne_check c with
  | Some e => (inl e, c, db)
  | None =>
      match NotificationOutboxMutation_ID (NotificationOutboxUpdateOne_mutation c) with
      | None => (inl (missing_id "NotificationOutbox"), c, db)
      | Some id =>
          match selected notificationoutbox_Columns notificationoutbox_FieldID notificationoutbox_ValidColumn
            (NotificationOutboxUpdateOne_fields c) with
          | inl e => (inl e, c, db)
          | inr columns =>
              match g_UpdateNode (NotificationOutboxUpdateOne_spec c id columns)
                      (λ row, NotificationOutbox_assignValues columns (zip_with scan
                        (NotificationOutbox_scanValues columns) row) newNotificationOutboxNode) db with
              | (inl e, db) => (inl (update_error notificationoutbox_Label e), c, db)
              | (inr node, db) => (inr node, c <| NotificationOutboxUpdateOne_mutation ::= (λ m, m
                <| nm_done := true |>) |>, db)
              end
          end
      end
  end.
Definition NotificationOutboxUpdateOne_Save `{SqlGraph DB} (c : NotificationOutboxUpdateOne) (db : DB)
    : (ent_error + NotificationOutboxNode) * NotificationOutboxUpdateOne * DB :=
  withHooks (λ e, (inl e, c, db))
    (λ m, NotificationOutboxUpdateOne_sqlSave (c
      <| NotificationOutboxUpdateOne_mutation := m |>) db) (NotificationOutboxUpdateOne_mutation c) [].
Definition NotificationOutboxUpdateOne_Exec `{SqlGraph DB} (c : NotificationOutboxUpdateOne) (db : DB)
    : (ent_error + unit) * NotificationOutboxUpdateOne * DB :=
  let '(r, c, db) := NotificationOutboxUpdateOne_Save c db in (match r with inl e => inl e | inr _ => inr tt
    end, c, db).

(** ** [NotificationOutboxDelete] *)

Record NotificationOutboxDelete := mkNotificationOutboxDelete { NotificationOutboxDelete_mutation : NotificationOutboxMutation }.
Definition NotificationOutboxDelete_Where (ps : list sql_pred) (c : NotificationOutboxDelete)
    : NotificationOutboxDelete :=
  c <| NotificationOutboxDelete_mutation ::= NotificationOutboxMutation_Where ps |>.
Definition NotificationOutboxDelete_sqlExec `{SqlGraph DB} (c : NotificationOutboxDelete) (db : DB)
    : (ent_error + Z) * NotificationOutboxDelete * DB :=
  let '(r, db) := g_DeleteNodes notificationoutbox_Table (nm_predicates (NotificationOutboxDelete_mutation
    c)) db in
  (match r with inl e => inl (create_error e) | inr n => inr n end,
   c <| NotificationOutboxDelete_mutation ::= (λ m, m <| nm_done := true |>) |>, db).
Definition NotificationOutboxDelete_Exec `{SqlGraph DB} (c : NotificationOutboxDelete) (db : DB)
    : (ent_error + Z) * NotificationOutboxDelete * DB :=
  withHooks (λ e, (inl e, c, db))
    (λ m, NotificationOutboxDelete_sqlExec (c
      <| NotificationOutboxDelete_mutation := m |>) db) (NotificationOutboxDelete_mutation c) [].
Definition NotificationOutboxDeleteOne_Where (ps : list sql_pred) (c : NotificationOutboxDelete)
    : NotificationOutboxDelete :=
  NotificationOutboxDelete_Where ps c.
Definition NotificationOutboxDeleteOne_Exec `{SqlGraph DB} (c : NotificationOutboxDelete) (db : DB)
    : (ent_error + unit) * NotificationOutboxDelete * DB :=
  let '(r, c, db) := NotificationOutboxDelete_Exec c db in
  (match r with inl e => inl e | inr n => if n =? 0 then inl (EntNotFound notificationoutbox_Label) else inr
    tt end, c, db).

(** ** The client: fresh builders *)

Definition NotificationOutboxClient_Create (c : config) : NotificationOutboxCreate :=
  mkNotificationOutboxCreate (newNotificationOutboxMutation c OpCreate []).
Definition NotificationOutboxClient_Update (c : config) : NotificationOutboxUpdate :=
  mkNotificationOutboxUpdate (newNotificationOutboxMutation c OpUpdate []).
Definition NotificationOutboxClient_UpdateOne (c : config) (node : NotificationOutboxNode)
    : NotificationOutboxUpdateOne :=
  mkNotificationOutboxUpdateOne (newNotificationOutboxMutation c OpUpdateOne [withNotificationOutbox node]) [].
Definition NotificationOutboxClient_UpdateOneID (c : config) (id : Z) : NotificationOutboxUpdateOne :=
  mkNotificationOutboxUpdateOne (newNotificationOutboxMutation c OpUpdateOne [withNotificationOutboxID id]) [].
Definition NotificationOutboxClient_Delete (c : config) : NotificationOutboxDelete :=
  mkNotificationOutboxDelete (newNotificationOutboxMutation c OpDelete []).
Definition NotificationOutboxClient_DeleteOneID (c : config) (id : Z) : NotificationOutboxDelete :=
  (NotificationOutboxDelete_Where [FieldEQ notificationoutbox_FieldID (VInt id)]
    (NotificationOutboxClient_Delete c))
    <| NotificationOutboxDelete_mutation ::= (λ m, m <| nm_id := Some id |> <| nm_op := OpDeleteOne |>) |>.
Definition NotificationOutboxClient_DeleteOne (c : config) (node : NotificationOutboxNode)
    : NotificationOutboxDelete :=
  NotificationOutboxClient_DeleteOneID c (nn_ID node).
