(* ===== verification/EntWhere.v ===== *)
(** * Predicates of the five entities ([where.go] of each package)

    A predicate is the node it adds to the selector; [EntSpec] evaluates it on a row. *)

From S2P Require Import Prelude GoStrings GoTime Errors Models EntCore EntComponent EntComponentAttr EntIncident EntIncidentStatus EntNotificationOutbox.
Local Open Scope Z_scope.

(** ** [component] *)

Definition component_ID (v : Z) : sql_pred := FieldEQ component_FieldID (VInt v).
Definition component_IDEQ (v : Z) : sql_pred := FieldEQ component_FieldID (VInt v).
Definition component_IDNEQ (v : Z) : sql_pred := FieldNEQ component_FieldID (VInt v).
Definition component_IDIn (vs : list Z) : sql_pred := FieldIn component_FieldID (VInt <$> vs).
Definition component_IDNotIn (vs : list Z) : sql_pred := FieldNotIn component_FieldID (VInt <$> vs).
Definition component_IDGT (v : Z) : sql_pred := FieldGT component_FieldID (VInt v).
Definition component_IDGTE (v : Z) : sql_pred := FieldGTE component_FieldID (VInt v).
Definition component_IDLT (v : Z) : sql_pred := FieldLT component_FieldID (VInt v).
Definition component_IDLTE (v : Z) : sql_pred := FieldLTE component_FieldID (VInt v).
Definition component_Name (v : string) : sql_pred := FieldEQ component_FieldName (VString v).
Definition component_CreatedAt (v : Z) : sql_pred := FieldEQ component_FieldCreatedAt (VTime v).
Definition component_ModifiedAt (v : Z) : sql_pred := FieldEQ component_FieldModifiedAt (VTime v).
Definition component_DeletedAt (v : Z) : sql_pred := FieldEQ component_FieldDeletedAt (VTime v).
Definition component_NameEQ (v : string) : sql_pred := FieldEQ component_FieldName (VString v).
Definition component_NameNEQ (v : string) : sql_pred := FieldNEQ component_FieldName (VString v).
Definition component_NameIn (vs : list string) : sql_pred := FieldIn component_FieldName (VString <$> vs).
Definition component_NameNotIn (vs : list string) : sql_pred := FieldNotIn component_FieldName (VString <$> vs).
Definition component_NameGT (v : string) : sql_pred := FieldGT component_FieldName (VString v).
Definition component_NameGTE (v : string) : sql_pred := FieldGTE component_FieldName (VString v).
Definition component_NameLT (v : string) : sql_pred := FieldLT component_FieldName (VString v).
Definition component_NameLTE (v : string) : sql_pred := FieldLTE component_FieldName (VString v).
Definition component_NameContains (v : string) : sql_pred := FieldContains component_FieldName v.
Definition component_NameHasPrefix (v : string) : sql_pred := FieldHasPrefix component_FieldName v.
Definition component_NameHasSuffix (v : string) : sql_pred := FieldHasSuffix component_FieldName v.
Definition component_NameEqualFold (v : string) : sql_pred := FieldEqualFold component_FieldName v.
Definition component_NameContainsFold (v : string) : sql_pred := FieldContainsFold component_FieldName v.
Definition component_CreatedAtEQ (v : Z) : sql_pred := FieldEQ component_FieldCreatedAt (VTime v).
Definition component_CreatedAtNEQ (v : Z) : sql_pred := FieldNEQ component_FieldCreatedAt (VTime v).
Definition component_CreatedAtIn (vs : list Z) : sql_pred := FieldIn component_FieldCreatedAt (VTime <$> vs).
Definition component_CreatedAtNotIn (vs : list Z) : sql_pred :=
  FieldNotIn component_FieldCreatedAt (VTime <$> vs).
Definition component_CreatedAtGT (v : Z) : sql_pred := FieldGT component_FieldCreatedAt (VTime v).
Definition component_CreatedAtGTE (v : Z) : sql_pred := FieldGTE component_FieldCreatedAt (VTime v).
Definition component_CreatedAtLT (v : Z) : sql_pred := FieldLT component_FieldCreatedAt (VTime v).
Definition component_CreatedAtLTE (v : Z) : sql_pred := FieldLTE component_FieldCreatedAt (VTime v).
Definition component_CreatedAtIsNil : sql_pred := FieldIsNull component_FieldCreatedAt.
Definition component_CreatedAtNotNil : sql_pred := FieldNotNull component_FieldCreatedAt.
Definition component_ModifiedAtEQ (v : Z) : sql_pred := FieldEQ component_FieldModifiedAt (VTime v).
Definition component_ModifiedAtNEQ (v : Z) : sql_pred := FieldNEQ component_FieldModifiedAt (VTime v).
Definition component_ModifiedAtIn (vs : list Z) : sql_pred := FieldIn component_FieldModifiedAt (VTime <$> vs).
Definition component_ModifiedAtNotIn (vs : list Z) : sql_pred :=
  FieldNotIn component_FieldModifiedAt (VTime <$> vs).
Definition component_ModifiedAtGT (v : Z) : sql_pred := FieldGT component_FieldModifiedAt (VTime v).
Definition component_ModifiedAtGTE (v : Z) : sql_pred := FieldGTE component_FieldModifiedAt (VTime v).
Definition component_ModifiedAtLT (v : Z) : sql_pred := FieldLT component_FieldModifiedAt (VTime v).
Definition component_ModifiedAtLTE (v : Z) : sql_pred := FieldLTE component_FieldModifiedAt (VTime v).
Definition component_ModifiedAtIsNil : sql_pred := FieldIsNull component_FieldModifiedAt.
Definition component_ModifiedAtNotNil : sql_pred := FieldNotNull component_FieldModifiedAt.
Definition component_DeletedAtEQ (v : Z) : sql_pred := FieldEQ component_FieldDeletedAt (VTime v).
Definition component_DeletedAtNEQ (v : Z) : sql_pred := FieldNEQ component_FieldDeletedAt (VTime v).
Definition component_DeletedAtIn (vs : list Z) : sql_pred := FieldIn component_FieldDeletedAt (VTime <$> vs).
Definition component_DeletedAtNotIn (vs : list Z) : sql_pred :=
  FieldNotIn component_FieldDeletedAt (VTime <$> vs).
Definition component_DeletedAtGT (v : Z) : sql_pred := FieldGT component_FieldDeletedAt (VTime v).
Definition component_DeletedAtGTE (v : Z) : sql_pred := FieldGTE component_FieldDeletedAt (VTime v).
Definition component_DeletedAtLT (v : Z) : sql_pred := FieldLT component_FieldDeletedAt (VTime v).
Definition component_DeletedAtLTE (v : Z) : sql_pred := FieldLTE component_FieldDeletedAt (VTime v).
Definition component_DeletedAtIsNil : sql_pred := FieldIsNull component_FieldDeletedAt.
Definition component_DeletedAtNotNil : sql_pred := FieldNotNull component_FieldDeletedAt.
Definition component_HasAttributes : sql_pred :=
  HasNeighbors (mkStep O2M false component_AttributesTable [component_AttributesColumn] None).
Definition component_HasAttributesWith (preds : list sql_pred) : sql_pred :=
  HasNeighborsWith component_newAttributesStep preds.
Definition component_HasIncidents : sql_pred :=
  HasNeighbors (mkStep M2M true component_IncidentsTable component_IncidentsPrimaryKey None).
Definition component_HasIncidentsWith (preds : list sql_pred) : sql_pred :=
  HasNeighborsWith component_newIncidentsStep preds.
Definition component_And (predicates : list sql_pred) : sql_pred := AndPredicates predicates.
Definition component_Or (predicates : list sql_pred) : sql_pred := OrPredicates predicates.
Definition component_Not (p : sql_pred) : sql_pred := NotPredicates p.

(** ** [componentattr] *)

Definition componentattr_ID (v : Z) : sql_pred := FieldEQ componentattr_FieldID (VInt v).
Definition componentattr_IDEQ (v : Z) : sql_pred := FieldEQ componentattr_FieldID (VInt v).
Definition componentattr_IDNEQ (v : Z) : sql_pred := FieldNEQ componentattr_FieldID (VInt v).
Definition componentattr_IDIn (vs : list Z) : sql_pred := FieldIn componentattr_FieldID (VInt <$> vs).
Definition componentattr_IDNotIn (vs : list Z) : sql_pred := FieldNotIn componentattr_FieldID (VInt <$> vs).
Definition componentattr_IDGT (v : Z) : sql_pred := FieldGT componentattr_FieldID (VInt v).
Definition componentattr_IDGTE (v : Z) : sql_pred := FieldGTE componentattr_FieldID (VInt v).
Definition componentattr_IDLT (v : Z) : sql_pred := FieldLT componentattr_FieldID (VInt v).
Definition componentattr_IDLTE (v : Z) : sql_pred := FieldLTE componentattr_FieldID (VInt v).
Definition componentattr_ComponentID (v : Z) : sql_pred := FieldEQ componentattr_FieldComponentID (VInt v).
Definition componentattr_Name (v : string) : sql_pred := FieldEQ componentattr_FieldName (VString v).
Definition componentattr_Value (v : string) : sql_pred := FieldEQ componentattr_FieldValue (VString v).
Definition componentattr_ComponentIDEQ (v : Z) : sql_pred := FieldEQ componentattr_FieldComponentID (VInt v).
Definition componentattr_ComponentIDNEQ (v : Z) : sql_pred := FieldNEQ componentattr_FieldComponentID (VInt v).
Definition componentattr_ComponentIDIn (vs : list Z) : sql_pred :=
  FieldIn componentattr_FieldComponentID (VInt <$> vs).
Definition componentattr_ComponentIDNotIn (vs : list Z) : sql_pred :=
  FieldNotIn componentattr_FieldComponentID (VInt <$> vs).
Definition componentattr_ComponentIDIsNil : sql_pred := FieldIsNull componentattr_FieldComponentID.
Definition componentattr_ComponentIDNotNil : sql_pred := FieldNotNull componentattr_FieldComponentID.
Definition componentattr_NameEQ (v : string) : sql_pred := FieldEQ componentattr_FieldName (VString v).
Definition componentattr_NameNEQ (v : string) : sql_pred := FieldNEQ componentattr_FieldName (VString v).
Definition componentattr_NameIn (vs : list string) : sql_pred :=
  FieldIn componentattr_FieldName (VString <$> vs).
Definition componentattr_NameNotIn (vs : list string) : sql_pred :=
  FieldNotIn componentattr_FieldName (VString <$> vs).
Definition componentattr_NameGT (v : string) : sql_pred := FieldGT componentattr_FieldName (VString v).
Definition componentattr_NameGTE (v : string) : sql_pred := FieldGTE componentattr_FieldName (VString v).
Definition componentattr_NameLT (v : string) : sql_pred := FieldLT componentattr_FieldName (VString v).
Definition componentattr_NameLTE (v : string) : sql_pred := FieldLTE componentattr_FieldName (VString v).
Definition componentattr_NameContains (v : string) : sql_pred := FieldContains componentattr_FieldName v.
Definition componentattr_NameHasPrefix (v : string) : sql_pred := FieldHasPrefix componentattr_FieldName v.
Definition componentattr_NameHasSuffix (v : string) : sql_pred := FieldHasSuffix componentattr_FieldName v.
Definition componentattr_NameEqualFold (v : string) : sql_pred := FieldEqualFold componentattr_FieldName v.
Definition componentattr_NameContainsFold (v : string) : sql_pred :=
  FieldContainsFold componentattr_FieldName v.
Definition componentattr_ValueEQ (v : string) : sql_pred := FieldEQ componentattr_FieldValue (VString v).
Definition componentattr_ValueNEQ (v : string) : sql_pred := FieldNEQ componentattr_FieldValue (VString v).
Definition componentattr_ValueIn (vs : list string) : sql_pred :=
  FieldIn componentattr_FieldValue (VString <$> vs).
Definition componentattr_ValueNotIn (vs : list string) : sql_pred :=
  FieldNotIn componentattr_FieldValue (VString <$> vs).
Definition componentattr_ValueGT (v : string) : sql_pred := FieldGT componentattr_FieldValue (VString v).
Definition componentattr_ValueGTE (v : string) : sql_pred := FieldGTE componentattr_FieldValue (VString v).
Definition componentattr_ValueLT (v : string) : sql_pred := FieldLT componentattr_FieldValue (VString v).
Definition componentattr_ValueLTE (v : string) : sql_pred := FieldLTE componentattr_FieldValue (VString v).
Definition componentattr_ValueContains (v : string) : sql_pred := FieldContains componentattr_FieldValue v.
Definition componentattr_ValueHasPrefix (v : string) : sql_pred := FieldHasPrefix componentattr_FieldValue v.
Definition componentattr_ValueHasSuffix (v : string) : sql_pred := FieldHasSuffix componentattr_FieldValue v.
Definition componentattr_ValueEqualFold (v : string) : sql_pred := FieldEqualFold componentattr_FieldValue v.
Definition componentattr_ValueContainsFold (v : string) : sql_pred :=
  FieldContainsFold componentattr_FieldValue v.
Definition componentattr_HasComponent : sql_pred :=
  HasNeighbors (mkStep M2O true componentattr_ComponentTable [componentattr_ComponentColumn] None).
Definition componentattr_HasComponentWith (preds : list sql_pred) : sql_pred :=
  HasNeighborsWith componentattr_newComponentStep preds.
Definition componentattr_And (predicates : list sql_pred) : sql_pred := AndPredicates predicates.
Definition componentattr_Or (predicates : list sql_pred) : sql_pred := OrPredicates predicates.
Definition componentattr_Not (p : sql_pred) : sql_pred := NotPredicates p.

(** ** [incident] *)

Definition incident_ID (v : Z) : sql_pred := FieldEQ incident_FieldID (VInt v).
Definition incident_IDEQ (v : Z) : sql_pred := FieldEQ incident_FieldID (VInt v).
Definition incident_IDNEQ (v : Z) : sql_pred := FieldNEQ incident_FieldID (VInt v).
Definition incident_IDIn (vs : list Z) : sql_pred := FieldIn incident_FieldID (VInt <$> vs).
Definition incident_IDNotIn (vs : list Z) : sql_pred := FieldNotIn incident_FieldID (VInt <$> vs).
Definition incident_IDGT (v : Z) : sql_pred := FieldGT incident_FieldID (VInt v).
Definition incident_IDGTE (v : Z) : sql_pred := FieldGTE incident_FieldID (VInt v).
Definition incident_IDLT (v : Z) : sql_pred := FieldLT incident_FieldID (VInt v).
Definition incident_IDLTE (v : Z) : sql_pred := FieldLTE incident_FieldID (VInt v).
Definition incident_Text (v : string) : sql_pred := FieldEQ incident_FieldText (VString v).
Definition incident_Description (v : string) : sql_pred := FieldEQ incident_FieldDescription (VString v).
Definition incident_StartDate (v : Z) : sql_pred := FieldEQ incident_FieldStartDate (VTime v).
Definition incident_EndDate (v : Z) : sql_pred := FieldEQ incident_FieldEndDate (VTime v).
Definition incident_Impact (v : Z) : sql_pred := FieldEQ incident_FieldImpact (VInt v).
Definition incident_System (v : bool) : sql_pred := FieldEQ incident_FieldSystem (VBool v).
Definition incident_Status (v : string) : sql_pred := FieldEQ incident_FieldStatus (VString v).
Definition incident_CreatedAt (v : Z) : sql_pred := FieldEQ incident_FieldCreatedAt (VTime v).
Definition incident_ModifiedAt (v : Z) : sql_pred := FieldEQ incident_FieldModifiedAt (VTime v).
Definition incident_DeletedAt (v : Z) : sql_pred := FieldEQ incident_FieldDeletedAt (VTime v).
Definition incident_CreatedBy (v : string) : sql_pred := FieldEQ incident_FieldCreatedBy (VString v).
Definition incident_ContactEmail (v : string) : sql_pred := FieldEQ incident_FieldContactEmail (VString v).
Definition incident_Version (v : Z) : sql_pred := FieldEQ incident_FieldVersion (VInt v).
Definition incident_TextEQ (v : string) : sql_pred := FieldEQ incident_FieldText (VString v).
Definition incident_TextNEQ (v : string) : sql_pred := FieldNEQ incident_FieldText (VString v).
Definition incident_TextIn (vs : list string) : sql_pred := FieldIn incident_FieldText (VString <$> vs).
Definition incident_TextNotIn (vs : list string) : sql_pred := FieldNotIn incident_FieldText (VString <$> vs).
Definition incident_TextGT (v : string) : sql_pred := FieldGT incident_FieldText (VString v).
Definition incident_TextGTE (v : string) : sql_pred := FieldGTE incident_FieldText (VString v).
Definition incident_TextLT (v : string) : sql_pred := FieldLT incident_FieldText (VString v).
Definition incident_TextLTE (v : string) : sql_pred := FieldLTE incident_FieldText (VString v).
Definition incident_TextContains (v : string) : sql_pred := FieldContains incident_FieldText v.
Definition incident_TextHasPrefix (v : string) : sql_pred := FieldHasPrefix incident_FieldText v.
Definition incident_TextHasSuffix (v : string) : sql_pred := FieldHasSuffix incident_FieldText v.
Definition incident_TextEqualFold (v : string) : sql_pred := FieldEqualFold incident_FieldText v.
Definition incident_TextContainsFold (v : string) : sql_pred := FieldContainsFold incident_FieldText v.
Definition incident_DescriptionEQ (v : string) : sql_pred := FieldEQ incident_FieldDescription (VString v).
Definition incident_DescriptionNEQ (v : string) : sql_pred := FieldNEQ incident_FieldDescription (VString v).
Definition incident_DescriptionIn (vs : list string) : sql_pred :=
  FieldIn incident_FieldDescription (VString <$> vs).
Definition incident_DescriptionNotIn (vs : list string) : sql_pred :=
  FieldNotIn incident_FieldDescription (VString <$> vs).
Definition incident_DescriptionGT (v : string) : sql_pred := FieldGT incident_FieldDescription (VString v).
Definition incident_DescriptionGTE (v : string) : sql_pred := FieldGTE incident_FieldDescription (VString v).
Definition incident_DescriptionLT (v : string) : sql_pred := FieldLT incident_FieldDescription (VString v).
Definition incident_DescriptionLTE (v : string) : sql_pred := FieldLTE incident_FieldDescription (VString v).
Definition incident_DescriptionContains (v : string) : sql_pred := FieldContains incident_FieldDescription v.
Definition incident_DescriptionHasPrefix (v : string) : sql_pred := FieldHasPrefix incident_FieldDescription v.
Definition incident_DescriptionHasSuffix (v : string) : sql_pred := FieldHasSuffix incident_FieldDescription v.
Definition incident_DescriptionIsNil : sql_pred := FieldIsNull incident_FieldDescription.
Definition incident_DescriptionNotNil : sql_pred := FieldNotNull incident_FieldDescription.
Definition incident_DescriptionEqualFold (v : string) : sql_pred := FieldEqualFold incident_FieldDescription v.
Definition incident_DescriptionContainsFold (v : string) : sql_pred :=
  FieldContainsFold incident_FieldDescription v.
Definition incident_StartDateEQ (v : Z) : sql_pred := FieldEQ incident_FieldStartDate (VTime v).
Definition incident_StartDateNEQ (v : Z) : sql_pred := FieldNEQ incident_FieldStartDate (VTime v).
Definition incident_StartDateIn (vs : list Z) : sql_pred := FieldIn incident_FieldStartDate (VTime <$> vs).
Definition incident_StartDateNotIn (vs : list Z) : sql_pred :=
  FieldNotIn incident_FieldStartDate (VTime <$> vs).
Definition incident_StartDateGT (v : Z) : sql_pred := FieldGT incident_FieldStartDate (VTime v).
Definition incident_StartDateGTE (v : Z) : sql_pred := FieldGTE incident_FieldStartDate (VTime v).
Definition incident_StartDateLT (v : Z) : sql_pred := FieldLT incident_FieldStartDate (VTime v).
Definition incident_StartDateLTE (v : Z) : sql_pred := FieldLTE incident_FieldStartDate (VTime v).
Definition incident_EndDateEQ (v : Z) : sql_pred := FieldEQ incident_FieldEndDate (VTime v).
Definition incident_EndDateNEQ (v : Z) : sql_pred := FieldNEQ incident_FieldEndDate (VTime v).
Definition incident_EndDateIn (vs : list Z) : sql_pred := FieldIn incident_FieldEndDate (VTime <$> vs).
Definition incident_EndDateNotIn (vs : list Z) : sql_pred := FieldNotIn incident_FieldEndDate (VTime <$> vs).
Definition incident_EndDateGT (v : Z) : sql_pred := FieldGT incident_FieldEndDate (VTime v).
Definition incident_EndDateGTE (v : Z) : sql_pred := FieldGTE incident_FieldEndDate (VTime v).
Definition incident_EndDateLT (v : Z) : sql_pred := FieldLT incident_FieldEndDate (VTime v).
Definition incident_EndDateLTE (v : Z) : sql_pred := FieldLTE incident_FieldEndDate (VTime v).
Definition incident_EndDateIsNil : sql_pred := FieldIsNull incident_FieldEndDate.
Definition incident_EndDateNotNil : sql_pred := FieldNotNull incident_FieldEndDate.
Definition incident_ImpactEQ (v : Z) : sql_pred := FieldEQ incident_FieldImpact (VInt v).
Definition incident_ImpactNEQ (v : Z) : sql_pred := FieldNEQ incident_FieldImpact (VInt v).
Definition incident_ImpactIn (vs : list Z) : sql_pred := FieldIn incident_FieldImpact (VInt <$> vs).
Definition incident_ImpactNotIn (vs : list Z) : sql_pred := FieldNotIn incident_FieldImpact (VInt <$> vs).
Definition incident_ImpactGT (v : Z) : sql_pred := FieldGT incident_FieldImpact (VInt v).
Definition incident_ImpactGTE (v : Z) : sql_pred := FieldGTE incident_FieldImpact (VInt v).
Definition incident_ImpactLT (v : Z) : sql_pred := FieldLT incident_FieldImpact (VInt v).
Definition incident_ImpactLTE (v : Z) : sql_pred := FieldLTE incident_FieldImpact (VInt v).
Definition incident_SystemEQ (v : bool) : sql_pred := FieldEQ incident_FieldSystem (VBool v).
Definition incident_SystemNEQ (v : bool) : sql_pred := FieldNEQ incident_FieldSystem (VBool v).
Definition incident_TypeEQ (v : string) : sql_pred := FieldEQ incident_FieldType (VType v).
Definition incident_TypeNEQ (v : string) : sql_pred := FieldNEQ incident_FieldType (VType v).
Definition incident_TypeIn (vs : list string) : sql_pred := FieldIn incident_FieldType (VType <$> vs).
Definition incident_TypeNotIn (vs : list string) : sql_pred := FieldNotIn incident_FieldType (VType <$> vs).
Definition incident_StatusEQ (v : string) : sql_pred := FieldEQ incident_FieldStatus (VString v).
Definition incident_StatusNEQ (v : string) : sql_pred := FieldNEQ incident_FieldStatus (VString v).
Definition incident_StatusIn (vs : list string) : sql_pred := FieldIn incident_FieldStatus (VString <$> vs).
Definition incident_StatusNotIn (vs : list string) : sql_pred :=
  FieldNotIn incident_FieldStatus (VString <$> vs).
Definition incident_StatusGT (v : string) : sql_pred := FieldGT incident_FieldStatus (VString v).
Definition incident_StatusGTE (v : string) : sql_pred := FieldGTE incident_FieldStatus (VString v).
Definition incident_StatusLT (v : string) : sql_pred := FieldLT incident_FieldStatus (VString v).
Definition incident_StatusLTE (v : string) : sql_pred := FieldLTE incident_FieldStatus (VString v).
Definition incident_StatusContains (v : string) : sql_pred := FieldContains incident_FieldStatus v.
Definition incident_StatusHasPrefix (v : string) : sql_pred := FieldHasPrefix incident_FieldStatus v.
Definition incident_StatusHasSuffix (v : string) : sql_pred := FieldHasSuffix incident_FieldStatus v.
Definition incident_StatusIsNil : sql_pred := FieldIsNull incident_FieldStatus.
Definition incident_StatusNotNil : sql_pred := FieldNotNull incident_FieldStatus.
Definition incident_StatusEqualFold (v : string) : sql_pred := FieldEqualFold incident_FieldStatus v.
Definition incident_StatusContainsFold (v : string) : sql_pred := FieldContainsFold incident_FieldStatus v.
Definition incident_CreatedAtEQ (v : Z) : sql_pred := FieldEQ incident_FieldCreatedAt (VTime v).
Definition incident_CreatedAtNEQ (v : Z) : sql_pred := FieldNEQ incident_FieldCreatedAt (VTime v).
Definition incident_CreatedAtIn (vs : list Z) : sql_pred := FieldIn incident_FieldCreatedAt (VTime <$> vs).
Definition incident_CreatedAtNotIn (vs : list Z) : sql_pred :=
  FieldNotIn incident_FieldCreatedAt (VTime <$> vs).
Definition incident_CreatedAtGT (v : Z) : sql_pred := FieldGT incident_FieldCreatedAt (VTime v).
Definition incident_CreatedAtGTE (v : Z) : sql_pred := FieldGTE incident_FieldCreatedAt (VTime v).
Definition incident_CreatedAtLT (v : Z) : sql_pred := FieldLT incident_FieldCreatedAt (VTime v).
Definition incident_CreatedAtLTE (v : Z) : sql_pred := FieldLTE incident_FieldCreatedAt (VTime v).
Definition incident_CreatedAtIsNil : sql_pred := FieldIsNull incident_FieldCreatedAt.
Definition incident_CreatedAtNotNil : sql_pred := FieldNotNull incident_FieldCreatedAt.
Definition incident_ModifiedAtEQ (v : Z) : sql_pred := FieldEQ incident_FieldModifiedAt (VTime v).
Definition incident_ModifiedAtNEQ (v : Z) : sql_pred := FieldNEQ incident_FieldModifiedAt (VTime v).
Definition incident_ModifiedAtIn (vs : list Z) : sql_pred := FieldIn incident_FieldModifiedAt (VTime <$> vs).
Definition incident_ModifiedAtNotIn (vs : list Z) : sql_pred :=
  FieldNotIn incident_FieldModifiedAt (VTime <$> vs).
Definition incident_ModifiedAtGT (v : Z) : sql_pred := FieldGT incident_FieldModifiedAt (VTime v).
Definition incident_ModifiedAtGTE (v : Z) : sql_pred := FieldGTE incident_FieldModifiedAt (VTime v).
Definition incident_ModifiedAtLT (v : Z) : sql_pred := FieldLT incident_FieldModifiedAt (VTime v).
Definition incident_ModifiedAtLTE (v : Z) : sql_pred := FieldLTE incident_FieldModifiedAt (VTime v).
Definition incident_ModifiedAtIsNil : sql_pred := FieldIsNull incident_FieldModifiedAt.
Definition incident_ModifiedAtNotNil : sql_pred := FieldNotNull incident_FieldModifiedAt.
Definition incident_DeletedAtEQ (v : Z) : sql_pred := FieldEQ incident_FieldDeletedAt (VTime v).
Definition incident_DeletedAtNEQ (v : Z) : sql_pred := FieldNEQ incident_FieldDeletedAt (VTime v).
Definition incident_DeletedAtIn (vs : list Z) : sql_pred := FieldIn incident_FieldDeletedAt (VTime <$> vs).
Definition incident_DeletedAtNotIn (vs : list Z) : sql_pred :=
  FieldNotIn incident_FieldDeletedAt (VTime <$> vs).
Definition incident_DeletedAtGT (v : Z) : sql_pred := FieldGT incident_FieldDeletedAt (VTime v).
Definition incident_DeletedAtGTE (v : Z) : sql_pred := FieldGTE incident_FieldDeletedAt (VTime v).
Definition incident_DeletedAtLT (v : Z) : sql_pred := FieldLT incident_FieldDeletedAt (VTime v).
Definition incident_DeletedAtLTE (v : Z) : sql_pred := FieldLTE incident_FieldDeletedAt (VTime v).
Definition incident_DeletedAtIsNil : sql_pred := FieldIsNull incident_FieldDeletedAt.
Definition incident_DeletedAtNotNil : sql_pred := FieldNotNull incident_FieldDeletedAt.
Definition incident_CreatedByEQ (v : string) : sql_pred := FieldEQ incident_FieldCreatedBy (VString v).
Definition incident_CreatedByNEQ (v : string) : sql_pred := FieldNEQ incident_FieldCreatedBy (VString v).
Definition incident_CreatedByIn (vs : list string) : sql_pred :=
  FieldIn incident_FieldCreatedBy (VString <$> vs).
Definition incident_CreatedByNotIn (vs : list string) : sql_pred :=
  FieldNotIn incident_FieldCreatedBy (VString <$> vs).
Definition incident_CreatedByGT (v : string) : sql_pred := FieldGT incident_FieldCreatedBy (VString v).
Definition incident_CreatedByGTE (v : string) : sql_pred := FieldGTE incident_FieldCreatedBy (VString v).
Definition incident_CreatedByLT (v : string) : sql_pred := FieldLT incident_FieldCreatedBy (VString v).
Definition incident_CreatedByLTE (v : string) : sql_pred := FieldLTE incident_FieldCreatedBy (VString v).
Definition incident_CreatedByContains (v : string) : sql_pred := FieldContains incident_FieldCreatedBy v.
Definition incident_CreatedByHasPrefix (v : string) : sql_pred := FieldHasPrefix incident_FieldCreatedBy v.
Definition incident_CreatedByHasSuffix (v : string) : sql_pred := FieldHasSuffix incident_FieldCreatedBy v.
Definition incident_CreatedByIsNil : sql_pred := FieldIsNull incident_FieldCreatedBy.
Definition incident_CreatedByNotNil : sql_pred := FieldNotNull incident_FieldCreatedBy.
Definition incident_CreatedByEqualFold (v : string) : sql_pred := FieldEqualFold incident_FieldCreatedBy v.
Definition incident_CreatedByContainsFold (v : string) : sql_pred :=
  FieldContainsFold incident_FieldCreatedBy v.
Definition incident_ContactEmailEQ (v : string) : sql_pred := FieldEQ incident_FieldContactEmail (VString v).
Definition incident_ContactEmailNEQ (v : string) : sql_pred := FieldNEQ incident_FieldContactEmail (VString v).
Definition incident_ContactEmailIn (vs : list string) : sql_pred :=
  FieldIn incident_FieldContactEmail (VString <$> vs).
Definition incident_ContactEmailNotIn (vs : list string) : sql_pred :=
  FieldNotIn incident_FieldContactEmail (VString <$> vs).
Definition incident_ContactEmailGT (v : string) : sql_pred := FieldGT incident_FieldContactEmail (VString v).
Definition incident_ContactEmailGTE (v : string) : sql_pred := FieldGTE incident_FieldContactEmail (VString v).
Definition incident_ContactEmailLT (v : string) : sql_pred := FieldLT incident_FieldContactEmail (VString v).
Definition incident_ContactEmailLTE (v : string) : sql_pred := FieldLTE incident_FieldContactEmail (VString v).
Definition incident_ContactEmailContains (v : string) : sql_pred := FieldContains incident_FieldContactEmail v.
Definition incident_ContactEmailHasPrefix (v : string) : sql_pred :=
  FieldHasPrefix incident_FieldContactEmail v.
Definition incident_ContactEmailHasSuffix (v : string) : sql_pred :=
  FieldHasSuffix incident_FieldContactEmail v.
Definition incident_ContactEmailIsNil : sql_pred := FieldIsNull incident_FieldContactEmail.
Definition incident_ContactEmailNotNil : sql_pred := FieldNotNull incident_FieldContactEmail.
Definition incident_ContactEmailEqualFold (v : string) : sql_pred :=
  FieldEqualFold incident_FieldContactEmail v.
Definition incident_ContactEmailContainsFold (v : string) : sql_pred :=
  FieldContainsFold incident_FieldContactEmail v.
Definition incident_VersionEQ (v : Z) : sql_pred := FieldEQ incident_FieldVersion (VInt v).
Definition incident_VersionNEQ (v : Z) : sql_pred := FieldNEQ incident_FieldVersion (VInt v).
Definition incident_VersionIn (vs : list Z) : sql_pred := FieldIn incident_FieldVersion (VInt <$> vs).
Definition incident_VersionNotIn (vs : list Z) : sql_pred := FieldNotIn incident_FieldVersion (VInt <$> vs).
Definition incident_VersionGT (v : Z) : sql_pred := FieldGT incident_FieldVersion (VInt v).
Definition incident_VersionGTE (v : Z) : sql_pred := FieldGTE incident_FieldVersion (VInt v).
Definition incident_VersionLT (v : Z) : sql_pred := FieldLT incident_FieldVersion (VInt v).
Definition incident_VersionLTE (v : Z) : sql_pred := FieldLTE incident_FieldVersion (VInt v).
Definition incident_HasComponents : sql_pred :=
  HasNeighbors (mkStep M2M false incident_ComponentsTable incident_ComponentsPrimaryKey None).
Definition incident_HasComponentsWith (preds : list sql_pred) : sql_pred :=
  HasNeighborsWith incident_newComponentsStep preds.
Definition incident_HasNotifications : sql_pred :=
  HasNeighbors (mkStep O2M false incident_NotificationsTable [incident_NotificationsColumn] None).
Definition incident_HasNotificationsWith (preds : list sql_pred) : sql_pred :=
  HasNeighborsWith incident_newNotificationsStep preds.
Definition incident_And (predicates : list sql_pred) : sql_pred := AndPredicates predicates.
Definition incident_Or (predicates : list sql_pred) : sql_pred := OrPredicates predicates.
Definition incident_Not (p : sql_pred) : sql_pred := NotPredicates p.

(** ** [incidentstatus] *)

Definition incidentstatus_ID (v : Z) : sql_pred := FieldEQ incidentstatus_FieldID (VInt v).
Definition incidentstatus_IDEQ (v : Z) : sql_pred := FieldEQ incidentstatus_FieldID (VInt v).
Definition incidentstatus_IDNEQ (v : Z) : sql_pred := FieldNEQ incidentstatus_FieldID (VInt v).
Definition incidentstatus_IDIn (vs : list Z) : sql_pred := FieldIn incidentstatus_FieldID (VInt <$> vs).
Definition incidentstatus_IDNotIn (vs : list Z) : sql_pred := FieldNotIn incidentstatus_FieldID (VInt <$> vs).
Definition incidentstatus_IDGT (v : Z) : sql_pred := FieldGT incidentstatus_FieldID (VInt v).
Definition incidentstatus_IDGTE (v : Z) : sql_pred := FieldGTE incidentstatus_FieldID (VInt v).
Definition incidentstatus_IDLT (v : Z) : sql_pred := FieldLT incidentstatus_FieldID (VInt v).
Definition incidentstatus_IDLTE (v : Z) : sql_pred := FieldLTE incidentstatus_FieldID (VInt v).
Definition incidentstatus_IncidentID (v : Z) : sql_pred := FieldEQ incidentstatus_FieldIncidentID (VInt v).
Definition incidentstatus_Timestamp (v : Z) : sql_pred := FieldEQ incidentstatus_FieldTimestamp (VTime v).
Definition incidentstatus_Text (v : string) : sql_pred := FieldEQ incidentstatus_FieldText (VString v).
Definition incidentstatus_Status (v : string) : sql_pred := FieldEQ incidentstatus_FieldStatus (VString v).
Definition incidentstatus_CreatedAt (v : Z) : sql_pred := FieldEQ incidentstatus_FieldCreatedAt (VTime v).
Definition incidentstatus_ModifiedAt (v : Z) : sql_pred := FieldEQ incidentstatus_FieldModifiedAt (VTime v).
Definition incidentstatus_DeletedAt (v : Z) : sql_pred := FieldEQ incidentstatus_FieldDeletedAt (VTime v).
Definition incidentstatus_CreatedBy (v : string) : sql_pred :=
  FieldEQ incidentstatus_FieldCreatedBy (VString v).
Definition incidentstatus_ModifiedBy (v : string) : sql_pred :=
  FieldEQ incidentstatus_FieldModifiedBy (VString v).
Definition incidentstatus_IncidentIDEQ (v : Z) : sql_pred := FieldEQ incidentstatus_FieldIncidentID (VInt v).
Definition incidentstatus_IncidentIDNEQ (v : Z) : sql_pred := FieldNEQ incidentstatus_FieldIncidentID (VInt v).
Definition incidentstatus_IncidentIDIn (vs : list Z) : sql_pred :=
  FieldIn incidentstatus_FieldIncidentID (VInt <$> vs).
Definition incidentstatus_IncidentIDNotIn (vs : list Z) : sql_pred :=
  FieldNotIn incidentstatus_FieldIncidentID (VInt <$> vs).
Definition incidentstatus_IncidentIDGT (v : Z) : sql_pred := FieldGT incidentstatus_FieldIncidentID (VInt v).
Definition incidentstatus_IncidentIDGTE (v : Z) : sql_pred := FieldGTE incidentstatus_FieldIncidentID (VInt v).
Definition incidentstatus_IncidentIDLT (v : Z) : sql_pred := FieldLT incidentstatus_FieldIncidentID (VInt v).
Definition incidentstatus_IncidentIDLTE (v : Z) : sql_pred := FieldLTE incidentstatus_FieldIncidentID (VInt v).
Definition incidentstatus_IncidentIDIsNil : sql_pred := FieldIsNull incidentstatus_FieldIncidentID.
Definition incidentstatus_IncidentIDNotNil : sql_pred := FieldNotNull incidentstatus_FieldIncidentID.
Definition incidentstatus_TimestampEQ (v : Z) : sql_pred := FieldEQ incidentstatus_FieldTimestamp (VTime v).
Definition incidentstatus_TimestampNEQ (v : Z) : sql_pred := FieldNEQ incidentstatus_FieldTimestamp (VTime v).
Definition incidentstatus_TimestampIn (vs : list Z) : sql_pred :=
  FieldIn incidentstatus_FieldTimestamp (VTime <$> vs).
Definition incidentstatus_TimestampNotIn (vs : list Z) : sql_pred :=
  FieldNotIn incidentstatus_FieldTimestamp (VTime <$> vs).
Definition incidentstatus_TimestampGT (v : Z) : sql_pred := FieldGT incidentstatus_FieldTimestamp (VTime v).
Definition incidentstatus_TimestampGTE (v : Z) : sql_pred := FieldGTE incidentstatus_FieldTimestamp (VTime v).
Definition incidentstatus_TimestampLT (v : Z) : sql_pred := FieldLT incidentstatus_FieldTimestamp (VTime v).
Definition incidentstatus_TimestampLTE (v : Z) : sql_pred := FieldLTE incidentstatus_FieldTimestamp (VTime v).
Definition incidentstatus_TextEQ (v : string) : sql_pred := FieldEQ incidentstatus_FieldText (VString v).
Definition incidentstatus_TextNEQ (v : string) : sql_pred := FieldNEQ incidentstatus_FieldText (VString v).
Definition incidentstatus_TextIn (vs : list string) : sql_pred :=
  FieldIn incidentstatus_FieldText (VString <$> vs).
Definition incidentstatus_TextNotIn (vs : list string) : sql_pred :=
  FieldNotIn incidentstatus_FieldText (VString <$> vs).
Definition incidentstatus_TextGT (v : string) : sql_pred := FieldGT incidentstatus_FieldText (VString v).
Definition incidentstatus_TextGTE (v : string) : sql_pred := FieldGTE incidentstatus_FieldText (VString v).
Definition incidentstatus_TextLT (v : string) : sql_pred := FieldLT incidentstatus_FieldText (VString v).
Definition incidentstatus_TextLTE (v : string) : sql_pred := FieldLTE incidentstatus_FieldText (VString v).
Definition incidentstatus_TextContains (v : string) : sql_pred := FieldContains incidentstatus_FieldText v.
Definition incidentstatus_TextHasPrefix (v : string) : sql_pred := FieldHasPrefix incidentstatus_FieldText v.
Definition incidentstatus_TextHasSuffix (v : string) : sql_pred := FieldHasSuffix incidentstatus_FieldText v.
Definition incidentstatus_TextEqualFold (v : string) : sql_pred := FieldEqualFold incidentstatus_FieldText v.
Definition incidentstatus_TextContainsFold (v : string) : sql_pred :=
  FieldContainsFold incidentstatus_FieldText v.
Definition incidentstatus_StatusEQ (v : string) : sql_pred := FieldEQ incidentstatus_FieldStatus (VString v).
Definition incidentstatus_StatusNEQ (v : string) : sql_pred := FieldNEQ incidentstatus_FieldStatus (VString v).
Definition incidentstatus_StatusIn (vs : list string) : sql_pred :=
  FieldIn incidentstatus_FieldStatus (VString <$> vs).
Definition incidentstatus_StatusNotIn (vs : list string) : sql_pred :=
  FieldNotIn incidentstatus_FieldStatus (VString <$> vs).
Definition incidentstatus_StatusGT (v : string) : sql_pred := FieldGT incidentstatus_FieldStatus (VString v).
Definition incidentstatus_StatusGTE (v : string) : sql_pred := FieldGTE incidentstatus_FieldStatus (VString v).
Definition incidentstatus_StatusLT (v : string) : sql_pred := FieldLT incidentstatus_FieldStatus (VString v).
Definition incidentstatus_StatusLTE (v : string) : sql_pred := FieldLTE incidentstatus_FieldStatus (VString v).
Definition incidentstatus_StatusContains (v : string) : sql_pred := FieldContains incidentstatus_FieldStatus v.
Definition incidentstatus_StatusHasPrefix (v : string) : sql_pred :=
  FieldHasPrefix incidentstatus_FieldStatus v.
Definition incidentstatus_StatusHasSuffix (v : string) : sql_pred :=
  FieldHasSuffix incidentstatus_FieldStatus v.
Definition incidentstatus_StatusEqualFold (v : string) : sql_pred :=
  FieldEqualFold incidentstatus_FieldStatus v.
Definition incidentstatus_StatusContainsFold (v : string) : sql_pred :=
  FieldContainsFold incidentstatus_FieldStatus v.
Definition incidentstatus_CreatedAtEQ (v : Z) : sql_pred := FieldEQ incidentstatus_FieldCreatedAt (VTime v).
Definition incidentstatus_CreatedAtNEQ (v : Z) : sql_pred := FieldNEQ incidentstatus_FieldCreatedAt (VTime v).
Definition incidentstatus_CreatedAtIn (vs : list Z) : sql_pred :=
  FieldIn incidentstatus_FieldCreatedAt (VTime <$> vs).
Definition incidentstatus_CreatedAtNotIn (vs : list Z) : sql_pred :=
  FieldNotIn incidentstatus_FieldCreatedAt (VTime <$> vs).
Definition incidentstatus_CreatedAtGT (v : Z) : sql_pred := FieldGT incidentstatus_FieldCreatedAt (VTime v).
Definition incidentstatus_CreatedAtGTE (v : Z) : sql_pred := FieldGTE incidentstatus_FieldCreatedAt (VTime v).
Definition incidentstatus_CreatedAtLT (v : Z) : sql_pred := FieldLT incidentstatus_FieldCreatedAt (VTime v).
Definition incidentstatus_CreatedAtLTE (v : Z) : sql_pred := FieldLTE incidentstatus_FieldCreatedAt (VTime v).
Definition incidentstatus_CreatedAtIsNil : sql_pred := FieldIsNull incidentstatus_FieldCreatedAt.
Definition incidentstatus_CreatedAtNotNil : sql_pred := FieldNotNull incidentstatus_FieldCreatedAt.
Definition incidentstatus_ModifiedAtEQ (v : Z) : sql_pred := FieldEQ incidentstatus_FieldModifiedAt (VTime v).
Definition incidentstatus_ModifiedAtNEQ (v : Z) : sql_pred := FieldNEQ incidentstatus_FieldModifiedAt (VTime v).
Definition incidentstatus_ModifiedAtIn (vs : list Z) : sql_pred :=
  FieldIn incidentstatus_FieldModifiedAt (VTime <$> vs).
Definition incidentstatus_ModifiedAtNotIn (vs : list Z) : sql_pred :=
  FieldNotIn incidentstatus_FieldModifiedAt (VTime <$> vs).
Definition incidentstatus_ModifiedAtGT (v : Z) : sql_pred := FieldGT incidentstatus_FieldModifiedAt (VTime v).
Definition incidentstatus_ModifiedAtGTE (v : Z) : sql_pred := FieldGTE incidentstatus_FieldModifiedAt (VTime v).
Definition incidentstatus_ModifiedAtLT (v : Z) : sql_pred := FieldLT incidentstatus_FieldModifiedAt (VTime v).
Definition incidentstatus_ModifiedAtLTE (v : Z) : sql_pred := FieldLTE incidentstatus_FieldModifiedAt (VTime v).
Definition incidentstatus_ModifiedAtIsNil : sql_pred := FieldIsNull incidentstatus_FieldModifiedAt.
Definition incidentstatus_ModifiedAtNotNil : sql_pred := FieldNotNull incidentstatus_FieldModifiedAt.
Definition incidentstatus_DeletedAtEQ (v : Z) : sql_pred := FieldEQ incidentstatus_FieldDeletedAt (VTime v).
Definition incidentstatus_DeletedAtNEQ (v : Z) : sql_pred := FieldNEQ incidentstatus_FieldDeletedAt (VTime v).
Definition incidentstatus_DeletedAtIn (vs : list Z) : sql_pred :=
  FieldIn incidentstatus_FieldDeletedAt (VTime <$> vs).
Definition incidentstatus_DeletedAtNotIn (vs : list Z) : sql_pred :=
  FieldNotIn incidentstatus_FieldDeletedAt (VTime <$> vs).
Definition incidentstatus_DeletedAtGT (v : Z) : sql_pred := FieldGT incidentstatus_FieldDeletedAt (VTime v).
Definition incidentstatus_DeletedAtGTE (v : Z) : sql_pred := FieldGTE incidentstatus_FieldDeletedAt (VTime v).
Definition incidentstatus_DeletedAtLT (v : Z) : sql_pred := FieldLT incidentstatus_FieldDeletedAt (VTime v).
Definition incidentstatus_DeletedAtLTE (v : Z) : sql_pred := FieldLTE incidentstatus_FieldDeletedAt (VTime v).
Definition incidentstatus_DeletedAtIsNil : sql_pred := FieldIsNull incidentstatus_FieldDeletedAt.
Definition incidentstatus_DeletedAtNotNil : sql_pred := FieldNotNull incidentstatus_FieldDeletedAt.
Definition incidentstatus_CreatedByEQ (v : string) : sql_pred :=
  FieldEQ incidentstatus_FieldCreatedBy (VString v).
Definition incidentstatus_CreatedByNEQ (v : string) : sql_pred :=
  FieldNEQ incidentstatus_FieldCreatedBy (VString v).
Definition incidentstatus_CreatedByIn (vs : list string) : sql_pred :=
  FieldIn incidentstatus_FieldCreatedBy (VString <$> vs).
Definition incidentstatus_CreatedByNotIn (vs : list string) : sql_pred :=
  FieldNotIn incidentstatus_FieldCreatedBy (VString <$> vs).
Definition incidentstatus_CreatedByGT (v : string) : sql_pred :=
  FieldGT incidentstatus_FieldCreatedBy (VString v).
Definition incidentstatus_CreatedByGTE (v : string) : sql_pred :=
  FieldGTE incidentstatus_FieldCreatedBy (VString v).
Definition incidentstatus_CreatedByLT (v : string) : sql_pred :=
  FieldLT incidentstatus_FieldCreatedBy (VString v).
Definition incidentstatus_CreatedByLTE (v : string) : sql_pred :=
  FieldLTE incidentstatus_FieldCreatedBy (VString v).
Definition incidentstatus_CreatedByContains (v : string) : sql_pred :=
  FieldContains incidentstatus_FieldCreatedBy v.
Definition incidentstatus_CreatedByHasPrefix (v : string) : sql_pred :=
  FieldHasPrefix incidentstatus_FieldCreatedBy v.
Definition incidentstatus_CreatedByHasSuffix (v : string) : sql_pred :=
  FieldHasSuffix incidentstatus_FieldCreatedBy v.
Definition incidentstatus_CreatedByIsNil : sql_pred := FieldIsNull incidentstatus_FieldCreatedBy.
Definition incidentstatus_CreatedByNotNil : sql_pred := FieldNotNull incidentstatus_FieldCreatedBy.
Definition incidentstatus_CreatedByEqualFold (v : string) : sql_pred :=
  FieldEqualFold incidentstatus_FieldCreatedBy v.
Definition incidentstatus_CreatedByContainsFold (v : string) : sql_pred :=
  FieldContainsFold incidentstatus_FieldCreatedBy v.
Definition incidentstatus_ModifiedByEQ (v : string) : sql_pred :=
  FieldEQ incidentstatus_FieldModifiedBy (VString v).
Definition incidentstatus_ModifiedByNEQ (v : string) : sql_pred :=
  FieldNEQ incidentstatus_FieldModifiedBy (VString v).
Definition incidentstatus_ModifiedByIn (vs : list string) : sql_pred :=
  FieldIn incidentstatus_FieldModifiedBy (VString <$> vs).
Definition incidentstatus_ModifiedByNotIn (vs : list string) : sql_pred :=
  FieldNotIn incidentstatus_FieldModifiedBy (VString <$> vs).
Definition incidentstatus_ModifiedByGT (v : string) : sql_pred :=
  FieldGT incidentstatus_FieldModifiedBy (VString v).
Definition incidentstatus_ModifiedByGTE (v : string) : sql_pred :=
  FieldGTE incidentstatus_FieldModifiedBy (VString v).
Definition incidentstatus_ModifiedByLT (v : string) : sql_pred :=
  FieldLT incidentstatus_FieldModifiedBy (VString v).
Definition incidentstatus_ModifiedByLTE (v : string) : sql_pred :=
  FieldLTE incidentstatus_FieldModifiedBy (VString v).
Definition incidentstatus_ModifiedByContains (v : string) : sql_pred :=
  FieldContains incidentstatus_FieldModifiedBy v.
Definition incidentstatus_ModifiedByHasPrefix (v : string) : sql_pred :=
  FieldHasPrefix incidentstatus_FieldModifiedBy v.
Definition incidentstatus_ModifiedByHasSuffix (v : string) : sql_pred :=
  FieldHasSuffix incidentstatus_FieldModifiedBy v.
Definition incidentstatus_ModifiedByIsNil : sql_pred := FieldIsNull incidentstatus_FieldModifiedBy.
Definition incidentstatus_ModifiedByNotNil : sql_pred := FieldNotNull incidentstatus_FieldModifiedBy.
Definition incidentstatus_ModifiedByEqualFold (v : string) : sql_pred :=
  FieldEqualFold incidentstatus_FieldModifiedBy v.
Definition incidentstatus_ModifiedByContainsFold (v : string) : sql_pred :=
  FieldContainsFold incidentstatus_FieldModifiedBy v.
Definition incidentstatus_And (predicates : list sql_pred) : sql_pred := AndPredicates predicates.
Definition incidentstatus_Or (predicates : list sql_pred) : sql_pred := OrPredicates predicates.
Definition incidentstatus_Not (p : sql_pred) : sql_pred := NotPredicates p.

(** ** [notificationoutbox] *)

Definition notificationoutbox_ID (v : Z) : sql_pred := FieldEQ notificationoutbox_FieldID (VInt v).
Definition notificationoutbox_IDEQ (v : Z) : sql_pred := FieldEQ notificationoutbox_FieldID (VInt v).
Definition notificationoutbox_IDNEQ (v : Z) : sql_pred := FieldNEQ notificationoutbox_FieldID (VInt v).
Definition notificationoutbox_IDIn (vs : list Z) : sql_pred := FieldIn notificationoutbox_FieldID (VInt <$> vs).
Definition notificationoutbox_IDNotIn (vs : list Z) : sql_pred :=
  FieldNotIn notificationoutbox_FieldID (VInt <$> vs).
Definition notificationoutbox_IDGT (v : Z) : sql_pred := FieldGT notificationoutbox_FieldID (VInt v).
Definition notificationoutbox_IDGTE (v : Z) : sql_pred := FieldGTE notificationoutbox_FieldID (VInt v).
Definition notificationoutbox_IDLT (v : Z) : sql_pred := FieldLT notificationoutbox_FieldID (VInt v).
Definition notificationoutbox_IDLTE (v : Z) : sql_pred := FieldLTE notificationoutbox_FieldID (VInt v).
Definition notificationoutbox_Kind (v : string) : sql_pred := FieldEQ notificationoutbox_FieldKind (VString v).
Definition notificationoutbox_IncidentID (v : Z) : sql_pred :=
  FieldEQ notificationoutbox_FieldIncidentID (VInt v).
Definition notificationoutbox_Recipient (v : string) : sql_pred :=
  FieldEQ notificationoutbox_FieldRecipient (VString v).
Definition notificationoutbox_ChangeID (v : string) : sql_pred :=
  FieldEQ notificationoutbox_FieldChangeID (VString v).
Definition notificationoutbox_DedupKey (v : string) : sql_pred :=
  FieldEQ notificationoutbox_FieldDedupKey (VString v).
Definition notificationoutbox_Status (v : string) : sql_pred :=
  FieldEQ notificationoutbox_FieldStatus (VString v).
Definition notificationoutbox_Attempts (v : Z) : sql_pred := FieldEQ notificationoutbox_FieldAttempts (VInt v).
Definition notificationoutbox_NextAttemptAt (v : Z) : sql_pred :=
  FieldEQ notificationoutbox_FieldNextAttemptAt (VTime v).
Definition notificationoutbox_LockedBy (v : string) : sql_pred :=
  FieldEQ notificationoutbox_FieldLockedBy (VString v).
Definition notificationoutbox_LockedAt (v : Z) : sql_pred := FieldEQ notificationoutbox_FieldLockedAt (VTime v).
Definition notificationoutbox_LastError (v : string) : sql_pred :=
  FieldEQ notificationoutbox_FieldLastError (VString v).
Definition notificationoutbox_CreatedAt (v : Z) : sql_pred :=
  FieldEQ notificationoutbox_FieldCreatedAt (VTime v).
Definition notificationoutbox_UpdatedAt (v : Z) : sql_pred :=
  FieldEQ notificationoutbox_FieldUpdatedAt (VTime v).
Definition notificationoutbox_KindEQ (v : string) : sql_pred :=
  FieldEQ notificationoutbox_FieldKind (VString v).
Definition notificationoutbox_KindNEQ (v : string) : sql_pred :=
  FieldNEQ notificationoutbox_FieldKind (VString v).
Definition notificationoutbox_KindIn (vs : list string) : sql_pred :=
  FieldIn notificationoutbox_FieldKind (VString <$> vs).
Definition notificationoutbox_KindNotIn (vs : list string) : sql_pred :=
  FieldNotIn notificationoutbox_FieldKind (VString <$> vs).
Definition notificationoutbox_KindGT (v : string) : sql_pred :=
  FieldGT notificationoutbox_FieldKind (VString v).
Definition notificationoutbox_KindGTE (v : string) : sql_pred :=
  FieldGTE notificationoutbox_FieldKind (VString v).
Definition notificationoutbox_KindLT (v : string) : sql_pred :=
  FieldLT notificationoutbox_FieldKind (VString v).
Definition notificationoutbox_KindLTE (v : string) : sql_pred :=
  FieldLTE notificationoutbox_FieldKind (VString v).
Definition notificationoutbox_KindContains (v : string) : sql_pred :=
  FieldContains notificationoutbox_FieldKind v.
Definition notificationoutbox_KindHasPrefix (v : string) : sql_pred :=
  FieldHasPrefix notificationoutbox_FieldKind v.
Definition notificationoutbox_KindHasSuffix (v : string) : sql_pred :=
  FieldHasSuffix notificationoutbox_FieldKind v.
Definition notificationoutbox_KindEqualFold (v : string) : sql_pred :=
  FieldEqualFold notificationoutbox_FieldKind v.
Definition notificationoutbox_KindContainsFold (v : string) : sql_pred :=
  FieldContainsFold notificationoutbox_FieldKind v.
Definition notificationoutbox_IncidentIDEQ (v : Z) : sql_pred :=
  FieldEQ notificationoutbox_FieldIncidentID (VInt v).
Definition notificationoutbox_IncidentIDNEQ (v : Z) : sql_pred :=
  FieldNEQ notificationoutbox_FieldIncidentID (VInt v).
Definition notificationoutbox_IncidentIDIn (vs : list Z) : sql_pred :=
  FieldIn notificationoutbox_FieldIncidentID (VInt <$> vs).
Definition notificationoutbox_IncidentIDNotIn (vs : list Z) : sql_pred :=
  FieldNotIn notificationoutbox_FieldIncidentID (VInt <$> vs).
Definition notificationoutbox_RecipientEQ (v : string) : sql_pred :=
  FieldEQ notificationoutbox_FieldRecipient (VString v).
Definition notificationoutbox_RecipientNEQ (v : string) : sql_pred :=
  FieldNEQ notificationoutbox_FieldRecipient (VString v).
Definition notificationoutbox_RecipientIn (vs : list string) : sql_pred :=
  FieldIn notificationoutbox_FieldRecipient (VString <$> vs).
Definition notificationoutbox_RecipientNotIn (vs : list string) : sql_pred :=
  FieldNotIn notificationoutbox_FieldRecipient (VString <$> vs).
Definition notificationoutbox_RecipientGT (v : string) : sql_pred :=
  FieldGT notificationoutbox_FieldRecipient (VString v).
Definition notificationoutbox_RecipientGTE (v : string) : sql_pred :=
  FieldGTE notificationoutbox_FieldRecipient (VString v).
Definition notificationoutbox_RecipientLT (v : string) : sql_pred :=
  FieldLT notificationoutbox_FieldRecipient (VString v).
Definition notificationoutbox_RecipientLTE (v : string) : sql_pred :=
  FieldLTE notificationoutbox_FieldRecipient (VString v).
Definition notificationoutbox_RecipientContains (v : string) : sql_pred :=
  FieldContains notificationoutbox_FieldRecipient v.
Definition notificationoutbox_RecipientHasPrefix (v : string) : sql_pred :=
  FieldHasPrefix notificationoutbox_FieldRecipient v.
Definition notificationoutbox_RecipientHasSuffix (v : string) : sql_pred :=
  FieldHasSuffix notificationoutbox_FieldRecipient v.
Definition notificationoutbox_RecipientEqualFold (v : string) : sql_pred :=
  FieldEqualFold notificationoutbox_FieldRecipient v.
Definition notificationoutbox_RecipientContainsFold (v : string) : sql_pred :=
  FieldContainsFold notificationoutbox_FieldRecipient v.
Definition notificationoutbox_ChangeIDEQ (v : string) : sql_pred :=
  FieldEQ notificationoutbox_FieldChangeID (VString v).
Definition notificationoutbox_ChangeIDNEQ (v : string) : sql_pred :=
  FieldNEQ notificationoutbox_FieldChangeID (VString v).
Definition notificationoutbox_ChangeIDIn (vs : list string) : sql_pred :=
  FieldIn notificationoutbox_FieldChangeID (VString <$> vs).
Definition notificationoutbox_ChangeIDNotIn (vs : list string) : sql_pred :=
  FieldNotIn notificationoutbox_FieldChangeID (VString <$> vs).
Definition notificationoutbox_ChangeIDGT (v : string) : sql_pred :=
  FieldGT notificationoutbox_FieldChangeID (VString v).
Definition notificationoutbox_ChangeIDGTE (v : string) : sql_pred :=
  FieldGTE notificationoutbox_FieldChangeID (VString v).
Definition notificationoutbox_ChangeIDLT (v : string) : sql_pred :=
  FieldLT notificationoutbox_FieldChangeID (VString v).
Definition notificationoutbox_ChangeIDLTE (v : string) : sql_pred :=
  FieldLTE notificationoutbox_FieldChangeID (VString v).
Definition notificationoutbox_ChangeIDContains (v : string) : sql_pred :=
  FieldContains notificationoutbox_FieldChangeID v.
Definition notificationoutbox_ChangeIDHasPrefix (v : string) : sql_pred :=
  FieldHasPrefix notificationoutbox_FieldChangeID v.
Definition notificationoutbox_ChangeIDHasSuffix (v : string) : sql_pred :=
  FieldHasSuffix notificationoutbox_FieldChangeID v.
Definition notificationoutbox_ChangeIDEqualFold (v : string) : sql_pred :=
  FieldEqualFold notificationoutbox_FieldChangeID v.
Definition notificationoutbox_ChangeIDContainsFold (v : string) : sql_pred :=
  FieldContainsFold notificationoutbox_FieldChangeID v.
Definition notificationoutbox_DedupKeyEQ (v : string) : sql_pred :=
  FieldEQ notificationoutbox_FieldDedupKey (VString v).
Definition notificationoutbox_DedupKeyNEQ (v : string) : sql_pred :=
  FieldNEQ notificationoutbox_FieldDedupKey (VString v).
Definition notificationoutbox_DedupKeyIn (vs : list string) : sql_pred :=
  FieldIn notificationoutbox_FieldDedupKey (VString <$> vs).
Definition notificationoutbox_DedupKeyNotIn (vs : list string) : sql_pred :=
  FieldNotIn notificationoutbox_FieldDedupKey (VString <$> vs).
Definition notificationoutbox_DedupKeyGT (v : string) : sql_pred :=
  FieldGT notificationoutbox_FieldDedupKey (VString v).
Definition notificationoutbox_DedupKeyGTE (v : string) : sql_pred :=
  FieldGTE notificationoutbox_FieldDedupKey (VString v).
Definition notificationoutbox_DedupKeyLT (v : string) : sql_pred :=
  FieldLT notificationoutbox_FieldDedupKey (VString v).
Definition notificationoutbox_DedupKeyLTE (v : string) : sql_pred :=
  FieldLTE notificationoutbox_FieldDedupKey (VString v).
Definition notificationoutbox_DedupKeyContains (v : string) : sql_pred :=
  FieldContains notificationoutbox_FieldDedupKey v.
Definition notificationoutbox_DedupKeyHasPrefix (v : string) : sql_pred :=
  FieldHasPrefix notificationoutbox_FieldDedupKey v.
Definition notificationoutbox_DedupKeyHasSuffix (v : string) : sql_pred :=
  FieldHasSuffix notificationoutbox_FieldDedupKey v.
Definition notificationoutbox_DedupKeyEqualFold (v : string) : sql_pred :=
  FieldEqualFold notificationoutbox_FieldDedupKey v.
Definition notificationoutbox_DedupKeyContainsFold (v : string) : sql_pred :=
  FieldContainsFold notificationoutbox_FieldDedupKey v.
Definition notificationoutbox_StatusEQ (v : string) : sql_pred :=
  FieldEQ notificationoutbox_FieldStatus (VString v).
Definition notificationoutbox_StatusNEQ (v : string) : sql_pred :=
  FieldNEQ notificationoutbox_FieldStatus (VString v).
Definition notificationoutbox_StatusIn (vs : list string) : sql_pred :=
  FieldIn notificationoutbox_FieldStatus (VString <$> vs).
Definition notificationoutbox_StatusNotIn (vs : list string) : sql_pred :=
  FieldNotIn notificationoutbox_FieldStatus (VString <$> vs).
Definition notificationoutbox_StatusGT (v : string) : sql_pred :=
  FieldGT notificationoutbox_FieldStatus (VString v).
Definition notificationoutbox_StatusGTE (v : string) : sql_pred :=
  FieldGTE notificationoutbox_FieldStatus (VString v).
Definition notificationoutbox_StatusLT (v : string) : sql_pred :=
  FieldLT notificationoutbox_FieldStatus (VString v).
Definition notificationoutbox_StatusLTE (v : string) : sql_pred :=
  FieldLTE notificationoutbox_FieldStatus (VString v).
Definition notificationoutbox_StatusContains (v : string) : sql_pred :=
  FieldContains notificationoutbox_FieldStatus v.
Definition notificationoutbox_StatusHasPrefix (v : string) : sql_pred :=
  FieldHasPrefix notificationoutbox_FieldStatus v.
Definition notificationoutbox_StatusHasSuffix (v : string) : sql_pred :=
  FieldHasSuffix notificationoutbox_FieldStatus v.
Definition notificationoutbox_StatusEqualFold (v : string) : sql_pred :=
  FieldEqualFold notificationoutbox_FieldStatus v.
Definition notificationoutbox_StatusContainsFold (v : string) : sql_pred :=
  FieldContainsFold notificationoutbox_FieldStatus v.
Definition notificationoutbox_AttemptsEQ (v : Z) : sql_pred :=
  FieldEQ notificationoutbox_FieldAttempts (VInt v).
Definition notificationoutbox_AttemptsNEQ (v : Z) : sql_pred :=
  FieldNEQ notificationoutbox_FieldAttempts (VInt v).
Definition notificationoutbox_AttemptsIn (vs : list Z) : sql_pred :=
  FieldIn notificationoutbox_FieldAttempts (VInt <$> vs).
Definition notificationoutbox_AttemptsNotIn (vs : list Z) : sql_pred :=
  FieldNotIn notificationoutbox_FieldAttempts (VInt <$> vs).
Definition notificationoutbox_AttemptsGT (v : Z) : sql_pred :=
  FieldGT notificationoutbox_FieldAttempts (VInt v).
Definition notificationoutbox_AttemptsGTE (v : Z) : sql_pred :=
  FieldGTE notificationoutbox_FieldAttempts (VInt v).
Definition notificationoutbox_AttemptsLT (v : Z) : sql_pred :=
  FieldLT notificationoutbox_FieldAttempts (VInt v).
Definition notificationoutbox_AttemptsLTE (v : Z) : sql_pred :=
  FieldLTE notificationoutbox_FieldAttempts (VInt v).
Definition notificationoutbox_NextAttemptAtEQ (v : Z) : sql_pred :=
  FieldEQ notificationoutbox_FieldNextAttemptAt (VTime v).
Definition notificationoutbox_NextAttemptAtNEQ (v : Z) : sql_pred :=
  FieldNEQ notificationoutbox_FieldNextAttemptAt (VTime v).
Definition notificationoutbox_NextAttemptAtIn (vs : list Z) : sql_pred :=
  FieldIn notificationoutbox_FieldNextAttemptAt (VTime <$> vs).
Definition notificationoutbox_NextAttemptAtNotIn (vs : list Z) : sql_pred :=
  FieldNotIn notificationoutbox_FieldNextAttemptAt (VTime <$> vs).
Definition notificationoutbox_NextAttemptAtGT (v : Z) : sql_pred :=
  FieldGT notificationoutbox_FieldNextAttemptAt (VTime v).
Definition notificationoutbox_NextAttemptAtGTE (v : Z) : sql_pred :=
  FieldGTE notificationoutbox_FieldNextAttemptAt (VTime v).
Definition notificationoutbox_NextAttemptAtLT (v : Z) : sql_pred :=
  FieldLT notificationoutbox_FieldNextAttemptAt (VTime v).
Definition notificationoutbox_NextAttemptAtLTE (v : Z) : sql_pred :=
  FieldLTE notificationoutbox_FieldNextAttemptAt (VTime v).
Definition notificationoutbox_NextAttemptAtIsNil : sql_pred :=
  FieldIsNull notificationoutbox_FieldNextAttemptAt.
Definition notificationoutbox_NextAttemptAtNotNil : sql_pred :=
  FieldNotNull notificationoutbox_FieldNextAttemptAt.
Definition notificationoutbox_LockedByEQ (v : string) : sql_pred :=
  FieldEQ notificationoutbox_FieldLockedBy (VString v).
Definition notificationoutbox_LockedByNEQ (v : string) : sql_pred :=
  FieldNEQ notificationoutbox_FieldLockedBy (VString v).
Definition notificationoutbox_LockedByIn (vs : list string) : sql_pred :=
  FieldIn notificationoutbox_FieldLockedBy (VString <$> vs).
Definition notificationoutbox_LockedByNotIn (vs : list string) : sql_pred :=
  FieldNotIn notificationoutbox_FieldLockedBy (VString <$> vs).
Definition notificationoutbox_LockedByGT (v : string) : sql_pred :=
  FieldGT notificationoutbox_FieldLockedBy (VString v).
Definition notificationoutbox_LockedByGTE (v : string) : sql_pred :=
  FieldGTE notificationoutbox_FieldLockedBy (VString v).
Definition notificationoutbox_LockedByLT (v : string) : sql_pred :=
  FieldLT notificationoutbox_FieldLockedBy (VString v).
Definition notificationoutbox_LockedByLTE (v : string) : sql_pred :=
  FieldLTE notificationoutbox_FieldLockedBy (VString v).
Definition notificationoutbox_LockedByContains (v : string) : sql_pred :=
  FieldContains notificationoutbox_FieldLockedBy v.
Definition notificationoutbox_LockedByHasPrefix (v : string) : sql_pred :=
  FieldHasPrefix notificationoutbox_FieldLockedBy v.
Definition notificationoutbox_LockedByHasSuffix (v : string) : sql_pred :=
  FieldHasSuffix notificationoutbox_FieldLockedBy v.
Definition notificationoutbox_LockedByIsNil : sql_pred := FieldIsNull notificationoutbox_FieldLockedBy.
Definition notificationoutbox_LockedByNotNil : sql_pred := FieldNotNull notificationoutbox_FieldLockedBy.
Definition notificationoutbox_LockedByEqualFold (v : string) : sql_pred :=
  FieldEqualFold notificationoutbox_FieldLockedBy v.
Definition notificationoutbox_LockedByContainsFold (v : string) : sql_pred :=
  FieldContainsFold notificationoutbox_FieldLockedBy v.
Definition notificationoutbox_LockedAtEQ (v : Z) : sql_pred :=
  FieldEQ notificationoutbox_FieldLockedAt (VTime v).
Definition notificationoutbox_LockedAtNEQ (v : Z) : sql_pred :=
  FieldNEQ notificationoutbox_FieldLockedAt (VTime v).
Definition notificationoutbox_LockedAtIn (vs : list Z) : sql_pred :=
  FieldIn notificationoutbox_FieldLockedAt (VTime <$> vs).
Definition notificationoutbox_LockedAtNotIn (vs : list Z) : sql_pred :=
  FieldNotIn notificationoutbox_FieldLockedAt (VTime <$> vs).
Definition notificationoutbox_LockedAtGT (v : Z) : sql_pred :=
  FieldGT notificationoutbox_FieldLockedAt (VTime v).
Definition notificationoutbox_LockedAtGTE (v : Z) : sql_pred :=
  FieldGTE notificationoutbox_FieldLockedAt (VTime v).
Definition notificationoutbox_LockedAtLT (v : Z) : sql_pred :=
  FieldLT notificationoutbox_FieldLockedAt (VTime v).
Definition notificationoutbox_LockedAtLTE (v : Z) : sql_pred :=
  FieldLTE notificationoutbox_FieldLockedAt (VTime v).
Definition notificationoutbox_LockedAtIsNil : sql_pred := FieldIsNull notificationoutbox_FieldLockedAt.
Definition notificationoutbox_LockedAtNotNil : sql_pred := FieldNotNull notificationoutbox_FieldLockedAt.
Definition notificationoutbox_LastErrorEQ (v : string) : sql_pred :=
  FieldEQ notificationoutbox_FieldLastError (VString v).
Definition notificationoutbox_LastErrorNEQ (v : string) : sql_pred :=
  FieldNEQ notificationoutbox_FieldLastError (VString v).
Definition notificationoutbox_LastErrorIn (vs : list string) : sql_pred :=
  FieldIn notificationoutbox_FieldLastError (VString <$> vs).
Definition notificationoutbox_LastErrorNotIn (vs : list string) : sql_pred :=
  FieldNotIn notificationoutbox_FieldLastError (VString <$> vs).
Definition notificationoutbox_LastErrorGT (v : string) : sql_pred :=
  FieldGT notificationoutbox_FieldLastError (VString v).
Definition notificationoutbox_LastErrorGTE (v : string) : sql_pred :=
  FieldGTE notificationoutbox_FieldLastError (VString v).
Definition notificationoutbox_LastErrorLT (v : string) : sql_pred :=
  FieldLT notificationoutbox_FieldLastError (VString v).
Definition notificationoutbox_LastErrorLTE (v : string) : sql_pred :=
  FieldLTE notificationoutbox_FieldLastError (VString v).
Definition notificationoutbox_LastErrorContains (v : string) : sql_pred :=
  FieldContains notificationoutbox_FieldLastError v.
Definition notificationoutbox_LastErrorHasPrefix (v : string) : sql_pred :=
  FieldHasPrefix notificationoutbox_FieldLastError v.
Definition notificationoutbox_LastErrorHasSuffix (v : string) : sql_pred :=
  FieldHasSuffix notificationoutbox_FieldLastError v.
Definition notificationoutbox_LastErrorIsNil : sql_pred := FieldIsNull notificationoutbox_FieldLastError.
Definition notificationoutbox_LastErrorNotNil : sql_pred := FieldNotNull notificationoutbox_FieldLastError.
Definition notificationoutbox_LastErrorEqualFold (v : string) : sql_pred :=
  FieldEqualFold notificationoutbox_FieldLastError v.
Definition notificationoutbox_LastErrorContainsFold (v : string) : sql_pred :=
  FieldContainsFold notificationoutbox_FieldLastError v.
Definition notificationoutbox_CreatedAtEQ (v : Z) : sql_pred :=
  FieldEQ notificationoutbox_FieldCreatedAt (VTime v).
Definition notificationoutbox_CreatedAtNEQ (v : Z) : sql_pred :=
  FieldNEQ notificationoutbox_FieldCreatedAt (VTime v).
Definition notificationoutbox_CreatedAtIn (vs : list Z) : sql_pred :=
  FieldIn notificationoutbox_FieldCreatedAt (VTime <$> vs).
Definition notificationoutbox_CreatedAtNotIn (vs : list Z) : sql_pred :=
  FieldNotIn notificationoutbox_FieldCreatedAt (VTime <$> vs).
Definition notificationoutbox_CreatedAtGT (v : Z) : sql_pred :=
  FieldGT notificationoutbox_FieldCreatedAt (VTime v).
Definition notificationoutbox_CreatedAtGTE (v : Z) : sql_pred :=
  FieldGTE notificationoutbox_FieldCreatedAt (VTime v).
Definition notificationoutbox_CreatedAtLT (v : Z) : sql_pred :=
  FieldLT notificationoutbox_FieldCreatedAt (VTime v).
Definition notificationoutbox_CreatedAtLTE (v : Z) : sql_pred :=
  FieldLTE notificationoutbox_FieldCreatedAt (VTime v).
Definition notificationoutbox_UpdatedAtEQ (v : Z) : sql_pred :=
  FieldEQ notificationoutbox_FieldUpdatedAt (VTime v).
Definition notificationoutbox_UpdatedAtNEQ (v : Z) : sql_pred :=
  FieldNEQ notificationoutbox_FieldUpdatedAt (VTime v).
Definition notificationoutbox_UpdatedAtIn (vs : list Z) : sql_pred :=
  FieldIn notificationoutbox_FieldUpdatedAt (VTime <$> vs).
Definition notificationoutbox_UpdatedAtNotIn (vs : list Z) : sql_pred :=
  FieldNotIn notificationoutbox_FieldUpdatedAt (VTime <$> vs).
Definition notificationoutbox_UpdatedAtGT (v : Z) : sql_pred :=
  FieldGT notificationoutbox_FieldUpdatedAt (VTime v).
Definition notificationoutbox_UpdatedAtGTE (v : Z) : sql_pred :=
  FieldGTE notificationoutbox_FieldUpdatedAt (VTime v).
Definition notificationoutbox_UpdatedAtLT (v : Z) : sql_pred :=
  FieldLT notificationoutbox_FieldUpdatedAt (VTime v).
Definition notificationoutbox_UpdatedAtLTE (v : Z) : sql_pred :=
  FieldLTE notificationoutbox_FieldUpdatedAt (VTime v).
Definition notificationoutbox_HasIncident : sql_pred :=
  HasNeighbors (mkStep M2O true notificationoutbox_IncidentTable [notificationoutbox_IncidentColumn] None).
Definition notificationoutbox_HasIncidentWith (preds : list sql_pred) : sql_pred :=
  HasNeighborsWith notificationoutbox_newIncidentStep preds.
Definition notificationoutbox_And (predicates : list sql_pred) : sql_pred := AndPredicates predicates.
Definition notificationoutbox_Or (predicates : list sql_pred) : sql_pred := OrPredicates predicates.
Definition notificationoutbox_Not (p : sql_pred) : sql_pred := NotPredicates p.
