(* ===== verification/EntQuery.v ===== *)
(** * The generated queries

    [ent/incident_query.go] and the query builders of the other entities: selection,
    ordering, paging, traversal of edges and eager loading.  A builder is a base that all
    have, with the queries of the edges to load; running it gives nodes with their loaded
    edges.  A closure over a query ([path]) is evaluated when it is made, since no caller
    changes a query after traversing from it.  The service registers no interceptors. *)

From S2P Require Import Prelude GoStrings GoTime Errors Models EntCore EntComponent EntComponentAttr EntIncident EntIncidentStatus EntNotificationOutbox EntComponentBuild EntComponentAttrBuild EntIncidentBuild EntIncidentStatusBuild EntNotificationOutboxBuild EntWhere.
Local Open Scope Z_scope.

(** ** What all the builders share *)

(** [sql.OrderByField(col, opts...)]. *)
Inductive OrderTerm := OrderBy (col : string) (desc : bool).

Record QueryContext := mkQueryContext {
  qc_Unique : option bool; qc_Limit : option Z; qc_Offset : option Z; qc_Fields : list string }.

(** [sql.Selector]: a table, or the neighbours of the rows of another selector. *)
Inductive Selector := mkSelector (table : string) (columns : list string) (from : option (Step * Selector))
  (distinct : bool) (predicates : list sql_pred) (order : list OrderTerm) (limit offset : option Z).

(** The join that eager loading adds to a query: the relation, the column joined with the
    id, the column selected first, and the ids it may have. *)
Record Join := mkJoin { jn_Table : string; jn_On : string; jn_Out : string; jn_In : list Z }.

Record QuerySpec := mkQuerySpec {
  qs_Table : string; qs_Columns : list string; qs_From : option (Step * Selector); qs_Unique : bool;
  qs_Predicates : list sql_pred; qs_Join : option Join; qs_Limit : Z; qs_Offset : Z; qs_Order : list OrderTerm }.

(** What the queries ask of [sqlgraph] and of the driver: rows as lists of columns, with the
    column of a join in front. *)
Class SqlReader (DB : Type) := {
  g_QueryNodes : QuerySpec → DB → graph_err + list (list (option value));
  g_CountNodes : QuerySpec → DB → graph_err + Z;
  g_SelectRows : Selector → DB → graph_err + list (list (option value)) }.

Record QueryBase := mkQueryBase {
  qb_config : config; qb_ctx : QueryContext; qb_order : list OrderTerm; qb_predicates : list sql_pred;
  qb_join : option Join; qb_path : option (ent_error + (Step * Selector)) }.
Definition newQueryBase (c : config) : QueryBase := mkQueryBase c (mkQueryContext None None None []) [] [] None None.

(** [AppendFieldOnce]. *)
Definition append_field_once (f : string) (c : QueryContext) : QueryContext :=
  if bool_decide (f ∈ qc_Fields c) then c else c <| qc_Fields ::= (λ l, l ++ [f]) |>.

(** The foreign keys of the nodes, each once. *)
Fixpoint first_seen (seen ids : list Z) : list Z :=
  match ids with
  | [] => []
  | i :: ids => if bool_decide (i ∈ seen) then first_seen seen ids else i :: first_seen (i :: seen) ids
  end.

(** [math.MaxInt32]: a limit is mandatory for the offset clause. *)
Definition max_int32 : Z := 2147483647.

(** [_q.sql]: what [prepareQuery] stored. *)
Definition base_sql (b : QueryBase) : option (Step * Selector) :=
  match qb_path b with Some (inr s) => Some s | _ => None end.

(** The rows of a specification as nodes.  Under a join a node is taken at its first row, and
    the pairs of the join are kept. *)
(** The error of [sqlgraph], as it is. *)
Definition query_error (e : graph_err) : ent_error :=
  match e with GConstraint msg => EntOther msg | _ => create_error e end.

Section Rows.
Context {N : Type} (read : list (option value) → scan_err + N).

Definition int_value (v : option value) : Z := match v with Some (VInt n) => n | _ => 0 end.

Fixpoint read_rows (rows : list (list (option value))) : scan_err + list N :=
  match rows with
  | [] => inr []
  | row :: rows =>
      match read row with
      | inl e => inl e
      | inr n => match read_rows rows with inl e => inl e | inr ns => inr (n :: ns) end
      end
  end.

Fixpoint read_joined (seen : list Z) (rows : list (list (option value))) : scan_err + (list (Z * Z) * list N) :=
  match rows with
  | [] => inr ([], [])
  | row :: rows =>
      let o := int_value (mjoin (head row)) in
      let i := int_value (mjoin (head (tail row))) in
      if bool_decide (i ∈ seen)
      then match read_joined seen rows with inl e => inl e | inr (ps, ns) => inr ((o, i) :: ps, ns) end
      else match read (tail row) with
           | inl e => inl e
           | inr n => match read_joined (i :: seen) rows with inl e => inl e | inr (ps, ns) => inr ((o, i) :: ps, n :: ns) end
           end
  end.

Definition query_nodes `{SqlReader DB} (spec : QuerySpec) (db : DB) : ent_error + (list (Z * Z) * list N) :=
  match g_QueryNodes spec db with
  | inl e => inl (query_error e)
  | inr rows =>
      match qs_Join spec with
      | None => match read_rows rows with inl e => inl (query_error (GAssign e)) | inr ns => inr ([], ns) end
      | Some _ => match read_joined [] rows with inl e => inl (query_error (GAssign e)) | inr r => inr r end
      end
  end.
End Rows.

(** The neighbours of each node, [byID] being the last node with an id. *)
Fixpoint distribute {T} (ids : list Z) (assigned : list (Z * T)) : list (list T) :=
  match ids with
  | [] => []
  | i :: ids =>
      (if bool_decide (i ∈ ids) then [] else (filterb (λ p : Z * T, p.1 == i) assigned).*2) :: distribute ids assigned
  end.

(** [nids[n.ID]]: the nodes a neighbour belongs to. *)
Definition outs (nids : list (Z * Z)) (i : Z) : list Z := remove_dups (filterb (λ p : Z * Z, p.2 == i) nids).*1.

Fixpoint assign_joined {T} (edge : string) (node_id : T → Z) (nids : list (Z * Z)) (neighbors : list T) :
    ent_error + list (Z * T) :=
  match neighbors with
  | [] => inr []
  | n :: neighbors =>
      match outs nids (node_id n) with
      | [] => inl (EntOther ("unexpected " +:+ quoted edge +:+ " node returned " +:+ Itoa (node_id n)))
      | l => match assign_joined edge node_id nids neighbors with
             | inl e => inl e
             | inr r => inr (((λ o, (o, n)) <$> l) ++ r)
             end
      end
  end.

Fixpoint assign_referenced {T} (fk_name : string) (fk node_id : T → Z) (ids : list Z) (neighbors : list T) : ent_error + list (Z * T) :=
  match neighbors with
  | [] => inr []
  | n :: neighbors =>
      if bool_decide (fk n ∈ ids)
      then match assign_referenced fk_name fk node_id ids neighbors with inl e => inl e | inr r => inr ((fk n, n) :: r) end
      else inl (EntOther ("unexpected referenced foreign-key " +:+ quoted fk_name +:+ " returned " +:+ Itoa (fk n)
        +:+ " for node " +:+ Itoa (node_id n)))
  end.

Definition checked_column (valid : string → bool) (b : QueryBase) : option ent_error :=
  match List.find (λ f, negb (valid f)) (qc_Fields (qb_ctx b)) with
  | Some f => Some (EntValidation f ("ent: invalid field " +:+ quoted f +:+ " for query"))
  | None => match qb_path b with Some (inl e) => Some e | _ => None end
  end.

(** [edge.Where] of an eagerly loaded query, and running it: [prepareQuery], then [sqlAll]. *)
Definition prepared {R} (prepare : QueryBase → option ent_error) (b : QueryBase) (run : ent_error + R) : ent_error + R :=
  match prepare b with Some e => inl e | None => run end.

(** An edge that is loaded when its query is set. *)
Definition loaded {A} (l : option (ent_error + A)) : ent_error + option A :=
  match l with None => inr None | Some (inl e) => inl e | Some (inr a) => inr (Some a) end.
Definition edge_at {A} (l : option (list A)) (i : nat) : option A := l ≫= λ l, l !! i.

Definition first_of {A} (label : string) (r : ent_error + list A) : ent_error + A :=
  match r with inl e => inl e | inr [] => inl (EntNotFound label) | inr (a :: _) => inr a end.
Definition only_of {A} (label : string) (r : ent_error + list A) : ent_error + A :=
  match r with
  | inl e => inl e
  | inr [a] => inr a
  | inr [] => inl (EntNotFound label)
  | inr _ => inl (EntNotSingular label)
  end.
Definition exist_of (r : ent_error + Z) : ent_error + bool :=
  match r with
  | inr _ => inr true
  | inl (EntNotFound _) => inr false
  | inl e => inl (EntOther ("ent: check existence: " +:+ Error e))
  end.

(** ** Orders *)

Definition incident_ByID (desc : bool) : OrderTerm := OrderBy incident_FieldID desc.
Definition incident_ByText (desc : bool) : OrderTerm := OrderBy incident_FieldText desc.
Definition incident_ByDescription (desc : bool) : OrderTerm := OrderBy incident_FieldDescription desc.
Definition incident_ByStartDate (desc : bool) : OrderTerm := OrderBy incident_FieldStartDate desc.
Definition incident_ByEndDate (desc : bool) : OrderTerm := OrderBy incident_FieldEndDate desc.
Definition incident_ByImpact (desc : bool) : OrderTerm := OrderBy incident_FieldImpact desc.
Definition incident_BySystem (desc : bool) : OrderTerm := OrderBy incident_FieldSystem desc.
Definition incident_ByType (desc : bool) : OrderTerm := OrderBy incident_FieldType desc.
Definition incident_ByStatus (desc : bool) : OrderTerm := OrderBy incident_FieldStatus desc.
Definition incident_ByCreatedAt (desc : bool) : OrderTerm := OrderBy incident_FieldCreatedAt desc.
Definition incident_ByModifiedAt (desc : bool) : OrderTerm := OrderBy incident_FieldModifiedAt desc.
Definition incident_ByDeletedAt (desc : bool) : OrderTerm := OrderBy incident_FieldDeletedAt desc.
Definition incident_ByCreatedBy (desc : bool) : OrderTerm := OrderBy incident_FieldCreatedBy desc.
Definition incident_ByContactEmail (desc : bool) : OrderTerm := OrderBy incident_FieldContactEmail desc.
Definition incident_ByVersion (desc : bool) : OrderTerm := OrderBy incident_FieldVersion desc.
Definition component_ByID (desc : bool) : OrderTerm := OrderBy component_FieldID desc.
Definition component_ByName (desc : bool) : OrderTerm := OrderBy component_FieldName desc.
Definition component_ByCreatedAt (desc : bool) : OrderTerm := OrderBy component_FieldCreatedAt desc.
Definition component_ByModifiedAt (desc : bool) : OrderTerm := OrderBy component_FieldModifiedAt desc.
Definition component_ByDeletedAt (desc : bool) : OrderTerm := OrderBy component_FieldDeletedAt desc.
Definition componentattr_ByID (desc : bool) : OrderTerm := OrderBy componentattr_FieldID desc.
Definition componentattr_ByComponentID (desc : bool) : OrderTerm := OrderBy componentattr_FieldComponentID desc.
Definition componentattr_ByName (desc : bool) : OrderTerm := OrderBy componentattr_FieldName desc.
Definition componentattr_ByValue (desc : bool) : OrderTerm := OrderBy componentattr_FieldValue desc.
Definition notificationoutbox_ByID (desc : bool) : OrderTerm := OrderBy notificationoutbox_FieldID desc.
Definition notificationoutbox_ByKind (desc : bool) : OrderTerm := OrderBy notificationoutbox_FieldKind desc.
Definition notificationoutbox_ByIncidentID (desc : bool) : OrderTerm := OrderBy notificationoutbox_FieldIncidentID desc.
Definition notificationoutbox_ByRecipient (desc : bool) : OrderTerm := OrderBy notificationoutbox_FieldRecipient desc.
Definition notificationoutbox_ByChangeID (desc : bool) : OrderTerm := OrderBy notificationoutbox_FieldChangeID desc.
Definition notificationoutbox_ByDedupKey (desc : bool) : OrderTerm := OrderBy notificationoutbox_FieldDedupKey desc.
Definition notificationoutbox_ByStatus (desc : bool) : OrderTerm := OrderBy notificationoutbox_FieldStatus desc.
Definition notificationoutbox_ByAttempts (desc : bool) : OrderTerm := OrderBy notificationoutbox_FieldAttempts desc.
Definition notificationoutbox_ByNextAttemptAt (desc : bool) : OrderTerm := OrderBy notificationoutbox_FieldNextAttemptAt desc.
Definition notificationoutbox_ByLockedBy (desc : bool) : OrderTerm := OrderBy notificationoutbox_FieldLockedBy desc.
Definition notificationoutbox_ByLockedAt (desc : bool) : OrderTerm := OrderBy notificationoutbox_FieldLockedAt desc.
Definition notificationoutbox_ByLastError (desc : bool) : OrderTerm := OrderBy notificationoutbox_FieldLastError desc.
Definition notificationoutbox_ByCreatedAt (desc : bool) : OrderTerm := OrderBy notificationoutbox_FieldCreatedAt desc.
Definition notificationoutbox_ByUpdatedAt (desc : bool) : OrderTerm := OrderBy notificationoutbox_FieldUpdatedAt desc.
Definition incidentstatus_ByID (desc : bool) : OrderTerm := OrderBy incidentstatus_FieldID desc.
Definition incidentstatus_ByIncidentID (desc : bool) : OrderTerm := OrderBy incidentstatus_FieldIncidentID desc.
Definition incidentstatus_ByTimestamp (desc : bool) : OrderTerm := OrderBy incidentstatus_FieldTimestamp desc.
Definition incidentstatus_ByText (desc : bool) : OrderTerm := OrderBy incidentstatus_FieldText desc.
Definition incidentstatus_ByStatus (desc : bool) : OrderTerm := OrderBy incidentstatus_FieldStatus desc.
Definition incidentstatus_ByCreatedAt (desc : bool) : OrderTerm := OrderBy incidentstatus_FieldCreatedAt desc.
Definition incidentstatus_ByModifiedAt (desc : bool) : OrderTerm := OrderBy incidentstatus_FieldModifiedAt desc.
Definition incidentstatus_ByDeletedAt (desc : bool) : OrderTerm := OrderBy incidentstatus_FieldDeletedAt desc.
Definition incidentstatus_ByCreatedBy (desc : bool) : OrderTerm := OrderBy incidentstatus_FieldCreatedBy desc.
Definition incidentstatus_ByModifiedBy (desc : bool) : OrderTerm := OrderBy incidentstatus_FieldModifiedBy desc.

(** ** The builders and their results *)

Inductive IncidentQuery : Set := mkIncidentQuery (IncidentQuery_base_of : QueryBase) (with_Components : option ComponentQuery) (with_Notifications : option NotificationOutboxQuery)
with ComponentQuery : Set := mkComponentQuery (ComponentQuery_base_of : QueryBase) (with_Attributes : option ComponentAttrQuery) (with_Incidents : option IncidentQuery)
with ComponentAttrQuery : Set := mkComponentAttrQuery (ComponentAttrQuery_base_of : QueryBase) (with_Component : option ComponentQuery)
with NotificationOutboxQuery : Set := mkNotificationOutboxQuery (NotificationOutboxQuery_base_of : QueryBase) (with_Incident : option IncidentQuery).
Inductive IncidentStatusQuery : Set := mkIncidentStatusQuery (IncidentStatusQuery_base_of : QueryBase).

Inductive IncidentTree : Set := mkIncidentTree (Incident_node : IncidentNode) (Incident_Components : option (list ComponentTree)) (Incident_Notifications : option (list NotificationOutboxTree))
with ComponentTree : Set := mkComponentTree (Component_node : ComponentNode) (Component_Attributes : option (list ComponentAttrTree)) (Component_Incidents : option (list IncidentTree))
with ComponentAttrTree : Set := mkComponentAttrTree (ComponentAttr_node : ComponentAttrNode) (ComponentAttr_Component : option (option ComponentTree))
with NotificationOutboxTree : Set := mkNotificationOutboxTree (NotificationOutbox_node : NotificationOutboxNode) (NotificationOutbox_Incident : option (option IncidentTree)).

Definition IncidentTree_node (t : IncidentTree) : IncidentNode := let (n, _, _) := t in n.
Definition ComponentTree_node (t : ComponentTree) : ComponentNode := let (n, _, _) := t in n.
Definition ComponentAttrTree_node (t : ComponentAttrTree) : ComponentAttrNode := let (n, _) := t in n.
Definition NotificationOutboxTree_node (t : NotificationOutboxTree) : NotificationOutboxNode := let (n, _) := t in n.

(** ** [IncidentQuery] *)

Definition IncidentQuery_base (q : IncidentQuery) : QueryBase := match q with mkIncidentQuery b _ _ => b end.
Definition IncidentQuery_on (f : QueryBase → QueryBase) (q : IncidentQuery) : IncidentQuery :=
  match q with mkIncidentQuery b w0 w1 => mkIncidentQuery (f b) w0 w1 end.
Definition IncidentQuery_Where (ps : list sql_pred) (q : IncidentQuery) : IncidentQuery :=
  IncidentQuery_on (λ b, b <| qb_predicates ::= (λ l, l ++ ps) |>) q.
Definition IncidentQuery_Limit (limit : Z) (q : IncidentQuery) : IncidentQuery :=
  IncidentQuery_on (λ b, b <| qb_ctx ::= (λ c, c <| qc_Limit := Some limit |>) |>) q.
Definition IncidentQuery_Offset (offset : Z) (q : IncidentQuery) : IncidentQuery :=
  IncidentQuery_on (λ b, b <| qb_ctx ::= (λ c, c <| qc_Offset := Some offset |>) |>) q.
Definition IncidentQuery_Unique (unique : bool) (q : IncidentQuery) : IncidentQuery :=
  IncidentQuery_on (λ b, b <| qb_ctx ::= (λ c, c <| qc_Unique := Some unique |>) |>) q.
Definition IncidentQuery_Order (o : list OrderTerm) (q : IncidentQuery) : IncidentQuery :=
  IncidentQuery_on (λ b, b <| qb_order ::= (λ l, l ++ o) |>) q.
Definition IncidentQuery_Select (fields : list string) (q : IncidentQuery) : IncidentQuery :=
  IncidentQuery_on (λ b, b <| qb_ctx ::= (λ c, c <| qc_Fields ::= (λ l, l ++ fields) |>) |>) q.
Definition IncidentQuery_prepareQuery (b : QueryBase) : option ent_error := checked_column incident_ValidColumn b.
Definition IncidentQuery_querySpec (b : QueryBase) : QuerySpec :=
  let c := qb_ctx b in
  mkQuerySpec incident_Table
    (match qc_Fields c with [] => incident_Columns | fields => incident_FieldID :: filterb (λ f, f != incident_FieldID) fields end)
    (base_sql b) (match qc_Unique c with Some u => u | None => some (qb_path b) end)
    (qb_predicates b) (qb_join b) (default 0 (qc_Limit c)) (default 0 (qc_Offset c)) (qb_order b).
Definition IncidentQuery_sqlQuery (b : QueryBase) : Selector :=
  let c := qb_ctx b in
  mkSelector incident_Table (match qc_Fields c with [] => incident_Columns | columns => columns end) (base_sql b)
    (match qc_Unique c with Some u => u | None => false end) (qb_predicates b) (qb_order b)
    (match qc_Limit c with Some limit => Some limit | None => (λ _, max_int32) <$> qc_Offset c end) (qc_Offset c).
Definition IncidentQuery_sqlCount `{SqlReader DB} (b : QueryBase) (db : DB) : ent_error + Z :=
  let spec := (IncidentQuery_querySpec b) <| qs_Columns := qc_Fields (qb_ctx b) |> in
  let spec := match qc_Fields (qb_ctx b) with
              | [] => spec
              | _ => spec <| qs_Unique := (match qc_Unique (qb_ctx b) with Some u => u | None => false end) |>
              end in
  match g_CountNodes spec db with inl e => inl (query_error e) | inr n => inr n end.
Definition IncidentClient_Query (c : config) : IncidentQuery := mkIncidentQuery (newQueryBase c) None None.

(** ** [ComponentQuery] *)

Definition ComponentQuery_base (q : ComponentQuery) : QueryBase := match q with mkComponentQuery b _ _ => b end.
Definition ComponentQuery_on (f : QueryBase → QueryBase) (q : ComponentQuery) : ComponentQuery :=
  match q with mkComponentQuery b w0 w1 => mkComponentQuery (f b) w0 w1 end.
Definition ComponentQuery_Where (ps : list sql_pred) (q : ComponentQuery) : ComponentQuery :=
  ComponentQuery_on (λ b, b <| qb_predicates ::= (λ l, l ++ ps) |>) q.
Definition ComponentQuery_Limit (limit : Z) (q : ComponentQuery) : ComponentQuery :=
  ComponentQuery_on (λ b, b <| qb_ctx ::= (λ c, c <| qc_Limit := Some limit |>) |>) q.
Definition ComponentQuery_Offset (offset : Z) (q : ComponentQuery) : ComponentQuery :=
  ComponentQuery_on (λ b, b <| qb_ctx ::= (λ c, c <| qc_Offset := Some offset |>) |>) q.
Definition ComponentQuery_Unique (unique : bool) (q : ComponentQuery) : ComponentQuery :=
  ComponentQuery_on (λ b, b <| qb_ctx ::= (λ c, c <| qc_Unique := Some unique |>) |>) q.
Definition ComponentQuery_Order (o : list OrderTerm) (q : ComponentQuery) : ComponentQuery :=
  ComponentQuery_on (λ b, b <| qb_order ::= (λ l, l ++ o) |>) q.
Definition ComponentQuery_Select (fields : list string) (q : ComponentQuery) : ComponentQuery :=
  ComponentQuery_on (λ b, b <| qb_ctx ::= (λ c, c <| qc_Fields ::= (λ l, l ++ fields) |>) |>) q.
Definition ComponentQuery_prepareQuery (b : QueryBase) : option ent_error := checked_column component_ValidColumn b.
Definition ComponentQuery_querySpec (b : QueryBase) : QuerySpec :=
  let c := qb_ctx b in
  mkQuerySpec component_Table
    (match qc_Fields c with [] => component_Columns | fields => component_FieldID :: filterb (λ f, f != component_FieldID) fields end)
    (base_sql b) (match qc_Unique c with Some u => u | None => some (qb_path b) end)
    (qb_predicates b) (qb_join b) (default 0 (qc_Limit c)) (default 0 (qc_Offset c)) (qb_order b).
Definition ComponentQuery_sqlQuery (b : QueryBase) : Selector :=
  let c := qb_ctx b in
  mkSelector component_Table (match qc_Fields c with [] => component_Columns | columns => columns end) (base_sql b)
    (match qc_Unique c with Some u => u | None => false end) (qb_predicates b) (qb_order b)
    (match qc_Limit c with Some limit => Some limit | None => (λ _, max_int32) <$> qc_Offset c end) (qc_Offset c).
Definition ComponentQuery_sqlCount `{SqlReader DB} (b : QueryBase) (db : DB) : ent_error + Z :=
  let spec := (ComponentQuery_querySpec b) <| qs_Columns := qc_Fields (qb_ctx b) |> in
  let spec := match qc_Fields (qb_ctx b) with
              | [] => spec
              | _ => spec <| qs_Unique := (match qc_Unique (qb_ctx b) with Some u => u | None => false end) |>
              end in
  match g_CountNodes spec db with inl e => inl (query_error e) | inr n => inr n end.
Definition ComponentClient_Query (c : config) : ComponentQuery := mkComponentQuery (newQueryBase c) None None.

(** ** [ComponentAttrQuery] *)

Definition ComponentAttrQuery_base (q : ComponentAttrQuery) : QueryBase := match q with mkComponentAttrQuery b _ => b end.
Definition ComponentAttrQuery_on (f : QueryBase → QueryBase) (q : ComponentAttrQuery) : ComponentAttrQuery :=
  match q with mkComponentAttrQuery b w0 => mkComponentAttrQuery (f b) w0 end.
Definition ComponentAttrQuery_Where (ps : list sql_pred) (q : ComponentAttrQuery) : ComponentAttrQuery :=
  ComponentAttrQuery_on (λ b, b <| qb_predicates ::= (λ l, l ++ ps) |>) q.
Definition ComponentAttrQuery_Limit (limit : Z) (q : ComponentAttrQuery) : ComponentAttrQuery :=
  ComponentAttrQuery_on (λ b, b <| qb_ctx ::= (λ c, c <| qc_Limit := Some limit |>) |>) q.
Definition ComponentAttrQuery_Offset (offset : Z) (q : ComponentAttrQuery) : ComponentAttrQuery :=
  ComponentAttrQuery_on (λ b, b <| qb_ctx ::= (λ c, c <| qc_Offset := Some offset |>) |>) q.
Definition ComponentAttrQuery_Unique (unique : bool) (q : ComponentAttrQuery) : ComponentAttrQuery :=
  ComponentAttrQuery_on (λ b, b <| qb_ctx ::= (λ c, c <| qc_Unique := Some unique |>) |>) q.
Definition ComponentAttrQuery_Order (o : list OrderTerm) (q : ComponentAttrQuery) : ComponentAttrQuery :=
  ComponentAttrQuery_on (λ b, b <| qb_order ::= (λ l, l ++ o) |>) q.
Definition ComponentAttrQuery_Select (fields : list string) (q : ComponentAttrQuery) : ComponentAttrQuery :=
  ComponentAttrQuery_on (λ b, b <| qb_ctx ::= (λ c, c <| qc_Fields ::= (λ l, l ++ fields) |>) |>) q.
Definition ComponentAttrQuery_prepareQuery (b : QueryBase) : option ent_error := checked_column componentattr_ValidColumn b.
Definition ComponentAttrQuery_querySpec (b : QueryBase) : QuerySpec :=
  let c := qb_ctx b in
  mkQuerySpec componentattr_Table
    (match qc_Fields c with [] => componentattr_Columns | fields => componentattr_FieldID :: filterb (λ f, f != componentattr_FieldID) fields end)
    (base_sql b) (match qc_Unique c with Some u => u | None => some (qb_path b) end)
    (qb_predicates b) (qb_join b) (default 0 (qc_Limit c)) (default 0 (qc_Offset c)) (qb_order b).
Definition ComponentAttrQuery_sqlQuery (b : QueryBase) : Selector :=
  let c := qb_ctx b in
  mkSelector componentattr_Table (match qc_Fields c with [] => componentattr_Columns | columns => columns end) (base_sql b)
    (match qc_Unique c with Some u => u | None => false end) (qb_predicates b) (qb_order b)
    (match qc_Limit c with Some limit => Some limit | None => (λ _, max_int32) <$> qc_Offset c end) (qc_Offset c).
Definition ComponentAttrQuery_sqlCount `{SqlReader DB} (b : QueryBase) (db : DB) : ent_error + Z :=
  let spec := (ComponentAttrQuery_querySpec b) <| qs_Columns := qc_Fields (qb_ctx b) |> in
  let spec := match qc_Fields (qb_ctx b) with
              | [] => spec
              | _ => spec <| qs_Unique := (match qc_Unique (qb_ctx b) with Some u => u | None => false end) |>
              end in
  match g_CountNodes spec db with inl e => inl (query_error e) | inr n => inr n end.
Definition ComponentAttrClient_Query (c : config) : ComponentAttrQuery := mkComponentAttrQuery (newQueryBase c) None.

(** ** [NotificationOutboxQuery] *)

Definition NotificationOutboxQuery_base (q : NotificationOutboxQuery) : QueryBase := match q with mkNotificationOutboxQuery b _ => b end.
Definition NotificationOutboxQuery_on (f : QueryBase → QueryBase) (q : NotificationOutboxQuery) : NotificationOutboxQuery :=
  match q with mkNotificationOutboxQuery b w0 => mkNotificationOutboxQuery (f b) w0 end.
Definition NotificationOutboxQuery_Where (ps : list sql_pred) (q : NotificationOutboxQuery) : NotificationOutboxQuery :=
  NotificationOutboxQuery_on (λ b, b <| qb_predicates ::= (λ l, l ++ ps) |>) q.
Definition NotificationOutboxQuery_Limit (limit : Z) (q : NotificationOutboxQuery) : NotificationOutboxQuery :=
  NotificationOutboxQuery_on (λ b, b <| qb_ctx ::= (λ c, c <| qc_Limit := Some limit |>) |>) q.
Definition NotificationOutboxQuery_Offset (offset : Z) (q : NotificationOutboxQuery) : NotificationOutboxQuery :=
  NotificationOutboxQuery_on (λ b, b <| qb_ctx ::= (λ c, c <| qc_Offset := Some offset |>) |>) q.
Definition NotificationOutboxQuery_Unique (unique : bool) (q : NotificationOutboxQuery) : NotificationOutboxQuery :=
  NotificationOutboxQuery_on (λ b, b <| qb_ctx ::= (λ c, c <| qc_Unique := Some unique |>) |>) q.
Definition NotificationOutboxQuery_Order (o : list OrderTerm) (q : NotificationOutboxQuery) : NotificationOutboxQuery :=
  NotificationOutboxQuery_on (λ b, b <| qb_order ::= (λ l, l ++ o) |>) q.
Definition NotificationOutboxQuery_Select (fields : list string) (q : NotificationOutboxQuery) : NotificationOutboxQuery :=
  NotificationOutboxQuery_on (λ b, b <| qb_ctx ::= (λ c, c <| qc_Fields ::= (λ l, l ++ fields) |>) |>) q.
Definition NotificationOutboxQuery_prepareQuery (b : QueryBase) : option ent_error := checked_column notificationoutbox_ValidColumn b.
Definition NotificationOutboxQuery_querySpec (b : QueryBase) : QuerySpec :=
  let c := qb_ctx b in
  mkQuerySpec notificationoutbox_Table
    (match qc_Fields c with [] => notificationoutbox_Columns | fields => notificationoutbox_FieldID :: filterb (λ f, f != notificationoutbox_FieldID) fields end)
    (base_sql b) (match qc_Unique c with Some u => u | None => some (qb_path b) end)
    (qb_predicates b) (qb_join b) (default 0 (qc_Limit c)) (default 0 (qc_Offset c)) (qb_order b).
Definition NotificationOutboxQuery_sqlQuery (b : QueryBase) : Selector :=
  let c := qb_ctx b in
  mkSelector notificationoutbox_Table (match qc_Fields c with [] => notificationoutbox_Columns | columns => columns end) (base_sql b)
    (match qc_Unique c with Some u => u | None => false end) (qb_predicates b) (qb_order b)
    (match qc_Limit c with Some limit => Some limit | None => (λ _, max_int32) <$> qc_Offset c end) (qc_Offset c).
Definition NotificationOutboxQuery_sqlCount `{SqlReader DB} (b : QueryBase) (db : DB) : ent_error + Z :=
  let spec := (NotificationOutboxQuery_querySpec b) <| qs_Columns := qc_Fields (qb_ctx b) |> in
  let spec := match qc_Fields (qb_ctx b) with
              | [] => spec
              | _ => spec <| qs_Unique := (match qc_Unique (qb_ctx b) with Some u => u | None => false end) |>
              end in
  match g_CountNodes spec db with inl e => inl (query_error e) | inr n => inr n end.
Definition NotificationOutboxClient_Query (c : config) : NotificationOutboxQuery := mkNotificationOutboxQuery (newQueryBase c) None.

(** ** [IncidentStatusQuery] *)

Definition IncidentStatusQuery_base (q : IncidentStatusQuery) : QueryBase := match q with mkIncidentStatusQuery b  => b end.
Definition IncidentStatusQuery_on (f : QueryBase → QueryBase) (q : IncidentStatusQuery) : IncidentStatusQuery :=
  match q with mkIncidentStatusQuery b  => mkIncidentStatusQuery (f b)  end.
Definition IncidentStatusQuery_Where (ps : list sql_pred) (q : IncidentStatusQuery) : IncidentStatusQuery :=
  IncidentStatusQuery_on (λ b, b <| qb_predicates ::= (λ l, l ++ ps) |>) q.
Definition IncidentStatusQuery_Limit (limit : Z) (q : IncidentStatusQuery) : IncidentStatusQuery :=
  IncidentStatusQuery_on (λ b, b <| qb_ctx ::= (λ c, c <| qc_Limit := Some limit |>) |>) q.
Definition IncidentStatusQuery_Offset (offset : Z) (q : IncidentStatusQuery) : IncidentStatusQuery :=
  IncidentStatusQuery_on (λ b, b <| qb_ctx ::= (λ c, c <| qc_Offset := Some offset |>) |>) q.
Definition IncidentStatusQuery_Unique (unique : bool) (q : IncidentStatusQuery) : IncidentStatusQuery :=
  IncidentStatusQuery_on (λ b, b <| qb_ctx ::= (λ c, c <| qc_Unique := Some unique |>) |>) q.
Definition IncidentStatusQuery_Order (o : list OrderTerm) (q : IncidentStatusQuery) : IncidentStatusQuery :=
  IncidentStatusQuery_on (λ b, b <| qb_order ::= (λ l, l ++ o) |>) q.
Definition IncidentStatusQuery_Select (fields : list string) (q : IncidentStatusQuery) : IncidentStatusQuery :=
  IncidentStatusQuery_on (λ b, b <| qb_ctx ::= (λ c, c <| qc_Fields ::= (λ l, l ++ fields) |>) |>) q.
Definition IncidentStatusQuery_prepareQuery (b : QueryBase) : option ent_error := checked_column incidentstatus_ValidColumn b.
Definition IncidentStatusQuery_querySpec (b : QueryBase) : QuerySpec :=
  let c := qb_ctx b in
  mkQuerySpec incidentstatus_Table
    (match qc_Fields c with [] => incidentstatus_Columns | fields => incidentstatus_FieldID :: filterb (λ f, f != incidentstatus_FieldID) fields end)
    (base_sql b) (match qc_Unique c with Some u => u | None => some (qb_path b) end)
    (qb_predicates b) (qb_join b) (default 0 (qc_Limit c)) (default 0 (qc_Offset c)) (qb_order b).
Definition IncidentStatusQuery_sqlQuery (b : QueryBase) : Selector :=
  let c := qb_ctx b in
  mkSelector incidentstatus_Table (match qc_Fields c with [] => incidentstatus_Columns | columns => columns end) (base_sql b)
    (match qc_Unique c with Some u => u | None => false end) (qb_predicates b) (qb_order b)
    (match qc_Limit c with Some limit => Some limit | None => (λ _, max_int32) <$> qc_Offset c end) (qc_Offset c).
Definition IncidentStatusQuery_sqlCount `{SqlReader DB} (b : QueryBase) (db : DB) : ent_error + Z :=
  let spec := (IncidentStatusQuery_querySpec b) <| qs_Columns := qc_Fields (qb_ctx b) |> in
  let spec := match qc_Fields (qb_ctx b) with
              | [] => spec
              | _ => spec <| qs_Unique := (match qc_Unique (qb_ctx b) with Some u => u | None => false end) |>
              end in
  match g_CountNodes spec db with inl e => inl (query_error e) | inr n => inr n end.
Definition IncidentStatusClient_Query (c : config) : IncidentStatusQuery := mkIncidentStatusQuery (newQueryBase c) .

(** ** Traversal and eager loading *)

Definition IncidentQuery_QueryComponents (q : IncidentQuery) : ComponentQuery :=
  ComponentQuery_on (λ b, b <| qb_path := Some (match IncidentQuery_prepareQuery (IncidentQuery_base q) with
    | Some e => inl e | None => inr (incident_newComponentsStep, IncidentQuery_sqlQuery (IncidentQuery_base q)) end) |>)
    (ComponentClient_Query (qb_config (IncidentQuery_base q))).
Definition IncidentQuery_WithComponents (opts : list (ComponentQuery → ComponentQuery)) (q : IncidentQuery) : IncidentQuery :=
  let query := foldl (λ query opt, opt query) (ComponentClient_Query (qb_config (IncidentQuery_base q))) opts in
  match q with mkIncidentQuery b _ w1 => mkIncidentQuery b (Some query) w1 end.
Definition IncidentQuery_loadComponents (run : (QueryBase → QueryBase) → ent_error + (list (Z * Z) * list ComponentTree)) (nodes : list IncidentNode) :
    ent_error + list (list ComponentTree) :=
  let edgeIDs := in_ID <$> nodes in
  let pk := incident_ComponentsPrimaryKey in
  match run (λ b, b <| qb_join := Some (mkJoin incident_ComponentsTable (nth 1 pk ""%string) (nth 0 pk ""%string) edgeIDs) |>) with
  | inl e => inl e
  | inr (nids, neighbors) =>
      match assign_joined "components" (λ t, cn_ID (ComponentTree_node t)) nids neighbors with
      | inl e => inl e
      | inr assigned => inr (distribute edgeIDs assigned)
      end
  end.
Definition IncidentQuery_QueryNotifications (q : IncidentQuery) : NotificationOutboxQuery :=
  NotificationOutboxQuery_on (λ b, b <| qb_path := Some (match IncidentQuery_prepareQuery (IncidentQuery_base q) with
    | Some e => inl e | None => inr (incident_newNotificationsStep, IncidentQuery_sqlQuery (IncidentQuery_base q)) end) |>)
    (NotificationOutboxClient_Query (qb_config (IncidentQuery_base q))).
Definition IncidentQuery_WithNotifications (opts : list (NotificationOutboxQuery → NotificationOutboxQuery)) (q : IncidentQuery) : IncidentQuery :=
  let query := foldl (λ query opt, opt query) (NotificationOutboxClient_Query (qb_config (IncidentQuery_base q))) opts in
  match q with mkIncidentQuery b w0 _ => mkIncidentQuery b w0 (Some query) end.
Definition IncidentQuery_loadNotifications (run : (QueryBase → QueryBase) → ent_error + (list (Z * Z) * list NotificationOutboxTree)) (nodes : list IncidentNode) :
    ent_error + list (list NotificationOutboxTree) :=
  let fks := in_ID <$> nodes in
  match run (λ b, b <| qb_ctx ::= (λ c, match qc_Fields c with [] => c | _ => append_field_once notificationoutbox_FieldIncidentID c end) |>
                    <| qb_predicates ::= (λ l, l ++ [FieldIn incident_NotificationsColumn (VInt <$> fks)]) |>) with
  | inl e => inl e
  | inr (_, neighbors) =>
      match assign_referenced "incident_id" (λ t, nn_IncidentID (NotificationOutboxTree_node t)) (λ t, nn_ID (NotificationOutboxTree_node t)) fks neighbors with
      | inl e => inl e
      | inr assigned => inr (distribute fks assigned)
      end
  end.
Definition ComponentQuery_QueryAttributes (q : ComponentQuery) : ComponentAttrQuery :=
  ComponentAttrQuery_on (λ b, b <| qb_path := Some (match ComponentQuery_prepareQuery (ComponentQuery_base q) with
    | Some e => inl e | None => inr (component_newAttributesStep, ComponentQuery_sqlQuery (ComponentQuery_base q)) end) |>)
    (ComponentAttrClient_Query (qb_config (ComponentQuery_base q))).
Definition ComponentQuery_WithAttributes (opts : list (ComponentAttrQuery → ComponentAttrQuery)) (q : ComponentQuery) : ComponentQuery :=
  let query := foldl (λ query opt, opt query) (ComponentAttrClient_Query (qb_config (ComponentQuery_base q))) opts in
  match q with mkComponentQuery b _ w1 => mkComponentQuery b (Some query) w1 end.
Definition ComponentQuery_loadAttributes (run : (QueryBase → QueryBase) → ent_error + (list (Z * Z) * list ComponentAttrTree)) (nodes : list ComponentNode) :
    ent_error + list (list ComponentAttrTree) :=
  let fks := cn_ID <$> nodes in
  match run (λ b, b <| qb_ctx ::= (λ c, match qc_Fields c with [] => c | _ => append_field_once componentattr_FieldComponentID c end) |>
                    <| qb_predicates ::= (λ l, l ++ [FieldIn component_AttributesColumn (VInt <$> fks)]) |>) with
  | inl e => inl e
  | inr (_, neighbors) =>
      match assign_referenced "component_id" (λ t, an_ComponentID (ComponentAttrTree_node t)) (λ t, an_ID (ComponentAttrTree_node t)) fks neighbors with
      | inl e => inl e
      | inr assigned => inr (distribute fks assigned)
      end
  end.
Definition ComponentQuery_QueryIncidents (q : ComponentQuery) : IncidentQuery :=
  IncidentQuery_on (λ b, b <| qb_path := Some (match ComponentQuery_prepareQuery (ComponentQuery_base q) with
    | Some e => inl e | None => inr (component_newIncidentsStep, ComponentQuery_sqlQuery (ComponentQuery_base q)) end) |>)
    (IncidentClient_Query (qb_config (ComponentQuery_base q))).
Definition ComponentQuery_WithIncidents (opts : list (IncidentQuery → IncidentQuery)) (q : ComponentQuery) : ComponentQuery :=
  let query := foldl (λ query opt, opt query) (IncidentClient_Query (qb_config (ComponentQuery_base q))) opts in
  match q with mkComponentQuery b w0 _ => mkComponentQuery b w0 (Some query) end.
Definition ComponentQuery_loadIncidents (run : (QueryBase → QueryBase) → ent_error + (list (Z * Z) * list IncidentTree)) (nodes : list ComponentNode) :
    ent_error + list (list IncidentTree) :=
  let edgeIDs := cn_ID <$> nodes in
  let pk := component_IncidentsPrimaryKey in
  match run (λ b, b <| qb_join := Some (mkJoin component_IncidentsTable (nth 0 pk ""%string) (nth 1 pk ""%string) edgeIDs) |>) with
  | inl e => inl e
  | inr (nids, neighbors) =>
      match assign_joined "incidents" (λ t, in_ID (IncidentTree_node t)) nids neighbors with
      | inl e => inl e
      | inr assigned => inr (distribute edgeIDs assigned)
      end
  end.
Definition ComponentAttrQuery_QueryComponent (q : ComponentAttrQuery) : ComponentQuery :=
  ComponentQuery_on (λ b, b <| qb_path := Some (match ComponentAttrQuery_prepareQuery (ComponentAttrQuery_base q) with
    | Some e => inl e | None => inr (componentattr_newComponentStep, ComponentAttrQuery_sqlQuery (ComponentAttrQuery_base q)) end) |>)
    (ComponentClient_Query (qb_config (ComponentAttrQuery_base q))).
Definition ComponentAttrQuery_WithComponent (opts : list (ComponentQuery → ComponentQuery)) (q : ComponentAttrQuery) : ComponentAttrQuery :=
  let query := foldl (λ query opt, opt query) (ComponentClient_Query (qb_config (ComponentAttrQuery_base q))) opts in
  match q with mkComponentAttrQuery b _ => mkComponentAttrQuery b (Some query) end.
Definition ComponentAttrQuery_loadComponent (run : (QueryBase → QueryBase) → ent_error + (list (Z * Z) * list ComponentTree)) (nodes : list ComponentAttrNode) :
    ent_error + list (option ComponentTree) :=
  let fks := an_ComponentID <$> nodes in
  match first_seen [] fks with
  | [] => inr ((λ _, None) <$> nodes)
  | ids =>
      match run (λ b, b <| qb_predicates ::= (λ l, l ++ [component_IDIn ids]) |>) with
      | inl e => inl e
      | inr (_, neighbors) =>
          match List.find (λ t, negb (bool_decide (cn_ID (ComponentTree_node t) ∈ fks))) neighbors with
          | Some t => inl (EntOther ("unexpected foreign-key " +:+ quoted "component_id" +:+ " returned " +:+ Itoa (cn_ID (ComponentTree_node t))))
          | None => inr ((λ fk, last (filterb (λ t, cn_ID (ComponentTree_node t) == fk) neighbors)) <$> fks)
          end
      end
  end.
Definition NotificationOutboxQuery_QueryIncident (q : NotificationOutboxQuery) : IncidentQuery :=
  IncidentQuery_on (λ b, b <| qb_path := Some (match NotificationOutboxQuery_prepareQuery (NotificationOutboxQuery_base q) with
    | Some e => inl e | None => inr (notificationoutbox_newIncidentStep, NotificationOutboxQuery_sqlQuery (NotificationOutboxQuery_base q)) end) |>)
    (IncidentClient_Query (qb_config (NotificationOutboxQuery_base q))).
Definition NotificationOutboxQuery_WithIncident (opts : list (IncidentQuery → IncidentQuery)) (q : NotificationOutboxQuery) : NotificationOutboxQuery :=
  let query := foldl (λ query opt, opt query) (IncidentClient_Query (qb_config (NotificationOutboxQuery_base q))) opts in
  match q with mkNotificationOutboxQuery b _ => mkNotificationOutboxQuery b (Some query) end.
Definition NotificationOutboxQuery_loadIncident (run : (QueryBase → QueryBase) → ent_error + (list (Z * Z) * list IncidentTree)) (nodes : list NotificationOutboxNode) :
    ent_error + list (option IncidentTree) :=
  let fks := nn_IncidentID <$> nodes in
  match first_seen [] fks with
  | [] => inr ((λ _, None) <$> nodes)
  | ids =>
      match run (λ b, b <| qb_predicates ::= (λ l, l ++ [incident_IDIn ids]) |>) with
      | inl e => inl e
      | inr (_, neighbors) =>
          match List.find (λ t, negb (bool_decide (in_ID (IncidentTree_node t) ∈ fks))) neighbors with
          | Some t => inl (EntOther ("unexpected foreign-key " +:+ quoted "incident_id" +:+ " returned " +:+ Itoa (in_ID (IncidentTree_node t))))
          | None => inr ((λ fk, last (filterb (λ t, in_ID (IncidentTree_node t) == fk) neighbors)) <$> fks)
          end
      end
  end.

Section Run.
Context `{SqlReader DB} (db : DB).

Fixpoint IncidentQuery_sqlAll (q : IncidentQuery) (f : QueryBase → QueryBase) {struct q} : ent_error + (list (Z * Z) * list IncidentTree) :=
  match q with mkIncidentQuery b0 w0 w1 =>
    let spec := IncidentQuery_querySpec (f b0) in
    match query_nodes (λ row, Incident_assignValues (qs_Columns spec) (zip_with scan (Incident_scanValues (qs_Columns spec)) row) newIncidentNode) spec db with
    | inl e => inl e
    | inr (pairs, []) => inr (pairs, [])
    | inr (pairs, nodes) =>
        let l0 := match w0 with
          | None => None
          | Some qe => Some (IncidentQuery_loadComponents (λ g, prepared ComponentQuery_prepareQuery (g (ComponentQuery_base qe)) (ComponentQuery_sqlAll qe g)) nodes)
          end in
        let l1 := match w1 with
          | None => None
          | Some qe => Some (IncidentQuery_loadNotifications (λ g, prepared NotificationOutboxQuery_prepareQuery (g (NotificationOutboxQuery_base qe)) (NotificationOutboxQuery_sqlAll qe g)) nodes)
          end in
        match loaded l0 with
        | inl e => inl e
        | inr e0 =>
            match loaded l1 with
            | inl e => inl e
            | inr e1 => inr (pairs, imap (λ i n, mkIncidentTree n (edge_at e0 i) (edge_at e1 i)) nodes)
            end
        end
    end
  end
with ComponentQuery_sqlAll (q : ComponentQuery) (f : QueryBase → QueryBase) {struct q} : ent_error + (list (Z * Z) * list ComponentTree) :=
  match q with mkComponentQuery b0 w0 w1 =>
    let spec := ComponentQuery_querySpec (f b0) in
    match query_nodes (λ row, Component_assignValues (qs_Columns spec) (zip_with scan (Component_scanValues (qs_Columns spec)) row) newComponentNode) spec db with
    | inl e => inl e
    | inr (pairs, []) => inr (pairs, [])
    | inr (pairs, nodes) =>
        let l0 := match w0 with
          | None => None
          | Some qe => Some (ComponentQuery_loadAttributes (λ g, prepared ComponentAttrQuery_prepareQuery (g (ComponentAttrQuery_base qe)) (ComponentAttrQuery_sqlAll qe g)) nodes)
          end in
        let l1 := match w1 with
          | None => None
          | Some qe => Some (ComponentQuery_loadIncidents (λ g, prepared IncidentQuery_prepareQuery (g (IncidentQuery_base qe)) (IncidentQuery_sqlAll qe g)) nodes)
          end in
        match loaded l0 with
        | inl e => inl e
        | inr e0 =>
            match loaded l1 with
            | inl e => inl e
            | inr e1 => inr (pairs, imap (λ i n, mkComponentTree n (edge_at e0 i) (edge_at e1 i)) nodes)
            end
        end
    end
  end
with ComponentAttrQuery_sqlAll (q : ComponentAttrQuery) (f : QueryBase → QueryBase) {struct q} : ent_error + (list (Z * Z) * list ComponentAttrTree) :=
  match q with mkComponentAttrQuery b0 w0 =>
    let spec := ComponentAttrQuery_querySpec (f b0) in
    match query_nodes (λ row, ComponentAttr_assignValues (qs_Columns spec) (zip_with scan (ComponentAttr_scanValues (qs_Columns spec)) row) newComponentAttrNode) spec db with
    | inl e => inl e
    | inr (pairs, []) => inr (pairs, [])
    | inr (pairs, nodes) =>
        let l0 := match w0 with
          | None => None
          | Some qe => Some (ComponentAttrQuery_loadComponent (λ g, prepared ComponentQuery_prepareQuery (g (ComponentQuery_base qe)) (ComponentQuery_sqlAll qe g)) nodes)
          end in
        match loaded l0 with
        | inl e => inl e
        | inr e0 => inr (pairs, imap (λ i n, mkComponentAttrTree n (edge_at e0 i)) nodes)
        end
    end
  end
with NotificationOutboxQuery_sqlAll (q : NotificationOutboxQuery) (f : QueryBase → QueryBase) {struct q} : ent_error + (list (Z * Z) * list NotificationOutboxTree) :=
  match q with mkNotificationOutboxQuery b0 w0 =>
    let spec := NotificationOutboxQuery_querySpec (f b0) in
    match query_nodes (λ row, NotificationOutbox_assignValues (qs_Columns spec) (zip_with scan (NotificationOutbox_scanValues (qs_Columns spec)) row) newNotificationOutboxNode) spec db with
    | inl e => inl e
    | inr (pairs, []) => inr (pairs, [])
    | inr (pairs, nodes) =>
        let l0 := match w0 with
          | None => None
          | Some qe => Some (NotificationOutboxQuery_loadIncident (λ g, prepared IncidentQuery_prepareQuery (g (IncidentQuery_base qe)) (IncidentQuery_sqlAll qe g)) nodes)
          end in
        match loaded l0 with
        | inl e => inl e
        | inr e0 => inr (pairs, imap (λ i n, mkNotificationOutboxTree n (edge_at e0 i)) nodes)
        end
    end
  end.

Definition IncidentStatusQuery_sqlAll (q : IncidentStatusQuery) : ent_error + list IncidentStatusNode :=
  let spec := IncidentStatusQuery_querySpec (IncidentStatusQuery_base q) in
  match query_nodes (λ row, IncidentStatus_assignValues (qs_Columns spec)
          (zip_with scan (IncidentStatus_scanValues (qs_Columns spec)) row) newIncidentStatusNode) spec db with
  | inl e => inl e
  | inr (_, nodes) => inr nodes
  end.

(** ** Terminal calls *)

Definition IncidentQuery_All (q : IncidentQuery) : ent_error + list IncidentTree :=
  prepared IncidentQuery_prepareQuery (IncidentQuery_base q) (match IncidentQuery_sqlAll q id with inl e => inl e | inr (_, ns) => inr ns end).
Definition IncidentQuery_First (q : IncidentQuery) : ent_error + IncidentTree := first_of incident_Label (IncidentQuery_All (IncidentQuery_Limit 1 q)).
Definition IncidentQuery_Only (q : IncidentQuery) : ent_error + IncidentTree := only_of incident_Label (IncidentQuery_All (IncidentQuery_Limit 2 q)).
Definition IncidentQuery_IDs (q : IncidentQuery) : ent_error + list Z :=
  let b := IncidentQuery_base q in
  let q := if negb (some (qc_Unique (qb_ctx b))) && some (qb_path b) then IncidentQuery_Unique true q else q in
  let b := IncidentQuery_base (IncidentQuery_Select [incident_FieldID] q) in
  prepared IncidentQuery_prepareQuery b
    (match g_SelectRows (IncidentQuery_sqlQuery b) db with
     | inl e => inl (query_error e)
     | inr rows => inr ((λ row, int_value (mjoin (head row))) <$> rows)
     end).
Definition IncidentQuery_FirstID (q : IncidentQuery) : ent_error + Z := first_of incident_Label (IncidentQuery_IDs (IncidentQuery_Limit 1 q)).
Definition IncidentQuery_OnlyID (q : IncidentQuery) : ent_error + Z := only_of incident_Label (IncidentQuery_IDs (IncidentQuery_Limit 2 q)).
Definition IncidentQuery_Count (q : IncidentQuery) : ent_error + Z :=
  prepared IncidentQuery_prepareQuery (IncidentQuery_base q) (IncidentQuery_sqlCount (IncidentQuery_base q) db).
Definition IncidentQuery_Exist (q : IncidentQuery) : ent_error + bool := exist_of (IncidentQuery_FirstID q).
Definition IncidentClient_Get (c : config) (id : Z) : ent_error + IncidentTree := IncidentQuery_Only (IncidentQuery_Where [incident_ID id] (IncidentClient_Query c)).

Definition ComponentQuery_All (q : ComponentQuery) : ent_error + list ComponentTree :=
  prepared ComponentQuery_prepareQuery (ComponentQuery_base q) (match ComponentQuery_sqlAll q id with inl e => inl e | inr (_, ns) => inr ns end).
Definition ComponentQuery_First (q : ComponentQuery) : ent_error + ComponentTree := first_of component_Label (ComponentQuery_All (ComponentQuery_Limit 1 q)).
Definition ComponentQuery_Only (q : ComponentQuery) : ent_error + ComponentTree := only_of component_Label (ComponentQuery_All (ComponentQuery_Limit 2 q)).
Definition ComponentQuery_IDs (q : ComponentQuery) : ent_error + list Z :=
  let b := ComponentQuery_base q in
  let q := if negb (some (qc_Unique (qb_ctx b))) && some (qb_path b) then ComponentQuery_Unique true q else q in
  let b := ComponentQuery_base (ComponentQuery_Select [component_FieldID] q) in
  prepared ComponentQuery_prepareQuery b
    (match g_SelectRows (ComponentQuery_sqlQuery b) db with
     | inl e => inl (query_error e)
     | inr rows => inr ((λ row, int_value (mjoin (head row))) <$> rows)
     end).
Definition ComponentQuery_FirstID (q : ComponentQuery) : ent_error + Z := first_of component_Label (ComponentQuery_IDs (ComponentQuery_Limit 1 q)).
Definition ComponentQuery_OnlyID (q : ComponentQuery) : ent_error + Z := only_of component_Label (ComponentQuery_IDs (ComponentQuery_Limit 2 q)).
Definition ComponentQuery_Count (q : ComponentQuery) : ent_error + Z :=
  prepared ComponentQuery_prepareQuery (ComponentQuery_base q) (ComponentQuery_sqlCount (ComponentQuery_base q) db).
Definition ComponentQuery_Exist (q : ComponentQuery) : ent_error + bool := exist_of (ComponentQuery_FirstID q).
Definition ComponentClient_Get (c : config) (id : Z) : ent_error + ComponentTree := ComponentQuery_Only (ComponentQuery_Where [component_ID id] (ComponentClient_Query c)).

Definition ComponentAttrQuery_All (q : ComponentAttrQuery) : ent_error + list ComponentAttrTree :=
  prepared ComponentAttrQuery_prepareQuery (ComponentAttrQuery_base q) (match ComponentAttrQuery_sqlAll q id with inl e => inl e | inr (_, ns) => inr ns end).
Definition ComponentAttrQuery_First (q : ComponentAttrQuery) : ent_error + ComponentAttrTree := first_of componentattr_Label (ComponentAttrQuery_All (ComponentAttrQuery_Limit 1 q)).
Definition ComponentAttrQuery_Only (q : ComponentAttrQuery) : ent_error + ComponentAttrTree := only_of componentattr_Label (ComponentAttrQuery_All (ComponentAttrQuery_Limit 2 q)).
Definition ComponentAttrQuery_IDs (q : ComponentAttrQuery) : ent_error + list Z :=
  let b := ComponentAttrQuery_base q in
  let q := if negb (some (qc_Unique (qb_ctx b))) && some (qb_path b) then ComponentAttrQuery_Unique true q else q in
  let b := ComponentAttrQuery_base (ComponentAttrQuery_Select [componentattr_FieldID] q) in
  prepared ComponentAttrQuery_prepareQuery b
    (match g_SelectRows (ComponentAttrQuery_sqlQuery b) db with
     | inl e => inl (query_error e)
     | inr rows => inr ((λ row, int_value (mjoin (head row))) <$> rows)
     end).
Definition ComponentAttrQuery_FirstID (q : ComponentAttrQuery) : ent_error + Z := first_of componentattr_Label (ComponentAttrQuery_IDs (ComponentAttrQuery_Limit 1 q)).
Definition ComponentAttrQuery_OnlyID (q : ComponentAttrQuery) : ent_error + Z := only_of componentattr_Label (ComponentAttrQuery_IDs (ComponentAttrQuery_Limit 2 q)).
Definition ComponentAttrQuery_Count (q : ComponentAttrQuery) : ent_error + Z :=
  prepared ComponentAttrQuery_prepareQuery (ComponentAttrQuery_base q) (ComponentAttrQuery_sqlCount (ComponentAttrQuery_base q) db).
Definition ComponentAttrQuery_Exist (q : ComponentAttrQuery) : ent_error + bool := exist_of (ComponentAttrQuery_FirstID q).
Definition ComponentAttrClient_Get (c : config) (id : Z) : ent_error + ComponentAttrTree := ComponentAttrQuery_Only (ComponentAttrQuery_Where [componentattr_ID id] (ComponentAttrClient_Query c)).

Definition NotificationOutboxQuery_All (q : NotificationOutboxQuery) : ent_error + list NotificationOutboxTree :=
  prepared NotificationOutboxQuery_prepareQuery (NotificationOutboxQuery_base q) (match NotificationOutboxQuery_sqlAll q id with inl e => inl e | inr (_, ns) => inr ns end).
Definition NotificationOutboxQuery_First (q : NotificationOutboxQuery) : ent_error + NotificationOutboxTree := first_of notificationoutbox_Label (NotificationOutboxQuery_All (NotificationOutboxQuery_Limit 1 q)).
Definition NotificationOutboxQuery_Only (q : NotificationOutboxQuery) : ent_error + NotificationOutboxTree := only_of notificationoutbox_Label (NotificationOutboxQuery_All (NotificationOutboxQuery_Limit 2 q)).
Definition NotificationOutboxQuery_IDs (q : NotificationOutboxQuery) : ent_error + list Z :=
  let b := NotificationOutboxQuery_base q in
  let q := if negb (some (qc_Unique (qb_ctx b))) && some (qb_path b) then NotificationOutboxQuery_Unique true q else q in
  let b := NotificationOutboxQuery_base (NotificationOutboxQuery_Select [notificationoutbox_FieldID] q) in
  prepared NotificationOutboxQuery_prepareQuery b
    (match g_SelectRows (NotificationOutboxQuery_sqlQuery b) db with
     | inl e => inl (query_error e)
     | inr rows => inr ((λ row, int_value (mjoin (head row))) <$> rows)
     end).
Definition NotificationOutboxQuery_FirstID (q : NotificationOutboxQuery) : ent_error + Z := first_of notificationoutbox_Label (NotificationOutboxQuery_IDs (NotificationOutboxQuery_Limit 1 q)).
Definition NotificationOutboxQuery_OnlyID (q : NotificationOutboxQuery) : ent_error + Z := only_of notificationoutbox_Label (NotificationOutboxQuery_IDs (NotificationOutboxQuery_Limit 2 q)).
Definition NotificationOutboxQuery_Count (q : NotificationOutboxQuery) : ent_error + Z :=
  prepared NotificationOutboxQuery_prepareQuery (NotificationOutboxQuery_base q) (NotificationOutboxQuery_sqlCount (NotificationOutboxQuery_base q) db).
Definition NotificationOutboxQuery_Exist (q : NotificationOutboxQuery) : ent_error + bool := exist_of (NotificationOutboxQuery_FirstID q).
Definition NotificationOutboxClient_Get (c : config) (id : Z) : ent_error + NotificationOutboxTree := NotificationOutboxQuery_Only (NotificationOutboxQuery_Where [notificationoutbox_ID id] (NotificationOutboxClient_Query c)).

Definition IncidentStatusQuery_All (q : IncidentStatusQuery) : ent_error + list IncidentStatusNode :=
  prepared IncidentStatusQuery_prepareQuery (IncidentStatusQuery_base q) (IncidentStatusQuery_sqlAll q).
Definition IncidentStatusQuery_First (q : IncidentStatusQuery) : ent_error + IncidentStatusNode := first_of incidentstatus_Label (IncidentStatusQuery_All (IncidentStatusQuery_Limit 1 q)).
Definition IncidentStatusQuery_Only (q : IncidentStatusQuery) : ent_error + IncidentStatusNode := only_of incidentstatus_Label (IncidentStatusQuery_All (IncidentStatusQuery_Limit 2 q)).
Definition IncidentStatusQuery_IDs (q : IncidentStatusQuery) : ent_error + list Z :=
  let b := IncidentStatusQuery_base q in
  let q := if negb (some (qc_Unique (qb_ctx b))) && some (qb_path b) then IncidentStatusQuery_Unique true q else q in
  let b := IncidentStatusQuery_base (IncidentStatusQuery_Select [incidentstatus_FieldID] q) in
  prepared IncidentStatusQuery_prepareQuery b
    (match g_SelectRows (IncidentStatusQuery_sqlQuery b) db with
     | inl e => inl (query_error e)
     | inr rows => inr ((λ row, int_value (mjoin (head row))) <$> rows)
     end).
Definition IncidentStatusQuery_FirstID (q : IncidentStatusQuery) : ent_error + Z := first_of incidentstatus_Label (IncidentStatusQuery_IDs (IncidentStatusQuery_Limit 1 q)).
Definition IncidentStatusQuery_OnlyID (q : IncidentStatusQuery) : ent_error + Z := only_of incidentstatus_Label (IncidentStatusQuery_IDs (IncidentStatusQuery_Limit 2 q)).
Definition IncidentStatusQuery_Count (q : IncidentStatusQuery) : ent_error + Z :=
  prepared IncidentStatusQuery_prepareQuery (IncidentStatusQuery_base q) (IncidentStatusQuery_sqlCount (IncidentStatusQuery_base q) db).
Definition IncidentStatusQuery_Exist (q : IncidentStatusQuery) : ent_error + bool := exist_of (IncidentStatusQuery_FirstID q).
Definition IncidentStatusClient_Get (c : config) (id : Z) : ent_error + IncidentStatusNode := IncidentStatusQuery_Only (IncidentStatusQuery_Where [incidentstatus_ID id] (IncidentStatusClient_Query c)).

End Run.
