(* ===== verification/EntLaws.v ===== *)
(** * The contract of a mutation

    The generated mutation types implement one Go interface, [ent.Mutation].  Here it is a
    class, with a lawful instance for each of the five entities: access by name agrees
    with the schema, and the methods by name do what their documentation says. *)

From S2P Require Import Prelude GoStrings GoTime Errors Models EntCore EntComponent EntComponentAttr EntIncident EntIncidentStatus EntNotificationOutbox.
Local Open Scope Z_scope.

Inductive kind := KInt | KString | KBool | KTime | KType | KJSON.
#[global] Instance kind_eq_dec : EqDecision kind.
Proof. solve_decision. Defined.

Definition kind_of (v : value) : kind :=
  match v with
  | VInt _ => KInt | VString _ => KString | VBool _ => KBool | VTime _ => KTime | VType _ => KType | VJSON _ => KJSON
  end.

(** The interface [ent.Mutation]. *)
Class EntMutation (T : Type) := {
  mu_Op : T → Op; mu_SetOp : Op → T → T; mu_Type : T → string;
  mu_Fields : T → list string; mu_Field : string → T → option value; mu_SetField : string → value → T → string + T;
  mu_AddedFields : T → list string; mu_AddedField : string → T → option value;
  mu_AddField : string → value → T → string + T;
  mu_ClearedFields : T → list string; mu_FieldCleared : string → T → bool; mu_ClearField : string → T → string + T;
  mu_ResetField : string → T → string + T;
  mu_AddedEdges : T → list string; mu_AddedIDs : string → T → list Z;
  mu_RemovedEdges : T → list string; mu_RemovedIDs : string → T → list Z;
  mu_ClearedEdges : T → list string; mu_EdgeCleared : string → T → bool;
  mu_ClearEdge : string → T → string + T; mu_ResetEdge : string → T → string + T }.

(** What the schema says of an entity: its fields with their types, the numeric ones, the
    nullable ones, and its edges. *)
Record schema := mkSchema {
  sc_name : string; sc_fields : list (string * kind); sc_numeric : list string;
  sc_nullable : list string; sc_edges : list string }.

Definition field_kind (sc : schema) (name : string) : option kind :=
  switch name (prod_map id Some <$> sc_fields sc) None.

(** A step by name: it changes the named field alone. *)
Definition only_field {T} `{EntMutation T} (name : string) (m m' : T) : Prop :=
  (∀ n, n ≠ name → mu_Field n m' = mu_Field n m) ∧ (∀ n, n ≠ name → mu_AddedField n m' = mu_AddedField n m)
  ∧ (∀ n, n ≠ name → mu_FieldCleared n m' = mu_FieldCleared n m) ∧ mu_Op m' = mu_Op m ∧ mu_Type m' = mu_Type m.

Class LawfulMutation (T : Type) `{EntMutation T} (sc : schema) : Prop := {
  law_fields m name : name ∈ mu_Fields m ↔ is_Some (mu_Field name m);
  law_added m name : name ∈ mu_AddedFields m ↔ is_Some (mu_AddedField name m);
  law_cleared m name : name ∈ mu_ClearedFields m ↔ name ∈ sc_nullable sc ∧ mu_FieldCleared name m = true;
  law_set m name v : field_kind sc name = Some (kind_of v) → ∃ m', mu_SetField name v m = inr m'
    ∧ mu_Field name m' = Some v ∧ mu_AddedField name m' = None
    ∧ mu_FieldCleared name m' = mu_FieldCleared name m ∧ only_field name m m';
  law_set_type m name v k : field_kind sc name = Some k → k ≠ kind_of v →
    mu_SetField name v m = inl ("unexpected type " +:+ type_name v +:+ " for field " +:+ name);
  law_set_unknown m name v : field_kind sc name = None →
    mu_SetField name v m = inl ("unknown " +:+ sc_name sc +:+ " field " +:+ name);
  law_add m name n : name ∈ sc_numeric sc → ∃ m', mu_AddField name (VInt n) m = inr m'
    ∧ mu_AddedField name m' = Some (VInt (match mu_AddedField name m with Some (VInt a) => int64 (a + n) | _ => n end))
    ∧ mu_Field name m' = mu_Field name m ∧ only_field name m m';
  law_add_unknown m name v : name ∉ sc_numeric sc →
    mu_AddField name v m = inl ("unknown " +:+ sc_name sc +:+ " numeric field " +:+ name);
  law_clear m name : name ∈ sc_nullable sc → ∃ m', mu_ClearField name m = inr m'
    ∧ mu_Field name m' = None ∧ mu_AddedField name m' = None ∧ mu_FieldCleared name m' = true ∧ only_field name m m';
  law_clear_unknown m name : name ∉ sc_nullable sc →
    mu_ClearField name m = inl ("unknown " +:+ sc_name sc +:+ " nullable field " +:+ name);
  law_reset m name : is_Some (field_kind sc name) → ∃ m', mu_ResetField name m = inr m'
    ∧ mu_Field name m' = None ∧ mu_AddedField name m' = None
    ∧ (name ∈ sc_nullable sc → mu_FieldCleared name m' = false) ∧ only_field name m m';
  law_reset_unknown m name : field_kind sc name = None →
    mu_ResetField name m = inl ("unknown " +:+ sc_name sc +:+ " field " +:+ name);
  law_edge_cleared m name : name ∈ mu_ClearedEdges m ↔ mu_EdgeCleared name m = true;
  law_edge_ids m name : (mu_AddedIDs name m ≠ [] → name ∈ mu_AddedEdges m) ∧ (mu_RemovedIDs name m ≠ [] → name ∈ mu_RemovedEdges m);
  law_edge_reset m name : name ∈ sc_edges sc → ∃ m', mu_ResetEdge name m = inr m'
    ∧ name ∉ mu_AddedEdges m' ∧ name ∉ mu_RemovedEdges m' ∧ mu_EdgeCleared name m' = false
    ∧ (∀ e, e ≠ name → mu_AddedIDs e m' = mu_AddedIDs e m);
  law_edge_unknown m name : name ∉ sc_edges sc →
    mu_ResetEdge name m = inl ("unknown " +:+ sc_name sc +:+ " edge " +:+ name) }.

(** ** The five instances *)

#[global] Instance ComponentMutation_ops : EntMutation ComponentMutation := {|
  mu_Op := ComponentMutation_Op; mu_SetOp := ComponentMutation_SetOp;
  mu_Type := ComponentMutation_Type; mu_Fields := ComponentMutation_Fields;
  mu_Field := ComponentMutation_Field; mu_SetField := ComponentMutation_SetField;
  mu_AddedFields := ComponentMutation_AddedFields; mu_AddedField := ComponentMutation_AddedField;
  mu_AddField := ComponentMutation_AddField; mu_ClearedFields := ComponentMutation_ClearedFields;
  mu_FieldCleared := ComponentMutation_FieldCleared; mu_ClearField := ComponentMutation_ClearField;
  mu_ResetField := ComponentMutation_ResetField; mu_AddedEdges := ComponentMutation_AddedEdges;
  mu_AddedIDs := ComponentMutation_AddedIDs; mu_RemovedEdges := ComponentMutation_RemovedEdges;
  mu_RemovedIDs := ComponentMutation_RemovedIDs; mu_ClearedEdges := ComponentMutation_ClearedEdges;
  mu_EdgeCleared := ComponentMutation_EdgeCleared; mu_ClearEdge := ComponentMutation_ClearEdge;
  mu_ResetEdge := ComponentMutation_ResetEdge |}.
Definition component_schema : schema := mkSchema "Component"
  [(component_FieldName, KString); (component_FieldCreatedAt, KTime); (component_FieldModifiedAt, KTime);
    (component_FieldDeletedAt, KTime)]
  []
  [component_FieldCreatedAt; component_FieldModifiedAt; component_FieldDeletedAt]
  [component_EdgeAttributes; component_EdgeIncidents].

#[global] Instance ComponentAttrMutation_ops : EntMutation ComponentAttrMutation := {|
  mu_Op := ComponentAttrMutation_Op; mu_SetOp := ComponentAttrMutation_SetOp;
  mu_Type := ComponentAttrMutation_Type; mu_Fields := ComponentAttrMutation_Fields;
  mu_Field := ComponentAttrMutation_Field; mu_SetField := ComponentAttrMutation_SetField;
  mu_AddedFields := ComponentAttrMutation_AddedFields; mu_AddedField := ComponentAttrMutation_AddedField;
  mu_AddField := ComponentAttrMutation_AddField; mu_ClearedFields := ComponentAttrMutation_ClearedFields;
  mu_FieldCleared := ComponentAttrMutation_FieldCleared; mu_ClearField := ComponentAttrMutation_ClearField;
  mu_ResetField := ComponentAttrMutation_ResetField; mu_AddedEdges := ComponentAttrMutation_AddedEdges;
  mu_AddedIDs := ComponentAttrMutation_AddedIDs; mu_RemovedEdges := ComponentAttrMutation_RemovedEdges;
  mu_RemovedIDs := ComponentAttrMutation_RemovedIDs; mu_ClearedEdges := ComponentAttrMutation_ClearedEdges;
  mu_EdgeCleared := ComponentAttrMutation_EdgeCleared; mu_ClearEdge := ComponentAttrMutation_ClearEdge;
  mu_ResetEdge := ComponentAttrMutation_ResetEdge |}.
Definition componentattr_schema : schema := mkSchema "ComponentAttr"
  [(componentattr_FieldComponentID, KInt); (componentattr_FieldName, KString);
    (componentattr_FieldValue, KString)]
  []
  [componentattr_FieldComponentID]
  [componentattr_EdgeComponent].

#[global] Instance IncidentMutation_ops : EntMutation IncidentMutation := {|
  mu_Op := IncidentMutation_Op; mu_SetOp := IncidentMutation_SetOp;
  mu_Type := IncidentMutation_Type; mu_Fields := IncidentMutation_Fields;
  mu_Field := IncidentMutation_Field; mu_SetField := IncidentMutation_SetField;
  mu_AddedFields := IncidentMutation_AddedFields; mu_AddedField := IncidentMutation_AddedField;
  mu_AddField := IncidentMutation_AddField; mu_ClearedFields := IncidentMutation_ClearedFields;
  mu_FieldCleared := IncidentMutation_FieldCleared; mu_ClearField := IncidentMutation_ClearField;
  mu_ResetField := IncidentMutation_ResetField; mu_AddedEdges := IncidentMutation_AddedEdges;
  mu_AddedIDs := IncidentMutation_AddedIDs; mu_RemovedEdges := IncidentMutation_RemovedEdges;
  mu_RemovedIDs := IncidentMutation_RemovedIDs; mu_ClearedEdges := IncidentMutation_ClearedEdges;
  mu_EdgeCleared := IncidentMutation_EdgeCleared; mu_ClearEdge := IncidentMutation_ClearEdge;
  mu_ResetEdge := IncidentMutation_ResetEdge |}.
Definition incident_schema : schema := mkSchema "Incident"
  [(incident_FieldText, KString); (incident_FieldDescription, KString); (incident_FieldStartDate, KTime);
    (incident_FieldEndDate, KTime); (incident_FieldImpact, KInt); (incident_FieldSystem, KBool);
    (incident_FieldType, KType); (incident_FieldStatus, KString); (incident_FieldCreatedAt, KTime);
    (incident_FieldModifiedAt, KTime); (incident_FieldDeletedAt, KTime); (incident_FieldCreatedBy, KString);
    (incident_FieldContactEmail, KString); (incident_FieldVersion, KInt)]
  [incident_FieldImpact; incident_FieldVersion]
  [incident_FieldDescription; incident_FieldEndDate; incident_FieldStatus; incident_FieldCreatedAt;
    incident_FieldModifiedAt; incident_FieldDeletedAt; incident_FieldCreatedBy; incident_FieldContactEmail]
  [incident_EdgeComponents; incident_EdgeNotifications].

#[global] Instance IncidentStatusMutation_ops : EntMutation IncidentStatusMutation := {|
  mu_Op := IncidentStatusMutation_Op; mu_SetOp := IncidentStatusMutation_SetOp;
  mu_Type := IncidentStatusMutation_Type; mu_Fields := IncidentStatusMutation_Fields;
  mu_Field := IncidentStatusMutation_Field; mu_SetField := IncidentStatusMutation_SetField;
  mu_AddedFields := IncidentStatusMutation_AddedFields; mu_AddedField := IncidentStatusMutation_AddedField;
  mu_AddField := IncidentStatusMutation_AddField; mu_ClearedFields := IncidentStatusMutation_ClearedFields;
  mu_FieldCleared := IncidentStatusMutation_FieldCleared; mu_ClearField := IncidentStatusMutation_ClearField;
  mu_ResetField := IncidentStatusMutation_ResetField; mu_AddedEdges := IncidentStatusMutation_AddedEdges;
  mu_AddedIDs := IncidentStatusMutation_AddedIDs; mu_RemovedEdges := IncidentStatusMutation_RemovedEdges;
  mu_RemovedIDs := IncidentStatusMutation_RemovedIDs; mu_ClearedEdges := IncidentStatusMutation_ClearedEdges;
  mu_EdgeCleared := IncidentStatusMutation_EdgeCleared; mu_ClearEdge := IncidentStatusMutation_ClearEdge;
  mu_ResetEdge := IncidentStatusMutation_ResetEdge |}.
Definition incidentstatus_schema : schema := mkSchema "IncidentStatus"
  [(incidentstatus_FieldIncidentID, KInt); (incidentstatus_FieldTimestamp, KTime);
    (incidentstatus_FieldText, KString); (incidentstatus_FieldStatus, KString);
    (incidentstatus_FieldCreatedAt, KTime); (incidentstatus_FieldModifiedAt, KTime);
    (incidentstatus_FieldDeletedAt, KTime); (incidentstatus_FieldCreatedBy, KString);
    (incidentstatus_FieldModifiedBy, KString)]
  [incidentstatus_FieldIncidentID]
  [incidentstatus_FieldIncidentID; incidentstatus_FieldCreatedAt; incidentstatus_FieldModifiedAt;
    incidentstatus_FieldDeletedAt; incidentstatus_FieldCreatedBy; incidentstatus_FieldModifiedBy]
  [].

#[global] Instance NotificationOutboxMutation_ops : EntMutation NotificationOutboxMutation := {|
  mu_Op := NotificationOutboxMutation_Op; mu_SetOp := NotificationOutboxMutation_SetOp;
  mu_Type := NotificationOutboxMutation_Type; mu_Fields := NotificationOutboxMutation_Fields;
  mu_Field := NotificationOutboxMutation_Field; mu_SetField := NotificationOutboxMutation_SetField;
  mu_AddedFields := NotificationOutboxMutation_AddedFields; mu_AddedField := NotificationOutboxMutation_AddedField;
  mu_AddField := NotificationOutboxMutation_AddField; mu_ClearedFields := NotificationOutboxMutation_ClearedFields;
  mu_FieldCleared := NotificationOutboxMutation_FieldCleared; mu_ClearField := NotificationOutboxMutation_ClearField;
  mu_ResetField := NotificationOutboxMutation_ResetField; mu_AddedEdges := NotificationOutboxMutation_AddedEdges;
  mu_AddedIDs := NotificationOutboxMutation_AddedIDs; mu_RemovedEdges := NotificationOutboxMutation_RemovedEdges;
  mu_RemovedIDs := NotificationOutboxMutation_RemovedIDs; mu_ClearedEdges := NotificationOutboxMutation_ClearedEdges;
  mu_EdgeCleared := NotificationOutboxMutation_EdgeCleared; mu_ClearEdge := NotificationOutboxMutation_ClearEdge;
  mu_ResetEdge := NotificationOutboxMutation_ResetEdge |}.
Definition notificationoutbox_schema : schema := mkSchema "NotificationOutbox"
  [(notificationoutbox_FieldKind, KString); (notificationoutbox_FieldIncidentID, KInt);
    (notificationoutbox_FieldRecipient, KString); (notificationoutbox_FieldPayload, KJSON);
    (notificationoutbox_FieldChangeID, KString); (notificationoutbox_FieldDedupKey, KString);
    (notificationoutbox_FieldStatus, KString); (notificationoutbox_FieldAttempts, KInt);
    (notificationoutbox_FieldNextAttemptAt, KTime); (notificationoutbox_FieldLockedBy, KString);
    (notificationoutbox_FieldLockedAt, KTime); (notificationoutbox_FieldLastError, KString);
    (notificationoutbox_FieldCreatedAt, KTime); (notificationoutbox_FieldUpdatedAt, KTime)]
  [notificationoutbox_FieldAttempts]
  [notificationoutbox_FieldNextAttemptAt; notificationoutbox_FieldLockedBy; notificationoutbox_FieldLockedAt;
    notificationoutbox_FieldLastError]
  [notificationoutbox_EdgeIncident].
(** ** Lemmas on access by name *)

Lemma elem_of_collect name l : name ∈ collect l ↔ (name, true) ∈ l.
Proof.
  unfold collect. rewrite list_elem_of_fmap. split.
  - intros ([k b] & -> & [Hin Hb]%elem_of_filterb). cbn in *. by subst b.
  - intros Hin. exists (name, true). split; [done|]. by apply elem_of_filterb.
Qed.

Lemma switch_other {A} name (l : list (string * A)) d : name ∉ l.*1 → switch name l d = d.
Proof.
  induction l as [|[k a] l IH]; [done|]. rewrite fmap_cons. intros [Hk Hl]%not_elem_of_cons. cbn.
  rewrite bool_decide_eq_false_2 by done. by apply IH.
Qed.

Lemma field_kind_in sc name k : field_kind sc name = Some k → (name, k) ∈ sc_fields sc.
Proof.
  unfold field_kind. induction (sc_fields sc) as [|[n k'] l IH]; cbn; [done|].
  case_bool_decide as Hn; [intros [= <-]; subst; by left|]. intros H. right. by apply IH.
Qed.

Lemma field_kind_notin sc name : field_kind sc name = None → name ∉ (sc_fields sc).*1.
Proof.
  unfold field_kind. induction (sc_fields sc) as [|[n k'] l IH]; cbn; [intros _ ?%elem_of_nil; done|].
  case_bool_decide as Hn; [done|]. intros H. apply not_elem_of_cons. split; [done|by apply IH].
Qed.

(** Case on the names of a list, or on the fields of a schema. *)
Ltac name_cases H :=
  repeat (apply elem_of_cons in H as [H|H]; [first [injection H as ? ?|idtac]; subst|]); try by apply elem_of_nil in H.

#[local] Arguments bool_decide : simpl never.

(** A switch on a name that is not the one that changed. *)
Ltac other_name := cbn; repeat (case_bool_decide; [try (exfalso; congruence); reflexivity|]); try reflexivity.

Ltac one_field :=
  unfold only_field; split_and!; try reflexivity; intros ? ?; try (other_name; fail);
  apply bool_decide_ext; cbn; set_solver.

(** The names collected are those a switch finds. *)
Lemma collect_switch name (l1 : list (string * bool)) (l2 : list (string * option value)) :
  Forall2 (λ a b, a.1 = b.1 ∧ (a.2 = true ↔ is_Some b.2)) l1 l2 → NoDup l2.*1 →
  name ∈ collect l1 ↔ is_Some (switch name l2 None).
Proof.
  rewrite elem_of_collect. induction 1 as [|[k b] [k' x] l1 l2 [Hk Hb] _ IH].
  - intros _. split; [by intros ?%elem_of_nil|by intros [? ?]].
  - rewrite fmap_cons. intros [Hn Hnd]%NoDup_cons. cbn in Hn, Hk, Hb |- *. subst k'. rewrite elem_of_cons, IH by done.
    case_bool_decide as Hname; [subst name|].
    + rewrite <- Hb. split; [|intros ->; by left]. intros [[= <-]|Hs]; [done|].
      destruct Hs as [y Hy]. exfalso. apply Hn. clear -Hy. induction l2 as [|[k2 x2] l2 IH]; [done|]. cbn in Hy.
      case_bool_decide; [by subst; left|right; by apply IH].
    + split; [intros [Heq|?]; [by injection Heq|done]|by right].
Qed.

Lemma some_fmap {A B} (f : A → B) (x : option A) : some x = true ↔ is_Some (f <$> x).
Proof. destruct x; cbn; [split; eauto|split; [done|by intros [? ?]]]. Qed.

Lemma collect_cleared name (f : string → bool) (ks : list string) :
  name ∈ collect ((λ k, (k, f k)) <$> ks) ↔ name ∈ ks ∧ f name = true.
Proof.
  rewrite elem_of_collect, list_elem_of_fmap. split.
  - intros (k & [= -> <-] & Hin). done.
  - intros [Hin Hf]. exists name. by rewrite Hf.
Qed.

Lemma collect_switch_bool name (l : list (string * bool)) : NoDup l.*1 → name ∈ collect l ↔ switch name l false = true.
Proof.
  rewrite elem_of_collect. induction l as [|[k b] l IH].
  - intros _. split; [by intros ?%elem_of_nil|done].
  - rewrite fmap_cons. intros [Hn Hnd]%NoDup_cons. cbn in Hn |- *. rewrite elem_of_cons, IH by done.
    case_bool_decide as Hname; [subst name|].
    + split; [|intros ->; by left]. intros [Heq|Hs]; [by injection Heq|].
      exfalso. apply Hn. clear -Hs. induction l as [|[k2 x2] l IH]; [done|]. cbn in Hs.
      case_bool_decide; [by subst; left|right; by apply IH].
    + split; [intros [Heq|?]; [by injection Heq|done]|by right].
Qed.

(** An edge with ids was set. *)
Lemma collect_ids {A} name (l1 : list (string * bool)) (l2 : list (string * list A)) :
  Forall2 (λ a b, a.1 = b.1 ∧ (b.2 ≠ [] → a.2 = true)) l1 l2 → switch name l2 [] ≠ [] → name ∈ collect l1.
Proof.
  rewrite elem_of_collect. induction 1 as [|[k b] [k' x] l1 l2 [Hk Hb] _ IH]; cbn; [done|].
  cbn in Hk, Hb. subst k'. case_bool_decide as Hn; [|by right; apply IH].
  intros Hx. rewrite Hb, Hn by done. by left.
Qed.

Lemma edge_ids_some (s : option (gset Z)) : edge_ids s ≠ [] → some s = true.
Proof. by destruct s. Qed.
Lemma option_list_some (x : option Z) : option_list x ≠ [] → some x = true.
Proof. by destruct x. Qed.
Ltac same_edges := repeat (constructor; [split; [reflexivity|first [apply edge_ids_some|apply option_list_some]]|]); constructor.

Ltac no_dups := apply (bool_decide_unpack _); vm_compute; reflexivity.
Ltac same_names := repeat (constructor; [split; [reflexivity|apply some_fmap]|]); constructor.


Ltac not_listed := let H := fresh in intros H; exfalso; revert H; apply (bool_decide_unpack _); vm_compute; exact I.

(** The result of a method by name: it returns, and the named field is as stated. *)
Ltac by_method :=
  eexists; split; [reflexivity|]; split_and!; try reflexivity; try one_field;
  try (apply bool_decide_eq_true_2; cbn; set_solver);
  try first [intros _; apply bool_decide_eq_false_2; cbn; set_solver|not_listed].

Ltac added_value m :=
  destruct m; cbv -[int64 Z.add];
  repeat match goal with |- context [match ?x with _ => _ end] => is_var x; destruct x end; reflexivity.

Ltac not_collected :=
  let H := fresh in intros H; first [by apply elem_of_nil in H | apply elem_of_collect in H; name_cases H; discriminate].
Ltac by_edge :=
  eexists; split; [reflexivity|]; split_and!; try reflexivity; first [not_collected | intros ? ?; other_name].

Ltac lawful sc :=
  split; intros m name;
  [ apply collect_switch; [same_names|no_dups]
  | first [apply collect_switch; [same_names|no_dups] | split; [by intros ?%elem_of_nil|by intros [? ?]]]
  | exact (collect_cleared name (λ k, mu_FieldCleared k m) (sc_nullable sc))
  | intros v H%field_kind_in; name_cases H; destruct v; try discriminate; by_method
  | intros v k H%field_kind_in Hk; name_cases H; destruct v; try done
  | intros v H%field_kind_notin; apply switch_other, H
  | intros n H; name_cases H; by_method; added_value m
  | intros v H; first [done | apply switch_other, H]
  | intros H; name_cases H; by_method
  | intros H; first [done | apply switch_other, H]
  | intros [k H%field_kind_in]; name_cases H; by_method
  | intros H%field_kind_notin; apply switch_other, H
  | first [apply collect_switch_bool; no_dups | split; [by intros ?%elem_of_nil|done]]
  | split; first [done | apply collect_ids; same_edges]
  | intros H; name_cases H; by_edge
  | intros H; first [done | apply switch_other, H] ].

#[global] Instance Component_lawful : LawfulMutation ComponentMutation component_schema.
Proof. lawful component_schema. Qed.
#[global] Instance ComponentAttr_lawful : LawfulMutation ComponentAttrMutation componentattr_schema.
Proof. lawful componentattr_schema. Qed.
#[global] Instance Incident_lawful : LawfulMutation IncidentMutation incident_schema.
Proof. lawful incident_schema. Qed.
#[global] Instance IncidentStatus_lawful : LawfulMutation IncidentStatusMutation incidentstatus_schema.
Proof. lawful incidentstatus_schema. Qed.
#[global] Instance NotificationOutbox_lawful : LawfulMutation NotificationOutboxMutation notificationoutbox_schema.
Proof. lawful notificationoutbox_schema. Qed.
