(* ===== verification/EntGraph.v ===== *)
(** * The tables behind the generated code

    An instance of the interface [SqlGraph] on the tables of [Store]: the columns of a row,
    the evaluation of a predicate with SQL's three truth values, and what the statements
    of a create or an update specification do.  What depends on the database server (the
    order of strings, [LIKE], raw conditions) is a parameter. *)

From S2P Require Import Prelude GoStrings GoTime Errors Event Models Store Queries EntCore EntComponent EntComponentAttr EntIncident EntIncidentStatus EntNotificationOutbox.
Local Open Scope Z_scope.

Inductive text_op := TContains | THasPrefix | THasSuffix | TEqualFold | TContainsFold.

Class Server := {
  collate_lt : string → string → bool;
  text_match : text_op → string → string → bool;
  raw_predicate : string → list value → Tables → Z → tri }.

(** ** Columns *)

Definition columns : Type := string → option value.

Definition incident_cols (id : Z) (r : IncidentRow) : columns := λ c, switch c
  [(incident_FieldID, Some (VInt id)); (incident_FieldText, Some (VString (ir_text r)));
   (incident_FieldDescription, VString <$> ir_description r); (incident_FieldStartDate, Some (VTime (ir_start r)));
   (incident_FieldEndDate, VTime <$> ir_end r); (incident_FieldImpact, Some (VInt (ir_impact r)));
   (incident_FieldSystem, Some (VBool (ir_system r))); (incident_FieldType, Some (VType (ir_type r)));
   (incident_FieldStatus, VString <$> ir_status r); (incident_FieldCreatedAt, VTime <$> ir_created r);
   (incident_FieldModifiedAt, VTime <$> ir_modified r); (incident_FieldDeletedAt, VTime <$> ir_deleted r);
   (incident_FieldCreatedBy, VString <$> ir_created_by r); (incident_FieldContactEmail, VString <$> ir_contact r);
   (incident_FieldVersion, Some (VInt (ir_version r)))] None.

Definition status_cols (id : Z) (r : StatusRow) : columns := λ c, switch c
  [(incidentstatus_FieldID, Some (VInt id)); (incidentstatus_FieldIncidentID, Some (VInt (sr_incident r)));
   (incidentstatus_FieldTimestamp, Some (VTime (sr_timestamp r))); (incidentstatus_FieldText, Some (VString (sr_text r)));
   (incidentstatus_FieldStatus, Some (VString (sr_status r))); (incidentstatus_FieldCreatedAt, VTime <$> sr_created r);
   (incidentstatus_FieldModifiedAt, VTime <$> sr_modified r); (incidentstatus_FieldDeletedAt, VTime <$> sr_deleted r);
   (incidentstatus_FieldCreatedBy, VString <$> sr_created_by r);
   (incidentstatus_FieldModifiedBy, VString <$> sr_modified_by r)] None.

Definition component_cols (id : Z) (r : ComponentRow) : columns := λ c, switch c
  [(component_FieldID, Some (VInt id)); (component_FieldName, Some (VString (cr_name r)));
   (component_FieldCreatedAt, VTime <$> cr_created r); (component_FieldModifiedAt, VTime <$> cr_modified r);
   (component_FieldDeletedAt, VTime <$> cr_deleted r)] None.

Definition attr_cols (id : Z) (r : AttrRow) : columns := λ c, switch c
  [(componentattr_FieldID, Some (VInt id)); (componentattr_FieldComponentID, Some (VInt (ar_component r)));
   (componentattr_FieldName, Some (VString (ar_name r))); (componentattr_FieldValue, Some (VString (ar_value r)))] None.

Definition outbox_cols (id : Z) (r : OutboxRow) : columns := λ c, switch c
  [(notificationoutbox_FieldID, Some (VInt id)); (notificationoutbox_FieldKind, Some (VString (or_kind r)));
   (notificationoutbox_FieldIncidentID, Some (VInt (or_incident r)));
   (notificationoutbox_FieldRecipient, Some (VString (or_recipient r)));
   (notificationoutbox_FieldPayload, Some (VJSON (or_payload r)));
   (notificationoutbox_FieldChangeID, Some (VString (or_change r)));
   (notificationoutbox_FieldDedupKey, Some (VString (or_dedup r)));
   (notificationoutbox_FieldStatus, Some (VString (or_status r)));
   (notificationoutbox_FieldAttempts, Some (VInt (or_attempts r)));
   (notificationoutbox_FieldNextAttemptAt, VTime <$> or_next r);
   (notificationoutbox_FieldLockedBy, VString <$> or_locked_by r);
   (notificationoutbox_FieldLockedAt, VTime <$> or_locked_at r);
   (notificationoutbox_FieldLastError, VString <$> or_error r);
   (notificationoutbox_FieldCreatedAt, Some (VTime (or_created r)));
   (notificationoutbox_FieldUpdatedAt, Some (VTime (or_updated r)))] None.

(** ** Rows from columns: [None] when a column is missing or of another type *)

Definition get_int (v : value) : option Z := match v with VInt n => Some n | _ => None end.
Definition get_string (v : value) : option string := match v with VString s => Some s | _ => None end.
Definition get_bool (v : value) : option bool := match v with VBool b => Some b | _ => None end.
Definition get_time (v : value) : option Z := match v with VTime t => Some t | _ => None end.
Definition get_type (v : value) : option string := match v with VType s => Some s | _ => None end.
Definition get_json (v : value) : option (gmap string json_value) := match v with VJSON m => Some m | _ => None end.
Definition nullable {A} (get : value → option A) (x : option value) : option (option A) :=
  match x with None => Some None | Some v => Some <$> get v end.

Definition incident_row_of (f : columns) : option IncidentRow :=
  text ← f incident_FieldText ≫= get_string; description ← nullable get_string (f incident_FieldDescription);
  start ← f incident_FieldStartDate ≫= get_time; end_ ← nullable get_time (f incident_FieldEndDate);
  impact ← f incident_FieldImpact ≫= get_int; system ← f incident_FieldSystem ≫= get_bool;
  type ← f incident_FieldType ≫= get_type; status ← nullable get_string (f incident_FieldStatus);
  created ← nullable get_time (f incident_FieldCreatedAt); modified ← nullable get_time (f incident_FieldModifiedAt);
  deleted ← nullable get_time (f incident_FieldDeletedAt); by_ ← nullable get_string (f incident_FieldCreatedBy);
  contact ← nullable get_string (f incident_FieldContactEmail); version ← f incident_FieldVersion ≫= get_int;
  Some (mkIncidentRow text description start end_ impact system type status created modified deleted by_ contact version).

Definition status_row_of (f : columns) : option StatusRow :=
  incident ← f incidentstatus_FieldIncidentID ≫= get_int; timestamp ← f incidentstatus_FieldTimestamp ≫= get_time;
  text ← f incidentstatus_FieldText ≫= get_string; status ← f incidentstatus_FieldStatus ≫= get_string;
  created ← nullable get_time (f incidentstatus_FieldCreatedAt);
  modified ← nullable get_time (f incidentstatus_FieldModifiedAt);
  deleted ← nullable get_time (f incidentstatus_FieldDeletedAt);
  by_ ← nullable get_string (f incidentstatus_FieldCreatedBy); mod_by ← nullable get_string (f incidentstatus_FieldModifiedBy);
  Some (mkStatusRow incident timestamp text status created modified deleted by_ mod_by).

Definition component_row (f : columns) : option ComponentRow :=
  name ← f component_FieldName ≫= get_string; created ← nullable get_time (f component_FieldCreatedAt);
  modified ← nullable get_time (f component_FieldModifiedAt); deleted ← nullable get_time (f component_FieldDeletedAt);
  Some (mkComponentRow name created modified deleted).

Definition attr_row (f : columns) : option AttrRow :=
  component ← f componentattr_FieldComponentID ≫= get_int; name ← f componentattr_FieldName ≫= get_string;
  v ← f componentattr_FieldValue ≫= get_string; Some (mkAttrRow component name v).

Definition outbox_row_of (f : columns) : option OutboxRow :=
  kind ← f notificationoutbox_FieldKind ≫= get_string; incident ← f notificationoutbox_FieldIncidentID ≫= get_int;
  recipient ← f notificationoutbox_FieldRecipient ≫= get_string; payload ← f notificationoutbox_FieldPayload ≫= get_json;
  change ← f notificationoutbox_FieldChangeID ≫= get_string; dedup ← f notificationoutbox_FieldDedupKey ≫= get_string;
  status ← f notificationoutbox_FieldStatus ≫= get_string; attempts ← f notificationoutbox_FieldAttempts ≫= get_int;
  next ← nullable get_time (f notificationoutbox_FieldNextAttemptAt);
  by_ ← nullable get_string (f notificationoutbox_FieldLockedBy); at_ ← nullable get_time (f notificationoutbox_FieldLockedAt);
  err ← nullable get_string (f notificationoutbox_FieldLastError); created ← f notificationoutbox_FieldCreatedAt ≫= get_time;
  updated ← f notificationoutbox_FieldUpdatedAt ≫= get_time;
  Some (mkOutboxRow kind incident recipient payload change dedup status attempts next by_ at_ err created updated).

(** ** Edges *)

(** The rows at the other end of an edge; the two ends of a relation are told apart by
    [Inverse]. *)
Definition neighbours (t : Tables) (st : Step) (id : Z) : list (Z * columns) :=
  match st_Rel st, st_Inverse st, st_Table st == incident_ComponentsTable, st_Table st == component_AttributesTable with
  | M2M, false, true, _ =>
      (λ kr : Z * ComponentRow, (kr.1, component_cols kr.1 kr.2))
        <$> filterb (λ kr : Z * ComponentRow, bool_decide ((id, kr.1) ∈ t_rel t)) (rows (t_component t))
  | M2M, true, true, _ =>
      (λ kr : Z * IncidentRow, (kr.1, incident_cols kr.1 kr.2))
        <$> filterb (λ kr : Z * IncidentRow, bool_decide ((kr.1, id) ∈ t_rel t)) (rows (t_incident t))
  | O2M, _, _, true =>
      (λ kr : Z * AttrRow, (kr.1, attr_cols kr.1 kr.2)) <$> filterb (λ kr : Z * AttrRow, ar_component kr.2 =? id) (rows (t_attr t))
  | M2O, _, _, true =>
      match t_attr t !! id with
      | Some a => (λ r, (ar_component a, component_cols (ar_component a) r)) <$> option_list (t_component t !! ar_component a)
      | None => []
      end
  | O2M, _, _, false =>
      (λ kr : Z * OutboxRow, (kr.1, outbox_cols kr.1 kr.2)) <$> filterb (λ kr : Z * OutboxRow, or_incident kr.2 =? id) (rows (t_outbox t))
  | M2O, _, _, false =>
      match t_outbox t !! id with
      | Some o => (λ r, (or_incident o, incident_cols (or_incident o) r)) <$> option_list (t_incident t !! or_incident o)
      | None => []
      end
  | _, _, _, _ => []
  end.

(** ** Predicates *)

Section Eval.
Context `{Server} (t : Tables).

Definition value_lt (a b : value) : bool :=
  match a, b with
  | VInt a, VInt b | VTime a, VTime b => a <? b
  | VString a, VString b | VType a, VType b => collate_lt a b
  | _, _ => false
  end.
Definition value_le (a b : value) : bool := value_lt a b || (a == b).
Definition on_text (op : text_op) (s : string) (v : value) : bool :=
  match v with VString x | VType x => text_match op x s | _ => false end.

(** [IN ()] is false and [NOT IN ()] true; [EXISTS] takes the rows whose condition is true. *)
Fixpoint eval (p : sql_pred) (id : Z) (f : columns) {struct p} : tri :=
  match p with
  | FieldEQ c v => col (f c) (λ x, x == v)
  | FieldNEQ c v => col (f c) (λ x, x != v)
  | FieldIn c [] => Some false
  | FieldIn c vs => col (f c) (λ x, bool_decide (x ∈ vs))
  | FieldNotIn c [] => Some true
  | FieldNotIn c vs => col (f c) (λ x, bool_decide (x ∉ vs))
  | FieldGT c v => col (f c) (λ x, value_lt v x)
  | FieldGTE c v => col (f c) (λ x, value_le v x)
  | FieldLT c v => col (f c) (λ x, value_lt x v)
  | FieldLTE c v => col (f c) (λ x, value_le x v)
  | FieldIsNull c => Some (bool_decide (f c = None))
  | FieldNotNull c => Some (negb (bool_decide (f c = None)))
  | FieldContains c s => col (f c) (on_text TContains s)
  | FieldHasPrefix c s => col (f c) (on_text THasPrefix s)
  | FieldHasSuffix c s => col (f c) (on_text THasSuffix s)
  | FieldEqualFold c s => col (f c) (on_text TEqualFold s)
  | FieldContainsFold c s => col (f c) (on_text TContainsFold s)
  | HasNeighbors st => Some (negb (bool_decide ((neighbours t st id).*1 = [])))
  | HasNeighborsWith st ps =>
      Some (existsb (λ n : Z * columns, forallb (λ p, bool_decide (eval p n.1 n.2 = Some true)) ps) (neighbours t st id))
  | RawPredicate q args => raw_predicate q args t id
  | AndPredicates ps => foldr tri_and (Some true) (List.map (λ p, eval p id f) ps)
  | OrPredicates ps => foldr tri_or (Some false) (List.map (λ p, eval p id f) ps)
  | NotPredicates p => tri_not (eval p id f)
  end.

(** The rows a selector with these predicates takes. *)
Definition holds (ps : list sql_pred) (id : Z) (f : columns) : bool :=
  forallb (λ p, bool_decide (eval p id f = Some true)) ps.
End Eval.

(** ** Statements *)

Fixpoint assoc {A} (c : string) (l : list (string * A)) : option A :=
  match l with [] => None | (k, a) :: l => if c == k then Some a else assoc c l end.

(** The foreign key a many-to-one edge of a create sets. *)
Definition edge_column (c : string) (es : list EdgeSpec) : option value :=
  e ← List.find (λ e, bool_decide (es_Rel e = M2O) && bool_decide (es_Columns e = [c])) es;
  VInt <$> head (es_Nodes e).

(** The columns of a new row: the fields set, the edge's foreign key, or the default. *)
Definition inserted (spec : CreateSpec) (default : columns) : columns := λ c,
  match assoc c (cs_Fields spec) with
  | Some v => Some v
  | None => match edge_column c (cs_Edges spec) with Some v => Some v | None => default c end
  end.

(** The columns of an updated row. *)
Definition updated (spec : UpdateSpec) (f : columns) : columns := λ c,
  if bool_decide (c ∈ us_Clear spec) then None
  else match assoc c (us_Set spec) with
       | Some v => Some v
       | None => match assoc c (us_Add spec), f c with
                 | Some a, Some (VInt n) => Some (VInt (n + a))
                 | _, x => x
                 end
       end.

(** The components a specification adds to an incident, and those it removes. *)
Definition component_nodes (es : list EdgeSpec) : list Z :=
  flat_map (λ e, if es_Table e == incident_ComponentsTable then es_Nodes e else []) es.

Record Db := mkDb { db_tab : Tables; db_seq : Seqs; db_now : Z }.

Section Statements.
Context `{Server}.

Definition components_exist (t : Tables) (ids : list Z) : bool :=
  forallb (λ c, bool_decide (is_Some (t_component t !! c))) ids.

Definition null_violation : graph_err := GConstraint "null value in column".

Definition create_incident (spec : CreateSpec) (db : Db) : (graph_err + Z) * Db :=
  let s := db_seq db in let id := seq_incident s in
  let s' := mkSeqs (id + 1) (seq_status s) (seq_component s) (seq_attr s) (seq_outbox s) in
  let t := db_tab db in let ids := component_nodes (cs_Edges spec) in
  match incident_row_of (inserted spec (λ _, None)) with
  | None => (inl null_violation, mkDb t s' (db_now db))
  | Some r =>
      if components_exist t ids
      then (inr id, mkDb (set_rel (t_rel t ∪ list_to_set (pair id <$> ids)) (set_incidents (<[id := r]> (t_incident t)) t)) s' (db_now db))
      else (inl (GConstraint "foreign key"), mkDb t s' (db_now db))
  end.

Definition create_status (spec : CreateSpec) (db : Db) : (graph_err + Z) * Db :=
  let s := db_seq db in let id := seq_status s in
  let s' := mkSeqs (seq_incident s) (id + 1) (seq_component s) (seq_attr s) (seq_outbox s) in
  let t := db_tab db in
  match status_row_of (inserted spec (λ _, None)) with
  | None => (inl null_violation, mkDb t s' (db_now db))
  | Some r => (inr id, mkDb (set_statuses (<[id := r]> (t_status t)) t) s' (db_now db))
  end.

Definition create_component (spec : CreateSpec) (db : Db) : (graph_err + Z) * Db :=
  let s := db_seq db in let id := seq_component s in
  let s' := mkSeqs (seq_incident s) (seq_status s) (id + 1) (seq_attr s) (seq_outbox s) in
  let t := db_tab db in
  match component_row (inserted spec (λ _, None)) with
  | None => (inl null_violation, mkDb t s' (db_now db))
  | Some r => (inr id, mkDb (set_components (<[id := r]> (t_component t)) t) s' (db_now db))
  end.

Definition create_attr (spec : CreateSpec) (db : Db) : (graph_err + Z) * Db :=
  let s := db_seq db in let id := seq_attr s in
  let s' := mkSeqs (seq_incident s) (seq_status s) (seq_component s) (id + 1) (seq_outbox s) in
  let t := db_tab db in
  match attr_row (inserted spec (λ _, None)) with
  | None => (inl null_violation, mkDb t s' (db_now db))
  | Some r => if bool_decide (is_Some (t_component t !! ar_component r))
              then (inr id, mkDb (set_attrs (<[id := r]> (t_attr t)) t) s' (db_now db))
              else (inl (GConstraint "foreign key"), mkDb t s' (db_now db))
  end.

(** The columns of the outbox with a default. *)
Definition outbox_defaults (n : Z) : columns := λ c,
  switch c [(notificationoutbox_FieldCreatedAt, Some (VTime n)); (notificationoutbox_FieldUpdatedAt, Some (VTime n))] None.

Definition create_outbox (spec : CreateSpec) (db : Db) : (graph_err + Z) * Db :=
  let s := db_seq db in let id := seq_outbox s in
  let s' := mkSeqs (seq_incident s) (seq_status s) (seq_component s) (seq_attr s) (id + 1) in
  let t := db_tab db in
  match outbox_row_of (inserted spec (outbox_defaults (db_now db))) with
  | None => (inl null_violation, mkDb t s' (db_now db))
  | Some r =>
      if existsb (λ kr : Z * OutboxRow, or_dedup kr.2 == or_dedup r) (rows (t_outbox t))
         || negb (bool_decide (is_Some (t_incident t !! or_incident r)))
      then (inl (GConstraint "unique or foreign key"), mkDb t s' (db_now db))
      else (inr id, mkDb (set_outbox (<[id := r]> (t_outbox t)) t) s' (db_now db))
  end.

Definition graph_create (spec : CreateSpec) : Db → (graph_err + Z) * Db :=
  switch (cs_Table spec)
  [(incident_Table, create_incident spec); (incidentstatus_Table, create_status spec);
   (component_Table, create_component spec); (componentattr_Table, create_attr spec);
   (notificationoutbox_Table, create_outbox spec)]
  (λ db, (inl (GOther "unknown table"), db)).

(** The rows a specification selects: by predicates, and by id when it has one. *)
Definition takes (spec : UpdateSpec) (t : Tables) (id : Z) (f : columns) : bool :=
  match us_ID spec with Some i => id =? i | None => true end && holds t (us_Predicates spec) id f.

(** An update of the rows of one table; a row that would lose a required column fails. *)
Definition update_rows {R} (cols : Z → R → columns) (row : columns → option R) (spec : UpdateSpec)
    (t : Tables) (m : gmap Z R) : option (gmap Z R * Z) :=
  let p k r := takes spec t k (cols k r) in
  if forallb (λ kr : Z * R, negb (p kr.1 kr.2) || some (row (updated spec (cols kr.1 kr.2)))) (rows m)
  then Some (map_imap (λ k r, Some (if p k r then default r (row (updated spec (cols k r))) else r)) m, count_where p m)
  else None.

Definition update_tables (spec : UpdateSpec) (t : Tables) : option (Tables * Z) :=
  switch (us_Table spec)
  [(incident_Table, '(m, n) ← update_rows incident_cols incident_row_of spec t (t_incident t); Some (set_incidents m t, n));
   (incidentstatus_Table, '(m, n) ← update_rows status_cols status_row_of spec t (t_status t); Some (set_statuses m t, n));
   (component_Table, '(m, n) ← update_rows component_cols component_row spec t (t_component t); Some (set_components m t, n));
   (componentattr_Table, '(m, n) ← update_rows attr_cols attr_row spec t (t_attr t); Some (set_attrs m t, n));
   (notificationoutbox_Table, '(m, n) ← update_rows outbox_cols outbox_row_of spec t (t_outbox t); Some (set_outbox m t, n))]
  None.

Definition graph_update_nodes (spec : UpdateSpec) (db : Db) : (graph_err + Z) * Db :=
  match update_tables spec (db_tab db) with
  | Some (t, n) => (inr n, mkDb t (db_seq db) (db_now db))
  | None => (inl null_violation, db)
  end.

(** The columns of the row with that id. *)
Definition row_columns (table : string) (t : Tables) (id : Z) : option columns :=
  switch table
  [(incident_Table, incident_cols id <$> t_incident t !! id); (incidentstatus_Table, status_cols id <$> t_status t !! id);
   (component_Table, component_cols id <$> t_component t !! id); (componentattr_Table, attr_cols id <$> t_attr t !! id);
   (notificationoutbox_Table, outbox_cols id <$> t_outbox t !! id)]
  None.

(** The edges of an incident: rows of the relation are removed, then added. *)
Definition update_edges (spec : UpdateSpec) (id : Z) (t : Tables) : option Tables :=
  let add := component_nodes (us_EdgesAdd spec) in
  if negb (us_Table spec == incident_Table) then Some t
  else if components_exist t add
  then Some (set_rel ((t_rel t ∖ list_to_set (pair id <$> component_nodes (us_EdgesClear spec))) ∪ list_to_set (pair id <$> add)) t)
  else None.

Definition graph_update_node {N} (spec : UpdateSpec) (assign : list (option value) → scan_err + N) (db : Db) :
    (graph_err + N) * Db :=
  match us_ID spec with
  | None => (inl (GNotFound "record not found"), db)
  | Some id =>
      match update_tables spec (db_tab db) with
      | None => (inl null_violation, db)
      | Some (t, n) =>
          if n =? 0 then (inl (GNotFound "record not found"), db)
          else match update_edges spec id t with
               | None => (inl (GConstraint "foreign key"), db)
               | Some t =>
                   match row_columns (us_Table spec) t id with
                   | None => (inl (GNotFound "record not found"), db)
                   | Some f => match assign (f <$> us_Columns spec) with
                               | inl e => (inl (GAssign e), db)
                               | inr n => (inr n, mkDb t (db_seq db) (db_now db))
                               end
                   end
               end
      end
  end.

(** Deletion, with the foreign keys of [ent/migrate/schema.go]: attributes and queued
    notifications keep what they refer to, rows of the relation go with either end. *)
Definition taken {R} (cols : Z → R → columns) (ps : list sql_pred) (t : Tables) (m : gmap Z R) : list Z :=
  (filterb (λ kr : Z * R, holds t ps kr.1 (cols kr.1 kr.2)) (rows m)).*1.
Definition without {R} (ids : list Z) (m : gmap Z R) : gmap Z R := delete_where (λ k _, bool_decide (k ∈ ids)) m.

Definition delete_incidents (ids : list Z) (t : Tables) : option Tables :=
  if existsb (λ kr : Z * OutboxRow, bool_decide (or_incident kr.2 ∈ ids)) (rows (t_outbox t)) then None
  else Some (set_rel (filter (λ ic : Z * Z, ic.1 ∉ ids) (t_rel t)) (set_incidents (without ids (t_incident t)) t)).
Definition delete_components (ids : list Z) (t : Tables) : option Tables :=
  if existsb (λ kr : Z * AttrRow, bool_decide (ar_component kr.2 ∈ ids)) (rows (t_attr t)) then None
  else Some (set_rel (filter (λ ic : Z * Z, ic.2 ∉ ids) (t_rel t)) (set_components (without ids (t_component t)) t)).

Definition graph_delete (table : string) (ps : list sql_pred) (db : Db) : (graph_err + Z) * Db :=
  let t := db_tab db in
  let r := switch table
    [(incident_Table, let ids := taken incident_cols ps t (t_incident t) in (ids, delete_incidents ids t));
     (component_Table, let ids := taken component_cols ps t (t_component t) in (ids, delete_components ids t));
     (incidentstatus_Table, let ids := taken status_cols ps t (t_status t) in (ids, Some (set_statuses (without ids (t_status t)) t)));
     (componentattr_Table, let ids := taken attr_cols ps t (t_attr t) in (ids, Some (set_attrs (without ids (t_attr t)) t)));
     (notificationoutbox_Table, let ids := taken outbox_cols ps t (t_outbox t) in (ids, Some (set_outbox (without ids (t_outbox t)) t)))]
    ([], Some t) in
  match r with
  | (ids, Some t) => (inr (Z.of_nat (length ids)), mkDb t (db_seq db) (db_now db))
  | (_, None) => (inl (GConstraint "foreign key"), db)
  end.

#[global] Instance tables_graph : SqlGraph Db :=
  {| g_CreateNode := graph_create; g_UpdateNodes := graph_update_nodes;
     g_UpdateNode := @graph_update_node; g_DeleteNodes := graph_delete |}.
End Statements.
