(* ===== verification/EntFacade.v ===== *)
(** * The facade's calls of the generated code

    The builder chains of [internal/db]: what [db.go], [write.go], [notification.go] and
    [notification_ops.go] hand to the generated builders, and the predicates of the event
    filters.  [EntSpec] compares them with the table operations of [Writes], [Outbox] and
    [Queries]. *)

From S2P Require Import Prelude GoStrings GoTime Errors Event Models Store Queries Writes Outbox EntCore EntComponent EntComponentAttr EntIncident EntIncidentStatus EntNotificationOutbox EntComponentBuild EntComponentAttrBuild EntIncidentBuild EntIncidentStatusBuild EntNotificationOutboxBuild EntWhere.
Local Open Scope Z_scope.

(** A method chain, a call under [if], and one under [if p != nil]. *)
Notation "c ▷ f" := (f c) (at level 61, left associativity, only parsing).
Definition when {C} (b : bool) (f : C → C) (c : C) : C := if b then f c else c.
Definition given {A C} (x : option A) (f : A → C → C) (c : C) : C := match x with Some a => f a c | None => c end.
Definition given_or {A C} (x : option A) (f : A → C → C) (g : C → C) (c : C) : C :=
  match x with Some a => f a c | None => g c end.

Section Chains.
Context (cfg : config).

(** [SaveIncidentTx]. *)
Definition incident_create (inc : Incident) (text : string) (n createdAt modifiedAt : Z) : IncidentCreate :=
  let componentIDs := nonzero_ids (inc_Components inc) in
  IncidentClient_Create cfg
  ▷ IncidentCreate_SetText text ▷ IncidentCreate_SetStartDate (valueOr (inc_StartDate inc) n)
  ▷ IncidentCreate_SetImpact (valueOr (inc_Impact inc) 0) ▷ IncidentCreate_SetSystem (inc_System inc)
  ▷ IncidentCreate_SetType (inc_Type inc) ▷ IncidentCreate_SetCreatedAt createdAt
  ▷ IncidentCreate_SetModifiedAt modifiedAt
  ▷ given (inc_Description inc) IncidentCreate_SetDescription ▷ given (inc_EndDate inc) IncidentCreate_SetEndDate
  ▷ when (inc_Status inc != ""%string) (IncidentCreate_SetStatus (inc_Status inc))
  ▷ given (inc_CreatedBy inc) IncidentCreate_SetCreatedBy
  ▷ given (inc_ContactEmail inc) IncidentCreate_SetContactEmail ▷ given (inc_Version inc) IncidentCreate_SetVersion
  ▷ when (negb (bool_decide (componentIDs = []))) (IncidentCreate_AddComponentIDs componentIDs).

(** [insertIncidentStatus]. *)
Definition status_create (s : IncidentStatus) (incidentID createdAt modifiedAt : Z) : IncidentStatusCreate :=
  IncidentStatusClient_Create cfg
  ▷ IncidentStatusCreate_SetIncidentID incidentID ▷ IncidentStatusCreate_SetStatus (st_Status s)
  ▷ IncidentStatusCreate_SetText (st_Text s) ▷ IncidentStatusCreate_SetTimestamp (st_Timestamp s)
  ▷ IncidentStatusCreate_SetCreatedAt createdAt ▷ IncidentStatusCreate_SetModifiedAt modifiedAt
  ▷ given (st_CreatedBy s) IncidentStatusCreate_SetCreatedBy ▷ given (st_ModifiedBy s) IncidentStatusCreate_SetModifiedBy.

(** [applyIncidentPatch]. *)
Definition incident_patch (inc : Incident) (u : IncidentUpdate) : IncidentUpdate :=
  u ▷ given (inc_Text inc) IncidentUpdate_SetText ▷ given (inc_Description inc) IncidentUpdate_SetDescription
  ▷ given (inc_StartDate inc) IncidentUpdate_SetStartDate ▷ given (inc_EndDate inc) IncidentUpdate_SetEndDate
  ▷ given (inc_Impact inc) IncidentUpdate_SetImpact
  ▷ when (inc_Status inc != ""%string) (IncidentUpdate_SetStatus (inc_Status inc))
  ▷ when (inc_System inc) (IncidentUpdate_SetSystem true)
  ▷ when (inc_Type inc != ""%string) (IncidentUpdate_SetType (inc_Type inc))
  ▷ given (inc_CreatedAt inc) IncidentUpdate_SetCreatedAt ▷ given (inc_CreatedBy inc) IncidentUpdate_SetCreatedBy
  ▷ given (inc_ContactEmail inc) IncidentUpdate_SetContactEmail.

(** [modifyIncident]. *)
Definition modify_update (inc : Incident) (expectedVersion n : Z) : IncidentUpdate :=
  IncidentClient_Update cfg ▷ IncidentUpdate_Where [incident_IDEQ (inc_ID inc)]
  ▷ when (inc_Type inc == TypeMaintenance) (IncidentUpdate_Where [incident_VersionEQ expectedVersion])
  ▷ incident_patch inc ▷ IncidentUpdate_SetVersion (expectedVersion + 1) ▷ IncidentUpdate_SetModifiedAt n.

(** [AddComponentToIncident]: the version, then the edge. *)
Definition version_update (id expectedVersion : Z) : IncidentUpdate :=
  IncidentClient_Update cfg ▷ IncidentUpdate_Where [incident_IDEQ id; incident_VersionEQ expectedVersion]
  ▷ IncidentUpdate_SetVersion (expectedVersion + 1).

(** [reconcileIncidentComponents], [removeIncidentComponent] and [AddComponentToIncident]. *)
Definition edges_update (id : Z) (extra missing : list Z) : IncidentUpdateOne :=
  IncidentClient_UpdateOneID cfg id
  ▷ when (negb (bool_decide (extra = []))) (IncidentUpdateOne_RemoveComponentIDs extra)
  ▷ when (negb (bool_decide (missing = []))) (IncidentUpdateOne_AddComponentIDs missing).

(** [ReOpenIncident]. *)
Definition reopen_update (id : Z) : IncidentUpdateOne :=
  IncidentClient_UpdateOneID cfg id ▷ IncidentUpdateOne_ClearEndDate.

(** [saveIncidentFull] with [applyIncidentOptionalColumns]. *)
Definition optional_columns (inc : Incident) (u : IncidentUpdateOne) : IncidentUpdateOne :=
  u ▷ given_or (inc_Description inc) IncidentUpdateOne_SetDescription IncidentUpdateOne_ClearDescription
  ▷ given_or (inc_EndDate inc) IncidentUpdateOne_SetEndDate IncidentUpdateOne_ClearEndDate
  ▷ given_or (inc_DeletedAt inc) IncidentUpdateOne_SetDeletedAt IncidentUpdateOne_ClearDeletedAt
  ▷ given_or (inc_CreatedBy inc) IncidentUpdateOne_SetCreatedBy IncidentUpdateOne_ClearCreatedBy
  ▷ given_or (inc_ContactEmail inc) IncidentUpdateOne_SetContactEmail IncidentUpdateOne_ClearContactEmail.
Definition full_update (inc : Incident) (text : string) (start createdAt n : Z) : IncidentUpdateOne :=
  IncidentClient_UpdateOneID cfg (inc_ID inc)
  ▷ IncidentUpdateOne_SetText text ▷ IncidentUpdateOne_SetStartDate start
  ▷ IncidentUpdateOne_SetImpact (valueOr (inc_Impact inc) 0) ▷ IncidentUpdateOne_SetSystem (inc_System inc)
  ▷ IncidentUpdateOne_SetType (inc_Type inc) ▷ IncidentUpdateOne_SetStatus (inc_Status inc)
  ▷ IncidentUpdateOne_SetVersion (valueOr (inc_Version inc) 1) ▷ IncidentUpdateOne_SetCreatedAt createdAt
  ▷ IncidentUpdateOne_SetModifiedAt n ▷ optional_columns inc.

(** [SaveComponent]. *)
Definition component_create (name : string) (createdAt modifiedAt : Z) : ComponentCreate :=
  ComponentClient_Create cfg ▷ ComponentCreate_SetName name ▷ ComponentCreate_SetCreatedAt createdAt
  ▷ ComponentCreate_SetModifiedAt modifiedAt.
Definition attr_create (name v : string) (componentID : Z) : ComponentAttrCreate :=
  ComponentAttrClient_Create cfg ▷ ComponentAttrCreate_SetName name ▷ ComponentAttrCreate_SetValue v
  ▷ ComponentAttrCreate_SetComponentID componentID.

(** [ModifyEventUpdateTx]. *)
Definition text_update (id incidentID : Z) (text : string) (n : Z) : IncidentStatusUpdate :=
  IncidentStatusClient_Update cfg
  ▷ IncidentStatusUpdate_Where [incidentstatus_IDEQ id; incidentstatus_IncidentIDEQ incidentID]
  ▷ IncidentStatusUpdate_SetText text ▷ IncidentStatusUpdate_SetModifiedAt n.

(** [newOutboxCreate]. *)
Definition outbox_create (row : NotificationOutbox) : NotificationOutboxCreate :=
  NotificationOutboxClient_Create cfg
  ▷ NotificationOutboxCreate_SetKind (no_Kind row) ▷ NotificationOutboxCreate_SetIncidentID (no_IncidentID row)
  ▷ NotificationOutboxCreate_SetRecipient (no_Recipient row) ▷ NotificationOutboxCreate_SetPayload (no_Payload row)
  ▷ NotificationOutboxCreate_SetChangeID (no_ChangeID row) ▷ NotificationOutboxCreate_SetDedupKey (no_DedupKey row)
  ▷ when (no_Status row != ""%string) (NotificationOutboxCreate_SetStatus (no_Status row))
  ▷ when (no_Attempts row != 0) (NotificationOutboxCreate_SetAttempts (no_Attempts row))
  ▷ given (no_NextAttemptAt row) NotificationOutboxCreate_SetNextAttemptAt
  ▷ given (no_LockedBy row) NotificationOutboxCreate_SetLockedBy ▷ given (no_LockedAt row) NotificationOutboxCreate_SetLockedAt
  ▷ given (no_LastError row) NotificationOutboxCreate_SetLastError
  ▷ when (negb (IsZero (no_CreatedAt row))) (NotificationOutboxCreate_SetCreatedAt (no_CreatedAt row))
  ▷ when (negb (IsZero (no_UpdatedAt row))) (NotificationOutboxCreate_SetUpdatedAt (no_UpdatedAt row)).

(** [MarkSent], [MarkFailed], [MarkFailedTerminal] and [RedriveFailed]. *)
Definition sent_update (id n : Z) : NotificationOutboxUpdate :=
  NotificationOutboxClient_Update cfg ▷ NotificationOutboxUpdate_Where [notificationoutbox_IDEQ id]
  ▷ NotificationOutboxUpdate_SetStatus NotificationStatusSent ▷ NotificationOutboxUpdate_ClearLockedBy
  ▷ NotificationOutboxUpdate_ClearLockedAt ▷ NotificationOutboxUpdate_ClearLastError
  ▷ NotificationOutboxUpdate_SetUpdatedAt n.
Definition failed_update (id : Z) (errText : string) (n : Z) (retry : option Z) : NotificationOutboxUpdate :=
  NotificationOutboxClient_Update cfg ▷ NotificationOutboxUpdate_Where [notificationoutbox_IDEQ id]
  ▷ NotificationOutboxUpdate_SetLastError errText ▷ NotificationOutboxUpdate_ClearLockedBy
  ▷ NotificationOutboxUpdate_ClearLockedAt ▷ NotificationOutboxUpdate_SetUpdatedAt n
  ▷ given_or retry
       (λ at_ u, u ▷ NotificationOutboxUpdate_SetStatus NotificationStatusPending ▷ NotificationOutboxUpdate_SetNextAttemptAt at_)
       (λ u, u ▷ NotificationOutboxUpdate_SetStatus NotificationStatusFailed ▷ NotificationOutboxUpdate_ClearNextAttemptAt).
Definition terminal_update (id : Z) (errText : string) (n : Z) : NotificationOutboxUpdate :=
  NotificationOutboxClient_Update cfg ▷ NotificationOutboxUpdate_Where [notificationoutbox_IDEQ id]
  ▷ NotificationOutboxUpdate_SetStatus NotificationStatusFailed ▷ NotificationOutboxUpdate_SetLastError errText
  ▷ NotificationOutboxUpdate_ClearNextAttemptAt ▷ NotificationOutboxUpdate_ClearLockedBy
  ▷ NotificationOutboxUpdate_ClearLockedAt ▷ NotificationOutboxUpdate_SetUpdatedAt n.
Definition redrive_update (ids : list Z) (n : Z) : NotificationOutboxUpdate :=
  NotificationOutboxClient_Update cfg ▷ NotificationOutboxUpdate_Where [notificationoutbox_StatusEQ NotificationStatusFailed]
  ▷ when (negb (bool_decide (ids = []))) (NotificationOutboxUpdate_Where [notificationoutbox_IDIn ids])
  ▷ NotificationOutboxUpdate_SetStatus NotificationStatusPending ▷ NotificationOutboxUpdate_SetAttempts 0
  ▷ NotificationOutboxUpdate_SetNextAttemptAt n ▷ NotificationOutboxUpdate_ClearLastError
  ▷ NotificationOutboxUpdate_ClearLockedBy ▷ NotificationOutboxUpdate_ClearLockedAt
  ▷ NotificationOutboxUpdate_SetUpdatedAt n.
End Chains.

(** ** The event filters *)

(** [noPublicStatus]: the correlated subquery is raw SQL. *)
Definition no_public_query : string :=
  "NOT EXISTS (SELECT 1 FROM incident_status WHERE incident_status.incident_id = incident.id AND incident_status.status IN (...))".
Definition no_public_status : sql_pred := RawPredicate no_public_query
  (VString <$> [MaintenancePlanned; MaintenanceInProgress; MaintenanceModified; MaintenanceCompleted]).

Definition public_event_predicates : list sql_pred :=
  [incident_Not (incident_And [incident_TypeEQ incident_TypeMaintenance;
     incident_StatusIn [MaintenancePendingReview; MaintenanceReviewed]]);
   incident_Not (incident_And [incident_TypeEQ incident_TypeMaintenance;
     incident_StatusEQ MaintenanceCancelled; no_public_status])].

Definition active_predicate (currentTime : Z) : sql_pred :=
  incident_Or [incident_EndDateIsNil;
    incident_And [incident_StartDateLTE currentTime; incident_EndDateGTE currentTime;
      incident_StatusNotIn [IncidentResolved; MaintenanceCompleted; MaintenanceCancelled; MaintenancePendingReview;
        MaintenanceReviewed; InfoCompleted; InfoCancelled]]].

(** [applyEventsFilters]; [currentTime] is its reading of the clock. *)
Definition events_filters (params : IncidentsParams) (isAuth : bool) (currentTime : Z) : db_err + list sql_pred :=
  let one {A} (x : option A) (f : A → sql_pred) : list sql_pred := match x with Some a => [f a] | None => [] end in
  let p1 := one (p_Types params) incident_TypeIn ++ one (p_Impact params) incident_ImpactEQ
    ++ one (p_IsSystem params) incident_SystemEQ
    ++ match p_ComponentIDs params with [] => [] | ids => [incident_HasComponentsWith [component_IDIn ids]] end in
  let p3 := one (p_Status params) incident_StatusEQ
    ++ match p_StartDate params, p_EndDate params with
       | Some s, Some e => [incident_StartDateGTE s; incident_EndDateLTE e]
       | Some s, None => [incident_StartDateGTE s]
       | None, Some e => [incident_EndDateLTE e]
       | None, None => []
       end in
  let rest := p3 ++ (if isAuth then [] else public_event_predicates) in
  match p_IsActive params with
  | Some false => inl ErrDBIncidentFilterActiveFalse
  | Some true => inr (p1 ++ [active_predicate currentTime] ++ rest)
  | None => inr (p1 ++ rest)
  end.
