(* ===== verification/EntQuerySpec.v ===== *)
(** * The event filters of the generated predicates

    The predicates that [applyEventsFilters] builds from the generated functions select
    the rows that the filters of [Queries] select. *)

From S2P Require Import Prelude GoStrings GoTime Errors Event Models Store Queries Writes Outbox EntCore EntComponent EntComponentAttr EntIncident EntIncidentStatus EntNotificationOutbox EntWhere EntGraph EntFacade.
Local Open Scope Z_scope.

(** What the raw subquery means: no update of the incident has one of the statuses. *)
Definition raw_subquery (l : list string) (t : Tables) (i : Z) : tri :=
  Some (negb (existsb (λ ks : Z * StatusRow, bool_decide (sr_incident ks.2 = i) && bool_decide (sr_status ks.2 ∈ l))
                (rows (t_status t)))).

Class RawSubquery `{Server} : Prop :=
  raw_no_public l t i : raw_predicate no_public_query (VString <$> l) t i = raw_subquery l t i.

Section Agree.
Context `{Server} `{!RawSubquery}.

Definition agrees (p : sql_pred) (q : pred) : Prop := ∀ t id r, eval t p id (incident_cols id r) = q t id r.

Lemma holds_where_all ps qs t id r : Forall2 agrees ps qs → holds t ps id (incident_cols id r) = where_all qs t id r.
Proof. induction 1 as [|p q ps qs Hp _ IH]; [done|]. cbn. unfold holds, where_all in IH. by rewrite Hp, IH. Qed.

Lemma tri_and_unit a : tri_and a (Some true) = a.
Proof. by destruct a as [[]|]. Qed.
Lemma tri_or_unit a : tri_or a (Some false) = a.
Proof. by destruct a as [[]|]. Qed.

Lemma elem_of_fmap_inj {A} (f : A → value) `{!Inj (=) (=) f} x (l : list A) : f x ∈ f <$> l ↔ x ∈ l.
Proof. rewrite list_elem_of_fmap. split; [intros (y & ->%(inj f) & ?); done|eauto]. Qed.

#[global] Instance VType_inj : Inj (=) (=) VType.
Proof. by intros ? ? [=]. Qed.
#[global] Instance VString_inj : Inj (=) (=) VString.
Proof. by intros ? ? [=]. Qed.
#[global] Instance VInt_inj : Inj (=) (=) VInt.
Proof. by intros ? ? [=]. Qed.

(** A list of values, with an empty one for [IN ()]. *)
Lemma eval_in {A} (f : A → value) `{!Inj (=) (=) f, EqDecision A} t c (l : list A) id (cols : columns) (x : option A) :
  cols c = f <$> x → is_Some x ∨ l ≠ [] → eval t (FieldIn c (f <$> l)) id cols = col x (λ y, bool_decide (y ∈ l)).
Proof.
  intros Hc Hx. destruct l as [|a l]; cbn [eval fmap list_fmap].
  - destruct Hx as [[y ->]|]; [|done]. cbn. by rewrite bool_decide_eq_false_2 by apply not_elem_of_nil.
  - rewrite Hc. destruct x as [y|]; cbn; [|done]. f_equal. apply bool_decide_ext. apply (elem_of_fmap_inj f y (a :: l)).
Qed.

Lemma agrees_type_in l : agrees (incident_TypeIn l) (TypeIn l).
Proof. intros t id r. apply (eval_in VType t _ l id _ (Some (ir_type r))); [done|by left]. Qed.
Lemma agrees_status_in l : l ≠ [] → agrees (incident_StatusIn l) (StatusIn l).
Proof. intros Hl t id r. apply (eval_in VString t _ l id _ (ir_status r)); [done|by right]. Qed.
Lemma agrees_status_not_in l : l ≠ [] → agrees (incident_StatusNotIn l) (StatusNotIn l).
Proof.
  intros Hl t id r. destruct l as [|a l]; [done|]. cbn -[incident_cols]. change (incident_cols id r incident_FieldStatus) with (VString <$> ir_status r).
  unfold StatusNotIn, col. destruct (ir_status r) as [s|]; cbn; [|done]. f_equal. apply bool_decide_ext.
  by rewrite <- (elem_of_fmap_inj VString s (a :: l)).
Qed.
Lemma agrees_status_eq s : agrees (incident_StatusEQ s) (StatusEQ s).
Proof.
  intros t id r. cbn -[incident_cols]. change (incident_cols id r incident_FieldStatus) with (VString <$> ir_status r).
  unfold StatusEQ, StatusIn, col. destruct (ir_status r) as [x|]; cbn; [|done]. f_equal. apply bool_decide_ext.
  rewrite list_elem_of_singleton. split; [by intros [= ->]|by intros ->].
Qed.
Lemma agrees_type_eq : agrees (incident_TypeEQ incident_TypeMaintenance) (TypeIn [TypeMaintenance]).
Proof.
  intros t id r. cbn -[incident_cols]. change (incident_cols id r incident_FieldType) with (Some (VType (ir_type r))).
  cbn. unfold TypeIn. f_equal. apply bool_decide_ext. rewrite list_elem_of_singleton. split; [by intros [= ->]|by intros ->].
Qed.

Lemma value_le_time a b : value_le (VTime a) (VTime b) = (a <=? b).
Proof.
  unfold value_le. cbn. apply eq_bool_prop_intro. rewrite orb_True, !Is_true_true, Z.ltb_lt, Z.leb_le, bool_decide_eq_true.
  split; [intros [?|[= ->]]; lia|]. intros. destruct (decide (a = b)) as [->|]; [by right|left; lia].
Qed.

Lemma agrees_components ids : ids ≠ [] → agrees (incident_HasComponentsWith [component_IDIn ids]) (HasComponentIn ids).
Proof.
  intros Hids t id r. cbn [eval incident_HasComponentsWith incident_newComponentsStep]. unfold HasComponentIn. f_equal.
  apply eq_bool_prop_intro. rewrite !Is_true_true, !existsb_exists.
  unfold neighbours. cbn [st_Rel st_Inverse st_Table incident_newComponentsStep]. rewrite bool_decide_eq_true_2 by done. split.
  - intros ([c f] & Hin & Hp). apply list_elem_of_In, list_elem_of_fmap in Hin as ([k row] & [= -> ->] & [Hrow Hrel]%elem_of_filterb).
    apply elem_of_rows in Hrow. cbn [fst snd] in *. exists k. apply andb_true_iff in Hp as [Hp _].
    rewrite bool_decide_eq_true in Hp. unfold component_IDIn in Hp.
    rewrite (eval_in VInt t _ ids k _ (Some k)) in Hp by (done || by right). injection Hp as Hp%bool_decide_eq_true.
    split; [by apply list_elem_of_In|]. rewrite Hrel. by rewrite bool_decide_eq_true_2 by eauto.
  - intros (c & Hc%list_elem_of_In & [Hrel [row Hrow]%bool_decide_eq_true]%andb_true_iff).
    exists (c, component_cols c row). split.
    + apply list_elem_of_In, list_elem_of_fmap. exists (c, row). split; [done|]. apply elem_of_filterb. by rewrite elem_of_rows.
    + cbn [forallb fst snd]. rewrite andb_true_r. apply bool_decide_eq_true. unfold component_IDIn.
      rewrite (eval_in VInt t _ ids c _ (Some c)) by (done || by right). cbn. by rewrite bool_decide_eq_true_2.
Qed.

Lemma agrees_and2 p q p' q' : agrees p p' → agrees q q' → agrees (incident_And [p; q]) (pred_and p' q').
Proof. intros Hp Hq t id r. cbn. rewrite tri_and_unit, Hp, Hq. done. Qed.
Lemma agrees_and3 p q s p' q' s' : agrees p p' → agrees q q' → agrees s s' →
  agrees (incident_And [p; q; s]) (pred_and p' (pred_and q' s')).
Proof. intros Hp Hq Hs t id r. cbn. rewrite tri_and_unit, Hp, Hq, Hs. done. Qed.
Lemma agrees_or2 p q p' q' : agrees p p' → agrees q q' → agrees (incident_Or [p; q]) (pred_or p' q').
Proof. intros Hp Hq t id r. cbn. rewrite tri_or_unit, Hp, Hq. done. Qed.
Lemma agrees_not p p' : agrees p p' → agrees (incident_Not p) (pred_not p').
Proof. intros Hp t id r. cbn. by rewrite Hp. Qed.

Lemma agrees_no_public : agrees no_public_status noPublicStatus.
Proof. intros t id r. apply (raw_no_public publicStatuses). Qed.

Lemma agrees_start_gte d : agrees (incident_StartDateGTE d) (λ _ _ r, Some (d <=? ir_start r)).
Proof. intros t id r. change (Some (value_le (VTime d) (VTime (ir_start r))) = Some (d <=? ir_start r)). by rewrite value_le_time. Qed.
Lemma agrees_start_lte d : agrees (incident_StartDateLTE d) (λ _ _ r, Some (ir_start r <=? d)).
Proof. intros t id r. change (Some (value_le (VTime (ir_start r)) (VTime d)) = Some (ir_start r <=? d)). by rewrite value_le_time. Qed.
Lemma agrees_end_lte d : agrees (incident_EndDateLTE d) (λ _ _ r, col (ir_end r) (λ e, e <=? d)).
Proof.
  intros t id r. cbn [eval incident_EndDateLTE]. change (incident_cols id r incident_FieldEndDate) with (VTime <$> ir_end r).
  destruct (ir_end r) as [e|]; [|done]. change (Some (value_le (VTime e) (VTime d)) = Some (e <=? d)). by rewrite value_le_time.
Qed.
Lemma agrees_end_gte d : agrees (incident_EndDateGTE d) (λ _ _ r, col (ir_end r) (λ e, d <=? e)).
Proof.
  intros t id r. cbn [eval incident_EndDateGTE]. change (incident_cols id r incident_FieldEndDate) with (VTime <$> ir_end r).
  destruct (ir_end r) as [e|]; [|done]. change (Some (value_le (VTime d) (VTime e)) = Some (d <=? e)). by rewrite value_le_time.
Qed.
Lemma agrees_end_nil : agrees incident_EndDateIsNil (λ _ _ r, Some (bool_decide (ir_end r = None))).
Proof.
  intros t id r. cbn [eval incident_EndDateIsNil]. change (incident_cols id r incident_FieldEndDate) with (VTime <$> ir_end r).
  f_equal. apply bool_decide_ext. by destruct (ir_end r).
Qed.
Lemma agrees_impact n : agrees (incident_ImpactEQ n) (λ _ _ r, Some (ir_impact r == n)).
Proof.
  intros t id r. change (Some (VInt (ir_impact r) == VInt n) = Some (ir_impact r == n)). f_equal.
  apply bool_decide_ext. split; [by intros [= ->]|by intros ->].
Qed.
Lemma agrees_system b : agrees (incident_SystemEQ b) (λ _ _ r, Some (ir_system r == b)).
Proof.
  intros t id r. change (Some (VBool (ir_system r) == VBool b) = Some (ir_system r == b)). f_equal.
  apply bool_decide_ext. split; [by intros [= ->]|by intros ->].
Qed.

Lemma agrees_active n : agrees (active_predicate n) (active_at terminalStatuses n).
Proof.
  apply agrees_or2; [apply agrees_end_nil|].
  apply agrees_and3; [apply agrees_start_lte|apply agrees_end_gte|by apply agrees_status_not_in].
Qed.
Lemma agrees_public : Forall2 agrees public_event_predicates publicEventPredicates.
Proof.
  repeat constructor; apply agrees_not.
  - apply agrees_and2; [apply agrees_type_eq|by apply agrees_status_in].
  - apply agrees_and3; [apply agrees_type_eq|apply agrees_status_eq|apply agrees_no_public].
Qed.

Lemma agrees_opt {A} (x : option A) f g : (∀ a, agrees (f a) (g a)) →
  Forall2 agrees (match x with Some a => [f a] | None => [] end) (opt_pred x g).
Proof. intros Hfg. destruct x; cbn; repeat constructor. apply Hfg. Qed.

Lemma agrees_dates (s e : option Z) :
  Forall2 agrees
    (match s, e with
     | Some s, Some e => [incident_StartDateGTE s; incident_EndDateLTE e]
     | Some s, None => [incident_StartDateGTE s] | None, Some e => [incident_EndDateLTE e] | None, None => []
     end)
    (opt_pred s (λ d _ _ r, Some (d <=? ir_start r)) ++ opt_pred e (λ d _ _ r, col (ir_end r) (λ e, e <=? d))).
Proof. destruct s, e; cbn; repeat constructor; first [apply agrees_start_gte|apply agrees_end_lte]. Qed.

Lemma agrees_head params :
  Forall2 agrees
    (match p_Types params with Some a => [incident_TypeIn a] | None => [] end
     ++ match p_Impact params with Some a => [incident_ImpactEQ a] | None => [] end
     ++ match p_IsSystem params with Some a => [incident_SystemEQ a] | None => [] end
     ++ match p_ComponentIDs params with [] => [] | ids => [incident_HasComponentsWith [component_IDIn ids]] end)
    (opt_pred (p_Types params) TypeIn ++ opt_pred (p_Impact params) (λ n _ _ r, Some (ir_impact r == n))
     ++ opt_pred (p_IsSystem params) (λ b _ _ r, Some (ir_system r == b))
     ++ match p_ComponentIDs params with [] => [] | ids => [HasComponentIn ids] end).
Proof.
  repeat apply Forall2_app; try (apply agrees_opt; first [apply agrees_type_in|apply agrees_impact|apply agrees_system]).
  destruct (p_ComponentIDs params); repeat constructor. by apply agrees_components.
Qed.

Lemma agrees_tail params (isAuth : bool) :
  Forall2 agrees
    ((match p_Status params with Some a => [incident_StatusEQ a] | None => [] end
      ++ match p_StartDate params, p_EndDate params with
         | Some s, Some e => [incident_StartDateGTE s; incident_EndDateLTE e]
         | Some s, None => [incident_StartDateGTE s] | None, Some e => [incident_EndDateLTE e] | None, None => []
         end) ++ (if isAuth then [] else public_event_predicates))
    ((opt_pred (p_Status params) StatusEQ
      ++ opt_pred (p_StartDate params) (λ d _ _ r, Some (d <=? ir_start r))
      ++ opt_pred (p_EndDate params) (λ d _ _ r, col (ir_end r) (λ e, e <=? d)))
     ++ (if isAuth then [] else publicEventPredicates)).
Proof.
  apply Forall2_app; [apply Forall2_app; [apply agrees_opt, agrees_status_eq|apply agrees_dates]|].
  destruct isAuth; [constructor|apply agrees_public].
Qed.

(** The two translations of the filters succeed together and select the same rows. *)
Lemma filters_agree params isAuth E w :
  match applyEventsFilters params isAuth E w with
  | (Ret preds, _) => ∃ ps, events_filters params isAuth (now_at E (w_tick w)) = inr ps ∧ Forall2 agrees ps preds
  | (Fail e, _) => e = EDb ErrDBIncidentFilterActiveFalse
      ∧ events_filters params isAuth (now_at E (w_tick w)) = inl ErrDBIncidentFilterActiveFalse
  | (Panic, _) => False
  end.
Proof.
  unfold applyEventsFilters, events_filters.
  destruct (p_IsActive params) as [[]|]; cbn -[agrees]; try done; (eexists; split; [reflexivity|]).
  - apply Forall2_app; [apply agrees_head|]. constructor; [apply agrees_active|].
    rewrite <- !app_assoc. pose proof (agrees_tail params isAuth) as Ht. rewrite <- !app_assoc in Ht. exact Ht.
  - apply Forall2_app; [apply agrees_head|].
    rewrite <- !app_assoc. pose proof (agrees_tail params isAuth) as Ht. rewrite <- !app_assoc in Ht. exact Ht.
Qed.
End Agree.
