(* ===== verification/EntRead.v ===== *)
(** * Reading rows through the generated code

    A row of a table, scanned column by column into a node ([scanValues] and
    [assignValues]) and mapped by [internal/db/mappers.go], is the struct that [Queries]
    and [Outbox] read from the row; the row is determined by its columns.  Then an instance
    of the interface [SqlReader] on the tables of [Store], and what a query and its eager
    loads read through it.  Rows come in the order of their ids unless the query orders
    them, as in [Queries]. *)

From S2P Require Import Prelude GoStrings GoTime Errors Event Models Store Queries Integrity Writes Outbox EntCore EntComponent EntComponentAttr EntIncident EntIncidentStatus EntNotificationOutbox EntComponentBuild EntComponentAttrBuild EntIncidentBuild EntIncidentStatusBuild EntNotificationOutboxBuild EntWhere EntQuery EntGraph EntFacade EntQuerySpec.
Local Open Scope Z_scope.

(** ** Nodes: a NULL leaves the zero value *)

Definition incident_node (id : Z) (r : IncidentRow) : IncidentNode :=
  mkIncidentNode id (ir_text r) (ir_description r) (ir_start r) (default zero_time (ir_end r)) (ir_impact r) (ir_system r)
    (ir_type r) (default ""%string (ir_status r)) (default zero_time (ir_created r)) (default zero_time (ir_modified r))
    (default zero_time (ir_deleted r)) (ir_created_by r) (ir_contact r) (ir_version r).
Definition status_node (id : Z) (r : StatusRow) : IncidentStatusNode :=
  mkIncidentStatusNode id (sr_incident r) (sr_timestamp r) (sr_text r) (sr_status r) (default zero_time (sr_created r))
    (default zero_time (sr_modified r)) (default zero_time (sr_deleted r)) (sr_created_by r) (sr_modified_by r).
Definition component_node (id : Z) (r : ComponentRow) : ComponentNode :=
  mkComponentNode id (cr_name r) (default zero_time (cr_created r)) (default zero_time (cr_modified r))
    (default zero_time (cr_deleted r)).
Definition attr_node (id : Z) (r : AttrRow) : ComponentAttrNode :=
  mkComponentAttrNode id (ar_component r) (ar_name r) (ar_value r).
Definition outbox_node (id : Z) (r : OutboxRow) : NotificationOutboxNode :=
  mkNotificationOutboxNode id (or_kind r) (or_incident r) (or_recipient r) (or_payload r) (or_change r) (or_dedup r)
    (or_status r) (or_attempts r) (default zero_time (or_next r)) (or_locked_by r) (default zero_time (or_locked_at r))
    (or_error r) (or_created r) (or_updated r).

(** ** The scan of all the columns of a row *)

Definition read_incident (columns : list string) (row : list (option value)) : scan_err + IncidentNode :=
  Incident_assignValues columns (zip_with scan (Incident_scanValues columns) row) newIncidentNode.
Definition read_status (columns : list string) (row : list (option value)) : scan_err + IncidentStatusNode :=
  IncidentStatus_assignValues columns (zip_with scan (IncidentStatus_scanValues columns) row) newIncidentStatusNode.
Definition read_component (columns : list string) (row : list (option value)) : scan_err + ComponentNode :=
  Component_assignValues columns (zip_with scan (Component_scanValues columns) row) newComponentNode.
Definition read_attr (columns : list string) (row : list (option value)) : scan_err + ComponentAttrNode :=
  ComponentAttr_assignValues columns (zip_with scan (ComponentAttr_scanValues columns) row) newComponentAttrNode.
Definition read_outbox (columns : list string) (row : list (option value)) : scan_err + NotificationOutboxNode :=
  NotificationOutbox_assignValues columns (zip_with scan (NotificationOutbox_scanValues columns) row) newNotificationOutboxNode.

Lemma read_incident_row id r : read_incident incident_Columns (incident_cols id r <$> incident_Columns) = inr (incident_node id r).
Proof. by destruct r as [? [] ? [] ? ? ? [] [] [] [] [] [] ?]. Qed.
Lemma read_status_row id r : read_status incidentstatus_Columns (status_cols id r <$> incidentstatus_Columns) = inr (status_node id r).
Proof. by destruct r as [? ? ? ? [] [] [] [] []]. Qed.
Lemma read_component_row id r : read_component component_Columns (component_cols id r <$> component_Columns) = inr (component_node id r).
Proof. by destruct r as [? [] [] []]. Qed.
Lemma read_attr_row id r : read_attr componentattr_Columns (attr_cols id r <$> componentattr_Columns) = inr (attr_node id r).
Proof. by destruct r. Qed.
Lemma read_outbox_row id r :
  read_outbox notificationoutbox_Columns (outbox_cols id r <$> notificationoutbox_Columns) = inr (outbox_node id r).
Proof. by destruct r as [? ? ? ? ? ? ? ? [] [] [] [] ? ?]. Qed.

(** ** The mappers of the facade *)

Definition incident_of_node (e : IncidentNode) (components : list Component) : Incident :=
  mkIncident (in_ID e) (Some (in_Text e)) (in_Description e) (Some (in_StartDate e)) (optTimePtr (in_EndDate e))
    (Some (in_Impact e)) [] (in_Status e) (in_System e) (in_Type e) components (optTimePtr (in_CreatedAt e))
    (optTimePtr (in_ModifiedAt e)) (optTimePtr (in_DeletedAt e)) (in_CreatedBy e) (in_ContactEmail e) (Some (in_Version e)).
Definition status_of_node (e : IncidentStatusNode) : IncidentStatus :=
  mkIncidentStatus (sn_ID e) (sn_IncidentID e) (sn_Status e) (sn_Text e) (sn_Timestamp e) (optTimePtr (sn_CreatedAt e))
    (optTimePtr (sn_ModifiedAt e)) (optTimePtr (sn_DeletedAt e)) (sn_CreatedBy e) (sn_ModifiedBy e).
Definition attr_of_node (e : ComponentAttrNode) : ComponentAttr :=
  mkAttr (an_ID e) (an_ComponentID e) (an_Name e) (an_Value e).
Definition component_of_node (e : ComponentNode) (attributes : list ComponentAttrNode) : Component :=
  mkComponent (cn_ID e) (cn_Name e) (attr_of_node <$> attributes) (optTimePtr (cn_CreatedAt e))
    (optTimePtr (cn_ModifiedAt e)) (optTimePtr (cn_DeletedAt e)).
Definition outbox_of_node (e : NotificationOutboxNode) : NotificationOutbox :=
  mkOutbox (nn_ID e) (nn_Kind e) (nn_IncidentID e) (nn_Recipient e) (nn_Payload e) (nn_ChangeID e) (nn_DedupKey e)
    (nn_Status e) (nn_Attempts e) (if IsZero (nn_NextAttemptAt e) then None else Some (nn_NextAttemptAt e)) (nn_LockedBy e)
    (if IsZero (nn_LockedAt e) then None else Some (nn_LockedAt e)) (nn_LastError e) (nn_CreatedAt e) (nn_UpdatedAt e).

(** The attributes of a component, as the rows of its edge. *)
Lemma attrs_of_nodes t id : attr_of_node <$> ((λ ka : Z * AttrRow, attr_node ka.1 ka.2)
  <$> filterb (λ ka : Z * AttrRow, ar_component ka.2 == id) (rows (t_attr t))) = attrs_of t id.
Proof.
  unfold attrs_of. induction (rows (t_attr t)) as [|[k a] l IH]; [done|]. cbn.
  destruct (bool_decide _); cbn; by rewrite IH.
Qed.

(** ** Rows of a query *)

Definition with_cols {R} (cols : Z → R → columns) (kr : Z * R) : Z * columns := (kr.1, cols kr.1 kr.2).
Definition by_id {R} (cols : Z → R → columns) (m : gmap Z R) : list (Z * columns) := with_cols cols <$> rows m.
Definition table_rows (table : string) (t : Tables) : list (Z * columns) :=
  switch table
  [(incident_Table, by_id incident_cols (t_incident t)); (incidentstatus_Table, by_id status_cols (t_status t));
   (component_Table, by_id component_cols (t_component t)); (componentattr_Table, by_id attr_cols (t_attr t));
   (notificationoutbox_Table, by_id outbox_cols (t_outbox t))] [].

Section Read.
Context `{Server}.

(** [ORDER BY]: NULL is the greatest value. *)
Definition null_lt (x y : option value) : bool :=
  match x, y with Some a, Some b => value_lt a b | Some _, None => true | None, _ => false end.
Definition sorts_before (o : OrderTerm) (a b : Z * columns) : bool :=
  let 'OrderBy c desc := o in if desc then null_lt (b.2 c) (a.2 c) else null_lt (a.2 c) (b.2 c).
Fixpoint in_order (os : list OrderTerm) (a b : Z * columns) : bool :=
  match os with
  | [] => true
  | o :: os => if sorts_before o a b then true else if sorts_before o b a then false else in_order os a b
  end.
Definition order_rel (os : list OrderTerm) (a b : Z * columns) : Prop := in_order os a b = true.
#[global] Instance order_rel_dec os : RelDecision (order_rel os).
Proof. intros a b. unfold order_rel. apply _. Defined.
Definition ordered (os : list OrderTerm) (l : list (Z * columns)) : list (Z * columns) :=
  match os with [] => l | _ => merge_sort (order_rel os) l end.

(** [LIMIT] and [OFFSET]; a negative one is refused. *)
Definition paged {A} (limit offset : option Z) (l : list A) : option (list A) :=
  if bool_decide (default 0 offset < 0) || bool_decide (default 0 limit < 0) then None
  else let l := drop (Z.to_nat (default 0 offset)) l in
       Some (match limit with Some n => take (Z.to_nat n) l | None => l end).

(** A limit or offset of zero is left out of a query's specification. *)
Definition nonzero (n : Z) : option Z := if n == 0 then None else Some n.

Fixpoint first_by_id (seen : list Z) (l : list (Z * columns)) : list (Z * columns) :=
  match l with
  | [] => []
  | r :: l => if bool_decide (r.1 ∈ seen) then first_by_id seen l else r :: first_by_id (r.1 :: seen) l
  end.

Fixpoint selector_rows (s : Selector) (t : Tables) : option (list (Z * columns)) :=
  let '(mkSelector table _ from distinct ps os limit offset) := s in
  match (match from with
         | None => Some (table_rows table t)
         | Some (st, s) => (λ l, flat_map (λ r : Z * columns, neighbours t st r.1) l) <$> selector_rows s t
         end) with
  | None => None
  | Some l =>
      let l := filterb (λ r : Z * columns, holds t ps r.1 r.2) l in
      paged limit offset (ordered os (if distinct then first_by_id [] l else l))
  end.

(** The ids at the other end of the join of a row. *)
Definition join_outs (j : Join) (t : Tables) (id : Z) : list Z :=
  filterb (λ o, if jn_On j == nth 1 incident_ComponentsPrimaryKey ""%string
                then bool_decide ((o, id) ∈ t_rel t) else bool_decide ((id, o) ∈ t_rel t)) (remove_dups (jn_In j)).

Definition spec_rows (spec : QuerySpec) (t : Tables) : option (list (option value * (Z * columns))) :=
  match (match qs_From spec with
         | None => Some (table_rows (qs_Table spec) t)
         | Some (st, s) => (λ l, flat_map (λ r : Z * columns, neighbours t st r.1) l) <$> selector_rows s t
         end) with
  | None => None
  | Some l =>
      let l := filterb (λ r : Z * columns, holds t (qs_Predicates spec) r.1 r.2) l in
      let l := ordered (qs_Order spec) (if qs_Unique spec then first_by_id [] l else l) in
      paged (nonzero (qs_Limit spec)) (nonzero (qs_Offset spec))
        (match qs_Join spec with
         | None => (λ r, (None, r)) <$> l
         | Some j => flat_map (λ r : Z * columns, (λ o, (Some (VInt o), r)) <$> join_outs j t r.1) l
         end)
  end.

Definition refused : graph_err := GOther "refused".
Definition tables_query (spec : QuerySpec) (t : Tables) : graph_err + list (list (option value)) :=
  match spec_rows spec t with
  | None => inl refused
  | Some l => inr ((λ or : option value * (Z * columns),
      (match qs_Join spec with None => [] | Some _ => [or.1] end) ++ (or.2.2 <$> qs_Columns spec)) <$> l)
  end.
(** Counting is not paged. *)
Definition tables_count (spec : QuerySpec) (t : Tables) : graph_err + Z :=
  match spec_rows (spec <| qs_Order := [] |> <| qs_Limit := 0 |> <| qs_Offset := 0 |>) t with
  | None => inl refused | Some l => inr (Z.of_nat (length l))
  end.
Definition tables_select (s : Selector) (t : Tables) : graph_err + list (list (option value)) :=
  let '(mkSelector _ columns _ _ _ _ _ _) := s in
  match selector_rows s t with None => inl refused | Some l => inr ((λ r, r.2 <$> columns) <$> l) end.

#[global] Instance tables_reader : SqlReader Tables :=
  {| g_QueryNodes := tables_query; g_CountNodes := tables_count; g_SelectRows := tables_select |}.
End Read.

(** ** Lists *)

Lemma paged_fmap {A B} (f : A → B) limit offset (l : list A) : paged limit offset (f <$> l) = fmap (M:=list) f <$> paged limit offset l.
Proof.
  unfold paged. destruct (bool_decide _ || _); [done|]. cbn. f_equal. rewrite <- fmap_drop.
  destruct limit; [|done]. by rewrite fmap_take.
Qed.
Lemma paged_all {A} (l : list A) : paged None None l = Some l.
Proof. done. Qed.

(** Sorting commutes with a function that keeps the order. *)
Section MergeSort.
Context {A B : Type} (f : A → B) (R : relation A) (Q : relation B) `{!RelDecision R, !RelDecision Q}.
Hypothesis HRQ : ∀ a b, Q (f a) (f b) ↔ R a b.

Lemma list_merge_fmap (l k : list A) : list_merge Q (f <$> l) (f <$> k) = f <$> list_merge R l k.
Proof.
  revert k. induction l as [|a l IH]; intros k; [by destruct k|]. induction k as [|b k IHk]; [done|]. cbn.
  destruct (decide (R a b)) as [Hr|Hr].
  - rewrite decide_True by by apply HRQ. cbn. f_equal. apply (IH (b :: k)).
  - rewrite decide_False by by rewrite HRQ. cbn. f_equal. apply IHk.
Qed.
Lemma merge_list_to_stack_fmap (st : list (option (list A))) (l : list A) :
  merge_list_to_stack Q (fmap (M:=option) (fmap (M:=list) f) <$> st) (f <$> l) = fmap (M:=option) (fmap (M:=list) f) <$> merge_list_to_stack R st l.
Proof.
  revert l. induction st as [|[l'|] st IH]; intros l; [done| |done]. cbn. f_equal. rewrite list_merge_fmap. apply IH.
Qed.
Lemma merge_stack_fmap (st : list (option (list A))) : merge_stack Q (fmap (M:=option) (fmap (M:=list) f) <$> st) = f <$> merge_stack R st.
Proof. induction st as [|[l|] st IH]; [done| |done]. cbn. by rewrite <- list_merge_fmap, <- IH. Qed.
Lemma merge_sort_fmap (l : list A) : merge_sort Q (f <$> l) = f <$> merge_sort R l.
Proof.
  unfold merge_sort. change (@nil (option (list B))) with (fmap (M:=option) (fmap (M:=list) f) <$> @nil (option (list A))).
  generalize (@nil (option (list A))) as st. induction l as [|a l IH]; intros st; [apply merge_stack_fmap|].
  cbn [merge_sort_aux fmap list_fmap]. rewrite <- IH. f_equal. apply (merge_list_to_stack_fmap st [a]).
Qed.
End MergeSort.

(** Sorting rows by their distinct keys, up or down. *)
Definition key_ge {A} (p q : Z * A) : Prop := q.1 ≤ p.1.
#[global] Instance key_ge_dec {A} : RelDecision (@key_ge A).
Proof. intros p q. unfold key_ge. apply _. Defined.

Lemma key_unique {A} (l : list (Z * A)) x y : NoDup l.*1 → x ∈ l → y ∈ l → x.1 = y.1 → x = y.
Proof.
  intros Hnd Hx Hy Heq. destruct x as [k a], y as [k' b]; cbn in Heq; subst k'. f_equal.
  induction l as [|[c d] l IH]; [by apply elem_of_nil in Hx|]. cbn in Hnd. apply NoDup_cons in Hnd as [Hn Hnd].
  apply elem_of_cons in Hx as [Hx|Hx], Hy as [Hy|Hy]; [congruence| | |by apply IH].
  - injection Hx as -> ->. exfalso. apply Hn. apply list_elem_of_fmap. by exists (c, b).
  - injection Hy as -> ->. exfalso. apply Hn. apply list_elem_of_fmap. by exists (c, a).
Qed.
Lemma merge_sort_key {A} (l : list (Z * A)) : NoDup l.*1 → StronglySorted key_le l → merge_sort key_le l = l.
Proof.
  intros Hnd Hl. apply (StronglySorted_unique_strong key_le); [| |done|apply merge_sort_Permutation].
  - intros x y Hx Hy ? ?. rewrite merge_sort_Permutation in Hx. apply (key_unique l); [done..|]. unfold key_le in *. lia.
  - apply StronglySorted_merge_sort; apply _.
Qed.
Lemma merge_sort_key_rev {A} (l : list (Z * A)) : NoDup l.*1 → StronglySorted key_le l → merge_sort key_ge l = reverse l.
Proof.
  intros Hnd Hl. apply (StronglySorted_unique_strong key_ge).
  - intros x y Hx Hy ? ?. rewrite merge_sort_Permutation in Hx. rewrite elem_of_reverse in Hy.
    apply (key_unique l); [done..|]. unfold key_ge in *. lia.
  - apply StronglySorted_merge_sort; [intros ???|intros ??]; unfold key_ge; lia.
  - clear Hnd. induction Hl as [|x l Hl IH Hx]; [constructor|]. rewrite reverse_cons. apply StronglySorted_app. split_and!; [|done|repeat constructor].
    intros y z Hy ->%list_elem_of_singleton. rewrite elem_of_reverse in Hy. rewrite Forall_forall in Hx. by apply Hx.
  - rewrite reverse_Permutation. apply merge_sort_Permutation.
Qed.

(** ** Reading the rows of a query *)

Lemma read_rows_fmap {A N} (read : list (option value) → scan_err + N) (f : A → list (option value)) (g : A → N) (l : list A) :
  (∀ a, read (f a) = inr (g a)) → read_rows read (f <$> l) = inr (g <$> l).
Proof. intros Hfg. induction l as [|a l IH]; [done|]. cbn. by rewrite Hfg, IH. Qed.

Section Joined.
Context {R N : Type} (read : list (option value) → scan_err + N) (row : Z * R → list (option value)) (js : Z → list Z) (g : Z * R → N).
Hypothesis Hread : ∀ kr, read (row kr) = inr (g kr).
Hypothesis Hid : ∀ kr, mjoin (head (row kr)) = Some (VInt kr.1).

Definition joined_rows (l : list (Z * R)) : list (list (option value)) :=
  flat_map (λ kr, (λ o, Some (VInt o) :: row kr) <$> js kr.1) l.
Definition joined_pairs (l : list (Z * R)) : list (Z * Z) := flat_map (λ kr, (λ o, (o, kr.1)) <$> js kr.1) l.

Lemma read_joined_seen kr os rest seen ps ns : kr.1 ∈ seen → read_joined read seen rest = inr (ps, ns) →
  read_joined read seen (((λ o, Some (VInt o) :: row kr) <$> os) ++ rest) = inr (((λ o, (o, kr.1)) <$> os) ++ ps, ns).
Proof.
  intros Hs Hr. induction os as [|o os IH]; [done|]. cbn [fmap list_fmap app read_joined head tail mjoin option_join].
  rewrite Hid. cbn [int_value]. rewrite bool_decide_eq_true_2 by done. by rewrite IH.
Qed.

Lemma read_joined_rows l seen : NoDup l.*1 → (∀ k, k ∈ l.*1 → k ∉ seen) →
  read_joined read seen (joined_rows l) = inr (joined_pairs l, g <$> filterb (λ kr, negb (bool_decide (js kr.1 = []))) l).
Proof.
  revert seen. induction l as [|kr l IH]; intros seen Hnd Hs; [done|]. cbn in Hnd. apply NoDup_cons in Hnd as [Hn Hnd].
  unfold joined_rows, joined_pairs. cbn [flat_map filterb]. destruct (js kr.1) as [|o os] eqn:Hj.
  - cbn. apply IH; [done|]. intros k Hk. apply Hs. cbn. by right.
  - cbn [fmap list_fmap app read_joined head tail mjoin option_join]. rewrite Hid. cbn [int_value].
    rewrite bool_decide_eq_false_2 by (apply Hs; left). rewrite Hread.
    erewrite read_joined_seen; [|by left|apply IH; [done|]].
    + by rewrite (bool_decide_eq_false_2 (o :: os = [])) by done.
    + intros k Hk [->|Hk']%elem_of_cons; [done|]. apply (Hs k); [by right|done].
Qed.
End Joined.

(** ** Giving neighbours to their nodes *)

Lemma assign_referenced_all {T} nm (fk nid : T → Z) ids ns :
  (∀ n, n ∈ ns → fk n ∈ ids) → assign_referenced nm fk nid ids ns = inr ((λ n, (fk n, n)) <$> ns).
Proof.
  induction ns as [|n ns IH]; intros Hin; [done|]. cbn. rewrite bool_decide_eq_true_2 by (apply Hin; left).
  rewrite IH by (intros; apply Hin; by right). done.
Qed.

Lemma distribute_each {T} ids (l : list (Z * T)) : NoDup ids → distribute ids l = (λ i, (filterb (λ p : Z * T, p.1 == i) l).*2) <$> ids.
Proof.
  intros Hnd. induction Hnd as [|i ids Hn Hnd IH]; [done|]. cbn. rewrite bool_decide_eq_false_2 by done. by rewrite IH.
Qed.

Lemma distribute_fks {T} ids (fk : T → Z) (ns : list T) : NoDup ids →
  distribute ids ((λ n, (fk n, n)) <$> ns) = (λ i, filterb (λ n, fk n == i) ns) <$> ids.
Proof.
  intros Hnd. rewrite distribute_each by done. apply list_fmap_ext. intros _ i _. rewrite filterb_fmap, <- list_fmap_compose. apply list_fmap_id.
Qed.

Lemma filterb_pairs {A T} (js : A → list Z) (g : A → T) i (l : list A) : (∀ a, NoDup (js a)) →
  (filterb (λ p : Z * T, p.1 == i) (flat_map (λ a, (λ o, (o, g a)) <$> js a) l)).*2 = g <$> filterb (λ a, bool_decide (i ∈ js a)) l.
Proof.
  intros Hnd. induction l as [|a l IH]; [done|]. cbn [flat_map]. rewrite filterb_app, fmap_app, IH. cbn [filterb].
  rewrite filterb_fmap, <- list_fmap_compose. cbn [fst]. specialize (Hnd a).
  assert (∀ os, NoDup os → (λ o, g a) <$> filterb (λ o, o == i) os = if bool_decide (i ∈ os) then [g a] else []) as Hos.
  { intros os. induction 1 as [|o os Hn Hos IHo]; [done|]. cbn [filterb]. destruct (decide (o = i)) as [->|Hne].
    - rewrite (bool_decide_eq_true_2 (i = i)), (bool_decide_eq_true_2 (i ∈ i :: os)) by (done || by left).
      cbn. rewrite IHo. by rewrite bool_decide_eq_false_2.
    - rewrite (bool_decide_eq_false_2 (o = i)) by done. rewrite IHo. erewrite bool_decide_ext; [reflexivity|]. rewrite elem_of_cons. naive_solver. }
  change ((snd ∘ λ o, (o, g a)) <$> _) with ((λ o : Z, g a) <$> filterb (λ o, o == i) (js a)). rewrite Hos by done. by destruct (bool_decide _).
Qed.

Lemma imap_edge {N T X} (F : N → option T → X) (g : N → T) nodes :
  imap (λ i n, F n (edge_at (Some (g <$> nodes)) i)) nodes = (λ n, F n (Some (g n))) <$> nodes.
Proof.
  apply list_eq. intros i. rewrite list_lookup_imap, list_lookup_fmap. destruct (nodes !! i) as [n|] eqn:Hn; [|done].
  cbn. by rewrite list_lookup_fmap, Hn.
Qed.

Lemma imap_edges {N T U X} (F : N → option T → option U → X) (g : N → T) (h : N → U) nodes :
  imap (λ i n, F n (edge_at (Some (g <$> nodes)) i) (edge_at (Some (h <$> nodes)) i)) nodes = (λ n, F n (Some (g n)) (Some (h n))) <$> nodes.
Proof.
  apply list_eq. intros i. rewrite list_lookup_imap, list_lookup_fmap. destruct (nodes !! i) as [n|] eqn:Hn; [|done].
  cbn. by rewrite !list_lookup_fmap, Hn.
Qed.
Lemma imap_no_edge {N T X} (F : N → option T → X) nodes : imap (λ i n, F n (edge_at (@None (list T)) i)) nodes = (λ n, F n None) <$> nodes.
Proof. apply (imap_const (λ n, F n None)). Qed.

Lemma remove_dups_NoDup (l : list Z) : NoDup l → remove_dups l = l.
Proof. induction 1 as [|x l Hn _ IH]; [done|]. cbn. destruct (decide_rel _ _ _); [done|]. by rewrite IH. Qed.

Lemma outs_pairs {R} (js : Z → list Z) (l : list (Z * R)) kr : (∀ k, NoDup (js k)) → NoDup l.*1 → kr ∈ l →
  outs (joined_pairs js l) kr.1 = js kr.1.
Proof.
  intros Hjs Hnd Hin. unfold outs. rewrite <- (remove_dups_NoDup (js kr.1)) by done. f_equal. clear Hjs.
  assert (∀ k k', filterb (λ p : Z * Z, p.2 == k) ((λ o, (o, k')) <$> js k') = if bool_decide (k' = k) then (λ o, (o, k')) <$> js k' else []) as Hos.
  { intros k k'. induction (js k') as [|o os IH]; cbn; [by destruct (bool_decide _)|]. rewrite IH. by destruct (bool_decide _). }
  assert (∀ k (l : list (Z * R)), k ∉ l.*1 → filterb (λ p : Z * Z, p.2 == k) (joined_pairs js l) = []) as Hout.
  { intros k l' Hk. induction l' as [|x l' IH]; [done|]. unfold joined_pairs in *. cbn [flat_map]. cbn in Hk.
    apply not_elem_of_cons in Hk as [Hne Hk]. rewrite filterb_app, Hos, bool_decide_eq_false_2, IH by done. done. }
  induction l as [|x l IH]; [by apply elem_of_nil in Hin|]. cbn in Hnd. apply NoDup_cons in Hnd as [Hn Hnd].
  unfold joined_pairs in *. cbn [flat_map]. rewrite filterb_app, fmap_app, Hos. apply elem_of_cons in Hin as [->|Hin].
  - rewrite bool_decide_eq_true_2, Hout, app_nil_r by done. rewrite <- list_fmap_compose. apply list_fmap_id.
  - rewrite bool_decide_eq_false_2; [by apply IH|]. intros Heq. apply Hn. rewrite Heq. by apply list_elem_of_fmap_2.
Qed.

Lemma assign_joined_all {R T} edge (node_id : T → Z) (tree : Z * R → T) (js : Z → list Z) nids (l : list (Z * R)) :
  (∀ kr, node_id (tree kr) = kr.1) → (∀ kr, kr ∈ l → outs nids kr.1 = js kr.1 ∧ js kr.1 ≠ []) →
  assign_joined edge node_id nids (tree <$> l) = inr (flat_map (λ kr, (λ o, (o, tree kr)) <$> js kr.1) l).
Proof.
  intros Hid Hjs. induction l as [|kr l IH]; [done|]. cbn. rewrite Hid. destruct (Hjs kr) as [-> Hne]; [by left|].
  rewrite IH by (intros; apply Hjs; by right). by destruct (js kr.1).
Qed.

Lemma flat_map_nonempty {A B} (f : A → list B) (p : A → bool) l : (∀ a, p a = false → f a = []) → flat_map f (filterb p l) = flat_map f l.
Proof.
  intros Hp. induction l as [|a l IH]; [done|]. cbn [flat_map filterb]. destruct (p a) eqn:Ha; cbn [flat_map]; rewrite IH; [done|].
  by rewrite (Hp a Ha).
Qed.

(** ** Queries of one table *)

Section Plain.
Context `{Server}.

(** A specification without traversal or join, with these predicates, order and page. *)
Record plain_spec (spec : QuerySpec) (ps : list sql_pred) (os : list OrderTerm) (limit offset : Z) : Prop := mkPlain {
  plain_from : qs_From spec = None; plain_join : qs_Join spec = None; plain_unique : qs_Unique spec = false;
  plain_predicates : qs_Predicates spec = ps; plain_order : qs_Order spec = os;
  plain_limit : qs_Limit spec = limit; plain_offset : qs_Offset spec = offset }.

Definition holding {R} (cols : Z → R → columns) (ps : list sql_pred) (t : Tables) (m : gmap Z R) : list (Z * R) :=
  filterb (λ kr : Z * R, holds t ps kr.1 (cols kr.1 kr.2)) (rows m).

Lemma query_plain {R N} (cols : Z → R → columns) (node : Z → R → N) read spec t m ps os limit offset l :
  plain_spec spec ps os limit offset → table_rows (qs_Table spec) t = by_id cols m →
  (∀ k r, read (cols k r <$> qs_Columns spec) = inr (node k r)) →
  ordered os (with_cols cols <$> holding cols ps t m) = with_cols cols <$> l →
  query_nodes read spec t = match paged (nonzero limit) (nonzero offset) l with
    | None => inl (query_error refused)
    | Some l => inr ([], (λ kr, node kr.1 kr.2) <$> l)
    end.
Proof.
  intros [Hf Hj Hu <- <- <- <-] Ht Hread Ho. unfold query_nodes. cbn [g_QueryNodes tables_reader]. unfold tables_query, spec_rows.
  rewrite Hf, Hj, Hu, Ht. unfold by_id. rewrite filterb_fmap. unfold holding in Ho. cbn [fst snd with_cols]. rewrite Ho, !paged_fmap.
  destruct (paged _ _ l) as [k|]; [|done]. cbn [fmap option_fmap option_map]. rewrite <- !list_fmap_compose.
  rewrite (read_rows_fmap read _ (λ kr, node kr.1 kr.2)); [done|]. intros kr. apply Hread.
Qed.

Lemma count_plain {R} (cols : Z → R → columns) spec t m ps os limit offset :
  plain_spec spec ps os limit offset → table_rows (qs_Table spec) t = by_id cols m →
  g_CountNodes spec t = inr (Z.of_nat (length (holding cols ps t m))).
Proof.
  intros [Hf Hj Hu <- _ _ _] Ht. cbn [g_CountNodes tables_reader]. unfold tables_count, spec_rows, holding.
  destruct spec as [table columns from uniq ps join limit' offset' order]. cbn in *. subst. rewrite Ht. unfold by_id. rewrite filterb_fmap.
  cbn. unfold constant. change (nonzero 0) with (@None Z). rewrite paged_all, !length_fmap. done.
Qed.

(** A query of a whole table under a join, and the neighbours it gives to the nodes. *)
Record joined_spec (spec : QuerySpec) (j : Join) : Prop := mkJoined {
  joined_from : qs_From spec = None; joined_join : qs_Join spec = Some j; joined_unique : qs_Unique spec = false;
  joined_predicates : qs_Predicates spec = []; joined_order : qs_Order spec = [];
  joined_limit : qs_Limit spec = 0; joined_offset : qs_Offset spec = 0 }.

Lemma joined_rows_spec {R} (cols : Z → R → columns) cs js (l : list (Z * R)) :
  (λ or : option value * (Z * columns), or.1 :: (or.2.2 <$> cs))
    <$> flat_map (λ r : Z * columns, (λ o, (Some (VInt o), r)) <$> js r.1) (with_cols cols <$> l)
  = joined_rows (λ kr, cols kr.1 kr.2 <$> cs) js l.
Proof.
  unfold joined_rows. induction l as [|kr l IH]; [done|]. cbn [flat_map fmap list_fmap]. rewrite fmap_app, IH.
  f_equal. by rewrite <- list_fmap_compose.
Qed.

Lemma query_joined {R N} (cols : Z → R → columns) (node : Z * R → N) read spec t m j :
  joined_spec spec j → table_rows (qs_Table spec) t = by_id cols m →
  (∀ kr, read (cols kr.1 kr.2 <$> qs_Columns spec) = inr (node kr)) →
  (∀ kr, mjoin (head (cols kr.1 kr.2 <$> qs_Columns spec)) = Some (VInt kr.1)) →
  query_nodes read spec t = inr (joined_pairs (join_outs j t) (rows m),
    node <$> filterb (λ kr : Z * R, negb (bool_decide (join_outs j t kr.1 = []))) (rows m)).
Proof.
  intros [Hf Hj Hu Hp Ho Hl Hof] Ht Hread Hid. unfold query_nodes. cbn [g_QueryNodes tables_reader]. unfold tables_query, spec_rows.
  rewrite Hf, Hj, Hu, Hp, Ho, Hl, Hof, Ht. cbv zeta. change (nonzero 0) with (@None Z). rewrite paged_all, filterb_true_id by done.
  cbn [ordered app]. unfold by_id. rewrite (joined_rows_spec cols (qs_Columns spec) (join_outs j t)).
  rewrite (read_joined_rows _ _ (join_outs j t) node); [done..|apply NoDup_rows_keys|]. intros k _. apply not_elem_of_nil.
Qed.

Lemma joined_load {R T} edge (node_id : T → Z) (tree : Z * R → T) (js : Z → list Z) (rel : Z → Z → bool) ids m :
  NoDup ids → (∀ kr, node_id (tree kr) = kr.1) → (∀ k, js k = filterb (λ o, rel o k) (remove_dups ids)) →
  ∃ assigned, assign_joined edge node_id (joined_pairs js (rows m)) (tree <$> filterb (λ kr : Z * R, negb (bool_decide (js kr.1 = []))) (rows m))
      = inr assigned
    ∧ distribute ids assigned = (λ i, tree <$> filterb (λ kr : Z * R, rel i kr.1) (rows m)) <$> ids.
Proof.
  intros Hnd Hid Hjs. assert (∀ k, NoDup (js k)) as Hnj by (intros k; rewrite Hjs; apply NoDup_filterb, NoDup_remove_dups).
  eexists. split; [apply (assign_joined_all _ _ _ js); [done|]|].
  - intros kr [Hin Hne]%elem_of_filterb. split; [|by apply negb_true_iff, bool_decide_eq_false in Hne].
    apply outs_pairs; [done|apply NoDup_rows_keys|done].
  - rewrite distribute_each by done. apply list_fmap_ext. intros i x Hx.
    rewrite flat_map_nonempty by (intros kr Hk%negb_false_iff%bool_decide_eq_true; by rewrite Hk).
    rewrite (filterb_pairs (λ kr : Z * R, js kr.1)) by (intros; apply Hnj). f_equal. apply filterb_ext. intros kr _.
    apply eq_bool_prop_intro. rewrite Hjs, bool_decide_spec, elem_of_filterb, elem_of_remove_dups, Is_true_true.
    split; [by intros [_ ?]|]. intros. split; [|done]. by eapply list_elem_of_lookup_2.
Qed.

(** The rows that a query takes are in the order of their distinct ids. *)
Lemma holding_keys {R} (cols : Z → R → columns) ps t m : NoDup (holding cols ps t m).*1.
Proof. apply NoDup_filterb_keys, NoDup_rows_keys. Qed.
Lemma holding_sorted {R} (cols : Z → R → columns) ps t (m : gmap Z R) : StronglySorted key_le (holding cols ps t m).
Proof. apply StronglySorted_filterb, rows_sorted. Qed.

(** The row with an id. *)
Lemma rows_at {R} (m : gmap Z R) i : filterb (λ kr : Z * R, kr.1 == i) (rows m) = (λ r, (i, r)) <$> option_list (m !! i).
Proof.
  apply key_sorted_unique.
  - apply StronglySorted_filterb, rows_sorted.
  - destruct (m !! i); cbn; repeat constructor.
  - apply NoDup_filterb_keys, NoDup_rows_keys.
  - apply NoDup_Permutation; [apply NoDup_filterb, NoDup_rows|destruct (m !! i); cbn; [apply NoDup_singleton|apply NoDup_nil_2]|].
    intros [k r]. rewrite elem_of_filterb, elem_of_rows, bool_decide_eq_true. cbn [fst]. rewrite list_elem_of_fmap. split.
    + intros [Hm ->]. exists r. split; [done|]. rewrite Hm. by left.
    + intros (r' & [= -> ->] & Hr). split; [|done]. destruct (m !! i); [|by apply elem_of_nil in Hr]. by apply list_elem_of_singleton in Hr as ->.
Qed.
Lemma holds_one t p k f b : eval t p k f = Some b → holds t [p] k f = b.
Proof. intros Hp. unfold holds. cbn [forallb]. rewrite Hp, andb_true_r. by destruct b. Qed.
Lemma holds_eq {A} (f : A → value) `{!Inj (=) (=) f, !EqDecision A} t c (x y : A) k (cols : columns) :
  cols c = Some (f x) → holds t [FieldEQ c (f y)] k cols = (x == y).
Proof.
  intros Hc. apply (holds_one t _ _ _ (x == y)). cbn. rewrite Hc. cbn. f_equal. apply bool_decide_ext. split; [apply (inj f)|by intros ->].
Qed.
Lemma holding_id {R} (cols : Z → R → columns) c i t m : (∀ k r, cols k r c = Some (VInt k)) →
  holding cols [FieldEQ c (VInt i)] t m = (λ r, (i, r)) <$> option_list (m !! i).
Proof. intros Hc. rewrite <- rows_at. apply filterb_ext. intros [k r] _. apply (holds_eq VInt), Hc. Qed.

Lemma paged_sublist {A} limit offset (l k : list A) : paged limit offset l = Some k → sublist k l.
Proof.
  unfold paged. destruct (bool_decide _ || _); [done|]. intros [= <-]. pose proof (sublist_drop l (Z.to_nat (default 0 offset))).
  destruct limit; [|done]. etransitivity; [apply sublist_take|done].
Qed.

(** Orders. *)
Lemma ordered_time {R} (cols : Z → R → columns) c (key : R → Z) (Q : relation (Z * R)) `{!RelDecision Q} l :
  (∀ k r, cols k r c = Some (VTime (key r))) → (∀ a b, Q a b ↔ key b.2 ≤ key a.2) →
  ordered [OrderBy c true] (with_cols cols <$> l) = with_cols cols <$> merge_sort Q l.
Proof.
  intros Hc HQ. apply merge_sort_fmap. intros a b. rewrite HQ. unfold order_rel. cbn. rewrite !Hc. cbn [null_lt value_lt].
  destruct (Z.ltb_spec (key b.2) (key a.2)), (Z.ltb_spec (key a.2) (key b.2)); split; intros; (done || lia).
Qed.

Lemma ordered_id {R} (cols : Z → R → columns) c (desc : bool) l : (∀ k r, cols k r c = Some (VInt k)) →
  NoDup l.*1 → StronglySorted key_le l →
  ordered [OrderBy c desc] (with_cols cols <$> l) = with_cols cols <$> (if desc then reverse l else l).
Proof.
  intros Hc Hnd Hl. unfold ordered. destruct desc.
  - rewrite (merge_sort_fmap (with_cols cols) key_ge _); [by rewrite merge_sort_key_rev|].
    intros a b. unfold order_rel, key_ge. cbn. rewrite !Hc. cbn.
    destruct (Z.ltb_spec b.1 a.1), (Z.ltb_spec a.1 b.1); split; intros; (done || lia).
  - rewrite (merge_sort_fmap (with_cols cols) key_le _); [by rewrite merge_sort_key|].
    intros a b. unfold order_rel, key_le. cbn. rewrite !Hc. cbn.
    destruct (Z.ltb_spec b.1 a.1), (Z.ltb_spec a.1 b.1); split; intros; (done || lia).
Qed.
End Plain.

(** ** The declared schema *)

(** [ent/migrate/schema.go]: the columns, keys and unique indexes of the tables.  Indexes
    that are not unique and the SQL names of the types are left out. *)
Module Migrate.
Inductive ColType := CInt | CString | CTime | CBool | CJSON | CEnum (values : list string).
Record Column := mkCol {
  co_Name : string; co_Type : ColType; co_Increment : bool; co_Nullable : bool; co_Default : bool }.
Inductive OnDelete := NoAction | Cascade.
Record ForeignKey := mkFK { fk_Column : string; fk_RefTable : string; fk_RefColumn : string; fk_OnDelete : OnDelete }.
Record SchemaTable := mkTable {
  tb_Name : string; tb_Columns : list Column; tb_PrimaryKey : list string;
  tb_ForeignKeys : list ForeignKey; tb_Unique : list (list string) }.

Definition ComponentColumns : list Column :=
  [mkCol "id" CInt true false false;
   mkCol "name" CString false false false;
   mkCol "created_at" CTime false true false;
   mkCol "modified_at" CTime false true false;
   mkCol "deleted_at" CTime false true false]%string.
Definition ComponentAttributeColumns : list Column :=
  [mkCol "id" CInt true false false;
   mkCol "name" CString false false false;
   mkCol "value" CString false false false;
   mkCol "component_id" CInt false true false]%string.
Definition IncidentColumns : list Column :=
  [mkCol "id" CInt true false false;
   mkCol "text" CString false false false;
   mkCol "description" CString false true false;
   mkCol "start_date" CTime false false false;
   mkCol "end_date" CTime false true false;
   mkCol "impact" CInt false false false;
   mkCol "system" CBool false false true;
   mkCol "type" (CEnum ["incident"; "info"; "maintenance"]) false false false;
   mkCol "status" CString false true false;
   mkCol "created_at" CTime false true false;
   mkCol "modified_at" CTime false true false;
   mkCol "deleted_at" CTime false true false;
   mkCol "created_by" CString false true false;
   mkCol "contact_email" CString false true false;
   mkCol "version" CInt false false true]%string.
Definition IncidentStatusColumns : list Column :=
  [mkCol "id" CInt true false false;
   mkCol "incident_id" CInt false true false;
   mkCol "timestamp" CTime false false false;
   mkCol "text" CString false false false;
   mkCol "status" CString false false false;
   mkCol "created_at" CTime false true false;
   mkCol "modified_at" CTime false true false;
   mkCol "deleted_at" CTime false true false;
   mkCol "created_by" CString false true false;
   mkCol "modified_by" CString false true false]%string.
Definition NotificationOutboxColumns : list Column :=
  [mkCol "id" CInt true false false;
   mkCol "kind" CString false false false;
   mkCol "recipient" CString false false false;
   mkCol "payload" CJSON false false false;
   mkCol "change_id" CString false false false;
   mkCol "dedup_key" CString false false false;
   mkCol "status" CString false false true;
   mkCol "attempts" CInt false false true;
   mkCol "next_attempt_at" CTime false true false;
   mkCol "locked_by" CString false true false;
   mkCol "locked_at" CTime false true false;
   mkCol "last_error" CString false true false;
   mkCol "created_at" CTime false false true;
   mkCol "updated_at" CTime false false true;
   mkCol "incident_id" CInt false false false]%string.
Definition IncidentComponentRelationColumns : list Column :=
  [mkCol "incident_id" CInt false false false;
   mkCol "component_id" CInt false false false]%string.
Definition ComponentTable : SchemaTable :=
  mkTable "component" ComponentColumns ["id"] [] []%string.
Definition ComponentAttributeTable : SchemaTable :=
  mkTable "component_attribute" ComponentAttributeColumns ["id"] [mkFK "component_id" "component" "id" NoAction] [["component_id"; "name"]]%string.
Definition IncidentTable : SchemaTable :=
  mkTable "incident" IncidentColumns ["id"] [] []%string.
Definition IncidentStatusTable : SchemaTable :=
  mkTable "incident_status" IncidentStatusColumns ["id"] [] []%string.
Definition NotificationOutboxTable : SchemaTable :=
  mkTable "notification_outbox" NotificationOutboxColumns ["id"] [mkFK "incident_id" "incident" "id" NoAction] [["dedup_key"]]%string.
Definition IncidentComponentRelationTable : SchemaTable :=
  mkTable "incident_component_relation" IncidentComponentRelationColumns ["incident_id"; "component_id"] [mkFK "incident_id" "incident" "id" Cascade; mkFK "component_id" "component" "id" Cascade] []%string.
Definition Tables : list SchemaTable :=
  [ComponentTable; ComponentAttributeTable; IncidentTable; IncidentStatusTable; NotificationOutboxTable;
   IncidentComponentRelationTable].
End Migrate.

Section Conforms.
Import Migrate.

(** The rows of a table by its name, the relation of events and components included. *)
Definition relation_cols (ic : Z * Z) : columns := λ c, switch c
  [("incident_id"%string, Some (VInt ic.1)); ("component_id"%string, Some (VInt ic.2))] None.
Definition stored_rows (table : string) (t : Store.Tables) : list columns :=
  if table == "incident_component_relation"%string then relation_cols <$> elements (t_rel t)
  else snd <$> table_rows table t.

Definition has_type (ty : ColType) (v : value) : bool :=
  match ty, v with
  | CInt, VInt _ | CString, VString _ | CTime, VTime _ | CBool, VBool _ | CJSON, VJSON _ => true
  | CEnum values, VType s => bool_decide (s ∈ values)
  | _, _ => false
  end.
(** A column holds a value of its type, or NULL where it may. *)
Definition column_ok (row : columns) (c : Column) : bool :=
  match row (co_Name c) with None => co_Nullable c | Some v => has_type (co_Type c) v end.

Definition key_of (cols : list string) (row : columns) : list (option value) := row <$> cols.

(** The rows satisfy the declaration: typed columns, distinct primary and unique keys
    (the unique columns are never NULL), references to existing rows. *)
Record table_conforms (t : Store.Tables) (s : SchemaTable) : Prop := mkConforms {
  tc_columns : ∀ row, row ∈ stored_rows (tb_Name s) t → forallb (column_ok row) (tb_Columns s) = true;
  tc_primary : NoDup (key_of (tb_PrimaryKey s) <$> stored_rows (tb_Name s) t);
  tc_unique : Forall (λ cols, NoDup (key_of cols <$> stored_rows (tb_Name s) t)) (tb_Unique s);
  tc_foreign : Forall (λ fk, ∀ row v, row ∈ stored_rows (tb_Name s) t → row (fk_Column fk) = Some v →
    ∃ row', row' ∈ stored_rows (fk_RefTable fk) t ∧ row' (fk_RefColumn fk) = Some v) (tb_ForeignKeys s) }.
End Conforms.

(** ** The stored tables conform to the declared schema *)

Module ConformSpec.
Import Migrate.

Lemma stored_by_id {R} (cols : Z → R → columns) m row : row ∈ (by_id cols m).*2 ↔ ∃ k r, m !! k = Some r ∧ row = cols k r.
Proof.
  unfold by_id. rewrite <- list_fmap_compose, list_elem_of_fmap. split.
  - intros ([k r] & -> & Hin%elem_of_rows). by exists k, r.
  - intros (k & r & Hk & ->). exists (k, r). split; [done|]. by apply elem_of_rows.
Qed.

(** Keys are distinct when they tell the ids apart. *)
Lemma keys_distinct {R} (cols : Z → R → columns) m ks :
  (∀ k1 k2 r1 r2, m !! k1 = Some r1 → m !! k2 = Some r2 → key_of ks (cols k1 r1) = key_of ks (cols k2 r2) → k1 = k2) →
  NoDup (key_of ks <$> (by_id cols m).*2).
Proof.
  intros Hk. unfold by_id. rewrite <- !list_fmap_compose. apply NoDup_fmap_2_strong; [|apply NoDup_rows].
  intros [k1 r1] [k2 r2] H1%elem_of_rows H2%elem_of_rows Heq. cbn in *.
  assert (k1 = k2) as -> by eauto. congruence.
Qed.

Lemma primary_ids {R} (cols : Z → R → columns) m c : (∀ k r, cols k r c = Some (VInt k)) →
  NoDup (key_of [c] <$> (by_id cols m).*2).
Proof. intros Hc. apply keys_distinct. intros k1 k2 r1 r2 _ _. unfold key_of. cbn. rewrite !Hc. by intros [= ->]. Qed.

Lemma columns_stored {R} (cols : Z → R → columns) m cs :
  (∀ k r, m !! k = Some r → forallb (column_ok (cols k r)) cs = true) →
  ∀ row, row ∈ (by_id cols m).*2 → forallb (column_ok row) cs = true.
Proof. intros H row (k & r & Hk & ->)%stored_by_id. by apply H. Qed.

Lemma references {R Q} (cols : Z → R → columns) (cols' : Z → Q → columns) m m' c c' (fk : R → Z) :
  (∀ k r, cols k r c = Some (VInt (fk r))) → (∀ k q, cols' k q c' = Some (VInt k)) →
  (∀ k r, m !! k = Some r → is_Some (m' !! fk r)) →
  ∀ row v, row ∈ (by_id cols m).*2 → row c = Some v → ∃ row', row' ∈ (by_id cols' m').*2 ∧ row' c' = Some v.
Proof.
  intros Hc Hc' Hfk row v (k & r & Hk & ->)%stored_by_id. rewrite Hc. intros [= <-].
  destruct (Hfk k r Hk) as [q Hq]. exists (cols' (fk r) q). split; [|apply Hc']. apply stored_by_id. by exists (fk r), q.
Qed.

Section Conform.
Context (w : World) (Hw : wf w).
Let t := w_tab w.

Lemma components_conform : table_conforms t ComponentTable.
Proof.
  split; [| |constructor|constructor].
  - apply columns_stored. intros k r _. unfold component_cols. by destruct (cr_created r), (cr_modified r), (cr_deleted r).
  - by apply (primary_ids component_cols).
Qed.
Lemma attributes_conform : table_conforms t ComponentAttributeTable.
Proof.
  split.
  - apply columns_stored. intros k r _. done.
  - by apply (primary_ids attr_cols).
  - constructor; [|constructor]. apply (keys_distinct attr_cols). intros k1 k2 r1 r2 H1 H2 [= Hc Hn].
    by apply (wf_attr_unique w Hw k1 k2 r1 r2).
  - constructor; [|constructor]. apply (references attr_cols component_cols _ _ _ _ ar_component); [done..|].
    apply (wf_attr_fk w Hw).
Qed.
Lemma incidents_conform : table_conforms t IncidentTable.
Proof.
  split; [| |constructor|constructor].
  - apply columns_stored. intros k r Hr. destruct (wf_rows w Hw k r Hr) as [_ Ht].
    assert (has_type (CEnum ["incident"; "info"; "maintenance"]%string) (VType (ir_type r)) = true) as Hty.
    { apply bool_decide_eq_true. apply bool_decide_eq_true in Ht. set_solver. }
    change (column_ok (incident_cols k r) (mkCol "type" (CEnum ["incident"; "info"; "maintenance"]) false false false)%string = true) in Hty.
    unfold IncidentTable, tb_Columns, IncidentColumns. cbn [forallb]. rewrite Hty. clear Hty Ht. unfold incident_cols.
    by destruct (ir_description r), (ir_end r), (ir_status r), (ir_created r), (ir_modified r), (ir_deleted r),
      (ir_created_by r), (ir_contact r).
  - by apply (primary_ids incident_cols).
Qed.
Lemma statuses_conform : table_conforms t IncidentStatusTable.
Proof.
  split; [| |constructor|constructor].
  - apply columns_stored. intros k r _. unfold status_cols.
    by destruct (sr_created r), (sr_modified r), (sr_deleted r), (sr_created_by r), (sr_modified_by r).
  - by apply (primary_ids status_cols).
Qed.
Lemma outbox_conforms : table_conforms t NotificationOutboxTable.
Proof.
  split.
  - apply columns_stored. intros k r _. unfold outbox_cols. by destruct (or_next r), (or_locked_by r), (or_locked_at r), (or_error r).
  - by apply (primary_ids outbox_cols).
  - constructor; [|constructor]. apply (keys_distinct outbox_cols). intros k1 k2 r1 r2 H1 H2 [= Hd].
    by apply (wf_outbox_unique w Hw k1 k2 r1 r2).
  - constructor; [|constructor]. apply (references outbox_cols incident_cols _ _ _ _ or_incident); [done..|].
    apply (wf_outbox_fk w Hw).
Qed.
Lemma relation_conforms : table_conforms t IncidentComponentRelationTable.
Proof.
  assert (stored_rows (tb_Name IncidentComponentRelationTable) t = relation_cols <$> elements (t_rel t)) as Hrows by done.
  split; rewrite ?Hrows.
  - intros row (ic & -> & _)%list_elem_of_fmap. done.
  - rewrite <- list_fmap_compose. apply NoDup_fmap_2_strong; [|apply NoDup_elements].
    intros [i c] [i' c'] _ _ [= -> ->]. done.
  - constructor.
  - apply Forall_cons; split; [|apply Forall_cons; split; [|by apply Forall_nil]]; intros row v ([i c] & -> & Hin%elem_of_elements)%list_elem_of_fmap [= <-];
      destruct (wf_rel_fk w Hw i c Hin) as [[ri Hi] [rc Hc]]; eexists; (split; [apply stored_by_id; by eexists _, _|done]).
Qed.

Lemma tables_conform : Forall (table_conforms t) Migrate.Tables.
Proof.
  unfold Migrate.Tables. rewrite !Forall_cons. split_and!; [apply components_conform|apply attributes_conform
    |apply incidents_conform|apply statuses_conform|apply outbox_conforms|apply relation_conforms|by apply Forall_nil].
Qed.
End Conform.
End ConformSpec.
