(* ===== verification/EntRun.v ===== *)
(** * The generated code on the world of the facade

    Each call of the SQL graph library is one statement of [Store], which the environment
    may fail; a builder is then an operation of the monad [M].  The lemmas here turn a
    builder's [Save] into the table operations of [Writes] and [Outbox], given what its
    specification selects and what it makes of a row. *)

From S2P Require Import Prelude GoStrings GoTime Errors Event Models Store Queries Writes Outbox EntCore EntComponent EntComponentAttr EntIncident EntIncidentStatus EntNotificationOutbox EntComponentBuild EntComponentAttrBuild EntIncidentBuild EntIncidentStatusBuild EntNotificationOutboxBuild EntWhere EntGraph EntFacade EntRead.
Local Open Scope Z_scope.

(** The error classes that the facade tells apart. *)
Definition err_of (e : ent_error) : err :=
  match e with
  | EntValidation _ _ => EEnt ValidationError
  | EntNotFound _ => EEnt NotFoundError
  | EntConstraint _ => EEnt ConstraintError
  | _ => ESql
  end.

Definition driver_error : graph_err := GOther "driver: bad connection".

(** One statement: a create of a table with a default of the server's clock reads it. *)
Definition statement {A} (clock : bool) (f : Db → (graph_err + A) * Db) (E : Env) (w : World) : (graph_err + A) * World :=
  match stmt E w with
  | (Ret _, w) =>
      match (if clock then now E w else (Ret 0, w)) with
      | (Ret n, w) =>
          let '(r, db) := f (mkDb (w_tab w) (w_seq w) n) in
          (r, mkWorld (db_tab db) (db_seq db) (w_tick w) (w_stmt w) (w_signal w))
      | (_, w) => (inl driver_error, w)
      end
  | (_, w) => (inl driver_error, w)
  end.

#[global] Instance world_graph `{Server} (E : Env) : SqlGraph World :=
  {| g_CreateNode spec := statement (cs_Table spec == notificationoutbox_Table) (graph_create spec) E;
     g_UpdateNodes spec := statement false (graph_update_nodes spec) E;
     g_UpdateNode N spec assign := statement false (graph_update_node spec assign) E;
     g_DeleteNodes table ps := statement false (graph_delete table ps) E |}.

(** A builder's terminal call as an operation of the facade. *)
Definition ent `{Server} {A C} (save : SqlGraph World → World → (ent_error + A) * C * World) : M A := λ E w,
  match save (world_graph E) w with
  | (inl e, _, w) => (Fail (err_of e), w)
  | (inr a, _, w) => (Ret a, w)
  end.

(** What a builder's check says, as the check of the facade's model. *)
Definition checked (e : option ent_error) (ok : bool) : Prop :=
  match e with None => ok = true | Some e => ok = false ∧ err_of e = EEnt ValidationError end.

(** ** Updates of many rows *)

Section UpdateRows.
Context `{Server} {R : Type} (cols : Z → R → columns) (row : columns → option R).

Lemma update_where_ext p q (f g : R → R) m : (∀ k r, m !! k = Some r → p k r = q k r) →
  (∀ k r, m !! k = Some r → q k r = true → f r = g r) → update_where p f m = update_where q g m.
Proof.
  intros Hp Hf. apply map_eq. intros k. rewrite !lookup_update_where. destruct (m !! k) as [r|] eqn:Hk; [|done]. cbn.
  rewrite (Hp k r Hk). destruct (q k r) eqn:Hq; [|done]. by rewrite (Hf k r Hk Hq).
Qed.

Lemma count_where_ext (p q : Z → R → bool) m : (∀ k r, m !! k = Some r → p k r = q k r) → count_where p m = count_where q m.
Proof.
  intros Hp. unfold count_where. f_equal. f_equal. apply filterb_ext. intros [k r] Hin%elem_of_map_to_list. by apply Hp.
Qed.

(** A specification that selects the rows [q] and makes [f] of them. *)
Record rewrites (spec : UpdateSpec) (q : Z → R → bool) (f : R → R) : Prop := mkRewrites {
  rewrites_takes t k r : takes spec t k (cols k r) = q k r;
  rewrites_row k r : row (updated spec (cols k r)) = Some (f r) }.

Lemma update_rows_spec spec t m q f : rewrites spec q f →
  update_rows cols row spec t m = Some (update_where q f m, count_where q m).
Proof.
  intros [Hq Hf]. unfold update_rows. rewrite (proj2 (forallb_forall _ _)).
  - f_equal. f_equal; [|by apply count_where_ext]. apply map_eq. intros k. rewrite lookup_update_where, map_lookup_imap.
    destruct (m !! k) as [r|]; [|done]. cbn. rewrite Hq. destruct (q k r); [|done]. by rewrite Hf.
  - intros [k r] _. cbn. by rewrite Hf, orb_true_r.
Qed.
End UpdateRows.

Lemma stmt_cases E w : let w' := mkWorld (w_tab w) (w_seq w) (w_tick w) (S (w_stmt w)) (w_signal w) in
  stmt E w = (Ret tt, w') ∨ stmt E w = (Fail ESql, w').
Proof. cbn. unfold stmt. destruct (fault_at E (w_stmt w)); auto. Qed.

Ltac on_statement E w :=
  unfold ent, g_CreateNode, g_UpdateNodes, g_UpdateNode, world_graph, statement, mbind, M_bind;
  let Hst := fresh "Hst" in destruct (stmt_cases E w) as [Hst|Hst]; rewrite Hst; [|reflexivity].

(** Without hooks [Save] is [sqlSave]. *)
Section Hookless.
Context `{SqlGraph DB} (db : DB).
Lemma IncidentUpdate_Save_eq u : IncidentUpdate_Save u db = IncidentUpdate_sqlSave u db.
Proof. by destruct u. Qed.
Lemma IncidentUpdateOne_Save_eq u : IncidentUpdateOne_Save u db = IncidentUpdateOne_sqlSave u db.
Proof. by destruct u. Qed.
Lemma IncidentStatusUpdate_Save_eq u : IncidentStatusUpdate_Save u db = IncidentStatusUpdate_sqlSave u db.
Proof. by destruct u. Qed.
Lemma NotificationOutboxUpdate_Save_eq u : NotificationOutboxUpdate_Save u db = NotificationOutboxUpdate_sqlSave u db.
Proof. by destruct u. Qed.
Lemma IncidentCreate_Save_eq u : IncidentCreate_Save u db = IncidentCreate_sqlSave (IncidentCreate_defaults u) db.
Proof. by destruct u. Qed.
Lemma IncidentStatusCreate_Save_eq u : IncidentStatusCreate_Save u db = IncidentStatusCreate_sqlSave u db.
Proof. by destruct u. Qed.
Lemma NotificationOutboxCreate_Save_eq u :
  NotificationOutboxCreate_Save u db = NotificationOutboxCreate_sqlSave (NotificationOutboxCreate_defaults u) db.
Proof. by destruct u. Qed.
End Hookless.

(** A failed check stops a builder before its statement. *)
Lemma check_passed {A} (m : M A) E w : (_ ← ent_check true; m) E w = m E w.
Proof. done. Qed.
Ltac on_check Hc := unfold checked in Hc;
  lazymatch type of Hc with match ?c with Some _ => _ | None => _ end => destruct c as [?e|] end;
  [destruct Hc as [-> Hc]; unfold mbind, M_bind; cbn [ent_check]; unfold throw; by rewrite Hc|subst; rewrite check_passed].

Section Save.
Context `{Server} (E : Env) (w : World) (ok : bool).

Ltac table_update Hs := unfold graph_update_nodes, update_tables; cbn [db_tab];
  match goal with |- context [switch ?a ?b ?c] => let v := eval hnf in (switch a b c) in change (switch a b c) with v end;
  rewrite (update_rows_spec _ _ _ _ _ _ _ Hs); reflexivity.

Lemma incidents_saved u q f : checked (IncidentUpdate_check u) ok →
  rewrites incident_cols incident_row_of (IncidentUpdate_spec u) q f →
  ent (λ G, IncidentUpdate_Save u) E w = (_ ← ent_check ok; update_incidents q f) E w.
Proof.
  intros Hc Hs. unfold ent. rewrite IncidentUpdate_Save_eq. unfold IncidentUpdate_sqlSave, update_incidents. on_check Hc.
  on_statement E w. table_update Hs.
Qed.
Lemma statuses_saved u q f : checked (IncidentStatusUpdate_check u) ok →
  rewrites status_cols status_row_of (IncidentStatusUpdate_spec u) q f →
  ent (λ G, IncidentStatusUpdate_Save u) E w =
  (_ ← ent_check ok; _ ← stmt; t ← get_tab; _ ← put_tab (set_statuses (update_where q f (t_status t)) t); mret (count_where q (t_status t))) E w.
Proof.
  intros Hc Hs. unfold ent. rewrite IncidentStatusUpdate_Save_eq. unfold IncidentStatusUpdate_sqlSave. on_check Hc.
  on_statement E w. table_update Hs.
Qed.

Lemma outbox_saved u q f : checked (NotificationOutboxUpdate_check u) ok →
  rewrites outbox_cols outbox_row_of (NotificationOutboxUpdate_spec u) q f →
  ent (λ G, NotificationOutboxUpdate_Save u) E w = (_ ← ent_check ok; update_outbox q f) E w.
Proof.
  intros Hc Hs. unfold ent. rewrite NotificationOutboxUpdate_Save_eq. unfold NotificationOutboxUpdate_sqlSave, update_outbox. on_check Hc.
  on_statement E w. table_update Hs.
Qed.

(** The order of the ids of an edge does not matter. *)
Lemma components_exist_ext t (ids ids' : list Z) : (∀ c, c ∈ ids ↔ c ∈ ids') → components_exist t ids = components_exist t ids'.
Proof.
  intros Hids. apply eq_iff_eq_true. unfold components_exist. rewrite !forallb_forall.
  by setoid_rewrite <- list_elem_of_In; setoid_rewrite Hids.
Qed.
Lemma pairs_ext (i : Z) (ids ids' : list Z) : (∀ c, c ∈ ids ↔ c ∈ ids') →
  list_to_set (pair i <$> ids) = (list_to_set (pair i <$> ids') : gset (Z * Z)).
Proof.
  intros Hids. apply set_eq. intros [a b]. rewrite !elem_of_list_to_set, !list_elem_of_fmap. by setoid_rewrite Hids.
Qed.

(** ** Updates of one row *)

Lemma update_where_id {R} id (f : R → R) m :
  update_where (λ k _, k =? id) f m = match m !! id with Some r => <[id := f r]> m | None => m end.
Proof.
  apply map_eq. intros k. rewrite lookup_update_where. destruct (Z.eqb_spec k id) as [->|Hk].
  - destruct (m !! id) as [r|] eqn:Hr; cbn; [by rewrite lookup_insert_eq|done].
  - destruct (m !! k) as [r|] eqn:Hr, (m !! id); cbn; rewrite ?lookup_insert_ne by done; by rewrite Hr.
Qed.

Lemma count_where_id {R} id (m : gmap Z R) :
  (count_where (λ k _, k =? id) m =? 0) = match m !! id with Some _ => false | None => true end.
Proof.
  destruct (m !! id) as [r|] eqn:Hr.
  - apply Z.eqb_neq. intros H0. pose proof (proj1 (count_where_zero _ _) H0 id r Hr) as Hk. cbn in Hk. by rewrite Z.eqb_refl in Hk.
  - apply Z.eqb_eq, count_where_zero. intros k r Hk. apply Z.eqb_neq. by intros ->; rewrite Hk in Hr.
Qed.

Lemma node_updated spec id f rm add t s n : us_Table spec = incident_Table → us_ID spec = Some id →
  us_Columns spec = incident_Columns → rewrites incident_cols incident_row_of spec (λ k _, k =? id) f →
  (∀ c, c ∈ component_nodes (us_EdgesClear spec) ↔ c ∈ rm) → (∀ c, c ∈ component_nodes (us_EdgesAdd spec) ↔ c ∈ add) →
  graph_update_node spec (read_incident incident_Columns) (mkDb t s n) =
  match t_incident t !! id with
  | None => (inl (GNotFound "record not found"), mkDb t s n)
  | Some r =>
      if components_exist t add
      then (inr (incident_node id (f r)),
            mkDb (set_rel ((t_rel t ∖ list_to_set (pair id <$> rm)) ∪ list_to_set (pair id <$> add))
              (set_incidents (<[id := f r]> (t_incident t)) t)) s n)
      else (inl (GConstraint "foreign key"), mkDb t s n)
  end.
Proof.
  intros Ht Hi Hcs Hs Hrm Hadd. unfold graph_update_node. rewrite Hi. cbn [db_tab].
  assert (update_tables spec t = Some (set_incidents (update_where (λ k _, k =? id) f (t_incident t)) t, count_where (λ k _, k =? id) (t_incident t))) as ->.
  { unfold update_tables. rewrite Ht. change (('(m, n) ← update_rows incident_cols incident_row_of spec t (t_incident t); Some (set_incidents m t, n)) =
      Some (set_incidents (update_where (λ k _, k =? id) f (t_incident t)) t, count_where (λ k _, k =? id) (t_incident t))).
    by rewrite (update_rows_spec _ _ _ _ _ _ _ Hs). }
  rewrite count_where_id, update_where_id. destruct (t_incident t !! id) as [r|] eqn:Hr; [|done].
  unfold update_edges. rewrite Ht. cbn [negb].
  rewrite bool_decide_eq_true_2 by done. cbn [negb].
  rewrite (components_exist_ext _ _ _ Hadd), (pairs_ext _ _ _ Hadd), (pairs_ext _ _ _ Hrm).
  change (components_exist (set_incidents (<[id:=f r]> (t_incident t)) t) add) with (components_exist t add).
  destruct (components_exist t add); [|done]. rewrite Hcs.
  unfold row_columns. match goal with |- context [switch ?a ?b ?c] => let v := eval hnf in (switch a b c) in change (switch a b c) with v end.
  cbn [t_incident set_rel set_incidents]. rewrite lookup_insert_eq. cbn [fmap option_fmap option_map].
  by rewrite read_incident_row.
Qed.

(** [IncidentUpdateOne.Exec]: the row, then the rows of the relation. *)
Lemma incident_saved u id f rm add : let spec := IncidentUpdateOne_spec u id incident_Columns in
  checked (IncidentUpdateOne_check u) ok → IncidentMutation_ID (IncidentUpdateOne_mutation u) = Some id → IncidentUpdateOne_fields u = [] →
  rewrites incident_cols incident_row_of spec (λ k _, k =? id) f →
  (∀ c, c ∈ component_nodes (us_EdgesClear spec) ↔ c ∈ rm) → (∀ c, c ∈ component_nodes (us_EdgesAdd spec) ↔ c ∈ add) →
  ent (λ G, IncidentUpdateOne_Exec u) E w =
  (_ ← ent_check ok; _ ← stmt; t ← get_tab;
   match t_incident t !! id with
   | None => throw (EEnt NotFoundError)
   | Some r =>
       if components_exist t add
       then put_tab (set_rel ((t_rel t ∖ list_to_set (pair id <$> rm)) ∪ list_to_set (pair id <$> add))
              (set_incidents (<[id := f r]> (t_incident t)) t))
       else throw (EEnt ConstraintError)
   end) E w.
Proof.
  intros spec Hc Hid Hf Hs Hrm Hadd. unfold ent, IncidentUpdateOne_Exec. rewrite IncidentUpdateOne_Save_eq.
  unfold IncidentUpdateOne_sqlSave. on_check Hc. rewrite Hid, Hf. unfold selected. fold spec.
  assert (us_Table spec = incident_Table ∧ us_ID spec = Some id ∧ us_Columns spec = incident_Columns) as (Ht & Hi & Hcs) by done.
  clearbody spec. on_statement E w. change (λ row, Incident_assignValues _ _ _) with (read_incident incident_Columns).
  rewrite (node_updated _ _ _ _ _ _ _ _ Ht Hi Hcs Hs Hrm Hadd). unfold get_tab, put_tab, throw. cbn [w_tab].
  destruct (t_incident (w_tab w) !! id); [|done]. by destruct (components_exist (w_tab w) add).
Qed.

(** ** Creates *)

Section Tables.
Context (spec : CreateSpec).
Lemma graph_create_incident : cs_Table spec = incident_Table → graph_create spec = create_incident spec.
Proof. unfold graph_create. by intros ->. Qed.
Lemma graph_create_status : cs_Table spec = incidentstatus_Table → graph_create spec = create_status spec.
Proof. unfold graph_create. by intros ->. Qed.
Lemma graph_create_outbox : cs_Table spec = notificationoutbox_Table → graph_create spec = create_outbox spec.
Proof. unfold graph_create. by intros ->. Qed.
End Tables.

(** The new row, the edges and the errors of the constraints. *)
Lemma incident_created u r v ids : let spec := (IncidentCreate_createSpec (IncidentCreate_defaults u)).2 in
  checked (IncidentCreate_check (IncidentCreate_defaults u)) ok → incident_row_of (inserted spec (λ _, None)) = Some r →
  in_Version (IncidentCreate_createSpec (IncidentCreate_defaults u)).1 = v →
  (∀ c, c ∈ component_nodes (cs_Edges spec) ↔ c ∈ ids) →
  (n ← ent (λ G, IncidentCreate_Save u); mret (in_ID n, in_Version n)) E w =
  (_ ← ent_check ok; _ ← stmt; id ← next_incident_id; t ← get_tab;
   _ ← (if components_exist t ids
        then put_tab (set_rel (t_rel t ∪ list_to_set (pair id <$> ids)) (set_incidents (<[id := r]> (t_incident t)) t))
        else throw (EEnt ConstraintError));
   mret (id, v)) E w.
Proof.
  intros spec Hc Hr <- Hids. unfold mbind at 1, M_bind at 1, ent. rewrite IncidentCreate_Save_eq. unfold IncidentCreate_sqlSave. on_check Hc.
  rewrite (surjective_pairing (IncidentCreate_createSpec _)). fold spec.
  assert (cs_Table spec = incident_Table) as Ht by reflexivity. clearbody spec.
  on_statement E w. rewrite (graph_create_incident _ Ht), Ht, (bool_decide_eq_false_2 (incident_Table = _)) by done.
  unfold create_incident. cbv zeta. rewrite Hr. cbn [db_tab db_seq w_tab w_seq].
  rewrite (components_exist_ext _ _ _ Hids), (pairs_ext _ _ _ Hids).
  unfold next_incident_id, mbind, M_bind, get_seq, put_seq, get_tab, put_tab, throw, mret, M_ret. cbn [w_tab w_seq].
  by destruct (components_exist (w_tab w) ids).
Qed.

Lemma status_created u r : let spec := (IncidentStatusCreate_createSpec u).2 in
  checked (IncidentStatusCreate_check u) ok → status_row_of (inserted spec (λ _, None)) = Some r →
  (n ← ent (λ G, IncidentStatusCreate_Save u); mret (sn_ID n)) E w =
  (_ ← ent_check ok; _ ← stmt; id ← next_status_id; t ← get_tab; _ ← put_tab (set_statuses (<[id := r]> (t_status t)) t); mret id) E w.
Proof.
  intros spec Hc Hr. unfold mbind at 1, M_bind at 1, ent. rewrite IncidentStatusCreate_Save_eq. unfold IncidentStatusCreate_sqlSave.
  on_check Hc. rewrite (surjective_pairing (IncidentStatusCreate_createSpec _)). fold spec.
  assert (cs_Table spec = incidentstatus_Table) as Ht by reflexivity. clearbody spec.
  on_statement E w. rewrite (graph_create_status _ Ht), Ht. unfold create_status. by rewrite Hr.
Qed.

Lemma outbox_created u (r : Z → OutboxRow) : let spec := (NotificationOutboxCreate_createSpec (NotificationOutboxCreate_defaults u)).2 in
  checked (NotificationOutboxCreate_check (NotificationOutboxCreate_defaults u)) ok →
  (∀ n, outbox_row_of (inserted spec (outbox_defaults n)) = Some (r n)) →
  (_ ← ent (λ G, NotificationOutboxCreate_Save u); mret tt) E w =
  (_ ← ent_check ok; _ ← stmt; n ← now; id ← next_outbox_id; t ← get_tab;
   if existsb (λ kr : Z * OutboxRow, or_dedup kr.2 == or_dedup (r n)) (rows (t_outbox t))
      || negb (bool_decide (is_Some (t_incident t !! or_incident (r n))))
   then throw (EEnt ConstraintError) else put_tab (set_outbox (<[id := r n]> (t_outbox t)) t)) E w.
Proof.
  intros spec Hc Hr. unfold mbind at 1, M_bind at 1, ent. rewrite NotificationOutboxCreate_Save_eq. unfold NotificationOutboxCreate_sqlSave.
  on_check Hc. rewrite (surjective_pairing (NotificationOutboxCreate_createSpec _)). fold spec.
  assert (cs_Table spec = notificationoutbox_Table) as Ht by reflexivity. clearbody spec.
  on_statement E w. rewrite (graph_create_outbox _ Ht), Ht. rewrite bool_decide_eq_true_2 by done.
  unfold create_outbox, now, reading. cbn [db_now]. rewrite Hr.
  unfold next_outbox_id, mbind, M_bind, get_seq, put_seq, get_tab, put_tab, throw, mret, M_ret. cbn [w_tab w_seq db_tab db_seq].
  by destruct (_ || _).
Qed.
End Save.
