(* ===== verification/EntSpec.v ===== *)
(** * The writes of the facade are what the generated builders do

    Each builder chain of [EntFacade], run on the tables of [EntGraph], makes the change
    that [Writes] and [Outbox] make. *)

From S2P Require Import Prelude GoStrings GoTime Errors Event Models Store Queries Writes Outbox EntCore EntComponent EntComponentAttr EntIncident EntIncidentStatus EntNotificationOutbox EntComponentBuild EntComponentAttrBuild EntIncidentBuild EntIncidentStatusBuild EntNotificationOutboxBuild EntWhere EntGraph EntFacade EntRead EntRun.
Local Open Scope Z_scope.

(** ** Columns of a specification *)

Lemma assoc_notin {A} c (l : list (string * A)) : c ∉ l.*1 → assoc c l = None.
Proof.
  induction l as [|[k a] l IH]; [done|]. rewrite fmap_cons. intros [Hk Hl]%not_elem_of_cons. cbn.
  rewrite bool_decide_eq_false_2 by done. by apply IH.
Qed.

Lemma set_fields_keys l c : c ∈ (set_fields l).*1 → c ∈ l.*1.
Proof.
  intros ([k v] & -> & Hin)%list_elem_of_fmap. apply list_elem_of_omap in Hin as ([k' x] & Hin & Heq).
  destruct x as [v'|]; [|done]. injection Heq as <- <-. apply list_elem_of_fmap. by exists (k', Some v').
Qed.

(** A field is set when its getter has a value. *)
Lemma assoc_set_fields c l : NoDup l.*1 → assoc c (set_fields l) = mjoin (assoc c l).
Proof.
  induction l as [|[k x] l IH]; [done|]. rewrite fmap_cons. intros [Hk Hnd]%NoDup_cons. cbn [fst] in Hk.
  destruct x as [v|]; cbn.
  - case_bool_decide; [done|]. by apply IH.
  - case_bool_decide as Hc; [|by apply IH]. subst c. apply assoc_notin. intros Hin. by apply Hk, set_fields_keys.
Qed.

(** The value of a column after an update that may set it. *)
Definition written (new old : option value) : option value := match new with Some v => Some v | None => old end.

Lemma updated_column t cs i p l clear ec ea f c : NoDup l.*1 →
  updated (mkUpdateSpec t cs i p (set_fields l) [] clear ec ea) f c =
  if bool_decide (c ∈ clear) then None else written (mjoin (assoc c l)) (f c).
Proof.
  intros Hnd. unfold updated, written. cbn [us_Clear us_Set us_Add]. rewrite assoc_set_fields by done.
  case_bool_decide; [done|]. by destruct (mjoin _); [|destruct (f c)].
Qed.

Lemma inserted_column t i l edges d c : NoDup l.*1 → edge_column c edges = None →
  inserted (mkCreateSpec t i (set_fields l) edges) d c = written (mjoin (assoc c l)) (d c).
Proof.
  intros Hnd He. unfold inserted, written. cbn [cs_Fields cs_Edges]. rewrite assoc_set_fields, He by done. by destruct (mjoin _).
Qed.

(** ** Rows by columns *)

Lemma nullable_string x : nullable get_string (VString <$> x) = Some x.
Proof. by destruct x. Qed.
Lemma nullable_time x : nullable get_time (VTime <$> x) = Some x.
Proof. by destruct x. Qed.
Ltac columns_back :=
  cbn [mbind option_bind get_string get_time get_int get_bool get_type get_json];
  repeat (rewrite ?nullable_string, ?nullable_time; cbn [mbind option_bind]).

Lemma incident_row_ext r f :
  f incident_FieldText = Some (VString (ir_text r)) →
  f incident_FieldDescription = VString <$> ir_description r →
  f incident_FieldStartDate = Some (VTime (ir_start r)) →
  f incident_FieldEndDate = VTime <$> ir_end r →
  f incident_FieldImpact = Some (VInt (ir_impact r)) →
  f incident_FieldSystem = Some (VBool (ir_system r)) →
  f incident_FieldType = Some (VType (ir_type r)) →
  f incident_FieldStatus = VString <$> ir_status r →
  f incident_FieldCreatedAt = VTime <$> ir_created r →
  f incident_FieldModifiedAt = VTime <$> ir_modified r →
  f incident_FieldDeletedAt = VTime <$> ir_deleted r →
  f incident_FieldCreatedBy = VString <$> ir_created_by r →
  f incident_FieldContactEmail = VString <$> ir_contact r →
  f incident_FieldVersion = Some (VInt (ir_version r)) →
  incident_row_of f = Some r.
Proof. intros. unfold incident_row_of. repeat match goal with H : f _ = _ |- _ => rewrite H; clear H end. columns_back. by destruct r. Qed.

Lemma status_row_ext r f :
  f incidentstatus_FieldIncidentID = Some (VInt (sr_incident r)) →
  f incidentstatus_FieldTimestamp = Some (VTime (sr_timestamp r)) →
  f incidentstatus_FieldText = Some (VString (sr_text r)) →
  f incidentstatus_FieldStatus = Some (VString (sr_status r)) →
  f incidentstatus_FieldCreatedAt = VTime <$> sr_created r →
  f incidentstatus_FieldModifiedAt = VTime <$> sr_modified r →
  f incidentstatus_FieldDeletedAt = VTime <$> sr_deleted r →
  f incidentstatus_FieldCreatedBy = VString <$> sr_created_by r →
  f incidentstatus_FieldModifiedBy = VString <$> sr_modified_by r →
  status_row_of f = Some r.
Proof. intros. unfold status_row_of. repeat match goal with H : f _ = _ |- _ => rewrite H; clear H end. columns_back. by destruct r. Qed.

Lemma outbox_row_ext r f :
  f notificationoutbox_FieldKind = Some (VString (or_kind r)) →
  f notificationoutbox_FieldIncidentID = Some (VInt (or_incident r)) →
  f notificationoutbox_FieldRecipient = Some (VString (or_recipient r)) →
  f notificationoutbox_FieldPayload = Some (VJSON (or_payload r)) →
  f notificationoutbox_FieldChangeID = Some (VString (or_change r)) →
  f notificationoutbox_FieldDedupKey = Some (VString (or_dedup r)) →
  f notificationoutbox_FieldStatus = Some (VString (or_status r)) →
  f notificationoutbox_FieldAttempts = Some (VInt (or_attempts r)) →
  f notificationoutbox_FieldNextAttemptAt = VTime <$> or_next r →
  f notificationoutbox_FieldLockedBy = VString <$> or_locked_by r →
  f notificationoutbox_FieldLockedAt = VTime <$> or_locked_at r →
  f notificationoutbox_FieldLastError = VString <$> or_error r →
  f notificationoutbox_FieldCreatedAt = Some (VTime (or_created r)) →
  f notificationoutbox_FieldUpdatedAt = Some (VTime (or_updated r)) →
  outbox_row_of f = Some r.
Proof. intros. unfold outbox_row_of. repeat match goal with H : f _ = _ |- _ => rewrite H; clear H end. columns_back. by destruct r. Qed.

(** ** Conditional calls as unconditional updates *)

Definition unset {A B} (x : option A) (old : option B) : option B := match x with Some _ => None | None => old end.
Lemma unset_none {A B} (x : option A) : unset x (None : option B) = None.
Proof. by destruct x. Qed.
Lemma opt_set_none {A} (x : option A) : opt_set x None = x.
Proof. by destruct x. Qed.
Definition if_set {A} (b : bool) (v : A) (old : option A) : option A := if b then Some v else old.

Ltac call_cases :=
  intros; match goal with
  | |- given ?x _ ?u = _ => destruct x; destruct u as [[]]; reflexivity
  | |- given_or ?x _ _ ?u = _ => destruct x; destruct u as [[]]; reflexivity
  | |- when ?b _ ?u = _ => destruct b; destruct u as [[]]; reflexivity
  end.

Lemma given_IncidentCreate_Description x u : given x IncidentCreate_SetDescription u =
  u <| IncidentCreate_mutation ::= (λ m, m <| im_description := opt_set x (im_description m) |>) |>.
Proof. call_cases. Qed.
Lemma given_IncidentCreate_EndDate x u : given x IncidentCreate_SetEndDate u =
  u <| IncidentCreate_mutation ::= (λ m, m <| im_end_date := opt_set x (im_end_date m) |>) |>.
Proof. call_cases. Qed.
Lemma given_IncidentCreate_CreatedBy x u : given x IncidentCreate_SetCreatedBy u =
  u <| IncidentCreate_mutation ::= (λ m, m <| im_created_by := opt_set x (im_created_by m) |>) |>.
Proof. call_cases. Qed.
Lemma given_IncidentCreate_ContactEmail x u : given x IncidentCreate_SetContactEmail u =
  u <| IncidentCreate_mutation ::= (λ m, m <| im_contact_email := opt_set x (im_contact_email m) |>) |>.
Proof. call_cases. Qed.
Lemma given_IncidentCreate_Version x u : given x IncidentCreate_SetVersion u =
  u <| IncidentCreate_mutation ::= (λ m, m <| im_version := opt_set x (im_version m) |> <| im_addversion := unset x (im_addversion m) |>) |>.
Proof. call_cases. Qed.
Lemma when_IncidentCreate_Status b v u : when b (IncidentCreate_SetStatus v) u =
  u <| IncidentCreate_mutation ::= (λ m, m <| im_status := if_set b v (im_status m) |>) |>.
Proof. call_cases. Qed.
Lemma given_IncidentUpdate_Text x u : given x IncidentUpdate_SetText u =
  u <| IncidentUpdate_mutation ::= (λ m, m <| im_text := opt_set x (im_text m) |>) |>.
Proof. call_cases. Qed.
Lemma given_IncidentUpdate_Description x u : given x IncidentUpdate_SetDescription u =
  u <| IncidentUpdate_mutation ::= (λ m, m <| im_description := opt_set x (im_description m) |>) |>.
Proof. call_cases. Qed.
Lemma given_IncidentUpdate_StartDate x u : given x IncidentUpdate_SetStartDate u =
  u <| IncidentUpdate_mutation ::= (λ m, m <| im_start_date := opt_set x (im_start_date m) |>) |>.
Proof. call_cases. Qed.
Lemma given_IncidentUpdate_EndDate x u : given x IncidentUpdate_SetEndDate u =
  u <| IncidentUpdate_mutation ::= (λ m, m <| im_end_date := opt_set x (im_end_date m) |>) |>.
Proof. call_cases. Qed.
Lemma given_IncidentUpdate_CreatedAt x u : given x IncidentUpdate_SetCreatedAt u =
  u <| IncidentUpdate_mutation ::= (λ m, m <| im_created_at := opt_set x (im_created_at m) |>) |>.
Proof. call_cases. Qed.
Lemma given_IncidentUpdate_CreatedBy x u : given x IncidentUpdate_SetCreatedBy u =
  u <| IncidentUpdate_mutation ::= (λ m, m <| im_created_by := opt_set x (im_created_by m) |>) |>.
Proof. call_cases. Qed.
Lemma given_IncidentUpdate_ContactEmail x u : given x IncidentUpdate_SetContactEmail u =
  u <| IncidentUpdate_mutation ::= (λ m, m <| im_contact_email := opt_set x (im_contact_email m) |>) |>.
Proof. call_cases. Qed.
Lemma given_IncidentUpdate_Impact x u : given x IncidentUpdate_SetImpact u =
  u <| IncidentUpdate_mutation ::= (λ m, m <| im_impact := opt_set x (im_impact m) |> <| im_addimpact := unset x (im_addimpact m) |>) |>.
Proof. call_cases. Qed.
Lemma when_IncidentUpdate_Status b v u : when b (IncidentUpdate_SetStatus v) u =
  u <| IncidentUpdate_mutation ::= (λ m, m <| im_status := if_set b v (im_status m) |>) |>.
Proof. call_cases. Qed.
Lemma when_IncidentUpdate_System b v u : when b (IncidentUpdate_SetSystem v) u =
  u <| IncidentUpdate_mutation ::= (λ m, m <| im_system := if_set b v (im_system m) |>) |>.
Proof. call_cases. Qed.
Lemma when_IncidentUpdate_Type b v u : when b (IncidentUpdate_SetType v) u =
  u <| IncidentUpdate_mutation ::= (λ m, m <| im_type := if_set b v (im_type m) |>) |>.
Proof. call_cases. Qed.
Lemma given_IncidentStatusCreate_CreatedBy x u : given x IncidentStatusCreate_SetCreatedBy u =
  u <| IncidentStatusCreate_mutation ::= (λ m, m <| sm_created_by := opt_set x (sm_created_by m) |>) |>.
Proof. call_cases. Qed.
Lemma given_IncidentStatusCreate_ModifiedBy x u : given x IncidentStatusCreate_SetModifiedBy u =
  u <| IncidentStatusCreate_mutation ::= (λ m, m <| sm_modified_by := opt_set x (sm_modified_by m) |>) |>.
Proof. call_cases. Qed.
Lemma given_NotificationOutboxCreate_NextAttemptAt x u : given x NotificationOutboxCreate_SetNextAttemptAt u =
  u <| NotificationOutboxCreate_mutation ::= (λ m, m <| nm_next_attempt_at := opt_set x (nm_next_attempt_at m) |>) |>.
Proof. call_cases. Qed.
Lemma given_NotificationOutboxCreate_LockedBy x u : given x NotificationOutboxCreate_SetLockedBy u =
  u <| NotificationOutboxCreate_mutation ::= (λ m, m <| nm_locked_by := opt_set x (nm_locked_by m) |>) |>.
Proof. call_cases. Qed.
Lemma given_NotificationOutboxCreate_LockedAt x u : given x NotificationOutboxCreate_SetLockedAt u =
  u <| NotificationOutboxCreate_mutation ::= (λ m, m <| nm_locked_at := opt_set x (nm_locked_at m) |>) |>.
Proof. call_cases. Qed.
Lemma given_NotificationOutboxCreate_LastError x u : given x NotificationOutboxCreate_SetLastError u =
  u <| NotificationOutboxCreate_mutation ::= (λ m, m <| nm_last_error := opt_set x (nm_last_error m) |>) |>.
Proof. call_cases. Qed.
Lemma when_NotificationOutboxCreate_Status b v u : when b (NotificationOutboxCreate_SetStatus v) u =
  u <| NotificationOutboxCreate_mutation ::= (λ m, m <| nm_status := if_set b v (nm_status m) |>) |>.
Proof. call_cases. Qed.
Lemma when_NotificationOutboxCreate_CreatedAt b v u : when b (NotificationOutboxCreate_SetCreatedAt v) u =
  u <| NotificationOutboxCreate_mutation ::= (λ m, m <| nm_created_at := if_set b v (nm_created_at m) |>) |>.
Proof. call_cases. Qed.
Lemma when_NotificationOutboxCreate_UpdatedAt b v u : when b (NotificationOutboxCreate_SetUpdatedAt v) u =
  u <| NotificationOutboxCreate_mutation ::= (λ m, m <| nm_updated_at := if_set b v (nm_updated_at m) |>) |>.
Proof. call_cases. Qed.
Lemma when_NotificationOutboxCreate_Attempts b v u : when b (NotificationOutboxCreate_SetAttempts v) u =
  u <| NotificationOutboxCreate_mutation ::= (λ m, m <| nm_attempts := if_set b v (nm_attempts m) |> <| nm_addattempts := if b then None else nm_addattempts m |>) |>.
Proof. call_cases. Qed.
Lemma given_or_Description x u : given_or x IncidentUpdateOne_SetDescription IncidentUpdateOne_ClearDescription u =
  u <| IncidentUpdateOne_mutation ::= (λ m, m <| im_description := x |>
    <| im_clearedFields ::= (λ c, if some x then c else {[incident_FieldDescription]} ∪ c) |>) |>.
Proof. call_cases. Qed.
Lemma given_or_EndDate x u : given_or x IncidentUpdateOne_SetEndDate IncidentUpdateOne_ClearEndDate u =
  u <| IncidentUpdateOne_mutation ::= (λ m, m <| im_end_date := x |>
    <| im_clearedFields ::= (λ c, if some x then c else {[incident_FieldEndDate]} ∪ c) |>) |>.
Proof. call_cases. Qed.
Lemma given_or_DeletedAt x u : given_or x IncidentUpdateOne_SetDeletedAt IncidentUpdateOne_ClearDeletedAt u =
  u <| IncidentUpdateOne_mutation ::= (λ m, m <| im_deleted_at := x |>
    <| im_clearedFields ::= (λ c, if some x then c else {[incident_FieldDeletedAt]} ∪ c) |>) |>.
Proof. call_cases. Qed.
Lemma given_or_CreatedBy x u : given_or x IncidentUpdateOne_SetCreatedBy IncidentUpdateOne_ClearCreatedBy u =
  u <| IncidentUpdateOne_mutation ::= (λ m, m <| im_created_by := x |>
    <| im_clearedFields ::= (λ c, if some x then c else {[incident_FieldCreatedBy]} ∪ c) |>) |>.
Proof. call_cases. Qed.
Lemma given_or_ContactEmail x u : given_or x IncidentUpdateOne_SetContactEmail IncidentUpdateOne_ClearContactEmail u =
  u <| IncidentUpdateOne_mutation ::= (λ m, m <| im_contact_email := x |>
    <| im_clearedFields ::= (λ c, if some x then c else {[incident_FieldContactEmail]} ∪ c) |>) |>.
Proof. call_cases. Qed.

Create HintDb chain.
#[export] Hint Rewrite given_IncidentCreate_Description given_IncidentCreate_EndDate given_IncidentCreate_CreatedBy given_IncidentCreate_ContactEmail
  given_IncidentCreate_Version when_IncidentCreate_Status given_IncidentUpdate_Text given_IncidentUpdate_Description
  given_IncidentUpdate_StartDate given_IncidentUpdate_EndDate given_IncidentUpdate_CreatedAt given_IncidentUpdate_CreatedBy
  given_IncidentUpdate_ContactEmail given_IncidentUpdate_Impact when_IncidentUpdate_Status when_IncidentUpdate_System
  when_IncidentUpdate_Type given_IncidentStatusCreate_CreatedBy given_IncidentStatusCreate_ModifiedBy given_NotificationOutboxCreate_NextAttemptAt
  given_NotificationOutboxCreate_LockedBy given_NotificationOutboxCreate_LockedAt given_NotificationOutboxCreate_LastError when_NotificationOutboxCreate_Status
  when_NotificationOutboxCreate_CreatedAt when_NotificationOutboxCreate_UpdatedAt when_NotificationOutboxCreate_Attempts given_or_Description
  given_or_EndDate given_or_DeletedAt given_or_CreatedBy given_or_ContactEmail : chain.

(** ** Predicates *)

Section Predicates.
Context `{Server} (t : Tables) (k : Z) (f : columns).

Lemma holds_cons p ps : holds t (p :: ps) k f = bool_decide (eval t p k f = Some true) && holds t ps k f.
Proof. done. Qed.
Lemma some_true b : (Some b = Some true) ↔ b = true.
Proof. naive_solver. Qed.
Lemma eval_eq_int c a b : f c = Some (VInt a) → bool_decide (eval t (FieldEQ c (VInt b)) k f = Some true) = bool_decide (a = b).
Proof. intros Hf. cbn. rewrite Hf. apply bool_decide_ext. cbn. rewrite some_true, bool_decide_eq_true. naive_solver. Qed.
Lemma eval_eq_string c a b : f c = Some (VString a) → bool_decide (eval t (FieldEQ c (VString b)) k f = Some true) = bool_decide (a = b).
Proof. intros Hf. cbn. rewrite Hf. apply bool_decide_ext. cbn. rewrite some_true, bool_decide_eq_true. naive_solver. Qed.
Lemma eval_in_int c a ids : f c = Some (VInt a) → ids ≠ [] →
  bool_decide (eval t (FieldIn c (VInt <$> ids)) k f = Some true) = bool_decide (a ∈ ids).
Proof.
  intros Hf Hids. destruct ids as [|i ids]; [done|]. cbn [eval fmap list_fmap]. rewrite Hf.
  apply bool_decide_ext. cbn [col fmap option_fmap option_map]. rewrite some_true, bool_decide_eq_true. change (VInt i :: (VInt <$> ids)) with (VInt <$> (i :: ids)).
  rewrite list_elem_of_fmap. naive_solver.
Qed.
End Predicates.

Lemma update_spec_eq t c i p p' s s' a a' cl cl' ec ec' ea ea' : p = p' → s = s' → a = a' → cl = cl' → ec = ec' → ea = ea' →
  mkUpdateSpec t c i p s a cl ec ea = mkUpdateSpec t c i p' s' a' cl' ec' ea'.
Proof. by intros -> -> -> -> -> ->. Qed.

(** A specification field by field: what is set conditionally starts from an empty mutation. *)
Ltac one_field := first [reflexivity | exact (f_equal (fmap _) (opt_set_none _)) | exact (unset_none _)].
Ltac field_list := f_equal; repeat (apply (f_equal2 cons); [apply (f_equal2 pair); [reflexivity|one_field]|]); reflexivity.

(** ** [modifyIncident] *)

Lemma when_IncidentUpdate_Where b ps u : when b (IncidentUpdate_Where ps) u =
  u <| IncidentUpdate_mutation ::= (λ m, m <| im_predicates := im_predicates m ++ (if b then ps else []) |>) |>.
Proof. destruct b; [done|]. destruct u as [[]]. cbn. by rewrite app_nil_r. Qed.
#[export] Hint Rewrite when_IncidentUpdate_Where : chain.

Lemma add_unset {A} c (x : option A) c' : add_fields [(c, unset x None); (c', None)] = [].
Proof. by destruct x. Qed.

(** One column of an updated row: the value that the list of fields gives it. *)
Ltac field_of c l := lazymatch l with (c, ?v) :: _ => v | _ :: ?l => field_of c l end.
Ltac row_fields :=
  unfold set_version_modified, applyIncidentPatch, full_row, status_row, newOutboxCreate;
  cbn [ir_text ir_description ir_start ir_end ir_impact ir_system ir_type ir_status ir_created ir_modified ir_deleted
    ir_created_by ir_contact ir_version sr_created_by sr_modified_by or_status or_attempts or_next or_locked_by or_locked_at
    or_error or_created or_updated].
Ltac column_value :=
  lazymatch goal with |- context [mjoin (assoc ?c ?l)] => let v := field_of c l in change (mjoin (assoc c l)) with v end;
  first [reflexivity
        |row_fields; lazymatch goal with
         | |- context [_ <$> if_set (negb ?b) _ _] => destruct b eqn:?
         | |- context [_ <$> if_set ?b _ _] => destruct b eqn:?
         | |- context [written (_ <$> ?x) _] => destruct x
         end; reflexivity].
Ltac column := rewrite updated_column; [column_value|apply (bool_decide_unpack _); vm_compute; exact I].

Lemma modify_spec cfg inc ev n : IncidentUpdate_spec (modify_update cfg inc ev n) =
  mkUpdateSpec incident_Table incident_Columns None
    ([incident_IDEQ (inc_ID inc)] ++ if inc_Type inc == TypeMaintenance then [incident_VersionEQ ev] else [])
    (set_fields [(incident_FieldText, VString <$> inc_Text inc); (incident_FieldDescription, VString <$> inc_Description inc);
      (incident_FieldStartDate, VTime <$> inc_StartDate inc); (incident_FieldEndDate, VTime <$> inc_EndDate inc);
      (incident_FieldImpact, VInt <$> inc_Impact inc); (incident_FieldSystem, VBool <$> if_set (inc_System inc) true None);
      (incident_FieldType, VType <$> if_set (inc_Type inc != ""%string) (inc_Type inc) None);
      (incident_FieldStatus, VString <$> if_set (inc_Status inc != ""%string) (inc_Status inc) None);
      (incident_FieldCreatedAt, VTime <$> inc_CreatedAt inc); (incident_FieldModifiedAt, VTime <$> Some n);
      (incident_FieldDeletedAt, None); (incident_FieldCreatedBy, VString <$> inc_CreatedBy inc);
      (incident_FieldContactEmail, VString <$> inc_ContactEmail inc); (incident_FieldVersion, VInt <$> Some (ev + 1))])
    [] [] [] [].
Proof.
  unfold modify_update, incident_patch. autorewrite with chain.
  apply update_spec_eq; [reflexivity|field_list|apply add_unset|reflexivity..].
Qed.

Lemma modify_row cfg inc ev n k r :
  incident_row_of (updated (IncidentUpdate_spec (modify_update cfg inc ev n)) (incident_cols k r))
  = Some (set_version_modified (ev + 1) n (applyIncidentPatch inc r)).
Proof. rewrite modify_spec. apply incident_row_ext; column. Qed.

(** Conditions on columns that are set. *)
Ltac conditions :=
  unfold incident_IDEQ, incident_VersionEQ, incidentstatus_IDEQ, incidentstatus_IncidentIDEQ, notificationoutbox_IDEQ,
    notificationoutbox_StatusEQ, notificationoutbox_IDIn;
  rewrite ?holds_cons; repeat (erewrite eval_eq_int by reflexivity); repeat (erewrite eval_eq_string by reflexivity).

Lemma modify_rewrites `{Server} cfg inc ev n :
  rewrites incident_cols incident_row_of (IncidentUpdate_spec (modify_update cfg inc ev n))
    (λ k r, bool_decide (k = inc_ID inc) && (if inc_Type inc == TypeMaintenance then bool_decide (ir_version r = ev) else true))
    (λ r, set_version_modified (ev + 1) n (applyIncidentPatch inc r)).
Proof.
  split; [|intros; apply modify_row]. intros t k r. rewrite modify_spec. unfold takes. cbn [us_ID us_Predicates app].
  destruct (inc_Type inc == TypeMaintenance); conditions; cbn [andb holds forallb]; by rewrite ?andb_true_r.
Qed.

Lemma validated_spec {A} entity name (v : A → bool) (x : option A) rest ok : checked (first_error rest) ok →
  checked (first_error (validated entity name v x :: rest)) ((match x with Some a => v a | None => true end) && ok).
Proof. intros Hr. destruct x as [a|]; [|done]. cbn. by destruct (v a). Qed.
Lemma required_spec {A} entity name (x : option A) rest ok : is_Some x →
  checked (first_error rest) ok → checked (first_error (required entity name x :: rest)) ok.
Proof. by intros [a ->]. Qed.
Lemma checked_eq e ok ok' : checked e ok → ok' = ok → checked e ok'.
Proof. by intros ? ->. Qed.
Ltac checks := eapply checked_eq;
  [repeat first [apply required_spec; [by eexists|]|eapply validated_spec]; reflexivity|].

Lemma modify_check cfg inc ev n : checked (IncidentUpdate_check (modify_update cfg inc ev n)) (patch_valid inc).
Proof.
  unfold modify_update, incident_patch. autorewrite with chain. unfold IncidentUpdate_check.
  change (IncidentMutation_Text _) with (opt_set (inc_Text inc) None).
  change (IncidentMutation_GetType _) with (if_set (inc_Type inc != ""%string) (inc_Type inc) None). rewrite opt_set_none.
  checks. unfold patch_valid. f_equal.
  - destruct (inc_Text inc) as [s|]; [|by rewrite bool_decide_eq_false_2]. unfold incident_TextValidator, NotEmpty.
    f_equal. apply bool_decide_ext. naive_solver.
  - rewrite andb_true_r. by destruct (inc_Type inc == ""%string).
Qed.

Lemma version_rewrites `{Server} cfg id ev :
  rewrites incident_cols incident_row_of (IncidentUpdate_spec (version_update cfg id ev))
    (λ k r, bool_decide (k = id) && bool_decide (ir_version r = ev)) (set_version (ev + 1)).
Proof.
  split; [|intros k r; apply incident_row_ext; reflexivity]. intros t k r.
  change (takes _ t k (incident_cols k r)) with (holds t [incident_IDEQ id; incident_VersionEQ ev] k (incident_cols k r)).
  conditions. by rewrite andb_true_r.
Qed.

Lemma text_rewrites `{Server} cfg id incidentID text n :
  rewrites status_cols status_row_of (IncidentStatusUpdate_spec (text_update cfg id incidentID text n))
    (λ k r, bool_decide (k = id) && bool_decide (sr_incident r = incidentID)) (set_status_text text n).
Proof.
  split; [|intros k r; apply status_row_ext; reflexivity]. intros t k r.
  change (takes _ t k (status_cols k r)) with (holds t [incidentstatus_IDEQ id; incidentstatus_IncidentIDEQ incidentID] k (status_cols k r)).
  conditions. by rewrite andb_true_r.
Qed.

(** ** The outbox *)

Section OutboxUpdates.
Context `{Server} (cfg : config).

Lemma outbox_by_id t k r spec id : us_ID spec = None → us_Predicates spec = [notificationoutbox_IDEQ id] →
  takes spec t k (outbox_cols k r) = (k == id).
Proof. intros Hi Hp. unfold takes. rewrite Hi, Hp. conditions. by rewrite andb_true_r. Qed.

Lemma sent_rewrites id n :
  rewrites outbox_cols outbox_row_of (NotificationOutboxUpdate_spec (sent_update cfg id n)) (λ k _, k == id) (sent_row n).
Proof. split; intros; [by apply outbox_by_id|apply outbox_row_ext; reflexivity]. Qed.

Lemma failed_rewrites id e n retry :
  rewrites outbox_cols outbox_row_of (NotificationOutboxUpdate_spec (failed_update cfg id e n retry)) (λ k _, k == id)
    (failed_row (match retry with Some _ => NotificationStatusPending | None => NotificationStatusFailed end) retry e n).
Proof. split; intros; destruct retry; [by apply outbox_by_id..|apply outbox_row_ext; reflexivity|apply outbox_row_ext; reflexivity]. Qed.

Lemma terminal_rewrites id e n :
  rewrites outbox_cols outbox_row_of (NotificationOutboxUpdate_spec (terminal_update cfg id e n)) (λ k _, k == id)
    (failed_row NotificationStatusFailed None e n).
Proof. split; intros; [by apply outbox_by_id|apply outbox_row_ext; reflexivity]. Qed.

Lemma redrive_rewrites ids n :
  rewrites outbox_cols outbox_row_of (NotificationOutboxUpdate_spec (redrive_update cfg ids n)) (redrivable ids) (redriven_row n).
Proof.
  split; intros; destruct ids as [|i ids]; [..|apply outbox_row_ext; reflexivity|apply outbox_row_ext; reflexivity].
  - change (takes _ t k (outbox_cols k r)) with (holds t [notificationoutbox_StatusEQ NotificationStatusFailed] k (outbox_cols k r)).
    by conditions.
  - change (takes _ t k (outbox_cols k r)) with
      (holds t [notificationoutbox_StatusEQ NotificationStatusFailed; notificationoutbox_IDIn (i :: ids)] k (outbox_cols k r)).
    conditions. by rewrite (eval_in_int t k _ _ k), andb_true_r.
Qed.
End OutboxUpdates.

(** ** Creates *)

Lemma when_IncidentCreate_AddComponentIDs b ids u : when b (IncidentCreate_AddComponentIDs ids) u =
  u <| IncidentCreate_mutation ::= (λ m, m <| im_components := if b then add_ids ids (im_components m) else im_components m |>) |>.
Proof. call_cases. Qed.
#[export] Hint Rewrite when_IncidentCreate_AddComponentIDs : chain.

Definition created_edges (ids : list Z) : list EdgeSpec :=
  edge_to (edge_ids (if negb (bool_decide (ids = [])) then add_ids ids None else None)) M2M false incident_ComponentsTable
    incident_ComponentsPrimaryKey ++ [].

Lemma create_spec_eq t i s s' e e' : s = s' → e = e' → mkCreateSpec t i s e = mkCreateSpec t i s' e'.
Proof. by intros -> ->. Qed.

Lemma incident_create_spec cfg inc text n createdAt modifiedAt :
  (IncidentCreate_createSpec (IncidentCreate_defaults (incident_create cfg inc text n createdAt modifiedAt))).2 =
  mkCreateSpec incident_Table None
    (set_fields [(incident_FieldText, VString <$> Some text); (incident_FieldDescription, VString <$> inc_Description inc);
      (incident_FieldStartDate, VTime <$> Some (valueOr (inc_StartDate inc) n)); (incident_FieldEndDate, VTime <$> inc_EndDate inc);
      (incident_FieldImpact, VInt <$> Some (valueOr (inc_Impact inc) 0)); (incident_FieldSystem, VBool <$> Some (inc_System inc));
      (incident_FieldType, VType <$> Some (inc_Type inc));
      (incident_FieldStatus, VString <$> if_set (inc_Status inc != ""%string) (inc_Status inc) None);
      (incident_FieldCreatedAt, VTime <$> Some createdAt); (incident_FieldModifiedAt, VTime <$> Some modifiedAt);
      (incident_FieldDeletedAt, None); (incident_FieldCreatedBy, VString <$> inc_CreatedBy inc);
      (incident_FieldContactEmail, VString <$> inc_ContactEmail inc); (incident_FieldVersion, VInt <$> Some (valueOr (inc_Version inc) 1))])
    (created_edges (nonzero_ids (inc_Components inc))).
Proof.
  unfold incident_create. cbv zeta. autorewrite with chain.
  destruct (inc_Version inc); (apply create_spec_eq; [field_list|reflexivity]).
Qed.

Lemma incident_create_row cfg inc text n createdAt modifiedAt :
  incident_row_of (inserted (IncidentCreate_createSpec (IncidentCreate_defaults (incident_create cfg inc text n createdAt modifiedAt))).2 (λ _, None))
  = Some (mkIncidentRow text (inc_Description inc) (valueOr (inc_StartDate inc) n) (inc_EndDate inc) (valueOr (inc_Impact inc) 0)
      (inc_System inc) (inc_Type inc) (if inc_Status inc == ""%string then None else Some (inc_Status inc)) (Some createdAt)
      (Some modifiedAt) None (inc_CreatedBy inc) (inc_ContactEmail inc) (valueOr (inc_Version inc) 1)).
Proof.
  rewrite incident_create_spec. 
  assert (∀ c, edge_column c (created_edges (nonzero_ids (inc_Components inc))) = None) as He.
  { intros c. unfold created_edges, edge_to. by destruct (edge_ids _). }
  apply incident_row_ext; (rewrite inserted_column; [column_value|apply (bool_decide_unpack _); vm_compute; exact I|apply He]).
Qed.

Lemma incident_create_version cfg inc text n createdAt modifiedAt :
  in_Version (IncidentCreate_createSpec (IncidentCreate_defaults (incident_create cfg inc text n createdAt modifiedAt))).1
  = valueOr (inc_Version inc) 1.
Proof. unfold incident_create. cbv zeta. autorewrite with chain. by destruct (inc_Version inc). Qed.

Lemma elem_edge_ids ids c : c ∈ edge_ids (if negb (bool_decide (ids = [])) then add_ids ids None else None) ↔ c ∈ ids.
Proof.
  unfold edge_ids, add_ids. destruct ids as [|i ids].
  - rewrite bool_decide_eq_true_2 by done. by rewrite elem_of_elements, elem_of_nil.
  - rewrite bool_decide_eq_false_2 by done. cbn [negb default]. rewrite elem_of_elements. set_solver.
Qed.

Lemma component_nodes_edge_to nodes rest : (∀ e, e ∈ rest → es_Table e ≠ incident_ComponentsTable) →
  component_nodes (edge_to nodes M2M false incident_ComponentsTable incident_ComponentsPrimaryKey ++ rest) = nodes.
Proof.
  intros Hr. unfold component_nodes. rewrite flat_map_app. assert (flat_map (λ e, if es_Table e == incident_ComponentsTable then es_Nodes e else []) rest = []) as ->.
  { induction rest as [|e rest IH]; [done|]. cbn.
    rewrite bool_decide_eq_false_2 by (apply Hr; left). apply IH. intros e' He'. apply Hr. by right. }
  rewrite app_nil_r. destruct nodes as [|i nodes]; [done|]. cbn. by rewrite app_nil_r.
Qed.

Lemma incident_create_edges cfg inc text n createdAt modifiedAt c :
  c ∈ component_nodes (cs_Edges (IncidentCreate_createSpec (IncidentCreate_defaults (incident_create cfg inc text n createdAt modifiedAt))).2)
  ↔ c ∈ nonzero_ids (inc_Components inc).
Proof.
  rewrite incident_create_spec. cbn [cs_Edges]. unfold created_edges. rewrite component_nodes_edge_to by (intros e He; inversion He).
  apply elem_edge_ids.
Qed.

Lemma incident_create_check cfg inc text n createdAt modifiedAt : text ≠ ""%string →
  checked (IncidentCreate_check (IncidentCreate_defaults (incident_create cfg inc text n createdAt modifiedAt))) (valid_type (inc_Type inc)).
Proof.
  intros Ht. unfold incident_create. cbv zeta. autorewrite with chain. unfold IncidentCreate_check.
  assert (NotEmpty text = true) as Hn by (unfold NotEmpty; by rewrite bool_decide_eq_false_2).
  destruct (inc_Version inc);
    (checks; change (valid_type (inc_Type inc) = NotEmpty text && (valid_type (inc_Type inc) && true)); by rewrite Hn, andb_true_r).
Qed.

(** [insertIncidentStatus]. *)
Lemma status_create_row cfg s incidentID createdAt modifiedAt :
  status_row_of (inserted (IncidentStatusCreate_createSpec (status_create cfg s incidentID createdAt modifiedAt)).2 (λ _, None))
  = Some (status_row s incidentID createdAt modifiedAt).
Proof.
  unfold status_create. apply status_row_ext; try reflexivity; destruct (st_CreatedBy s) eqn:H1, (st_ModifiedBy s) eqn:H2;
    unfold status_row; cbn [sr_created_by sr_modified_by]; rewrite ?H1, ?H2; try reflexivity.
Qed.

Lemma status_create_check cfg s incidentID createdAt modifiedAt :
  checked (IncidentStatusCreate_check (status_create cfg s incidentID createdAt modifiedAt))
    ((st_Text s != ""%string) && (st_Status s != ""%string)).
Proof.
  unfold status_create. autorewrite with chain. unfold IncidentStatusCreate_check. checks.
  change ((st_Text s != ""%string) && (st_Status s != ""%string) = (st_Text s != ""%string) && ((st_Status s != ""%string) && true)).
  by rewrite andb_true_r.
Qed.

(** [newOutboxCreate]. *)
Lemma outbox_create_spec cfg row :
  (NotificationOutboxCreate_createSpec (NotificationOutboxCreate_defaults (outbox_create cfg row))).2 =
  mkCreateSpec notificationoutbox_Table None
    (set_fields [(notificationoutbox_FieldKind, VString <$> Some (no_Kind row)); (notificationoutbox_FieldRecipient, VString <$> Some (no_Recipient row));
      (notificationoutbox_FieldPayload, VJSON <$> Some (no_Payload row)); (notificationoutbox_FieldChangeID, VString <$> Some (no_ChangeID row));
      (notificationoutbox_FieldDedupKey, VString <$> Some (no_DedupKey row));
      (notificationoutbox_FieldStatus, VString <$> Some (if no_Status row == ""%string then NotificationStatusPending else no_Status row));
      (notificationoutbox_FieldAttempts, VInt <$> Some (no_Attempts row));
      (notificationoutbox_FieldNextAttemptAt, VTime <$> no_NextAttemptAt row);
      (notificationoutbox_FieldLockedBy, VString <$> no_LockedBy row); (notificationoutbox_FieldLockedAt, VTime <$> no_LockedAt row);
      (notificationoutbox_FieldLastError, VString <$> no_LastError row);
      (notificationoutbox_FieldCreatedAt, VTime <$> if_set (negb (IsZero (no_CreatedAt row))) (no_CreatedAt row) None);
      (notificationoutbox_FieldUpdatedAt, VTime <$> if_set (negb (IsZero (no_UpdatedAt row))) (no_UpdatedAt row) None)])
    [mkEdge M2O true notificationoutbox_IncidentTable [notificationoutbox_IncidentColumn] [no_IncidentID row]].
Proof.
  unfold outbox_create. autorewrite with chain. destruct (no_Status row == ""%string), (no_Attempts row == 0) eqn:Ha;
    (apply create_spec_eq; [|reflexivity]); try field_list; apply bool_decide_eq_true in Ha; rewrite Ha; field_list.
Qed.

Lemma outbox_create_row cfg row n :
  outbox_row_of (inserted (NotificationOutboxCreate_createSpec (NotificationOutboxCreate_defaults (outbox_create cfg row))).2 (outbox_defaults n))
  = Some (newOutboxCreate row n).
Proof.
  rewrite outbox_create_spec. apply outbox_row_ext;
    [|unfold inserted; cbn [cs_Fields]; rewrite assoc_set_fields; [reflexivity|apply (bool_decide_unpack _); vm_compute; exact I]|..];
    (rewrite inserted_column; [column_value|apply (bool_decide_unpack _); vm_compute; exact I|reflexivity]).
Qed.

Lemma outbox_create_check cfg row :
  checked (NotificationOutboxCreate_check (NotificationOutboxCreate_defaults (outbox_create cfg row)))
    ((no_Kind row != ""%string) && (no_Recipient row != ""%string) && (no_ChangeID row != ""%string) && (no_DedupKey row != ""%string)).
Proof.
  unfold outbox_create. autorewrite with chain. unfold NotificationOutboxCreate_check.
  destruct (no_Status row == ""%string), (no_Attempts row == 0); (checks;
  change ((no_Kind row != ""%string) && (no_Recipient row != ""%string) && (no_ChangeID row != ""%string) && (no_DedupKey row != ""%string)
    = (no_Kind row != ""%string) && ((no_Recipient row != ""%string) && ((no_ChangeID row != ""%string) && ((no_DedupKey row != ""%string) && true))));
  by rewrite andb_true_r, !andb_assoc).
Qed.

(** ** Updates of one row *)

Section UpdateOne.
Context `{Server} (cfg : config).

Lemma takes_by_id spec t k r id : us_ID spec = Some id → us_Predicates spec = [] → takes spec t k (incident_cols k r) = (k =? id).
Proof. intros Hi Hp. unfold takes. rewrite Hi, Hp. by rewrite andb_true_r. Qed.

Lemma reopen_rewrites id :
  rewrites incident_cols incident_row_of (IncidentUpdateOne_spec (reopen_update cfg id) id incident_Columns) (λ k _, k =? id) clear_end.
Proof. split; intros; [by apply takes_by_id|apply incident_row_ext; reflexivity]. Qed.

Lemma full_rewrites inc text start createdAt n :
  rewrites incident_cols incident_row_of (IncidentUpdateOne_spec (full_update cfg inc text start createdAt n) (inc_ID inc) incident_Columns)
    (λ k _, k =? inc_ID inc) (full_row inc text start createdAt n).
Proof.
  unfold full_row, full_update, optional_columns.
  destruct (inc_Description inc), (inc_EndDate inc), (inc_DeletedAt inc), (inc_CreatedBy inc), (inc_ContactEmail inc);
    (split; intros; [by apply takes_by_id|apply incident_row_ext; reflexivity]).
Qed.

Lemma full_check inc text start createdAt n : text ≠ ""%string →
  checked (IncidentUpdateOne_check (full_update cfg inc text start createdAt n)) (valid_type (inc_Type inc)).
Proof.
  intros Ht. assert (NotEmpty text = true) as Hn by (unfold NotEmpty; by rewrite bool_decide_eq_false_2).
  unfold full_update, optional_columns. autorewrite with chain. unfold IncidentUpdateOne_check. checks.
  change (valid_type (inc_Type inc) = NotEmpty text && (valid_type (inc_Type inc) && true)). by rewrite Hn, andb_true_r.
Qed.

Lemma when_RemoveComponentIDs b ids u : when b (IncidentUpdateOne_RemoveComponentIDs ids) u =
  u <| IncidentUpdateOne_mutation ::= (λ m, m <| im_components := if b then drop_ids ids (im_components m) else im_components m |>
    <| im_removedcomponents := if b then add_ids ids (im_removedcomponents m) else im_removedcomponents m |>) |>.
Proof. call_cases. Qed.
Lemma when_AddComponentIDs b ids u : when b (IncidentUpdateOne_AddComponentIDs ids) u =
  u <| IncidentUpdateOne_mutation ::= (λ m, m <| im_components := if b then add_ids ids (im_components m) else im_components m |>) |>.
Proof. call_cases. Qed.

Definition identity_row (r : IncidentRow) : IncidentRow := r.
Lemma edges_rewrites id extra missing :
  rewrites incident_cols incident_row_of (IncidentUpdateOne_spec (edges_update cfg id extra missing) id incident_Columns)
    (λ k _, k =? id) identity_row.
Proof.
  unfold edges_update. rewrite when_RemoveComponentIDs, when_AddComponentIDs.
  split; intros; [by apply takes_by_id|apply incident_row_ext; reflexivity].
Qed.

Lemma edges_removed id extra missing c :
  c ∈ component_nodes (us_EdgesClear (IncidentUpdateOne_spec (edges_update cfg id extra missing) id incident_Columns)) ↔ c ∈ extra.
Proof.
  unfold edges_update. rewrite when_RemoveComponentIDs, when_AddComponentIDs.
  change (us_EdgesClear _) with (created_edges extra). unfold created_edges.
  rewrite component_nodes_edge_to by (intros e He; inversion He). apply elem_edge_ids.
Qed.
Lemma edges_added id extra missing c :
  c ∈ component_nodes (us_EdgesAdd (IncidentUpdateOne_spec (edges_update cfg id extra missing) id incident_Columns)) ↔ c ∈ missing.
Proof.
  unfold edges_update. rewrite when_RemoveComponentIDs, when_AddComponentIDs.
  assert (drop_ids extra None = (None : option (gset Z))) as Hn by done.
  change (us_EdgesAdd _) with (edge_to (edge_ids (if negb (bool_decide (missing = []))
    then add_ids missing (if negb (bool_decide (extra = [])) then None else None)
    else if negb (bool_decide (extra = [])) then None else None)) M2M false incident_ComponentsTable incident_ComponentsPrimaryKey ++ []).
  destruct (negb (bool_decide (extra = []))); rewrite component_nodes_edge_to by (intros e He; inversion He); apply elem_edge_ids.
Qed.
End UpdateOne.
