(* ===== verification/EntRefine.v ===== *)
(** * The facade through the generated code

    [Gen] writes the operations of [internal/db] as the code does, with the generated
    builders; each is the operation of [Writes] or [Outbox] of the same name, for every
    world and every failure of the database. *)

From S2P Require Import Prelude GoStrings GoTime Errors Event Models Store Queries Writes Outbox EntCore EntComponent EntComponentAttr EntIncident EntIncidentStatus EntNotificationOutbox EntComponentBuild EntComponentAttrBuild EntIncidentBuild EntIncidentStatusBuild EntNotificationOutboxBuild EntWhere EntGraph EntFacade EntRead EntRun EntSpec.
Local Open Scope Z_scope.

(** ** Operations up to their behaviour *)

Definition meq {A} (m m' : M A) : Prop := ∀ E w, m E w = m' E w.
Infix "≡ₘ" := meq (at level 70).
#[global] Instance meq_equiv A : Equivalence (@meq A).
Proof. split; [done|by intros ????|intros m1 m2 m3 H1 H2 E w; by rewrite H1]. Qed.
#[global] Instance mbind_meq A B : Proper (pointwise_relation A meq ==> meq ==> meq) (@mbind M _ A B).
Proof.
  intros f f' Hf m m' Hm E w. unfold mbind, M_bind. rewrite Hm. destruct (m' E w) as [[a| |] w']; [apply Hf|done..].
Qed.
#[global] Instance execWithTx_meq A in_tx : Proper (meq ==> meq) (@execWithTx A in_tx).
Proof.
  intros m m' Hm E w. unfold execWithTx, WithTx. destruct in_tx; [by apply Hm|]. destruct (stmt E w) as [[[]| |] w0]; [|done..]. by rewrite Hm.
Qed.
#[global] Instance try_meq A : Proper (meq ==> meq) (@try A).
Proof. intros m m' Hm E w. unfold try. by rewrite Hm. Qed.
#[global] Instance mapM_meq A B : Proper (pointwise_relation A meq ==> eq ==> meq) (@mapM A B).
Proof. intros f f' Hf l ? <-. induction l as [|x l IH]; [done|]. cbn [mapM].
  apply mbind_meq; [intros y; by apply mbind_meq|apply Hf].
Qed.

Lemma bind_assoc {A B C} (m : M A) (f : A → M B) (g : B → M C) : ((m ≫= f) ≫= g) ≡ₘ (m ≫= λ a, f a ≫= g).
Proof. intros E w. unfold mbind, M_bind. by destruct (m E w) as [[] ?]. Qed.
Lemma bind_left {A B} (m m' : M A) (f : A → M B) : m ≡ₘ m' → (m ≫= f) ≡ₘ (m' ≫= f).
Proof. intros Hm. by apply mbind_meq. Qed.

(** A result used through [p] only. *)
Lemma bind_via {A B C} (m : M A) (p : A → B) (m' : M B) (k : B → M C) :
  (a ← m; mret (p a)) ≡ₘ m' → (a ← m; k (p a)) ≡ₘ (m' ≫= k).
Proof. intros Hm E w. specialize (Hm E w). unfold mbind, M_bind in *. rewrite <- Hm. by destruct (m E w) as [[] ?]. Qed.

(** The same statements, associated differently. *)
Ltac same_runs :=
  let E := fresh "E" in let w := fresh "w" in intros E w; unfold mbind, M_bind, get_tab, put_tab, mret, M_ret, throw;
  repeat (try reflexivity; match goal with |- context [let (_, _) := ?x in _] => lazymatch x with (_, _) => fail | context [let (_, _) := _ in _] => fail | _ => destruct x as [[]?] end end);
  try reflexivity.

(** ** The operations *)

Module Gen.
Section Operations.
Context `{Server} (cfg : config).

Definition insertIncidentStatus (s : IncidentStatus) (fallbackIncidentID : Z) : M (Z * IncidentStatus) :=
  n ← now;
  let createdAt := valueOr (st_CreatedAt s) n in
  let modifiedAt := valueOr (st_ModifiedAt s) n in
  let incidentID := if st_IncidentID s == 0 then fallbackIncidentID else st_IncidentID s in
  row ← ent (λ G, IncidentStatusCreate_Save (status_create cfg s incidentID createdAt modifiedAt));
  mret (sn_ID row, st_set_dates (Some createdAt) (Some modifiedAt) s).

Definition insertNewStatuses (incID : Z) (statuses : list IncidentStatus) : M (list IncidentStatus) :=
  mapM (λ s, if st_ID s == 0
             then r ← insertIncidentStatus s incID; mret (st_set_ids r.1 incID r.2)
             else mret s) statuses.

Definition SaveIncidentTx (inc : Incident) : M Incident :=
  match inc_Text inc with
  | None => throw (EDb ErrIncidentTextRequired)
  | Some ""%string => throw (EDb ErrIncidentTextRequired)
  | Some text =>
    n ← now;
    let createdAt := valueOr (inc_CreatedAt inc) n in
    let modifiedAt := valueOr (inc_ModifiedAt inc) n in
    created ← ent (λ G, IncidentCreate_Save (incident_create cfg inc text n createdAt modifiedAt));
    let inc1 := set_Version (set_ID (set_ModifiedAt (set_CreatedAt inc (Some createdAt)) (Some modifiedAt)) (in_ID created))
                  (Some (in_Version created)) in
    statuses ← insertNewStatuses (inc_ID inc1) (inc_Statuses inc1);
    mret (set_Statuses inc1 statuses)
  end.

Definition modifyIncident (inc : Incident) : M Incident :=
  match inc_Version inc with
  | None => throw (EMsg "version is required for event modification")
  | Some expectedVersion =>
    n ← now;
    affected ← ent (λ G, IncidentUpdate_Save (modify_update cfg inc expectedVersion n));
    if (inc_Type inc == TypeMaintenance) && (affected =? 0)
    then throw (EDb ErrDBVersionConflict)
    else
      statuses ← insertNewStatuses (inc_ID inc) (inc_Statuses inc);
      mret (set_Statuses (set_Version inc (Some (expectedVersion + 1))) statuses)
  end.

Definition AddComponentToIncident (inc : Incident) (comp : Component) (status : IncidentStatus) : M Incident :=
  match inc_Version inc with
  | None => throw (EMsg "version is required for incident modification")
  | Some expectedVersion =>
    inc' ← execWithTx false (
      affected ← ent (λ G, IncidentUpdate_Save (version_update cfg (inc_ID inc) expectedVersion));
      if affected =? 0 then throw (EDb ErrDBVersionConflict)
      else
        inc' ← (if comp_ID comp != 0
                then _ ← ent (λ G, IncidentUpdateOne_Exec (edges_update cfg (inc_ID inc) [] [comp_ID comp]));
                     mret (set_Components inc (inc_Components inc ++ [comp]))
                else mret inc);
        _ ← insertIncidentStatus status (inc_ID inc);
        mret inc');
    mret (set_Version inc' (Some (expectedVersion + 1)))
  end.

Definition ReOpenIncident (inc : Incident) : M unit :=
  r ← try (ent (λ G, IncidentUpdateOne_Exec (reopen_update cfg (inc_ID inc))));
  match r with
  | inl e => if decide (e = EEnt NotFoundError) then mret tt else throw e
  | inr _ => mret tt
  end.

(** The read of the edge is the one of [Queries]. *)
Definition reconcileIncidentComponents (inc : Incident) : M unit :=
  let want := nonzero_ids (inc_Components inc) in
  currentIDs ← select (λ t, stored_components t (inc_ID inc));
  let extra := filterb (λ id, bool_decide (id ∉ want)) currentIDs in
  let missing := filterb (λ id, bool_decide (id ∉ currentIDs)) want in
  match extra, missing with
  | [], [] => mret tt
  | _, _ => ent (λ G, IncidentUpdateOne_Exec (edges_update cfg (inc_ID inc) extra missing))
  end.

Definition saveIncidentFull (inc : Incident) : M Incident :=
  match inc_Text inc, inc_StartDate inc with
  | None, _ | Some ""%string, _ => throw (EDb ErrIncidentTextRequired)
  | Some _, None => throw (EDb ErrIncidentStartDateRequired)
  | Some text, Some start =>
    n ← now;
    let createdAt := valueOr (inc_CreatedAt inc) n in
    let inc1 := set_ModifiedAt (set_CreatedAt inc (Some createdAt)) (Some n) in
    _ ← ent (λ G, IncidentUpdateOne_Exec (full_update cfg inc1 text start createdAt n));
    _ ← reconcileIncidentComponents inc1;
    statuses ← insertNewStatuses (inc_ID inc1) (inc_Statuses inc1);
    mret (set_Statuses inc1 statuses)
  end.

Definition removeIncidentComponent (incidentID componentID : Z) : M unit :=
  ent (λ G, IncidentUpdateOne_Exec (IncidentUpdateOne_RemoveComponentIDs [componentID] (IncidentClient_UpdateOneID cfg incidentID))).

Definition ModifyEventUpdateTx (update : IncidentStatus) : M IncidentStatus :=
  n ← now;
  affected ← ent (λ G, IncidentStatusUpdate_Save (text_update cfg (st_ID update) (st_IncidentID update) (st_Text update) n));
  if affected =? 0 then throw (EDb ErrDBEventUpdateDSNotExist)
  else
    row ← select (λ t, t_status t !! st_ID update);
    match row with
    | None => throw (EEnt NotFoundError)
    | Some r => mret (incidentStatusFromEnt (st_ID update) r)
    end.

Definition Enqueue (in_tx : bool) (row : NotificationOutbox) : M unit :=
  if no_DedupKey row == ""%string then throw (EMsg "notification: dedup_key is required")
  else execWithTx in_tx (
    exists_ ← rowExists (no_DedupKey row);
    if exists_ : bool then throw (EDb ErrNotificationDuplicate)
    else
      r ← try (_ ← ent (λ G, NotificationOutboxCreate_Save (outbox_create cfg row)); mret tt);
      match r with
      | inr _ => mret tt
      | inl e => if decide (e = EEnt ConstraintError) then throw (EDb ErrNotificationDuplicate) else throw e
      end).

Definition MarkSent (in_tx : bool) (id : Z) : M unit :=
  execWithTx in_tx (
    n ← now;
    affected ← ent (λ G, NotificationOutboxUpdate_Save (sent_update cfg id n));
    if affected =? 0 then throw (EDb ErrNotificationNotFound) else mret tt).

Definition MarkFailed (in_tx : bool) (id : Z) (errText : string) (maxAttempts : Z) (backoff : Z → M Z) : M unit :=
  execWithTx in_tx (
    row ← getRowByID id;
    n ← now;
    retry ← (if maxAttempts <=? no_Attempts row then mret None else at_ ← backoff (no_Attempts row); mret (Some at_));
    _ ← ent (λ G, NotificationOutboxUpdate_Save (failed_update cfg id errText n retry));
    mret tt).

Definition MarkFailedTerminal (in_tx : bool) (id : Z) (errText : string) : M unit :=
  execWithTx in_tx (
    n ← now;
    affected ← ent (λ G, NotificationOutboxUpdate_Save (terminal_update cfg id errText n));
    if affected =? 0 then throw (EDb ErrNotificationNotFound) else mret tt).

Definition RedriveFailed (ids : list Z) : M Z :=
  n ← now; ent (λ G, NotificationOutboxUpdate_Save (redrive_update cfg ids n)).
End Operations.
End Gen.

(** ** Each operation is the one of the model *)

Section Refinement.
Context `{Server} (cfg : config).

Lemma status_statement s incidentID createdAt modifiedAt :
  (row ← ent (λ G, IncidentStatusCreate_Save (status_create cfg s incidentID createdAt modifiedAt)); mret (sn_ID row)) ≡ₘ
  (_ ← ent_check ((st_Text s != ""%string) && (st_Status s != ""%string)); _ ← stmt; id ← next_status_id; t ← get_tab;
   _ ← put_tab (set_statuses (<[id := status_row s incidentID createdAt modifiedAt]> (t_status t)) t); mret id).
Proof. intros E w. apply status_created; [apply status_create_check|apply status_create_row]. Qed.

Lemma insertIncidentStatus_refines s fallback : Gen.insertIncidentStatus cfg s fallback ≡ₘ insertIncidentStatus s fallback.
Proof.
  unfold Gen.insertIncidentStatus, insertIncidentStatus. apply mbind_meq; [intros n|done]. cbv zeta.
  etrans; [exact (bind_via _ sn_ID _ (λ id, mret (id, _)) (status_statement _ _ _ _))|]. same_runs.
Qed.

Lemma insertNewStatuses_refines incID l : Gen.insertNewStatuses cfg incID l ≡ₘ insertNewStatuses incID l.
Proof.
  apply mapM_meq; [|done]. intros s. destruct (st_ID s == 0); [|done]. apply mbind_meq; [done|apply insertIncidentStatus_refines].
Qed.

Lemma create_statement inc text n createdAt modifiedAt : text ≠ ""%string →
  (row ← ent (λ G, IncidentCreate_Save (incident_create cfg inc text n createdAt modifiedAt)); mret (in_ID row, in_Version row)) ≡ₘ
  (_ ← ent_check (valid_type (inc_Type inc)); _ ← stmt; id ← next_incident_id; t ← get_tab;
   _ ← (if components_exist t (nonzero_ids (inc_Components inc))
        then put_tab (set_rel (t_rel t ∪ list_to_set (pair id <$> nonzero_ids (inc_Components inc)))
               (set_incidents (<[id := mkIncidentRow text (inc_Description inc) (valueOr (inc_StartDate inc) n)
                  (inc_EndDate inc) (valueOr (inc_Impact inc) 0) (inc_System inc) (inc_Type inc)
                  (if inc_Status inc == ""%string then None else Some (inc_Status inc)) (Some createdAt) (Some modifiedAt) None
                  (inc_CreatedBy inc) (inc_ContactEmail inc) (valueOr (inc_Version inc) 1)]> (t_incident t)) t))
        else throw (EEnt ConstraintError));
   mret (id, valueOr (inc_Version inc) 1)).
Proof.
  intros Ht E w. apply incident_created; [by apply incident_create_check|apply incident_create_row|apply incident_create_version|].
  intros c. apply incident_create_edges.
Qed.

Lemma SaveIncidentTx_refines inc : Gen.SaveIncidentTx cfg inc ≡ₘ SaveIncidentTx inc.
Proof.
  unfold Gen.SaveIncidentTx, SaveIncidentTx. destruct (inc_Text inc) as [text|]; [|done]. destruct text as [|a text]; [done|].
  apply mbind_meq; [intros n|done]. cbv zeta.
  etrans; [exact (bind_via _ (λ e, (in_ID e, in_Version e)) _
    (λ iv, statuses ← Gen.insertNewStatuses cfg iv.1 (inc_Statuses inc); mret (set_Statuses
       (set_Version (set_ID (set_ModifiedAt (set_CreatedAt inc _) _) iv.1) (Some iv.2)) statuses)) (create_statement inc (String a text) n _ _ ltac:(done)))|].
  etrans; [apply mbind_meq; [intros iv; apply mbind_meq; [done|apply insertNewStatuses_refines]|done]|].
  unfold components_exist. same_runs.
Qed.

Lemma modifyIncident_refines inc : Gen.modifyIncident cfg inc ≡ₘ modifyIncident inc.
Proof.
  unfold Gen.modifyIncident, modifyIncident. destruct (inc_Version inc) as [ev|]; [|done]. apply mbind_meq; [intros n|done]. cbv zeta.
  etrans; [apply mbind_meq; [|intros E w; apply incidents_saved; [apply modify_check|apply modify_rewrites]]|].
  { intros affected. instantiate (1 := λ affected, if (inc_Type inc == TypeMaintenance) && (affected =? 0) then _ else _). cbn beta.
    destruct (_ && _); [reflexivity|]. apply mbind_meq; [done|apply insertNewStatuses_refines]. }
  apply bind_assoc.
Qed.

Lemma set_incidents_id t id r : t_incident t !! id = Some r → set_incidents (<[id := r]> (t_incident t)) t = t.
Proof. intros Hr. rewrite insert_id by done. by destruct t. Qed.

(** The columns of one row, without edges. *)
Lemma row_statement u id f ok :
  (∀ E w, ent (λ G, IncidentUpdateOne_Exec u) E w =
    (_ ← ent_check ok; _ ← stmt; t ← get_tab;
     match t_incident t !! id with
     | None => throw (EEnt NotFoundError)
     | Some r =>
         if components_exist t []
         then put_tab (set_rel ((t_rel t ∖ list_to_set (pair id <$> ([] : list Z))) ∪ list_to_set (pair id <$> ([] : list Z)))
                (set_incidents (<[id := f r]> (t_incident t)) t))
         else throw (EEnt ConstraintError)
     end) E w) →
  ent (λ G, IncidentUpdateOne_Exec u) ≡ₘ (_ ← ent_check ok; update_incident_one id f).
Proof.
  intros Hu E w. rewrite Hu. destruct ok; [|done]. rewrite !check_passed. unfold update_incident_one, mbind, M_bind, get_tab.
  destruct (stmt E w) as [[] w']; try done. destruct (t_incident (w_tab w') !! id); [|done].
  cbn [components_exist forallb]. unfold put_tab. do 2 f_equal. unfold set_rel, set_incidents. cbn. f_equal. set_solver.
Qed.

Lemma edges_statement id rm add : ent (λ G, IncidentUpdateOne_Exec (edges_update cfg id rm add)) ≡ₘ update_incident_edges id rm add.
Proof.
  intros E w. rewrite (incident_saved E w true _ id identity_row rm add);
    [|unfold edges_update; by rewrite when_RemoveComponentIDs, when_AddComponentIDs
     |unfold edges_update; by rewrite when_RemoveComponentIDs, when_AddComponentIDs
     |unfold edges_update; by rewrite when_RemoveComponentIDs, when_AddComponentIDs
     |apply edges_rewrites|intros c; apply edges_removed|intros c; apply edges_added].
  rewrite check_passed. unfold update_incident_edges, mbind, M_bind, get_tab. destruct (stmt E w) as [[] w']; try done.
  destruct (t_incident (w_tab w') !! id) eqn:Hr; [|done]. unfold identity_row, components_exist. by rewrite set_incidents_id.
Qed.

Lemma AddComponentToIncident_refines inc comp s : Gen.AddComponentToIncident cfg inc comp s ≡ₘ AddComponentToIncident inc comp s.
Proof.
  unfold Gen.AddComponentToIncident, AddComponentToIncident. destruct (inc_Version inc) as [ev|]; [|done]. cbv zeta.
  apply mbind_meq; [done|]. apply execWithTx_meq. apply mbind_meq.
  - intros affected. destruct (affected =? 0); [done|]. apply mbind_meq.
    + intros inc'. apply mbind_meq; [done|apply insertIncidentStatus_refines].
    + destruct (comp_ID comp != 0); [|done]. apply mbind_meq; [done|apply edges_statement].
  - intros E w. rewrite (incidents_saved E w true (version_update cfg (inc_ID inc) ev) _ _ eq_refl (version_rewrites cfg (inc_ID inc) ev)). apply check_passed.
Qed.

Lemma ReOpenIncident_refines inc : Gen.ReOpenIncident cfg inc ≡ₘ ReOpenIncident inc.
Proof.
  unfold Gen.ReOpenIncident, ReOpenIncident. apply mbind_meq; [done|]. apply try_meq.
  etrans; [eapply (row_statement _ (inc_ID inc) clear_end true); intros E w|by intros E w; rewrite check_passed].
  apply incident_saved; [exact eq_refl|reflexivity|reflexivity|apply reopen_rewrites|done|done].
Qed.

Lemma reconcile_refines inc : Gen.reconcileIncidentComponents cfg inc ≡ₘ reconcileIncidentComponents inc.
Proof.
  unfold Gen.reconcileIncidentComponents, reconcileIncidentComponents. cbv zeta. apply mbind_meq; [intros ids|done].
  destruct (filterb _ ids), (filterb _ (nonzero_ids _)); [done|apply edges_statement..].
Qed.

Ltac full_fields := unfold full_update, optional_columns; by autorewrite with chain.
Lemma saveIncidentFull_refines inc : Gen.saveIncidentFull cfg inc ≡ₘ saveIncidentFull inc.
Proof.
  unfold Gen.saveIncidentFull, saveIncidentFull. destruct (inc_Text inc) as [text|]; [|done]. destruct text as [|a text]; [done|].
  destruct (inc_StartDate inc) as [start|]; [|done]. apply mbind_meq; [intros n|done]. cbv zeta.
  set (inc1 := set_ModifiedAt _ _). set (c := valueOr _ n). 
  assert (ent (λ G, IncidentUpdateOne_Exec (full_update cfg inc1 (String a text) start c n)) ≡ₘ
    (_ ← ent_check (valid_type (inc_Type inc)); update_incident_one (inc_ID inc) (full_row inc1 (String a text) start c n))) as Hrow.
  { apply row_statement. intros E w. apply incident_saved;
      [by apply (full_check cfg inc1)|full_fields|full_fields|apply (full_rewrites cfg inc1)|full_fields|full_fields]. }
  etrans; [apply mbind_meq; [|exact Hrow]; intros u; apply mbind_meq; [intros u'|apply reconcile_refines];
    apply mbind_meq; [done|apply insertNewStatuses_refines]|]. apply bind_assoc.
Qed.

Lemma removeIncidentComponent_refines id c : Gen.removeIncidentComponent cfg id c ≡ₘ removeIncidentComponent id c.
Proof. apply (edges_statement id [c] []). Qed.

Lemma ModifyEventUpdateTx_refines u : Gen.ModifyEventUpdateTx cfg u ≡ₘ ModifyEventUpdateTx u.
Proof.
  unfold Gen.ModifyEventUpdateTx, ModifyEventUpdateTx. apply mbind_meq; [intros n|done].
  etrans; [apply bind_left; intros E w; eapply (statuses_saved E w (st_Text u != ""%string)); [|apply text_rewrites]|same_runs].
  unfold IncidentStatusUpdate_check. checks. symmetry. apply andb_true_r.
Qed.

(** The updates of the outbox set no field with a validator. *)
Lemma outbox_statement u q f : NotificationOutboxUpdate_check u = None →
  rewrites outbox_cols outbox_row_of (NotificationOutboxUpdate_spec u) q f → ent (λ G, NotificationOutboxUpdate_Save u) ≡ₘ update_outbox q f.
Proof. intros Hc Hr E w. rewrite (outbox_saved E w true u q f); [apply check_passed|by rewrite Hc|done]. Qed.

Lemma MarkSent_refines in_tx id : Gen.MarkSent cfg in_tx id ≡ₘ MarkSent in_tx id.
Proof.
  apply execWithTx_meq, mbind_meq; [intros n|done]. apply mbind_meq; [done|]. apply outbox_statement; [done|apply sent_rewrites].
Qed.
Lemma MarkFailedTerminal_refines in_tx id e : Gen.MarkFailedTerminal cfg in_tx id e ≡ₘ MarkFailedTerminal in_tx id e.
Proof.
  apply execWithTx_meq, mbind_meq; [intros n|done]. apply mbind_meq; [done|]. apply outbox_statement; [done|apply terminal_rewrites].
Qed.
Lemma RedriveFailed_refines ids : Gen.RedriveFailed cfg ids ≡ₘ RedriveFailed ids.
Proof. apply mbind_meq; [intros n|done]. apply outbox_statement; [by destruct ids|apply redrive_rewrites]. Qed.

Lemma MarkFailed_refines in_tx id e maxAttempts backoff :
  Gen.MarkFailed cfg in_tx id e maxAttempts backoff ≡ₘ MarkFailed in_tx id e maxAttempts backoff.
Proof.
  apply execWithTx_meq, mbind_meq; [intros row|done]. apply mbind_meq; [intros n|done].
  assert (∀ retry, ent (λ G, NotificationOutboxUpdate_Save (failed_update cfg id e n retry)) ≡ₘ update_outbox (λ k _, k == id)
    (failed_row (match retry with Some _ => NotificationStatusPending | None => NotificationStatusFailed end) retry e n)) as Hu.
  { intros retry. apply outbox_statement; [by destruct retry|apply failed_rewrites]. }
  etrans; [apply mbind_meq; [intros retry; apply bind_left, Hu|reflexivity]|].
  destruct (maxAttempts <=? no_Attempts row); [done|]. same_runs.
Qed.

Lemma Enqueue_refines in_tx row : Gen.Enqueue cfg in_tx row ≡ₘ Enqueue in_tx row.
Proof.
  unfold Gen.Enqueue, Enqueue. destruct (no_DedupKey row == ""%string); [done|]. apply execWithTx_meq, mbind_meq; [|done].
  intros [|]; [done|]. apply mbind_meq; [done|]. apply try_meq. intros E w.
  etrans; [exact (outbox_created E w _ (outbox_create cfg row) (newOutboxCreate row) (outbox_create_check cfg row) (outbox_create_row cfg row))|].
  reflexivity.
Qed.
End Refinement.

(** * What a create returns

    The node that [Save] of a create builder returns is built from the mutation, not read
    from the database.  For any mutation it is the node that a query reads from the new row. *)

(** ** A field of a node after a list of assignments *)

Section Assign.
Context {A N B : Type} (p : N → B) (f : A → N → N) (x : option A) (n : N).
Lemma assign_other : (∀ v n, p (f v n) = p n) → p (assign x f n) = p n.
Proof. intros Hf. by destruct x; [apply Hf|]. Qed.
Lemma assign_own (g : A → B) : (∀ v n, p (f v n) = g v) → p (assign x f n) = match x with Some v => g v | None => p n end.
Proof. intros Hf. by destruct x; [apply Hf|]. Qed.
End Assign.

(** A node's field: the value of the mutation, or the zero value. *)
Ltac node_field :=
  unfold default; cbn [fst foldl];
  repeat first [rewrite assign_other by reflexivity
               |erewrite (assign_own _ _ _ _ id) by reflexivity|erewrite (assign_own _ _ _ _ Some) by reflexivity]; reflexivity.

Lemma IncidentNode_ext n n' : in_ID n = in_ID n' → in_Text n = in_Text n' → in_Description n = in_Description n' →
  in_StartDate n = in_StartDate n' → in_EndDate n = in_EndDate n' → in_Impact n = in_Impact n' → in_System n = in_System n' →
  in_Type n = in_Type n' → in_Status n = in_Status n' → in_CreatedAt n = in_CreatedAt n' → in_ModifiedAt n = in_ModifiedAt n' →
  in_DeletedAt n = in_DeletedAt n' → in_CreatedBy n = in_CreatedBy n' → in_ContactEmail n = in_ContactEmail n' →
  in_Version n = in_Version n' → n = n'.
Proof. destruct n, n'. cbn. by intros -> -> -> -> -> -> -> -> -> -> -> -> -> -> ->. Qed.

Definition opt_id {A} (x : option A) : option A := match x with Some v => Some v | None => None end.
Lemma opt_id_eq {A} (x : option A) : opt_id x = x.
Proof. by destruct x. Qed.

Lemma incident_create_node c : let m := IncidentCreate_mutation c in
  (IncidentCreate_createSpec c).1 = mkIncidentNode (default 0 (im_id m)) (default ""%string (im_text m)) (opt_id (im_description m))
    (default zero_time (im_start_date m)) (default zero_time (im_end_date m)) (default 0 (im_impact m)) (default false (im_system m))
    (default ""%string (im_type m)) (default ""%string (im_status m)) (default zero_time (im_created_at m))
    (default zero_time (im_modified_at m)) (default zero_time (im_deleted_at m)) (opt_id (im_created_by m)) (opt_id (im_contact_email m))
    (default 0 (im_version m)).
Proof. intros m. unfold IncidentCreate_createSpec. fold m. apply IncidentNode_ext; node_field. Qed.

Lemma IncidentStatusNode_ext n n' : sn_ID n = sn_ID n' → sn_IncidentID n = sn_IncidentID n' → sn_Timestamp n = sn_Timestamp n' →
  sn_Text n = sn_Text n' → sn_Status n = sn_Status n' → sn_CreatedAt n = sn_CreatedAt n' → sn_ModifiedAt n = sn_ModifiedAt n' →
  sn_DeletedAt n = sn_DeletedAt n' → sn_CreatedBy n = sn_CreatedBy n' → sn_ModifiedBy n = sn_ModifiedBy n' → n = n'.
Proof. destruct n, n'. cbn. by intros -> -> -> -> -> -> -> -> -> ->. Qed.

Lemma status_create_node c : let m := IncidentStatusCreate_mutation c in
  (IncidentStatusCreate_createSpec c).1 = mkIncidentStatusNode (default 0 (sm_id m)) (default 0 (sm_incident_id m))
    (default zero_time (sm_timestamp m)) (default ""%string (sm_text m)) (default ""%string (sm_status m))
    (default zero_time (sm_created_at m)) (default zero_time (sm_modified_at m)) (default zero_time (sm_deleted_at m))
    (opt_id (sm_created_by m)) (opt_id (sm_modified_by m)).
Proof. intros m. unfold IncidentStatusCreate_createSpec. fold m. apply IncidentStatusNode_ext; node_field. Qed.

(** ** The row of a create, from the fields of its mutation *)

Lemma some_string x y : (VString <$> x) ≫= get_string = Some y → x = Some y.
Proof. destruct x; naive_solver. Qed.
Lemma some_time x y : (VTime <$> x) ≫= get_time = Some y → x = Some y.
Proof. destruct x; naive_solver. Qed.
Lemma some_int x y : (VInt <$> x) ≫= get_int = Some y → x = Some y.
Proof. destruct x; naive_solver. Qed.
Lemma some_bool x y : (VBool <$> x) ≫= get_bool = Some y → x = Some y.
Proof. destruct x; naive_solver. Qed.
Lemma some_type x y : (VType <$> x) ≫= get_type = Some y → x = Some y.
Proof. destruct x; naive_solver. Qed.
Lemma null_string x y : nullable get_string (VString <$> x) = Some y → x = y.
Proof. rewrite nullable_string. by intros [=]. Qed.
Lemma null_time x y : nullable get_time (VTime <$> x) = Some y → x = y.
Proof. rewrite nullable_time. by intros [=]. Qed.
Ltac columns_fwd H :=
  repeat (apply bind_Some in H as (? & ?Hx & H)); injection H as <-;
  repeat match goal with
  | Hx : (VString <$> _) ≫= _ = Some _ |- _ => apply some_string in Hx
  | Hx : (VTime <$> _) ≫= _ = Some _ |- _ => apply some_time in Hx
  | Hx : (VInt <$> _) ≫= _ = Some _ |- _ => apply some_int in Hx
  | Hx : (VBool <$> _) ≫= _ = Some _ |- _ => apply some_bool in Hx
  | Hx : (VType <$> _) ≫= _ = Some _ |- _ => apply some_type in Hx
  | Hx : nullable get_string _ = Some _ |- _ => apply null_string in Hx
  | Hx : nullable get_time _ = Some _ |- _ => apply null_time in Hx
  end.

(** The columns of the new row are the fields set in the mutation. *)
Lemma inserted_fields t i l edges c : NoDup l.*1 → edge_column c edges = None →
  inserted (mkCreateSpec t i (set_fields l) edges) (λ _, None) c = mjoin (assoc c l).
Proof. intros Hnd He. rewrite inserted_column by done. by destruct (mjoin _). Qed.
Ltac insert_columns H He :=
  rewrite !inserted_fields in H by first [apply He|apply (bool_decide_unpack _); vm_compute; exact I];
  repeat match type of H with context [mjoin (assoc ?c ?l)] => let v := field_of c l in change (mjoin (assoc c l)) with v in H end.

Lemma incident_create_edge_column c m1 m2 : edge_column c
  (edge_to m1 M2M false incident_ComponentsTable incident_ComponentsPrimaryKey
   ++ edge_to m2 O2M false incident_NotificationsTable [incident_NotificationsColumn]) = None.
Proof. by destruct m1, m2. Qed.

Ltac same_field := first [reflexivity
  |match goal with Hx : _ = Some ?x |- _ = ?y => unify x y; exact (f_equal (default _) Hx) end].

Lemma incident_create_same c r id : incident_row_of (inserted (IncidentCreate_createSpec c).2 (λ _, None)) = Some r →
  (IncidentCreate_createSpec c).1 <| in_ID := id |> = incident_node id r.
Proof.
  intros H. rewrite incident_create_node. unfold IncidentCreate_createSpec in H. cbn [snd] in H. unfold incident_row_of in H.
  insert_columns H (λ c, incident_create_edge_column c). columns_fwd H. rewrite !opt_id_eq.
  subst. apply IncidentNode_ext; same_field.
Qed.

Lemma status_create_same c r id : status_row_of (inserted (IncidentStatusCreate_createSpec c).2 (λ _, None)) = Some r →
  (IncidentStatusCreate_createSpec c).1 <| sn_ID := id |> = status_node id r.
Proof.
  intros H. rewrite status_create_node. unfold IncidentStatusCreate_createSpec in H. cbn [snd] in H. unfold status_row_of in H.
  insert_columns H (λ c : string, eq_refl (None : option value)). columns_fwd H. rewrite !opt_id_eq.
  subst. apply IncidentStatusNode_ext; same_field.
Qed.

Section Save.
Context `{Server}.

(** [IncidentCreate.Save] on the tables. *)
Lemma incident_save_reads u db n u' db' : IncidentCreate_Save u db = (inr n, u', db') →
  ∃ r, t_incident (db_tab db') !! in_ID n = Some r ∧ n = incident_node (in_ID n) r.
Proof.
  rewrite IncidentCreate_Save_eq. set (c := IncidentCreate_defaults u). clearbody c. unfold IncidentCreate_sqlSave.
  destruct (IncidentCreate_check c); [by intros [=]|]. rewrite (surjective_pairing (IncidentCreate_createSpec c)).
  unfold g_CreateNode, tables_graph. rewrite (graph_create_incident (IncidentCreate_createSpec c).2 eq_refl). unfold create_incident. cbv zeta.
  destruct (incident_row_of _) as [r|] eqn:Hr; [|by intros [=]]. destruct (components_exist _ _); [|by intros [=]].
  cbv beta iota. rewrite (incident_create_same c r _ Hr). intros [= <- <- <-]. exists r. split; [apply lookup_insert_eq|done].
Qed.

Lemma status_save_reads u db n u' db' : IncidentStatusCreate_Save u db = (inr n, u', db') →
  ∃ r, t_status (db_tab db') !! sn_ID n = Some r ∧ n = status_node (sn_ID n) r.
Proof.
  rewrite IncidentStatusCreate_Save_eq. unfold IncidentStatusCreate_sqlSave.
  destruct (IncidentStatusCreate_check u); [by intros [=]|]. rewrite (surjective_pairing (IncidentStatusCreate_createSpec u)).
  unfold g_CreateNode, tables_graph. rewrite (graph_create_status (IncidentStatusCreate_createSpec u).2 eq_refl). unfold create_status. cbv zeta.
  destruct (status_row_of _) as [r|] eqn:Hr; [|by intros [=]].
  cbv beta iota. rewrite (status_create_same u r _ Hr). intros [= <- <- <-]. exists r. split; [apply lookup_insert_eq|done].
Qed.
End Save.
