(* ===== verification/EntReadSpec.v ===== *)
(** * The reads of the facade through the generated queries

    The query chains of [internal/db], run on the tables of a transaction's snapshot, with
    the eager loads of components and attributes: each operation written with them is the
    operation of [Queries], [Outbox] or [Writes]. *)

From S2P Require Import Prelude GoStrings GoTime Errors Event Models Store Queries Availability Writes Outbox EntCore EntComponent EntComponentAttr EntIncident EntIncidentStatus EntNotificationOutbox EntComponentBuild EntComponentAttrBuild EntIncidentBuild EntIncidentStatusBuild EntNotificationOutboxBuild EntWhere EntQuery EntGraph EntFacade EntQuerySpec EntRead EntRun EntRefine.
Local Open Scope Z_scope.

(** ** Mappers of nodes with their edges *)

Definition component_of_tree (e : ComponentTree) : Component :=
  let (n, attributes, _) := e in component_of_node n (ComponentAttrTree_node <$> default [] attributes).
Definition incident_of_tree (e : IncidentTree) : Incident :=
  let (n, components, _) := e in incident_of_node n (component_of_tree <$> default [] components).

Definition component_incidents (e : ComponentTree) : list IncidentTree := let (_, _, incidents) := e in default [] incidents.

(** ** Eager loading *)

Section Loads.
Context `{Server} (cfg : config) (t : Tables).

Definition attr_tree (ka : Z * AttrRow) : ComponentAttrTree := mkComponentAttrTree (attr_node ka.1 ka.2) None.
Definition attr_trees (i : Z) : list ComponentAttrTree :=
  attr_tree <$> filterb (λ ka : Z * AttrRow, ar_component ka.2 == i) (rows (t_attr t)).

Lemma holds_in {R} (cols : Z → R → columns) (key : R → Z) c ids k r : cols k r c = Some (VInt (key r)) →
  holds t [FieldIn c (VInt <$> ids)] k (cols k r) = bool_decide (key r ∈ ids).
Proof.
  intros Hc. unfold holds. cbn [forallb]. rewrite andb_true_r. rewrite (eval_in VInt t c ids k (cols k r) (Some (key r))) by (done || by left).
  cbn [col fmap option_fmap option_map]. by destruct (bool_decide (key r ∈ ids)).
Qed.

Lemma attributes_all ids :
  ComponentAttrQuery_sqlAll t (ComponentAttrClient_Query cfg)
    (λ b, b <| qb_ctx ::= (λ c, match qc_Fields c with [] => c | _ => append_field_once componentattr_FieldComponentID c end) |>
            <| qb_predicates ::= (λ l, l ++ [FieldIn component_AttributesColumn (VInt <$> ids)]) |>)
  = inr ([], attr_tree <$> filterb (λ ka : Z * AttrRow, bool_decide (ar_component ka.2 ∈ ids)) (rows (t_attr t))).
Proof.
  unfold ComponentAttrClient_Query. cbn [ComponentAttrQuery_sqlAll].
  rewrite (query_plain attr_cols attr_node _ _ t (t_attr t) [FieldIn component_AttributesColumn (VInt <$> ids)] [] 0 0
    (filterb (λ ka : Z * AttrRow, bool_decide (ar_component ka.2 ∈ ids)) (rows (t_attr t)))); [|done..|].
  - change (nonzero _) with (@None Z). rewrite paged_all. destruct (filterb _ _) as [|ka l]; [done|].
    cbn [fmap list_fmap loaded]. rewrite imap_no_edge. cbn [fmap list_fmap]. by rewrite <- list_fmap_compose.
  - cbn [ordered]. f_equal. apply filterb_ext. intros [k r] _. by apply (holds_in attr_cols ar_component).
Qed.

Lemma loadAttributes_spec nodes : NoDup (cn_ID <$> nodes) →
  let qe := ComponentAttrClient_Query cfg in
  ComponentQuery_loadAttributes (λ g, prepared ComponentAttrQuery_prepareQuery (g (ComponentAttrQuery_base qe)) (ComponentAttrQuery_sqlAll t qe g)) nodes
  = inr ((λ n, attr_trees (cn_ID n)) <$> nodes).
Proof.
  intros Hnd qe. unfold ComponentQuery_loadAttributes, qe. rewrite attributes_all. unfold prepared.
  change (ComponentAttrQuery_prepareQuery _) with (@None ent_error). cbv iota.
  rewrite assign_referenced_all.
  - rewrite distribute_fks by done. rewrite <- list_fmap_compose. f_equal. apply list_fmap_ext. intros i n Hn. cbn.
    rewrite filterb_fmap, filterb_filterb. unfold attr_trees. f_equal. apply filterb_ext. intros ka _. cbn.
    destruct (decide (ar_component ka.2 = cn_ID n)) as [->|]; [|rewrite andb_comm; by rewrite bool_decide_eq_false_2].
    rewrite andb_comm. rewrite bool_decide_eq_true_2 by done. cbn. apply bool_decide_eq_true_2, list_elem_of_fmap. exists n. split; [done|].
    by eapply list_elem_of_lookup_2.
  - intros n (ka & -> & [_ Hka]%elem_of_filterb)%list_elem_of_fmap. by apply bool_decide_eq_true in Hka.
Qed.

(** A query of components with their attributes. *)
Definition component_tree (n : ComponentNode) : ComponentTree := mkComponentTree n (Some (attr_trees (cn_ID n))) None.

Lemma components_sqlAll b f pairs nodes :
  let spec := ComponentQuery_querySpec (f b) in
  query_nodes (read_component (qs_Columns spec)) spec t = inr (pairs, nodes) → NoDup (cn_ID <$> nodes) →
  ComponentQuery_sqlAll t (mkComponentQuery b (Some (ComponentAttrClient_Query cfg)) None) f = inr (pairs, component_tree <$> nodes).
Proof.
  intros spec Hq Hnd. cbn [ComponentQuery_sqlAll]. unfold read_component, spec in Hq. rewrite Hq.
  destruct nodes as [|n nodes]; [done|]. rewrite loadAttributes_spec by done. cbn [loaded].
  by rewrite (imap_edge (λ n e, mkComponentTree n e (edge_at None 0))).
Qed.
Lemma components_sqlAll_err b f e :
  let spec := ComponentQuery_querySpec (f b) in
  query_nodes (read_component (qs_Columns spec)) spec t = inl e →
  ComponentQuery_sqlAll t (mkComponentQuery b (Some (ComponentAttrClient_Query cfg)) None) f = inl e.
Proof. intros spec Hq. cbn [ComponentQuery_sqlAll]. unfold read_component, spec in Hq. by rewrite Hq. Qed.

Lemma component_of_tree_node n : component_of_tree (component_tree n) =
  mkComponent (cn_ID n) (cn_Name n) (attrs_of t (cn_ID n)) (optTimePtr (cn_CreatedAt n)) (optTimePtr (cn_ModifiedAt n)) (optTimePtr (cn_DeletedAt n)).
Proof.
  unfold component_tree, component_of_tree, component_of_node. cbn [default]. f_equal. rewrite <- attrs_of_nodes. unfold attr_trees, id.
  by rewrite <- (list_fmap_compose attr_tree ComponentAttrTree_node).
Qed.

(** The components of incidents: [WithComponents] with the two columns the facade selects. *)
Definition trimmed (q : ComponentQuery) : ComponentQuery :=
  ComponentQuery_WithAttributes [] (ComponentQuery_Select [component_FieldID; component_FieldName] q).
Definition trimmed_node (kr : Z * ComponentRow) : ComponentNode :=
  mkComponentNode kr.1 (cr_name kr.2) zero_time zero_time zero_time.
Definition component_trees (i : Z) : list ComponentTree :=
  (λ kr, component_tree (trimmed_node kr)) <$> filterb (λ kr : Z * ComponentRow, bool_decide ((i, kr.1) ∈ t_rel t)) (rows (t_component t)).

Definition components_join (ids : list Z) : Join :=
  mkJoin incident_ComponentsTable (nth 1 incident_ComponentsPrimaryKey ""%string) (nth 0 incident_ComponentsPrimaryKey ""%string) ids.

Lemma loadComponents_spec nodes : NoDup (in_ID <$> nodes) → let qe := trimmed (ComponentClient_Query cfg) in
  IncidentQuery_loadComponents (λ g, prepared ComponentQuery_prepareQuery (g (ComponentQuery_base qe)) (ComponentQuery_sqlAll t qe g)) nodes
  = inr ((λ n, component_trees (in_ID n)) <$> nodes).
Proof.
  intros Hnd qe. set (ids := in_ID <$> nodes). unfold IncidentQuery_loadComponents, prepared.
  change (ComponentQuery_prepareQuery _) with (@None ent_error). cbv zeta iota.
  change (ComponentQuery_sqlAll t qe _) with (ComponentQuery_sqlAll t (mkComponentQuery (ComponentQuery_base qe)
    (Some (ComponentAttrClient_Query cfg)) None) (λ b, b <| qb_join := Some (components_join ids) |>)).
  erewrite components_sqlAll; [|apply (query_joined component_cols trimmed_node _ _ t (t_component t)); [split; done|done|done|done]
    |rewrite <- list_fmap_compose; apply NoDup_filterb_keys, NoDup_rows_keys].
  rewrite <- list_fmap_compose.
  destruct (joined_load "components" (λ t, cn_ID (ComponentTree_node t)) (component_tree ∘ trimmed_node) (join_outs (components_join ids) t)
    (λ i k, bool_decide ((i, k) ∈ t_rel t)) ids (t_component t)) as (assigned & Ha & Hd); [done..|].
  rewrite Ha. cbv iota beta. fold ids. rewrite Hd. unfold ids. by rewrite <- list_fmap_compose.
Qed.

(** A query of incidents with their components. *)
Definition incident_tree (n : IncidentNode) : IncidentTree := mkIncidentTree n (Some (component_trees (in_ID n))) None.

Lemma incidents_sqlAll b nodes :
  let spec := IncidentQuery_querySpec b in
  query_nodes (read_incident (qs_Columns spec)) spec t = inr ([], nodes) → NoDup (in_ID <$> nodes) →
  IncidentQuery_sqlAll t (mkIncidentQuery b (Some (trimmed (ComponentClient_Query cfg))) None) id = inr ([], incident_tree <$> nodes).
Proof.
  intros spec Hq Hnd. cbn [IncidentQuery_sqlAll]. unfold read_incident, spec in Hq. change (id b) with b. rewrite Hq.
  destruct nodes as [|n nodes]; [done|]. rewrite loadComponents_spec by done. cbn [loaded].
  by rewrite (imap_edge (λ n e, mkIncidentTree n e (edge_at None 0))).
Qed.

Lemma component_of_trimmed kr : component_of_tree (component_tree (trimmed_node kr)) = trimmed_component t kr.1 kr.2.
Proof. by rewrite component_of_tree_node. Qed.
Lemma component_of_row k r : component_of_tree (component_tree (component_node k r)) = componentFromEnt t k r.
Proof. by rewrite component_of_tree_node. Qed.

Lemma incident_of_row k r : incident_of_tree (incident_tree (incident_node k r)) = load t (k, r).
Proof.
  unfold incident_tree, incident_of_tree, load, incidentFromEnt, incident_of_node. cbn [fst snd default incident_node]. f_equal.
  unfold component_trees, components_of, id. cbn [in_ID]. rewrite <- list_fmap_compose. 
  induction (rows (t_component t)) as [|[c r'] l IH]; [done|]. cbn [omap list_omap filterb fst snd].
  destruct (bool_decide _); [|done]. cbn [fmap list_fmap compose]. rewrite component_of_trimmed. by f_equal.
Qed.

(** A query of components with their attributes and incidents. *)
Definition bare_tree (kr : Z * IncidentRow) : IncidentTree := mkIncidentTree (incident_node kr.1 kr.2) None None.
Definition incident_edges (c : Z) : list IncidentTree :=
  bare_tree <$> filterb (λ kr : Z * IncidentRow, bool_decide ((kr.1, c) ∈ t_rel t)) (rows (t_incident t)).
Definition incidents_join (ids : list Z) : Join :=
  mkJoin component_IncidentsTable (nth 0 component_IncidentsPrimaryKey ""%string) (nth 1 component_IncidentsPrimaryKey ""%string) ids.

Lemma incidents_joined ids : let js := join_outs (incidents_join ids) t in
  IncidentQuery_sqlAll t (IncidentClient_Query cfg) (λ b, b <| qb_join := Some (incidents_join ids) |>)
  = inr (joined_pairs js (rows (t_incident t)), bare_tree <$> filterb (λ kr : Z * IncidentRow, negb (bool_decide (js kr.1 = []))) (rows (t_incident t))).
Proof.
  intros js. unfold IncidentClient_Query. cbn [IncidentQuery_sqlAll].
  rewrite (query_joined incident_cols (λ kr, incident_node kr.1 kr.2) _ _ t (t_incident t) (incidents_join ids));
    [|split; done|done|intros; apply read_incident_row|done].
  fold js. destruct (filterb _ _) as [|kr l]; [done|]. cbn [fmap list_fmap loaded].
  rewrite (imap_no_edge (λ n e, mkIncidentTree n e (edge_at None 0))). cbn [fmap list_fmap]. by rewrite <- list_fmap_compose.
Qed.

Lemma loadIncidents_spec nodes : NoDup (cn_ID <$> nodes) → let qe := IncidentClient_Query cfg in
  ComponentQuery_loadIncidents (λ g, prepared IncidentQuery_prepareQuery (g (IncidentQuery_base qe)) (IncidentQuery_sqlAll t qe g)) nodes
  = inr ((λ n, incident_edges (cn_ID n)) <$> nodes).
Proof.
  intros Hnd qe. set (ids := cn_ID <$> nodes). unfold ComponentQuery_loadIncidents, prepared.
  change (IncidentQuery_prepareQuery _) with (@None ent_error). cbv zeta iota.
  change (IncidentQuery_sqlAll t qe _) with (IncidentQuery_sqlAll t qe (λ b, b <| qb_join := Some (incidents_join ids) |>)).
  unfold qe. rewrite incidents_joined.
  destruct (joined_load "incidents" (λ t, in_ID (IncidentTree_node t)) bare_tree (join_outs (incidents_join ids) t)
    (λ i k, bool_decide ((k, i) ∈ t_rel t)) ids (t_incident t)) as (assigned & Ha & Hd); [done..|].
  rewrite Ha. cbv iota beta. fold ids. rewrite Hd. unfold ids. by rewrite <- list_fmap_compose.
Qed.

Lemma components_full b nodes :
  let spec := ComponentQuery_querySpec b in
  query_nodes (read_component (qs_Columns spec)) spec t = inr ([], nodes) → NoDup (cn_ID <$> nodes) →
  ComponentQuery_sqlAll t (mkComponentQuery b (Some (ComponentAttrClient_Query cfg)) (Some (IncidentClient_Query cfg))) id
  = inr ([], (λ n, mkComponentTree n (Some (attr_trees (cn_ID n))) (Some (incident_edges (cn_ID n)))) <$> nodes).
Proof.
  intros spec Hq Hnd. cbn [ComponentQuery_sqlAll]. unfold read_component, spec in Hq. change (id b) with b. rewrite Hq.
  destruct nodes as [|n nodes]; [done|]. rewrite loadAttributes_spec, loadIncidents_spec by done. cbn [loaded].
  by rewrite (imap_edges mkComponentTree).
Qed.
End Loads.

(** ** The operations, as the code writes them *)

(** A query with its eager loads is one round trip. *)
Definition query {A} (f : Tables → ent_error + A) : M A :=
  r ← select f; match r with inl e => throw (err_of e) | inr a => mret a end.
(** [ent.IsNotFound(err)] is turned into an error of the facade. *)
Definition query_found {A} (missing : db_err) (f : Tables → ent_error + A) : M A :=
  r ← select f;
  match r with inl (EntNotFound _) => throw (EDb missing) | inl e => throw (err_of e) | inr a => mret a end.

Module Reads.
Section Operations.
Context `{Server} (cfg : config).

Definition statusesByIncident (ids : list Z) : M (gmap Z (list IncidentStatus)) :=
  foldM (λ grouped chunk,
           rows ← query (λ t, IncidentStatusQuery_All t (IncidentStatusClient_Query cfg
             ▷ IncidentStatusQuery_Where [incidentstatus_IncidentIDIn chunk] ▷ IncidentStatusQuery_Order [incidentstatus_ByID false]));
           mret (foldl group_status grouped (status_of_node <$> rows)))
        ∅ (chunks incidentStatusChunkSize ids).

Definition with_components (q : IncidentQuery) : IncidentQuery := IncidentQuery_WithComponents [trimmed] q.
Definition incident_ids (rows : list IncidentTree) : list Z := (λ row, in_ID (IncidentTree_node row)) <$> rows.

Definition with_statuses (rows : list IncidentTree) : M (list Incident) :=
  let events := incident_of_tree <$> rows in
  grouped ← statusesByIncident (incident_ids rows);
  mret (attachStatuses events grouped).

Definition listing_page (param : IncidentsParams) (q : IncidentQuery) : IncidentQuery :=
  match p_Limit param with
  | Some limit =>
      if 0 <? limit then
        q ▷ IncidentQuery_Limit limit
        ▷ match p_Page param with Some page => when (1 <? page) (IncidentQuery_Offset (int64 ((page - 1) * limit))) | None => id end
      else when (0 <? p_LastCount param) (IncidentQuery_Limit (p_LastCount param)) q
  | None => when (0 <? p_LastCount param) (IncidentQuery_Limit (p_LastCount param)) q
  end.

Definition GetEventsWithCount (isAuth : bool) (param : IncidentsParams) : M (list Incident * Z) :=
  n ← match p_IsActive param with Some true => now | _ => mret 0 end;
  match events_filters param isAuth n with
  | inl e => throw (EDb e)
  | inr preds =>
      total ← query (λ t, IncidentQuery_Count t (IncidentClient_Query cfg ▷ IncidentQuery_Where preds));
      rows ← query (λ t, IncidentQuery_All t (IncidentClient_Query cfg ▷ IncidentQuery_Where preds ▷ with_components
        ▷ IncidentQuery_Order [incident_ByStartDate true] ▷ listing_page param));
      events ← with_statuses rows;
      mret (events, total)
  end.

Definition GetIncident (id : Z) : M Incident :=
  e ← query_found ErrDBIncidentDSNotExist (λ t, IncidentQuery_First t (IncidentClient_Query cfg
    ▷ IncidentQuery_Where [incident_IDEQ id] ▷ with_components));
  events ← with_statuses [e];
  mret (default (incident_of_tree e) (head events)).

Definition active_by_component (currentTime : Z) : sql_pred :=
  incident_Or [incident_EndDateIsNil;
    incident_And [incident_StartDateLTE currentTime; incident_EndDateGTE currentTime;
      incident_StatusNotIn [IncidentResolved; MaintenanceCompleted; MaintenanceCancelled; InfoCompleted; InfoCancelled]]].

Definition GetEventsByComponentID (componentID : Z) (param : IncidentsParams) : M (list Incident) :=
  active ← match p_IsActive param with Some true => n ← now; mret [active_by_component n] | _ => mret [] end;
  let preds := ([incident_HasComponentsWith [component_IDEQ componentID]] ++ public_event_predicates) ++ active
    ++ match p_Types param with Some (ty :: types) => [incident_TypeIn (ty :: types)] | _ => [] end in
  let q := IncidentClient_Query cfg ▷ IncidentQuery_Where preds ▷ with_components in
  rows ← query (λ t, IncidentQuery_All t
    (if p_LastCount param != 0 then q ▷ IncidentQuery_Order [incident_ByID true] ▷ IncidentQuery_Limit (p_LastCount param)
     else q ▷ IncidentQuery_Order [incident_ByID false]));
  with_statuses rows.

Definition incidentsByIDs (ids : list Z) : M (list Incident) :=
  match ids with
  | [] => mret []
  | _ =>
      byID ← foldM (λ byID chunk,
          rows ← query (λ t, IncidentQuery_All t (IncidentClient_Query cfg ▷ IncidentQuery_Where [incident_IDIn chunk] ▷ with_components));
          mret (foldl (λ (m : gmap Z Incident) row, <[in_ID (IncidentTree_node row) := incident_of_tree row]> m) byID rows))
        (∅ : gmap Z Incident) (chunks incidentIDChunkSize ids);
      let incidents := omap (λ id, byID !! id) ids in
      grouped ← statusesByIncident ids;
      mret (attachStatuses incidents grouped)
  end.

Definition getEventsByType (eventType : string) (desc : bool) : M (list Incident) :=
  rows ← query (λ t, IncidentQuery_All t (IncidentClient_Query cfg ▷ IncidentQuery_Where [incident_TypeEQ eventType]
    ▷ IncidentQuery_Order [incident_ByID desc]));
  with_statuses rows.

Definition GetComponent (id : Z) : M Component :=
  e ← query_found ErrDBComponentDSNotExist (λ t, ComponentQuery_First t (ComponentClient_Query cfg
    ▷ ComponentQuery_Where [component_IDEQ id] ▷ ComponentQuery_WithAttributes []));
  mret (component_of_tree e).

Definition GetComponentsAsMap : M (gmap Z Component) :=
  rows ← query (λ t, ComponentQuery_All t (ComponentClient_Query cfg));
  mret (foldl (λ (m : gmap Z Component) row, <[comp_ID (component_of_tree row) := component_of_tree row]> m) ∅ rows).

Definition GetComponentsWithValues : M (list Component) :=
  rows ← query (λ t, ComponentQuery_All t (ComponentClient_Query cfg ▷ ComponentQuery_WithAttributes []));
  mret (component_of_tree <$> rows).

Definition GetComponentFromNameAttrs (name : string) (attr : ComponentAttr) : M Component :=
  e ← query_found ErrDBComponentDSNotExist (λ t, ComponentQuery_First t (ComponentClient_Query cfg
    ▷ ComponentQuery_Where [component_NameEQ name; component_HasAttributesWith [componentattr_ValueEQ (attr_Value attr)]]
    ▷ ComponentQuery_WithAttributes [] ▷ ComponentQuery_Order [component_ByID false]));
  mret (component_of_tree e).

Definition GetComponentsWithIncidents : M (list (Component * list Incident)) :=
  rows ← query (λ t, ComponentQuery_All t (ComponentClient_Query cfg ▷ ComponentQuery_WithAttributes [] ▷ ComponentQuery_WithIncidents []));
  grouped ← statusesByIncident (incident_ids (flat_map component_incidents rows));
  mret ((λ row, (component_of_tree row, attachStatuses (incident_of_tree <$> component_incidents row) grouped)) <$> rows).

Definition GetEventUpdates (incidentID : Z) : M (list IncidentStatus) :=
  rows ← query (λ t, IncidentStatusQuery_All t (IncidentStatusClient_Query cfg
    ▷ IncidentStatusQuery_Where [incidentstatus_IncidentID incidentID] ▷ IncidentStatusQuery_Order [incidentstatus_ByID false]));
  mret (status_of_node <$> rows).

Definition rowExists (dedupKey : string) : M bool :=
  query (λ t, NotificationOutboxQuery_Exist t (NotificationOutboxClient_Query cfg
    ▷ NotificationOutboxQuery_Where [notificationoutbox_DedupKeyEQ dedupKey])).

Definition getRowByID (id : Z) : M NotificationOutbox :=
  row ← query_found ErrNotificationNotFound (λ t, NotificationOutboxQuery_Only t (NotificationOutboxClient_Query cfg
    ▷ NotificationOutboxQuery_Where [notificationoutbox_IDEQ id]));
  mret (outbox_of_node (NotificationOutboxTree_node row)).

Definition ListNotificationsByStatus (status : string) (limit : Z) : M (list NotificationOutbox) :=
  if limit =? 0 then mret []
  else
    rows ← query (λ t, NotificationOutboxQuery_All t (NotificationOutboxClient_Query cfg
      ▷ NotificationOutboxQuery_Where [notificationoutbox_StatusEQ status] ▷ NotificationOutboxQuery_Order [notificationoutbox_ByUpdatedAt true]
      ▷ when (0 <? limit) (NotificationOutboxQuery_Limit limit)));
    mret ((λ row, outbox_of_node (NotificationOutboxTree_node row)) <$> rows).

(** The check of [SaveComponent]. *)
Definition component_taken (name region : string) : M bool :=
  query (λ t, ComponentQuery_Exist t (ComponentClient_Query cfg
    ▷ ComponentQuery_Where [component_NameEQ name;
        component_HasAttributesWith [componentattr_NameEQ regionAttrName; componentattr_ValueEQ region]])).

(** The read of [reconcileIncidentComponents]. *)
Definition stored_components (incidentID : Z) : M (list Z) :=
  query (λ t, ComponentQuery_IDs t (IncidentClient_Query cfg ▷ IncidentQuery_Where [incident_IDEQ incidentID] ▷ IncidentQuery_QueryComponents)).

(** The loop over the sorted values: one that repeats the row before it is skipped. *)
Fixpoint distinct_after (previous : string) (values : list string) : list string :=
  match values with
  | [] => []
  | v :: values => if previous == v then distinct_after v values else v :: distinct_after v values
  end.
Definition distinct_values (values : list string) : list string :=
  match values with [] => [] | v :: values => v :: distinct_after v values end.

Definition GetUniqueAttributeValues (attrName : string) : M (list string) :=
  rows ← query (λ t, ComponentAttrQuery_All t (ComponentAttrClient_Query cfg
    ▷ ComponentAttrQuery_Where [componentattr_NameEQ attrName] ▷ ComponentAttrQuery_Select [componentattr_FieldValue]
    ▷ ComponentAttrQuery_Order [componentattr_ByValue false]));
  mret (distinct_values ((λ row, an_Value (ComponentAttrTree_node row)) <$> rows)).
End Operations.
End Reads.

(** ** Refinement *)

#[global] Instance foldM_meq A B : Proper (pointwise_relation B (pointwise_relation A meq) ==> eq ==> eq ==> meq) (@foldM A B).
Proof.
  intros f f' Hf b ? <- l ? <-. revert b. induction l as [|x l IH]; intros b; [done|]. cbn [foldM].
  apply mbind_meq; [intros b'; apply IH|apply Hf].
Qed.
Lemma bind_ret {A} (m : M A) : (a ← m; mret a) ≡ₘ m.
Proof. intros E w. unfold mbind, M_bind. by destruct (m E w) as [[] ?]. Qed.

Lemma eq_meq {A} (m m' : M A) : m = m' → m ≡ₘ m'.
Proof. by intros ->. Qed.
Lemma select_bind {A B C} (f : Tables → A) (g : Tables → B) (k : A → M C) (k' : B → M C) :
  (∀ t, k (f t) ≡ₘ k' (g t)) → (a ← select f; k a) ≡ₘ (b ← select g; k' b).
Proof. intros Hk E w. rewrite !bind_run, !select_run. destruct (fault_at _ _); [done|]. apply Hk. Qed.

Lemma query_bind {A B C} (f : Tables → ent_error + A) (g : Tables → B) (k : A → M C) (k' : B → M C) :
  (∀ t, match f t with inl e => throw (err_of e) | inr a => k a end ≡ₘ k' (g t)) → (a ← query f; k a) ≡ₘ (b ← select g; k' b).
Proof.
  intros Hk. unfold query. rewrite bind_assoc. apply select_bind. intros t. specialize (Hk t). destruct (f t); done.
Qed.
Lemma query_select {A} (f : Tables → ent_error + A) g : (∀ t, f t = inr (g t)) → query f ≡ₘ select g.
Proof.
  intros Hf E w. unfold query. rewrite bind_run, !select_run. destruct (fault_at _ _); [done|]. by rewrite Hf.
Qed.
Lemma found_bind {A B C} missing (f : Tables → ent_error + A) (g : Tables → B) (k : A → M C) (k' : B → M C) :
  (∀ t, match f t with inl (EntNotFound _) => throw (EDb missing) | inl e => throw (err_of e) | inr a => k a end ≡ₘ k' (g t)) →
  (a ← query_found missing f; k a) ≡ₘ (b ← select g; k' b).
Proof.
  intros Hk. unfold query_found. rewrite bind_assoc. apply select_bind. intros t. specialize (Hk t). by destruct (f t) as [[]|].
Qed.

Section Refine.
Context `{Server} (cfg : config).

(** The queries of one table with the nodes they give. *)
Lemma status_all t ps l : ordered [incidentstatus_ByID false] (with_cols status_cols <$> holding status_cols ps t (t_status t)) = with_cols status_cols <$> l →
  IncidentStatusQuery_All t (IncidentStatusClient_Query cfg ▷ IncidentStatusQuery_Where ps ▷ IncidentStatusQuery_Order [incidentstatus_ByID false])
  = inr ((λ kr : Z * StatusRow, status_node kr.1 kr.2) <$> l).
Proof.
  intros Ho. unfold IncidentStatusQuery_All, IncidentStatusQuery_sqlAll, prepared.
  change (IncidentStatusQuery_prepareQuery _) with (@None ent_error). cbv iota zeta.
  by rewrite (query_plain status_cols status_node _ _ t (t_status t) ps [incidentstatus_ByID false] 0 0 l);
    [|done|done|intros; apply read_status_row|exact Ho].
Qed.

Lemma statuses_in_order t ps : ordered [incidentstatus_ByID false] (with_cols status_cols <$> holding status_cols ps t (t_status t))
  = with_cols status_cols <$> holding status_cols ps t (t_status t).
Proof. apply (ordered_id status_cols _ false); [done|apply holding_keys|apply holding_sorted]. Qed.

Lemma statusesByIncident_refines ids : Reads.statusesByIncident cfg ids ≡ₘ statusesByIncident ids.
Proof.
  unfold Reads.statusesByIncident, statusesByIncident. apply foldM_meq; [|done..]. intros grouped chunk. apply query_bind. intros t.
  rewrite (status_all t _ _ (statuses_in_order t _)). rewrite <- list_fmap_compose. unfold statuses_in, holding.
  erewrite filterb_ext; [reflexivity|]. intros [k r] _. apply (holds_in t status_cols sr_incident). done.
Qed.

Lemma GetEventUpdates_refines id : Reads.GetEventUpdates cfg id ≡ₘ GetEventUpdates id.
Proof.
  unfold Reads.GetEventUpdates, GetEventUpdates. rewrite <- (bind_ret (select (λ t, statuses_of t id))).
  apply query_bind. intros t. 
  rewrite (status_all t _ _ (statuses_in_order t _)). rewrite <- list_fmap_compose. unfold statuses_of, holding.
  erewrite filterb_ext; [reflexivity|]. intros [k r] _. by apply (holds_eq VInt).
Qed.

(** Incidents with their components. *)
Lemma checked_none valid b : qc_Fields (qb_ctx b) = [] → qb_path b = None → checked_column valid b = None.
Proof. unfold checked_column. by intros -> ->. Qed.

Lemma incidents_read t b ps os limit offset (l : list (Z * IncidentRow)) :
  plain_spec (IncidentQuery_querySpec b) ps os limit offset → qc_Fields (qb_ctx b) = [] →
  ordered os (with_cols incident_cols <$> holding incident_cols ps t (t_incident t)) = with_cols incident_cols <$> l →
  let spec := IncidentQuery_querySpec b in
  query_nodes (read_incident (qs_Columns spec)) spec t
  = match paged (nonzero limit) (nonzero offset) l with
    | None => inl (query_error refused)
    | Some l => inr ([], (λ kr : Z * IncidentRow, incident_node kr.1 kr.2) <$> l)
    end.
Proof.
  intros Hspec Hf Ho spec. apply (query_plain incident_cols incident_node _ _ t (t_incident t) ps os); [done|done| |done].
  unfold spec, IncidentQuery_querySpec. rewrite Hf. apply read_incident_row.
Qed.

Lemma incident_all t b ps os limit offset (l : list (Z * IncidentRow)) :
  plain_spec (IncidentQuery_querySpec b) ps os limit offset → qc_Fields (qb_ctx b) = [] → qb_path b = None →
  ordered os (with_cols incident_cols <$> holding incident_cols ps t (t_incident t)) = with_cols incident_cols <$> l → NoDup l.*1 →
  IncidentQuery_All t (mkIncidentQuery b (Some (trimmed (ComponentClient_Query cfg))) None)
  = match paged (nonzero limit) (nonzero offset) l with
    | None => inl (query_error refused)
    | Some l => inr ((λ kr : Z * IncidentRow, incident_tree t (incident_node kr.1 kr.2)) <$> l)
    end.
Proof.
  intros Hspec Hf Hp Ho Hnd. pose proof (incidents_read t b ps os limit offset l Hspec Hf Ho) as Hq.
  unfold IncidentQuery_All, prepared, IncidentQuery_prepareQuery, IncidentQuery_base. rewrite checked_none by done.
  destruct (paged _ _ l) as [k|] eqn:Hk.
  - rewrite (incidents_sqlAll cfg t b _ Hq); [by rewrite <- list_fmap_compose|]. rewrite <- list_fmap_compose.
    apply paged_sublist, (fmap_sublist fst) in Hk. by eapply sublist_NoDup.
  - cbn [IncidentQuery_sqlAll]. unfold read_incident in Hq. change (id b) with b. by rewrite Hq.
Qed.

(** Without the components. *)
Lemma incident_bare t b ps os l :
  plain_spec (IncidentQuery_querySpec b) ps os 0 0 → qc_Fields (qb_ctx b) = [] → qb_path b = None →
  ordered os (with_cols incident_cols <$> holding incident_cols ps t (t_incident t)) = with_cols incident_cols <$> l →
  IncidentQuery_All t (mkIncidentQuery b None None)
  = inr ((λ kr : Z * IncidentRow, mkIncidentTree (incident_node kr.1 kr.2) None None) <$> l).
Proof.
  intros Hspec Hf Hp Ho. pose proof (incidents_read t b ps os 0 0 l Hspec Hf Ho) as Hq.
  unfold IncidentQuery_All, prepared, IncidentQuery_prepareQuery, IncidentQuery_base. rewrite checked_none by done.
  cbn [IncidentQuery_sqlAll]. unfold read_incident in Hq. change (id b) with b. rewrite Hq. change (nonzero 0) with (@None Z). rewrite paged_all.
  destruct l as [|kr l]; [done|]. cbn [fmap list_fmap loaded]. rewrite (imap_no_edge (λ n e, mkIncidentTree n e (edge_at None 0))).
  cbn [fmap list_fmap]. by rewrite <- list_fmap_compose.
Qed.

Definition incident_trees (t : Tables) (l : list (Z * IncidentRow)) : list IncidentTree :=
  (λ kr : Z * IncidentRow, incident_tree t (incident_node kr.1 kr.2)) <$> l.

Lemma with_statuses_refines t l : Reads.with_statuses cfg (incident_trees t l) ≡ₘ
  (grouped ← statusesByIncident (inc_ID <$> (load t <$> l)); mret (attachStatuses (load t <$> l) grouped)).
Proof.
  unfold Reads.with_statuses, Reads.incident_ids, incident_trees. rewrite <- !list_fmap_compose.
  assert ((incident_of_tree ∘ (λ kr : Z * IncidentRow, incident_tree t (incident_node kr.1 kr.2))) <$> l = load t <$> l) as ->.
  { apply list_fmap_ext. intros i [k r] _. apply incident_of_row. }
  apply bind_left. apply statusesByIncident_refines.
Qed.

Lemma statuses_page (t : Tables) (l : list (Z * IncidentRow)) : Reads.with_statuses cfg (incident_trees t l) ≡ₘ
  (λ events, grouped ← statusesByIncident (inc_ID <$> events); mret (attachStatuses events grouped)) (map (load t) l).
Proof. apply with_statuses_refines. Qed.

(** The page of the listing. *)
Lemma default_nonzero n : default 0 (nonzero n) = n.
Proof. unfold nonzero. case_bool_decide; [by subst|done]. Qed.
Lemma paged_take {A} n o (l : list A) : 0 < n →
  paged (nonzero n) (nonzero o) l = if o <? 0 then None else Some (take (Z.to_nat n) (drop (Z.to_nat o) l)).
Proof.
  intros Hn. unfold paged. rewrite !default_nonzero. rewrite (bool_decide_eq_false_2 (n < 0)), orb_false_r by lia.
  destruct (Z.ltb_spec o 0); [by rewrite bool_decide_eq_true_2|]. rewrite bool_decide_eq_false_2 by lia.
  unfold nonzero. by rewrite bool_decide_eq_false_2 by lia.
Qed.

Lemma page_paged {A} param (l : list A) q : qb_ctx (IncidentQuery_base q) = mkQueryContext None None None [] →
  let c := qb_ctx (IncidentQuery_base (Reads.listing_page param q)) in
  page_of param l = paged (nonzero (default 0 (qc_Limit c))) (nonzero (default 0 (qc_Offset c))) l.
Proof.
  destruct q as [[? ctx ? ? ? ?] w0 w1]. cbn [IncidentQuery_base qb_ctx]. intros ->. cbv zeta. unfold page_of, Reads.listing_page, when. 
  destruct (p_Limit param) as [limit|]; [destruct (Z.ltb_spec 0 limit)|].
  - destruct (p_Page param) as [page|]; [destruct (Z.ltb_spec 1 page)|]; cbn; unfold constant; by rewrite paged_take.
  - destruct (Z.ltb_spec 0 (p_LastCount param)); cbn; unfold constant; [by rewrite paged_take|done].
  - destruct (Z.ltb_spec 0 (p_LastCount param)); cbn; unfold constant; [by rewrite paged_take|done].
Qed.

Lemma listing_page_keeps param b w0 w1 : let b' := IncidentQuery_base (Reads.listing_page param (mkIncidentQuery b w0 w1)) in
  Reads.listing_page param (mkIncidentQuery b w0 w1) = mkIncidentQuery b' w0 w1
  ∧ b' = mkQueryBase (qb_config b) (mkQueryContext (qc_Unique (qb_ctx b)) (qc_Limit (qb_ctx b')) (qc_Offset (qb_ctx b')) (qc_Fields (qb_ctx b)))
           (qb_order b) (qb_predicates b) (qb_join b) (qb_path b).
Proof.
  destruct b as [cf [u lim off fs] os ps j path]. cbv zeta. unfold Reads.listing_page, when.
  destruct (p_Limit param) as [limit|]; [destruct (0 <? limit)|];
    [destruct (p_Page param) as [page|]; [destruct (1 <? page)|]|destruct (0 <? p_LastCount param)..]; done.
Qed.

Lemma holding_matching t ps preds : Forall2 agrees ps preds → holding incident_cols ps t (t_incident t) = matching preds t.
Proof. intros Hp. apply filterb_ext. intros [k r] _. by apply holds_where_all. Qed.

Definition listing_query (ps : list sql_pred) (param : IncidentsParams) : IncidentQuery :=
  IncidentClient_Query cfg ▷ IncidentQuery_Where ps ▷ Reads.with_components ▷ IncidentQuery_Order [incident_ByStartDate true] ▷ Reads.listing_page param.

Lemma listing_all t ps preds param : Forall2 agrees ps preds →
  IncidentQuery_All t (listing_query ps param)
  = match page_of param (merge_sort start_desc (matching preds t)) with
    | None => inl (query_error refused)
    | Some l => inr (incident_trees t l)
    end.
Proof.
  intros Hp. unfold listing_query.
  set (q := IncidentClient_Query cfg ▷ IncidentQuery_Where ps ▷ Reads.with_components ▷ IncidentQuery_Order [incident_ByStartDate true]).
  rewrite (page_paged param _ q) by done.
  change q with (mkIncidentQuery (IncidentQuery_base q) (Some (trimmed (ComponentClient_Query cfg))) None).
  destruct (listing_page_keeps param (IncidentQuery_base q) (Some (trimmed (ComponentClient_Query cfg))) None) as [-> Hb]. cbv zeta in Hb.
  cbn [IncidentQuery_base]. set (b' := IncidentQuery_base _) in *. clearbody b'.
  apply (incident_all t b' ps [incident_ByStartDate true]).
  - rewrite Hb. split; done.
  - by rewrite Hb.
  - by rewrite Hb.
  - rewrite (holding_matching t ps preds) by done. by apply (ordered_time incident_cols _ ir_start).
  - rewrite <- (holding_matching t ps preds) by done. rewrite merge_sort_Permutation. apply holding_keys.
Qed.

Lemma listing_count t ps preds : Forall2 agrees ps preds →
  IncidentQuery_Count t (IncidentClient_Query cfg ▷ IncidentQuery_Where ps) = inr (Z.of_nat (length (matching preds t))).
Proof.
  intros Hp. rewrite <- (holding_matching t ps preds) by done. unfold IncidentQuery_Count, prepared.
  change (IncidentQuery_prepareQuery _) with (@None ent_error). cbv iota. unfold IncidentQuery_sqlCount. cbv zeta.
  by rewrite (count_plain incident_cols _ t (t_incident t) ps [] 0 0) by (done || split; done).
Qed.

Context `{!RawSubquery}.

(** The clock is read when the active events are asked for. *)
Lemma filters_world params isAuth E w :
  ∃ n, match p_IsActive params with Some true => now | _ => mret 0 end E w = (Ret n, (applyEventsFilters params isAuth E w).2)
    ∧ events_filters params isAuth n = events_filters params isAuth (now_at E (w_tick w)).
Proof.
  unfold applyEventsFilters, events_filters. destruct (p_IsActive params) as [[]|]; eexists; (split; [reflexivity|done]).
Qed.

Lemma filters_bind {C} params isAuth (K : list sql_pred → M C) (K' : list pred → M C) :
  (∀ ps preds, Forall2 agrees ps preds → K ps ≡ₘ K' preds) →
  (n ← match p_IsActive params with Some true => now | _ => mret 0 end;
   match events_filters params isAuth n with inl e => throw (EDb e) | inr ps => K ps end)
  ≡ₘ (preds ← applyEventsFilters params isAuth; K' preds).
Proof.
  intros HK E w. pose proof (filters_agree params isAuth E w) as Hf. destruct (filters_world params isAuth E w) as (n & Hn & He).
  rewrite !bind_run, Hn, He. destruct (applyEventsFilters params isAuth E w) as [[preds|e|] w']; [| |done]; cbn [snd].
  - destruct Hf as (ps & -> & Hps). by apply HK.
  - by destruct Hf as [-> ->].
Qed.

Lemma GetEventsWithCount_refines isAuth param : Reads.GetEventsWithCount cfg isAuth param ≡ₘ GetEventsWithCount isAuth param.
Proof.
  unfold Reads.GetEventsWithCount, GetEventsWithCount. apply filters_bind. intros ps preds Hp.
  apply query_bind. intros t. rewrite (listing_count t ps preds) by done. 
  apply query_bind. intros t'. change (IncidentQuery_All t' _) with (IncidentQuery_All t' (listing_query ps param)).
  rewrite (listing_all t' ps preds) by done. destruct (page_of _ _) as [l|]; [|done]. cbn [fmap option_fmap option_map].
  rewrite with_statuses_refines, bind_assoc. same_runs.
Qed.

Lemma NoDup_option_keys {R} (i : Z) (r : option R) : NoDup ((λ r, (i, r)) <$> option_list r).*1.
Proof. destruct r; cbn; [apply NoDup_singleton|apply NoDup_nil_2]. Qed.

Lemma GetIncident_refines id : Reads.GetIncident cfg id ≡ₘ GetIncident id.
Proof.
  unfold Reads.GetIncident, GetIncident. apply found_bind. intros t. unfold IncidentQuery_First.
  set (q := IncidentQuery_Limit 1 _).
  change q with (mkIncidentQuery (IncidentQuery_base q) (Some (trimmed (ComponentClient_Query cfg))) None).
  rewrite (incident_all t _ [incident_IDEQ id] [] 1 0 ((λ r, (id, r)) <$> option_list (t_incident t !! id)));
    [|done|done|done|cbn [ordered]; f_equal; by apply (holding_id incident_cols)|apply NoDup_option_keys].
  rewrite (paged_take 1 0) by done. destruct (t_incident t !! id) as [r|]; [|done]. cbn [option_list fmap list_fmap Z.ltb Z.compare first_of].
  change (take _ _) with [(id, r)]. cbn [fmap list_fmap first_of].
  rewrite (with_statuses_refines t [(id, r)]). rewrite bind_assoc. same_runs.
Qed.

Lemma agrees_has_component c : agrees (incident_HasComponentsWith [component_IDEQ c]) (HasComponentIn [c]).
Proof.
  intros t id r. rewrite <- (agrees_components [c]) by done. cbn [eval incident_HasComponentsWith]. f_equal.
  induction (neighbours t incident_newComponentsStep id) as [|[k f] l IH]; [done|]. cbn [existsb]. f_equal; [|exact IH].
  cbn [forallb]. f_equal. cbn. destruct (f component_FieldID) as [v|]; [|done]. cbn. erewrite (bool_decide_ext (v = VInt c)); [done|].
  by rewrite list_elem_of_singleton.
Qed.

Lemma agrees_active_by_component n : agrees (Reads.active_by_component n) (active_at terminalStatusesByComponent n).
Proof.
  apply agrees_or2; [apply agrees_end_nil|].
  apply agrees_and3; [apply agrees_start_lte|apply agrees_end_gte|by apply agrees_status_not_in].
Qed.

Lemma incidents_by_id t ps preds (desc : bool) limit b : Forall2 agrees ps preds →
  plain_spec (IncidentQuery_querySpec b) ps [incident_ByID desc] limit 0 → qc_Fields (qb_ctx b) = [] → qb_path b = None →
  IncidentQuery_All t (mkIncidentQuery b (Some (trimmed (ComponentClient_Query cfg))) None)
  = match paged (nonzero limit) None (if desc then reverse (matching preds t) else matching preds t) with
    | None => inl (query_error refused) | Some l => inr (incident_trees t l)
    end.
Proof.
  intros Hp Hs Hf Hb. apply (incident_all t b ps [incident_ByID desc] limit 0); [done..| |].
  - rewrite (holding_matching t ps preds) by done. apply (ordered_id incident_cols incident_FieldID); [done|..];
      rewrite <- (holding_matching t ps preds) by done; [apply holding_keys|apply holding_sorted].
  - rewrite <- (holding_matching t ps preds) by done. destruct desc; [rewrite reverse_Permutation|]; apply holding_keys.
Qed.

Lemma GetEventsByComponentID_refines c param : 0 ≤ p_LastCount param →
  Reads.GetEventsByComponentID cfg c param ≡ₘ GetEventsByComponentID c param.
Proof.
  intros Hlast. unfold Reads.GetEventsByComponentID, GetEventsByComponentID.
  set (K := λ active : list sql_pred, _). set (K' := λ active : list pred, _).
  assert (∀ active active', Forall2 agrees active active' → K active ≡ₘ K' active') as HK.
  { intros active active' Ha. unfold K, K'. apply query_bind. intros t.
    set (ps := _ ++ _ ++ _). set (preds := HasComponentIn [c] :: _).
    assert (Forall2 agrees ps preds) as Hp.
    { constructor; [apply agrees_has_component|]. apply Forall2_app; [apply agrees_public|]. apply Forall2_app; [done|].
      destruct (p_Types param) as [[|ty types]|]; repeat constructor. apply agrees_type_in. }
    clearbody ps preds. destruct (decide (p_LastCount param = 0)) as [Hz|Hz].
    - rewrite (bool_decide_eq_true_2 (p_LastCount param = 0)) by done. cbn [negb]. set (q := IncidentQuery_Order _ _).
      change q with (mkIncidentQuery (IncidentQuery_base q) (Some (trimmed (ComponentClient_Query cfg))) None).
      rewrite (incidents_by_id t ps preds false 0) by (done || split; done). apply with_statuses_refines.
    - rewrite (bool_decide_eq_false_2 (p_LastCount param = 0)) by done. cbn [negb]. set (q := IncidentQuery_Limit _ _).
      change q with (mkIncidentQuery (IncidentQuery_base q) (Some (trimmed (ComponentClient_Query cfg))) None).
      rewrite (incidents_by_id t ps preds true (p_LastCount param)) by (done || split; done).
      rewrite (paged_take _ 0) by lia. apply with_statuses_refines. }
  destruct (p_IsActive param) as [[]|].
  - rewrite !bind_assoc. apply mbind_meq; [intros n|done]. apply HK. repeat constructor. apply agrees_active_by_component.
  - apply HK. constructor.
  - apply HK. constructor.
Qed.

Lemma incidentsByIDs_refines ids : Reads.incidentsByIDs cfg ids ≡ₘ incidentsByIDs ids.
Proof.
  unfold Reads.incidentsByIDs, incidentsByIDs. destruct ids as [|i ids]; [done|]. apply mbind_meq.
  - intros byID. apply bind_left, statusesByIncident_refines.
  - apply foldM_meq; [|done..]. intros byID chunk. apply query_bind. intros t. set (q := Reads.with_components _).
    change q with (mkIncidentQuery (IncidentQuery_base q) (Some (trimmed (ComponentClient_Query cfg))) None).
    set (l := filterb (λ kr : Z * IncidentRow, bool_decide (kr.1 ∈ chunk)) (rows (t_incident t))).
    rewrite (incident_all t _ [incident_IDIn chunk] [] 0 0 l);
      [|split; done|done|done| |apply NoDup_filterb_keys, NoDup_rows_keys].
    + change (nonzero 0) with (@None Z). rewrite paged_all. apply eq_meq. f_equal. clearbody l. revert byID.
      induction l as [|[k r] l IH]; intros byID; [done|]. cbn [fmap list_fmap foldl]. rewrite incident_of_row. apply IH.
    + cbn [ordered]. f_equal. apply filterb_ext. intros [k r] _. unfold holds. cbn [forallb].
      unfold incident_IDIn. rewrite (eval_in VInt t _ chunk k _ (Some k)) by (done || by left). cbn. rewrite andb_true_r. by destruct (bool_decide (k ∈ chunk)).
Qed.

Lemma getEventsByType_refines ty desc : Reads.getEventsByType cfg ty desc ≡ₘ getEventsByType ty desc.
Proof.
  unfold Reads.getEventsByType, getEventsByType. apply query_bind. intros t.
  set (l := filterb (λ kr : Z * IncidentRow, ir_type kr.2 == ty) (rows (t_incident t))).
  assert (IncidentQuery_All t (IncidentClient_Query cfg ▷ IncidentQuery_Where [incident_TypeEQ ty] ▷ IncidentQuery_Order [incident_ByID desc])
    = inr ((λ kr : Z * IncidentRow, mkIncidentTree (incident_node kr.1 kr.2) None None) <$> (if desc then reverse l else l))) as ->.
  { set (q := IncidentQuery_Order _ _). change q with (mkIncidentQuery (IncidentQuery_base q) None None).
    apply (incident_bare t _ [incident_TypeEQ ty] [incident_ByID desc]); [split; done|done|done|].
    assert (holding incident_cols [incident_TypeEQ ty] t (t_incident t) = l) as Hl.
    { apply filterb_ext. intros [k r] _. by apply (holds_eq VType). }
    rewrite Hl. apply (ordered_id incident_cols incident_FieldID desc); [done|rewrite <- Hl..]; [apply holding_keys|apply holding_sorted]. }
  unfold Reads.with_statuses, Reads.incident_ids. rewrite <- !list_fmap_compose. rewrite statusesByIncident_refines. done.
Qed.

Lemma components_read t b ps os limit (l : list (Z * ComponentRow)) :
  plain_spec (ComponentQuery_querySpec b) ps os limit 0 → qc_Fields (qb_ctx b) = [] →
  ordered os (with_cols component_cols <$> holding component_cols ps t (t_component t)) = with_cols component_cols <$> l →
  let spec := ComponentQuery_querySpec b in
  query_nodes (read_component (qs_Columns spec)) spec t
  = match paged (nonzero limit) None l with
    | None => inl (query_error refused)
    | Some l => inr ([], (λ kr : Z * ComponentRow, component_node kr.1 kr.2) <$> l)
    end.
Proof.
  intros Hspec Hf Ho spec. apply (query_plain component_cols component_node _ _ t (t_component t) ps os limit 0); [done|done| |done].
  unfold spec, ComponentQuery_querySpec. rewrite Hf. apply read_component_row.
Qed.

Lemma component_all t b ps os limit l :
  plain_spec (ComponentQuery_querySpec b) ps os limit 0 → qc_Fields (qb_ctx b) = [] → qb_path b = None →
  ordered os (with_cols component_cols <$> holding component_cols ps t (t_component t)) = with_cols component_cols <$> l → NoDup l.*1 →
  ComponentQuery_All t (mkComponentQuery b (Some (ComponentAttrClient_Query cfg)) None)
  = match paged (nonzero limit) None l with
    | None => inl (query_error refused)
    | Some l => inr ((λ kr : Z * ComponentRow, component_tree t (component_node kr.1 kr.2)) <$> l)
    end.
Proof.
  intros Hspec Hf Hp Ho Hnd. pose proof (components_read t b ps os limit l Hspec Hf Ho) as Hq.
  unfold ComponentQuery_All, prepared, ComponentQuery_prepareQuery, ComponentQuery_base. rewrite checked_none by done.
  destruct (paged _ _ l) as [k|] eqn:Hk.
  - rewrite (components_sqlAll cfg t b id _ _ Hq); [by rewrite <- list_fmap_compose|]. rewrite <- list_fmap_compose.
    apply paged_sublist, (fmap_sublist fst) in Hk. by eapply sublist_NoDup.
  - by rewrite (components_sqlAll_err cfg t b id _ Hq).
Qed.

Lemma GetComponent_refines id : Reads.GetComponent cfg id ≡ₘ GetComponent id.
Proof.
  unfold Reads.GetComponent, GetComponent. apply found_bind. intros t. unfold ComponentQuery_First.
  set (q := ComponentQuery_Limit 1 _).
  change q with (mkComponentQuery (ComponentQuery_base q) (Some (ComponentAttrClient_Query cfg)) None).
  rewrite (component_all t _ [component_IDEQ id] [] 1 ((λ r, (id, r)) <$> option_list (t_component t !! id)));
    [|split; done|done|done|cbn [ordered]; f_equal; by apply (holding_id component_cols)|apply NoDup_option_keys].
  destruct (t_component t !! id) as [r|]; [|done]. change (paged _ _ _) with (Some [(id, r)]). cbn [fmap list_fmap first_of].
  by rewrite component_of_row.
Qed.

Lemma GetComponentsWithValues_refines : Reads.GetComponentsWithValues cfg ≡ₘ GetComponentsWithValues.
Proof.
  unfold Reads.GetComponentsWithValues, GetComponentsWithValues. rewrite <- (bind_ret (select _)). apply query_bind. intros t.
  set (q := ComponentQuery_WithAttributes _ _).
  change q with (mkComponentQuery (ComponentQuery_base q) (Some (ComponentAttrClient_Query cfg)) None).
  rewrite (component_all t _ [] [] 0 (rows (t_component t))); [|split; done|done|done| |apply NoDup_rows_keys].
  - change (nonzero 0) with (@None Z). rewrite paged_all. rewrite <- list_fmap_compose. apply eq_meq. f_equal. apply list_fmap_ext.
    intros i [k r] _. apply component_of_row.
  - cbn [ordered]. f_equal. by apply filterb_true_id.
Qed.

(** Rows put into a map one by one. *)
Section Insert.
Context {A T B : Type} (g : A → T) (key : T → Z) (v : T → B).

Lemma foldl_insert_notin l (m : gmap Z B) i : i ∉ (λ a, key (g a)) <$> l →
  foldl (λ m x, <[key x := v x]> m) m (g <$> l) !! i = m !! i.
Proof.
  revert m. induction l as [|a l IH]; intros m Hi; [done|]. cbn in *. apply not_elem_of_cons in Hi as [Hne Hi].
  rewrite IH by done. by rewrite lookup_insert_ne.
Qed.
Lemma foldl_insert_in l (m : gmap Z B) a : NoDup ((λ a, key (g a)) <$> l) → a ∈ l →
  foldl (λ m x, <[key x := v x]> m) m (g <$> l) !! key (g a) = Some (v (g a)).
Proof.
  revert m. induction l as [|b l IH]; intros m Hnd Ha; [by apply elem_of_nil in Ha|]. cbn in *. apply NoDup_cons in Hnd as [Hn Hnd].
  apply elem_of_cons in Ha as [->|Ha]; [|by apply IH]. rewrite foldl_insert_notin by done. by rewrite lookup_insert_eq.
Qed.
End Insert.

Lemma GetComponentsAsMap_refines : Reads.GetComponentsAsMap cfg ≡ₘ GetComponentsAsMap.
Proof.
  unfold Reads.GetComponentsAsMap, GetComponentsAsMap. rewrite <- (bind_ret (select _)). apply query_bind. intros t.
  assert (ComponentQuery_All t (ComponentClient_Query cfg)
    = inr ((λ kr : Z * ComponentRow, mkComponentTree (component_node kr.1 kr.2) None None) <$> rows (t_component t))) as ->.
  { pose proof (components_read t (newQueryBase cfg) [] [] 0 (rows (t_component t))) as Hq. unfold ComponentQuery_All, prepared.
    change (ComponentQuery_prepareQuery _) with (@None ent_error). unfold ComponentClient_Query. cbn [ComponentQuery_sqlAll].
    unfold read_component in Hq. change (id (newQueryBase cfg)) with (newQueryBase cfg).
    rewrite Hq; [|split; done|done|cbn [ordered]; f_equal; by apply filterb_true_id]. change (nonzero 0) with (@None Z). rewrite paged_all.
    destruct (rows (t_component t)) as [|kr l]; [done|]. cbn [fmap list_fmap loaded]. rewrite (imap_no_edge (λ n e, mkComponentTree n e (edge_at None 0))).
    cbn [fmap list_fmap]. by rewrite <- list_fmap_compose. }
  apply eq_meq. f_equal. apply map_eq. intros i. rewrite map_lookup_imap.
  destruct (t_component t !! i) as [r|] eqn:Hi; cbn [mbind option_bind].
  - apply elem_of_rows in Hi. apply (foldl_insert_in (λ kr : Z * ComponentRow, mkComponentTree (component_node kr.1 kr.2) None None)
      (λ row, comp_ID (component_of_tree row)) component_of_tree _ _ (i, r) (NoDup_rows_keys _) Hi).
  - rewrite (foldl_insert_notin (λ kr : Z * ComponentRow, mkComponentTree (component_node kr.1 kr.2) None None)
      (λ row, comp_ID (component_of_tree row)) component_of_tree); [apply lookup_empty|]. intros (kr & Heq & Hin)%list_elem_of_fmap. destruct kr as [k r]. apply elem_of_rows in Hin. cbn in Heq. congruence.
Qed.

Definition full_tree (t : Tables) (kr : Z * ComponentRow) : ComponentTree :=
  mkComponentTree (component_node kr.1 kr.2) (Some (attr_trees t kr.1)) (Some (incident_edges t kr.1)).

Lemma components_with_incidents t :
  ComponentQuery_All t (ComponentClient_Query cfg ▷ ComponentQuery_WithAttributes [] ▷ ComponentQuery_WithIncidents [])
  = inr (full_tree t <$> rows (t_component t)).
Proof.
  unfold ComponentQuery_All, prepared. change (ComponentQuery_prepareQuery _) with (@None ent_error). cbv iota.
  set (q := ComponentQuery_WithIncidents _ _).
  change q with (mkComponentQuery (newQueryBase cfg) (Some (ComponentAttrClient_Query cfg)) (Some (IncidentClient_Query cfg))).
  rewrite (components_full cfg t (newQueryBase cfg) ((λ kr : Z * ComponentRow, component_node kr.1 kr.2) <$> rows (t_component t))).
  - by rewrite <- list_fmap_compose.
  - apply (components_read t (newQueryBase cfg) [] [] 0 (rows (t_component t))); [split; done|done|]. cbn [ordered]. f_equal. by apply filterb_true_id.
  - rewrite <- list_fmap_compose. apply NoDup_rows_keys.
Qed.

Lemma full_tree_incidents t kr : incident_of_tree <$> component_incidents (full_tree t kr) = incidents_of t kr.1.
Proof. unfold full_tree, component_incidents, incident_edges, incidents_of. cbn [default]. unfold id. by rewrite <- list_fmap_compose. Qed.
Lemma incident_ids_mapped (ts : list IncidentTree) : Reads.incident_ids ts = inc_ID <$> (incident_of_tree <$> ts).
Proof. unfold Reads.incident_ids. rewrite <- list_fmap_compose. apply list_fmap_ext. by intros i [] _. Qed.

Lemma GetComponentsWithIncidents_refines : Reads.GetComponentsWithIncidents cfg ≡ₘ GetComponentsWithIncidents.
Proof.
  unfold Reads.GetComponentsWithIncidents, GetComponentsWithIncidents. apply query_bind. intros t. rewrite components_with_incidents.
  rewrite statusesByIncident_refines. rewrite incident_ids_mapped.
  set (comps := (λ kc : Z * ComponentRow, (componentFromEnt t kc.1 kc.2, incidents_of t kc.1)) <$> rows (t_component t)).
  assert (incident_of_tree <$> flat_map component_incidents (full_tree t <$> rows (t_component t)) = flat_map snd comps) as ->.
  { unfold comps. induction (rows (t_component t)) as [|kr l IH]; [done|]. cbn [fmap list_fmap flat_map snd].
    by rewrite fmap_app, IH, full_tree_incidents. }
  apply mbind_meq; [|done]. intros grouped. apply eq_meq. f_equal. unfold comps. rewrite <- !list_fmap_compose. apply list_fmap_ext.
  intros i kr _. cbn [compose fst snd]. rewrite full_tree_incidents. f_equal. apply (component_of_row t kr.1 kr.2).
Qed.

Lemma holds_split t p ps k f : holds t (p :: ps) k f = holds t [p] k f && holds t ps k f.
Proof. unfold holds. cbn [forallb]. by rewrite andb_true_r. Qed.
Lemma existsb_neighbours {A B} (f : A → B) p (q : B → bool) l : existsb q (f <$> filterb p l) = existsb (λ a, p a && q (f a)) l.
Proof. induction l as [|a l IH]; [done|]. cbn [filterb existsb]. destruct (p a); cbn; by rewrite IH. Qed.

Lemma holds_name_attrs t name aps (p : AttrRow → bool) k r : (∀ i a, holds t aps i (attr_cols i a) = p a) →
  holds t [component_NameEQ name; component_HasAttributesWith aps] k (component_cols k r) = (cr_name r == name) && component_has_attr t k p.
Proof.
  intros Hp. rewrite holds_split. f_equal; [by apply (holds_eq VString)|]. apply holds_one. cbn [eval component_HasAttributesWith]. f_equal.
  change (neighbours t component_newAttributesStep k)
    with ((λ kr : Z * AttrRow, (kr.1, attr_cols kr.1 kr.2)) <$> filterb (λ kr : Z * AttrRow, ar_component kr.2 =? k) (rows (t_attr t))).
  rewrite existsb_neighbours. unfold component_has_attr. induction (rows (t_attr t)) as [|[i a] l IH]; [done|]. cbn [existsb]. f_equal; [|exact IH].
  f_equal; [cbn; destruct (Z.eqb_spec (ar_component a) k); [by rewrite bool_decide_eq_true_2|by rewrite bool_decide_eq_false_2]|].
  apply Hp.
Qed.

Lemma GetComponentFromNameAttrs_refines name attr : Reads.GetComponentFromNameAttrs cfg name attr ≡ₘ GetComponentFromNameAttrs name attr.
Proof.
  unfold Reads.GetComponentFromNameAttrs, GetComponentFromNameAttrs. apply found_bind. intros t. unfold ComponentQuery_First.
  set (q := ComponentQuery_Limit 1 _).
  change q with (mkComponentQuery (ComponentQuery_base q) (Some (ComponentAttrClient_Query cfg)) None).
  set (ps := [component_NameEQ name; component_HasAttributesWith [componentattr_ValueEQ (attr_Value attr)]]).
  rewrite (component_all t _ ps [component_ByID false] 1 (holding component_cols ps t (t_component t)));
    [|split; done|done|done|apply (ordered_id component_cols _ false); [done|apply holding_keys|apply holding_sorted]|apply holding_keys].
  rewrite (paged_take 1 0) by done. change (0 <? 0) with false. cbv iota. rewrite drop_0. unfold holding.
  induction (rows (t_component t)) as [|[k r] l IH]; [done|]. cbn [filterb omap list_omap fst snd]. unfold ps.
  rewrite (holds_name_attrs t name _ (λ a, ar_value a == attr_Value attr)) by (intros; by apply (holds_eq VString)).
  destruct (_ && _); [|exact IH]. change (Z.to_nat 1) with 1%nat. cbn [take fmap list_fmap first_of head fst snd].
  by rewrite component_of_row.
Qed.

(** The queue. *)
Lemma outbox_all t b ps os limit (l : list (Z * OutboxRow)) :
  plain_spec (NotificationOutboxQuery_querySpec b) ps os limit 0 → qc_Fields (qb_ctx b) = [] → qb_path b = None →
  ordered os (with_cols outbox_cols <$> holding outbox_cols ps t (t_outbox t)) = with_cols outbox_cols <$> l →
  NotificationOutboxQuery_All t (mkNotificationOutboxQuery b None)
  = match paged (nonzero limit) None l with
    | None => inl (query_error refused)
    | Some l => inr ((λ kr : Z * OutboxRow, mkNotificationOutboxTree (outbox_node kr.1 kr.2) None) <$> l)
    end.
Proof.
  intros Hspec Hf Hp Ho. unfold NotificationOutboxQuery_All, prepared, NotificationOutboxQuery_prepareQuery, NotificationOutboxQuery_base.
  rewrite checked_none by done. cbn [NotificationOutboxQuery_sqlAll]. change (id b) with b.
  rewrite (query_plain outbox_cols outbox_node _ _ t (t_outbox t) ps os limit 0 l); [|done|done| |done].
  - change (nonzero 0) with (@None Z). destruct (paged _ _ l) as [[|kr k]|]; [done| |done]. cbn [fmap list_fmap loaded].
    rewrite imap_no_edge. cbn [fmap list_fmap]. by rewrite <- list_fmap_compose.
  - unfold NotificationOutboxQuery_querySpec. rewrite Hf. apply read_outbox_row.
Qed.

Lemma getRowByID_refines id : Reads.getRowByID cfg id ≡ₘ getRowByID id.
Proof.
  unfold Reads.getRowByID, getRowByID. apply found_bind. intros t. unfold NotificationOutboxQuery_Only.
  set (q := NotificationOutboxQuery_Limit 2 _). change q with (mkNotificationOutboxQuery (NotificationOutboxQuery_base q) None).
  rewrite (outbox_all t _ [notificationoutbox_IDEQ id] [] 2 ((λ r, (id, r)) <$> option_list (t_outbox t !! id)));
    [|split; done|done|done|cbn [ordered]; f_equal; by apply (holding_id outbox_cols)].
  destruct (t_outbox t !! id) as [r|]; [|done]. change (paged _ _ _) with (Some [(id, r)]). cbn [fmap list_fmap only_of].
  done.
Qed.

Lemma ListNotificationsByStatus_refines status limit : Reads.ListNotificationsByStatus cfg status limit ≡ₘ ListNotificationsByStatus status limit.
Proof.
  unfold Reads.ListNotificationsByStatus, ListNotificationsByStatus. destruct (Z.eqb_spec limit 0) as [|Hne]; [done|].
  rewrite <- (bind_ret (select _)). apply query_bind. intros t.
  set (l := merge_sort updated_desc (filterb (λ kr : Z * OutboxRow, or_status kr.2 == status) (rows (t_outbox t)))).
  assert (ordered [notificationoutbox_ByUpdatedAt true] (with_cols outbox_cols <$> holding outbox_cols [notificationoutbox_StatusEQ status] t (t_outbox t))
    = with_cols outbox_cols <$> l) as Hl.
  { assert (holding outbox_cols [notificationoutbox_StatusEQ status] t (t_outbox t)
      = filterb (λ kr : Z * OutboxRow, or_status kr.2 == status) (rows (t_outbox t))) as ->.
    { apply filterb_ext. intros [k r] _. by apply (holds_eq VString). }
    by apply (ordered_time outbox_cols _ or_updated updated_desc). }
  clearbody l. destruct (Z.ltb_spec 0 limit); cbn [when].
  - set (q := NotificationOutboxQuery_Limit _ _). change q with (mkNotificationOutboxQuery (NotificationOutboxQuery_base q) None).
    rewrite (outbox_all t _ [notificationoutbox_StatusEQ status] [notificationoutbox_ByUpdatedAt true] limit l) by (done || split; done).
    rewrite (paged_take _ 0) by done. change (0 <? 0) with false. cbv iota. by rewrite <- list_fmap_compose.
  - set (q := NotificationOutboxQuery_Order _ _). change q with (mkNotificationOutboxQuery (NotificationOutboxQuery_base q) None).
    rewrite (outbox_all t _ [notificationoutbox_StatusEQ status] [notificationoutbox_ByUpdatedAt true] 0 l) by (done || split; done).
    change (nonzero 0) with (@None Z). rewrite paged_all. by rewrite <- list_fmap_compose.
Qed.

(** [Exist]: the first id of the rows. *)
Lemma first_exists {R} (cols : Z → R → columns) table c label ps p t m :
  table_rows table t = by_id cols m → (∀ k r, holds t ps k (cols k r) = p k r) →
  exist_of (first_of label
    (match g_SelectRows (mkSelector table [c] None false ps [] (Some 1) None) t with
     | inl e => inl (query_error e)
     | inr rows => inr ((λ row, int_value (mjoin (head row))) <$> rows)
     end)) = inr (existsb (λ kr : Z * R, p kr.1 kr.2) (rows m)).
Proof.
  intros Ht Hp. cbn [g_SelectRows tables_reader tables_select selector_rows]. rewrite Ht. unfold by_id. rewrite filterb_fmap. cbn [ordered].
  rewrite (paged_fmap _ (Some 1) None). cbn [with_cols fst snd]. change (paged (Some 1) None ?l) with (Some (take 1 l)).
  induction (rows m) as [|[k r] l IH]; [done|]. cbn [filterb existsb fst snd]. rewrite Hp. by destruct (p k r).
Qed.

Lemma rowExists_refines key : Reads.rowExists cfg key ≡ₘ rowExists key.
Proof.
  apply query_select. intros t. set (p := λ (_ : Z) (r : OutboxRow), or_dedup r == key).
  apply (first_exists outbox_cols notificationoutbox_Table notificationoutbox_FieldID notificationoutbox_Label
    [notificationoutbox_DedupKeyEQ key] p t (t_outbox t)); [done|]. intros k r. by apply (holds_eq VString).
Qed.

Lemma component_taken_refines name region : Reads.component_taken cfg name region ≡ₘ select (λ t, component_taken t name region).
Proof.
  apply query_select. intros t.
  set (p := λ (k : Z) (r : ComponentRow), (cr_name r == name) && component_has_attr t k (λ a, (ar_name a == regionAttrName) && (ar_value a == region))).
  apply (first_exists component_cols component_Table component_FieldID component_Label
    [component_NameEQ name; component_HasAttributesWith [componentattr_NameEQ regionAttrName; componentattr_ValueEQ region]] p t (t_component t)); [done|].
  intros k r. apply holds_name_attrs. intros i a. rewrite holds_split. f_equal; by apply (holds_eq VString).
Qed.

Lemma first_by_id_all (l : list (Z * columns)) seen : NoDup l.*1 → (∀ k, k ∈ l.*1 → k ∉ seen) → first_by_id seen l = l.
Proof.
  revert seen. induction l as [|r l IH]; intros seen Hnd Hs; [done|]. cbn in *. apply NoDup_cons in Hnd as [Hn Hnd].
  rewrite bool_decide_eq_false_2 by (apply Hs; left). f_equal. apply IH; [done|]. intros k Hk [->|?]%elem_of_cons; [done|].
  apply (Hs k); [by right|done].
Qed.

Lemma stored_components_read t id : (∀ c, (id, c) ∈ t_rel t → is_Some (t_incident t !! id)) →
  ComponentQuery_IDs t (IncidentClient_Query cfg ▷ IncidentQuery_Where [incident_IDEQ id] ▷ IncidentQuery_QueryComponents)
  = inr (stored_components t id).
Proof.
  intros Hfk. unfold ComponentQuery_IDs, prepared. cbv zeta. change (ComponentQuery_prepareQuery _) with (@None ent_error). cbv iota.
  change (ComponentQuery_sqlQuery _) with (mkSelector component_Table [component_FieldID]
    (Some (incident_newComponentsStep, mkSelector incident_Table incident_Columns None false [incident_IDEQ id] [] None None)) true [] [] None None).
  cbn [g_SelectRows tables_reader tables_select selector_rows]. change (table_rows _ t) with (by_id incident_cols (t_incident t)).
  unfold by_id. rewrite filterb_fmap, paged_all. cbn [ordered fmap option_fmap option_map]. rewrite paged_all.
  change (filterb _ (rows (t_incident t))) with (holding incident_cols [incident_IDEQ id] t (t_incident t)).
  unfold incident_IDEQ. rewrite holding_id by done. rewrite filterb_true_id by done. unfold stored_components.
  destruct (t_incident t !! id) as [r|] eqn:Hr.
  - change (flat_map _ _) with (neighbours t incident_newComponentsStep id ++ []). rewrite app_nil_r.
    change (neighbours _ _ _) with (with_cols component_cols
      <$> filterb (λ kr : Z * ComponentRow, bool_decide ((id, kr.1) ∈ t_rel t)) (rows (t_component t))).
    rewrite first_by_id_all; [by rewrite filterb_fmap, <- !list_fmap_compose| |by intros k _ ?%not_elem_of_nil].
    rewrite <- list_fmap_compose. apply NoDup_filterb_keys, NoDup_rows_keys.
  - rewrite filterb_false_nil; [done|]. intros c _. apply bool_decide_eq_false. intros Hin. destruct (Hfk c Hin). congruence.
Qed.

Lemma stored_components_refines E w id : (∀ c, (id, c) ∈ t_rel (w_tab w) → is_Some (t_incident (w_tab w) !! id)) →
  Reads.stored_components cfg id E w = select (λ t, stored_components t id) E w.
Proof.
  intros Hfk. unfold Reads.stored_components, query. rewrite bind_run, !select_run. destruct (fault_at _ _); [done|].
  by rewrite stored_components_read.
Qed.
End Refine.

(** ** Distinct values of an attribute *)

(** The collation of the server is a strict total order. *)
Class Collation `{Server} : Prop := {
  collate_irrefl s : collate_lt s s = false;
  collate_trans a b c : collate_lt a b = true → collate_lt b c = true → collate_lt a c = true;
  collate_total a b : a ≠ b → collate_lt a b = true ∨ collate_lt b a = true }.

Section Distinct.
Context `{Collation} (cfg : config).

(** The order of the rows of such a query. *)
Definition collate_le (a b : string) : Prop := collate_lt b a = false.
#[local] Instance collate_le_dec : RelDecision collate_le.
Proof. intros a b. unfold collate_le. apply _. Defined.

Lemma collate_asym a b : collate_lt a b = true → collate_lt b a = false.
Proof.
  intros Hab. destruct (collate_lt b a) eqn:Hba; [|done].
  pose proof (collate_trans a b a Hab Hba) as Haa. by rewrite collate_irrefl in Haa.
Qed.

#[local] Instance collate_le_total : Total collate_le.
Proof. intros a b. unfold collate_le. destruct (collate_lt b a) eqn:E; [right; by apply collate_asym|by left]. Qed.
#[local] Instance collate_le_trans : Transitive collate_le.
Proof.
  intros a b c. unfold collate_le. intros Hab Hbc. destruct (collate_lt c a) eqn:Hca; [|done].
  destruct (decide (b = c)) as [->|Hne]; [congruence|].
  destruct (collate_total b c Hne) as [Hlt|Hlt]; [|congruence].
  rewrite (collate_trans b c a Hlt Hca) in Hab. done.
Qed.

Lemma distinct_after_spec previous values : StronglySorted collate_le (previous :: values) →
  NoDup (previous :: Reads.distinct_after previous values)
  ∧ ∀ v, v ∈ previous :: Reads.distinct_after previous values ↔ v ∈ previous :: values.
Proof.
  revert previous. induction values as [|v values IH]; intros previous Hs; cbn [Reads.distinct_after].
  { split; [apply NoDup_singleton|done]. }
  apply StronglySorted_inv in Hs as [Hs Hle]. destruct (IH v Hs) as [Hnd Hin].
  case_bool_decide as Heq; [subst v; split; [done|]; intros x; rewrite Hin; set_solver|].
  split; [|intros x; rewrite elem_of_cons, Hin; by rewrite (elem_of_cons (v :: values))].
  constructor; [|done]. rewrite Hin. intros Hp. rewrite Forall_forall in Hle.
  apply elem_of_cons in Hp as [->|Hp]; [done|].
  apply StronglySorted_inv in Hs as [_ Hv]. rewrite Forall_forall in Hv.
  specialize (Hv _ Hp). specialize (Hle v (list_elem_of_here _ _)). unfold collate_le in *.
  destruct (collate_total previous v Heq); congruence.
Qed.

Lemma distinct_values_spec values : StronglySorted collate_le values →
  NoDup (Reads.distinct_values values) ∧ ∀ v, v ∈ Reads.distinct_values values ↔ v ∈ values.
Proof. destruct values as [|v values]; [intros _; split; [constructor|done]|apply distinct_after_spec]. Qed.

Lemma ordered_text {R} (cols : Z → R → columns) c (key : R → string) (Q : relation (Z * R)) `{!RelDecision Q} l :
  (∀ k r, cols k r c = Some (VString (key r))) → (∀ a b, Q a b ↔ collate_le (key a.2) (key b.2)) →
  ordered [OrderBy c false] (with_cols cols <$> l) = with_cols cols <$> merge_sort Q l.
Proof.
  intros Hc HQ. apply merge_sort_fmap. intros a b. rewrite HQ. unfold order_rel, collate_le. cbn. rewrite !Hc.
  cbn [null_lt value_lt]. destruct (collate_lt (key a.2) (key b.2)) eqn:Hab; [by rewrite (collate_asym _ _ Hab)|].
  by destruct (collate_lt (key b.2) (key a.2)).
Qed.

Definition named_attrs (name : string) (t : Tables) : list (Z * AttrRow) :=
  filterb (λ ka : Z * AttrRow, ar_name ka.2 == name) (rows (t_attr t)).
Definition value_order (a b : Z * AttrRow) : Prop := collate_le (ar_value a.2) (ar_value b.2).
#[local] Instance value_order_total : Total value_order.
Proof. intros a b. apply (total collate_le). Qed.
#[local] Instance value_order_trans : Transitive value_order.
Proof. intros a b c. unfold value_order. by etrans. Qed.
#[local] Instance value_order_dec : RelDecision value_order.
Proof. intros a b. unfold value_order. apply _. Defined.

(** The query selects the value only: the other fields of the nodes are zero. *)
Lemma attr_values_all t name :
  ComponentAttrQuery_All t (ComponentAttrClient_Query cfg
    ▷ ComponentAttrQuery_Where [componentattr_NameEQ name] ▷ ComponentAttrQuery_Select [componentattr_FieldValue]
    ▷ ComponentAttrQuery_Order [componentattr_ByValue false])
  = inr ((λ ka : Z * AttrRow, mkComponentAttrTree (mkComponentAttrNode ka.1 0 "" (ar_value ka.2)) None)
           <$> merge_sort value_order (named_attrs name t)).
Proof.
  set (q := ComponentAttrQuery_Order _ _). change q with (mkComponentAttrQuery (ComponentAttrQuery_base q) None).
  unfold ComponentAttrQuery_All, prepared. change (ComponentAttrQuery_prepareQuery _) with (@None ent_error). cbv iota.
  cbn [ComponentAttrQuery_sqlAll].
  rewrite (query_plain attr_cols (λ k r, mkComponentAttrNode k 0 "" (ar_value r)) _ _ t (t_attr t)
    [componentattr_NameEQ name] [componentattr_ByValue false] 0 0 (merge_sort value_order (named_attrs name t)));
    [|done|done|done|].
  - change (nonzero 0) with (@None Z). rewrite paged_all. destruct (merge_sort _ _) as [|ka l]; [done|].
    cbn [fmap list_fmap loaded]. rewrite imap_no_edge. cbn [fmap list_fmap]. by rewrite <- list_fmap_compose.
  - assert (holding attr_cols [componentattr_NameEQ name] t (t_attr t) = named_attrs name t) as ->.
    { apply filterb_ext. intros [k r] _. by apply (holds_eq VString). }
    by apply (ordered_text attr_cols _ ar_value value_order).
Qed.

(** The operation returns each stored value of the attribute once. *)
Lemma GetUniqueAttributeValues_spec name E w : fault_at E (w_stmt w) = false →
  ∃ l w', Reads.GetUniqueAttributeValues cfg name E w = (Ret l, w') ∧ w_tab w' = w_tab w ∧ NoDup l
    ∧ ∀ v, v ∈ l ↔ ∃ k r, t_attr (w_tab w) !! k = Some r ∧ ar_name r = name ∧ ar_value r = v.
Proof.
  intros Hf. unfold Reads.GetUniqueAttributeValues, query. rewrite bind_run, bind_run, select_run, Hf, attr_values_all.
  do 2 eexists. split; [reflexivity|]. split; [done|].
  rewrite <- list_fmap_compose. set (l := merge_sort value_order (named_attrs name (w_tab w))).
  assert (StronglySorted collate_le ((λ ka : Z * AttrRow, ar_value ka.2) <$> l)) as Hs.
  { apply (StronglySorted_fmap (λ ka : Z * AttrRow, ar_value ka.2) value_order collate_le); [done|].
    apply (StronglySorted_merge_sort value_order). }
  destruct (distinct_values_spec _ Hs) as [Hnd Hin]. split; [done|]. intros v. rewrite Hin, list_elem_of_fmap.
  unfold l. setoid_rewrite merge_sort_Permutation. unfold named_attrs. setoid_rewrite elem_of_filterb. split.
  - intros ([k r] & -> & Hk%elem_of_rows & Hn%bool_decide_eq_true). eauto.
  - intros (k & r & Hk & Hn & <-). exists (k, r). split; [done|]. split; [by apply elem_of_rows|by apply bool_decide_eq_true].
Qed.
End Distinct.
