(* ===== verification/Notify.v ===== *)
(** * Notifications: recipients, publishing, rendering, delivery

    [internal/notification]: [notification.go] (configuration, kinds, back-off),
    [resolver.go], [publisher.go], [renderer.go] with its two templates, [smtp.go] and
    [worker.go].  The mail library is the environment's [mail_at]; the random spread of
    a delay (floating point in [withJitter]) is its [jitter_at].  A nil [*Publisher] is
    [None]. *)

From S2P Require Import Prelude GoStrings GoTime Errors Event Models Store Queries Writes Integrity Outbox.
Local Open Scope Z_scope.

Definition ActorChecker : string := "checker".
Definition maxBackoff : Z := 2 * Hour.

(** The settings [ConfigFromConf] parsed. *)
Record Config := mkConfig {
  cfg_Enabled : bool; cfg_From : string; cfg_Host : string; cfg_Port : Z; cfg_User : string;
  cfg_Password : string; cfg_TLS : bool; cfg_Timeout : Z; cfg_LeaseTimeout : Z; cfg_MaxAttempts : Z;
  cfg_BackoffBase : Z; cfg_ReviewSMOD : string; cfg_ReviewOperators : list string;
  cfg_ReviewAdmins : list string; cfg_AllowedDomains : list string;
  cfg_ExcludedEmails : list string; cfg_BaseURL : string }.

Definition KindForStatus (status : Status) : string :=
  if status == MaintenancePendingReview then NotificationKindPendingReview
  else if status == MaintenanceReviewed then NotificationKindReviewed
  else NotificationKindStatusChanged.

Definition isReviewStatus (status : Status) : bool :=
  (status == MaintenancePendingReview) || (status == MaintenanceReviewed).

(** The loop [for i := 1; i < attempts; i++] of [Backoff]. *)
Fixpoint backoff_loop (rounds : nat) (delay : Z) : Z :=
  match rounds with
  | O => delay
  | S rounds =>
    let delay := int64 (delay * 2) in
    if maxBackoff <=? delay then maxBackoff else backoff_loop rounds delay
  end.

Definition backoff_delay (base attempts : Z) : Z :=
  let delay := backoff_loop (Z.to_nat (attempts - 1)) base in
  if maxBackoff <? delay then maxBackoff else delay.

Definition withJitter (d : Z) : M Z := j ← reading jitter_at; mret (j d).

Definition Backoff (base : Z) (attempts : Z) : M Z :=
  n ← now; d ← withJitter (backoff_delay base attempts); mret (n + d).

Definition normalizeEmail (e : string) : string := ToLower (TrimSpace e).

Definition splitEmails (raw : string) : list string :=
  filterb (λ e, e != ""%string) (normalizeEmail <$> Split raw ",").

Definition allowedDomain (allowed : list string) (email : string) : bool :=
  match allowed with
  | [] => true
  | _ => match after_last email "@" with
         | None => false
         | Some domain => bool_decide (normalizeEmail domain ∈ allowed)
         end
  end.

(** ** Resolver *)

Record Change := mkChange {
  ch_IncidentID : Z; ch_Title : string; ch_OldStatus : Status; ch_NewStatus : Status;
  ch_ContactEmail : string; ch_Actor : string; ch_ChangedAt : Z }.

Record Resolver := mkResolver {
  rv_smod : string; rv_operators : list string; rv_admins : list string;
  rv_excluded : gset string; rv_allowed : list string; rv_baseURL : string }.

Definition NewResolver (cfg : Config) : Resolver :=
  mkResolver (cfg_ReviewSMOD cfg) (cfg_ReviewOperators cfg) (cfg_ReviewAdmins cfg)
    (list_to_set (normalizeEmail <$> cfg_ExcludedEmails cfg)) (cfg_AllowedDomains cfg)
    (cfg_BaseURL cfg).

(** The closure [add] with the list it builds; [seen] holds the same addresses. *)
Definition add_recipient (r : Resolver) (ordered : list string) (raw : string) : list string :=
  let e := normalizeEmail raw in
  if e == ""%string then ordered
  else if bool_decide (e ∈ rv_excluded r) then ordered
  else if bool_decide (e ∈ ordered) then ordered
  else ordered ++ [e].

Definition Recipients (r : Resolver) (status : Status) (contactEmail : string) : list string :=
  let l1 := if isReviewStatus status
            then foldl (add_recipient r)
                   (foldl (add_recipient r) (add_recipient r [] (rv_smod r)) (rv_operators r))
                   (rv_admins r)
            else [] in
  if allowedDomain (rv_allowed r) contactEmail then add_recipient r l1 contactEmail else l1.

Definition DedupKey (incidentID : Z) (kind : string) (oldStatus newStatus : Status)
    (recipient : string) : string :=
  (Itoa incidentID +:+ ":" +:+ kind +:+ ":" +:+ oldStatus +:+ ">" +:+ newStatus +:+ ":" +:+ recipient)%string.

Definition link (r : Resolver) (incidentID : Z) : string :=
  (rv_baseURL r +:+ "/incidents/" +:+ Itoa incidentID)%string.

Definition buildPayload (ch : Change) (changedAt : Z) (link : string) : gmap string json_value :=
  {[ "incident_id"%string := JString (Itoa (ch_IncidentID ch));
     "title"%string := JString (ch_Title ch);
     "old_status"%string := JString (ch_OldStatus ch);
     "new_status"%string := JString (ch_NewStatus ch);
     "actor"%string := JString (ch_Actor ch);
     "changed_at"%string := JString (RFC3339 changedAt);
     "link"%string := JString link ]}.

(** One pending row of a change. *)
Definition outbox_row (ch : Change) (payload : gmap string json_value) (changeID : string)
    (rcpt : string) : NotificationOutbox :=
  let kind := KindForStatus (ch_NewStatus ch) in
  mkOutbox 0 kind (ch_IncidentID ch) rcpt payload changeID
    (DedupKey (ch_IncidentID ch) kind (ch_OldStatus ch) (ch_NewStatus ch) rcpt)
    NotificationStatusPending 0 None None None None zero_time zero_time.

Definition BuildRows (r : Resolver) (ch : Change) : M (list NotificationOutbox) :=
  match Recipients r (ch_NewStatus ch) (ch_ContactEmail ch) with
  | [] => mret []
  | recipients =>
    changeID ← uuid;
    changedAt ← (if IsZero (ch_ChangedAt ch) then now else mret (ch_ChangedAt ch));
    let payload := buildPayload ch changedAt (link r (ch_IncidentID ch)) in
    mret (outbox_row ch payload changeID <$> recipients)
  end.

(** ** Publisher *)

Record Publisher := mkPublisher {
  pub_enabled : bool; pub_resolver : Resolver; pub_allowedDomains : list string;
  pub_notify : bool (* the wake-up callback is wired *) }.

Definition NewPublisher (cfg : Config) : Publisher :=
  mkPublisher (cfg_Enabled cfg) (NewResolver cfg) (cfg_AllowedDomains cfg) false.

Definition AllowsDomain (p : option Publisher) (email : string) : bool :=
  match p with
  | None => true
  | Some p => if negb (pub_enabled p) then true else allowedDomain (pub_allowedDomains p) email
  end.

Definition AllowedDomains (p : option Publisher) : list string :=
  match p with None => [] | Some p => pub_allowedDomains p end.

Definition SetNotify (p : option Publisher) : option Publisher :=
  (λ p, mkPublisher (pub_enabled p) (pub_resolver p) (pub_allowedDomains p) true) <$> p.

Definition Enabled (p : option Publisher) : bool :=
  match p with None => false | Some p => pub_enabled p end.

Definition Notify (p : option Publisher) : M unit :=
  match p with
  | None => mret tt
  | Some p => if negb (pub_enabled p) || negb (pub_notify p) then mret tt else wake
  end.

(** A duplicate is skipped, any other error ends the transaction. *)
Definition enqueue_all (rows : list NotificationOutbox) : M unit :=
  foldM (λ _ row,
    r ← try (Enqueue true row);
    match r with
    | inl e => if decide (e = EDb ErrNotificationDuplicate) then mret tt else throw e
    | inr _ => mret tt
    end) tt rows.

Definition PublishTx (p : option Publisher) (ch : Change) : M unit :=
  match p with
  | None => mret tt
  | Some pub =>
    if negb (pub_enabled pub) then mret tt
    else rows ← BuildRows (pub_resolver pub) ch; enqueue_all rows
  end.

(** ** Renderer *)

Definition payloadString (payload : gmap string json_value) (key : string) : string :=
  match payload !! key with Some (JString s) => s | _ => "" end.

Definition describe (oldStatus newStatus : string) : string * string :=
  if oldStatus != ""%string then (newStatus, "changed status"%string)
  else if newStatus == MaintenancePendingReview
       then ("awaiting review", "has been submitted for review")%string
       else ("scheduled", "has been scheduled")%string.

Record Email := mkEmail { em_Subject : string; em_Body : string }.

Definition newline : string := String (ascii_of_nat 10) "".
Definition quote : string := String (ascii_of_nat 34) "".
(** The dash of the subject template, U+2014 in UTF-8. *)
Definition em_dash : string := bytes [226%N; 128%N; 148%N].

(** [templates/subject.tmpl]. *)
Definition subject_tmpl (title state : string) : string :=
  ("[Maintenance] " +:+ title +:+ " " +:+ em_dash +:+ " " +:+ state +:+ newline)%string.

(** [templates/body.tmpl]. *)
Definition body_tmpl (title incidentID headline oldStatus newStatus actor changedAt link : string) : string :=
  ("Maintenance " +:+ quote +:+ title +:+ quote +:+ " (event #" +:+ incidentID +:+ ") " +:+ headline
   +:+ "." +:+ newline +:+ newline
   +:+ (if oldStatus == ""%string then "Status: " +:+ newStatus
        else "Status: " +:+ oldStatus +:+ " -> " +:+ newStatus)
   +:+ newline
   +:+ (if oldStatus == ""%string then "Created by" else "Changed by") +:+ ": " +:+ actor +:+ newline
   +:+ "Time (UTC): " +:+ changedAt +:+ newline +:+ newline
   +:+ "Details: " +:+ link +:+ newline)%string.

Definition Render (row : NotificationOutbox) : Email :=
  let get := payloadString (no_Payload row) in
  let oldStatus := get "old_status"%string in
  let newStatus := get "new_status"%string in
  let '(state, headline) := describe oldStatus newStatus in
  mkEmail (TrimSpace (subject_tmpl (get "title"%string) state))
    (body_tmpl (get "title"%string) (get "incident_id"%string) headline oldStatus newStatus
       (get "actor"%string) (get "changed_at"%string) (get "link"%string)).

(** ** Sender and worker *)

(** An error of one delivery: its text, and whether it wraps [ErrPermanentDelivery]. *)
Record send_err := mkSendErr { se_permanent : bool; se_text : string }.

Definition smtpPermanentFrom : Z := 500.
Definition smtpPermanentTo : Z := 600.

Definition isPermanent (temp : bool) (code : Z) : bool :=
  negb temp && (smtpPermanentFrom <=? code) && (code <? smtpPermanentTo).

(** [NewSMTPSender]: the options handed to the mail library, whose [NewClient] accepts them
    or not. *)
Inductive TLSPolicy := TLSMandatory | TLSOpportunistic.
Inductive SMTPAuthType := SMTPAuthAutoDiscover | SMTPAuthNoAuth.
Inductive mail_option :=
| WithPort (port : Z) | WithTimeout (d : Z) | WithTLSPolicy (p : TLSPolicy)
| WithSMTPAuth (a : SMTPAuthType) | WithUsername (user : string) | WithPassword (password : string).

Definition tlsPolicy (enabled : bool) : TLSPolicy := if enabled then TLSMandatory else TLSOpportunistic.

Record smtpSender := mkSender { ss_host : string; ss_options : list mail_option; ss_from : string }.

Definition NewSMTPSender (NewClient : string → list mail_option → bool) (cfg : Config) : option smtpSender :=
  let opts := [WithPort (cfg_Port cfg); WithTimeout (cfg_Timeout cfg); WithTLSPolicy (tlsPolicy (cfg_TLS cfg))] in
  let opts := if cfg_User cfg != ""%string
              then opts ++ [WithSMTPAuth SMTPAuthAutoDiscover; WithUsername (cfg_User cfg);
                            WithPassword (cfg_Password cfg)]
              else opts ++ [WithSMTPAuth SMTPAuthNoAuth] in
  if NewClient (cfg_Host cfg) opts then Some (mkSender (cfg_Host cfg) opts (cfg_From cfg)) else None.

(** [Send] under the recover guard of [sendGuarded]; [None] is a delivered mail. *)
Definition sendGuarded (row : NotificationOutbox) : M (option send_err) :=
  let email := Render row in
  f ← reading mail_at;
  mret match f (no_Recipient row) (em_Subject email) (em_Body email) with
       | MailOK => None
       | MailBadFrom t => Some (mkSendErr false ("set from: " +:+ t))
       | MailBadRecipient t => Some (mkSendErr false ("set recipient: " +:+ t))
       | MailTransport t => Some (mkSendErr false ("send mail: " +:+ t))
       | MailReply temp code t =>
         if isPermanent temp code
         then Some (mkSendErr true ("send mail: permanent delivery failure: " +:+ t))
         else Some (mkSendErr false ("send mail: " +:+ t))
       | MailPanic t => Some (mkSendErr false ("panic sending notification: " +:+ t))
       end.

(** The renderer, the sender and the timeout of a send are in [sendGuarded] and its
    environment; [batchSize] is always [claimBatchSize]. *)
Record Worker := mkWorker {
  wk_leaseOwner : string; wk_leaseTimeout : Z; wk_maxAttempts : Z; wk_backoffBase : Z }.

Definition claimBatchSize : Z := 1.
Definition retentionAge : Z := 30 * Day.
Definition retentionBatch : Z := 500.

Definition NewWorker (cfg : Config) (leaseOwner : string) : Worker :=
  mkWorker leaseOwner (cfg_LeaseTimeout cfg) (cfg_MaxAttempts cfg) (cfg_BackoffBase cfg).

(** A failed status write is logged and dropped. *)
Definition quietly {A} (m : M A) : M unit := _ ← try m; mret tt.

Definition markFailure (wk : Worker) (id : Z) (e : send_err) : M unit :=
  quietly (if se_permanent e then MarkFailedTerminal false id (se_text e)
           else MarkFailed false id (se_text e) (wk_maxAttempts wk) (Backoff (wk_backoffBase wk))).

Definition deliver (wk : Worker) (row : NotificationOutbox) : M unit :=
  r ← sendGuarded row;
  match r with
  | Some e => markFailure wk (no_ID row) e
  | None => quietly (MarkSent false (no_ID row))
  end.

(** One round of the loop: [false] when nothing was due. *)
Definition drain_round (wk : Worker) : M bool :=
  cancelled ← ctx_done;
  if cancelled : bool then throw (EMsg "context canceled")
  else
    rows ← ClaimPending false claimBatchSize (wk_leaseOwner wk);
    match rows with
    | [] => mret false
    | _ =>
      _ ← mapM (λ row,
            cancelled ← ctx_done;
            if cancelled : bool then throw (EMsg "context canceled") else deliver wk row) rows;
      mret true
    end.

(** The result says whether the loop ended; [false] is an exhausted fuel. *)
Fixpoint drain_loop (fuel : nat) (wk : Worker) : M bool :=
  match fuel with
  | O => mret false
  | S fuel =>
    more ← drain_round wk;
    if more : bool then drain_loop fuel wk else mret true
  end.

(** How many more deliveries the rows of the queue can ask for. *)
Definition row_work (maxAttempts : Z) (r : OutboxRow) : nat :=
  if or_status r == NotificationStatusPending
  then S (Z.to_nat (maxAttempts - or_attempts r)) else O.
Definition queue_work (maxAttempts : Z) (m : gmap Z OutboxRow) : nat :=
  map_fold (λ _ r acc, (row_work maxAttempts r + acc)%nat) O m.

Definition Drain (wk : Worker) : M bool :=
  _ ← RecoverStaleProcessing false (wk_leaseTimeout wk) (wk_maxAttempts wk);
  t ← get_tab;
  drain_loop (S (queue_work (wk_maxAttempts wk) (t_outbox t))) wk.

(** [drainQuietly]: the error is logged. *)
Definition drainQuietly (wk : Worker) : M unit := quietly (Drain wk).

Definition RunRetention : M unit :=
  n ← now;
  _ ← DeleteSentBefore (n - retentionAge) retentionBatch;
  mret tt.

(** Credentials go to the relay only with a user, and the policy is the configured one. *)
Lemma NewSMTPSender_options NewClient cfg s :
  NewSMTPSender NewClient cfg = Some s →
  ss_from s = cfg_From cfg ∧ NewClient (cfg_Host cfg) (ss_options s) = true
  ∧ (WithTLSPolicy TLSMandatory ∈ ss_options s ↔ cfg_TLS cfg = true)
  ∧ (WithSMTPAuth SMTPAuthNoAuth ∈ ss_options s ↔ cfg_User cfg = ""%string)
  ∧ ∀ p, WithPassword p ∈ ss_options s ↔ cfg_User cfg ≠ ""%string ∧ p = cfg_Password cfg.
Proof.
  unfold NewSMTPSender. case_bool_decide as Hu; cbn [negb]; destruct (NewClient _ _) eqn:Hc; intros [= <-];
    cbn [ss_from ss_options app]; (split; [done|split; [done|]]); unfold tlsPolicy;
    repeat setoid_rewrite elem_of_cons; repeat setoid_rewrite elem_of_nil;
    destruct (cfg_TLS cfg); naive_solver.
Qed.

(** The delay loop on a base of thirty minutes: 30m, 1h, 2h, 2h. *)
Example backoff_example :
  map (backoff_delay (30 * Minute)) [1; 2; 3; 4] = [30 * Minute; Hour; 2 * Hour; 2 * Hour].
Proof. reflexivity. Qed.
