(* ===== verification/Conf.v ===== *)
(** * Configuration

    [internal/conf/conf.go] and [notification.ConfigFromConf]: the settings, how the
    environment and a .env file are merged, the defaults, the checks, and the parsed
    notification settings the worker runs with.  [envconfig.Process] and
    [godotenv.Read] are third-party: [LoadConf] takes what they returned.
    [net/mail.ParseAddress] is a parameter, and so is the order in which Go ranges over
    a map.  The error texts are constructors; the details a parser adds are left out. *)

From S2P Require Import Prelude GoStrings GoTime GoFloat Notify.
Local Open Scope Z_scope.

Definition osPref : string := "SD".
Definition DevelopMode : string := "devel".
Definition DefaultPort : string := "8000".
Definition DefaultMetricsPort : string := "9090".
Definition DefaultOpenAPISpecPath : string := "openapi.yaml".
Definition MaxPortNumber : Z := 65535.
Definition DefaultSMTPTimeout : string := "30s".
Definition DefaultLeaseTimeout : string := "60s".
Definition DefaultMaxAttempts : string := "5".
Definition DefaultBackoffInterval : string := "5m".
Definition DefaultStaticCacheTTL : string := "5m".
Definition DefaultStaticCacheMaxBytes : string := "67108864".

(** ** Structs *)

Record OIDC := mkOIDC { oidc_Issuer : string; oidc_ClientID : string; oidc_UsernameClaim : string }.
Record RBACConfig := mkRBAC {
  rb_Creators : string; rb_Operators : string; rb_Admins : string; rb_Reporters : string }.
Record SMTPConfig := mkSMTP {
  sm_Host : string; sm_Port : string; sm_From : string; sm_User : string; sm_Password : string;
  sm_TLS : bool; sm_Timeout : string }.
Record NotificationsConfig := mkNotifications {
  nt_Enabled : bool; nt_LeaseTimeout : string; nt_MaxAttempts : string; nt_BackoffInterval : string;
  nt_SmodEmail : string; nt_EmailsOperators : string; nt_EmailsAdmins : string;
  nt_AllowedDomains : string; nt_ExcludedEmails : string }.
Record Static := mkStatic { st_Origins : string; st_CacheTTL : string; st_CacheMaxBytes : string }.

(** [conf.Config]. *)
Record Settings := mkSettings {
  s_DB : string; s_Cache : string; s_OIDC : OIDC; s_LogLevel : string; s_Port : string;
  s_MetricsPort : string; s_WebURL : string; s_OpenAPISpecPath : string; s_RBAC : RBACConfig;
  s_SMTP : SMTPConfig; s_Notifications : NotificationsConfig; s_Static : Static }.

Inductive conf_err :=
| WrongPortFormat | WrongPort | WrongMetricsPort | MetricsPortShared | OIDCRequired | AdminsRequired
| SMTPRequired | WrongSMTPPort | InvalidSMTPFrom (from : string)
| ReviewAddressRequired | InvalidAddress (env addr : string) | InvalidDomain (env domain : string)
| InvalidSMTPTimeout | InvalidLeaseTimeout | LeaseNotAboveTimeout (lease timeout : Z)
| WrongMaxAttempts | InvalidBackoffInterval
| WrongOrigin (origin : string) | WrongTTLFormat | WrongTTLValue | WrongMaxBytesFormat | WrongMaxBytesValue
| EnvProcessFailed.
#[global] Instance conf_err_eq_dec : EqDecision conf_err.
Proof. solve_decision. Defined.

(** [if err := a; err != nil { return err }; b]. *)
Definition and_then (a b : option conf_err) : option conf_err :=
  match a with Some e => Some e | None => b end.
Notation "a ;;! b" := (and_then a b) (at level 60, right associativity) : go_scope.
(** [if bad { return e }]. *)
Definition guard_err (bad : bool) (e : conf_err) : option conf_err := if bad then Some e else None.

(** ** Static proxy settings *)

(** The loop over the comma-separated origins. *)
Fixpoint origins_of (fields : list string) : conf_err + list string :=
  match fields with
  | [] => inr []
  | field :: fields =>
    let origin := TrimSpace field in
    if origin == ""%string then origins_of fields
    else if ContainsAny origin ["/"; "?"; "#"; "@"; ":"; " "; "009"]%char then inl (WrongOrigin origin)
    else match origins_of fields with inl e => inl e | inr l => inr (origin :: l) end
  end.
Definition OriginList (s : Static) : conf_err + list string := origins_of (Split (st_Origins s) ",").

Definition TTL (s : Static) : conf_err + Z :=
  match ParseDuration (st_CacheTTL s) with
  | None => inl WrongTTLFormat
  | Some ttl => if ttl <=? 0 then inl WrongTTLValue else inr ttl
  end.

Definition MaxBytes (s : Static) : conf_err + Z :=
  match Atoi (st_CacheMaxBytes s) with
  | None => inl WrongMaxBytesFormat
  | Some maxBytes => if maxBytes <=? 0 then inl WrongMaxBytesValue else inr maxBytes
  end.

Definition Static_Validate (s : Static) : option conf_err :=
  match OriginList s with
  | inl e => Some e
  | inr [] => None
  | inr _ => match TTL s with
             | inl e => Some e
             | inr _ => match MaxBytes s with inl e => Some e | inr _ => None end
             end
  end.

(** ** Defaults *)

Definition or_default (s d : string) : string := if s == ""%string then d else s.

Definition FillDefaults (c : Settings) : Settings :=
  let sm := s_SMTP c in
  let nt := s_Notifications c in
  let st := s_Static c in
  let on := nt_Enabled nt in
  mkSettings (s_DB c) (s_Cache c) (s_OIDC c) (or_default (s_LogLevel c) DevelopMode)
    (or_default (s_Port c) DefaultPort) (or_default (s_MetricsPort c) DefaultMetricsPort) (s_WebURL c)
    (or_default (s_OpenAPISpecPath c) DefaultOpenAPISpecPath) (s_RBAC c)
    (mkSMTP (sm_Host sm) (sm_Port sm) (sm_From sm) (sm_User sm) (sm_Password sm) (sm_TLS sm)
       (if on then or_default (sm_Timeout sm) DefaultSMTPTimeout else sm_Timeout sm))
    (mkNotifications on
       (if on then or_default (nt_LeaseTimeout nt) DefaultLeaseTimeout else nt_LeaseTimeout nt)
       (if on then or_default (nt_MaxAttempts nt) DefaultMaxAttempts else nt_MaxAttempts nt)
       (if on then or_default (nt_BackoffInterval nt) DefaultBackoffInterval else nt_BackoffInterval nt)
       (nt_SmodEmail nt) (nt_EmailsOperators nt) (nt_EmailsAdmins nt) (nt_AllowedDomains nt)
       (nt_ExcludedEmails nt))
    (mkStatic (st_Origins st) (or_default (st_CacheTTL st) DefaultStaticCacheTTL)
       (or_default (st_CacheMaxBytes st) DefaultStaticCacheMaxBytes)).

(** ** Checks *)

Definition validateMetricsPort (apiPort : Z) (c : Settings) : option conf_err :=
  if s_MetricsPort c == ""%string then None
  else match Atoi (s_MetricsPort c) with
       | None => Some WrongMetricsPort
       | Some p => if (p <? 1024) || (MaxPortNumber <? p) then Some WrongMetricsPort
                   else guard_err (p == apiPort) MetricsPortShared
       end.

Definition RBAC_Validate (r : RBACConfig) : option conf_err :=
  guard_err (rb_Admins r == ""%string) AdminsRequired.

(** [strings.ContainsAny(domain, "@ ") || !strings.Contains(domain, ".")]. *)
Definition bad_domain (domain : string) : bool :=
  ContainsAny domain ["@"; " "]%char || negb (Contains domain ".").

Fixpoint validate_domains (envName : string) (parts : list string) : option conf_err :=
  match parts with
  | [] => None
  | part :: parts =>
    let domain := TrimSpace part in
    if domain == ""%string then validate_domains envName parts
    else if bad_domain domain then Some (InvalidDomain envName domain)
    else validate_domains envName parts
  end.
Definition validateDomainList (envName raw : string) : option conf_err :=
  validate_domains envName (Split raw ",").

Section Checks.
(** [net/mail.ParseAddress]: whether a string is an RFC 5322 address. *)
Context (ParseAddress : string → bool).
(** The order in which a map is ranged over. *)
Context (range : list (string * string) → list (string * string)).

Fixpoint validate_addresses (envName : string) (parts : list string) : option conf_err :=
  match parts with
  | [] => None
  | part :: parts =>
    let addr := TrimSpace part in
    if addr == ""%string then validate_addresses envName parts
    else if ParseAddress addr then validate_addresses envName parts
    else Some (InvalidAddress envName addr)
  end.
Definition validateEmailList (envName raw : string) : option conf_err :=
  validate_addresses envName (Split raw ",").

Fixpoint validate_lists (lists : list (string * string)) : option conf_err :=
  match lists with
  | [] => None
  | (envName, raw) :: lists => validateEmailList envName raw ;;! validate_lists lists
  end.

Definition review_lists (nt : NotificationsConfig) : list (string * string) :=
  [("SD_NOTIFICATIONS_SMOD_EMAIL", nt_SmodEmail nt);
   ("SD_NOTIFICATIONS_EMAILS_OPERATORS", nt_EmailsOperators nt);
   ("SD_NOTIFICATIONS_EMAILS_ADMINS", nt_EmailsAdmins nt);
   ("SD_NOTIFICATIONS_EXCLUDED_EMAILS", nt_ExcludedEmails nt)]%string.

Definition validateReviewAudience (c : Settings) : option conf_err :=
  let nt := s_Notifications c in
  guard_err ((nt_SmodEmail nt == ""%string) && (nt_EmailsOperators nt == ""%string)
             && (nt_EmailsAdmins nt == ""%string)) ReviewAddressRequired
  ;;! validate_lists (range (review_lists nt))
  ;;! validateDomainList "SD_NOTIFICATIONS_ALLOWED_DOMAINS" (nt_AllowedDomains nt).

Definition validateSMTP (c : Settings) : option conf_err :=
  let sm := s_SMTP c in
  guard_err ((sm_Host sm == ""%string) || (sm_Port sm == ""%string) || (sm_From sm == ""%string))
    SMTPRequired
  ;;! match Atoi (sm_Port sm) with
      | None => Some WrongSMTPPort
      | Some port => guard_err ((port <? 1) || (MaxPortNumber <? port)) WrongSMTPPort
      end
  ;;! guard_err (negb (ParseAddress (sm_From sm))) (InvalidSMTPFrom (sm_From sm)).

Definition validateNotifications (c : Settings) : option conf_err :=
  let nt := s_Notifications c in
  if negb (nt_Enabled nt) then None
  else
    validateSMTP c ;;! validateReviewAudience c
    ;;! match ParseDuration (sm_Timeout (s_SMTP c)) with
        | None => Some InvalidSMTPTimeout
        | Some smtpTimeout =>
          match ParseDuration (nt_LeaseTimeout nt) with
          | None => Some InvalidLeaseTimeout
          | Some leaseTimeout =>
            guard_err (leaseTimeout <=? smtpTimeout) (LeaseNotAboveTimeout leaseTimeout smtpTimeout)
            ;;! match Atoi (nt_MaxAttempts nt) with
                | None => Some WrongMaxAttempts
                | Some attempts => guard_err (attempts <? 1) WrongMaxAttempts
                end
            ;;! match ParseDuration (nt_BackoffInterval nt) with
                | None => Some InvalidBackoffInterval
                | Some _ => None
                end
          end
        end.

Definition Validate (c : Settings) : option conf_err :=
  match Atoi (s_Port c) with
  | None => Some WrongPortFormat
  | Some p =>
    guard_err ((p <? 1024) || (50000 <? p)) WrongPort
    ;;! validateMetricsPort p c
    ;;! guard_err ((oidc_Issuer (s_OIDC c) == ""%string) || (oidc_ClientID (s_OIDC c) == ""%string))
          OIDCRequired
    ;;! RBAC_Validate (s_RBAC c)
    ;;! validateNotifications c
    ;;! Static_Validate (s_Static c)
  end.
End Checks.

(** ** Merging the .env file, by reflection over the struct *)

(** A struct value as [reflect] sees it: the name, the [envconfig] tag and the value of
    every field, in the order of the declaration. *)
Inductive fval :=
| VString (s : string)
| VBool (b : bool)
| VStruct (fields : list (string * string * fval)).
Notation field := (string * string * fval)%type.

Definition envKeyPart (name tag : string) : string := if tag != ""%string then tag else name.

Fixpoint merge_val (env : gmap string string) (prefix name tag : string) (v : fval) : fval :=
  match v with
  | VStruct fields =>
      let confPrefix := (prefix +:+ "_" +:+ envKeyPart name tag)%string in
      VStruct (map (λ f, (f.1.1, f.1.2, merge_val env confPrefix f.1.1 f.1.2 f.2)) fields)
  | VString s =>
      if s == ""%string
      then VString (default ""%string (env !! ToUpper (prefix +:+ "_" +:+ envKeyPart name tag)%string))
      else v
  | VBool b =>
      if negb b && (default ""%string (env !! ToUpper (prefix +:+ "_" +:+ envKeyPart name tag)%string)
                      == "true"%string)
      then VBool true else v
  end.

(** The loop over the fields; [None] is a nil map. *)
Definition mergeConfigs (env : option (gmap string string)) (obj : list field) (prefix : string)
  : list field :=
  match env with
  | None => obj
  | Some env => map (λ f, (f.1.1, f.1.2, merge_val env prefix f.1.1 f.1.2 f.2)) obj
  end.

(** The declarations of the structs, with their tags. *)
Section StructFields.
Local Open Scope string_scope.

Definition OIDC_fields (o : OIDC) : list field :=
  [("Issuer", "ISSUER", VString (oidc_Issuer o)); ("ClientID", "CLIENT_ID", VString (oidc_ClientID o));
   ("UsernameClaim", "USERNAME_CLAIM", VString (oidc_UsernameClaim o))].
Definition RBAC_fields (r : RBACConfig) : list field :=
  [("Creators", "ROLES_CREATORS", VString (rb_Creators r));
   ("Operators", "ROLES_OPERATORS", VString (rb_Operators r));
   ("Admins", "ROLES_ADMINS", VString (rb_Admins r));
   ("Reporters", "ROLES_REPORTERS", VString (rb_Reporters r))].
Definition SMTP_fields (s : SMTPConfig) : list field :=
  [("Host", "", VString (sm_Host s)); ("Port", "", VString (sm_Port s)); ("From", "", VString (sm_From s));
   ("User", "", VString (sm_User s)); ("Password", "", VString (sm_Password s));
   ("TLS", "", VBool (sm_TLS s)); ("Timeout", "", VString (sm_Timeout s))].
Definition Notifications_fields (n : NotificationsConfig) : list field :=
  [("Enabled", "", VBool (nt_Enabled n)); ("LeaseTimeout", "LEASE_TIMEOUT", VString (nt_LeaseTimeout n));
   ("MaxAttempts", "MAX_ATTEMPTS", VString (nt_MaxAttempts n));
   ("BackoffInterval", "BACKOFF_INTERVAL", VString (nt_BackoffInterval n));
   ("SmodEmail", "SMOD_EMAIL", VString (nt_SmodEmail n));
   ("EmailsOperators", "EMAILS_OPERATORS", VString (nt_EmailsOperators n));
   ("EmailsAdmins", "EMAILS_ADMINS", VString (nt_EmailsAdmins n));
   ("AllowedDomains", "ALLOWED_DOMAINS", VString (nt_AllowedDomains n));
   ("ExcludedEmails", "EXCLUDED_EMAILS", VString (nt_ExcludedEmails n))].
Definition Static_fields (s : Static) : list field :=
  [("Origins", "ORIGINS", VString (st_Origins s)); ("CacheTTL", "CACHE_TTL", VString (st_CacheTTL s));
   ("CacheMaxBytes", "CACHE_MAX_BYTES", VString (st_CacheMaxBytes s))].
Definition Settings_fields (c : Settings) : list field :=
  [("DB", "", VString (s_DB c)); ("Cache", "CACHE", VString (s_Cache c));
   ("OIDC", "OIDC", VStruct (OIDC_fields (s_OIDC c))); ("LogLevel", "LOG_LEVEL", VString (s_LogLevel c));
   ("Port", "PORT", VString (s_Port c)); ("MetricsPort", "METRICS_PORT", VString (s_MetricsPort c));
   ("WebURL", "WEB_URL", VString (s_WebURL c));
   ("OpenAPISpecPath", "OPENAPI_SPEC_PATH", VString (s_OpenAPISpecPath c));
   ("RBAC", "RBAC", VStruct (RBAC_fields (s_RBAC c))); ("SMTP", "SMTP", VStruct (SMTP_fields (s_SMTP c)));
   ("Notifications", "NOTIFICATIONS", VStruct (Notifications_fields (s_Notifications c)));
   ("Static", "STATIC", VStruct (Static_fields (s_Static c)))].
End StructFields.

(** The struct a list of field values stands for. *)
Definition Settings_of (fs : list field) : option Settings :=
  match map snd fs with
  | [VString db; VString cache; VStruct oidc; VString level; VString port; VString mport; VString web;
     VString spec; VStruct rbac; VStruct smtp; VStruct notif; VStruct static] =>
    match map snd oidc, map snd rbac, map snd smtp, map snd notif, map snd static with
    | [VString iss; VString cid; VString claim],
      [VString cr; VString op; VString ad; VString re],
      [VString host; VString sport; VString from; VString user; VString pass; VBool tls; VString tmo],
      [VBool en; VString lease; VString att; VString back; VString smod; VString ops; VString adm;
       VString dom; VString exc],
      [VString org; VString ttl; VString max] =>
        Some (mkSettings db cache (mkOIDC iss cid claim) level port mport web spec (mkRBAC cr op ad re)
          (mkSMTP host sport from user pass tls tmo)
          (mkNotifications en lease att back smod ops adm dom exc) (mkStatic org ttl max))
    | _, _, _, _, _ => None
    end
  | _ => None
  end.

(** [mergeConfigs] on a pointer to the settings. *)
Definition merge_settings (env : option (gmap string string)) (c : Settings) : option Settings :=
  Settings_of (mergeConfigs env (Settings_fields c) osPref).

(** [processed] is the outcome of [envconfig.Process], [envMap] of [godotenv.Read]. *)
Definition LoadConf (ParseAddress : string → bool)
    (range : list (string * string) → list (string * string))
    (envMap : option (gmap string string)) (processed : option Settings) : conf_err + Settings :=
  match processed with
  | None => inl EnvProcessFailed
  | Some c =>
    match merge_settings envMap c with
    | None => inl EnvProcessFailed
    | Some c =>
      let c := FillDefaults c in
      match Validate ParseAddress range c with Some e => inl e | None => inr c end
    end
  end.

(** ** [notification.ConfigFromConf] *)

Inductive notif_err :=
| BadSMTPPort | BadSMTPTimeout | BadLeaseTimeout | BadBackoffInterval | BadMaxAttempts.

Definition ConfigFromConf (c : Settings) : notif_err + Config :=
  let nt := s_Notifications c in
  let sm := s_SMTP c in
  let out port timeout lease attempts backoff :=
    mkConfig (nt_Enabled nt) (sm_From sm) (sm_Host sm) port (sm_User sm) (sm_Password sm) (sm_TLS sm)
      timeout lease attempts backoff (TrimSpace (nt_SmodEmail nt))
      (splitEmails (nt_EmailsOperators nt)) (splitEmails (nt_EmailsAdmins nt))
      (splitEmails (nt_AllowedDomains nt)) (splitEmails (nt_ExcludedEmails nt))
      (TrimRight (s_WebURL c) "/") in
  if negb (nt_Enabled nt) then inr (out 0 0 0 0 0)
  else match Atoi (sm_Port sm) with
  | None => inl BadSMTPPort
  | Some port =>
  match ParseDuration (sm_Timeout sm) with
  | None => inl BadSMTPTimeout
  | Some timeout =>
  match ParseDuration (nt_LeaseTimeout nt) with
  | None => inl BadLeaseTimeout
  | Some lease =>
  match ParseDuration (nt_BackoffInterval nt) with
  | None => inl BadBackoffInterval
  | Some backoff =>
  match Atoi (nt_MaxAttempts nt) with
  | None => inl BadMaxAttempts
  | Some attempts => inr (out port timeout lease attempts backoff)
  end end end end end.

(** ** Logging the settings *)

(** What the code uses of [net/url]: the scheme, the host and the decoded path of a parsed
    URL.  What is accepted as a host differs between releases of Go and is the parameter
    [parseHost]. *)
Module Url.
Record URL := mkURL { u_Scheme : string; u_Host : string; u_Path : string }.

(** [strings.Cut] at a byte: the part before it, and the part after it when it is there. *)
Fixpoint cut (c : ascii) (s : string) : string * option string :=
  match s with
  | EmptyString => (EmptyString, None)
  | String a s => if decide (a = c) then (EmptyString, Some s)
                  else let '(before, after) := cut c s in (String a before, after)
  end.

(** The parts around the last occurrence of a byte. *)
Fixpoint cut_last (c : ascii) (s : string) : option (string * string) :=
  match s with
  | EmptyString => None
  | String a s => match cut_last c s with
                  | Some (before, after) => Some (String a before, after)
                  | None => if decide (a = c) then Some (EmptyString, s) else None
                  end
  end.

Definition in_range (lo hi : N) (c : ascii) : bool := (lo <=? byte_val c)%N && (byte_val c <=? hi)%N.
Definition is_letter (c : ascii) : bool := in_range 65 90 c || in_range 97 122 c.
Definition is_digit (c : ascii) : bool := in_range 48 57 c.

Definition unhex (c : ascii) : option N :=
  if is_digit c then Some (byte_val c - 48)%N
  else if in_range 97 102 c then Some (byte_val c - 87)%N
  else if in_range 65 70 c then Some (byte_val c - 55)%N
  else None.

(** [unescape] for paths, fragments, users and passwords: every percent sign starts two
    hexadecimal digits. *)
Fixpoint unescape (s : string) : option string :=
  match s with
  | EmptyString => Some EmptyString
  | String a s1 =>
    if decide (a = "%"%char)
    then match s1 with
         | String x (String y s2) =>
           match unhex x, unhex y with
           | Some x, Some y => String (ascii_of_N (16 * x + y)) <$> unescape s2
           | _, _ => None
           end
         | _ => None
         end
    else String a <$> unescape s1
  end.

Fixpoint all_chars (p : ascii → bool) (s : string) : bool :=
  match s with EmptyString => true | String a s => p a && all_chars p s end.

(** [getScheme]: [None] is a missing scheme before a colon. *)
Fixpoint scheme_loop (start : bool) (s : string) : option (option (string * string)) :=
  match s with
  | EmptyString => Some None
  | String c s =>
    let go := match scheme_loop false s with
              | Some (Some (scheme, rest)) => Some (Some (String c scheme, rest))
              | r => r
              end in
    if is_letter c then go
    else if is_digit c || bool_decide (c ∈ ["+"; "-"; "."]%char) then if start then Some None else go
    else if decide (c = ":"%char) then if start then None else Some (Some (EmptyString, s))
    else Some None
  end.
Definition getScheme (raw : string) : option (string * string) :=
  match scheme_loop true raw with
  | None => None
  | Some None => Some (""%string, raw)
  | Some (Some r) => Some r
  end.

Definition validUserinfo (s : string) : bool :=
  all_chars (λ c, is_letter c || is_digit c
    || bool_decide (c ∈ ["-"; "."; "_"; ":"; "~"; "!"; "$"; "&"; "'"; "("; ")"; "*"; "+"; ","; ";"; "="; "%"; "@"]%char)) s.

(** The user and the password must be well escaped. *)
Definition userinfo_ok (s : string) : bool :=
  validUserinfo s
  && match cut ":" s with
     | (user, None) => bool_decide (is_Some (unescape user))
     | (user, Some password) => bool_decide (is_Some (unescape user)) && bool_decide (is_Some (unescape password))
     end.

Section Parse.
(** The accepted form of a host, by scheme. *)
Context (parseHost : string → string → option string).

Definition parseAuthority (scheme authority : string) : option string :=
  match cut_last "@" authority with
  | None => parseHost scheme authority
  | Some (userinfo, host) =>
    h ← parseHost scheme host; if userinfo_ok userinfo then Some h else None
  end.

(** A byte that [Parse] refuses anywhere before the fragment. *)
Definition ctl (c : ascii) : bool := (byte_val c <? 32)%N || (byte_val c =? 127)%N.

Definition parse_hier (scheme rest : string) : option URL :=
  if HasPrefix rest "//" && (negb (scheme == ""%string) || negb (HasPrefix rest "///"))
  then let authority := (cut "/" (TrimPrefix rest "//")).1 in
       let path := match (cut "/" (TrimPrefix rest "//")).2 with
                   | Some p => String "/" p | None => EmptyString end in
       host ← parseAuthority scheme authority; p ← unescape path; Some (mkURL scheme host p)
  else p ← unescape rest; Some (mkURL scheme "" p).

Definition parse (raw : string) : option URL :=
  if negb (all_chars (λ c, negb (ctl c)) raw) then None
  else if raw == "*"%string then Some (mkURL "" "" "*")
  else
    '(scheme, rest) ← getScheme raw;
    let scheme := ToLower scheme in
    let rest := (cut "?" rest).1 in
    if negb (HasPrefix rest "/")
    then if negb (scheme == ""%string) then Some (mkURL scheme "" "")
         else if Contains (cut "/" rest).1 ":" then None
         else parse_hier scheme rest
    else parse_hier scheme rest.

Definition Parse (raw : string) : option URL :=
  u ← parse (cut "#" raw).1;
  match (cut "#" raw).2 with
  | Some frag => if bool_decide (is_Some (unescape frag)) then Some u else None
  | None => Some u
  end.
End Parse.
End Url.

Definition maskSecret (s : string) : string := if s == ""%string then "" else "<hidden>".

(** One entry of the log: its message and its fields. *)
Inductive log_field := LString (key v : string) | LBool (key : string) (v : bool).

Section Log.
Context (parseHost : string → string → option string).

Definition sanitizeDBString (dbURL : string) : string :=
  if dbURL == ""%string then ""
  else match Url.Parse parseHost dbURL with
       | None => dbURL
       | Some u => Url.u_Scheme u +:+ "://" +:+ Url.u_Host u +:+ Url.u_Path u
       end.

Definition Log (c : Settings) : list (string * list log_field) :=
  [("Application starting with the following configuration:"%string, []);
   ("Endpoint configuration"%string, [LString "port" (s_Port c)]);
   ("Static site configuration"%string,
     [LString "origins" (st_Origins (s_Static c)); LString "cache_ttl" (st_CacheTTL (s_Static c));
      LString "cache_max_bytes" (st_CacheMaxBytes (s_Static c))]);
   ("Authentication configuration"%string,
     [LString "issuer" (oidc_Issuer (s_OIDC c)); LString "client_id" (oidc_ClientID (s_OIDC c));
      LString "username_claim" (oidc_UsernameClaim (s_OIDC c));
      LString "creators_role" (rb_Creators (s_RBAC c)); LString "operators_role" (rb_Operators (s_RBAC c));
      LString "admins_role" (rb_Admins (s_RBAC c)); LString "reporters_role" (rb_Reporters (s_RBAC c))]);
   ("Storage and logging configuration"%string,
     [LString "db" (sanitizeDBString (s_DB c)); LString "log_level" (s_LogLevel c);
      LString "openapi_spec_path" (s_OpenAPISpecPath c)]);
   ("Notifications configuration"%string,
     [LBool "enabled" (nt_Enabled (s_Notifications c)); LString "smtp_host" (sm_Host (s_SMTP c));
      LString "smtp_port" (sm_Port (s_SMTP c)); LString "smtp_from" (sm_From (s_SMTP c));
      LString "smtp_user" (sm_User (s_SMTP c)); LString "smtp_password" (maskSecret (sm_Password (s_SMTP c)));
      LBool "smtp_tls" (sm_TLS (s_SMTP c))])].
End Log.

(** ** Lemmas *)

(** The variable a string field is read from when the environment left it empty. *)
Definition filled (env : gmap string string) (key s : string) : string :=
  if s == ""%string then default ""%string (env !! key) else s.
Definition flagged (env : gmap string string) (key : string) (b : bool) : bool :=
  b || (default ""%string (env !! key) == "true"%string).

(** What merging yields: every field that is empty is read from its SD_ variable. *)
Definition merged (env : gmap string string) (c : Settings) : Settings :=
  let f k s := filled env k s in
  let o := s_OIDC c in let r := s_RBAC c in let m := s_SMTP c in
  let n := s_Notifications c in let t := s_Static c in
  mkSettings (f "SD_DB"%string (s_DB c)) (f "SD_CACHE"%string (s_Cache c))
    (mkOIDC (f "SD_OIDC_ISSUER"%string (oidc_Issuer o)) (f "SD_OIDC_CLIENT_ID"%string (oidc_ClientID o))
       (f "SD_OIDC_USERNAME_CLAIM"%string (oidc_UsernameClaim o)))
    (f "SD_LOG_LEVEL"%string (s_LogLevel c)) (f "SD_PORT"%string (s_Port c))
    (f "SD_METRICS_PORT"%string (s_MetricsPort c)) (f "SD_WEB_URL"%string (s_WebURL c))
    (f "SD_OPENAPI_SPEC_PATH"%string (s_OpenAPISpecPath c))
    (mkRBAC (f "SD_RBAC_ROLES_CREATORS"%string (rb_Creators r))
       (f "SD_RBAC_ROLES_OPERATORS"%string (rb_Operators r))
       (f "SD_RBAC_ROLES_ADMINS"%string (rb_Admins r))
       (f "SD_RBAC_ROLES_REPORTERS"%string (rb_Reporters r)))
    (mkSMTP (f "SD_SMTP_HOST"%string (sm_Host m)) (f "SD_SMTP_PORT"%string (sm_Port m))
       (f "SD_SMTP_FROM"%string (sm_From m)) (f "SD_SMTP_USER"%string (sm_User m))
       (f "SD_SMTP_PASSWORD"%string (sm_Password m)) (flagged env "SD_SMTP_TLS" (sm_TLS m))
       (f "SD_SMTP_TIMEOUT"%string (sm_Timeout m)))
    (mkNotifications (flagged env "SD_NOTIFICATIONS_ENABLED" (nt_Enabled n))
       (f "SD_NOTIFICATIONS_LEASE_TIMEOUT"%string (nt_LeaseTimeout n))
       (f "SD_NOTIFICATIONS_MAX_ATTEMPTS"%string (nt_MaxAttempts n))
       (f "SD_NOTIFICATIONS_BACKOFF_INTERVAL"%string (nt_BackoffInterval n))
       (f "SD_NOTIFICATIONS_SMOD_EMAIL"%string (nt_SmodEmail n))
       (f "SD_NOTIFICATIONS_EMAILS_OPERATORS"%string (nt_EmailsOperators n))
       (f "SD_NOTIFICATIONS_EMAILS_ADMINS"%string (nt_EmailsAdmins n))
       (f "SD_NOTIFICATIONS_ALLOWED_DOMAINS"%string (nt_AllowedDomains n))
       (f "SD_NOTIFICATIONS_EXCLUDED_EMAILS"%string (nt_ExcludedEmails n)))
    (mkStatic (f "SD_STATIC_ORIGINS"%string (st_Origins t)) (f "SD_STATIC_CACHE_TTL"%string (st_CacheTTL t))
       (f "SD_STATIC_CACHE_MAX_BYTES"%string (st_CacheMaxBytes t))).

(** A string field after [merge_val], under the variable its path spells. *)
Lemma merge_VString env prefix name tag s key :
  ToUpper (prefix +:+ "_" +:+ envKeyPart name tag)%string = key →
  merge_val env prefix name tag (VString s) = VString (filled env key s).
Proof. intros <-. cbn [merge_val]. unfold filled. by destruct (s == ""%string). Qed.

Lemma merge_VBool env prefix name tag b key :
  ToUpper (prefix +:+ "_" +:+ envKeyPart name tag)%string = key →
  merge_val env prefix name tag (VBool b) = VBool (flagged env key b).
Proof. intros <-. cbn [merge_val]. unfold flagged. destruct b; [done|]. cbn. by destruct (_ == _). Qed.

Lemma merge_VStruct env prefix name tag fs :
  merge_val env prefix name tag (VStruct fs)
  = VStruct (mergeConfigs (Some env) fs (prefix +:+ "_" +:+ envKeyPart name tag)%string).
Proof. done. Qed.

Lemma merge_settings_Some env c : merge_settings (Some env) c = Some (merged env c).
Proof.
  unfold merge_settings, mergeConfigs, Settings_fields. cbn [map fst snd].
  rewrite !merge_VStruct. unfold mergeConfigs. cbn [map fst snd OIDC_fields RBAC_fields SMTP_fields
                    Notifications_fields Static_fields].
  repeat (first [erewrite merge_VString by reflexivity | erewrite merge_VBool by reflexivity]).
  reflexivity.
Qed.

Lemma and_then_None a b : (a ;;! b) = None ↔ a = None ∧ b = None.
Proof. destruct a; cbn; intuition congruence. Qed.
Lemma guard_err_None b e : guard_err b e = None ↔ b = false.
Proof. destruct b; cbn; intuition congruence. Qed.
#[export] Hint Rewrite and_then_None guard_err_None orb_false_iff andb_false_iff negb_false_iff
  bool_decide_eq_false Z.ltb_ge Z.leb_gt : conf.

(** The entries of a comma-separated list: trimmed, the empty ones skipped. *)
Definition entries (raw : string) : list string :=
  filterb (λ e, e != ""%string) (TrimSpace <$> Split raw ",").

Lemma elem_of_entries raw e : e ∈ entries raw ↔ e ≠ ""%string ∧ ∃ p, p ∈ Split raw "," ∧ e = TrimSpace p.
Proof.
  unfold entries. rewrite elem_of_filterb, list_elem_of_fmap, negb_true_iff, bool_decide_eq_false. naive_solver.
Qed.

Lemma entries_Forall (P : string → Prop) raw :
  Forall P (entries raw) ↔ ∀ p, p ∈ Split raw "," → TrimSpace p ≠ ""%string → P (TrimSpace p).
Proof. rewrite Forall_forall. setoid_rewrite elem_of_entries. naive_solver. Qed.

Lemma validateDomainList_None env raw :
  validateDomainList env raw = None ↔ Forall (λ d, bad_domain d = false) (entries raw).
Proof.
  rewrite entries_Forall. unfold validateDomainList. induction (Split raw ",") as [|p ps IH]; cbn [validate_domains].
  - split; [intros _ p Hp; inversion Hp|done].
  - setoid_rewrite elem_of_cons.
    destruct (_ == ""%string) eqn:He; bool_facts; [rewrite IH; naive_solver|].
    destruct (bad_domain (TrimSpace p)) eqn:Hb; [|rewrite IH; naive_solver].
    split; [done|]. intros H. specialize (H p (or_introl eq_refl) He). congruence.
Qed.

Lemma validateEmailList_None PA env raw :
  validateEmailList PA env raw = None ↔ Forall (λ a, PA a = true) (entries raw).
Proof.
  rewrite entries_Forall. unfold validateEmailList.
  induction (Split raw ",") as [|p ps IH]; cbn [validate_addresses].
  - split; [intros _ p Hp; inversion Hp|done].
  - setoid_rewrite elem_of_cons.
    destruct (_ == ""%string) eqn:He; bool_facts; [rewrite IH; naive_solver|].
    destruct (PA (TrimSpace p)) eqn:Hb; [rewrite IH; naive_solver|].
    split; [done|]. intros H. specialize (H p (or_introl eq_refl) He). congruence.
Qed.

Lemma validate_lists_None PA l :
  validate_lists PA l = None ↔ Forall (λ x, Forall (λ a, PA a = true) (entries x.2)) l.
Proof.
  induction l as [|[env raw] l IH]; cbn [validate_lists]; [by rewrite Forall_nil|].
  rewrite and_then_None, Forall_cons, IH, validateEmailList_None. done.
Qed.

(** ** What the checks accept *)

Definition port_in (lo hi : Z) (s : string) (p : Z) : Prop := Atoi s = Some p ∧ lo <= p <= hi.

Record notifications_ok (PA : string → bool) (c : Settings) : Prop := mkNotifOk {
  no_host : sm_Host (s_SMTP c) ≠ ""%string;
  no_port : ∃ p, port_in 1 MaxPortNumber (sm_Port (s_SMTP c)) p;
  no_from : sm_From (s_SMTP c) ≠ ""%string ∧ PA (sm_From (s_SMTP c)) = true;
  no_review : nt_SmodEmail (s_Notifications c) ≠ ""%string ∨ nt_EmailsOperators (s_Notifications c) ≠ ""%string
    ∨ nt_EmailsAdmins (s_Notifications c) ≠ ""%string;
  no_addresses : ∀ x a, x ∈ review_lists (s_Notifications c) → a ∈ entries x.2 → PA a = true;
  no_domains : ∀ d, d ∈ entries (nt_AllowedDomains (s_Notifications c)) → bad_domain d = false;
  no_lease : ∃ t l, ParseDuration (sm_Timeout (s_SMTP c)) = Some t
    ∧ ParseDuration (nt_LeaseTimeout (s_Notifications c)) = Some l ∧ t < l;
  no_attempts : ∃ n, Atoi (nt_MaxAttempts (s_Notifications c)) = Some n ∧ 1 <= n;
  no_backoff : is_Some (ParseDuration (nt_BackoffInterval (s_Notifications c))) }.

Definition static_ok (s : Static) : Prop :=
  ∃ origins, OriginList s = inr origins
  ∧ (origins ≠ [] → ∃ ttl maxBytes, TTL s = inr ttl ∧ 0 < ttl ∧ MaxBytes s = inr maxBytes ∧ 0 < maxBytes).

Record settings_ok (PA : string → bool) (c : Settings) : Prop := mkSettingsOk {
  so_port : ∃ p, port_in 1024 50000 (s_Port c) p ∧
    (s_MetricsPort c = ""%string ∨ ∃ q, port_in 1024 MaxPortNumber (s_MetricsPort c) q ∧ q ≠ p);
  so_oidc : oidc_Issuer (s_OIDC c) ≠ ""%string ∧ oidc_ClientID (s_OIDC c) ≠ ""%string;
  so_admins : rb_Admins (s_RBAC c) ≠ ""%string;
  so_notifications : nt_Enabled (s_Notifications c) = true → notifications_ok PA c;
  so_static : static_ok (s_Static c) }.

Lemma validateMetricsPort_None p c : validateMetricsPort p c = None ↔
  s_MetricsPort c = ""%string ∨ ∃ q, port_in 1024 MaxPortNumber (s_MetricsPort c) q ∧ q ≠ p.
Proof.
  unfold validateMetricsPort, port_in. destruct (_ == ""%string) eqn:He; bool_facts; [naive_solver|].
  destruct (Atoi _) as [q|]; [|naive_solver].
  destruct ((q <? 1024) || (MaxPortNumber <? q)) eqn:Hr.
  - apply orb_true_iff in Hr. rewrite !Z.ltb_lt in Hr. split; [done|].
    intros [?|(q' & ([= <-] & ?) & _)]; [done|lia].
  - bool_facts. rewrite guard_err_None, bool_decide_eq_false. split; [eauto 10|].
    intros [?|(q' & ([= <-] & ?) & ?)]; done.
Qed.

Lemma TTL_inr s ttl : TTL s = inr ttl → 0 < ttl.
Proof.
  unfold TTL. destruct (ParseDuration _) as [t|]; [|done]. destruct (_ <=? _) eqn:H; [done|].
  intros [= <-]. bool_facts. lia.
Qed.

Lemma MaxBytes_inr s n : MaxBytes s = inr n → 0 < n.
Proof.
  unfold MaxBytes. destruct (Atoi _) as [t|]; [|done]. destruct (_ <=? _) eqn:H; [done|].
  intros [= <-]. bool_facts. lia.
Qed.

Lemma Static_Validate_None s : Static_Validate s = None ↔ static_ok s.
Proof.
  unfold Static_Validate, static_ok. destruct (OriginList s) as [e|[|o l]]; [naive_solver|naive_solver|].
  destruct (TTL s) as [e|ttl] eqn:Ht; [naive_solver|]. pose proof (TTL_inr s ttl Ht).
  destruct (MaxBytes s) as [e|n] eqn:Hn; [naive_solver|]. pose proof (MaxBytes_inr s n Hn).
  split; [|done]. intros _. eexists. split; [done|]. eauto 10.
Qed.

Lemma validateSMTP_None PA c : validateSMTP PA c = None ↔
  sm_Host (s_SMTP c) ≠ ""%string ∧ (∃ p, port_in 1 MaxPortNumber (sm_Port (s_SMTP c)) p)
  ∧ sm_From (s_SMTP c) ≠ ""%string ∧ PA (sm_From (s_SMTP c)) = true.
Proof.
  unfold validateSMTP, port_in. autorewrite with conf.
  destruct (Atoi (sm_Port (s_SMTP c))) as [p|] eqn:Hp; autorewrite with conf.
  - split; [intros (([H1 H2] & H3) & [? ?] & ?); split_and!; eauto with lia|].
    intros (? & (q & [= <-] & ?) & ? & ?). split_and!; try done; try lia.
    intros He. rewrite He in Hp. done.
  - naive_solver.
Qed.

Section Accepted.
Context (PA : string → bool) (range : list (string * string) → list (string * string)).
Hypothesis range_perm : ∀ l, range l ≡ₚ l.

Lemma validateReviewAudience_None c : validateReviewAudience PA range c = None ↔
  (nt_SmodEmail (s_Notifications c) ≠ ""%string ∨ nt_EmailsOperators (s_Notifications c) ≠ ""%string
    ∨ nt_EmailsAdmins (s_Notifications c) ≠ ""%string)
  ∧ (∀ x a, x ∈ review_lists (s_Notifications c) → a ∈ entries x.2 → PA a = true)
  ∧ (∀ d, d ∈ entries (nt_AllowedDomains (s_Notifications c)) → bad_domain d = false).
Proof.
  unfold validateReviewAudience. rewrite !and_then_None, validate_lists_None, validateDomainList_None.
  rewrite range_perm, !Forall_forall. setoid_rewrite Forall_forall. autorewrite with conf. naive_solver.
Qed.

Lemma validateNotifications_None c : validateNotifications PA range c = None ↔
  (nt_Enabled (s_Notifications c) = true → notifications_ok PA c).
Proof.
  unfold validateNotifications. destruct (nt_Enabled _); cbn [negb]; [|naive_solver].
  rewrite !and_then_None, validateSMTP_None, validateReviewAudience_None.
  split.
  - intros ((? & ? & ?) & (? & ? & ?) & Hd) _.
    destruct (ParseDuration (sm_Timeout _)) as [t|] eqn:Ht; [|done].
    destruct (ParseDuration (nt_LeaseTimeout _)) as [l|] eqn:Hl; [|done].
    autorewrite with conf in Hd. destruct Hd as (? & Ha & Hb). split; try done; try tauto.
    + eauto 10.
    + destruct (Atoi (nt_MaxAttempts _)) as [n|]; [|done]. autorewrite with conf in Ha. eauto.
    + by destruct (ParseDuration (nt_BackoffInterval _)).
  - intros H. destruct (H eq_refl) as [? ? ? ? ? ? (t & l & -> & -> & ?) (n & -> & ?) [b ->]].
    autorewrite with conf. split_and!; tauto.
Qed.

Lemma Validate_None c : Validate PA range c = None ↔ settings_ok PA c.
Proof.
  unfold Validate. split.
  - destruct (Atoi (s_Port c)) as [p|] eqn:Hp; [|done].
    rewrite !and_then_None, validateMetricsPort_None, validateNotifications_None, Static_Validate_None.
    unfold RBAC_Validate. autorewrite with conf.
    intros (? & ? & ? & ? & ? & ?). split; try done. exists p. unfold port_in. done.
  - intros [(p & [-> ?] & ?) ? ? ? ?].
    rewrite !and_then_None, validateMetricsPort_None, validateNotifications_None, Static_Validate_None.
    unfold RBAC_Validate. autorewrite with conf. done.
Qed.

(** Loaded settings have passed the checks. *)
Lemma LoadConf_ok env processed c : LoadConf PA range env processed = inr c → settings_ok PA c.
Proof.
  unfold LoadConf. destruct processed as [c0|]; [|done].
  destruct (merge_settings env c0) as [c1|]; [|done].
  destruct (Validate PA range (FillDefaults c1)) eqn:Hv; [done|]. intros [= <-].
  by apply Validate_None.
Qed.
End Accepted.

(** ** What the log shows of the database URL *)

Module UrlSpec.
Import Url.

Lemma cut_app c a b : no_char c a = true → cut c (a +:+ b) = (a +:+ (cut c b).1, (cut c b).2).
Proof.
  induction a as [|x a IH]; intros H; [apply surjective_pairing|]. cbn in H. bool_facts.
  rewrite app_string_cons. cbn. rewrite decide_False by done. by rewrite IH.
Qed.

Lemma cut_last_none c a : no_char c a = true → cut_last c a = None.
Proof.
  induction a as [|x a IH]; cbn; intros H; [done|]. bool_facts. rewrite IH by done. by rewrite decide_False.
Qed.

Lemma cut_last_app c a b : no_char c b = true → cut_last c (a +:+ String c b) = Some (a, b).
Proof.
  intros Hb. induction a as [|x a IH].
  - change (cut_last c (String c b) = Some (""%string, b)). cbn. rewrite cut_last_none by done.
    by rewrite decide_True.
  - rewrite app_string_cons. cbn. by rewrite IH.
Qed.

Lemma scheme_loop_app start scheme rest : all_chars is_letter scheme = true → (start = true → scheme ≠ ""%string) →
  scheme_loop start (scheme +:+ String ":" rest) = Some (Some (scheme, rest)).
Proof.
  revert start. induction scheme as [|c s IH]; intros start Hl Hs.
  { destruct start; [by destruct (Hs eq_refl)|reflexivity]. }
  cbn in Hl. bool_facts. rewrite app_string_cons. cbn. rewrite H. by rewrite IH.
Qed.

(** What follows the authority of a URL: nothing, a path, a query or a fragment. *)
Definition tail_ok (tail : string) : bool :=
  match tail with EmptyString => true | String c _ => bool_decide (c ∈ ["/"; "?"; "#"]%char) end.
Definition none_of (cs : list ascii) (s : string) : bool := forallb (λ c, no_char c s) cs.

(** [scheme://userinfo@host] and the rest. *)
Definition db_url (scheme userinfo host tail : string) : string :=
  scheme +:+ "://" +:+ userinfo +:+ "@" +:+ host +:+ tail.

(** The path of such a URL before it is decoded. *)
Definition tail_path (tail : string) : string := (cut "?" (cut "#" tail).1).1.

Lemma letters_no_char c s : is_letter c = false → all_chars is_letter s = true → no_char c s = true.
Proof.
  intros Hc. induction s as [|a s IH]; [done|]. cbn. intros [Ha Hs]%andb_true_iff. rewrite IH by done.
  rewrite andb_true_r. apply negb_true_iff, bool_decide_eq_false. intros ->. congruence.
Qed.

(** What is left of the tail when fragment and query are cut off is a path. *)
Lemma tail_path_cut tail : tail_ok tail = true →
  tail_path tail = ""%string ∨ ∃ p, tail_path tail = String "/" p.
Proof.
  unfold tail_path. destruct tail as [|c tail]; [by left|]. intros H. apply bool_decide_eq_true in H. cbn [cut].
  destruct (decide (c = "#"%char)); [by left|]. destruct (cut "#" tail) as [b a]. cbn [fst cut].
  destruct (decide (c = "?"%char)); [by left|]. destruct (cut "?" b) as [b' a']. right. cbn.
  repeat (apply elem_of_cons in H as [->|H]; [by eauto|]). by apply elem_of_nil in H.
Qed.

Section Shape.
Context (parseHost : string → string → option string) (scheme userinfo host tail : string).
Context (Hscheme : scheme ≠ ""%string) (Hletters : all_chars is_letter scheme = true).
Context (Hui : none_of ["/"; "?"; "#"]%char userinfo = true).
Context (Hhost : none_of ["@"; "/"; "?"; "#"]%char host = true) (Htail : tail_ok tail = true).

Definition authority : string := userinfo +:+ String "@" host.

Lemma authority_plain : no_char "/" authority = true ∧ no_char "?" authority = true ∧ no_char "#" authority = true.
Proof.
  unfold none_of in Hui, Hhost. cbn in Hui, Hhost. rewrite !andb_true_r in Hui, Hhost.
  repeat match goal with H : _ && _ = true |- _ => apply andb_true_iff in H as [? ?] end.
  unfold authority. rewrite !no_char_app. cbn. by split_and!; apply andb_true_iff.
Qed.

Lemma db_url_app t : db_url scheme userinfo host t = scheme +:+ String ":" ("//" +:+ authority +:+ t).
Proof.
  unfold db_url, authority. rewrite app_string_assoc, app_string_cons. reflexivity.
Qed.

Lemma parse_hier_db : parse_hier parseHost (ToLower scheme) ("//" +:+ authority +:+ tail_path tail)
  = h ← parseHost (ToLower scheme) host;
    if userinfo_ok userinfo
    then p ← unescape (tail_path tail); Some (mkURL (ToLower scheme) h p) else None.
Proof.
  destruct authority_plain as (Hs & _). unfold parse_hier.
  assert ((ToLower scheme == ""%string) = false) as ->.
  { apply bool_decide_eq_false. by destruct scheme. }
  change (HasPrefix ("//" +:+ authority +:+ tail_path tail) "//") with true.
  change (TrimPrefix ("//" +:+ authority +:+ tail_path tail) "//") with (authority +:+ tail_path tail).
  cbn [negb andb orb]. rewrite cut_app by done.
  assert ((cut "/" (tail_path tail)).1 = ""%string ∧
    match (cut "/" (tail_path tail)).2 with Some p => String "/" p | None => EmptyString end = tail_path tail)
    as [H1 H2] by (destruct (tail_path_cut tail Htail) as [->|[p ->]]; done).
  cbn [fst snd]. rewrite H1, H2, app_string_nil_r. unfold parseAuthority, authority.
  unfold none_of in Hhost. cbn in Hhost. apply andb_true_iff in Hhost as [Hat _].
  rewrite cut_last_app by done. destruct (parseHost _ host) as [h|]; cbn; [|done]. by destruct (userinfo_ok userinfo).
Qed.

(** A URL of that form that parses is reduced to its scheme, host and path. *)
Lemma Parse_db_url u : Parse parseHost (db_url scheme userinfo host tail) = Some u →
  u_Scheme u = ToLower scheme ∧ parseHost (ToLower scheme) host = Some (u_Host u)
  ∧ unescape (tail_path tail) = Some (u_Path u) ∧ userinfo_ok userinfo = true.
Proof.
  destruct authority_plain as (_ & Hq & Hf). unfold Parse. rewrite db_url_app.
  replace (scheme +:+ String ":" ("//" +:+ authority +:+ tail))
    with ((scheme +:+ String ":" ("//" +:+ authority)) +:+ tail)
    by (by rewrite app_string_assoc, app_string_cons, app_string_assoc).
  rewrite cut_app.
  2: { rewrite no_char_app. rewrite letters_no_char by done. cbn. rewrite no_char_app. by rewrite Hf. }
  cbn [fst snd]. intros (u0 & Hp & Hu)%bind_Some.
  assert (u = u0) as -> by (destruct (cut "#" tail).2 as [fr|]; [destruct (bool_decide _)|]; congruence).
  clear Hu. unfold parse in Hp. destruct (negb _); [done|]. destruct (_ == _) eqn:Hstar.
  { apply bool_decide_eq_true in Hstar. destruct scheme as [|c s]; [done|].
    rewrite !app_string_cons in Hstar. injection Hstar as -> _. done. }
  rewrite app_string_assoc, app_string_cons in Hp. unfold getScheme in Hp.
  rewrite scheme_loop_app in Hp by done. cbn [mbind option_bind] in Hp.
  rewrite cut_app in Hp by (rewrite no_char_app; by rewrite Hq).
  cbn [fst] in Hp. fold (tail_path tail) in Hp. rewrite app_string_assoc in Hp.
  change (HasPrefix ("//" +:+ authority +:+ tail_path tail) "/") with true in Hp. cbn [negb] in Hp.
  rewrite parse_hier_db in Hp. apply bind_Some in Hp as (h & -> & Hp).
  destruct (userinfo_ok userinfo); [|done]. apply bind_Some in Hp as (p & -> & [= <-]). done.
Qed.
End Shape.

(** An accepted URL is logged without what precedes its host, whatever that is. *)
Lemma sanitize_db_url ph scheme ui1 ui2 host tail :
  scheme ≠ ""%string → all_chars is_letter scheme = true →
  none_of ["/"; "?"; "#"]%char ui1 = true → none_of ["/"; "?"; "#"]%char ui2 = true →
  none_of ["@"; "/"; "?"; "#"]%char host = true → tail_ok tail = true →
  is_Some (Parse ph (db_url scheme ui1 host tail)) → is_Some (Parse ph (db_url scheme ui2 host tail)) →
  sanitizeDBString ph (db_url scheme ui1 host tail) = sanitizeDBString ph (db_url scheme ui2 host tail).
Proof.
  intros Hs Hl H1 H2 Hh Ht [u1 P1] [u2 P2]. unfold sanitizeDBString. rewrite P1, P2.
  assert (∀ ui, (db_url scheme ui host tail == ""%string) = false) as Hne.
  { intros ui. apply bool_decide_eq_false. by destruct scheme. }
  rewrite !Hne. apply Parse_db_url in P1 as (-> & E1 & E2 & _); [|done..].
  apply Parse_db_url in P2 as (-> & E3 & E4 & _); [|done..]. congruence.
Qed.
End UrlSpec.

(** The settings with other credentials. *)
Definition with_secrets (c : Settings) (dbURL password : string) : Settings :=
  mkSettings dbURL (s_Cache c) (s_OIDC c) (s_LogLevel c) (s_Port c) (s_MetricsPort c) (s_WebURL c)
    (s_OpenAPISpecPath c) (s_RBAC c)
    (let m := s_SMTP c in mkSMTP (sm_Host m) (sm_Port m) (sm_From m) (sm_User m) password (sm_TLS m) (sm_Timeout m))
    (s_Notifications c) (s_Static c).
