(* ===== verification/StaticCache.v ===== *)
(** * The response cache of the frontend proxy

    [internal/static/cache.go].  The cache keeps a doubly linked list in the order of
    use and an index from keys to the elements of that list.  The elements are heap
    objects shared by both, so they live in a store [c_elems] and the list and the
    index hold their addresses.  [Lru] is the specification: one list of items, most
    recently used first, cut to the longest prefix that fits the budget; the
    refinement is [run_refines].  The mutex makes every method one step, and the type
    assertions of the source hold because every element is built from a [cacheItem]. *)

From S2P Require Import Prelude GoStrings.
Local Open Scope Z_scope.

(** [http.Header]. *)
Notation Header := (gmap string (list string)).

Definition slen (s : string) : Z := Z.of_nat (String.length s).

Record entry := mkEntry {
  e_status : Z; e_header : Header; e_body : string; e_expires : Z; e_storable : bool }.

(** The inner loop over the values of one header field. *)
Definition field_size (name : string) (values : list string) : Z :=
  foldr (λ value acc, slen name + slen value + acc) 0 values.

Definition size (e : entry) : Z :=
  map_fold (λ name values acc, field_size name values + acc) (slen (e_body e)) (e_header e).

Record cacheItem := mkItem { ci_key : string; ci_entry : entry }.

Record Cache := mkCache {
  c_maxBytes : Z; c_bytes : Z;
  c_order : list Z;                 (* addresses, most recently used first *)
  c_items : gmap string Z;          (* the index *)
  c_elems : gmap Z cacheItem;       (* the list elements by address *)
  c_next : Z }.                     (* the next address *)

Definition newCache (maxBytes : Z) : Cache := mkCache maxBytes 0 [] ∅ ∅ 0.

Definition Len (c : Cache) : Z := Z.of_nat (base.size (c_items c)).
Definition Bytes (c : Cache) : Z := c_bytes c.

(** [list.Remove]: an address that is not in the list changes nothing. *)
Definition list_remove (a : Z) (l : list Z) : list Z := filterb (λ x, x != a) l.
(** [list.MoveToFront]. *)
Definition list_move_to_front (a : Z) (l : list Z) : list Z :=
  if bool_decide (a ∈ l) then a :: list_remove a l else l.

Definition touch (key : string) (c : Cache) : option cacheItem * Cache :=
  match c_items c !! key with
  | None => (None, c)
  | Some element =>
    match c_elems c !! element with
    | None => (None, c)
    | Some item =>
      (Some item, mkCache (c_maxBytes c) (c_bytes c) (list_move_to_front element (c_order c))
                    (c_items c) (c_elems c) (c_next c))
    end
  end.

(** [now] is the reading of the clock. *)
Definition get (now : Z) (key : string) (c : Cache) : option entry * Cache :=
  let (item, c') := touch key c in
  match item with
  | None => (None, c')
  | Some it => if now <? e_expires (ci_entry it) then (Some (ci_entry it), c') else (None, c')
  end.

Definition getStale (key : string) (c : Cache) : option entry * Cache :=
  let (item, c') := touch key c in (ci_entry <$> item, c').

Definition drop (element : Z) (c : Cache) : Cache :=
  match c_elems c !! element with
  | None => mkCache (c_maxBytes c) (c_bytes c) (list_remove element (c_order c))
              (c_items c) (c_elems c) (c_next c)
  | Some item => mkCache (c_maxBytes c) (c_bytes c - size (ci_entry item))
                   (list_remove element (c_order c))
                   (base.delete (ci_key item) (c_items c)) (c_elems c) (c_next c)
  end.

(** [c.items[key] = c.order.PushFront(&cacheItem{key, e}); c.bytes += size]. *)
Definition push_front (key : string) (e : entry) (c : Cache) : Cache :=
  mkCache (c_maxBytes c) (c_bytes c + size e) (c_next c :: c_order c)
    (<[key := c_next c]> (c_items c)) (<[c_next c := mkItem key e]> (c_elems c)) (c_next c + 1).

(** The eviction loop; one round per element is enough ([evict_contents]). *)
Fixpoint evict (fuel : nat) (c : Cache) : Cache :=
  match fuel with
  | O => c
  | S fuel =>
    if c_maxBytes c <? c_bytes c then
      match list.last (c_order c) with
      | None => c
      | Some element => evict fuel (drop element c)
      end
    else c
  end.

Definition put (key : string) (e : entry) (c : Cache) : Cache :=
  if c_maxBytes c <? size e then c
  else
    let c1 := match c_items c !! key with Some element => drop element c | None => c end in
    let c2 := push_front key e c1 in
    evict (length (c_order c2)) c2.

(** ** Specification: a bounded list in the order of use *)

Module Lru.
Definition find (key : string) (l : list cacheItem) : option cacheItem :=
  head (filterb (λ it, ci_key it == key) l).
Definition remove (key : string) (l : list cacheItem) : list cacheItem :=
  filterb (λ it, ci_key it != key) l.
Definition total (l : list cacheItem) : Z := foldr (λ it acc, size (ci_entry it) + acc) 0 l.

(** The longest prefix whose total size is within the budget. *)
Fixpoint fit (budget : Z) (l : list cacheItem) : list cacheItem :=
  match l with
  | [] => []
  | it :: l => if size (ci_entry it) <=? budget
               then it :: fit (budget - size (ci_entry it)) l else []
  end.

(** A lookup moves its item to the front. *)
Definition use (key : string) (l : list cacheItem) : list cacheItem :=
  match find key l with Some it => it :: remove key l | None => l end.
Definition lookup_fresh (now : Z) (key : string) (l : list cacheItem) : option entry :=
  match find key l with
  | Some it => if now <? e_expires (ci_entry it) then Some (ci_entry it) else None
  | None => None
  end.
Definition store (max : Z) (key : string) (e : entry) (l : list cacheItem) : list cacheItem :=
  if max <? size e then l else fit max (mkItem key e :: remove key l).
End Lru.

(** The calls a client makes and what it sees. *)
Inductive call :=
| CGet (now : Z) (key : string) | CGetStale (key : string) | CPut (key : string) (e : entry)
| CLen | CBytes.
Inductive answer := AEntry (e : option entry) | ANone | ACount (n : Z).

Definition exec (o : call) (c : Cache) : answer * Cache :=
  match o with
  | CGet now key => let (e, c') := get now key c in (AEntry e, c')
  | CGetStale key => let (e, c') := getStale key c in (AEntry e, c')
  | CPut key e => (ANone, put key e c)
  | CLen => (ACount (Len c), c)
  | CBytes => (ACount (Bytes c), c)
  end.

Definition spec_exec (max : Z) (o : call) (l : list cacheItem) : answer * list cacheItem :=
  match o with
  | CGet now key => (AEntry (Lru.lookup_fresh now key l), Lru.use key l)
  | CGetStale key => (AEntry (ci_entry <$> Lru.find key l), Lru.use key l)
  | CPut key e => (ANone, Lru.store max key e l)
  | CLen => (ACount (Z.of_nat (length l)), l)
  | CBytes => (ACount (Lru.total l), l)
  end.

(** A sequence of calls with all answers. *)
Fixpoint run_calls {S} (f : call → S → answer * S) (os : list call) (s : S)
  : list answer * S :=
  match os with
  | [] => ([], s)
  | o :: os => let (a, s') := f o s in let (l, s'') := run_calls f os s' in (a :: l, s'')
  end.

(** ** Invariant *)

(** The items in the order of use. *)
Definition contents (c : Cache) : list cacheItem := omap (λ a, c_elems c !! a) (c_order c).

Record linked (c : Cache) : Prop := mkLinked {
  lk_nodup : NoDup (c_order c);
  lk_order : ∀ a, a ∈ c_order c →
    ∃ it, c_elems c !! a = Some it ∧ c_items c !! ci_key it = Some a;
  lk_index : ∀ k a, c_items c !! k = Some a →
    a ∈ c_order c ∧ ∃ it, c_elems c !! a = Some it ∧ ci_key it = k;
  lk_fresh : ∀ a it, c_elems c !! a = Some it → a < c_next c;
  lk_bytes : c_bytes c = Lru.total (contents c) }.

(** Well-formed: linked and within the budget. *)
Definition wf_cache (c : Cache) : Prop := linked c ∧ c_bytes c <= Z.max 0 (c_maxBytes c).

(** ** Sizes and prefixes *)

Lemma slen_nonneg s : 0 <= slen s.
Proof. unfold slen. lia. Qed.

Lemma field_size_nonneg name values : 0 <= field_size name values.
Proof.
  unfold field_size. induction values as [|v vs IH]; cbn [foldr]; [lia|].
  pose proof (slen_nonneg name). pose proof (slen_nonneg v). lia.
Qed.

Lemma size_nonneg e : 0 <= size e.
Proof.
  unfold size. apply (map_fold_weak_ind (λ r _, 0 <= r)); [apply slen_nonneg|].
  intros name values m r _ Hr. pose proof (field_size_nonneg name values). lia.
Qed.

Module LruFacts.
Import Lru.

Lemma total_app l k : total (l ++ k) = total l + total k.
Proof. induction l as [|it l IH]; simpl; [done|]. rewrite IH. lia. Qed.

Lemma total_nonneg l : 0 <= total l.
Proof. induction l as [|it l IH]; simpl; [lia|]. pose proof (size_nonneg (ci_entry it)). lia. Qed.

#[global] Instance total_proper : Proper ((≡ₚ) ==> (=)) total.
Proof. intros l k H. induction H; simpl; lia. Qed.

Lemma fit_all b l : total l <= b → fit b l = l.
Proof.
  revert b. induction l as [|it l IH]; intros b H; simpl in *; [done|].
  pose proof (total_nonneg l). rewrite (proj2 (Z.leb_le _ _)) by lia.
  rewrite IH by lia. done.
Qed.

(** Removing the last element of a list that is over budget changes nothing. *)
Lemma fit_snoc b l it : b < total (l ++ [it]) → fit b (l ++ [it]) = fit b l.
Proof.
  revert b. induction l as [|x l IH]; intros b H; simpl in *.
  - rewrite (proj2 (Z.leb_gt _ _)) by lia. done.
  - destruct (_ <=? _) eqn:Hx; [|done]. f_equal. apply IH. bool_facts. lia.
Qed.

Lemma fit_total b l : total (fit b l) <= Z.max 0 b.
Proof.
  revert b. induction l as [|it l IH]; intros b; simpl; [lia|].
  destruct (_ <=? _) eqn:Hx; simpl; [|lia]. bool_facts.
  specialize (IH (b - size (ci_entry it))). pose proof (size_nonneg (ci_entry it)). lia.
Qed.

Lemma fit_prefix b l : fit b l `prefix_of` l.
Proof.
  revert b. induction l as [|it l IH]; intros b; simpl; [done|].
  destruct (_ <=? _); [by apply prefix_cons | apply prefix_nil].
Qed.

Lemma remove_absent key l : (∀ it, it ∈ l → ci_key it ≠ key) → remove key l = l.
Proof.
  intros H. apply filterb_true_id. intros it Hit. by rewrite bool_decide_false by auto.
Qed.

Lemma find_Some key l it : find key l = Some it → it ∈ l ∧ ci_key it = key.
Proof.
  unfold find. destruct (filterb _ l) as [|x xs] eqn:Hf; simpl; [done|]. intros [= ->].
  assert (it ∈ filterb (λ it, ci_key it == key) l) as Hin by (rewrite Hf; left).
  apply elem_of_filterb in Hin as [? ?]. by bool_facts.
Qed.

Lemma find_None key l : find key l = None ↔ ∀ it, it ∈ l → ci_key it ≠ key.
Proof.
  unfold find. split.
  - intros Hh it Hit Hk. assert (it ∈ filterb (λ it, ci_key it == key) l) as Hin.
    { apply elem_of_filterb. split; [done|]. by apply bool_decide_eq_true. }
    destruct (filterb _ l); [inversion Hin|done].
  - intros H. rewrite filterb_false_nil; [done|]. intros it Hit.
    apply bool_decide_eq_false. auto.
Qed.
End LruFacts.
Import LruFacts.

(** ** The linked structure *)

Section Linked.
Implicit Types (c : Cache).

(** Items at different addresses of the list have different keys. *)
Lemma linked_key_inj c a b it jt : linked c → a ∈ c_order c → b ∈ c_order c →
  c_elems c !! a = Some it → c_elems c !! b = Some jt → ci_key it = ci_key jt → a = b.
Proof.
  intros L Ha Hb Hit Hjt Hk.
  destruct (lk_order c L a Ha) as (it' & Hi & Hia). destruct (lk_order c L b Hb) as (jt' & Hj & Hjb).
  simplify_eq. rewrite Hk in Hia. congruence.
Qed.

(** Taking an address out of a list takes its key out of the contents. *)
Lemma contents_remove c a it l : linked c → a ∈ c_order c → c_elems c !! a = Some it →
  (∀ x, x ∈ l → x ∈ c_order c) →
  omap (λ x, c_elems c !! x) (list_remove a l)
  = Lru.remove (ci_key it) (omap (λ x, c_elems c !! x) l).
Proof.
  intros L Ha Hit. unfold list_remove, Lru.remove.
  induction l as [|x l IH]; intros Hl; [done|].
  specialize (IH (λ y Hy, Hl y (list_elem_of_further _ _ _ Hy))).
  destruct (lk_order c L x (Hl x (list_elem_of_here _ _))) as (jt & Hx & _).
  cbn [filterb]. rewrite omap_cons, Hx. cbn [filterb].
  destruct (decide (x = a)) as [->|Hne].
  - assert (jt = it) as -> by congruence. rewrite !bool_decide_true by done. exact IH.
  - rewrite !bool_decide_false; [cbn [negb]; rewrite omap_cons, Hx; by f_equal| |done].
    intros Hk. apply Hne. eapply linked_key_inj; eauto. apply Hl. left.
Qed.

Lemma elem_contents c it : it ∈ contents c ↔ ∃ a, a ∈ c_order c ∧ c_elems c !! a = Some it.
Proof. unfold contents. apply elem_of_omap. Qed.

(** The index finds what a search through the contents finds. *)
Lemma index_Some c key a : linked c → c_items c !! key = Some a →
  ∃ it, c_elems c !! a = Some it ∧ ci_key it = key ∧ Lru.find key (contents c) = Some it.
Proof.
  intros L Hk. destruct (lk_index c L key a Hk) as (Ha & it & Hit & Hkey).
  exists it. split_and!; try done. destruct (Lru.find key (contents c)) as [jt|] eqn:Hf.
  - apply find_Some in Hf as [Hj Hjk]. apply elem_contents in Hj as (b & Hb & Hjt).
    enough (a = b) by congruence. eapply linked_key_inj; eauto. congruence.
  - rewrite find_None in Hf. exfalso. apply (Hf it); [|done]. apply elem_contents. eauto.
Qed.

Lemma index_None c key : linked c → c_items c !! key = None → Lru.find key (contents c) = None.
Proof.
  intros L Hk. apply find_None. intros it Hit Hkey.
  apply elem_contents in Hit as (a & Ha & Hit).
  destruct (lk_order c L a Ha) as (jt & ? & ?). simplify_eq.
Qed.

Lemma elem_list_remove a b l : b ∈ list_remove a l ↔ b ∈ l ∧ b ≠ a.
Proof.
  unfold list_remove. rewrite elem_of_filterb. split; intros [H1 H2]; split; try done.
  - apply negb_true_iff, bool_decide_eq_false in H2. done.
  - by apply negb_true_iff, bool_decide_eq_false.
Qed.
End Linked.

(** ** Each operation against the specification *)

Lemma touch_refines c key item c' : linked c → touch key c = (item, c') →
  item = Lru.find key (contents c) ∧ contents c' = Lru.use key (contents c) ∧ linked c'
  ∧ c_bytes c' = c_bytes c ∧ c_maxBytes c' = c_maxBytes c.
Proof.
  intros L. unfold touch, Lru.use. destruct (c_items c !! key) as [a|] eqn:Hk.
  2: { intros [= <- <-]. by rewrite (index_None c key L Hk). }
  destruct (index_Some c key a L Hk) as (it & Hit & Hkey & Hf). rewrite Hit, Hf.
  intros [= <- <-]. destruct (lk_index c L key a Hk) as [Ha _].
  unfold list_move_to_front. rewrite bool_decide_true by done.
  assert (contents (mkCache (c_maxBytes c) (c_bytes c) (a :: list_remove a (c_order c))
    (c_items c) (c_elems c) (c_next c)) = it :: Lru.remove key (contents c)) as HC.
  { unfold contents. cbn [c_order c_elems]. rewrite omap_cons, Hit. f_equal.
    rewrite <- Hkey. by apply contents_remove. }
  split_and!; try done. split; cbn [c_order c_elems c_items c_next c_bytes].
  - constructor; [rewrite elem_list_remove; tauto|]. apply NoDup_filterb, L.
  - intros b [->|[Hb _]%elem_list_remove]%elem_of_cons; apply (lk_order c L); done.
  - intros k b Hb. destruct (lk_index c L k b Hb) as (Hin & Hrest). split; [|done].
    rewrite elem_of_cons, elem_list_remove. destruct (decide (b = a)); auto.
  - apply L.
  - rewrite HC, (lk_bytes c L). symmetry. rewrite <- HC. unfold contents. cbn [c_order c_elems].
    unfold list_remove. rewrite filterb_move_front; [done|apply L|done].
Qed.

(** Dropping an element of the list removes its key and its bytes. *)
Lemma drop_refines c a it : linked c → a ∈ c_order c → c_elems c !! a = Some it →
  linked (drop a c) ∧ contents (drop a c) = Lru.remove (ci_key it) (contents c)
  ∧ c_maxBytes (drop a c) = c_maxBytes c ∧ c_order (drop a c) = list_remove a (c_order c)
  ∧ c_next (drop a c) = c_next c.
Proof.
  intros L Ha Hit. unfold drop. rewrite Hit.
  assert (∀ b jt, b ∈ c_order c → c_elems c !! b = Some jt → b ≠ a → ci_key jt ≠ ci_key it) as Hd.
  { intros b jt Hb Hjt Hne Hk. apply Hne. eapply linked_key_inj; eauto. }
  assert (contents (drop a c) = Lru.remove (ci_key it) (contents c)) as HC.
  { unfold drop, contents. rewrite Hit. cbn [c_elems c_order]. by apply contents_remove. }
  unfold drop in HC. rewrite Hit in HC. split_and!; try done.
  split; cbn [c_order c_elems c_items c_next c_bytes].
  - apply NoDup_filterb, L.
  - intros b [Hb Hne]%elem_list_remove. destruct (lk_order c L b Hb) as (jt & Hjt & Hi).
    exists jt. split; [done|]. rewrite lookup_delete_ne; [done|]. intros Hk. by eapply Hd.
  - intros k b [Hne Hb]%lookup_delete_Some. destruct (lk_index c L k b Hb) as (Hin & jt & Hjt & Hk).
    split; [|eauto]. apply elem_list_remove. split; [done|]. intros ->. congruence.
  - apply L.
  - rewrite (lk_bytes c L). unfold contents. cbn [c_order c_elems]. unfold list_remove.
    rewrite <- (filterb_move_front a (c_order c)) at 1; [|apply L|done].
    rewrite omap_cons, Hit. simpl. lia.
Qed.

(** The index entry of [key], when there is one, is dropped before the push. *)
Lemma drop_key_refines c key : linked c →
  let c1 := match c_items c !! key with Some a => drop a c | None => c end in
  linked c1 ∧ contents c1 = Lru.remove key (contents c) ∧ c_maxBytes c1 = c_maxBytes c
  ∧ c_items c1 !! key = None.
Proof.
  intros L c1. subst c1. destruct (c_items c !! key) as [a|] eqn:Hk.
  - destruct (lk_index c L key a Hk) as (Ha & it & Hit & <-).
    destruct (drop_refines c a it L Ha Hit) as (? & ? & ? & _). split_and!; try done.
    unfold drop. rewrite Hit. apply lookup_delete_eq.
  - split_and!; try done. symmetry. apply remove_absent.
    by apply find_None, index_None.
Qed.

Lemma push_front_refines c key e : linked c → c_items c !! key = None →
  linked (push_front key e c) ∧ contents (push_front key e c) = mkItem key e :: contents c.
Proof.
  intros L Hk. assert (∀ b, b ∈ c_order c → b ≠ c_next c) as Hfr.
  { intros b Hb ->. destruct (lk_order c L _ Hb) as (it & Hit & _).
    apply (lk_fresh c L) in Hit. lia. }
  assert (contents (push_front key e c) = mkItem key e :: contents c) as HC.
  { unfold contents, push_front. cbn [c_order c_elems].
    rewrite omap_cons, lookup_insert_eq. f_equal. apply list_omap_ext.
    apply Forall2_same_length_lookup_2; [done|]. intros i x y Hx Hy. simplify_eq.
    apply lookup_insert_ne. intros <-. eapply Hfr; [|done]. by eapply list_elem_of_lookup_2. }
  split; [|done]. split; cbn [push_front c_order c_elems c_items c_next c_bytes].
  - constructor; [|apply L]. intros Hin. by apply (Hfr _ Hin).
  - intros b [->|Hb]%elem_of_cons.
    + exists (mkItem key e). by rewrite !lookup_insert_eq.
    + destruct (lk_order c L b Hb) as (it & Hit & Hi). exists it.
      rewrite lookup_insert_ne by (intros <-; by apply (Hfr _ Hb)). split; [done|].
      rewrite lookup_insert_ne; [done|]. intros Hk2. congruence.
  - intros k b Hb. rewrite elem_of_cons. apply lookup_insert_Some in Hb as [[<- <-]|[Hne Hb]].
    + split; [by left|]. exists (mkItem key e). by rewrite lookup_insert_eq.
    + destruct (lk_index c L k b Hb) as (Hin & it & Hit & Hik). split; [by right|].
      exists it. rewrite lookup_insert_ne by (intros <-; by apply (Hfr _ Hin)). done.
  - intros b it [[<- _]|[_ Hb]]%lookup_insert_Some; [lia|]. apply (lk_fresh c L) in Hb. lia.
  - fold (push_front key e c). rewrite HC. simpl. rewrite (lk_bytes c L). lia.
Qed.

Lemma list_remove_last a l : NoDup (l ++ [a]) → list_remove a (l ++ [a]) = l.
Proof.
  intros (Hl & Hd & _)%NoDup_app. unfold list_remove. rewrite filterb_app. cbn [filterb].
  rewrite bool_decide_true by done. cbn [negb]. rewrite app_nil_r. apply filterb_true_id.
  intros x Hx. apply negb_true_iff, bool_decide_eq_false. intros ->. apply (Hd a Hx). left.
Qed.

(** Eviction leaves the longest prefix that fits. *)
Lemma evict_contents fuel c : (length (c_order c) <= fuel)%nat → linked c →
  linked (evict fuel c) ∧ contents (evict fuel c) = Lru.fit (c_maxBytes c) (contents c)
  ∧ c_maxBytes (evict fuel c) = c_maxBytes c.
Proof.
  revert c. induction fuel as [|fuel IH]; intros c Hlen L.
  - assert (c_order c = []) as Ho by (destruct (c_order c); [done|simpl in Hlen; lia]).
    cbn [evict]. split_and!; try done. unfold contents. by rewrite Ho.
  - cbn [evict]. destruct (c_maxBytes c <? c_bytes c) eqn:Hb; bool_facts.
    2: { split_and!; try done. symmetry. apply fit_all. by rewrite <- (lk_bytes c L). }
    destruct (list.last (c_order c)) as [a|] eqn:Hlast.
    2: { apply last_None in Hlast. split_and!; try done. unfold contents. by rewrite Hlast. }
    apply last_Some in Hlast as [l Hl]. assert (a ∈ c_order c) as Ha by (rewrite Hl; set_solver).
    destruct (lk_order c L a Ha) as (it & Hit & _).
    destruct (drop_refines c a it L Ha Hit) as (L' & HC & Hm & Ho & _).
    pose proof (lk_nodup c L) as Hnd. rewrite Hl in Ho, Hnd. rewrite list_remove_last in Ho by done.
    destruct (IH (drop a c)) as (L2 & HC2 & Hm2); [rewrite Ho; rewrite Hl, length_app in Hlen; simpl in Hlen; lia|done|].
    split_and!; [done| |congruence]. rewrite HC2, Hm.
    assert (contents c = contents (drop a c) ++ [it]) as HE.
    { unfold contents at 1 2. rewrite Ho, Hl, omap_app. unfold drop. rewrite Hit. cbn [c_elems].
      f_equal. by rewrite omap_cons, Hit. }
    rewrite HE, fit_snoc; [done|]. rewrite <- HE, <- (lk_bytes c L). done.
Qed.

Lemma put_refines c key e : wf_cache c →
  wf_cache (put key e c) ∧ contents (put key e c) = Lru.store (c_maxBytes c) key e (contents c)
  ∧ c_maxBytes (put key e c) = c_maxBytes c.
Proof.
  intros [L B]. unfold put, Lru.store. destruct (_ <? _) eqn:Hsz; [done|].
  destruct (drop_key_refines c key L) as (L1 & HC1 & Hm1 & Hk1).
  set (c1 := match c_items c !! key with Some a => drop a c | None => c end) in *.
  destruct (push_front_refines c1 key e L1 Hk1) as (L2 & HC2).
  destruct (evict_contents (length (c_order (push_front key e c1))) (push_front key e c1))
    as (L3 & HC3 & Hm3); [done|done|].
  rewrite HC2, HC1 in HC3. cbn [push_front c_maxBytes] in HC3, Hm3. rewrite Hm1 in HC3, Hm3.
  split_and!; try done. unfold wf_cache. split; [done|].
  rewrite (lk_bytes _ L3), Hm3, HC3. apply fit_total.
Qed.

Lemma newCache_wf max : wf_cache (newCache max).
Proof.
  split; [|simpl; lia]. split; try done; [constructor|]. intros a Ha. inversion Ha.
Qed.

(** No two items have the same key, and the index has exactly their keys. *)
Lemma contents_keys_nodup c : linked c → NoDup (ci_key <$> contents c).
Proof.
  intros L. unfold contents.
  assert (∀ l, NoDup l → (∀ x, x ∈ l → x ∈ c_order c) →
    NoDup (ci_key <$> omap (λ a, c_elems c !! a) l)) as H; [|apply H; [apply L|done]].
  induction 1 as [|x l Hx Hl IH]; intros Hin; [constructor|].
  destruct (lk_order c L x (Hin x (list_elem_of_here _ _))) as (it & Hit & _).
  rewrite omap_cons, Hit. cbn. constructor; [|apply IH; intros y Hy; apply Hin; by right].
  intros (jt & Hk & Hj)%list_elem_of_fmap. apply elem_of_omap in Hj as (y & Hy & Hjt).
  apply Hx. enough (x = y) by congruence.
  eapply linked_key_inj; eauto; apply Hin; [left|by right].
Qed.

Lemma Len_contents c : linked c → Len c = Z.of_nat (length (contents c)).
Proof.
  intros L. unfold Len. f_equal. rewrite <- (size_dom (D:=gset string)).
  rewrite <- (length_fmap ci_key (contents c)), <- (size_list_to_set (C:=gset string));
    [|by apply contents_keys_nodup].
  f_equal. apply set_eq. intros k. rewrite elem_of_dom, elem_of_list_to_set, list_elem_of_fmap. split.
  - intros [a Ha]. destruct (index_Some c k a L Ha) as (it & Hit & Hk & _). exists it.
    split; [done|]. apply elem_contents. exists a. split; [|done]. by eapply lk_index.
  - intros (it & -> & (a & Ha & Hit)%elem_contents). exists a.
    destruct (lk_order c L a Ha) as (jt & ? & ?). congruence.
Qed.

(** ** The refinement *)

(** [c] is well formed and holds the items of [l] in their order. *)
Definition represents (max : Z) (c : Cache) (l : list cacheItem) : Prop :=
  wf_cache c ∧ c_maxBytes c = max ∧ contents c = l.

Lemma exec_refines max o c l : represents max c l →
  (exec o c).1 = (spec_exec max o l).1 ∧ represents max (exec o c).2 (spec_exec max o l).2.
Proof.
  intros ([L B] & <- & <-). destruct o as [now key|key|key e| |]; cbn [exec spec_exec].
  - unfold get. destruct (touch key c) as [item c'] eqn:Ht.
    destruct (touch_refines c key item c' L Ht) as (-> & HC & L' & Hb & Hm).
    assert (represents (c_maxBytes c) c' (Lru.use key (contents c))) as HR.
    { split; [split; [done|congruence]|done]. }
    unfold Lru.lookup_fresh. destruct (Lru.find key (contents c)); [|done]. by destruct (_ <? _).
  - unfold getStale. destruct (touch key c) as [item c'] eqn:Ht.
    destruct (touch_refines c key item c' L Ht) as (-> & HC & L' & Hb & Hm).
    split; [done|]. split; [split; [done|cbn; congruence]|done].
  - destruct (put_refines c key e) as (? & ? & ?); [done|]. done.
  - by rewrite Len_contents.
  - split; [|done]. cbn. unfold Bytes. by rewrite (lk_bytes c L).
Qed.

Lemma run_refines max os c l : represents max c l →
  (run_calls exec os c).1 = (run_calls (spec_exec max) os l).1
  ∧ represents max (run_calls exec os c).2 (run_calls (spec_exec max) os l).2.
Proof.
  revert c l. induction os as [|o os IH]; intros c l H; [done|]. cbn [run_calls].
  destruct (exec_refines max o c l H) as [Ha Hs].
  destruct (exec o c) as [a c'], (spec_exec max o l) as [b l']; cbn [fst snd] in *.
  destruct (IH c' l' Hs) as [Hl Hr].
  destruct (run_calls exec os c'), (run_calls (spec_exec max) os l'); cbn [fst snd] in *.
  by subst.
Qed.
