(* ===== verification/StaticProxy.v ===== *)
(** * The frontend proxy

    [internal/static/proxy.go]: the handler of every path the API does not own.  It
    serves GET and HEAD from the origins, tried in order, with the response cache in
    front of them.  A round trip to an origin ([http.NewRequest] and [client.Do]) is the
    environment's, and so is the clock; a response body that breaks off or fails to
    close is a field of the response.  GET requests for one key share one fetch
    (singleflight): [pstep] is the step relation of the requests in flight, in which a
    fetch, a delivery and a cancellation are separate steps in any order. *)

From S2P Require Import Prelude GoStrings GoTime GoFloat StaticCache Notify Conf.
Local Open Scope Z_scope.

Definition maxObjectBytes : Z := Z.shiftl 8 20.
Definition cacheHeader : string := "X-Cache".
Definition cacheHit : string := "HIT".
Definition cacheMiss : string := "MISS".
Definition cacheStale : string := "STALE".
Definition MethodGet : string := "GET".
Definition MethodHead : string := "HEAD".
Definition StatusOK : Z := 200.
Definition StatusBadGateway : Z := 502.
Definition StatusGatewayTimeout : Z := 504.

(** What the proxy reads of a request: [rq_RequestURI] is [req.URL.RequestURI()]. *)
Record Request := mkRequest {
  rq_Method : string; rq_Host : string; rq_Path : string; rq_RawQuery : string;
  rq_RequestURI : string }.

(** An origin's response: the bytes its body delivers, whether reading them ends in an
    error, and whether closing it fails. *)
Record Response := mkResponse {
  rp_StatusCode : Z; rp_Header : Header; rp_ContentLength : Z; rp_body : string;
  rp_read_err : bool; rp_close_err : bool }.

(** What the client of the proxy receives: the router's 404, the plain 502 text, or a
    response with its status, header and body. *)
Inductive Reply :=
| RPageNotFound
| RString (code : Z) (text : string)
| RWritten (status : Z) (header : Header) (body : string).

(** ** Headers *)

(** The bytes of an HTTP token. *)
Definition token_byte (c : ascii) : bool :=
  let n := byte_val c in
  (((48 <=? n) && (n <=? 57)) || ((65 <=? n) && (n <=? 90)) || ((97 <=? n) && (n <=? 122)))%N
  || bool_decide (c ∈ ["!"; "#"; "$"; "%"; "&"; "'"; "*"; "+"; "-"; "."; "^"; "_"; "`"; "|"; "~"]%char).

Fixpoint canonical (upper : bool) (s : string) : string :=
  match s with
  | ""%string => ""%string
  | String c s' => String (if upper then upper_ascii c else lower_ascii c)
                     (canonical (bool_decide (c = "-"%char)) s')
  end.
Fixpoint all_token (s : string) : bool :=
  match s with ""%string => true | String c s' => token_byte c && all_token s' end.

(** [http.CanonicalHeaderKey]: a name with another byte is left alone. *)
Definition CanonicalHeaderKey (s : string) : string := if all_token s then canonical true s else s.

Definition header_Values (h : Header) (name : string) : list string :=
  default [] (h !! CanonicalHeaderKey name).
Definition header_Add (name value : string) (h : Header) : Header :=
  let k := CanonicalHeaderKey name in <[k := default [] (h !! k) ++ [value]]> h.
Definition header_Set (name value : string) (h : Header) : Header :=
  <[CanonicalHeaderKey name := [value]]> h.

Definition passThroughHeader (name : string) : bool :=
  bool_decide (CanonicalHeaderKey name ∈
    ["Content-Type"; "Content-Length"; "Cache-Control"; "Etag"; "Last-Modified"; "Content-Encoding"]%string).

(** Header names arrive in their canonical spelling, so distinct names stay distinct. *)
Definition responseHeaders (src : Header) : Header :=
  map_fold (λ name values header,
    if passThroughHeader name then <[CanonicalHeaderKey name := values]> header else header) ∅ src.

Definition copyHeaders (dst src : Header) : Header :=
  map_fold (λ name values dst, foldl (λ dst value, header_Add name value dst) dst values) dst src.

(** ** Cache-Control *)

Record cacheDirectives := mkDirectives {
  cd_noStore : bool; cd_noCache : bool; cd_maxAge : Z; cd_sMaxAge : Z }.

Definition parseSeconds (value : string) (current : Z) : Z :=
  match Atoi value with
  | None => current
  | Some seconds => if seconds <? 0 then current else seconds
  end.

(** [strings.Cut(s, "=")]: the parts around the first separator. *)
Fixpoint CutEq (s : string) : string * string :=
  match s with
  | ""%string => (""%string, ""%string)
  | String c s' => if bool_decide (c = "="%char) then (""%string, s')
                   else let (a, b) := CutEq s' in (String c a, b)
  end.

(** [strings.Trim(s, q)] for the one byte [q]. *)
Fixpoint TrimLeftByte (q : ascii) (s : string) : string :=
  match s with
  | String c s' => if bool_decide (c = q) then TrimLeftByte q s' else s
  | ""%string => ""%string
  end.
Definition TrimByte (q : ascii) (s : string) : string := TrimRight (TrimLeftByte q s) q.

Definition parse_part (d : cacheDirectives) (part : string) : cacheDirectives :=
  let (name, argument) := CutEq (TrimSpace part) in
  let argument := TrimByte "034" argument in
  let name := ToLower name in
  if name == "no-store"%string then mkDirectives true (cd_noCache d) (cd_maxAge d) (cd_sMaxAge d)
  else if name == "no-cache"%string then mkDirectives (cd_noStore d) true (cd_maxAge d) (cd_sMaxAge d)
  else if name == "max-age"%string
       then mkDirectives (cd_noStore d) (cd_noCache d) (parseSeconds argument (cd_maxAge d)) (cd_sMaxAge d)
  else if name == "s-maxage"%string
       then mkDirectives (cd_noStore d) (cd_noCache d) (cd_maxAge d) (parseSeconds argument (cd_sMaxAge d))
  else d.

Definition parseCacheControl (header : Header) : cacheDirectives :=
  foldl (λ d value, foldl parse_part d (Split value ",")) (mkDirectives false false (-1) (-1))
    (header_Values header "Cache-Control").

(** The lifetime of a response, or [None] when it may not be stored; the product with
    the second wraps around at 64 bits. *)
Definition cacheTTL (header : Header) (fallback : Z) : option Z :=
  let d := parseCacheControl header in
  if cd_noStore d then None
  else if cd_noCache d then Some 0
  else if 0 <=? cd_sMaxAge d then Some (int64 (cd_sMaxAge d * Second))
  else if 0 <=? cd_maxAge d then Some (int64 (cd_maxAge d * Second))
  else Some fallback.

(** ** The proxy and its effects *)

Definition cacheKey (req : Request) : string :=
  (rq_Host req +:+ rq_Path req +:+ "?" +:+ rq_RawQuery req)%string.

Definition failedStatus (status : Z) : bool :=
  (status == StatusBadGateway) || (status == StatusGatewayTimeout).

Record Options := mkOptions { op_Origins : list string; op_TTL : Z; op_MaxBytes : Z }.

(** The immutable part of [Proxy]. *)
Record Proxy := mkProxy { px_origins : list string; px_ttl : Z }.

(** The environment: the outcome of the n-th round trip ([None] is an error of building
    the request or of sending it) and the n-th reading of the clock. *)
Record PEnv := mkPEnv {
  round_trip : nat → string (* method *) → string (* url *) → string (* host *) → option Response;
  clock_at : nat → Z }.

(** The mutable part: the cache, the readings and round trips so far, and the response
    deadlines that are not released yet. *)
Record PState := mkPState {
  ps_cache : Cache; ps_tick : nat; ps_calls : nat; ps_open : Z }.

Definition P (A : Type) : Type := PEnv → PState → A * PState.
#[global] Instance P_ret : MRet P := λ A a E s, (a, s).
#[global] Instance P_bind : MBind P := λ A B f m E s, let (a, s') := m E s in f a E s'.

Lemma P_bind_eq {A B} (m : P A) (f : A → P B) E s :
  (m ≫= f) E s = let (a, s') := m E s in f a E s'.
Proof. done. Qed.

Definition time_Now : P Z := λ E s,
  (clock_at E (ps_tick s), mkPState (ps_cache s) (S (ps_tick s)) (ps_calls s) (ps_open s)).
(** A method of the cache. *)
Definition on_cache {A} (f : Cache → A * Cache) : P A := λ E s,
  let (a, c) := f (ps_cache s) in (a, mkPState c (ps_tick s) (ps_calls s) (ps_open s)).
(** [context.WithTimeout] and the release of its deadline. *)
Definition add_open (d : Z) : P unit := λ E s,
  (tt, mkPState (ps_cache s) (ps_tick s) (ps_calls s) (ps_open s + d)).
Definition client_Do (method url host : string) : P (option Response) := λ E s,
  (round_trip E (ps_calls s) method url host,
   mkPState (ps_cache s) (ps_tick s) (S (ps_calls s)) (ps_open s)).

(** [deadlineBody.Close]: closes the body and releases the deadline. *)
Definition close_body (resp : Response) : P bool :=
  _ ← add_open (-1); mret (rp_close_err resp).

Definition request (origin : string) (req : Request) : P (option Response) :=
  _ ← add_open 1;
  resp ← client_Do (rq_Method req) ("https://" +:+ origin +:+ rq_RequestURI req)%string origin;
  match resp with
  | None => _ ← add_open (-1); mret None
  | Some r => mret (Some r)
  end.

Inductive fetch_err := errOriginUnavailable | errObjectTooLarge | errUnreadable.
#[global] Instance fetch_err_eq_dec : EqDecision fetch_err.
Proof. solve_decision. Defined.

Definition cache_get (key : string) : P (option entry) := n ← time_Now; on_cache (get n key).
Definition cache_put (key : string) (e : entry) : P unit := on_cache (λ c, (tt, put key e c)).

(** [io.ReadAll(io.LimitReader(body, maxObjectBytes+1))] reports an error only when it
    occurs within the limit. *)
Definition read_fails (resp : Response) : bool := rp_read_err resp && (slen (rp_body resp) <=? maxObjectBytes).

Definition buffer (p : Proxy) (resp : Response) : P (fetch_err + entry) :=
  if maxObjectBytes <? rp_ContentLength resp then
    _ ← close_body resp; mret (inl errObjectTooLarge)
  else
    closeErr ← close_body resp;
    if read_fails resp then mret (inl errUnreadable)
    else if closeErr : bool then mret (inl errUnreadable)
    else if maxObjectBytes <? slen (rp_body resp) then mret (inl errObjectTooLarge)
    else
      let e := mkEntry (rp_StatusCode resp) (responseHeaders (rp_Header resp)) (rp_body resp) 0 false in
      if rp_StatusCode resp == StatusOK then
        match cacheTTL (rp_Header resp) (px_ttl p) with
        | None => mret (inr e)
        | Some ttl =>
          n ← time_Now;
          mret (inr (mkEntry (e_status e) (e_header e) (e_body e) (n + ttl) true))
        end
      else mret (inr e).

(** The loop of [fetch] over the origins. *)
Fixpoint fetch_loop (p : Proxy) (origins : list string) (req : Request) : P (fetch_err + entry) :=
  match origins with
  | [] => mret (inl errOriginUnavailable)
  | origin :: origins =>
    resp ← request origin req;
    match resp with
    | None => fetch_loop p origins req
    | Some resp =>
      if failedStatus (rp_StatusCode resp) then
        _ ← close_body resp; fetch_loop p origins req
      else
        e ← buffer p resp;
        match e with
        | inl errObjectTooLarge => mret (inl errObjectTooLarge)
        | inl _ => fetch_loop p origins req
        | inr e => mret (inr e)
        end
    end
  end.
Definition fetch (p : Proxy) (req : Request) : P (fetch_err + entry) := fetch_loop p (px_origins p) req.

(** ** Replies *)

(** [dst] is the header the middlewares have set so far. *)
Definition writeEntry (dst : Header) (req : Request) (e : entry) (cacheStatus : string) : Reply :=
  RWritten (e_status e) (header_Set cacheHeader cacheStatus (copyHeaders dst (e_header e)))
    (if rq_Method req == MethodHead then ""%string else e_body e).

Definition serveUnavailable (dst : Header) (req : Request) (key : string) : P Reply :=
  if key != ""%string then
    e ← cache_get key;
    match e with
    | Some e => mret (writeEntry dst req e cacheHit)
    | None =>
      s ← on_cache (getStale key);
      match s with
      | Some e => mret (writeEntry dst req e cacheStale)
      | None => mret (RString StatusBadGateway "static origin unavailable")
      end
    end
  else mret (RString StatusBadGateway "static origin unavailable").

(** The loop of [serveStream]: the body is copied as far as it can be read. *)
Fixpoint stream_loop (origins : list string) (dst : Header) (req : Request) (key cacheStatus : string)
  : P Reply :=
  match origins with
  | [] => serveUnavailable dst req key
  | origin :: origins =>
    resp ← request origin req;
    match resp with
    | None => stream_loop origins dst req key cacheStatus
    | Some resp =>
      if failedStatus (rp_StatusCode resp) then
        _ ← close_body resp; stream_loop origins dst req key cacheStatus
      else
        let written := RWritten (rp_StatusCode resp)
          (header_Set cacheHeader cacheStatus (copyHeaders dst (responseHeaders (rp_Header resp))))
          (rp_body resp) in
        _ ← close_body resp; mret written
    end
  end.
Definition serveStream (p : Proxy) (dst : Header) (req : Request) (key cacheStatus : string) : P Reply :=
  stream_loop (px_origins p) dst req key cacheStatus.

(** [result] is what the shared fetch returned. *)
Definition serveResult (p : Proxy) (dst : Header) (req : Request) (key : string)
    (result : fetch_err + entry) : P Reply :=
  match result with
  | inl errObjectTooLarge => serveStream p dst req key cacheMiss
  | inl _ => serveUnavailable dst req key
  | inr e => mret (writeEntry dst req e cacheMiss)
  end.

Definition serveHead (p : Proxy) (dst : Header) (req : Request) : P Reply :=
  let key := cacheKey req in
  e ← cache_get key;
  match e with
  | Some e => mret (writeEntry dst req e cacheHit)
  | None => serveStream p dst req key cacheMiss
  end.

(** The function a GET hands to the singleflight group. *)
Definition shared_fetch (p : Proxy) (req : Request) : P (fetch_err + entry) :=
  r ← fetch p req;
  match r with
  | inl e => mret (inl e)
  | inr e => _ ← (if e_storable e then cache_put (cacheKey req) e else mret tt); mret (inr e)
  end.

(** A GET alone, that is not cancelled: the cache, else its own fetch. *)
Definition serveGet (p : Proxy) (dst : Header) (req : Request) : P Reply :=
  let key := cacheKey req in
  e ← cache_get key;
  match e with
  | Some e => mret (writeEntry dst req e cacheHit)
  | None => r ← shared_fetch p req; serveResult p dst req key r
  end.

Definition handler (p : Proxy) (dst : Header) (req : Request) : P Reply :=
  if rq_Method req == MethodGet then serveGet p dst req
  else if rq_Method req == MethodHead then serveHead p dst req
  else mret RPageNotFound.

Definition newProxy (opts : Options) : Proxy * PState :=
  (mkProxy (op_Origins opts) (op_TTL opts), mkPState (newCache (op_MaxBytes opts)) 0 0 0).

(** [NewHandler]: without an origin the router's own 404. *)
Definition NewHandler (cfg : Static) : conf_err + option (Proxy * PState) :=
  match OriginList cfg with
  | inl e => inl e
  | inr [] => inr None
  | inr origins =>
    match TTL cfg with
    | inl e => inl e
    | inr ttl => match MaxBytes cfg with
                 | inl e => inl e
                 | inr maxBytes => inr (Some (newProxy (mkOptions origins ttl maxBytes)))
                 end
    end
  end.

(** ** Requests in flight *)

(** A GET that waits for the shared fetch of its key; [wt_result] is set when the fetch
    has returned and before the request has taken its result. *)
Record Waiter := mkWaiter { wt_req : Request; wt_dst : Header; wt_result : option (fetch_err + entry) }.

Record Flights := mkFlights {
  fl_state : PState;
  fl_running : gmap string Request;   (* the fetch in progress for a key *)
  fl_waiting : gmap nat Waiter }.     (* by request number *)

Inductive pevent :=
| Arrive (id : nat) (dst : Header) (req : Request)   (* a request reaches the handler *)
| Finish (key : string)                              (* the shared fetch of a key returns *)
| Deliver (id : nat)                                 (* a waiter takes the result *)
| Cancel (id : nat).                                 (* a waiter's client has gone *)

(** [group.DoChan]: the first request of a key starts its fetch, the others join it. *)
Definition DoChan (key : string) (req : Request) (running : gmap string Request) : gmap string Request :=
  match running !! key with Some _ => running | None => <[key := req]> running end.

(** The result reaches every waiter of the key that has none. *)
Definition publish_result (key : string) (r : fetch_err + entry) (w : Waiter) : Waiter :=
  if (cacheKey (wt_req w) == key) && bool_decide (wt_result w = None)
  then mkWaiter (wt_req w) (wt_dst w) (Some r) else w.

(** One step: the next state and the reply it sends, if any. *)
Definition pstep (p : Proxy) (E : PEnv) (ev : pevent) (f : Flights) : option (Flights * option (nat * Reply)) :=
  match ev with
  | Arrive id dst req =>
    if bool_decide (is_Some (fl_waiting f !! id)) then None   (* numbers are not reused *)
    else if rq_Method req == MethodGet then
      let (e, s) := cache_get (cacheKey req) E (fl_state f) in
      match e with
      | Some e => Some (mkFlights s (fl_running f) (fl_waiting f), Some (id, writeEntry dst req e cacheHit))
      | None => Some (mkFlights s (DoChan (cacheKey req) req (fl_running f))
                        (<[id := mkWaiter req dst None]> (fl_waiting f)), None)
      end
    else let (r, s) := handler p dst req E (fl_state f) in
         Some (mkFlights s (fl_running f) (fl_waiting f), Some (id, r))
  | Finish key =>
    req ← fl_running f !! key;
    let (r, s) := shared_fetch p req E (fl_state f) in
    Some (mkFlights s (base.delete key (fl_running f)) (publish_result key r <$> fl_waiting f), None)
  | Deliver id =>
    w ← fl_waiting f !! id;
    r ← wt_result w;
    let (rep, s) := serveResult p (wt_dst w) (wt_req w) (cacheKey (wt_req w)) r E (fl_state f) in
    Some (mkFlights s (fl_running f) (base.delete id (fl_waiting f)), Some (id, rep))
  | Cancel id =>
    w ← fl_waiting f !! id;
    let (rep, s) := serveUnavailable (wt_dst w) (wt_req w) (cacheKey (wt_req w)) E (fl_state f) in
    Some (mkFlights s (fl_running f) (base.delete id (fl_waiting f)), Some (id, rep))
  end.

(** The states of a proxy that has been started with [opts]. *)
Inductive proxy_reachable (opts : Options) (E : PEnv) : Flights → Prop :=
| proxy_started : proxy_reachable opts E (mkFlights (newProxy opts).2 ∅ ∅)
| proxy_stepped f ev f' out : proxy_reachable opts E f →
    pstep (newProxy opts).1 E ev f = Some (f', out) → proxy_reachable opts E f'.
