(* ===== verification/StaticSpec.v ===== *)
(** * Lemmas on the frontend proxy

    The walk over the origins is characterised by the first answer that passes a test
    ([first_answer]); the requests in flight by an invariant: the cache is well formed,
    every cached entry stems from a 200 answer of an origin to a GET for the same key,
    every result a waiter holds stems from an origin, and a waiter without a result has
    a fetch running. *)

From S2P Require Import Prelude GoStrings GoTime StaticCache Notify Conf StaticProxy.
Local Open Scope Z_scope.

(** ** The walk over the origins *)

(** The answer of [origin] in the n-th round trip. *)
Definition answer_of (E : PEnv) (n : nat) (origin : string) (req : Request) : option Response :=
  round_trip E n (rq_Method req) ("https://" +:+ origin +:+ rq_RequestURI req)%string origin.

Section Walk.
Context (E : PEnv) (ok : Response → bool).

(** The first origin whose answer passes the test, with its name and its answer. *)
Fixpoint first_answer (n : nat) (origins : list string) (req : Request) : option (string * Response) :=
  match origins with
  | [] => None
  | origin :: origins =>
    match answer_of E n origin req with
    | Some resp => if ok resp then Some (origin, resp) else first_answer (S n) origins req
    | None => first_answer (S n) origins req
    end
  end.

Lemma first_answer_Some n origins req origin resp :
  first_answer n origins req = Some (origin, resp) →
  ok resp = true ∧ ∃ i, origins !! i = Some origin ∧ answer_of E (n + i) origin req = Some resp
  ∧ ∀ j o r, (j < i)%nat → origins !! j = Some o → answer_of E (n + j) o req = Some r → ok r = false.
Proof.
  revert n. induction origins as [|o os IH]; intros n; cbn [first_answer]; [done|].
  assert (first_answer (S n) os req = Some (origin, resp) →
    (∀ r, answer_of E n o req = Some r → ok r = false) →
    ok resp = true ∧ ∃ i, (o :: os) !! i = Some origin ∧ answer_of E (n + i) origin req = Some resp
    ∧ ∀ j o' r, (j < i)%nat → (o :: os) !! j = Some o' → answer_of E (n + j) o' req = Some r → ok r = false)
    as Hlater.
  { intros H Hhere. destruct (IH _ H) as (Hok & i & Hi & Ha & Hj). split; [done|]. exists (S i).
    replace (n + S i)%nat with (S n + i)%nat by lia. split_and!; [done|done|].
    intros [|j] o' r Hlt Ho Hr; cbn in Ho.
    - injection Ho as <-. rewrite Nat.add_0_r in Hr. eauto.
    - apply (Hj j o' r); [lia|done|]. by replace (S n + j)%nat with (n + S j)%nat by lia. }
  destruct (answer_of E n o req) as [r|] eqn:Hr; [|intros H; apply Hlater; [done|done]].
  destruct (ok r) eqn:Hok.
  - intros [= <- <-]. split; [done|]. exists 0%nat. rewrite Nat.add_0_r. split_and!; try done. lia.
  - intros H. apply Hlater; [done|]. intros r' [= <-]. done.
Qed.

Lemma first_answer_None n origins req : first_answer n origins req = None ↔
  ∀ i origin resp, origins !! i = Some origin → answer_of E (n + i) origin req = Some resp → ok resp = false.
Proof.
  revert n. induction origins as [|o os IH]; intros n; cbn [first_answer]; [done|].
  transitivity ((∀ r, answer_of E n o req = Some r → ok r = false) ∧ first_answer (S n) os req = None).
  - destruct (answer_of E n o req) as [r|]; [|intuition congruence]. destruct (ok r) eqn:Hok; split.
    + done.
    + intros [H _]. specialize (H r eq_refl). congruence.
    + intros H. split; [by intros r' [= <-]|done].
    + by intros [_ H].
  - rewrite IH. split.
    + intros [H1 H2] [|i] origin resp Hi Ha; cbn in Hi.
      * injection Hi as <-. rewrite Nat.add_0_r in Ha. eauto.
      * eapply H2; [done|]. by replace (S n + i)%nat with (n + S i)%nat by lia.
    + intros H. split.
      * intros r Hr. apply (H 0%nat o r); [done|]. by rewrite Nat.add_0_r.
      * intros i origin resp Hi Ha. apply (H (S i) origin resp); [done|].
        by replace (n + S i)%nat with (S n + i)%nat by lia.
Qed.
End Walk.

(** An answer that is passed on as it is. *)
Definition streamable (resp : Response) : bool := bool_decide (rp_StatusCode resp ∉ [502; 504]).

Lemma failedStatus_streamable resp : failedStatus (rp_StatusCode resp) = negb (streamable resp).
Proof.
  unfold failedStatus, streamable, StatusBadGateway, StatusGatewayTimeout. generalize (rp_StatusCode resp). intros z.
  destruct (bool_decide (z ∉ [502; 504])) eqn:H; bool_facts; [|apply dec_stable in H]; revert H;
    rewrite !elem_of_cons, elem_of_nil; intros H.
  - rewrite !bool_decide_false by naive_solver. done.
  - destruct H as [->|[->|[]]]; done.
Qed.

(** An answer that ends the walk of [fetch]: not a failover status, and either known to
    be too large or read to its end. *)
Definition usable (resp : Response) : bool :=
  streamable resp
  && ((maxObjectBytes <? rp_ContentLength resp) || negb (read_fails resp) && negb (rp_close_err resp)).
Definition too_large (resp : Response) : bool :=
  (maxObjectBytes <? rp_ContentLength resp) || (maxObjectBytes <? slen (rp_body resp)).

(** The entry of a buffered response, read at time [t]. *)
Definition entry_of (p : Proxy) (resp : Response) (t : Z) : entry :=
  let e expires storable :=
    mkEntry (rp_StatusCode resp) (responseHeaders (rp_Header resp)) (rp_body resp) expires storable in
  match cacheTTL (rp_Header resp) (px_ttl p) with
  | Some ttl => if rp_StatusCode resp == StatusOK then e (t + ttl) true else e 0 false
  | None => e 0 false
  end.

(** Neither the cache nor the number of open deadlines has changed. *)
Definition quiet (s s' : PState) : Prop := ps_cache s' = ps_cache s ∧ ps_open s' = ps_open s.
#[global] Instance quiet_preorder : PreOrder quiet.
Proof. split; [done|]. unfold quiet. intros x y z [-> ->] [-> ->]. done. Qed.

Definition fetch_result (p : Proxy) (found : option (string * Response)) (t : Z) : fetch_err + entry :=
  match found with
  | None => inl errOriginUnavailable
  | Some (_, resp) => if too_large resp then inl errObjectTooLarge else inr (entry_of p resp t)
  end.

(** What [buffer] makes of an answer, after the request opened its deadline. *)
Lemma buffer_spec p E s resp r s' : streamable resp = true →
  buffer p resp E s = (r, s') →
  ps_cache s' = ps_cache s ∧ ps_open s' = ps_open s - 1 ∧ ps_calls s' = ps_calls s
  ∧ if usable resp then r = fetch_result p (Some (""%string, resp)) (clock_at E (ps_tick s))
    else r = inl errUnreadable ∧ ps_tick s' = ps_tick s.
Proof.
  intros Hs. unfold buffer, usable, fetch_result, too_large, entry_of, close_body, add_open, time_Now.
  rewrite Hs. cbn -[Z.ltb maxObjectBytes cacheTTL].
  destruct (maxObjectBytes <? rp_ContentLength resp); cbn -[Z.ltb maxObjectBytes cacheTTL];
    [intros [= <- <-]; done|].
  destruct (read_fails resp); cbn -[Z.ltb maxObjectBytes cacheTTL]; [intros [= <- <-]; done|].
  destruct (rp_close_err resp); cbn -[Z.ltb maxObjectBytes cacheTTL]; [intros [= <- <-]; done|].
  destruct (maxObjectBytes <? slen (rp_body resp)); cbn -[Z.ltb maxObjectBytes cacheTTL];
    [intros [= <- <-]; done|].
  destruct (cacheTTL _ _); destruct (rp_StatusCode resp == StatusOK);
    cbn -[Z.ltb maxObjectBytes cacheTTL]; intros [= <- <-]; done.
Qed.

Lemma request_spec origin req E s r s' : request origin req E s = (r, s') →
  r = answer_of E (ps_calls s) origin req ∧ ps_cache s' = ps_cache s ∧ ps_tick s' = ps_tick s
  ∧ ps_calls s' = S (ps_calls s) ∧ ps_open s' = ps_open s + (if r is Some _ then 1 else 0).
Proof.
  unfold request, answer_of, client_Do, add_open, mbind, mret, P_bind, P_ret. cbn.
  destruct (round_trip _ _ _ _ _); cbn; intros H; simplify_eq/=; split_and!; try done; lia.
Qed.

(** [fetch] returns what the first usable answer yields, and closes every body. *)
Lemma fetch_loop_spec p E req origins : ∀ s r s', fetch_loop p origins req E s = (r, s') →
  r = fetch_result p (first_answer E usable (ps_calls s) origins req) (clock_at E (ps_tick s)) ∧ quiet s s'.
Proof.
  induction origins as [|o os IH]; intros s r s'; cbn [fetch_loop first_answer]; [intros [= <- <-]; done|].
  rewrite P_bind_eq. destruct (request o req E s) as [a s1] eqn:Hreq.
  destruct (request_spec o req E s a s1 Hreq) as (-> & Hc & Ht & Hn & Ho).
  destruct (answer_of E (ps_calls s) o req) as [resp|].
  2: { intros H. destruct (IH _ _ _ H) as [-> [Hc' Ho']]. rewrite Hn, Ht. split; [done|].
       unfold quiet. rewrite Hc', Ho', Hc, Ho. split; [done|lia]. }
  rewrite failedStatus_streamable. destruct (streamable resp) eqn:Hf; cbn [negb]; swap 1 2.
  - assert (usable resp = false) as -> by (unfold usable; by rewrite Hf).
    rewrite P_bind_eq. unfold close_body. rewrite P_bind_eq. cbn [add_open].
    intros H. destruct (IH _ _ _ H) as [-> [Hc' Ho']].
    cbn [ps_tick ps_calls ps_cache ps_open] in *. rewrite Hn, Ht. split; [done|].
    unfold quiet. rewrite Hc', Ho', Hc, Ho. split; [done|lia].
  - rewrite P_bind_eq. destruct (buffer p resp E s1) as [b s2] eqn:Hb.
    destruct (buffer_spec p E s1 resp b s2) as (Hc2 & Ho2 & Hn2 & Hu);
      [done|done|].
    assert (quiet s s2) as Hq by (unfold quiet; rewrite Hc2, Hc, Ho2, Ho; split; [done|lia]).
    destruct (usable resp) eqn:Hus.
    + subst b. rewrite Ht. unfold fetch_result. destruct (too_large resp); intros [= <- <-]; done.
    + destruct Hu as [-> Ht2]. intros H. destruct (IH _ _ _ H) as [-> Hq'].
      rewrite Hn2, Hn, Ht2, Ht. split; [done|]. by etrans.
Qed.

(** A request that only reads: [serveStream] passes on the first answer that is not a
    failover status, else falls back on the cache. *)
Lemma stream_loop_spec E dst req key st origins : ∀ s r s',
  stream_loop origins dst req key st E s = (r, s') →
  match first_answer E streamable (ps_calls s) origins req with
  | Some (_, resp) =>
      r = RWritten (rp_StatusCode resp)
            (header_Set cacheHeader st (copyHeaders dst (responseHeaders (rp_Header resp)))) (rp_body resp)
      ∧ quiet s s'
  | None => ∃ s1, quiet s s1 ∧ ps_tick s1 = ps_tick s ∧ serveUnavailable dst req key E s1 = (r, s')
  end.
Proof.
  induction origins as [|o os IH]; intros s r s'; cbn [stream_loop first_answer]; [intros H; by exists s|].
  rewrite P_bind_eq. destruct (request o req E s) as [a s1] eqn:Hreq.
  destruct (request_spec o req E s a s1 Hreq) as (-> & Hc & Ht & Hn & Ho).
  assert (∀ s2, ps_cache s2 = ps_cache s1 → ps_calls s2 = ps_calls s1 → ps_tick s2 = ps_tick s1 →
    ps_open s2 = ps_open s → stream_loop os dst req key st E s2 = (r, s') →
    match first_answer E streamable (S (ps_calls s)) os req with
    | Some (_, resp) =>
        r = RWritten (rp_StatusCode resp)
              (header_Set cacheHeader st (copyHeaders dst (responseHeaders (rp_Header resp)))) (rp_body resp)
        ∧ quiet s s'
    | None => ∃ s1, quiet s s1 ∧ ps_tick s1 = ps_tick s ∧ serveUnavailable dst req key E s1 = (r, s')
    end) as Hnext.
  { intros s2 Hc2 Hn2 Ht2 Ho2 H. apply IH in H. rewrite Hn2, Hn in H.
    assert (quiet s s2) as Hq by (unfold quiet; rewrite Hc2, Hc; done).
    destruct (first_answer _ _ _ _ _) as [[? ?]|].
    - destruct H as [-> Hq']. split; [done|]. by etrans.
    - destruct H as (s3 & Hq' & Ht' & Hu). exists s3. split_and!; [by etrans|congruence|done]. }
  destruct (answer_of E (ps_calls s) o req) as [resp|]; [|apply Hnext; try done; lia].
  rewrite failedStatus_streamable. destruct (streamable resp) eqn:Hf; cbn [negb]; swap 1 2.
  - rewrite P_bind_eq. unfold close_body. rewrite P_bind_eq. cbn [add_open].
    apply Hnext; cbn; try done. lia.
  - rewrite P_bind_eq. unfold close_body. rewrite P_bind_eq. cbn. intros [= <- <-].
    split; [done|]. unfold quiet. cbn. rewrite Hc, Ho. split; [done|lia].
Qed.

(** ** The cache behind the handlers *)

Notation held s := (contents (ps_cache s)).

Lemma lru_use_elem key l it : it ∈ Lru.use key l → it ∈ l.
Proof.
  unfold Lru.use. destruct (Lru.find key l) as [x|] eqn:Hf; [|done].
  intros [->|Hin]%elem_of_cons; [by eapply LruFacts.find_Some|].
  unfold Lru.remove in Hin. by apply elem_of_filterb in Hin as [? _].
Qed.

Lemma lru_store_elem max key e l it : it ∈ Lru.store max key e l → it = mkItem key e ∨ it ∈ l.
Proof.
  unfold Lru.store. destruct (_ <? _); [by right|]. intros Hin.
  assert (it ∈ mkItem key e :: Lru.remove key l) as [->|Hr]%elem_of_cons.
  { destruct (LruFacts.fit_prefix max (mkItem key e :: Lru.remove key l)) as [k Hk]. rewrite Hk.
    apply elem_of_app. by left. }
  - by left.
  - right. unfold Lru.remove in Hr. by apply elem_of_filterb in Hr as [? _].
Qed.

(** Only the cache's order of use has changed. *)
Definition touched (s s' : PState) : Prop :=
  wf_cache (ps_cache s') ∧ (∀ it, it ∈ held s' → it ∈ held s)
  ∧ c_maxBytes (ps_cache s') = c_maxBytes (ps_cache s) ∧ ps_open s' = ps_open s
  ∧ ps_calls s' = ps_calls s.

Lemma cache_get_spec E key s r s' : wf_cache (ps_cache s) → cache_get key E s = (r, s') →
  r = Lru.lookup_fresh (clock_at E (ps_tick s)) key (held s)
  ∧ touched s s' ∧ held s' = Lru.use key (held s).
Proof.
  intros W. unfold cache_get. rewrite P_bind_eq. cbn [time_Now]. unfold on_cache. cbn [ps_cache].
  pose proof (exec_refines (c_maxBytes (ps_cache s)) (CGet (clock_at E (ps_tick s)) key) (ps_cache s)
    (held s) (conj W (conj eq_refl eq_refl))) as H. cbn [exec spec_exec] in H.
  destruct (get _ key (ps_cache s)) as [e c'] eqn:Hg. cbn [fst snd] in H.
  destruct H as [Ha (W' & Hm & Hc)]. intros [= <- <-]. cbn. split; [congruence|].
  split; [|done]. unfold touched. cbn. split_and!; try done.
  intros it. rewrite Hc. apply lru_use_elem.
Qed.

Lemma getStale_spec E key s r s' : wf_cache (ps_cache s) → on_cache (getStale key) E s = (r, s') →
  r = ci_entry <$> Lru.find key (held s) ∧ touched s s'.
Proof.
  intros W. unfold on_cache.
  pose proof (exec_refines (c_maxBytes (ps_cache s)) (CGetStale key) (ps_cache s)
    (held s) (conj W (conj eq_refl eq_refl))) as H. cbn [exec spec_exec] in H.
  destruct (getStale key (ps_cache s)) as [e c'] eqn:Hg. cbn [fst snd] in H.
  destruct H as [Ha (W' & Hm & Hc)]. intros [= <- <-]. split; [congruence|].
  unfold touched. cbn. split_and!; try done. intros it. rewrite Hc. apply lru_use_elem.
Qed.

(** A lookup does not change what a key finds. *)
Lemma find_use key l : Lru.find key (Lru.use key l) = Lru.find key l.
Proof.
  unfold Lru.use. destruct (Lru.find key l) as [it|] eqn:Hf; [|done].
  apply LruFacts.find_Some in Hf as [_ Hk]. unfold Lru.find. cbn [filterb].
  by rewrite bool_decide_true.
Qed.

Lemma cacheKey_nonempty req : cacheKey req ≠ ""%string.
Proof. unfold cacheKey. destruct (rq_Host req), (rq_Path req); done. Qed.

(** A request as clients send it: no slash in the host, and a path that starts with a
    slash and, once decoded, has no question mark. *)
Definition plain_request (req : Request) : Prop :=
  no_char "/" (rq_Host req) = true ∧ no_char "?" (rq_Host req) = true
  ∧ no_char "?" (rq_Path req) = true ∧ ∃ rest, rq_Path req = String "/" rest.

(** Between such requests the key tells host, path and query apart. *)
Lemma cacheKey_plain r1 r2 : plain_request r1 → plain_request r2 → cacheKey r1 = cacheKey r2 →
  rq_Host r1 = rq_Host r2 ∧ rq_Path r1 = rq_Path r2 ∧ rq_RawQuery r1 = rq_RawQuery r2.
Proof.
  intros (Hs1 & Hh1 & Hp1 & p1 & He1) (Hs2 & Hh2 & Hp2 & p2 & He2) Hk. unfold cacheKey in Hk.
  destruct (split_at "?" (rq_Host r1 +:+ rq_Path r1) (rq_Host r2 +:+ rq_Path r2) (rq_RawQuery r1) (rq_RawQuery r2))
    as [Hhp ->]; [by rewrite no_char_app, Hh1|by rewrite no_char_app, Hh2|by rewrite !app_string_assoc|].
  rewrite He1, He2 in Hhp. destruct (split_at "/" _ _ _ _ Hs1 Hs2 Hhp) as [-> ->]. by rewrite He1, He2.
Qed.

(** A question mark in a decoded path is not told apart from the one before the query. *)
Lemma cacheKey_collision : ∃ r1 r2, cacheKey r1 = cacheKey r2 ∧ rq_Path r1 ≠ rq_Path r2
  ∧ rq_RequestURI r1 ≠ rq_RequestURI r2.
Proof.
  by exists (mkRequest "GET" "h" "/a?b" "" "/a%3Fb?"), (mkRequest "GET" "h" "/a" "b?" "/a?b?").
Qed.

(** The fallback: a fresh entry is a hit, an expired one is stale, and only a key that
    is not cached yields 502. *)
Definition fallback (dst : Header) (req : Request) (t : Z) (l : list cacheItem) : Reply :=
  match Lru.find (cacheKey req) l with
  | None => RString StatusBadGateway "static origin unavailable"
  | Some it => writeEntry dst req (ci_entry it)
                 (if t <? e_expires (ci_entry it) then cacheHit else cacheStale)
  end.

Lemma touched_trans s1 s2 s3 : touched s1 s2 → touched s2 s3 → touched s1 s3.
Proof.
  intros (W1 & T1 & ? & ? & ?) (W2 & T2 & ? & ? & ?). unfold touched. split_and!; try congruence; auto.
Qed.

Lemma serveUnavailable_spec E dst req s r s' : wf_cache (ps_cache s) →
  serveUnavailable dst req (cacheKey req) E s = (r, s') →
  r = fallback dst req (clock_at E (ps_tick s)) (held s) ∧ touched s s'.
Proof.
  intros W. unfold serveUnavailable, fallback. rewrite bool_decide_false by apply cacheKey_nonempty.
  cbn [negb]. rewrite P_bind_eq. destruct (cache_get _ E s) as [e s1] eqn:Hg.
  destruct (cache_get_spec _ _ _ _ _ W Hg) as (-> & T1 & Hu).
  unfold Lru.lookup_fresh. destruct (Lru.find (cacheKey req) (held s)) as [it|] eqn:Hf.
  - destruct (_ <? _); [intros [= <- <-]; done|].
    rewrite P_bind_eq. destruct (on_cache _ E s1) as [e2 s2] eqn:Hs.
    destruct (getStale_spec _ _ _ _ _ (proj1 T1) Hs) as (-> & T2). rewrite Hu, find_use, Hf. cbn.
    intros [= <- <-]. split; [done|]. by eapply touched_trans.
  - rewrite P_bind_eq. destruct (on_cache _ E s1) as [e2 s2] eqn:Hs.
    destruct (getStale_spec _ _ _ _ _ (proj1 T1) Hs) as (-> & T2). rewrite Hu, find_use, Hf. cbn.
    intros [= <- <-]. split; [done|]. by eapply touched_trans.
Qed.

(** ** Where replies come from *)

Section Provenance.
Context (p : Proxy) (E : PEnv).

(** [e] was buffered from an origin's 200 answer to a GET for [key]. *)
Definition prov (key : string) (e : entry) : Prop :=
  ∃ n t origin req resp ttl, cacheKey req = key ∧ rq_Method req = MethodGet
  ∧ origin ∈ px_origins p ∧ answer_of E n origin req = Some resp ∧ rp_StatusCode resp = StatusOK
  ∧ cacheTTL (rp_Header resp) (px_ttl p) = Some ttl
  ∧ e = mkEntry StatusOK (responseHeaders (rp_Header resp)) (rp_body resp) (clock_at E t + ttl) true.

(** A result of a fetch for [key] that is an entry stems from a usable answer. *)
Definition prov_result (key : string) (r : fetch_err + entry) : Prop :=
  match r with
  | inl _ => True
  | inr e => ∃ n t origin req resp, cacheKey req = key ∧ rq_Method req = MethodGet
      ∧ origin ∈ px_origins p ∧ answer_of E n origin req = Some resp ∧ usable resp = true
      ∧ e = entry_of p resp (clock_at E t)
  end.

Lemma prov_result_storable key e : prov_result key (inr e) → e_storable e = true → prov key e.
Proof.
  intros (n & t & origin & req & resp & Hk & Hm & Ho & Ha & _ & ->). unfold entry_of.
  destruct (cacheTTL _ _) as [ttl|] eqn:Ht; [|done].
  destruct (rp_StatusCode resp == StatusOK) eqn:Hs; [|done]. bool_facts. intros _.
  exists n, t, origin, req, resp, ttl. rewrite Hs. done.
Qed.

Definition sound (s : PState) : Prop :=
  wf_cache (ps_cache s) ∧ ∀ it, it ∈ held s → prov (ci_key it) (ci_entry it).

Lemma sound_quiet s s' : quiet s s' → sound s → sound s'.
Proof. unfold sound. intros [-> _]. done. Qed.
Lemma sound_touched s s' : touched s s' → sound s → sound s'.
Proof. intros (W & Hin & _) [_ H]. split; auto. Qed.

Lemma fetch_prov req s r s' : rq_Method req = MethodGet → fetch p req E s = (r, s') →
  prov_result (cacheKey req) r ∧ quiet s s'.
Proof.
  intros Hm H. apply fetch_loop_spec in H as [-> Hq]. split; [|done]. unfold fetch_result.
  destruct (first_answer _ _ _ _ _) as [[origin resp]|] eqn:Hf; [|done].
  destruct (too_large resp); [done|].
  destruct (first_answer_Some _ _ _ _ _ _ _ Hf) as (Hu & i & Hi & Ha & _).
  exists (ps_calls s + i)%nat, (ps_tick s), origin, req, resp. split_and!; try done.
  by eapply list_elem_of_lookup_2.
Qed.

Lemma shared_fetch_prov req s r s' : sound s → rq_Method req = MethodGet →
  shared_fetch p req E s = (r, s') → prov_result (cacheKey req) r ∧ sound s' ∧ ps_open s' = ps_open s
  ∧ c_maxBytes (ps_cache s') = c_maxBytes (ps_cache s).
Proof.
  intros Hs Hm. unfold shared_fetch. rewrite P_bind_eq. destruct (fetch p req E s) as [r1 s1] eqn:Hf.
  destruct (fetch_prov _ _ _ _ Hm Hf) as [Hp Hq]. pose proof (sound_quiet _ _ Hq Hs) as Hs1.
  destruct Hq as [Hc Ho]. destruct r1 as [e|e]; [intros [= <- <-]; by rewrite Hc|].
  rewrite P_bind_eq. destruct (e_storable e) eqn:Hst; [|intros [= <- <-]; by rewrite Hc].
  cbn. intros [= <- <-]. destruct (put_refines (ps_cache s1) (cacheKey req) e (proj1 Hs1)) as (W & HC & Hmax).
  split_and!; try done; [|cbn; congruence]. split; [done|]. cbn. intros it Hit. rewrite HC in Hit.
  apply lru_store_elem in Hit as [->|Hit]; [by apply prov_result_storable|by apply (proj2 Hs1)].
Qed.

(** Every reply to [req] is one of these. *)
Inductive justified (dst : Header) (req : Request) : Reply → Prop :=
| just_404 : rq_Method req ≠ MethodGet → rq_Method req ≠ MethodHead → justified dst req RPageNotFound
| just_502 : justified dst req (RString StatusBadGateway "static origin unavailable")
| just_hit e t : prov (cacheKey req) e → clock_at E t < e_expires e →
    justified dst req (writeEntry dst req e cacheHit)
| just_stale e t : prov (cacheKey req) e → e_expires e <= clock_at E t →
    justified dst req (writeEntry dst req e cacheStale)
| just_miss n origin req' resp : cacheKey req' = cacheKey req → rq_Method req' = rq_Method req →
    origin ∈ px_origins p → answer_of E n origin req' = Some resp → streamable resp = true →
    justified dst req (RWritten (rp_StatusCode resp)
      (header_Set cacheHeader cacheMiss (copyHeaders dst (responseHeaders (rp_Header resp)))) (rp_body resp)).

Lemma sound_find s key it : sound s → Lru.find key (held s) = Some it → prov key (ci_entry it).
Proof. intros [_ H] [Hin <-]%LruFacts.find_Some. by apply H. Qed.

Lemma fallback_justified dst req s t : sound s →
  justified dst req (fallback dst req (clock_at E t) (held s)).
Proof.
  intros Hs. unfold fallback. destruct (Lru.find _ _) as [it|] eqn:Hf; [|constructor].
  pose proof (sound_find _ _ _ Hs Hf). destruct (_ <? _) eqn:Hx; bool_facts; econstructor; eauto; lia.
Qed.

(** A step of the proxy that keeps the cache sound and closes what it opens. *)
Definition keeps (s s' : PState) : Prop :=
  sound s' ∧ ps_open s' = ps_open s ∧ c_maxBytes (ps_cache s') = c_maxBytes (ps_cache s).

Lemma keeps_touched s s' : sound s → touched s s' → keeps s s'.
Proof. intros Hs T. split; [by eapply sound_touched|]. by destruct T as (_ & _ & ? & ? & _). Qed.

Lemma unavailable_justified dst req s r s' : sound s →
  serveUnavailable dst req (cacheKey req) E s = (r, s') → justified dst req r ∧ keeps s s'.
Proof.
  intros Hs H. destruct (serveUnavailable_spec _ _ _ _ _ _ (proj1 Hs) H) as [-> T].
  split; [by apply fallback_justified|by apply keeps_touched].
Qed.

Lemma stream_justified dst req s r s' : sound s →
  serveStream p dst req (cacheKey req) cacheMiss E s = (r, s') → justified dst req r ∧ keeps s s'.
Proof.
  intros Hs H. apply stream_loop_spec in H.
  destruct (first_answer _ _ _ _ _) as [[origin resp]|] eqn:Hf.
  - destruct H as [-> Hq]. destruct (first_answer_Some _ _ _ _ _ _ _ Hf) as (Hu & i & Hi & Ha & _).
    split; [|split; [by eapply sound_quiet|destruct Hq as [-> ->]; done]].
    eapply just_miss; try done. by eapply list_elem_of_lookup_2.
  - destruct H as (s1 & Hq & _ & H). pose proof (sound_quiet _ _ Hq Hs) as Hs1.
    destruct (unavailable_justified _ _ _ _ _ Hs1 H) as [Hj (? & ? & ?)].
    split; [done|]. destruct Hq as [Hc Ho]. split_and!; [done|congruence|].
    by rewrite <- Hc.
Qed.

Lemma result_justified dst req r s rep s' : sound s → rq_Method req = MethodGet →
  prov_result (cacheKey req) r →
  serveResult p dst req (cacheKey req) r E s = (rep, s') → justified dst req rep ∧ keeps s s'.
Proof.
  intros Hs Hm Hp. unfold serveResult. destruct r as [[| |]|e].
  - by apply unavailable_justified.
  - by apply stream_justified.
  - by apply unavailable_justified.
  - intros [= <- <-]. split; [|done]. destruct Hp as (n & t & origin & req' & resp & Hk & Hm' & Ho & Ha & Hu & ->).
    unfold writeEntry. rewrite Hm. rewrite bool_decide_false by done. unfold usable in Hu. bool_facts.
    assert (entry_of p resp (clock_at E t) = mkEntry (rp_StatusCode resp) (responseHeaders (rp_Header resp))
      (rp_body resp) (e_expires (entry_of p resp (clock_at E t))) (e_storable (entry_of p resp (clock_at E t)))) as ->.
    { unfold entry_of. destruct (cacheTTL _ _); [|done]. by destruct (_ == _). }
    cbn [e_status e_header e_body]. eapply just_miss; try done. congruence.
Qed.

Lemma get_justified dst req s e s' : sound s → cache_get (cacheKey req) E s = (e, s') →
  keeps s s' ∧ ∀ x, e = Some x → justified dst req (writeEntry dst req x cacheHit).
Proof.
  intros Hs H. destruct (cache_get_spec _ _ _ _ _ (proj1 Hs) H) as (-> & T & _).
  split; [by apply keeps_touched|]. intros x. unfold Lru.lookup_fresh.
  destruct (Lru.find _ _) as [it|] eqn:Hf; [|done]. destruct (_ <? _) eqn:Hx; [|done].
  intros [= <-]. bool_facts. econstructor; [by eapply sound_find|done].
Qed.

Lemma keeps_trans s1 s2 s3 : keeps s1 s2 → keeps s2 s3 → keeps s1 s3.
Proof. intros (? & ? & ?) (? & ? & ?). split_and!; [done|congruence|congruence]. Qed.

Lemma handler_justified dst req s rep s' : sound s → handler p dst req E s = (rep, s') →
  justified dst req rep ∧ keeps s s'.
Proof.
  intros Hs. unfold handler. destruct (_ == MethodGet) eqn:Hg; bool_facts.
  - unfold serveGet. rewrite P_bind_eq. destruct (cache_get _ E s) as [e s1] eqn:Hc.
    destruct (get_justified dst req s e s1 Hs Hc) as [K1 Hhit].
    destruct e as [e|]; [intros [= <- <-]; auto|]. rewrite P_bind_eq.
    destruct (shared_fetch p req E s1) as [r s2] eqn:Hf.
    destruct (shared_fetch_prov req s1 r s2 (proj1 K1) Hg Hf) as (Hp & Hs2 & Ho & Hmax).
    intros H. destruct (result_justified _ _ _ _ _ _ Hs2 Hg Hp H) as [Hj K3]. split; [done|].
    eapply keeps_trans; [exact K1|]. eapply keeps_trans; [|exact K3]. done.
  - destruct (_ == MethodHead) eqn:Hh; bool_facts.
    + unfold serveHead. rewrite P_bind_eq. destruct (cache_get _ E s) as [e s1] eqn:Hc.
      destruct (get_justified dst req s e s1 Hs Hc) as [K1 Hhit].
      destruct e as [e|]; [intros [= <- <-]; auto|].
      intros H. destruct (stream_justified _ _ _ _ _ (proj1 K1) H) as [Hj K2].
      split; [done|]. by eapply keeps_trans.
    + intros [= <- <-]. split; [by constructor|done].
Qed.
End Provenance.

(** ** Requests in flight *)

Record flights_ok (opts : Options) (E : PEnv) (f : Flights) : Prop := mkFlightsOk {
  fo_sound : sound (newProxy opts).1 E (fl_state f);
  fo_budget : c_maxBytes (ps_cache (fl_state f)) = op_MaxBytes opts;
  fo_open : ps_open (fl_state f) = 0;
  fo_running : ∀ k req, fl_running f !! k = Some req → cacheKey req = k ∧ rq_Method req = MethodGet;
  fo_waiting : ∀ id w, fl_waiting f !! id = Some w → rq_Method (wt_req w) = MethodGet
    ∧ match wt_result w with
      | Some r => prov_result (newProxy opts).1 E (cacheKey (wt_req w)) r
      | None => is_Some (fl_running f !! cacheKey (wt_req w))
      end }.

(** The request a step answers. *)
Definition answered (ev : pevent) (f : Flights) : option (nat * Header * Request) :=
  match ev with
  | Arrive id dst req => Some (id, dst, req)
  | Finish _ => None
  | Deliver id | Cancel id => w ← fl_waiting f !! id; Some (id, wt_dst w, wt_req w)
  end.

Definition reply_justified (opts : Options) (E : PEnv) (ev : pevent) (f : Flights)
    (out : option (nat * Reply)) : Prop :=
  ∀ id rep, out = Some (id, rep) → ∃ dst req,
    answered ev f = Some (id, dst, req) ∧ justified (newProxy opts).1 E dst req rep.

Section Flights.
Context (opts : Options) (E : PEnv).
Notation p := (newProxy opts).1.
Notation ok := (flights_ok opts E).

(** Replacing the state by one that keeps it, with the other parts unchanged or shrunk. *)
Lemma flights_keeps f s waiting : ok f → keeps p E (fl_state f) s →
  (∀ id w, waiting !! id = Some w → fl_waiting f !! id = Some w) →
  ok (mkFlights s (fl_running f) waiting).
Proof.
  intros [Hs Hb Ho Hr Hw] (Hs' & Ho' & Hb') Hsub. split; cbn; try done; try congruence.
  intros id w Hid. by apply (Hw id w), Hsub.
Qed.

Lemma delete_waiting (f : Flights) id : ∀ i w, base.delete id (fl_waiting f) !! i = Some w →
  fl_waiting f !! i = Some w.
Proof. intros i w H. by apply lookup_delete_Some in H as [_ H]. Qed.

Lemma step_arrive f f' out id dst req : ok f →
  pstep p E (Arrive id dst req) f = Some (f', out) → ok f' ∧ reply_justified opts E (Arrive id dst req) f out.
Proof.
  intros Hf. cbn [pstep]. destruct (bool_decide _); [done|]. destruct (_ == MethodGet) eqn:Hg; bool_facts.
  - destruct (cache_get _ E (fl_state f)) as [e s] eqn:Hc.
    destruct (get_justified p E dst req _ _ _ (fo_sound _ _ _ Hf) Hc) as [K Hhit].
    destruct e as [e|]; intros [= <- <-].
    + split; [by apply flights_keeps|]. intros i rep [= <- <-]. exists dst, req. auto.
    + split; [|done]. destruct (flights_keeps f s (fl_waiting f) Hf K) as [H1 H2 H3 H4 H5]; [done|].
      unfold DoChan. split; cbn in *; try done.
      * intros k r. destruct (fl_running f !! cacheKey req) eqn:Hr; [apply H4|].
        intros [[<- <-]|[_ ?]]%lookup_insert_Some; [done|by apply H4].
      * intros i w [[<- <-]|[_ Hw]]%lookup_insert_Some; cbn.
        -- split; [done|]. destruct (fl_running f !! cacheKey req) eqn:Hr; [by rewrite Hr|].
           rewrite lookup_insert_eq. eauto.
        -- destruct (H5 i w Hw) as [Hm Hres]. split; [done|]. destruct (wt_result w); [done|].
           destruct (fl_running f !! cacheKey req) eqn:Hr; [done|].
           rewrite lookup_insert_is_Some'. by right.
  - destruct (handler p dst req E (fl_state f)) as [r s] eqn:Hh.
    destruct (handler_justified p E _ _ _ _ _ (fo_sound _ _ _ Hf) Hh) as [Hj K].
    intros [= <- <-]. split; [by apply flights_keeps|]. intros i rep [= <- <-]. exists dst, req. auto.
Qed.

Lemma step_finish f f' out key : ok f → pstep p E (Finish key) f = Some (f', out) →
  ok f' ∧ reply_justified opts E (Finish key) f out.
Proof.
  intros [Hs Hb Ho Hr Hw]. cbn [pstep]. destruct (fl_running f !! key) as [req|] eqn:Hk; [|done].
  destruct (Hr _ _ Hk) as [Hkey Hm]. cbn [mbind option_bind].
  destruct (shared_fetch p req E (fl_state f)) as [r s] eqn:Hf.
  destruct (shared_fetch_prov p E req _ _ _ Hs Hm Hf) as (Hp & Hs' & Ho' & Hb').
  intros [= <- <-]. split; [|done]. split; cbn; try done; try congruence.
  - intros k q [_ Hq]%lookup_delete_Some. by apply Hr.
  - intros id w. rewrite lookup_fmap. destruct (fl_waiting f !! id) as [w0|] eqn:Hid; [|done].
    cbn. intros [= <-]. destruct (Hw id w0 Hid) as [Hm0 H0]. unfold publish_result.
    destruct (_ && _) eqn:Hb0; bool_facts; cbn.
    + split; [done|]. rewrite H, <- Hkey. exact Hp.
    + split; [done|]. destruct (wt_result w0) as [r0|] eqn:Hres; [done|].
      rewrite lookup_delete_ne; [done|]. intros ->. rewrite !bool_decide_true in Hb0; done.
Qed.

Lemma step_leave f f' out ev : ok f → (∃ id, ev = Deliver id ∨ ev = Cancel id) →
  pstep p E ev f = Some (f', out) → ok f' ∧ reply_justified opts E ev f out.
Proof.
  intros Hf [id Hev].
  assert (∀ w rep s, fl_waiting f !! id = Some w → justified p E (wt_dst w) (wt_req w) rep →
    keeps p E (fl_state f) s →
    ok (mkFlights s (fl_running f) (base.delete id (fl_waiting f)))
    ∧ reply_justified opts E ev f (Some (id, rep))) as Hleave.
  { intros w rep s Hid Hj K. split; [apply flights_keeps; [done|done|apply delete_waiting]|].
    intros i rep' [= <- <-]. exists (wt_dst w), (wt_req w). split; [|done].
    destruct Hev as [->| ->]; cbn; by rewrite Hid. }
  destruct Hev as [-> | ->]; cbn [pstep]; destruct (fl_waiting f !! id) as [w|] eqn:Hid; try done;
    cbn [mbind option_bind]; destruct (fo_waiting _ _ _ Hf id w Hid) as [Hm Hres].
  - destruct (wt_result w) as [r|]; [|done]. cbn [mbind option_bind].
    destruct (serveResult _ _ _ _ _ _ _) as [rep s] eqn:Hsv.
    destruct (result_justified p E _ _ _ _ _ _ (fo_sound _ _ _ Hf) Hm Hres Hsv) as [Hj K].
    intros [= <- <-]. by eapply Hleave.
  - destruct (serveUnavailable _ _ _ _ _) as [rep s] eqn:Hsv.
    destruct (unavailable_justified p E _ _ _ _ _ (fo_sound _ _ _ Hf) Hsv) as [Hj K].
    intros [= <- <-]. by eapply Hleave.
Qed.

Lemma pstep_ok f f' ev out : ok f → pstep p E ev f = Some (f', out) →
  ok f' ∧ reply_justified opts E ev f out.
Proof.
  intros Hf H. destruct ev as [id dst req|key|id|id];
    [by apply step_arrive|by apply step_finish| |]; (eapply step_leave; [done|eauto|done]).
Qed.

Lemma reachable_ok f : proxy_reachable opts E f → ok f.
Proof.
  induction 1 as [|f ev f' out Hf IH Hstep]; [|by eapply pstep_ok].
  split; cbn; try done. split; [apply newCache_wf|]. intros it Hit. inversion Hit.
Qed.
End Flights.
