(* ===== verification/NotifySpec.v ===== *)
(** * Facts about notifications

    The delivery loop as moves of single rows, its termination measure, what holds when
    it ends, the rows a publication builds, and the recorded outcome of a delivery on a
    database that does not fail. *)

From S2P Require Import Prelude GoStrings GoTime Errors Event Models Store Queries Writes Integrity WritesSpec Outbox OutboxSpec Notify.
Local Open Scope Z_scope.

#[global] Arguments deliver : simpl never.
#[global] Arguments ClaimPending : simpl never.

(** ** One delivery *)

(** What recording an outcome makes of the claimed row: the write is lost, the mail is
    sent, the row fails, or it waits for another attempt. *)
Inductive settles (maxAttempts : Z) (r : OutboxRow) : OutboxRow → Prop :=
| settle_lost : settles maxAttempts r r
| settle_sent n : settles maxAttempts r (sent_row n r)
| settle_failed txt n :
    settles maxAttempts r (failed_row NotificationStatusFailed None txt n r)
| settle_retry txt n next : or_attempts r < maxAttempts →
    settles maxAttempts r (failed_row NotificationStatusPending (Some next) txt n r).
#[export] Hint Constructors settles : sd.

#[global] Instance ro_Backoff base a : ReadOnly (Backoff base a).
Proof. intros P. unfold Backoff, withJitter. pres. Qed.
#[global] Instance ro_sendGuarded row : ReadOnly (sendGuarded row).
Proof. intros P. unfold sendGuarded. pres. Qed.

Lemma set_outbox_id t k r : t_outbox t !! k = Some r → t = set_outbox (<[k := r]> (t_outbox t)) t.
Proof. intros Hk. rewrite insert_id by done. by destruct t. Qed.

(** A transaction whose error is dropped either commits or changes nothing. *)
Lemma quietly_tx {A} (m : M A) E w o w' :
  quietly (execWithTx false m) E w = (o, w') →
  (∃ a, execWithTx false m E w = (Ret a, w')) ∨ w_tab w' = w_tab w.
Proof.
  unfold quietly. rewrite bind_run. unfold try. simpl.
  destruct (WithTx m E w) as [[a|e|] w1] eqn:H; intros [= <- <-]; eauto; right;
    by eapply WithTx_not_Ret; [exact H|].
Qed.

(** A failed delivery never leaves its row sent. *)
Lemma markFailure_settles wk id e E w o w' r :
  t_outbox (w_tab w) !! id = Some r →
  markFailure wk id e E w = (o, w') →
  ∃ r', settles (wk_maxAttempts wk) r r' ∧ (r' = r ∨ or_status r' ≠ NotificationStatusSent)
    ∧ or_kind r' = or_kind r
    ∧ w_tab w' = set_outbox (<[id := r']> (t_outbox (w_tab w))) (w_tab w).
Proof.
  intros Hr H. unfold markFailure in H.
  assert (w_tab w' = w_tab w → ∃ r', settles (wk_maxAttempts wk) r r'
    ∧ (r' = r ∨ or_status r' ≠ NotificationStatusSent) ∧ or_kind r' = or_kind r
    ∧ w_tab w' = set_outbox (<[id := r']> (t_outbox (w_tab w))) (w_tab w)) as Hlost.
  { intros ->. exists r. split_and!; [constructor|by left|done|by apply set_outbox_id]. }
  destruct (se_permanent e); apply quietly_tx in H as [[a H]|Ht]; [|by apply Hlost| |by apply Hlost].
  - apply MarkFailedTerminal_Ret in H. rewrite (update_where_lookup _ _ _ _ Hr) in H.
    eexists. split_and!; [apply settle_failed|by right|done|exact H].
  - apply MarkFailed_Ret in H as (r0 & n & next & Hr0 & Hnext & H); [|apply _].
    rewrite Hr in Hr0. injection Hr0 as <-.
    destruct (wk_maxAttempts wk <=? or_attempts r) eqn:Hmax; bool_facts.
    + subst next. eexists. split_and!; [apply settle_failed|by right|done|exact H].
    + destruct Hnext as [at_ ->]. eexists. split_and!; [by apply settle_retry|by right|done|exact H].
Qed.

Lemma deliver_settles wk row E w o w' r :
  t_outbox (w_tab w) !! no_ID row = Some r →
  deliver wk row E w = (o, w') →
  ∃ r', settles (wk_maxAttempts wk) r r'
    ∧ w_tab w' = set_outbox (<[no_ID row := r']> (t_outbox (w_tab w))) (w_tab w).
Proof.
  intros Hr H. unfold deliver in H. rewrite bind_run in H.
  destruct (sendGuarded row E w) as [o1 w1] eqn:Hs.
  pose proof (ReadOnly_tab _ _ _ _ _ Hs) as Ht1. rewrite <- Ht1 in Hr |- *.
  assert (∀ w2, w_tab w2 = w_tab w1 → ∃ r', settles (wk_maxAttempts wk) r r'
    ∧ w_tab w2 = set_outbox (<[no_ID row := r']> (t_outbox (w_tab w1))) (w_tab w1)) as Hlost.
  { intros w2 ->. exists r. split; [constructor|by apply set_outbox_id]. }
  destruct o1 as [[e|]|e|]; [| |injection H as <- <-; by apply Hlost..].
  - apply (markFailure_settles _ _ _ _ _ _ _ r) in H as (r' & Hset & _ & _ & Ht); [|done]. by exists r'.
  - apply quietly_tx in H as [[a H]|Ht]; [|by apply Hlost].
    apply MarkSent_Ret in H as [_ H]. rewrite (update_where_lookup _ _ _ _ Hr) in H.
    eexists. split; [apply settle_sent|exact H].
Qed.

(** A claim of the worker takes nothing, or one due row. *)
Lemma claim_one owner E w rs w' :
  ClaimPending false claimBatchSize owner E w = (Ret rs, w') →
  (rs = [] ∧ w_tab w' = w_tab w) ∨
  ∃ k r n, rs = [claimed_row owner n (scanOutboxRow k r)]
    ∧ t_outbox (w_tab w) !! k = Some r ∧ due (now_at E (w_tick w)) r = true
    ∧ w_tab w' = set_outbox (<[k := claim owner n r]> (t_outbox (w_tab w))) (w_tab w).
Proof.
  intros (_ & -> & Ht1 & _)%ClaimPending_Ret.
  set (n := now_at E (S (w_tick w))) in *. set (ids := claimable _ _ _) in *.
  assert (length ids ≤ 1)%nat as Hlen.
  { unfold ids, claimable. rewrite length_take. change (Z.to_nat claimBatchSize) with 1%nat. lia. }
  destruct ids as [|[k r] [|? ?]] eqn:Hids; [left|right|simpl in Hlen; lia].
  - split; [done|]. rewrite Ht1, update_where_none; [by destruct (w_tab w)|].
    intros k r _. apply bool_decide_eq_false. intros Hk. inversion Hk.
  - destruct (claimable_sound (now_at E (w_tick w)) claimBatchSize (w_tab w) (k, r)) as [Hr Hdue].
    { fold ids. rewrite Hids. left. }
    exists k, r, n. split_and!; [done..|]. rewrite Ht1. f_equal.
    rewrite <- (update_where_lookup _ _ _ _ Hr). apply map_eq. intros i.
    rewrite !lookup_update_where. apply option_fmap_ext. intros x.
    rewrite (bool_decide_ext (i ∈ [k]) (i = k)); [done|]. apply list_elem_of_singleton.
Qed.

(** A round of the loop: nothing is due, or one due row is claimed and settled. *)
Lemma drain_round_cases wk E w o w' :
  drain_round wk E w = (o, w') →
  (w_tab w' = w_tab w ∧ o ≠ Ret true) ∨
  ∃ k r n r', t_outbox (w_tab w) !! k = Some r ∧ due (now_at E (S (w_tick w))) r = true
    ∧ settles (wk_maxAttempts wk) (claim (wk_leaseOwner wk) n r) r'
    ∧ w_tab w' = set_outbox (<[k := r']> (t_outbox (w_tab w))) (w_tab w).
Proof.
  intros H. unfold drain_round in H. rewrite bind_run in H. cbn [ctx_done reading] in H.
  destruct (cancel_at E (w_tick w)); [injection H as <- <-; left; by split|].
  set (w0 := mkWorld _ _ _ _ _) in H. rewrite bind_run in H.
  destruct (ClaimPending false claimBatchSize (wk_leaseOwner wk) E w0) as [oc w1] eqn:Hc.
  destruct oc as [rs|e|]; [|injection H as <- <-; left;
    split; [by rewrite (WithTx_not_Ret _ _ _ _ _ Hc)|done]..].
  apply claim_one in Hc as [[-> Ht1]|(k & r & n & -> & Hr & Hdue & Hw1)].
  { injection H as <- <-. by left. }
  right. exists k, r, n. cbn [w_tab w_tick] in *.
  assert (t_outbox (w_tab w1) !! k = Some (claim (wk_leaseOwner wk) n r)) as Hk1
    by (rewrite Hw1; apply lookup_insert_eq).
  cbn [mapM] in H. rewrite !bind_run in H. unfold ctx_done, reading in H. cbv beta iota in H.
  destruct (cancel_at E (w_tick w1)).
  { injection H as <- <-. exists (claim (wk_leaseOwner wk) n r).
    split_and!; [done|done|constructor|exact Hw1]. }
  set (w2 := mkWorld _ _ _ _ _) in H. destruct (deliver wk _ E w2) as [od w3] eqn:Hd.
  apply (deliver_settles _ _ _ _ _ _ (claim (wk_leaseOwner wk) n r)) in Hd as (r' & Hset & Ht3); [|done].
  exists r'. split_and!; [done|done|done|].
  assert (w_tab w' = w_tab w3) as -> by (destruct od; by injection H as <- <-).
  rewrite Ht3. change (w_tab w2) with (w_tab w1). rewrite Hw1. unfold set_outbox. cbn [t_outbox].
  by rewrite insert_insert_eq.
Qed.

(** ** The loop ends *)

Lemma queue_work_insert maxAttempts m k r :
  m !! k = None →
  queue_work maxAttempts (<[k := r]> m) = (row_work maxAttempts r + queue_work maxAttempts m)%nat.
Proof.
  intros Hk. unfold queue_work. rewrite map_fold_insert_L; [done| |done]. intros. lia.
Qed.

Lemma queue_work_update maxAttempts m k r r' :
  m !! k = Some r →
  (queue_work maxAttempts (<[k := r']> m) + row_work maxAttempts r
   = queue_work maxAttempts m + row_work maxAttempts r')%nat.
Proof.
  intros Hk. rewrite <- (insert_delete_id m k r Hk) at 2. rewrite <- insert_delete_eq.
  rewrite !queue_work_insert by apply lookup_delete_eq. lia.
Qed.

(** Claiming and settling a pending row leaves less to do. *)
Lemma settle_work maxAttempts owner n r r' :
  or_status r = NotificationStatusPending →
  settles maxAttempts (claim owner n r) r' →
  (row_work maxAttempts r' < row_work maxAttempts r)%nat.
Proof.
  intros Hr H. unfold row_work. rewrite Hr.
  rewrite (bool_decide_true (NotificationStatusPending = NotificationStatusPending)) by done.
  inversion H; subst; simpl in *; lia.
Qed.

Lemma due_pending n r : due n r = true → or_status r = NotificationStatusPending.
Proof. unfold due. intros [H _]%andb_true_iff. by apply bool_decide_eq_true in H. Qed.

Lemma drain_round_work wk E w w' :
  drain_round wk E w = (Ret true, w') →
  (queue_work (wk_maxAttempts wk) (t_outbox (w_tab w'))
   < queue_work (wk_maxAttempts wk) (t_outbox (w_tab w)))%nat.
Proof.
  intros H. apply drain_round_cases in H as [[_ H]|(k & r & n & r' & Hr & Hdue & Hset & ->)]; [done|].
  simpl. pose proof (queue_work_update (wk_maxAttempts wk) _ _ _ r' Hr).
  pose proof (settle_work _ _ _ _ _ (due_pending _ _ Hdue) Hset). lia.
Qed.

(** Enough fuel never runs out. *)
Lemma drain_loop_ends wk fuel : ∀ E w w',
  (queue_work (wk_maxAttempts wk) (t_outbox (w_tab w)) < fuel)%nat →
  drain_loop fuel wk E w ≠ (Ret false, w').
Proof.
  induction fuel as [|fuel IH]; intros E w w' Hlt; [lia|]. cbn [drain_loop]. rewrite bind_run.
  destruct (drain_round wk E w) as [[[]|e|] w1] eqn:Hround; try done.
  apply IH. apply drain_round_work in Hround. lia.
Qed.

(** When a round reports that nothing is due, nothing is. *)
Lemma drain_round_done wk E w w' :
  drain_round wk E w = (Ret false, w') →
  ∃ dueAt, ∀ k r, t_outbox (w_tab w') !! k = Some r → due dueAt r = false.
Proof.
  intros H. unfold drain_round in H.
  apply bind_Ret_inv in H as (c & w1 & H1 & H). injection H1 as <- <-.
  destruct (cancel_at _ _); [done|]. apply bind_Ret_inv in H as (rs & w2 & Hc & H).
  apply ClaimPending_Ret in Hc as (_ & -> & Ht & _). simpl in Ht.
  set (dueAt := now_at _ _) in *. set (ids := claimable _ _ _) in *.
  destruct ids as [|kr ids'] eqn:Hids.
  - injection H as <-. exists dueAt. intros k r. rewrite Ht. simpl.
    rewrite update_where_none by done.
    intros Hr. destruct (due dueAt r) eqn:Hd; [|done]. exfalso.
    assert ((k, r) ∈ filterb (λ kr : Z * OutboxRow, due dueAt kr.2) (rows (t_outbox (w_tab w)))) as Hin
      by (by rewrite elem_of_filterb, elem_of_rows).
    unfold ids, claimable in Hids. change (Z.to_nat claimBatchSize) with 1%nat in Hids. simpl in Hids.
    destruct (filterb _ _); [inversion Hin|done].
  - rewrite fmap_cons in H. apply bind_Ret_inv in H as (? & ? & _ & H). done.
Qed.

Lemma drain_loop_done wk fuel : ∀ E w w',
  drain_loop fuel wk E w = (Ret true, w') →
  ∃ dueAt, ∀ k r, t_outbox (w_tab w') !! k = Some r → due dueAt r = false.
Proof.
  induction fuel as [|fuel IH]; intros E w w' H; [done|]. cbn [drain_loop] in H.
  apply bind_Ret_inv in H as ([] & w1 & H1 & H); [eauto|].
  injection H as <-. by eapply drain_round_done.
Qed.

(** ** Publishing *)

(** Every row of a change is a pending row for one of its recipients. *)
Lemma BuildRows_rows r ch E w l w' :
  BuildRows r ch E w = (Ret l, w') → ∀ row, row ∈ l → ∃ payload changeID rcpt,
    row = outbox_row ch payload changeID rcpt
    ∧ rcpt ∈ Recipients r (ch_NewStatus ch) (ch_ContactEmail ch).
Proof.
  unfold BuildRows. intros H row Hrow.
  destruct (Recipients _ _ _) as [|e es] eqn:Hrec.
  - injection H as <- <-. inversion Hrow.
  - apply bind_Ret_inv in H as (id & w1 & _ & H). apply bind_Ret_inv in H as (at_ & w2 & _ & H).
    injection H as <- <-.
    apply (proj1 (list_elem_of_fmap _ (e :: es) _)) in Hrow as (rcpt & -> & Hin). eauto 6.
Qed.

(** ** Recording an outcome on a healthy database *)

Lemma quietly_free {A} (m : M A) E w a :
  fault_free E →
  (m E (mkWorld (w_tab w) (w_seq w) (w_tick w) (S (w_stmt w)) (w_signal w))).1 = Ret a →
  ∃ w', quietly (execWithTx false m) E w = (Ret tt, w') ∧ execWithTx false m E w = (Ret a, w').
Proof.
  intros HE Hm. pose proof (WithTx_free m E w HE) as Hfree. cbv zeta in Hfree. rewrite Hm in Hfree.
  unfold quietly, execWithTx, try. rewrite bind_run.
  destruct (WithTx m E w) as [o w'] eqn:H. simpl in Hfree. subst o. by exists w'.
Qed.

Lemma count_where_pos {A} (m : gmap Z A) k x : m !! k = Some x → (count_where (λ j _, j == k) m =? 0) = false.
Proof.
  intros Hk. apply Z.eqb_neq. intros Hz. apply (count_where_zero (λ j _, j == k)) with (k := k) (x := x) in Hz;
    [|done]. by bool_facts.
Qed.

Lemma update_outbox_free p f E w : fault_free E →
  update_outbox p f E w
  = (Ret (count_where p (t_outbox (w_tab w))),
     mkWorld (set_outbox (update_where p f (t_outbox (w_tab w))) (w_tab w)) (w_seq w) (w_tick w)
       (S (w_stmt w)) (w_signal w)).
Proof. intros HE. unfold update_outbox. by rewrite bind_run, (stmt_free E w HE). Qed.

Section Recorded.
Context (wk : Worker) (id : Z) (r : OutboxRow) (E : Env) (w : World).
Context (HE : fault_free E) (Hr : t_outbox (w_tab w) !! id = Some r).

(** The transaction behind a quiet operation returns when its body does. *)
Ltac run_quietly op w' Hq Hrun :=
  unfold op;
  match goal with |- context [quietly (execWithTx false ?m)] =>
    destruct (quietly_free m E w tt HE) as (w' & Hq & Hrun)
  end.

Lemma MarkSent_free : ∃ w', quietly (MarkSent false id) E w = (Ret tt, w')
  ∧ t_outbox (w_tab w') = <[id := sent_row (now_at E (w_tick w)) r]> (t_outbox (w_tab w)).
Proof.
  run_quietly MarkSent w' Hq Hrun; [|exists w'; split; [exact Hq|]].
  - rewrite bind_run. cbn [now reading]. rewrite bind_run, update_outbox_free by done. cbn [w_tab].
    by rewrite (count_where_pos _ _ _ Hr).
  - apply MarkSent_Ret in Hrun as [_ ->]. by rewrite (update_where_lookup _ _ _ _ Hr).
Qed.

Lemma MarkFailedTerminal_free txt : ∃ w', quietly (MarkFailedTerminal false id txt) E w = (Ret tt, w')
  ∧ t_outbox (w_tab w') = <[id := failed_row NotificationStatusFailed None txt (now_at E (w_tick w)) r]>
      (t_outbox (w_tab w)).
Proof.
  run_quietly MarkFailedTerminal w' Hq Hrun; [|exists w'; split; [exact Hq|]].
  - rewrite bind_run. cbn [now reading]. rewrite bind_run, update_outbox_free by done. cbn [w_tab].
    by rewrite (count_where_pos _ _ _ Hr).
  - apply MarkFailedTerminal_Ret in Hrun as ->. by rewrite (update_where_lookup _ _ _ _ Hr).
Qed.

Lemma MarkFailed_free txt : ∃ w' n next,
  quietly (MarkFailed false id txt (wk_maxAttempts wk) (Backoff (wk_backoffBase wk))) E w = (Ret tt, w')
  ∧ (if wk_maxAttempts wk <=? or_attempts r then next = None else is_Some next)
  ∧ t_outbox (w_tab w') = <[id := failed_row
       (if wk_maxAttempts wk <=? or_attempts r then NotificationStatusFailed else NotificationStatusPending)
       next txt n r]> (t_outbox (w_tab w)).
Proof.
  run_quietly MarkFailed w' Hq Hrun; [|exists w'].
  - unfold getRowByID. rewrite !bind_run, select_run, HE. cbn [w_tab]. rewrite Hr. cbn [fmap option_fmap option_map].
    rewrite ret_run, bind_run. cbn [now reading]. rewrite bind_run.
    cbn [no_Attempts notificationOutboxFromEnt].
    destruct (wk_maxAttempts wk <=? or_attempts r).
    + rewrite ret_run, bind_run, update_outbox_free by done. done.
    + rewrite bind_run. unfold Backoff, withJitter. rewrite !bind_run. cbn [now reading].
      rewrite !bind_run. cbn [reading]. rewrite !ret_run, bind_run, update_outbox_free by done. done.
  - apply MarkFailed_Ret in Hrun as (r0 & n & next & Hr0 & Hnext & ->); [|apply _].
    rewrite Hr in Hr0. injection Hr0 as <-. exists n, next. by split_and!.
Qed.
End Recorded.
