(* ===== verification/Facade.v ===== *)
(** * The storage facade as its clients see it

    [Facade R] states that every writing operation of the storage layer that the API
    handlers and the checker call, and the publishing of a notification, stays within a
    relation [R] on worlds.  The clients' invariants are proved against the class; the
    instances here are integrity with an append-only history ([db_step]) and the
    consistency of the notification queue ([queue_step]). *)

From S2P Require Import Prelude GoStrings GoTime Errors Event Models Store Queries Writes Integrity Outbox OutboxSpec Notify NotifySpec.
Local Open Scope Z_scope.

Class Facade (R : World → World → Prop) : Prop := {
  facade_rel :: DbRel R;
  facade_save :: ∀ inc, Respects R (SaveIncidentTx inc);
  facade_modify :: ∀ inc, Respects R (modifyIncident inc);
  facade_add :: ∀ inc c s, Respects R (AddComponentToIncident inc c s);
  facade_reopen :: ∀ inc, Respects R (ReOpenIncident inc);
  facade_move :: ∀ c o n b, Respects R (MoveComponentFromOldToAnotherIncident c o n b);
  facade_extract :: ∀ cs o i t d, Respects R (ExtractComponentsToNewIncident cs o i t d);
  facade_increase :: ∀ inc i, Respects R (IncreaseIncidentImpact inc i);
  facade_component :: ∀ c, Respects R (SaveComponent c);
  facade_update :: ∀ u, Respects R (ModifyEventUpdateTx u);
  facade_enqueue :: ∀ ch payload changeID rcpt,
    Respects R (Enqueue true (outbox_row ch payload changeID rcpt)) }.

(** ** Publishing within the relation *)

Section Publish.
Context (R : World → World → Prop) `{!Facade R}.

Lemma respects_enqueue_all l :
  (∀ row, row ∈ l → Respects R (Enqueue true row)) → Respects R (enqueue_all l).
Proof.
  unfold enqueue_all. induction l as [|row l IH]; intros Hl; cbn; [apply _|].
  assert (Respects R (Enqueue true row)) by (apply Hl; left).
  apply respects_bind; [apply _|resp|]. intros []. apply IH. intros r Hr. apply Hl. by right.
Qed.

#[global] Instance respects_BuildRows r ch : Respects R (BuildRows r ch).
Proof. unfold BuildRows. resp. Qed.

#[global] Instance respects_PublishTx p ch : Respects R (PublishTx p ch).
Proof.
  unfold PublishTx. destruct p as [pub|]; [|apply _]. destruct (pub_enabled pub); [|apply _].
  intros E w o w' H. simpl in H. rewrite bind_run in H.
  destruct (BuildRows _ ch E w) as [o1 w1] eqn:Hb.
  pose proof (respects_BuildRows _ _ _ _ _ _ Hb) as H1.
  destruct o1 as [l|e|]; [|injection H as <- <-; done..].
  transitivity w1; [done|]. revert H.
  match goal with |- ?m E w1 = _ → _ => enough (Respects R m) as Hr; [apply Hr|] end.
  apply respects_enqueue_all. intros row Hrow.
  destruct (BuildRows_rows _ _ _ _ _ _ Hb row Hrow) as (payload & changeID & rcpt & -> & _).
  apply _.
Qed.

#[global] Instance respects_Notify p : Respects R (Notify p).
Proof. unfold Notify. resp. Qed.
End Publish.

(** ** Integrity and history *)

Lemma respects_insert_outbox row : Respects db_step (insert_outbox row).
Proof.
  unfold insert_outbox. apply ent_check_bind. intros _.
  apply respects_bind; [apply _..|]. intros _. apply respects_bind; [apply _..|]. intros dbNow.
  intros E w o w' H. unfold next_outbox_id in H. eval_run H.
  match type of H with context [if ?b then _ else _] => destruct b eqn:Hex end;
    injection H as <- <-; apply db_step_put; try bump; intros Hw.
  - split_and!; try reflexivity. apply (wf_same w); [done|bump|done].
  - apply orb_false_iff in Hex as [Hdup Hfk]. bool_facts.
    rewrite existsb_false_iff in Hdup.
    destruct Hw. simpl. split_and!; try reflexivity.
    assert (∀ k r, t_outbox (w_tab w) !! k = Some r → or_dedup r ≠ no_DedupKey row) as Hno.
    { intros k r Hk Heq. specialize (Hdup (k, r)). rewrite elem_of_rows in Hdup.
      specialize (Hdup Hk). simpl in Hdup. by apply bool_decide_eq_false in Hdup. }
    constructor; simpl; auto; [lia|apply ids_below_insert; [lia|done]| |].
    + intros k1 k2 r1 r2 [[<- <-]|[? ?]]%lookup_insert_Some [[<- <-]|[? ?]]%lookup_insert_Some;
        simpl; intros Heq; eauto; exfalso; [symmetry in Heq|]; by eapply Hno.
    + intros k r [[_ <-]|[_ ?]]%lookup_insert_Some; eauto.
Qed.

Lemma respects_Enqueue_db row b : Respects db_step (Enqueue b row).
Proof.
  pose proof respects_insert_outbox. unfold Enqueue, rowExists, execWithTx.
  destruct (no_DedupKey row == _); [apply _|]. destruct b; resp.
Qed.

#[global] Instance facade_db_step : Facade db_step.
Proof. split; try apply _. intros. apply respects_Enqueue_db. Qed.

(** ** The notification queue *)

(** The queue stays consistent. *)
Definition queue_step (maxAttempts : Z) (w w' : World) : Prop :=
  queue_ok maxAttempts (t_outbox (w_tab w)) → queue_ok maxAttempts (t_outbox (w_tab w')).

Section QueueStep.
Context (maxAttempts : Z).
Notation R := (queue_step maxAttempts).

#[global] Instance queue_step_rel : DbRel R.
Proof.
  split; [split|..].
  - intros w H. done.
  - intros w1 w2 w3 H12 H23 H. auto.
  - intros w w' Ht _ H. by rewrite Ht.
  - intros w w' _ H. done.
Qed.

(** Writes of the other tables. *)
Lemma respects_put_tab t' : ∀ E w o w', put_tab t' E w = (o, w') →
  t_outbox t' = t_outbox (w_tab w) → R w w'.
Proof. intros E w o w' [= <- <-] Ht H. simpl. by rewrite Ht. Qed.

#[global] Instance queue_put_seq s : Respects R (put_seq s).
Proof. intros E w o w' [= <- <-] H. done. Qed.

(** An effect after reading the tables. *)
Lemma respects_get_tab_bind {A} (k : Tables → M A) :
  (∀ E w o w', k (w_tab w) E w = (o, w') → R w w') → Respects R (get_tab ≫= k).
Proof. intros Hk E w o w' H. exact (Hk _ _ _ _ H). Qed.

Lemma respects_put_bind {A} t (k : () → M A) (w : World) E o w' :
  (put_tab t ≫= k) E w = (o, w') → Respects R (k tt) →
  t_outbox t = t_outbox (w_tab w) → R w w'.
Proof.
  intros H Hk Ht. rewrite bind_run in H. simpl in H.
  intros Hq. eapply (Hk _ _ _ _ H). simpl. by rewrite Ht.
Qed.

#[global] Instance queue_ent_check b : Respects R (ent_check b).
Proof. unfold ent_check. resp. Qed.

(** Read the tables, write other tables, go on. *)
Ltac frame :=
  repeat first
    [ progress intros | solve [apply _]
    | apply respects_get_tab_bind; intros ? ? ? ? H
    | apply respects_bind; [apply _|solve [resp]|intros ?]
    | match goal with
      | H : (put_tab _ ≫= _) _ _ = _ |- _ =>
          eapply respects_put_bind; [exact H| |reflexivity]
      | H : put_tab _ _ _ = _ |- _ => eapply respects_put_tab; [exact H|reflexivity]
      | H : throw _ _ _ = _ |- _ => injection H as <- <-; reflexivity
      | H : (if ?b then _ else _) _ _ = _ |- _ => destruct b
      | H : (match ?x with _ => _ end) _ _ = _ |- _ => destruct x
      end ].

#[global] Instance queue_update_incidents p f : Respects R (update_incidents p f).
Proof. unfold update_incidents. frame. Qed.
#[global] Instance queue_update_incident_one i f : Respects R (update_incident_one i f).
Proof. unfold update_incident_one. frame. Qed.
#[global] Instance queue_update_incident_edges i a b : Respects R (update_incident_edges i a b).
Proof. unfold update_incident_edges. frame. Qed.
#[global] Instance queue_next_status_id : Respects R next_status_id.
Proof. unfold next_status_id. resp. Qed.
#[global] Instance queue_next_incident_id : Respects R next_incident_id.
Proof. unfold next_incident_id. resp. Qed.
#[global] Instance queue_next_component_id : Respects R next_component_id.
Proof. unfold next_component_id. resp. Qed.
#[global] Instance queue_next_attr_id : Respects R next_attr_id.
Proof. unfold next_attr_id. resp. Qed.
#[global] Instance queue_next_outbox_id : Respects R next_outbox_id.
Proof. unfold next_outbox_id. resp. Qed.
#[global] Instance queue_insertIncidentStatus s i : Respects R (insertIncidentStatus s i).
Proof. unfold insertIncidentStatus. frame. Qed.
#[global] Instance queue_insertNewStatuses i l : Respects R (insertNewStatuses i l).
Proof. unfold insertNewStatuses. resp. Qed.
#[global] Instance queue_SaveIncidentTx inc : Respects R (SaveIncidentTx inc).
Proof.
  unfold SaveIncidentTx. destruct (inc_Text inc) as [[|]|]; try apply _.
  do 4 (apply respects_bind; [apply _..|]; intros ?).
  apply respects_get_tab_bind. intros E w o w' H. revert H.
  destruct (forallb _ _); [|intros [= <- <-]; reflexivity].
  intros H. eapply respects_put_bind; [exact H| |reflexivity]. resp.
Qed.
#[global] Instance queue_modifyIncident inc : Respects R (modifyIncident inc).
Proof. unfold modifyIncident. resp. Qed.
#[global] Instance queue_AddComponent inc c s : Respects R (AddComponentToIncident inc c s).
Proof. unfold AddComponentToIncident, execWithTx. resp. Qed.
#[global] Instance queue_ReOpenIncident inc : Respects R (ReOpenIncident inc).
Proof. unfold ReOpenIncident. resp. Qed.
#[global] Instance queue_saveIncidentFull inc : Respects R (saveIncidentFull inc).
Proof.
  unfold saveIncidentFull, reconcileIncidentComponents, insertNewIncidentStatuses.
  destruct (inc_Text inc) as [[|]|]; try apply _. destruct (inc_StartDate inc); resp.
Qed.
#[global] Instance queue_removeComponents i l : Respects R (removeComponents i l).
Proof. unfold removeComponents, removeIncidentComponent. resp. Qed.
#[global] Instance queue_Move c o n b :
  Respects R (MoveComponentFromOldToAnotherIncident c o n b).
Proof.
  unfold MoveComponentFromOldToAnotherIncident, GetComponent, removeIncidentComponent, execWithTx.
  resp.
Qed.
#[global] Instance queue_Extract cs o i t d :
  Respects R (ExtractComponentsToNewIncident cs o i t d).
Proof. unfold ExtractComponentsToNewIncident, SaveIncident, execWithTx. resp. Qed.
#[global] Instance queue_Increase inc i : Respects R (IncreaseIncidentImpact inc i).
Proof. unfold IncreaseIncidentImpact. resp. Qed.
#[global] Instance queue_insert_attr i a : Respects R (insert_attr i a).
Proof. unfold insert_attr. frame. Qed.
#[global] Instance queue_SaveComponent c : Respects R (SaveComponent c).
Proof.
  unfold SaveComponent. destruct (head _); [|apply _].
  apply respects_bind; [apply _..|]. intros [|]; [apply _|].
  apply respects_bind; [apply _..|]. intros n. apply respects_WithTx; [apply _|]. frame.
Qed.
#[global] Instance queue_ModifyEventUpdateTx u : Respects R (ModifyEventUpdateTx u).
Proof. unfold ModifyEventUpdateTx. frame. cbv beta. resp. Qed.

(** A published row enters the queue pending, with all its attempts. *)
#[global] Instance queue_Enqueue ch payload changeID rcpt :
  0 < maxAttempts → Respects R (Enqueue true (outbox_row ch payload changeID rcpt)).
Proof.
  intros Hmax. unfold Enqueue, execWithTx. set (row := outbox_row _ _ _ _).
  destruct (no_DedupKey row == _); [apply _|]. unfold rowExists.
  apply respects_bind; [apply _..|]. intros [|]; [apply _|].
  apply respects_bind; [apply _| |resp]. apply respects_try. unfold insert_outbox.
  do 4 (apply respects_bind; [apply _..|]; intros ?). apply respects_get_tab_bind.
  intros E w o w' H. revert H.
  destruct (_ || _)%bool; intros [= <- <-]; [reflexivity|]. intros Hq. simpl.
  apply queue_ok_insert; [|done]. split; simpl; [lia|].
  by apply state_pending.
Qed.
End QueueStep.

#[global] Instance facade_queue_step maxAttempts :
  0 < maxAttempts → Facade (queue_step maxAttempts).
Proof. intros Hmax. split; intros; try apply _. by apply queue_Enqueue. Qed.
