(* ===== verification/WorkerSpec.v ===== *)
(** * The delivery worker keeps the store consistent

    The operations of the worker and of the operations interface on the outbox, within
    integrity ([db_step]) and within the queue invariant ([queue_step]); retention. *)

From S2P Require Import Prelude GoStrings GoTime Errors Event Models Store Queries Writes Integrity Outbox OutboxSpec Notify NotifySpec Facade.
Local Open Scope Z_scope.

(** ** Integrity *)

(** A rewrite of a row that leaves its key and its incident alone. *)
Class SameKey (f : OutboxRow → OutboxRow) : Prop :=
  same_key : ∀ r, or_dedup (f r) = or_dedup r ∧ or_incident (f r) = or_incident r.
#[export] Hint Extern 1 (SameKey _) => (intros ?; by split) : typeclass_instances.

#[global] Instance respects_update_outbox p f : SameKey f → Respects db_step (update_outbox p f).
Proof.
  intros Hf E w o w'. unfold update_outbox. rewrite bind_run. unfold stmt.
  destruct (fault_at _ _); intros [= <- <-]; [by apply db_rel_frame|].
  apply db_step_put; [reflexivity|]. intros Hw. pose proof (wf_outbox_unique w Hw) as Huniq.
  destruct Hw. simpl. split_and!; try reflexivity.
  assert (∀ k r, update_where p f (t_outbox (w_tab w)) !! k = Some r → ∃ r0,
    t_outbox (w_tab w) !! k = Some r0 ∧ or_dedup r = or_dedup r0 ∧ or_incident r = or_incident r0) as Hup.
  { intros k r. rewrite lookup_update_where. intros (r0 & Hr0 & ->)%fmap_Some. exists r0.
    destruct (Hf r0). by destruct (p k r0). }
  constructor; simpl; auto.
  - by apply ids_below_update.
  - intros k1 k2 r1 r2 (r3 & H3 & E3 & _)%Hup (r4 & H4 & E4 & _)%Hup Heq.
    apply (Huniq k1 k2 r3 r4); [done|done|congruence].
  - intros k r (r0 & Hr0 & _ & ->)%Hup. eauto.
Qed.

#[local] Opaque update_outbox.

#[global] Instance respects_ClaimPending l o : Respects db_step (ClaimPending false l o).
Proof. unfold ClaimPending, execWithTx. resp. Qed.
#[global] Instance respects_MarkSent i : Respects db_step (MarkSent false i).
Proof. unfold MarkSent, execWithTx. resp. Qed.
#[global] Instance respects_Backoff b a R : DbRel R → Respects R (Backoff b a).
Proof. intros HR. unfold Backoff, withJitter. resp. Qed.
#[global] Instance respects_MarkFailed i t m b : Respects db_step (MarkFailed false i t m (Backoff b)).
Proof.
  unfold MarkFailed, getRowByID, execWithTx. apply respects_WithTx; [apply _|].
  apply respects_bind; [apply _|resp|]. intros row. apply respects_bind; [apply _..|]. intros n.
  destruct (m <=? no_Attempts row).
  { enough (Respects db_step (_ ← update_outbox (λ k _, k == i)
      (failed_row NotificationStatusFailed None t n); mret tt)) as Hr by exact Hr. resp. }
  enough (Respects db_step (at_ ← Backoff b (no_Attempts row);
    _ ← update_outbox (λ k _, k == i) (failed_row NotificationStatusPending (Some at_) t n);
    mret tt)) as Hr by exact (respects_assoc _ _ _ _ Hr).
  resp.
Qed.
#[global] Instance respects_MarkFailedTerminal i t : Respects db_step (MarkFailedTerminal false i t).
Proof. unfold MarkFailedTerminal, execWithTx. resp. Qed.
#[global] Instance respects_Recover l m : Respects db_step (RecoverStaleProcessing false l m).
Proof. unfold RecoverStaleProcessing, execWithTx. resp. Qed.
#[global] Instance respects_RedriveFailed ids : Respects db_step (RedriveFailed ids).
Proof. unfold RedriveFailed. resp. Qed.

#[global] Instance respects_delete_batch b n : Respects db_step (delete_batch b n).
Proof.
  unfold delete_batch. apply respects_bind; [apply _..|]. intros _. intros E w o w' H.
  rewrite bind_run in H. simpl in H. destruct (expired_batch _ _ _) as [ids|];
    [|injection H as <- <-; reflexivity].
  injection H as <- <-. apply db_step_put; [reflexivity|]. intros []. simpl.
  split_and!; try reflexivity.
  assert (∀ k r, delete_where (λ k _, bool_decide (k ∈ ids)) (t_outbox (w_tab w)) !! k = Some r →
    t_outbox (w_tab w) !! k = Some r) as Hsub.
  { intros k r. rewrite lookup_delete_where. destruct (t_outbox _ !! k) as [x|]; simpl; [|done].
    by destruct (bool_decide _). }
  constructor; simpl; eauto. intros k [r Hr]. eauto.
Qed.
#[global] Instance respects_delete_loop fuel : ∀ b n t, Respects db_step (delete_loop fuel b n t).
Proof. induction fuel as [|fuel IH]; intros b n t; cbn; unfold ctx_done; resp. Qed.
#[global] Instance respects_RunRetention : Respects db_step RunRetention.
Proof. unfold RunRetention, DeleteSentBefore. resp. Qed.

Section Worker.
Context (R : World → World → Prop) `{!DbRel R}.
Context (wk : Worker).

Lemma respects_drain_loop fuel : Respects R (drain_round wk) → Respects R (drain_loop fuel wk).
Proof. intros Hr. induction fuel as [|fuel IH]; cbn; resp. Qed.
End Worker.

#[global] Instance respects_sendGuarded R row : DbRel R → Respects R (sendGuarded row).
Proof. intros HR. unfold sendGuarded. resp. Qed.
#[global] Instance respects_deliver wk row : Respects db_step (deliver wk row).
Proof. unfold deliver, markFailure, quietly. resp. Qed.
#[global] Instance respects_drain_round wk : Respects db_step (drain_round wk).
Proof. unfold drain_round, ctx_done. resp. Qed.
#[global] Instance respects_Drain wk : Respects db_step (Drain wk).
Proof.
  unfold Drain. apply respects_bind; [apply _..|]. intros _. apply respects_bind; [apply _..|].
  intros t. apply respects_drain_loop; apply _.
Qed.

#[local] Transparent update_outbox.

(** ** The queue invariant *)

Lemma settles_ok maxAttempts r r' :
  settles maxAttempts r r' → row_ok maxAttempts r → row_ok maxAttempts r'.
Proof.
  destruct 1; intros Hr; [done|by apply sent_ok|by apply failed_ok|by apply retry_ok].
Qed.

#[global] Instance queue_Recover maxAttempts l :
  Respects (queue_step maxAttempts) (RecoverStaleProcessing false l maxAttempts).
Proof.
  intros E w o w' H Hq. destruct o as [res|e|]; [|by rewrite (WithTx_not_Ret _ _ _ _ _ H)..].
  apply RecoverStaleProcessing_Ret in H as (-> & _). apply queue_ok_update; [|done].
  intros k r _ Hr _. by apply recover_ok.
Qed.

#[global] Instance queue_drain_round wk :
  Respects (queue_step (wk_maxAttempts wk)) (drain_round wk).
Proof.
  intros E w o w' H Hq. apply drain_round_cases in H as
    [[-> _]|(k & r & n & r' & Hr & Hdue & Hset & ->)]; [done|].
  apply queue_ok_insert; [|done]. apply (settles_ok _ _ _ Hset).
  apply claim_ok; [by eapply Hq|by eapply due_pending].
Qed.

#[global] Instance queue_Drain wk : Respects (queue_step (wk_maxAttempts wk)) (Drain wk).
Proof.
  unfold Drain. apply respects_bind; [apply _..|]. intros _. apply respects_bind; [apply _..|].
  intros t. apply respects_drain_loop; apply _.
Qed.

#[global] Instance queue_RedriveFailed maxAttempts ids :
  0 < maxAttempts → Respects (queue_step maxAttempts) (RedriveFailed ids).
Proof.
  intros Hm E w o w' H Hq. unfold RedriveFailed in H. rewrite bind_run in H. simpl in H.
  unfold update_outbox in H. rewrite bind_run in H. unfold stmt in H.
  destruct (fault_at _ _); injection H as <- <-; [done|]. simpl.
  apply queue_ok_update; [|done]. intros k r _ _ _. by apply redriven_ok.
Qed.

(** ** Retention *)

(** The rows a run of the loop may have removed, and no others. *)
Definition pruned (before : Z) (m m' : gmap Z OutboxRow) : Prop :=
  ∀ k, m' !! k = m !! k ∨ (∃ r, m !! k = Some r ∧ expired before r = true ∧ m' !! k = None).

#[global] Instance pruned_preorder before : PreOrder (pruned before).
Proof.
  split; [intros m k; by left|]. intros m1 m2 m3 H12 H23 k.
  destruct (H12 k) as [E12|(r & Hr & He & Hn)], (H23 k) as [E23|(r' & Hr' & He' & Hn')].
  - left. congruence.
  - right. exists r'. split_and!; [congruence|done|done].
  - right. exists r. split_and!; [done|done|congruence].
  - congruence.
Qed.

Definition prune_step (before : Z) (w w' : World) : Prop :=
  pruned before (t_outbox (w_tab w)) (t_outbox (w_tab w')).

#[global] Instance prune_step_rel before : DbRel (prune_step before).
Proof.
  split; [split|..].
  - intros w. red. reflexivity.
  - intros w1 w2 w3 H12 H23. red. by etrans.
  - intros w w' Ht _. red. rewrite Ht. reflexivity.
  - intros w w' _. red. reflexivity.
Qed.

Lemma elem_of_expired_batch before n t ids k :
  expired_batch before n t = Some ids → k ∈ ids →
  ∃ r, t_outbox t !! k = Some r ∧ expired before r = true.
Proof.
  unfold expired_batch, limited. destruct (n <? 0); [done|]. intros [= <-] Hk.
  eapply elem_of_sublist in Hk; [|apply sublist_take].
  apply list_elem_of_fmap in Hk as ([k' r] & -> & [Hin He]%elem_of_filterb).
  exists r. by apply elem_of_rows in Hin.
Qed.

#[global] Instance prune_delete_batch before n : Respects (prune_step before) (delete_batch before n).
Proof.
  unfold delete_batch. apply respects_bind; [apply _..|]. intros _. intros E w o w' H.
  rewrite bind_run in H. simpl in H. destruct (expired_batch _ _ _) as [ids|] eqn:Hids;
    injection H as <- <-; [|reflexivity].
  intros k. simpl. rewrite lookup_delete_where. destruct (t_outbox _ !! k) as [r|] eqn:Hr; simpl; [|by left].
  case_bool_decide as Hk; [|by left]. right. exists r. split; [done|]. split; [|done].
  destruct (elem_of_expired_batch _ _ _ _ _ Hids Hk) as (r' & Hr' & He). congruence.
Qed.

#[global] Instance prune_delete_loop fuel : ∀ before n t,
  Respects (prune_step before) (delete_loop fuel before n t).
Proof. induction fuel as [|fuel IH]; intros b n t; cbn; unfold ctx_done; resp. Qed.

(** The rows still to prune. *)
Definition expired_rows (before : Z) (m : gmap Z OutboxRow) : list (Z * OutboxRow) :=
  filterb (λ kr : Z * OutboxRow, expired before kr.2) (rows m).

Lemma rows_delete_where {A} (p : Z → A → bool) (m : gmap Z A) :
  rows (delete_where p m) ≡ₚ filterb (λ kr, negb (p kr.1 kr.2)) (rows m).
Proof.
  apply NoDup_Permutation; [apply NoDup_rows|apply NoDup_filterb, NoDup_rows|].
  intros [k x]. rewrite elem_of_filterb, !elem_of_rows, lookup_delete_where. simpl.
  destruct (m !! k) as [y|]; simpl; [|naive_solver]. destruct (p k y) eqn:Hp; simpl.
  - split; [done|]. intros [[= ->] Hn]. by rewrite Hp in Hn.
  - split; intros H; [injection H as ->; by rewrite Hp|]. by destruct H.
Qed.

Lemma filterb_not_taken {A} n (l : list (Z * A)) :
  NoDup l.*1 → length (filterb (λ kr, negb (bool_decide (kr.1 ∈ take n l.*1))) l) = (length l - n)%nat.
Proof.
  intros Hnd. rewrite <- fmap_take. set (f := λ kr : Z * A, _).
  assert (filterb f l = filterb f (take n l) ++ filterb f (drop n l)) as ->
    by (by rewrite <- filterb_app, take_drop).
  rewrite length_app. rewrite (filterb_false_nil _ (take n l)), filterb_true_id.
  - rewrite length_drop. done.
  - intros kr Hkr. apply negb_true_iff, bool_decide_eq_false. intros Hin.
    rewrite <- (take_drop n l), fmap_app in Hnd. apply NoDup_app in Hnd as (_ & Hdisj & _).
    apply (Hdisj _ Hin). apply list_elem_of_fmap. eauto.
  - intros kr Hkr. apply negb_false_iff, bool_decide_eq_true. apply list_elem_of_fmap. eauto.
Qed.

Lemma delete_batch_Ret before n E w k w' :
  delete_batch before n E w = (Ret k, w') →
  0 <= n
  ∧ k = Z.min n (Z.of_nat (length (expired_rows before (t_outbox (w_tab w)))))
  ∧ Z.of_nat (length (expired_rows before (t_outbox (w_tab w'))))
    = Z.of_nat (length (expired_rows before (t_outbox (w_tab w)))) - k.
Proof.
  unfold delete_batch. intros H. apply bind_Ret_inv in H as ([] & w1 & H1 & H).
  apply stmt_Ret in H1 as [_ ->]. rewrite bind_run in H. simpl in H.
  unfold expired_batch, limited in H. destruct (n <? 0) eqn:Hn; [done|]. bool_facts.
  fold (expired_rows before (t_outbox (w_tab w))) in H.
  set (l := expired_rows before (t_outbox (w_tab w))) in *.
  assert (NoDup l.*1) as Hnd by apply NoDup_filterb_keys, NoDup_rows_keys.
  injection H as <- <-. simpl. split; [done|]. rewrite length_take, length_fmap.
  split; [lia|]. unfold expired_rows.
  rewrite (Permutation_length (filterb_Permutation _ _ _ (rows_delete_where _ _))).
  rewrite filterb_filterb. simpl.
  rewrite (filterb_ext _ (λ kr : Z * OutboxRow, expired before kr.2
    && negb (bool_decide (kr.1 ∈ take (Z.to_nat n) l.*1)))) by (intros; apply andb_comm).
  rewrite <- filterb_filterb.
  fold (expired_rows before (t_outbox (w_tab w))). fold l. rewrite filterb_not_taken by done. lia.
Qed.

(** The loop: it ends, prunes every expired row and counts them. *)
Lemma delete_loop_spec fuel before n : 0 < n → ∀ total E w o w',
  (length (expired_rows before (t_outbox (w_tab w))) < fuel)%nat →
  delete_loop fuel before n total E w = (Ret o, w') →
  o = Some (total + Z.of_nat (length (expired_rows before (t_outbox (w_tab w)))))
  ∧ expired_rows before (t_outbox (w_tab w')) = [].
Proof.
  intros Hn. induction fuel as [|fuel IH]; intros total E w o w' Hlt H; [lia|].
  cbn [delete_loop] in H. apply bind_Ret_inv in H as (c & w1 & H1 & H). injection H1 as <- <-.
  destruct (cancel_at _ _); [done|]. apply bind_Ret_inv in H as (k & w2 & Hb & H).
  apply delete_batch_Ret in Hb as (_ & Hk & Hlen). cbn [w_tab] in *.
  destruct (k <? n) eqn:Hkn; bool_facts.
  - injection H as <- <-. split; [f_equal; lia|]. apply length_zero_iff_nil. lia.
  - apply IH in H as [-> ->]; [|lia]. split; [f_equal; lia|done].
Qed.

Lemma expired_rows_size before m : (length (expired_rows before m) ≤ size m)%nat.
Proof.
  unfold expired_rows. etrans; [apply filterb_length_le|].
  rewrite (Permutation_length (rows_perm m)). by rewrite length_map_to_list.
Qed.
