(* ===== verification/Metrics.v ===== *)
(** * Delivery metrics

    [internal/notification/metrics.go] and the calls of it in [worker.go]: the counters of
    the worker, and the collector that reads the depth of the queue at each scrape.

    The Prometheus library is modelled by what it documents: a counter holds the sum of
    what was added to it, a vector has one counter per label, a histogram the sequence of
    its observations, a registry refuses a name that it has.  Values are exact integers
    (the library's are binary64, exact up to 2^53); a duration is in nanoseconds.  A nil
    [*Metrics] is [None].

    A metered run threads the metrics beside the world, so that what was counted before an
    error or a panic stays counted.  [Erases] relates such a run to the run of [Notify]
    without metrics; [account] is what a run owes the counters. *)

From S2P Require Import Prelude GoStrings GoTime Errors Event Models Store Queries Writes Integrity WritesSpec Outbox OutboxSpec Notify NotifySpec.
Local Open Scope Z_scope.

(** ** The counters *)

Record Metrics := mkMetrics {
  mt_sent : gmap string Z;         (* by kind *)
  mt_failed : gmap string Z;       (* by kind *)
  mt_attempts : Z;
  mt_staleRecovered : Z;
  mt_duration : list Z }.          (* the observations, latest first *)

Definition NewMetrics : Metrics := mkMetrics ∅ ∅ 0 0 [].

(** [c.WithLabelValues(l).Inc()]. *)
Definition vec_inc (l : string) (c : gmap string Z) : gmap string Z :=
  <[l := default 0 (c !! l) + 1]> c.

Definition metricsNamespace : string := "notification".
Definition fqName (name : string) : string := metricsNamespace +:+ "_" +:+ name.

(** The names that [Metrics] and the collector bring to a registry. *)
Definition Metrics_names : list string :=
  fqName <$> ["sent_total"; "failed_total"; "attempts_total"; "stale_recovered_total";
              "delivery_duration_seconds"]%string.
Definition Describe : list string :=
  fqName <$> ["outbox_pending"; "outbox_processing"; "outbox_failed"; "outbox_stale_processing";
              "outbox_retry_backlog"; "outbox_oldest_pending_age_seconds"; "collector_errors_total"]%string.

(** [reg.MustRegister(...)]: a name that is taken panics ([None]). *)
Definition MustRegister (reg names : list string) : option (list string) :=
  foldl (λ acc n, reg ← acc; if bool_decide (n ∈ reg) then None else Some (reg ++ [n])) (Some reg) names.

(** The dedicated registry of [buildWorker]. *)
Definition build_registry : option (list string) :=
  reg ← MustRegister [] Metrics_names; MustRegister reg Describe.

(** ** Metered runs *)

Definition Metered (A : Type) : Type := Env → World → option Metrics → outcome A * World * option Metrics.

#[global] Instance Metered_ret : MRet Metered := λ A a E w mo, (Ret a, w, mo).
#[global] Instance Metered_bind : MBind Metered := λ A B f m E w mo,
  match m E w mo with
  | (Ret a, w', mo') => f a E w' mo'
  | (Fail e, w', mo') => (Fail e, w', mo')
  | (Panic, w', mo') => (Panic, w', mo')
  end.

(** A computation that does not touch the metrics. *)
Definition lift {A} (m : M A) : Metered A := λ E w mo, (m E w, mo).

(** The body of a [record...] method: nothing on a nil receiver. *)
Definition record (f : Metrics → Metrics) : Metered unit := λ E w mo, (Ret tt, w, f <$> mo).

Definition recordSent (kind : string) : Metered unit :=
  record (λ m, mkMetrics (vec_inc kind (mt_sent m)) (mt_failed m) (mt_attempts m)
                 (mt_staleRecovered m) (mt_duration m)).
Definition recordFailed (kind : string) : Metered unit :=
  record (λ m, mkMetrics (mt_sent m) (vec_inc kind (mt_failed m)) (mt_attempts m)
                 (mt_staleRecovered m) (mt_duration m)).
Definition recordAttempt : Metered unit :=
  record (λ m, mkMetrics (mt_sent m) (mt_failed m) (mt_attempts m + 1)
                 (mt_staleRecovered m) (mt_duration m)).
Definition recordStaleRecovered (n : Z) : Metered unit :=
  if n <=? 0 then mret tt
  else record (λ m, mkMetrics (mt_sent m) (mt_failed m) (mt_attempts m)
                      (mt_staleRecovered m + n) (mt_duration m)).
Definition observeDuration (d : Z) : Metered unit :=
  record (λ m, mkMetrics (mt_sent m) (mt_failed m) (mt_attempts m)
                 (mt_staleRecovered m) (d :: mt_duration m)).

(** ** The worker with its metrics *)

Module Metered.
Section Elapsed.
(** [time.Since(start)] after a send, by the count of readings of the environment. *)
Context (elapsed : nat → Z).

Definition since : M Z := λ E w, (Ret (elapsed (w_tick w)), w).

Fixpoint mapM {A B} (f : A → Metered B) (l : list A) : Metered (list B) :=
  match l with
  | [] => mret []
  | x :: l => y ← f x; ys ← mapM f l; mret (y :: ys)
  end.

Definition deliver (wk : Worker) (row : NotificationOutbox) : Metered unit :=
  _ ← recordAttempt;
  r ← lift (sendGuarded row);
  d ← lift since;
  _ ← observeDuration d;
  match r with
  | Some e =>
    _ ← recordFailed (no_Kind row);
    lift (markFailure wk (no_ID row) e)
  | None =>
    _ ← recordSent (no_Kind row);
    lift (quietly (MarkSent false (no_ID row)))
  end.

Definition drain_round (wk : Worker) : Metered bool :=
  cancelled ← lift ctx_done;
  if cancelled : bool then lift (throw (EMsg "context canceled"))
  else
    rows ← lift (ClaimPending false claimBatchSize (wk_leaseOwner wk));
    match rows with
    | [] => mret false
    | _ =>
      _ ← mapM (λ row,
            cancelled ← lift ctx_done;
            if cancelled : bool then lift (throw (EMsg "context canceled")) else deliver wk row) rows;
      mret true
    end.

Fixpoint drain_loop (fuel : nat) (wk : Worker) : Metered bool :=
  match fuel with
  | O => mret false
  | S fuel =>
    more ← drain_round wk;
    if more : bool then drain_loop fuel wk else mret true
  end.

Definition Drain (wk : Worker) : Metered bool :=
  recovered ← lift (RecoverStaleProcessing false (wk_leaseTimeout wk) (wk_maxAttempts wk));
  _ ← recordStaleRecovered (Z.of_nat (length recovered));
  t ← lift get_tab;
  drain_loop (S (queue_work (wk_maxAttempts wk) (t_outbox t))) wk.
End Elapsed.
End Metered.

(** ** The collector *)

Record statsCollector := mkCollector { sc_staleThreshold : Z; sc_errors : Z }.

Definition NewStatsCollector (staleThreshold : Z) : statsCollector := mkCollector staleThreshold 0.

Inductive sample := GaugeSample (name : string) (v : Z) | CounterSample (name : string) (v : Z).

Definition Collect (c : statsCollector) : M (statsCollector * list sample) :=
  r ← try (GetNotificationStats (sc_staleThreshold c));
  let errors n := CounterSample (fqName "collector_errors_total") n in
  match r with
  | inl _ => mret (mkCollector (sc_staleThreshold c) (sc_errors c + 1), [errors (sc_errors c + 1)])
  | inr s => mret (c,
      [GaugeSample (fqName "outbox_pending") (ns_Pending s);
       GaugeSample (fqName "outbox_processing") (ns_Processing s);
       GaugeSample (fqName "outbox_failed") (ns_Failed s);
       GaugeSample (fqName "outbox_stale_processing") (ns_StaleProcessing s);
       GaugeSample (fqName "outbox_retry_backlog") (ns_RetryBacklog s);
       GaugeSample (fqName "outbox_oldest_pending_age_seconds") (ns_OldestPendingAge s);
       errors (sc_errors c)])
  end.

(** ** Metrics do not change a run *)

(** The metered run is the run without metrics, and metrics are there after it exactly
    when they were there before. *)
Class Erases {A} (mm : Metered A) (m : M A) : Prop :=
  erases : ∀ E w mo, (mm E w mo).1 = m E w ∧ ((mm E w mo).2 = None ↔ mo = None).

#[global] Instance erases_ret {A} (a : A) : Erases (mret a) (mret a).
Proof. done. Qed.
#[global] Instance erases_lift {A} (m : M A) : Erases (lift m) m.
Proof. done. Qed.

#[global] Instance erases_bind {A B} (mm : Metered A) m (ff : A → Metered B) f :
  Erases mm m → (∀ a, Erases (ff a) (f a)) → Erases (mm ≫= ff) (m ≫= f).
Proof.
  intros Hm Hf E w mo. destruct (Hm E w mo) as [Ho Hn]. rewrite bind_run.
  unfold mbind, Metered_bind. destruct (mm E w mo) as [[o w'] mo']. cbn [fst snd] in *. rewrite <- Ho.
  destruct o as [a|e|]; [|done..]. destruct (Hf a E w' mo') as [-> Hn']. by rewrite Hn', Hn.
Qed.

(** A step that only counts is invisible. *)
Lemma erases_record {A} (mm : Metered unit) (k : Metered A) m :
  Erases mm (mret tt) → Erases k m → Erases (mm ≫= λ _, k) m.
Proof. intros Hm Hk E w mo. exact (erases_bind mm (mret tt) (λ _, k) (λ _, m) Hm (λ _, Hk) E w mo). Qed.

#[global] Instance erases_count f : Erases (record f) (mret tt).
Proof. intros E w mo. split; [done|]. cbn. by rewrite fmap_None. Qed.
#[global] Instance erases_stale n : Erases (recordStaleRecovered n) (mret tt).
Proof. unfold recordStaleRecovered. destruct (_ <=? _); apply _. Qed.

Section Erasure.
Context (elapsed : nat → Z).

#[global] Instance erases_deliver wk row : Erases (Metered.deliver elapsed wk row) (deliver wk row).
Proof.
  unfold Metered.deliver, deliver. apply erases_record; [apply _|]. apply erases_bind; [apply _|].
  intros r E w mo. cbn.
  assert (Erases (_ ← observeDuration (elapsed (w_tick w)); match r with
    | Some e => _ ← recordFailed (no_Kind row); lift (markFailure wk (no_ID row) e)
    | None => _ ← recordSent (no_Kind row); lift (quietly (MarkSent false (no_ID row))) end)
    match r with Some e => markFailure wk (no_ID row) e
    | None => quietly (MarkSent false (no_ID row)) end) as H; [|exact (H E w mo)].
  apply erases_record; [apply _|]. destruct r; apply erases_record; apply _.
Qed.

Lemma erases_mapM {A B} (ff : A → Metered B) f l :
  (∀ a, Erases (ff a) (f a)) → Erases (Metered.mapM ff l) (mapM f l).
Proof. intros Hf. induction l as [|x l IH]; cbn; apply _. Qed.

#[global] Instance erases_drain_round wk : Erases (Metered.drain_round elapsed wk) (drain_round wk).
Proof.
  apply erases_bind; [apply _|]. intros [|]; [apply _|]. apply erases_bind; [apply _|].
  intros [|row rows]; [apply _|]. apply erases_bind; [|apply _].
  apply erases_mapM. intros r. apply erases_bind; [apply _|]. intros [|]; apply _.
Qed.

#[global] Instance erases_drain_loop wk fuel : Erases (Metered.drain_loop elapsed fuel wk) (drain_loop fuel wk).
Proof. induction fuel as [|fuel IH]; cbn; [apply _|]. apply erases_bind; [apply _|]. intros [|]; apply _. Qed.

#[global] Instance erases_Drain wk : Erases (Metered.Drain elapsed wk) (Drain wk).
Proof. apply erases_bind; [apply _|]. intros rs. apply erases_record; apply _. Qed.
End Erasure.

(** ** What the counters owe *)

Definition total (c : gmap string Z) : Z := map_fold (λ _ n acc, n + acc) 0 c.
Definition value_of (kind : string) (c : gmap string Z) : Z := default 0 (c !! kind).

(** The rows of a kind that are marked as sent. *)
Definition sent_rows (kind : string) (w : World) : Z :=
  count_where (λ _ r, (or_status r == NotificationStatusSent) && (or_kind r == kind)) (t_outbox (w_tab w)).

(** What a run of the loop does to the counters: every attempt is counted as sent or as
    failed and is timed once, no row is marked as sent without being counted under its
    kind, and on a database that does not fail each counted mail is marked. *)
Record account (E : Env) (w : World) (m : Metrics) (w' : World) (m' : Metrics) : Prop := {
  acc_outcomes : mt_attempts m' - total (mt_sent m') - total (mt_failed m')
                 = mt_attempts m - total (mt_sent m) - total (mt_failed m);
  acc_timed : mt_attempts m' - Z.of_nat (length (mt_duration m'))
              = mt_attempts m - Z.of_nat (length (mt_duration m));
  acc_stale : mt_staleRecovered m' = mt_staleRecovered m;
  acc_rows k : sent_rows k w' - sent_rows k w <= value_of k (mt_sent m') - value_of k (mt_sent m);
  acc_free k : fault_free E →
    sent_rows k w' - sent_rows k w = value_of k (mt_sent m') - value_of k (mt_sent m) }.

Lemma sent_rows_tab k w w' : w_tab w' = w_tab w → sent_rows k w' = sent_rows k w.
Proof. unfold sent_rows. by intros ->. Qed.

Lemma account_still E w m w' : w_tab w' = w_tab w → account E w m w' m.
Proof. intros H. split; try done; intros k; rewrite (sent_rows_tab k _ _ H); lia. Qed.

Lemma account_trans E w1 m1 w2 m2 w3 m3 :
  account E w1 m1 w2 m2 → account E w2 m2 w3 m3 → account E w1 m1 w3 m3.
Proof.
  intros [] []. split; [congruence..| |].
  - intros k. specialize (acc_rows0 k). specialize (acc_rows1 k). lia.
  - intros k HE. specialize (acc_free0 k HE). specialize (acc_free1 k HE). lia.
Qed.

Lemma total_inc l c : total (vec_inc l c) = total c + 1.
Proof.
  assert (∀ n c, c !! l = None → total (<[l := n]> c) = n + total c) as Hins.
  { intros n c' Hc. unfold total. rewrite map_fold_insert_L; [done| |done]. intros. lia. }
  unfold vec_inc. destruct (c !! l) as [n|] eqn:Hl; cbn [default from_option id].
  - rewrite <- (insert_delete_id c l n Hl) at 2. rewrite <- insert_delete_eq.
    rewrite !Hins by apply lookup_delete_eq. lia.
  - rewrite Hins by done. lia.
Qed.

Lemma value_inc k l c : value_of k (vec_inc l c) = value_of k c + (if decide (l = k) then 1 else 0).
Proof.
  unfold value_of, vec_inc. destruct (decide (l = k)) as [->|Hne].
  - by rewrite lookup_insert_eq.
  - rewrite lookup_insert_ne by done. lia.
Qed.

(** ** The loop keeps the account *)

Lemma lift_bind {A B} (m : M A) (f : A → Metered B) E w mo :
  (lift m ≫= f) E w mo = match m E w with
                         | (Ret a, w') => f a E w' mo
                         | (Fail e, w') => (Fail e, w', mo)
                         | (Panic, w') => (Panic, w', mo)
                         end.
Proof. unfold mbind, Metered_bind, lift. by destruct (m E w) as [[] ?]. Qed.

Lemma record_bind {B} g (f : unit → Metered B) E w mo : (record g ≫= f) E w mo = f tt E w (g <$> mo).
Proof. done. Qed.

(** A postcondition on world and metrics, whatever the outcome. *)
Lemma metered_bind_post {A B} (P : World → option Metrics → Prop) (mm : Metered A) (f : A → Metered B) E w mo :
  (∀ o w' mo', mm E w mo = (o, w', mo') → P w' mo') →
  (∀ a w' mo', P w' mo' → ∀ o w'' mo'', f a E w' mo' = (o, w'', mo'') → P w'' mo'') →
  ∀ o w' mo', (mm ≫= f) E w mo = (o, w', mo') → P w' mo'.
Proof.
  intros Hm Hf o w' mo'. unfold mbind, Metered_bind.
  destruct (mm E w mo) as [[[a|e|] w1] mo1] eqn:Hrun; [|intros [= _ <- <-]; by apply (Hm _ _ _ eq_refl)..].
  eapply Hf. by apply (Hm _ _ _ eq_refl).
Qed.

(** A send ends in a value and leaves the tables alone. *)
Lemma sendGuarded_returns row E w : ∃ res w', sendGuarded row E w = (Ret res, w') ∧ w_tab w' = w_tab w.
Proof. unfold sendGuarded. rewrite bind_run. cbn [reading]. rewrite ret_run. eauto. Qed.

(** Rewriting one row that was not sent. *)
Lemma sent_rows_insert kind k r r' w w' :
  t_outbox (w_tab w) !! k = Some r → or_status r ≠ NotificationStatusSent →
  t_outbox (w_tab w') = <[k := r']> (t_outbox (w_tab w)) →
  sent_rows kind w' = sent_rows kind w
    + (if (or_status r' == NotificationStatusSent) && (or_kind r' == kind) then 1 else 0).
Proof.
  intros Hr Hs Ht. unfold sent_rows. rewrite Ht.
  pose proof (count_where_update (λ _ r, (or_status r == NotificationStatusSent) && (or_kind r == kind))
    _ _ _ r' Hr) as Hc.
  cbv beta in Hc. rewrite (bool_decide_eq_false_2 (or_status r = _) Hs) in Hc. cbn [andb] in Hc. lia.
Qed.

Lemma sent_rows_unsent kind k r r' w w' :
  t_outbox (w_tab w) !! k = Some r → or_status r ≠ NotificationStatusSent →
  t_outbox (w_tab w') = <[k := r']> (t_outbox (w_tab w)) → or_status r' ≠ NotificationStatusSent →
  sent_rows kind w' = sent_rows kind w.
Proof.
  intros Hr Hs Ht Hs'. rewrite (sent_rows_insert kind k r r' w w' Hr Hs Ht).
  rewrite bool_decide_eq_false_2 by done. cbn [andb]. lia.
Qed.

Section Account.
Context (elapsed : nat → Z) (wk : Worker) (E : Env).

Lemma MarkSent_counted id r w o w' :
  t_outbox (w_tab w) !! id = Some r → or_status r ≠ NotificationStatusSent →
  quietly (MarkSent false id) E w = (o, w') → ∀ k,
  let d := if decide (or_kind r = k) then 1 else 0 in
  sent_rows k w' - sent_rows k w <= d ∧ (fault_free E → sent_rows k w' - sent_rows k w = d).
Proof.
  intros Hr Hs H k d.
  assert (∀ n, t_outbox (w_tab w') = <[id := sent_row n r]> (t_outbox (w_tab w)) →
    sent_rows k w' - sent_rows k w = d) as Hsent.
  { intros n Ht. rewrite (sent_rows_insert k id r (sent_row n r) w w' Hr Hs Ht).
    cbn [or_status or_kind sent_row]. rewrite bool_decide_eq_true_2 by done. unfold d.
    destruct (decide (or_kind r = k)) as [He|He];
      [rewrite bool_decide_eq_true_2 by done|rewrite bool_decide_eq_false_2 by done]; cbn [andb]; lia. }
  split.
  - apply quietly_tx in H as [[a H]|Ht].
    + apply MarkSent_Ret in H as [_ H]. rewrite (update_where_lookup _ _ _ _ Hr) in H.
      by rewrite (Hsent _ (f_equal t_outbox H)).
    + unfold sent_rows, d. rewrite Ht. destruct (decide _); lia.
  - intros HE. destruct (MarkSent_free id r E w HE Hr) as (w2 & H2 & Ht). rewrite H2 in H.
    injection H as <- <-. by apply (Hsent _ Ht).
Qed.

Lemma deliver_account row r w m o w' mo' :
  t_outbox (w_tab w) !! no_ID row = Some r → or_kind r = no_Kind row →
  or_status r ≠ NotificationStatusSent →
  Metered.deliver elapsed wk row E w (Some m) = (o, w', mo') →
  ∃ m', mo' = Some m' ∧ account E w m w' m'.
Proof.
  intros Hr Hk Hs. unfold Metered.deliver. unfold recordAttempt. rewrite record_bind, lift_bind.
  destruct (sendGuarded_returns row E w) as (res & w1 & -> & Ht1). rewrite <- Ht1 in Hr.
  rewrite lift_bind. cbn [Metered.since]. unfold observeDuration. rewrite record_bind.
  destruct res as [e|]; [unfold recordFailed|unfold recordSent]; rewrite record_bind; unfold lift;
    intros [= Hrun <-]; (eexists; split; [done|]).
  - apply (markFailure_settles _ _ _ _ _ _ _ r) in Hrun as (r' & _ & Hr' & _ & Ht); [|done].
    assert (∀ k, sent_rows k w' = sent_rows k w) as Hsame.
    { intros k. rewrite <- (sent_rows_tab k _ _ Ht1).
      apply (sent_rows_unsent k _ _ r' _ _ Hr Hs (f_equal t_outbox Ht)). by destruct Hr' as [->|]. }
    split; cbn; try (intros k; rewrite Hsame); rewrite ?total_inc; lia.
  - pose proof (MarkSent_counted _ _ _ _ _ Hr Hs Hrun) as Hc.
    split; cbn; rewrite ?total_inc; try lia; intros k; rewrite value_inc, <- Hk;
      destruct (Hc k) as [H1 H2]; rewrite (sent_rows_tab k _ _ Ht1) in H1, H2; [lia|].
    intros HE. specialize (H2 HE). lia.
Qed.

(** One round: nothing is counted, or the delivery of the claimed row is. *)
Lemma drain_round_account w m o w' mo' :
  Metered.drain_round elapsed wk E w (Some m) = (o, w', mo') →
  ∃ m', mo' = Some m' ∧ account E w m w' m'.
Proof.
  unfold Metered.drain_round. rewrite lift_bind. cbn [ctx_done reading].
  destruct (cancel_at E (w_tick w)).
  { intros [= _ <- <-]. exists m. split; [done|by apply account_still]. }
  set (w0 := mkWorld _ _ _ _ _). rewrite lift_bind.
  destruct (ClaimPending false claimBatchSize (wk_leaseOwner wk) E w0) as [[rs|e|] w1] eqn:Hc;
    [|intros [= _ <- <-]; exists m; split; [done|]; apply account_still;
      by rewrite (WithTx_not_Ret _ _ _ _ _ Hc)..].
  apply claim_one in Hc as [[-> Ht1]|(k & r & n & -> & Hr & Hdue & Hw1)].
  { intros [= _ <- <-]. exists m. split; [done|by apply account_still]. }
  assert (account E w m w1 m) as Hclaim.
  { assert (∀ kind, sent_rows kind w1 = sent_rows kind w) as Hsame.
    { intros kind. apply (sent_rows_unsent kind k r (claim (wk_leaseOwner wk) n r) w w1 Hr);
        [by rewrite (due_pending _ _ Hdue)| |done].
      apply (f_equal t_outbox Hw1). }
    split; try done; intros kind; rewrite Hsame; lia. }
  assert (t_outbox (w_tab w1) !! k = Some (claim (wk_leaseOwner wk) n r)) as Hk1
    by (rewrite Hw1; apply lookup_insert_eq).
  revert o w' mo'. apply (metered_bind_post (λ w' mo', ∃ m', mo' = Some m' ∧ account E w m w' m'));
    [|intros ? ? ? ? ? ? ? [= _ <- <-]; done].
  apply (metered_bind_post (λ w' mo', ∃ m', mo' = Some m' ∧ account E w m w' m'));
    [|intros ? ? ? ? ? ? ? [= _ <- <-]; done].
  intros o w' mo'. rewrite lift_bind. cbn [ctx_done reading]. destruct (cancel_at E (w_tick w1)).
  { intros [= _ <- <-]. exists m. split; [done|]. eapply account_trans; [exact Hclaim|by apply account_still]. }
  intros Hd. apply (deliver_account _ (claim (wk_leaseOwner wk) n r)) in Hd as (m' & -> & Hacc); [|done..].
  exists m'. split; [done|]. eapply account_trans; [exact Hclaim|].
  eapply account_trans; [|exact Hacc]. by apply account_still.
Qed.

Lemma drain_loop_account fuel : ∀ w m o w' mo',
  Metered.drain_loop elapsed fuel wk E w (Some m) = (o, w', mo') →
  ∃ m', mo' = Some m' ∧ account E w m w' m'.
Proof.
  induction fuel as [|fuel IH]; intros w m o w' mo'.
  { intros [= _ <- <-]. exists m. split; [done|by apply account_still]. }
  revert o w' mo'. cbn [Metered.drain_loop].
  apply (metered_bind_post (λ w' mo', ∃ m', mo' = Some m' ∧ account E w m w' m')).
  { intros o w' mo'. apply drain_round_account. }
  intros [|] w1 mo1 (m1 & -> & Hacc) o w' mo' H; [|injection H as _ <- <-; eauto].
  apply IH in H as (m' & -> & Hacc'). exists m'. split; [done|]. by eapply account_trans.
Qed.

(** Recovery marks no row as sent. *)
Lemma Recover_sent lease maxAttempts w o w' kind :
  RecoverStaleProcessing false lease maxAttempts E w = (o, w') → sent_rows kind w' = sent_rows kind w.
Proof.
  intros H. destruct o as [rs|e|]; [|apply sent_rows_tab; by eapply WithTx_not_Ret..].
  apply RecoverStaleProcessing_Ret in H as (Ht & _). unfold sent_rows. rewrite Ht. cbn [t_outbox set_outbox].
  apply count_where_same. intros k r _ Hst. unfold stale in Hst.
  apply andb_true_iff in Hst as [Hst%bool_decide_eq_true _]. split.
  - apply andb_false_intro1, bool_decide_eq_false. by rewrite Hst.
  - unfold recover. apply andb_false_intro1, bool_decide_eq_false. cbn. by destruct (_ <=? _).
Qed.

(** The rows a recovery at [w] finds stale. *)
Definition stale_rows (w : World) : Z :=
  count_where (λ _ r, stale (now_at E (w_tick w) - wk_leaseTimeout wk) r) (t_outbox (w_tab w)).

(** A drain: the recovery counts what it recovered, the loop keeps the account. *)
Lemma Drain_account w m o w' mo' :
  Metered.Drain elapsed wk E w (Some m) = (o, w', mo') →
  ∃ m' n, mo' = Some m' ∧ 0 <= n <= stale_rows w ∧ (∀ b, o = Ret b → n = stale_rows w)
    ∧ account E w (mkMetrics (mt_sent m) (mt_failed m) (mt_attempts m) (mt_staleRecovered m + n)
                     (mt_duration m)) w' m'.
Proof.
  assert (0 <= stale_rows w) as Hpos by (unfold stale_rows, count_where; lia).
  unfold Metered.Drain. rewrite lift_bind.
  destruct (RecoverStaleProcessing _ _ _ _ _) as [or w1] eqn:Hrec.
  assert (∀ m0, account E w m0 w1 m0) as Hacc1.
  { intros m0. split; try done; intros k; rewrite (Recover_sent _ _ _ _ _ k Hrec); lia. }
  destruct or as [rs|e|]; [|intros [= <- <- <-]; exists m, 0; rewrite Z.add_0_r; destruct m; split_and!;
    [done|lia|done|done|apply Hacc1]..].
  apply RecoverStaleProcessing_Ret in Hrec as (_ & _ & Hlen).
  assert (Z.of_nat (length rs) = stale_rows w) as Hn by (rewrite Hlen, Z2Nat.id; [done|exact Hpos]).
  intros H. exists (default m mo').
  assert (Metered.drain_loop elapsed (S (queue_work (wk_maxAttempts wk) (t_outbox (w_tab w1)))) wk E w1
    (Some (mkMetrics (mt_sent m) (mt_failed m) (mt_attempts m) (mt_staleRecovered m + stale_rows w)
      (mt_duration m))) = (o, w', mo')) as Hloop.
  { rewrite <- H, Hn. unfold recordStaleRecovered. destruct (stale_rows w <=? 0) eqn:Hz; bool_facts; [|done].
    replace (stale_rows w) with 0 by lia. rewrite Z.add_0_r. by destruct m. }
  apply drain_loop_account in Hloop as (m' & -> & Hacc). exists (stale_rows w).
  split_and!; [done|lia|lia|done|]. eapply account_trans; [apply Hacc1|exact Hacc].
Qed.
End Account.

(** ** Scrapes *)

(** Nothing collides in the dedicated registry: start-up cannot panic on it. *)
Lemma build_registry_ok : build_registry = Some (Metrics_names ++ Describe).
Proof. vm_compute. reflexivity. Qed.

Definition sample_name (s : sample) : string :=
  match s with GaugeSample n _ | CounterSample n _ => n end.

(** A scrape changes no table and always answers: with the depth of the queue as it is
    stored, under the names it described, or, when the query fails, with one more error
    and no gauge. *)
Lemma Collect_spec c E w :
  let t := t_outbox (w_tab w) in
  ∃ c' l w', Collect c E w = (Ret (c', l), w') ∧ w_tab w' = w_tab w
    ∧ (if fault_at E (w_stmt w)
       then sc_errors c' = sc_errors c + 1
            ∧ l = [CounterSample (fqName "collector_errors_total") (sc_errors c + 1)]
       else c' = c ∧ sample_name <$> l = Describe
            ∧ l !! 0%nat = Some (GaugeSample (fqName "outbox_pending") (status_count NotificationStatusPending t))
            ∧ l !! 1%nat = Some (GaugeSample (fqName "outbox_processing") (status_count NotificationStatusProcessing t))
            ∧ l !! 2%nat = Some (GaugeSample (fqName "outbox_failed") (status_count NotificationStatusFailed t))
            ∧ l !! 3%nat = Some (GaugeSample (fqName "outbox_stale_processing")
                (count_where (λ _ r, stale (now_at E (w_tick w) - sc_staleThreshold c) r) t))).
Proof.
  intros t. unfold Collect. rewrite bind_run. unfold try, GetNotificationStats. rewrite bind_run.
  cbn [now reading]. rewrite bind_run. cbn [now reading]. rewrite select_run. cbn [w_stmt].
  destruct (fault_at E (w_stmt w)); rewrite ret_run; do 3 eexists; (split; [reflexivity|]); by split_and!.
Qed.
