(* ===== verification/Workers.v ===== *)
(** * Workers that share the outbox, statement by statement

    [Outbox] and [Notify] take a transaction of the worker as one step.  Here the same
    operations run in any number of processes at once and interleave between their
    statements: the transactions of [RecoverStaleProcessing] and [ClaimPending] with
    their row locks, the send, and the write that records its outcome, together with
    enqueueing, re-driving and pruning.

    Reads see committed rows.  A transaction keeps its writes to itself until it commits;
    the rows it selected [FOR UPDATE] stay locked until it ends, [SKIP LOCKED] leaves out
    the rows that are locked, and an [UPDATE] by id waits for the lock.  A process may
    die at any point; its transaction is rolled back.  A worker below is one running drain:
    a pod may run two, that of [Run] and that of the sweep task.

    Time passes between steps.  A phase of a live worker ends within its bound: a claim
    within [tm_claim] of the clock reading that starts the lease, a send within the mail
    timeout ([context.WithTimeout] in [sendGuarded]), the write of the outcome within
    [tm_mark] ([updateTimeout]). *)

From S2P Require Import Prelude GoStrings GoTime Errors Event Models Store Queries Writes Integrity Outbox OutboxSpec Notify.
Local Open Scope Z_scope.

Record Timing := mkTiming {
  tm_lease : Z; tm_claim : Z; tm_send : Z; tm_mark : Z; tm_maxAttempts : Z; tm_batch : Z }.

(** What a worker is doing.  [todo] are the rows of the open transaction that are still
    to be updated, with the version that was read; [ws] its writes so far; [got] the
    claimed structs; [rest] the rows of the batch that are still to be sent. *)
Inductive phase :=
| Idle
| Recovering (cutoff n : Z) (todo ws : list (Z * OutboxRow))
| Draining
| Claiming (n : Z) (todo ws : list (Z * OutboxRow)) (got : list NotificationOutbox)
| Sending (row : NotificationOutbox) (since : Z) (rest : list NotificationOutbox)
| Settling (row : NotificationOutbox) (res : option send_err) (since : Z) (rest : list NotificationOutbox)
| Writing (row : NotificationOutbox) (attempts : Z) (text : string) (since : Z) (rest : list NotificationOutbox).

(** The rows the open transaction of a phase has locked. *)
Definition tx_ids (ph : phase) : list Z :=
  match ph with
  | Recovering _ _ todo ws | Claiming _ todo ws _ => todo.*1 ++ ws.*1
  | _ => []
  end.

Definition in_tx (ph : phase) : bool := match ph with Recovering _ _ _ _ | Claiming _ _ _ _ => true | _ => false end.

Record Pool := mkPool { po_clock : Z; po_rows : gmap Z OutboxRow; po_phase : gmap nat phase }.

(** The row locks: those of the open transactions. *)
Definition locked (s : Pool) (id : Z) : Prop := ∃ w ph, po_phase s !! w = Some ph ∧ id ∈ tx_ids ph.
Definition locked_ids (s : Pool) : list Z := flat_map (λ wp : nat * phase, tx_ids wp.2) (map_to_list (po_phase s)).

(** [FOR UPDATE SKIP LOCKED]. *)
Definition unlocked_rows (s : Pool) : list (Z * OutboxRow) :=
  filterb (λ kr : Z * OutboxRow, negb (bool_decide (kr.1 ∈ locked_ids s))) (rows (po_rows s)).

Definition apply_writes (ws : list (Z * OutboxRow)) (m : gmap Z OutboxRow) : gmap Z OutboxRow :=
  foldl (λ m kr, <[kr.1 := kr.2]> m) m ws.

(** When a phase must have ended. *)
Definition in_time (tm : Timing) (t : Z) (ph : phase) : Prop :=
  match ph with
  | Claiming n _ _ _ => t <= n + tm_claim tm
  | Sending _ since _ => t <= since + tm_send tm
  | Settling _ _ since _ | Writing _ _ _ since _ => t <= since + tm_mark tm
  | _ => True
  end.

Definition set_phase (w : nat) (ph : phase) (s : Pool) : Pool :=
  mkPool (po_clock s) (po_rows s) (<[w := ph]> (po_phase s)).
Definition set_rows (m : gmap Z OutboxRow) (s : Pool) : Pool := mkPool (po_clock s) m (po_phase s).

(** After a row: the next of the batch, the next batch, or the end of the drain when the
    context is cancelled. *)
Definition after_row (t : Z) (rest : list NotificationOutbox) : phase :=
  match rest with [] => Draining | row :: rest => Sending row t rest end.

Section Steps.
Context (tm : Timing) (owner : nat → string).

(** The update a recovery sends for a row it read. *)
Definition recover_write (cutoff n : Z) (kr : Z * OutboxRow) : OutboxRow :=
  if stale cutoff kr.2
  then set_recovered (recovered_row (tm_maxAttempts tm) n (scanOutboxRow kr.1 kr.2)) n kr.2 else kr.2.

Definition claim_write (w : nat) (n : Z) (kr : Z * OutboxRow) : OutboxRow :=
  let c := claimed_row (owner w) n (scanOutboxRow kr.1 kr.2) in
  set_lease (no_Status c) (no_Attempts c) (no_LockedBy c) (no_LockedAt c) n kr.2.

(** A claim that committed: send the first row, or end the drain when there is none. *)
Definition after_claim (t : Z) (got : list NotificationOutbox) : phase :=
  match got with [] => Idle | row :: rest => Sending row t rest end.

Inductive wstep (s : Pool) : Pool → Prop :=
| s_tick d : 0 < d → (∀ w ph, po_phase s !! w = Some ph → in_time tm (po_clock s + d) ph) →
    wstep s (mkPool (po_clock s + d) (po_rows s) (po_phase s))
| s_start w : po_phase s !! w = None → wstep s (set_phase w Idle s)
| s_crash w : wstep s (mkPool (po_clock s) (po_rows s) (base.delete w (po_phase s)))
(* [RecoverStaleProcessing] *)
| s_recover w n0 n : po_phase s !! w = Some Idle → n0 <= n <= po_clock s →
    wstep s (set_phase w (Recovering (n0 - tm_lease tm) n
      (filterb (λ kr : Z * OutboxRow, stale (n0 - tm_lease tm) kr.2) (unlocked_rows s)) []) s)
| s_recover_write w cutoff n kr todo ws : po_phase s !! w = Some (Recovering cutoff n (kr :: todo) ws) →
    wstep s (set_phase w (Recovering cutoff n todo (ws ++ [(kr.1, recover_write cutoff n kr)])) s)
| s_recover_commit w cutoff n ws : po_phase s !! w = Some (Recovering cutoff n [] ws) →
    wstep s (set_phase w Draining (set_rows (apply_writes ws (po_rows s)) s))
(* [ClaimPending] *)
| s_claim w dueAt : po_phase s !! w = Some Draining → dueAt <= po_clock s →
    wstep s (set_phase w (Claiming (po_clock s)
      (take (Z.to_nat (tm_batch tm)) (filterb (λ kr : Z * OutboxRow, due dueAt kr.2) (unlocked_rows s))) [] []) s)
| s_claim_write w n kr todo ws got : po_phase s !! w = Some (Claiming n (kr :: todo) ws got) →
    wstep s (set_phase w (Claiming n todo (ws ++ [(kr.1, claim_write w n kr)])
      (got ++ [claimed_row (owner w) n (scanOutboxRow kr.1 kr.2)])) s)
| s_claim_commit w n ws got : po_phase s !! w = Some (Claiming n [] ws got) →
    wstep s (set_phase w (after_claim (po_clock s) got) (set_rows (apply_writes ws (po_rows s)) s))
(* a statement of a transaction fails: rollback, and the drain ends with the error *)
| s_rollback w ph : po_phase s !! w = Some ph → in_tx ph = true → wstep s (set_phase w Idle s)
(* [deliver] *)
| s_sent w row since rest res : po_phase s !! w = Some (Sending row since rest) →
    wstep s (set_phase w (Settling row res (po_clock s) rest) s)
| s_mark_sent w row since rest : po_phase s !! w = Some (Settling row None since rest) →
    ¬ locked s (no_ID row) →
    wstep s (set_phase w (after_row (po_clock s) rest)
      (set_rows (update_where (λ k _, k == no_ID row) (sent_row (po_clock s)) (po_rows s)) s))
| s_mark_terminal w row e since rest : po_phase s !! w = Some (Settling row (Some e) since rest) →
    se_permanent e = true → ¬ locked s (no_ID row) →
    wstep s (set_phase w (after_row (po_clock s) rest)
      (set_rows (update_where (λ k _, k == no_ID row)
         (failed_row NotificationStatusFailed None (se_text e) (po_clock s)) (po_rows s)) s))
| s_mark_read w row e since rest r : po_phase s !! w = Some (Settling row (Some e) since rest) →
    se_permanent e = false → po_rows s !! no_ID row = Some r →
    wstep s (set_phase w (Writing row (or_attempts r) (se_text e) since rest) s)
| s_mark_write w row attempts text since rest at_ : po_phase s !! w = Some (Writing row attempts text since rest) →
    ¬ locked s (no_ID row) →
    wstep s (set_phase w (after_row (po_clock s) rest)
      (set_rows (update_where (λ k _, k == no_ID row)
         (if tm_maxAttempts tm <=? attempts then failed_row NotificationStatusFailed None text (po_clock s)
          else failed_row NotificationStatusPending (Some at_) text (po_clock s)) (po_rows s)) s))
(* the write fails or times out: it is logged and the row stays as it is *)
| s_mark_lost w row res since rest : po_phase s !! w = Some (Settling row res since rest) →
    wstep s (set_phase w (after_row (po_clock s) rest) s)
| s_write_lost w row attempts text since rest : po_phase s !! w = Some (Writing row attempts text since rest) →
    wstep s (set_phase w (after_row (po_clock s) rest) s)
(* the context is cancelled between two rows or two batches *)
| s_cancel w row since rest : po_phase s !! w = Some (Sending row since rest) → since = po_clock s →
    wstep s (set_phase w Idle s)
| s_cancel_drain w : po_phase s !! w = Some Draining → wstep s (set_phase w Idle s)
(* the rest of the service *)
| s_enqueue id r : po_rows s !! id = None → or_status r = NotificationStatusPending → or_attempts r = 0 →
    or_locked_by r = None → or_locked_at r = None →
    wstep s (set_rows (<[id := r]> (po_rows s)) s)
| s_redrive ids : (∀ k r, po_rows s !! k = Some r → redrivable ids k r = true → ¬ locked s k) →
    wstep s (set_rows (update_where (redrivable ids) (redriven_row (po_clock s)) (po_rows s)) s)
| s_prune before (ids : list Z) : (∀ k, k ∈ ids → ¬ locked s k ∧ ∃ r, po_rows s !! k = Some r ∧ expired before r = true) →
    wstep s (set_rows (delete_where (λ k _, bool_decide (k ∈ ids)) (po_rows s)) s).

Inductive pool_reachable : Pool → Prop :=
| pool_init t : pool_reachable (mkPool t ∅ ∅)
| pool_next s s' : pool_reachable s → wstep s s' → pool_reachable s'.
End Steps.

(** * What the interleaved workers keep

    Two invariants: what the row locks protect, for any timing, and that a row is in one
    worker's hands, when a lease covers a claim, a send and its outcome. *)

Section Spec.
Context (tm : Timing) (owner : nat → string).

(** ** Writes of a transaction *)

Lemma apply_writes_other ws m k : k ∉ ws.*1 → apply_writes ws m !! k = m !! k.
Proof.
  revert m. induction ws as [|[i r] ws IH]; intros m Hk; [done|]. rewrite fmap_cons in Hk. cbn [fst] in Hk.
  apply not_elem_of_cons in Hk as [Hne Hk].
  change (apply_writes ws (<[i := r]> m) !! k = m !! k). rewrite IH by done. by rewrite lookup_insert_ne.
Qed.

Lemma apply_writes_in ws m k r : NoDup ws.*1 → (k, r) ∈ ws → apply_writes ws m !! k = Some r.
Proof.
  revert m. induction ws as [|[i x] ws IH]; intros m Hnd Hin; [by apply elem_of_nil in Hin|].
  rewrite fmap_cons in Hnd. apply NoDup_cons in Hnd as [Hi Hnd].
  change (apply_writes ws (<[i := x]> m) !! k = Some r).
  apply elem_of_cons in Hin as [[= <- <-]|Hin]; [|by apply IH].
  rewrite apply_writes_other by done. apply lookup_insert_eq.
Qed.

Lemma apply_writes_Some ws m k r : NoDup ws.*1 → apply_writes ws m !! k = Some r →
  (k, r) ∈ ws ∨ (k ∉ ws.*1 ∧ m !! k = Some r).
Proof.
  intros Hnd H. destruct (decide (k ∈ ws.*1)) as [Hk|Hk].
  - apply list_elem_of_fmap in Hk as ([k' x] & -> & Hin). cbn in *. left.
    rewrite (apply_writes_in ws m k' x) in H by done. congruence.
  - right. by rewrite apply_writes_other in H.
Qed.

(** Writes [f] of rows the table has are one bulk update. *)
Lemma apply_writes_update f ws m : NoDup ws.*1 → (∀ kr, kr ∈ ws → ∃ r, m !! kr.1 = Some r ∧ kr.2 = f r) →
  apply_writes ws m = update_where (λ k _, bool_decide (k ∈ ws.*1)) f m.
Proof.
  intros Hnd Hws. apply map_eq. intros k. rewrite lookup_update_where. case_bool_decide as Hk.
  - apply list_elem_of_fmap in Hk as ([k' x] & -> & Hin). cbn.
    rewrite (apply_writes_in ws m k' x) by done. destruct (Hws _ Hin) as (r & Hr & Hx). cbn in Hr, Hx.
    by rewrite Hr, Hx.
  - rewrite apply_writes_other by done. by destruct (m !! k).
Qed.

Lemma elem_of_locked_ids s id : id ∈ locked_ids s ↔ locked s id.
Proof.
  unfold locked_ids, locked. rewrite list_elem_of_In, in_flat_map. split.
  - intros ([w ph] & Hin & Hid). exists w, ph. apply list_elem_of_In, elem_of_map_to_list in Hin.
    by apply list_elem_of_In in Hid.
  - intros (w & ph & Hw & Hid). exists (w, ph). split; [by apply list_elem_of_In, elem_of_map_to_list|].
    by apply list_elem_of_In.
Qed.

Lemma elem_of_unlocked s k r : (k, r) ∈ unlocked_rows s ↔ po_rows s !! k = Some r ∧ ¬ locked s k.
Proof.
  unfold unlocked_rows. rewrite elem_of_filterb, elem_of_rows, negb_true_iff, bool_decide_eq_false.
  cbn. by rewrite elem_of_locked_ids.
Qed.

Lemma NoDup_unlocked s : NoDup (unlocked_rows s).*1.
Proof. apply NoDup_filterb_keys, NoDup_rows_keys. Qed.

(** ** Invariants by worker

    [ids] are the rows a phase holds and [ok] what it knows of them; [ok] looks at no
    other row.  The invariant: no row is held twice, and every phase knows the truth. *)
Section Held.
Context (ids : phase → list Z) (ok : Z → nat → gmap Z OutboxRow → phase → Prop).
Hypothesis frame : ∀ t w m m' ph, (∀ k, k ∈ ids ph → m' !! k = m !! k) → ok t w m ph → ok t w m' ph.

Definition held_inv (s : Pool) : Prop :=
  (∀ w w' ph ph' k, w ≠ w' → po_phase s !! w = Some ph → po_phase s !! w' = Some ph' → k ∈ ids ph → k ∉ ids ph')
  ∧ (∀ w ph, po_phase s !! w = Some ph → ok (po_clock s) w (po_rows s) ph).

(** A worker moves on; the rows change where no other worker holds them. *)
Lemma held_move w ph m s : held_inv s →
  (∀ w' ph' k, w' ≠ w → po_phase s !! w' = Some ph' → k ∈ ids ph' → k ∉ ids ph ∧ m !! k = po_rows s !! k) →
  ok (po_clock s) w m ph → held_inv (set_phase w ph (set_rows m s)).
Proof.
  intros [Hd Hok] Hout Hph. split; cbn.
  - intros w1 w2 p1 p2 k Hne H1 H2 Hk. apply lookup_insert_Some in H1 as [[<- <-]|[Hw1 H1]];
      apply lookup_insert_Some in H2 as [[<- <-]|[Hw2 H2]]; try done.
    + intros Hk2. by destruct (Hout _ _ _ (not_eq_sym Hw2) H2 Hk2).
    + by destruct (Hout _ _ _ (not_eq_sym Hw1) H1 Hk).
    + by apply (Hd w1 w2 p1 p2).
  - intros w' ph' [[<- <-]|[Hne Hw']]%lookup_insert_Some; [done|].
    eapply frame; [|by apply Hok]. intros k Hk. by eapply Hout.
Qed.

(** The rest of the service changes rows nobody holds. *)
Lemma held_rows m s : held_inv s →
  (∀ w ph k, po_phase s !! w = Some ph → k ∈ ids ph → m !! k = po_rows s !! k) → held_inv (set_rows m s).
Proof. intros [Hd Hok] Hm. split; [done|]. intros w ph Hw. eapply frame; [|by apply Hok]. intros k. by eapply Hm. Qed.

Lemma held_crash w s : held_inv s → held_inv (mkPool (po_clock s) (po_rows s) (base.delete w (po_phase s))).
Proof.
  intros [Hd Hok]. split; cbn.
  - intros w1 w2 p1 p2 k Hne [_ H1]%lookup_delete_Some [_ H2]%lookup_delete_Some. by apply (Hd w1 w2 p1 p2).
  - intros w' ph [_ Hw']%lookup_delete_Some. by apply Hok.
Qed.

Lemma held_tick d s : (∀ w ph, po_phase s !! w = Some ph → ok (po_clock s) w (po_rows s) ph →
    ok (po_clock s + d) w (po_rows s) ph) →
  held_inv s → held_inv (mkPool (po_clock s + d) (po_rows s) (po_phase s)).
Proof. intros Ht [Hd Hok]. split; [done|]. cbn. eauto. Qed.

(** A phase that holds no more than before, over the same rows. *)
Lemma held_shrink w ph ph' s : held_inv s → po_phase s !! w = Some ph → (∀ k, k ∈ ids ph' → k ∈ ids ph) →
  ok (po_clock s) w (po_rows s) ph' → held_inv (set_phase w ph' s).
Proof.
  intros Hs Hw Hsub Hok. apply (held_move w ph' (po_rows s)); [done| |done].
  intros w' p k Hne Hp Hk. split; [|done]. intros Hk'. by apply (proj1 Hs w' w p ph k Hne Hp Hw Hk), Hsub.
Qed.
End Held.

(** ** What the row locks protect *)

Definition pending_row (r : OutboxRow) : Prop := or_status r = NotificationStatusPending.

Definition tx_ok (w : nat) (m : gmap Z OutboxRow) (ph : phase) : Prop :=
  match ph with
  | Recovering cutoff n todo ws => NoDup (todo.*1 ++ ws.*1)
      ∧ (∀ kr, kr ∈ todo → m !! kr.1 = Some kr.2 ∧ stale cutoff kr.2 = true)
      ∧ (∀ kr, kr ∈ ws → ∃ r, m !! kr.1 = Some r ∧ stale cutoff r = true ∧ kr.2 = recover (tm_maxAttempts tm) n r)
  | Claiming n todo ws got => NoDup (todo.*1 ++ ws.*1)
      ∧ (∀ kr, kr ∈ todo → m !! kr.1 = Some kr.2 ∧ pending_row kr.2)
      ∧ (∀ kr, kr ∈ ws → ∃ r, m !! kr.1 = Some r ∧ pending_row r ∧ kr.2 = claim (owner w) n r)
      ∧ no_ID <$> got = ws.*1
  | _ => True
  end.

Lemma keys_todo (todo ws : list (Z * OutboxRow)) kr : kr ∈ todo → kr.1 ∈ todo.*1 ++ ws.*1.
Proof. intros H. apply elem_of_app. left. apply list_elem_of_fmap. eauto. Qed.

Lemma keys_ws (todo ws : list (Z * OutboxRow)) kr : kr ∈ ws → kr.1 ∈ todo.*1 ++ ws.*1.
Proof. intros H. apply elem_of_app. right. apply list_elem_of_fmap. eauto. Qed.

Lemma tx_ok_frame w m m' ph : (∀ k, k ∈ tx_ids ph → m' !! k = m !! k) → tx_ok w m ph → tx_ok w m' ph.
Proof.
  intros Hm. destruct ph as [|c n todo ws| |n todo ws got| | |]; cbn in *; try done.
  - intros (Hnd & Htodo & Hws). split_and!; [done| |]; intros kr Hkr; rewrite Hm by eauto using keys_todo, keys_ws; eauto.
  - intros (Hnd & Htodo & Hws & Hgot). split_and!; [done| | |done];
      intros kr Hkr; rewrite Hm by eauto using keys_todo, keys_ws; eauto.
Qed.

(** A statement of the loop moves a row from the rows read to the rows written. *)
Lemma keys_step (k : Z) (a b : list Z) : (k :: a) ++ b ≡ₚ a ++ (b ++ [k]).
Proof. cbn. rewrite (app_assoc a b [k]). apply Permutation_cons_append. Qed.

Lemma keys_written (kr : Z * OutboxRow) (todo ws : list (Z * OutboxRow)) (x : OutboxRow) :
  (kr :: todo).*1 ++ ws.*1 ≡ₚ todo.*1 ++ (ws ++ [(kr.1, x)]).*1.
Proof. rewrite fmap_app, fmap_cons. apply keys_step. Qed.

Lemma tx_ids_recovering kr c n todo ws x k :
  k ∈ tx_ids (Recovering c n todo (ws ++ [(kr.1, x)])) ↔ k ∈ tx_ids (Recovering c n (kr :: todo) ws).
Proof. cbn [tx_ids]. by rewrite <- (keys_written kr todo ws x). Qed.

Lemma tx_ids_claiming kr n todo ws x got got' k :
  k ∈ tx_ids (Claiming n todo (ws ++ [(kr.1, x)]) got') ↔ k ∈ tx_ids (Claiming n (kr :: todo) ws got).
Proof. cbn [tx_ids]. by rewrite <- (keys_written kr todo ws x). Qed.

Lemma tx_ok_recover_write w m c n kr todo ws : tx_ok w m (Recovering c n (kr :: todo) ws) →
  tx_ok w m (Recovering c n todo (ws ++ [(kr.1, recover_write tm c n kr)])).
Proof.
  intros (Hnd & Htodo & Hws). cbn [tx_ok]. split_and!.
  - by rewrite <- (keys_written kr todo ws).
  - intros x Hx. apply Htodo. by right.
  - intros x [Hx|Hx]%elem_of_app; [by apply Hws|]. apply list_elem_of_singleton in Hx as ->.
    destruct (Htodo kr) as [Hm Hst]; [by left|]. exists kr.2. split_and!; [done..|].
    cbn. unfold recover_write. by rewrite Hst.
Qed.

Lemma tx_ok_claim_write w m n kr todo ws got : tx_ok w m (Claiming n (kr :: todo) ws got) →
  tx_ok w m (Claiming n todo (ws ++ [(kr.1, claim_write owner w n kr)])
    (got ++ [claimed_row (owner w) n (scanOutboxRow kr.1 kr.2)])).
Proof.
  intros (Hnd & Htodo & Hws & Hgot). cbn [tx_ok]. split_and!.
  - by rewrite <- (keys_written kr todo ws).
  - intros x Hx. apply Htodo. by right.
  - intros x [Hx|Hx]%elem_of_app; [by apply Hws|]. apply list_elem_of_singleton in Hx as ->.
    destruct (Htodo kr) as [Hm Hst]; [by left|]. by exists kr.2.
  - by rewrite !fmap_app, Hgot.
Qed.

(** What a transaction that starts finds. *)
Lemma tx_ok_recover w s c n :
  tx_ok w (po_rows s) (Recovering c n (filterb (λ kr : Z * OutboxRow, stale c kr.2) (unlocked_rows s)) []).
Proof.
  cbn [tx_ok]. split_and!.
  - rewrite app_nil_r. apply NoDup_filterb_keys, NoDup_unlocked.
  - intros [k r] [[Hr _]%elem_of_unlocked Hst]%elem_of_filterb. done.
  - by intros kr ?%elem_of_nil.
Qed.

Lemma due_is_pending n r : due n r = true → pending_row r.
Proof. unfold due, pending_row. intros H. by bool_facts. Qed.

Lemma tx_ok_claim w s n dueAt batch :
  tx_ok w (po_rows s) (Claiming n (take batch (filterb (λ kr : Z * OutboxRow, due dueAt kr.2) (unlocked_rows s))) [] []).
Proof.
  cbn [tx_ok]. split_and!; [| |by intros kr ?%elem_of_nil|done].
  - rewrite app_nil_r. eapply sublist_NoDup; [|apply fmap_sublist, sublist_take].
    apply NoDup_filterb_keys, NoDup_unlocked.
  - intros [k r] Hin. eapply elem_of_sublist in Hin; [|apply sublist_take].
    apply elem_of_filterb in Hin as [[Hr _]%elem_of_unlocked Hdue]. split; [done|]. by eapply due_is_pending.
Qed.

(** A commit is one bulk update of the rows selected. *)
Lemma recover_commit w m c n ws : tx_ok w m (Recovering c n [] ws) →
  apply_writes ws m = update_where (λ k _, bool_decide (k ∈ ws.*1)) (recover (tm_maxAttempts tm) n) m.
Proof. intros (Hnd & _ & Hws). apply apply_writes_update; [done|]. intros kr (r & ? & _ & ?)%Hws. eauto. Qed.

Lemma claim_commit w m n ws got : tx_ok w m (Claiming n [] ws got) →
  apply_writes ws m = update_where (λ k _, bool_decide (k ∈ ws.*1)) (claim (owner w) n) m.
Proof. intros (Hnd & _ & Hws & _). apply apply_writes_update; [done|]. intros kr (r & ? & _ & ?)%Hws. eauto. Qed.

Lemma unlocked_not_held s w ph k r : po_phase s !! w = Some ph → k ∈ tx_ids ph → (k, r) ∉ unlocked_rows s.
Proof. intros Hw Hk [_ Hl]%elem_of_unlocked. apply Hl. by exists w, ph. Qed.

Definition lock_inv : Pool → Prop := held_inv tx_ids (λ _, tx_ok).

Lemma lock_frame (t : Z) w m m' ph : (∀ k, k ∈ tx_ids ph → m' !! k = m !! k) → tx_ok w m ph → tx_ok w m' ph.
Proof. apply tx_ok_frame. Qed.

Lemma tx_ok_lookup w m ph k : tx_ok w m ph → k ∈ tx_ids ph → ∃ r, m !! k = Some r.
Proof.
  assert (∀ todo ws : list (Z * OutboxRow), k ∈ todo.*1 ++ ws.*1 →
    (∀ kr, kr ∈ todo → ∃ r, m !! kr.1 = Some r) → (∀ kr, kr ∈ ws → ∃ r, m !! kr.1 = Some r) → ∃ r, m !! k = Some r) as Hk.
  { intros todo ws [H|H]%elem_of_app Ht Hw; apply list_elem_of_fmap in H as (kr & -> & Hin); eauto. }
  destruct ph as [|c n todo ws| |n todo ws got| | |]; cbn; try by intros _ ?%elem_of_nil.
  - intros (_ & Ht & Hw) Hin. apply (Hk todo ws Hin); intros kr Hkr;
      [destruct (Ht kr Hkr); eauto|destruct (Hw kr Hkr) as (r & ? & _); eauto].
  - intros (_ & Ht & Hw & _) Hin. apply (Hk todo ws Hin); intros kr Hkr;
      [destruct (Ht kr Hkr); eauto|destruct (Hw kr Hkr) as (r & ? & _); eauto].
Qed.

Lemma no_tx ph : in_tx ph = false → tx_ids ph = [] ∧ ∀ w m, tx_ok w m ph.
Proof. by destruct ph. Qed.

Lemma no_tx_after_row t rest : in_tx (after_row t rest) = false.
Proof. by destruct rest. Qed.
Lemma no_tx_after_claim t got : in_tx (after_claim t got) = false.
Proof. by destruct got. Qed.

(** The worker [w] is in no transaction afterwards. *)
Lemma lock_quiet w ph m s : lock_inv s → in_tx ph = false →
  (∀ w' ph' k, w' ≠ w → po_phase s !! w' = Some ph' → k ∈ tx_ids ph' → m !! k = po_rows s !! k) →
  lock_inv (set_phase w ph (set_rows m s)).
Proof.
  intros Hs [Hids Hok]%no_tx Hm. apply held_move; [apply lock_frame|done| |apply Hok].
  intros w' ph' k Hne Hw' Hk. split; [by rewrite Hids; apply not_elem_of_nil|by eapply Hm].
Qed.

Lemma lock_quiet_same w ph s : lock_inv s → in_tx ph = false → lock_inv (set_phase w ph s).
Proof. intros Hs Hph. by apply (lock_quiet w ph (po_rows s)). Qed.

Lemma update_id_other (id : Z) (f : OutboxRow → OutboxRow) m k :
  k ≠ id → update_where (λ k _, k == id) f m !! k = m !! k.
Proof.
  intros Hne. rewrite lookup_update_where. destruct (m !! k); cbn; [|done].
  by rewrite bool_decide_eq_false_2.
Qed.

Lemma lock_mark w ph id f s : lock_inv s → in_tx ph = false → ¬ locked s id →
  lock_inv (set_phase w ph (set_rows (update_where (λ k _, k == id) f (po_rows s)) s)).
Proof.
  intros Hs Hph Hl. apply lock_quiet; [done..|]. intros w' ph' k _ Hw' Hk.
  apply update_id_other. intros ->. apply Hl. by exists w', ph'.
Qed.

Lemma lock_commit w ph ph' ws s : lock_inv s → po_phase s !! w = Some ph → in_tx ph' = false →
  (∀ k, k ∈ ws.*1 → k ∈ tx_ids ph) → lock_inv (set_phase w ph' (set_rows (apply_writes ws (po_rows s)) s)).
Proof.
  intros Hs Hw Hph Hws. apply lock_quiet; [done..|]. intros w' p k Hne Hp Hk.
  apply apply_writes_other. intros Hin%Hws. by apply (proj1 Hs w' w p ph k Hne Hp Hw Hk).
Qed.

(** A transaction that starts locks rows that nobody has locked. *)
Lemma lock_open w ph s : lock_inv s → (∀ k, k ∈ tx_ids ph → ∃ r, (k, r) ∈ unlocked_rows s) →
  tx_ok w (po_rows s) ph → lock_inv (set_phase w ph s).
Proof.
  intros Hs Hun Hok. apply (held_move _ _ lock_frame w ph (po_rows s)); [done| |done].
  intros w' p k Hne Hp Hk. split; [|done]. intros (r & Hr)%Hun. by eapply unlocked_not_held.
Qed.

Lemma lock_redrive ids n s : (∀ k r, po_rows s !! k = Some r → redrivable ids k r = true → ¬ locked s k) →
  lock_inv s → lock_inv (set_rows (update_where (redrivable ids) (redriven_row n) (po_rows s)) s).
Proof.
  intros Hl Hs. apply (held_rows _ _ lock_frame); [done|]. intros w ph k Hw Hk.
  rewrite lookup_update_where. destruct (po_rows s !! k) as [r|] eqn:Hr; [|done]. cbn.
  destruct (redrivable ids k r) eqn:Hp; [|done]. destruct (Hl k r Hr Hp). by exists w, ph.
Qed.

Lemma lock_prune (ids : list Z) s : (∀ k, k ∈ ids → ¬ locked s k) → lock_inv s →
  lock_inv (set_rows (delete_where (λ k _, bool_decide (k ∈ ids)) (po_rows s)) s).
Proof.
  intros Hl Hs. apply (held_rows _ _ lock_frame); [done|]. intros w ph k Hw Hk.
  rewrite lookup_delete_where. destruct (po_rows s !! k); cbn; [|done].
  case_bool_decide as Hin; [|done]. destruct (Hl k Hin). by exists w, ph.
Qed.

Lemma lock_enqueue id r s : po_rows s !! id = None → lock_inv s → lock_inv (set_rows (<[id := r]> (po_rows s)) s).
Proof.
  intros Hid Hs. apply (held_rows _ _ lock_frame); [done|]. intros w ph k Hw Hk. apply lookup_insert_ne.
  intros <-. destruct (tx_ok_lookup w (po_rows s) ph id) as [x Hx]; [by apply Hs|done|]. congruence.
Qed.

(** What the selects of the two transactions lock. *)
Lemma locks_recover s f c n k : k ∈ tx_ids (Recovering c n (filterb f (unlocked_rows s)) []) → ∃ r, (k, r) ∈ unlocked_rows s.
Proof.
  cbn. rewrite app_nil_r. intros ([k' r] & -> & [Hin _]%elem_of_filterb)%list_elem_of_fmap. eauto.
Qed.

Lemma locks_claim s f n b k : k ∈ tx_ids (Claiming n (take b (filterb f (unlocked_rows s))) [] []) → ∃ r, (k, r) ∈ unlocked_rows s.
Proof.
  cbn. rewrite app_nil_r. intros ([k' r] & -> & Hin)%list_elem_of_fmap.
  eapply elem_of_sublist in Hin; [|apply sublist_take]. apply elem_of_filterb in Hin as [Hin _]. eauto.
Qed.

Lemma lock_step s s' : wstep tm owner s s' → lock_inv s → lock_inv s'.
Proof.
  intros Hst Hs. destruct Hst.
  - apply held_tick; [|done]. eauto.
  - by apply lock_quiet_same.
  - by apply held_crash.
  - apply lock_open; [done|apply locks_recover|apply tx_ok_recover].
  - eapply held_shrink; [apply lock_frame|done|done|intros k; apply tx_ids_recovering|].
    apply tx_ok_recover_write. by apply Hs.
  - eapply lock_commit; [done..|]. cbn. done.
  - apply lock_open; [done|apply locks_claim|apply tx_ok_claim].
  - eapply held_shrink; [apply lock_frame|done|done|intros k; apply tx_ids_claiming|].
    apply tx_ok_claim_write. by apply Hs.
  - eapply lock_commit; [done..|apply no_tx_after_claim|]. cbn. done.
  - by apply lock_quiet_same.
  - by apply lock_quiet_same.
  - apply lock_mark; [done|apply no_tx_after_row|done].
  - apply lock_mark; [done|apply no_tx_after_row|done].
  - by apply lock_quiet_same.
  - apply lock_mark; [done|apply no_tx_after_row|done].
  - apply lock_quiet_same; [done|apply no_tx_after_row].
  - apply lock_quiet_same; [done|apply no_tx_after_row].
  - by apply lock_quiet_same.
  - by apply lock_quiet_same.
  - by apply lock_enqueue.
  - by apply lock_redrive.
  - apply lock_prune; [|done]. intros k Hk. by destruct (H k Hk).
Qed.

Lemma lock_reachable s : pool_reachable tm owner s → lock_inv s.
Proof. induction 1 as [t|s s' _ IH Hst]; [split; by intros *|by eapply lock_step]. Qed.

(** ** Serialisation

    The operations of [Outbox] on the rows, each in one step. *)
Inductive atomic_op (m : gmap Z OutboxRow) : gmap Z OutboxRow → Prop :=
| op_none : atomic_op m m
| op_claim w n (ids : list Z) :
    (∀ k, k ∈ ids → ∃ r, m !! k = Some r ∧ or_status r = NotificationStatusPending) →
    atomic_op m (update_where (λ k _, bool_decide (k ∈ ids)) (claim (owner w) n) m)
| op_recover cutoff n (ids : list Z) :
    (∀ k, k ∈ ids → ∃ r, m !! k = Some r ∧ stale cutoff r = true) →
    atomic_op m (update_where (λ k _, bool_decide (k ∈ ids)) (recover (tm_maxAttempts tm) n) m)
| op_sent id n : atomic_op m (update_where (λ k _, k == id) (sent_row n) m)
| op_failed id text n :
    atomic_op m (update_where (λ k _, k == id) (failed_row NotificationStatusFailed None text n) m)
| op_retry id at_ text n :
    atomic_op m (update_where (λ k _, k == id) (failed_row NotificationStatusPending (Some at_) text n) m)
| op_enqueue id r : m !! id = None → or_status r = NotificationStatusPending → atomic_op m (<[id := r]> m)
| op_redrive ids n : atomic_op m (update_where (redrivable ids) (redriven_row n) m)
| op_prune before (ids : list Z) : (∀ k, k ∈ ids → ∃ r, m !! k = Some r ∧ expired before r = true) →
    atomic_op m (delete_where (λ k _, bool_decide (k ∈ ids)) m).

Lemma written_keys {P : OutboxRow → Prop} {Q : Z * OutboxRow → OutboxRow → Prop} (m : gmap Z OutboxRow) ws k :
  (∀ kr, kr ∈ ws → ∃ r, m !! kr.1 = Some r ∧ P r ∧ Q kr r) → k ∈ ws.*1 → ∃ r, m !! k = Some r ∧ P r.
Proof. intros H (kr & -> & Hin)%list_elem_of_fmap. destruct (H kr Hin) as (r & ? & ? & _). eauto. Qed.

Lemma step_atomic s s' : lock_inv s → wstep tm owner s s' → atomic_op (po_rows s) (po_rows s').
Proof.
  intros [_ Hok] Hst. destruct Hst as [| | | | |w c n ws Hw| | |w n ws got Hw| | | | | |w row attempts| | | | | | |];
    cbn [po_rows set_phase set_rows]; try apply op_none.
  - pose proof (Hok _ _ Hw) as Htx. rewrite (recover_commit _ _ _ _ _ Htx).
    apply (op_recover _ c). intros k. eapply written_keys, Htx.
  - pose proof (Hok _ _ Hw) as Htx. rewrite (claim_commit _ _ _ _ _ Htx).
    apply op_claim. intros k. eapply written_keys, Htx.
  - apply op_sent.
  - apply op_failed.
  - destruct (tm_maxAttempts tm <=? attempts); [apply op_failed|apply op_retry].
  - by apply op_enqueue.
  - apply op_redrive.
  - apply (op_prune _ before). naive_solver.
Qed.
End Spec.
