(* ===== verification/WorkersHands.v ===== *)
(** * A row in one pair of hands

    When the lease covers a claim, a send and the write of its outcome, and a claim takes
    one row ([claimBatchSize]), no two live workers have the same row in hand: recovery
    finds no row whose worker is still at it. *)

From S2P Require Import Prelude GoStrings GoTime Errors Event Models Store Queries Writes Integrity Outbox OutboxSpec Notify Workers.
Local Open Scope Z_scope.

(** The rows a worker has in hand: those of its transaction, and those it is sending or
    about to send. *)
Definition in_hand (ph : phase) : list Z :=
  match ph with
  | Recovering _ _ todo ws | Claiming _ todo ws _ => todo.*1 ++ ws.*1
  | Sending row _ rest | Settling row _ _ rest | Writing row _ _ _ rest => no_ID row :: (no_ID <$> rest)
  | _ => []
  end.

(** The configured times leave room for one row. *)
Definition roomy (tm : Timing) : Prop :=
  tm_batch tm = 1 ∧ 0 < tm_maxAttempts tm ∧ 0 <= tm_claim tm ∧ 0 <= tm_send tm ∧ 0 <= tm_mark tm
  ∧ tm_claim tm + tm_send tm + tm_mark tm <= tm_lease tm.

Section Hands.
Context (tm : Timing) (owner : nat → string).
Hypothesis Hroom : roomy tm.

(** The row of the table a worker works on: leased at [n], by that worker. *)
Definition leased (w : nat) (n : Z) (m : gmap Z OutboxRow) (id : Z) (r : OutboxRow) : Prop :=
  m !! id = Some r ∧ or_status r = NotificationStatusProcessing ∧ or_locked_at r = Some n
  ∧ or_locked_by r = Some (owner w).

Definition hand_ok (t : Z) (w : nat) (m : gmap Z OutboxRow) (ph : phase) : Prop :=
  match ph with
  | Recovering cutoff _ _ _ => tx_ok tm owner w m ph ∧ cutoff <= t - tm_lease tm
  | Claiming n todo ws _ => tx_ok tm owner w m ph ∧ (length todo + length ws <= 1)%nat ∧ n <= t <= n + tm_claim tm
  | Sending row since rest => rest = [] ∧ ∃ n r, leased w n m (no_ID row) r
      ∧ since <= n + tm_claim tm ∧ since <= t <= since + tm_send tm
  | Settling row _ since rest => rest = [] ∧ ∃ n r, leased w n m (no_ID row) r
      ∧ since <= n + tm_claim tm + tm_send tm ∧ since <= t <= since + tm_mark tm
  | Writing row attempts _ since rest => rest = [] ∧ ∃ n r, leased w n m (no_ID row) r ∧ or_attempts r = attempts
      ∧ since <= n + tm_claim tm + tm_send tm ∧ since <= t <= since + tm_mark tm
  | _ => True
  end.

Definition hand_inv : Pool → Prop := held_inv in_hand hand_ok.

Lemma hand_frame t w m m' ph : (∀ k, k ∈ in_hand ph → m' !! k = m !! k) → hand_ok t w m ph → hand_ok t w m' ph.
Proof.
  intros Hm. assert (∀ n id r, id ∈ in_hand ph → leased w n m id r → leased w n m' id r) as Hl.
  { intros n id r Hid (H & ?). split; [by rewrite Hm|done]. }
  destruct ph as [|c n todo ws| |n todo ws got|row since rest|row res since rest|row at_ txt since rest]; cbn -[tx_ok]; try done.
  - intros [Htx ?]. split; [|done]. by eapply tx_ok_frame.
  - intros [Htx ?]. split; [|done]. by eapply tx_ok_frame.
  - intros (-> & n & r & Hr & ?). split; [done|]. exists n, r. split; [apply Hl; [by left|done]|done].
  - intros (-> & n & r & Hr & ?). split; [done|]. exists n, r. split; [apply Hl; [by left|done]|done].
  - intros (-> & n & r & Hr & ?). split; [done|]. exists n, r. split; [apply Hl; [by left|done]|done].
Qed.

(** The state of the rows in hand: waiting ones in a claim, stale ones in a recovery, and
    leased ones with time left. *)
Lemma hand_rows t w m ph k : hand_ok t w m ph → k ∈ in_hand ph → ∃ r, m !! k = Some r
  ∧ ((in_tx ph = true ∧ k ∈ tx_ids ph) ∨ ∃ n, leased w n m k r ∧ t - tm_lease tm <= n).
Proof.
  destruct Hroom as (_ & _ & ? & ? & ? & ?).
  destruct ph as [|c n todo ws| |n todo ws got|row since rest|row res since rest|row at_ txt since rest];
    cbn -[tx_ok]; try by intros _ ?%elem_of_nil.
  - intros [Htx ?] Hk. destruct (tx_ok_lookup _ _ _ _ _ k Htx) as [r Hr]; [done|]. eauto.
  - intros [Htx ?] Hk. destruct (tx_ok_lookup _ _ _ _ _ k Htx) as [r Hr]; [done|]. eauto.
  - intros (-> & n & r & Hr & ?) ->%list_elem_of_singleton. exists r. split; [apply Hr|]. right. exists n. split; [done|lia].
  - intros (-> & n & r & Hr & ?) ->%list_elem_of_singleton. exists r. split; [apply Hr|]. right. exists n. split; [done|lia].
  - intros (-> & n & r & Hr & ? & ?) ->%list_elem_of_singleton. exists r. split; [apply Hr|]. right. exists n. split; [done|lia].
Qed.

Lemma stale_processing c r : stale c r = true → or_status r = NotificationStatusProcessing.
Proof. unfold stale. intros H. by bool_facts. Qed.

(** Rows of a transaction are open ones: pending in a claim, processing in a recovery. *)
Lemma tx_open w m ph k r : tx_ok tm owner w m ph → k ∈ tx_ids ph → m !! k = Some r →
  or_status r = NotificationStatusPending ∨ or_status r = NotificationStatusProcessing.
Proof.
  intros Htx Hk Hr. destruct ph as [|c n todo ws| |n todo ws got| | |]; cbn in Hk; try by apply elem_of_nil in Hk.
  - destruct Htx as (_ & Ht & Hw). right. apply (stale_processing c).
    apply elem_of_app in Hk as [(kr & -> & Hin)%list_elem_of_fmap|(kr & -> & Hin)%list_elem_of_fmap].
    + destruct (Ht kr Hin). congruence.
    + destruct (Hw kr Hin) as (x & ? & ? & _). congruence.
  - destruct Htx as (_ & Ht & Hw & _). left.
    apply elem_of_app in Hk as [(kr & -> & Hin)%list_elem_of_fmap|(kr & -> & Hin)%list_elem_of_fmap].
    + destruct (Ht kr Hin) as [? Hp]. unfold pending_row in Hp. congruence.
    + destruct (Hw kr Hin) as (x & ? & Hp & _). unfold pending_row in Hp. congruence.
Qed.

Lemma hand_open t w m ph k r : hand_ok t w m ph → k ∈ in_hand ph → m !! k = Some r →
  or_status r = NotificationStatusPending ∨ or_status r = NotificationStatusProcessing.
Proof.
  intros Hok Hk Hr. destruct (hand_rows t w m ph k Hok Hk) as (r' & Hr' & [[Htx Hin]|(n & (Hl & Hp & _) & _)]).
  - eapply tx_open; [|done..]. destruct ph; try discriminate Htx; apply Hok.
  - right. congruence.
Qed.

Definition empty_handed (ph : phase) : bool := match ph with Idle | Draining => true | _ => false end.

Lemma hand_quiet w ph m s : hand_inv s → empty_handed ph = true →
  (∀ w' ph' k, w' ≠ w → po_phase s !! w' = Some ph' → k ∈ in_hand ph' → m !! k = po_rows s !! k) →
  hand_inv (set_phase w ph (set_rows m s)).
Proof.
  intros Hs Hph Hm. apply held_move; [apply hand_frame|done| |by destruct ph].
  intros w' ph' k Hne Hw' Hk. split; [|by eapply Hm].
  destruct ph; try discriminate Hph; apply not_elem_of_nil.
Qed.

Lemma hand_quiet_same w ph s : hand_inv s → empty_handed ph = true → hand_inv (set_phase w ph s).
Proof. intros Hs Hph. by apply (hand_quiet w ph (po_rows s)). Qed.

(** The outcome of the row in hand is written, and the hands are empty. *)
Lemma hand_mark w ph id f s t : hand_inv s → po_phase s !! w = Some ph → in_hand ph = [id] →
  hand_inv (set_phase w (after_row t []) (set_rows (update_where (λ k _, k == id) f (po_rows s)) s)).
Proof.
  intros Hs Hw Hid. apply hand_quiet; [done..|]. intros w' p k Hne Hp Hk. apply update_id_other. intros ->.
  apply (proj1 Hs w' w p ph id Hne Hp Hw Hk). rewrite Hid. by left.
Qed.

Lemma hand_tick d s : 0 < d → (∀ w ph, po_phase s !! w = Some ph → in_time tm (po_clock s + d) ph) →
  hand_inv s → hand_inv (mkPool (po_clock s + d) (po_rows s) (po_phase s)).
Proof.
  intros Hd Ht. apply held_tick. intros w ph Hw. specialize (Ht w ph Hw).
  destruct ph; cbn -[tx_ok] in *; try done.
  - intros [? ?]. split; [done|lia].
  - intros (? & ? & ?). split_and!; [done..|lia|lia].
  - intros (? & n & r & ? & ? & ?). split; [done|]. exists n, r. split_and!; [done|lia..].
  - intros (? & n & r & ? & ? & ?). split; [done|]. exists n, r. split_and!; [done|lia..].
  - intros (? & n & r & ? & ? & ? & ?). split; [done|]. exists n, r. split_and!; [done|done|lia..].
Qed.

(** A row another worker has in hand is locked, or leased with time left. *)
Lemma hand_recover w n0 n s : hand_inv s → n0 <= n <= po_clock s →
  hand_inv (set_phase w (Recovering (n0 - tm_lease tm) n
    (filterb (λ kr : Z * OutboxRow, stale (n0 - tm_lease tm) kr.2) (unlocked_rows s)) []) s).
Proof.
  intros Hs Hn. apply (held_move _ _ hand_frame w _ (po_rows s)); [done| |cbn -[tx_ok]; split; [apply tx_ok_recover|lia]].
  intros w' ph k Hne Hw' Hk. split; [|done]. cbn. rewrite app_nil_r.
  intros ([k' r] & -> & [[Hr Hl]%elem_of_unlocked Hst]%elem_of_filterb)%list_elem_of_fmap. cbn in Hk, Hst.
  destruct (hand_rows _ _ _ _ _ (proj2 Hs _ _ Hw') Hk) as (r' & Hr' & [[_ Hin]|(a & (Hr2 & _ & Hat & _) & Ha)]).
  - apply Hl. by exists w', ph.
  - assert (r' = r) as -> by congruence. unfold stale in Hst. rewrite Hat in Hst. bool_facts. lia.
Qed.

Lemma hand_claim w dueAt s : hand_inv s →
  hand_inv (set_phase w (Claiming (po_clock s) (take (Z.to_nat (tm_batch tm))
    (filterb (λ kr : Z * OutboxRow, due dueAt kr.2) (unlocked_rows s))) [] []) s).
Proof.
  intros Hs. destruct Hroom as (Hb & _ & ? & _). apply (held_move _ _ hand_frame w _ (po_rows s)); [done| |].
  - intros w' ph k Hne Hw' Hk. split; [|done]. cbn. rewrite app_nil_r.
    intros ([k' r] & -> & Hin)%list_elem_of_fmap. eapply elem_of_sublist in Hin; [|apply sublist_take].
    apply elem_of_filterb in Hin as [[Hr Hl]%elem_of_unlocked Hdue%due_is_pending]. cbn in Hk.
    destruct (hand_rows _ _ _ _ _ (proj2 Hs _ _ Hw') Hk) as (r' & Hr' & [[_ Hin]|(a & (Hr2 & Hp & _) & _)]).
    + apply Hl. by exists w', ph.
    + unfold pending_row in Hdue. cbn in Hdue. assert (r' = r) as -> by congruence. by rewrite Hdue in Hp.
  - cbn -[tx_ok]. split_and!; [apply tx_ok_claim| |lia|lia]. rewrite Hb, length_take. cbn. lia.
Qed.

(** The commit of a claim: the row is leased to the worker that sends it. *)
Lemma hand_claimed w n ws got s : hand_inv s → po_phase s !! w = Some (Claiming n [] ws got) →
  hand_inv (set_phase w (after_claim (po_clock s) got) (set_rows (apply_writes ws (po_rows s)) s)).
Proof.
  intros Hs Hw. destruct (proj2 Hs _ _ Hw) as ((Hnd & _ & Hws & Hgot) & Hlen & Ht).
  destruct Hroom as (_ & _ & _ & ? & _). cbn in Hlen.
  assert (∀ w' ph' k, w' ≠ w → po_phase s !! w' = Some ph' → k ∈ in_hand ph' →
    k ∉ ws.*1 ∧ apply_writes ws (po_rows s) !! k = po_rows s !! k) as Hout.
  { intros w' p k Hne Hp Hk. assert (k ∉ ws.*1) by (by apply (proj1 Hs w' w p _ k Hne Hp Hw Hk)).
    split; [done|by apply apply_writes_other]. }
  destruct got as [|row got]; [apply hand_quiet; naive_solver|].
  destruct ws as [|[id x] [|]]; try (cbn in *; discriminate || lia).
  destruct got; [|discriminate]. injection Hgot as Hid.
  destruct (Hws (id, x)) as (r & Hr & Hp & Hx); [by left|]. cbn in Hr, Hx.
  apply held_move; [apply hand_frame|done| |]; cbn -[apply_writes].
  - intros w' p k Hne Hw' Hk. rewrite Hid. eauto.
  - split; [done|]. exists n, x. split_and!; [|lia..]. rewrite Hid.
    split; [apply (apply_writes_in [(id, x)]); [done|by left]|]. by subst x.
Qed.

Lemma hand_sent w row since rest res s : hand_inv s → po_phase s !! w = Some (Sending row since rest) →
  hand_inv (set_phase w (Settling row res (po_clock s) rest) s).
Proof.
  intros Hs Hw. eapply held_shrink; [apply hand_frame|done..|].
  destruct (proj2 Hs _ _ Hw) as (-> & n & r & Hl & ? & ?). destruct Hroom as (_ & _ & _ & _ & ? & _).
  split; [done|]. exists n, r. split_and!; [done|lia..].
Qed.

Lemma hand_read w row res since rest txt r s : hand_inv s → po_phase s !! w = Some (Settling row res since rest) →
  po_rows s !! no_ID row = Some r → hand_inv (set_phase w (Writing row (or_attempts r) txt since rest) s).
Proof.
  intros Hs Hw Hr. eapply held_shrink; [apply hand_frame|done..|].
  destruct (proj2 Hs _ _ Hw) as (-> & n & r' & Hl & ? & ?). split; [done|]. exists n, r'. split_and!; [done| |lia..].
  destruct Hl as [Hl _]. congruence.
Qed.

(** What changes a row nobody has in hand: rows that are not open. *)
Lemma hand_closed m s : hand_inv s →
  (∀ k r, po_rows s !! k = Some r → m !! k = Some r
     ∨ (or_status r ≠ NotificationStatusPending ∧ or_status r ≠ NotificationStatusProcessing)) →
  hand_inv (set_rows m s).
Proof.
  intros Hs Hm. apply (held_rows _ _ hand_frame); [done|]. intros w ph k Hw Hk.
  destruct (hand_rows _ _ _ _ _ (proj2 Hs _ _ Hw) Hk) as (r & Hr & _). rewrite Hr.
  destruct (Hm k r Hr) as [?|[H1 H2]]; [done|].
  by destruct (hand_open _ _ _ _ _ _ (proj2 Hs _ _ Hw) Hk Hr).
Qed.

Lemma redrive_closed ids n m k r : m !! k = Some r →
  update_where (redrivable ids) (redriven_row n) m !! k = Some r ∨ or_status r = NotificationStatusFailed.
Proof.
  intros Hr. rewrite lookup_update_where, Hr. cbn. destruct (redrivable ids k r) eqn:Hp; [right|by left].
  unfold redrivable in Hp. by bool_facts.
Qed.

Lemma prune_closed before (ids : list Z) m k r :
  (∀ k, k ∈ ids → ∃ r, m !! k = Some r ∧ expired before r = true) → m !! k = Some r →
  delete_where (λ k _, bool_decide (k ∈ ids)) m !! k = Some r ∨
  (or_status r = NotificationStatusSent ∧ delete_where (λ k _, bool_decide (k ∈ ids)) m !! k = None).
Proof.
  intros Hids Hr. rewrite lookup_delete_where, Hr. case_bool_decide as Hk; [right|by left].
  destruct (Hids k Hk) as (r' & Hr' & He). unfold expired in He. bool_facts. split; [congruence|done].
Qed.

Lemma hand_service s m : hand_inv s → (∀ k r, po_rows s !! k = Some r → m !! k = Some r
     ∨ or_status r = NotificationStatusFailed ∨ or_status r = NotificationStatusSent) → hand_inv (set_rows m s).
Proof.
  intros Hs Hm. apply hand_closed; [done|]. intros k r Hr. destruct (Hm k r Hr) as [?|[->| ->]]; [by left|by right..].
Qed.

(** The row of a worker that is past the claim is the only one it holds. *)
Lemma hand_single t w m row ph : hand_ok t w m ph →
  (∃ since rest, ph = Sending row since rest ∨ (∃ res, ph = Settling row res since rest)
    ∨ ∃ a txt, ph = Writing row a txt since rest) → in_hand ph = [no_ID row].
Proof. intros Hok (since & rest & [->|[[res ->]|(a & txt & ->)]]); destruct Hok as [-> _]; done. Qed.

Lemma hand_step s s' : wstep tm owner s s' → hand_inv s → hand_inv s'.
Proof.
  intros Hst Hs. destruct Hst;
    try match goal with Hw : po_phase s !! _ = Some (Settling _ _ _ ?rest) |- hand_inv (set_phase _ (after_row _ ?rest) _) =>
      assert (rest = []) as -> by apply (proj2 Hs _ _ Hw) end;
    try match goal with Hw : po_phase s !! _ = Some (Writing _ _ _ _ ?rest) |- hand_inv (set_phase _ (after_row _ ?rest) _) =>
      assert (rest = []) as -> by apply (proj2 Hs _ _ Hw) end.
  - by apply hand_tick.
  - by apply hand_quiet_same.
  - by apply held_crash.
  - by apply hand_recover.
  - eapply held_shrink; [apply hand_frame|done|done|intros k; apply (proj1 (tx_ids_recovering kr cutoff n todo ws _ k))|].
    destruct (proj2 Hs _ _ H) as [Htx ?]. split; [by apply tx_ok_recover_write|done].
  - apply hand_quiet; [done..|]. intros w' p k Hne Hp Hk. apply apply_writes_other.
    apply (proj1 Hs w' w p _ k Hne Hp H Hk).
  - by apply hand_claim.
  - eapply held_shrink; [apply hand_frame|done|done|intros k; apply (proj1 (tx_ids_claiming kr n todo ws _ got [] k))|].
    destruct (proj2 Hs _ _ H) as (Htx & Hl & ?). split; [by apply tx_ok_claim_write|].
    split; [|done]. rewrite length_app. cbn in *. lia.
  - by eapply hand_claimed.
  - by apply hand_quiet_same.
  - by eapply hand_sent.
  - by eapply hand_mark.
  - by eapply hand_mark.
  - by eapply hand_read.
  - by eapply hand_mark.
  - by apply hand_quiet_same.
  - by apply hand_quiet_same.
  - by apply hand_quiet_same.
  - by apply hand_quiet_same.
  - apply hand_service; [done|]. intros k x Hx. left. rewrite lookup_insert_ne; [done|congruence].
  - apply hand_service; [done|]. intros k x Hx. destruct (redrive_closed ids (po_clock s) _ k x Hx); eauto.
  - apply hand_service; [done|]. intros k x Hx.
    assert (∀ k, k ∈ ids → ∃ r, po_rows s !! k = Some r ∧ expired before r = true) as Hids by (intros j Hj; apply (H j Hj)).
    destruct (prune_closed before ids _ k x Hids Hx) as [?|[? _]]; eauto.
Qed.

Lemma hand_reachable s : pool_reachable tm owner s → hand_inv s.
Proof. induction 1 as [t|s s' _ IH Hst]; [split; by intros *|by eapply hand_step]. Qed.

(** ** The queue, and the rows that were sent *)

Lemma queue_written m (ids : list Z) f : (∀ k, k ∈ ids → ∃ r, m !! k = Some r ∧ (row_ok (tm_maxAttempts tm) r → row_ok (tm_maxAttempts tm) (f r))) →
  queue_ok (tm_maxAttempts tm) m → queue_ok (tm_maxAttempts tm) (update_where (λ k _, bool_decide (k ∈ ids)) f m).
Proof.
  intros Hf. apply queue_ok_update. intros k r Hr Hok Hk%bool_decide_eq_true.
  destruct (Hf k Hk) as (r' & Hr' & H). assert (r' = r) as -> by congruence. auto.
Qed.

Lemma queue_step s s' : lock_inv tm owner s → hand_inv s → wstep tm owner s s' →
  queue_ok (tm_maxAttempts tm) (po_rows s) → queue_ok (tm_maxAttempts tm) (po_rows s').
Proof.
  intros Hl Hs Hst Hq. assert (0 < tm_maxAttempts tm) as Hmax by apply Hroom.
  destruct Hst as [| | | | |w c n ws Hw| | |w n ws got Hw| | | | | |w row attempts txt since rest at_ Hw| | | | |id r Hid Hp Ha Hb Hc| |];
    cbn [po_rows set_phase set_rows]; try done.
  - pose proof (proj2 Hl _ _ Hw) as Htx. rewrite (recover_commit _ _ _ _ _ _ _ Htx).
    apply queue_written; [|done]. intros k Hk. destruct Htx as (_ & _ & Hws).
    destruct (written_keys _ _ k Hws Hk) as (r & Hr & _). exists r. split; [done|apply recover_ok].
  - pose proof (proj2 Hl _ _ Hw) as Htx. rewrite (claim_commit _ _ _ _ _ _ _ Htx).
    apply queue_written; [|done]. intros k Hk. destruct Htx as (_ & _ & Hws & _).
    destruct (written_keys _ _ k Hws Hk) as (r & Hr & ?). exists r. split; [done|]. intros. by apply claim_ok.
  - apply queue_ok_update; [|done]. intros. by apply sent_ok.
  - apply queue_ok_update; [|done]. intros. by apply failed_ok.
  - apply queue_ok_update; [|done]. intros k r Hr Hok ->%bool_decide_eq_true.
    destruct (proj2 Hs _ _ Hw) as (_ & n & r' & [Hr' _] & <- & _). assert (r' = r) as -> by congruence.
    destruct (tm_maxAttempts tm <=? or_attempts r) eqn:He; bool_facts; [by apply failed_ok|by apply retry_ok].
  - apply queue_ok_insert; [|done]. split; [lia|]. apply state_pending; [done|lia|done..].
  - apply queue_ok_update; [|done]. intros. by apply redriven_ok.
  - intros k r. rewrite lookup_delete_where. intros Hr. destruct (po_rows s !! k) as [x|] eqn:Hx; cbn in Hr; [|done].
    destruct (bool_decide (k ∈ ids)); [done|]. injection Hr as <-. by eapply Hq.
Qed.

Lemma queue_reachable s : pool_reachable tm owner s → queue_ok (tm_maxAttempts tm) (po_rows s).
Proof.
  induction 1 as [t|s s' Hr IH Hst]; [by intros k r|].
  eapply queue_step; eauto using lock_reachable, hand_reachable.
Qed.

(** An update of rows in hand leaves a row that was sent alone. *)
Lemma sent_other p f (m : gmap Z OutboxRow) k r : m !! k = Some r →
  (p k r = true → or_status r ≠ NotificationStatusSent) → or_status r = NotificationStatusSent →
  update_where p f m !! k = Some r.
Proof. intros Hr Hp Hst. rewrite lookup_update_where, Hr. cbn. destruct (p k r); [by destruct Hp|done]. Qed.

Lemma mark_not_sent w row s k r ph : hand_inv s → po_phase s !! w = Some ph → in_hand ph = [no_ID row] → in_tx ph = false →
  po_rows s !! k = Some r → (k == no_ID row) = true → or_status r ≠ NotificationStatusSent.
Proof.
  intros Hs Hw Hh Htx Hr ->%bool_decide_eq_true Hst.
  assert (no_ID row ∈ in_hand ph) as Hin by (rewrite Hh; by left).
  destruct (hand_open _ _ _ _ _ _ (proj2 Hs _ _ Hw) Hin Hr) as [Hp|Hp]; by rewrite Hst in Hp.
Qed.

(** A row that was sent stays as it is until it is pruned. *)
Lemma sent_step s s' k r : lock_inv tm owner s → hand_inv s → wstep tm owner s s' →
  po_rows s !! k = Some r → or_status r = NotificationStatusSent →
  po_rows s' !! k = Some r ∨ po_rows s' !! k = None.
Proof.
  intros Hl Hs Hst Hr Hsent. destruct Hst as [| | | | |w c n ws Hw| | |w n ws got Hw| | | | | |w row attempts txt since rest at_ Hw| | | | |id x Hid| |before ids Hids];
    cbn [po_rows set_phase set_rows]; try by left.
  - left. rewrite apply_writes_other; [done|]. intros Hk. destruct (proj2 Hl _ _ Hw) as (_ & _ & Hws).
    destruct (written_keys _ _ k Hws Hk) as (r' & Hr' & Hx%stale_processing). replace r' with r in Hx by congruence. by rewrite Hsent in Hx.
  - left. rewrite apply_writes_other; [done|]. intros Hk. destruct (proj2 Hl _ _ Hw) as (_ & _ & Hws & _).
    destruct (written_keys _ _ k Hws Hk) as (r' & Hr' & Hx). unfold pending_row in Hx. replace r' with r in Hx by congruence. by rewrite Hsent in Hx.
  - left. apply sent_other; [done| |done]. eapply mark_not_sent; [done|done| |done|done]. eapply hand_single; eauto 10. by apply Hs.
  - left. apply sent_other; [done| |done]. eapply mark_not_sent; [done|done| |done|done]. eapply hand_single; eauto 10. by apply Hs.
  - left. apply sent_other; [done| |done]. eapply mark_not_sent; [done|done| |done|done]. eapply hand_single; eauto 10. by apply Hs.
  - left. rewrite lookup_insert_ne; [done|congruence].
  - left. destruct (redrive_closed ids (po_clock s) _ k r Hr) as [?|Hf]; [done|]. by rewrite Hsent in Hf.
  - assert (∀ k, k ∈ ids → ∃ r, po_rows s !! k = Some r ∧ expired before r = true) as Hi by (intros j Hj; apply (Hids j Hj)).
    destruct (prune_closed before ids _ k r Hi Hr) as [?|[_ ?]]; eauto.
Qed.
End Hands.

(** * Running the interleaved workers

    The steps of [Workers] as commands with an executable semantics, sound for the step
    relation; and two runs, evaluated: what happens with a larger claim batch, and with a
    lease that covers the send alone. *)

Inductive wcmd :=
| WTick (d : Z) | WStart (w : nat) | WCrash (w : nat)
| WRecover (w : nat) | WClaim (w : nat) | WNext (w : nat) (res : option send_err) (at_ : Z)
| WLose (w : nat) | WEnqueue (id : Z) (r : OutboxRow) | WRedrive (ids : list Z).

Definition in_timeb (tm : Timing) (t : Z) (ph : phase) : bool :=
  match ph with
  | Claiming n _ _ _ => t <=? n + tm_claim tm
  | Sending _ since _ => t <=? since + tm_send tm
  | Settling _ _ since _ | Writing _ _ _ since _ => t <=? since + tm_mark tm
  | _ => true
  end.

Definition unlocked (s : Pool) (id : Z) : bool := negb (bool_decide (id ∈ locked_ids s)).

Section Run.
Context (tm : Timing) (owner : nat → string).

(** The next statement of a worker that is at work; [res] is what the mail server answers
    and [at_] the backoff. *)
Definition next_statement (w : nat) (res : option send_err) (at_ : Z) (s : Pool) : option Pool :=
  let t := po_clock s in
  let mark id f rest := if unlocked s id
    then Some (set_phase w (after_row t rest) (set_rows (update_where (λ k _, k == id) f (po_rows s)) s)) else None in
  match po_phase s !! w with
  | Some (Recovering c n (kr :: todo) ws) =>
      Some (set_phase w (Recovering c n todo (ws ++ [(kr.1, recover_write tm c n kr)])) s)
  | Some (Recovering c n [] ws) => Some (set_phase w Draining (set_rows (apply_writes ws (po_rows s)) s))
  | Some (Claiming n (kr :: todo) ws got) =>
      Some (set_phase w (Claiming n todo (ws ++ [(kr.1, claim_write owner w n kr)])
        (got ++ [claimed_row (owner w) n (scanOutboxRow kr.1 kr.2)])) s)
  | Some (Claiming n [] ws got) =>
      Some (set_phase w (after_claim t got) (set_rows (apply_writes ws (po_rows s)) s))
  | Some (Sending row since rest) => Some (set_phase w (Settling row res t rest) s)
  | Some (Settling row None since rest) => mark (no_ID row) (sent_row t) rest
  | Some (Settling row (Some e) since rest) =>
      if se_permanent e then mark (no_ID row) (failed_row NotificationStatusFailed None (se_text e) t) rest
      else r ← po_rows s !! no_ID row;
           Some (set_phase w (Writing row (or_attempts r) (se_text e) since rest) s)
  | Some (Writing row attempts text since rest) =>
      mark (no_ID row) (if tm_maxAttempts tm <=? attempts then failed_row NotificationStatusFailed None text t
        else failed_row NotificationStatusPending (Some at_) text t) rest
  | _ => None
  end.

Definition wexec (c : wcmd) (s : Pool) : option Pool :=
  let t := po_clock s in
  match c with
  | WTick d => if (0 <? d) && forallb (λ wp : nat * phase, in_timeb tm (t + d) wp.2) (map_to_list (po_phase s))
               then Some (mkPool (t + d) (po_rows s) (po_phase s)) else None
  | WStart w => match po_phase s !! w with None => Some (set_phase w Idle s) | Some _ => None end
  | WCrash w => Some (mkPool t (po_rows s) (base.delete w (po_phase s)))
  | WRecover w => match po_phase s !! w with
      | Some Idle => Some (set_phase w (Recovering (t - tm_lease tm) t
          (filterb (λ kr : Z * OutboxRow, stale (t - tm_lease tm) kr.2) (unlocked_rows s)) []) s)
      | _ => None end
  | WClaim w => match po_phase s !! w with
      | Some Draining => Some (set_phase w (Claiming t
          (take (Z.to_nat (tm_batch tm)) (filterb (λ kr : Z * OutboxRow, due t kr.2) (unlocked_rows s))) [] []) s)
      | _ => None end
  | WNext w res at_ => next_statement w res at_ s
  | WLose w => match po_phase s !! w with
      | Some (Settling _ _ _ rest) | Some (Writing _ _ _ _ rest) => Some (set_phase w (after_row t rest) s)
      | _ => None end
  | WEnqueue id r => match po_rows s !! id with
      | None => if (or_status r == NotificationStatusPending) && (or_attempts r =? 0)
                   && (or_locked_by r == None) && (or_locked_at r == None)
                then Some (set_rows (<[id := r]> (po_rows s)) s) else None
      | Some _ => None end
  | WRedrive ids => if forallb (λ kr : Z * OutboxRow, negb (redrivable ids kr.1 kr.2) || unlocked s kr.1) (rows (po_rows s))
      then Some (set_rows (update_where (redrivable ids) (redriven_row t) (po_rows s)) s) else None
  end.

Fixpoint wrun (cs : list wcmd) (s : Pool) : option Pool :=
  match cs with [] => Some s | c :: cs => s' ← wexec c s; wrun cs s' end.

Lemma unlocked_spec s id : unlocked s id = true → ¬ locked s id.
Proof. unfold unlocked. intros H%negb_true_iff%bool_decide_eq_false Hl. by apply H, elem_of_locked_ids. Qed.

Lemma in_timeb_spec t ph : in_timeb tm t ph = true → in_time tm t ph.
Proof. destruct ph; cbn; intros; bool_facts; try done; lia. Qed.

Lemma next_statement_sound w res at_ s s' : next_statement w res at_ s = Some s' → wstep tm owner s s'.
Proof.
  unfold next_statement. destruct (po_phase s !! w) as [ph|] eqn:Hw; [|done].
  destruct ph as [|c n [|kr todo] ws| |n [|kr todo] ws got|row since rest|row [e|] since rest|row a txt since rest];
    intros H; try discriminate H.
  - injection H as <-. by eapply s_recover_commit.
  - injection H as <-. by eapply s_recover_write.
  - injection H as <-. by eapply s_claim_commit.
  - injection H as <-. by eapply s_claim_write.
  - injection H as <-. by eapply s_sent.
  - destruct (se_permanent e) eqn:He.
    + destruct (unlocked s (no_ID row)) eqn:Hu; [|done]. injection H as <-. eapply s_mark_terminal; eauto using unlocked_spec.
    + destruct (po_rows s !! no_ID row) as [r|] eqn:Hr; [|done]. injection H as <-. by eapply s_mark_read.
  - destruct (unlocked s (no_ID row)) eqn:Hu; [|done]. injection H as <-. eapply s_mark_sent; eauto using unlocked_spec.
  - destruct (unlocked s (no_ID row)) eqn:Hu; [|done]. injection H as <-. eapply s_mark_write; eauto using unlocked_spec.
Qed.

Lemma wexec_sound c s s' : wexec c s = Some s' → wstep tm owner s s'.
Proof.
  destruct c; cbn [wexec]; intros H.
  - destruct (_ && _)%bool eqn:Hc; [|done]. injection H as <-. bool_facts. apply s_tick; [done|].
    intros w ph Hw. apply in_timeb_spec. match goal with H : forallb _ _ = true |- _ => rewrite forallb_forall in H; apply (H (w, ph)) end.
    by apply list_elem_of_In, elem_of_map_to_list.
  - destruct (po_phase s !! w) eqn:Hw; [done|]. injection H as <-. by apply s_start.
  - injection H as <-. apply s_crash.
  - destruct (po_phase s !! w) as [[]|] eqn:Hw; try done. injection H as <-. apply s_recover; [done|lia].
  - destruct (po_phase s !! w) as [[]|] eqn:Hw; try done. injection H as <-. apply s_claim; [done|lia].
  - by eapply next_statement_sound.
  - destruct (po_phase s !! w) as [[]|] eqn:Hw; try done; injection H as <-; [by eapply s_mark_lost|by eapply s_write_lost].
  - destruct (po_rows s !! id) eqn:Hid; [done|]. destruct (_ && _)%bool eqn:Hc; [|done]. injection H as <-.
    bool_facts. by apply s_enqueue.
  - destruct (forallb _ _) eqn:Hc; [|done]. injection H as <-. rewrite forallb_forall in Hc. apply s_redrive.
    intros k r Hr Hp. apply unlocked_spec. specialize (Hc (k, r)). cbn in Hc. rewrite Hp in Hc. apply Hc.
    by apply list_elem_of_In, elem_of_rows.
Qed.

Lemma wrun_reachable cs s s' : wrun cs s = Some s' → pool_reachable tm owner s → pool_reachable tm owner s'.
Proof.
  revert s. induction cs as [|c cs IH]; intros s; cbn [wrun]; [by intros [= <-]|].
  destruct (wexec c s) as [s1|] eqn:Hc; [|done]. intros Hrun Hs. apply (IH s1 Hrun).
  apply (pool_next _ _ s); [done|]. by eapply wexec_sound.
Qed.
End Run.

(** ** Sample runs *)

Definition seconds (n : Z) : Z := n * 1000000000.
Definition sample_owner (w : nat) : string := nth w ["pod-1"; "pod-2"]%string "pod".

Definition waiting_row (key : string) : OutboxRow :=
  mkOutboxRow NotificationKindReviewed 1 "ops@example.org" ∅ "change" key NotificationStatusPending 0 None None None None 0 0.

(** A worker recovers what is stale, claims, and has the first row of its claim in hand. *)
Definition take_rows (w : nat) (recovered claimed : nat) : list wcmd :=
  let next := WNext w None 0 in
  [WStart w; WRecover w] ++ repeat next (S recovered) ++ [WClaim w] ++ repeat next (S claimed).

(** The rows two workers have in hand at the end of a run. *)
Definition both_hold (s : Pool) : list Z :=
  match po_phase s !! 0%nat, po_phase s !! 1%nat with
  | Some ph, Some ph' => filterb (λ k, bool_decide (k ∈ in_hand ph')) (in_hand ph)
  | _, _ => []
  end.

(** The times of the default configuration: a lease of a minute and half a minute for the
    mail ([DefaultLeaseTimeout], [DefaultSMTPTimeout]), the five seconds of
    [updateTimeout], and as long for a claim. *)
Definition default_timing : Timing := mkTiming (seconds 60) (seconds 5) (seconds 30) (seconds 5) 5 1.

Lemma default_timing_roomy : roomy default_timing.
Proof. unfold roomy, default_timing, seconds. cbn. lia. Qed.

(** Two rows per claim, with a lease that covers one: the second row outlives its lease
    while the first is sent, and another worker has it in hand. *)
Definition batch_timing : Timing := mkTiming (seconds 16) (seconds 1) (seconds 10) (seconds 5) 5 2.
Definition batch_run : list wcmd :=
  [WEnqueue 1 (waiting_row "a"); WEnqueue 2 (waiting_row "b")] ++ take_rows 0 0 2
  ++ [WTick (seconds 10); WNext 0 None 0; WTick (seconds 5); WNext 0 None 0; WTick (seconds 2)] ++ take_rows 1 1 1.

(** A lease just above the mail timeout: the write of the outcome outlives it. *)
Definition tight_timing : Timing := mkTiming (seconds 11) (seconds 1) (seconds 10) (seconds 5) 5 1.
Definition tight_run : list wcmd :=
  [WEnqueue 1 (waiting_row "a")] ++ take_rows 0 0 1
  ++ [WTick (seconds 10); WNext 0 None 0; WTick (seconds 2)] ++ take_rows 1 1 1.

Definition pool0 : Pool := mkPool 0 ∅ ∅.

Lemma batch_run_both : (both_hold <$> wrun batch_timing sample_owner batch_run pool0) = Some [2].
Proof. vm_compute. reflexivity. Qed.

Lemma tight_run_both : (both_hold <$> wrun tight_timing sample_owner tight_run pool0) = Some [1].
Proof. vm_compute. reflexivity. Qed.
