(* ===== verification/Checker.v ===== *)
(** * The status checker

    [internal/checker]: the periodic scan that moves maintenances and information
    events along their schedule and back-fills the history entries they skipped.  The
    two goroutines of [Check] work on disjoint events; they are run one after the
    other, in the order a flag chooses. *)

From S2P Require Import Prelude GoStrings GoTime Errors Event Models Store Queries Writes Integrity Outbox Notify Facade.
Local Open Scope Z_scope.

(** ** Maintenances *)

Record MntStatusHistory := mkMntHistory {
  mh_hasReviewed : bool; mh_hasPlanned : bool; mh_hasInProgress : bool;
  mh_hasCompleted : bool; mh_hasCancelled : bool }.

Definition mh_hasStatus (st : MntStatusHistory) (status : Status) : bool :=
  if status == MaintenanceReviewed then mh_hasReviewed st
  else if status == MaintenancePlanned then mh_hasPlanned st
  else if status == MaintenanceInProgress then mh_hasInProgress st
  else if status == MaintenanceCompleted then mh_hasCompleted st
  else if status == MaintenanceCancelled then mh_hasCancelled st
  else false.

Definition mh_setStatus (st : MntStatusHistory) (status : Status) : MntStatusHistory :=
  let '(mkMntHistory rv pl ip cp cn) := st in
  if status == MaintenanceReviewed then mkMntHistory true pl ip cp cn
  else if status == MaintenancePlanned then mkMntHistory rv true ip cp cn
  else if status == MaintenanceInProgress then mkMntHistory rv pl true cp cn
  else if status == MaintenanceCompleted then mkMntHistory rv pl ip true cn
  else if status == MaintenanceCancelled then mkMntHistory rv pl ip cp true
  else st.

(** The loop over the history: each flag is set by an entry of its status. *)
Definition calculateMntStatusHistory (mn : Incident) : MntStatusHistory :=
  foldl (λ h st,
    let '(mkMntHistory rv pl ip cp cn) := h in
    mkMntHistory
      (if st_Status st == MaintenanceReviewed then true else rv)
      (if st_Status st == MaintenancePlanned then true else pl)
      (if st_Status st == MaintenanceInProgress then true else ip)
      (if st_Status st == MaintenanceCompleted then true else cp)
      (if st_Status st == MaintenanceCancelled then true else cn))
    (mkMntHistory false false false false false) (inc_Statuses mn).

(** The clock is read only when the history and the status do not decide. *)
Definition calculateCurrentMntStatus (sHistory : MntStatusHistory) (mn : Incident) : M Status :=
  if mh_hasCancelled sHistory then mret MaintenanceCancelled
  else if inc_Status mn == MaintenanceReviewed then mret MaintenancePlanned
  else
    n ← now;
    start ← deref (inc_StartDate mn);
    if n <? start then mret MaintenancePlanned
    else if (start <? n) && match inc_EndDate mn with None => true | Some e => n <? e end
         then mret MaintenanceInProgress
         else mret MaintenanceCompleted.

(** The tail of [fixMntMissedStatuses]: append the entry and record it. *)
Definition add_mnt_status (status : Status) (text : string) (ts : Z)
    (x : MntStatusHistory * Incident) : MntStatusHistory * Incident :=
  (mh_setStatus x.1 status, add_Status x.2 (newStatus (inc_ID x.2) status text ts None)).

(** One case of the switch: the earlier statuses are done; add this one if missing. *)
Definition fix_mnt_case (status : Status) (text : string) (ts : option Z)
    (x : MntStatusHistory * Incident) : M (MntStatusHistory * Incident) :=
  if mh_hasStatus x.1 status then mret x
  else t ← deref ts; mret (add_mnt_status status text t x).

Definition fix_mnt_planned (x : MntStatusHistory * Incident) : M (MntStatusHistory * Incident) :=
  fix_mnt_case MaintenancePlanned MaintenancePlannedStatusText (inc_StartDate x.2) x.
Definition fix_mnt_in_progress (x : MntStatusHistory * Incident) : M (MntStatusHistory * Incident) :=
  x1 ← fix_mnt_planned x;
  fix_mnt_case MaintenanceInProgress MaintenanceInProgressStatusText (inc_StartDate x.2) x1.
Definition fix_mnt_completed (x : MntStatusHistory * Incident) : M (MntStatusHistory * Incident) :=
  x1 ← fix_mnt_in_progress x;
  fix_mnt_case MaintenanceCompleted MaintenanceCompletedStatusText (inc_EndDate x.2) x1.

(** The recursion completed -> in_progress -> planned, unrolled. *)
Definition fixMntMissedStatuses (status : Status) (x : MntStatusHistory * Incident) :
    M (MntStatusHistory * Incident) :=
  if status == MaintenancePlanned then fix_mnt_planned x
  else if status == MaintenanceInProgress then fix_mnt_in_progress x
  else if status == MaintenanceCompleted then fix_mnt_completed x
  else if status == MaintenanceCancelled then
    if mh_hasReviewed x.1 || mh_hasPlanned x.1 then fix_mnt_planned x else mret x
  else mret x.

(** Returns the status and the maintenance with its back-filled history. *)
Definition evaluateAndFixMntStatus (mn : Incident) : M (Status * Incident) :=
  let sHistory := calculateMntStatusHistory mn in
  actualStatus ← calculateCurrentMntStatus sHistory mn;
  x ← fixMntMissedStatuses actualStatus (sHistory, mn);
  mret (actualStatus, x.2).

Definition needsRefetch (mn : Incident) : M bool :=
  s ← calculateCurrentMntStatus (calculateMntStatusHistory mn) mn;
  mret (inc_Status mn != s).

Definition strDeref (s : option string) : string := default ""%string s.

Definition processMaintenance (notifier : option Publisher) (mn : Incident) : M unit :=
  needs ← needsRefetch mn;
  if negb needs then mret tt
  else
    fresh0 ← GetIncident (inc_ID mn);
    r ← evaluateAndFixMntStatus fresh0;
    let '(actualStatus, fresh1) := r in
    if inc_Status fresh1 == actualStatus then mret tt
    else
      let oldStatus := inc_Status fresh1 in
      let fresh := set_Status fresh1 actualStatus in
      _ ← WithTx (
        fresh' ← ModifyIncidentTx fresh;
        PublishTx notifier (mkChange (inc_ID fresh') (strDeref (inc_Text fresh')) oldStatus
          (inc_Status fresh') (strDeref (inc_ContactEmail fresh')) ActorChecker zero_time));
      Notify notifier.

(** The scan goes on after an event that fails. *)
Definition CheckMaintenance (notifier : option Publisher) : M unit :=
  maintenances ← GetMaintenances;
  foldM (λ _ mn,
    if inc_Status mn == MaintenancePendingReview then mret tt
    else quietly (processMaintenance notifier mn)) tt maintenances.

(** ** Information events *)

Record InfoStatusHistory := mkInfoHistory {
  ih_hasPlanned : bool; ih_hasActive : bool; ih_hasCompleted : bool; ih_hasCancelled : bool }.

Definition ih_hasStatus (st : InfoStatusHistory) (status : Status) : bool :=
  if status == InfoPlanned then ih_hasPlanned st
  else if status == InfoActive then ih_hasActive st
  else if status == InfoCompleted then ih_hasCompleted st
  else if status == InfoCancelled then ih_hasCancelled st
  else false.

Definition ih_setStatus (st : InfoStatusHistory) (status : Status) : InfoStatusHistory :=
  let '(mkInfoHistory pl ac cp cn) := st in
  if status == InfoPlanned then mkInfoHistory true ac cp cn
  else if status == InfoActive then mkInfoHistory pl true cp cn
  else if status == InfoCompleted then mkInfoHistory pl ac true cn
  else if status == InfoCancelled then mkInfoHistory pl ac cp true
  else st.

Definition calculateInfoStatusHistory (mn : Incident) : InfoStatusHistory :=
  foldl (λ h st,
    let '(mkInfoHistory pl ac cp cn) := h in
    mkInfoHistory
      (if st_Status st == InfoPlanned then true else pl)
      (if st_Status st == InfoActive then true else ac)
      (if st_Status st == InfoCompleted then true else cp)
      (if st_Status st == InfoCancelled then true else cn))
    (mkInfoHistory false false false false) (inc_Statuses mn).

Definition calculateCurrentInfoStatus (sHistory : InfoStatusHistory) (info : Incident) : M Status :=
  if ih_hasCancelled sHistory then mret InfoCancelled
  else
    n ← now;
    start ← deref (inc_StartDate info);
    if n <? start then mret InfoPlanned
    else if (start <? n) && match inc_EndDate info with None => true | Some e => n <? e end
         then mret InfoActive
         else mret InfoCompleted.

Definition add_info_status (status : Status) (text : string) (ts : Z)
    (x : InfoStatusHistory * Incident) : InfoStatusHistory * Incident :=
  (ih_setStatus x.1 status, add_Status x.2 (newStatus (inc_ID x.2) status text ts None)).

Definition fix_info_case (status : Status) (text : string) (ts : option Z)
    (x : InfoStatusHistory * Incident) : M (InfoStatusHistory * Incident) :=
  if ih_hasStatus x.1 status then mret x
  else t ← deref ts; mret (add_info_status status text t x).

Definition fix_info_planned (x : InfoStatusHistory * Incident) : M (InfoStatusHistory * Incident) :=
  fix_info_case InfoPlanned InfoPlannedStatusText (inc_StartDate x.2) x.
Definition fix_info_active (x : InfoStatusHistory * Incident) : M (InfoStatusHistory * Incident) :=
  x1 ← fix_info_planned x;
  fix_info_case InfoActive InfoActiveStatusText (inc_StartDate x.2) x1.
Definition fix_info_completed (x : InfoStatusHistory * Incident) : M (InfoStatusHistory * Incident) :=
  x1 ← fix_info_active x;
  fix_info_case InfoCompleted InfoCompletedStatusText (inc_EndDate x.2) x1.

Definition fixInfoMissedStatuses (status : Status) (x : InfoStatusHistory * Incident) :
    M (InfoStatusHistory * Incident) :=
  if status == InfoPlanned then fix_info_planned x
  else if status == InfoActive then fix_info_active x
  else if status == InfoCompleted then fix_info_completed x
  else if status == InfoCancelled then fix_info_planned x
  else mret x.

(** One event of the loop of [CheckInfoEvents]. *)
Definition processInfo (info : Incident) : M unit :=
  let sHistory := calculateInfoStatusHistory info in
  actualStatus ← calculateCurrentInfoStatus sHistory info;
  x ← fixInfoMissedStatuses actualStatus (sHistory, info);
  if inc_Status x.2 != actualStatus
  then _ ← ModifyIncident (set_Status x.2 actualStatus); mret tt
  else mret tt.

(** The scan stops at the first event that fails. *)
Definition CheckInfoEvents : M unit :=
  infos ← GetInfoEvents;
  foldM (λ _ info, processInfo info) tt infos.

Definition Check (notifier : option Publisher) (infoFirst : bool) : M unit :=
  cancelled ← ctx_done;
  if cancelled : bool then throw (EMsg "context canceled")
  else
    let a := if infoFirst then CheckInfoEvents else CheckMaintenance notifier in
    let b := if infoFirst then CheckMaintenance notifier else CheckInfoEvents in
    ra ← try a;
    rb ← try b;
    match ra, rb with
    | inr _, inr _ => mret tt
    | inl e, _ => throw e
    | _, inl e => throw e
    end.
