(* ===== verification/CheckerSpec.v ===== *)
(** * Facts about the checker

    Histories as sets of statuses, the back-fill as the missing prefix of a fixed
    chain, and which rows a scan may touch. *)

From S2P Require Import Prelude GoStrings GoTime Errors Event Models Store Queries Writes Integrity Outbox Notify NotifySpec Facade Checker.
Local Open Scope Z_scope.

(** The history has an entry of that status. *)
Definition has_status (s : Status) (l : list IncidentStatus) : bool :=
  existsb (λ st, st_Status st == s) l.

Lemma has_status_app s l k : has_status s (l ++ k) = has_status s l || has_status s k.
Proof. apply existsb_app_true. Qed.

(** ** Histories *)

Definition mnt_history_of (l : list IncidentStatus) : MntStatusHistory :=
  mkMntHistory (has_status MaintenanceReviewed l) (has_status MaintenancePlanned l)
    (has_status MaintenanceInProgress l) (has_status MaintenanceCompleted l)
    (has_status MaintenanceCancelled l).

Lemma if_true_orb (b c : bool) : (if b then true else c) = c || b.
Proof. by destruct b, c. Qed.

Lemma calculateMntStatusHistory_eq mn :
  calculateMntStatusHistory mn = mnt_history_of (inc_Statuses mn).
Proof.
  unfold calculateMntStatusHistory. induction (inc_Statuses mn) as [|st l IH] using rev_ind; [done|].
  rewrite foldl_app, IH. unfold mnt_history_of. cbn [foldl].
  rewrite !has_status_app, !if_true_orb. cbn [has_status existsb]. by rewrite !orb_false_r.
Qed.

Definition info_history_of (l : list IncidentStatus) : InfoStatusHistory :=
  mkInfoHistory (has_status InfoPlanned l) (has_status InfoActive l)
    (has_status InfoCompleted l) (has_status InfoCancelled l).

Lemma calculateInfoStatusHistory_eq mn :
  calculateInfoStatusHistory mn = info_history_of (inc_Statuses mn).
Proof.
  unfold calculateInfoStatusHistory. induction (inc_Statuses mn) as [|st l IH] using rev_ind; [done|].
  rewrite foldl_app, IH. unfold info_history_of. cbn [foldl].
  rewrite !has_status_app, !if_true_orb. cbn [has_status existsb]. by rewrite !orb_false_r.
Qed.

(** ** Back-filling *)

(** The statuses of [chain] that [l] lacks, as history entries of event [id]. *)
Fixpoint missing (id : Z) (chain : list (Status * string * Z)) (l : list IncidentStatus) :
    list IncidentStatus :=
  match chain with
  | [] => []
  | (s, text, ts) :: chain =>
    if has_status s l then missing id chain l
    else newStatus id s text ts None :: missing id chain l
  end.

Definition planned_entry (start : Z) := (MaintenancePlanned, MaintenancePlannedStatusText, start).
Definition in_progress_entry (start : Z) :=
  (MaintenanceInProgress, MaintenanceInProgressStatusText, start).
Definition completed_entry (end_ : Z) := (MaintenanceCompleted, MaintenanceCompletedStatusText, end_).

(** The statuses a maintenance passes on its way to [status]. *)
Definition mnt_chain (mn : Incident) (status : Status) : option (list (Status * string * Z)) :=
  let l := inc_Statuses mn in
  if status == MaintenancePlanned then start ← inc_StartDate mn; Some [planned_entry start]
  else if status == MaintenanceInProgress then
    start ← inc_StartDate mn; Some [planned_entry start; in_progress_entry start]
  else if status == MaintenanceCompleted then
    start ← inc_StartDate mn; end_ ← inc_EndDate mn;
    Some [planned_entry start; in_progress_entry start; completed_entry end_]
  else if status == MaintenanceCancelled then
    if has_status MaintenanceReviewed l || has_status MaintenancePlanned l
    then start ← inc_StartDate mn; Some [planned_entry start] else Some []
  else Some [].

(** A maintenance with entries added to its history, and the matching flags. *)
Definition with_added (mn : Incident) (added : list IncidentStatus) : MntStatusHistory * Incident :=
  (mnt_history_of (inc_Statuses mn ++ added), set_Statuses mn (inc_Statuses mn ++ added)).

Lemma has_status_new s id s' text ts : has_status s [newStatus id s' text ts None] = (s' == s).
Proof. cbn. apply orb_false_r. Qed.

(** The flags after setting the status of a new entry. *)
Lemma mnt_history_set l s id text t :
  s ∈ [MaintenancePlanned; MaintenanceInProgress; MaintenanceCompleted] →
  mh_hasStatus (mnt_history_of l) s = has_status s l
  ∧ mh_setStatus (mnt_history_of l) s = mnt_history_of (l ++ [newStatus id s text t None]).
Proof.
  intros Hs. unfold mnt_history_of at 3. rewrite !has_status_app, !has_status_new.
  repeat (apply elem_of_cons in Hs as [->|Hs]; [split; cbn; rewrite ?orb_true_r, ?orb_false_r; done|]).
  inversion Hs.
Qed.

Lemma fix_mnt_case_spec mn added s text ts t E w :
  s ∈ [MaintenancePlanned; MaintenanceInProgress; MaintenanceCompleted] →
  has_status s added = false → ts = Some t →
  fix_mnt_case s text ts (with_added mn added) E w
  = (Ret (with_added mn (added ++ missing (inc_ID mn) [(s, text, t)] (inc_Statuses mn))), w).
Proof.
  intros Hs Hadd ->. unfold fix_mnt_case. cbn [with_added fst snd].
  destruct (mnt_history_set (inc_Statuses mn ++ added) s (inc_ID mn) text t Hs) as [Hhas Hset].
  rewrite Hhas, has_status_app, Hadd, orb_false_r. cbn [missing].
  destruct (has_status s (inc_Statuses mn)); [by rewrite app_nil_r|].
  cbn [deref]. rewrite bind_run, ret_run. unfold add_mnt_status, with_added, add_Status.
  cbn [fst snd]. rewrite Hset. rewrite ret_run. cbn. by rewrite <- app_assoc.
Qed.

Lemma missing_app id c1 c2 l : missing id (c1 ++ c2) l = missing id c1 l ++ missing id c2 l.
Proof.
  induction c1 as [|[[s text] ts] c1 IH]; [done|]. cbn [app missing].
  destruct (has_status s l); [done|]. cbn. by rewrite IH.
Qed.

Lemma has_status_missing_ne id s c l :
  Forall (λ e : Status * string * Z, e.1.1 ≠ s) c → has_status s (missing id c l) = false.
Proof.
  induction 1 as [|[[s' text] ts] c Hne Hc IH]; [done|]. cbn [missing].
  destruct (has_status s' l); [done|]. change (has_status s (?x :: ?k)) with (has_status s ([x] ++ k)).
  rewrite has_status_app, has_status_new, IH. simpl in Hne. by rewrite bool_decide_false.
Qed.

Lemma with_added_nil mn : (calculateMntStatusHistory mn, mn) = with_added mn [].
Proof.
  unfold with_added. rewrite calculateMntStatusHistory_eq, app_nil_r. by destruct mn.
Qed.

Lemma fix_mnt_planned_spec mn start E w : inc_StartDate mn = Some start →
  fix_mnt_planned (with_added mn []) E w
  = (Ret (with_added mn (missing (inc_ID mn) [planned_entry start] (inc_Statuses mn))), w).
Proof. intros Hs. apply (fix_mnt_case_spec mn []); [set_solver|done|done]. Qed.

Lemma fix_mnt_in_progress_spec mn start E w : inc_StartDate mn = Some start →
  fix_mnt_in_progress (with_added mn []) E w
  = (Ret (with_added mn (missing (inc_ID mn) [planned_entry start; in_progress_entry start]
                           (inc_Statuses mn))), w).
Proof.
  intros Hs. unfold fix_mnt_in_progress. rewrite bind_run, (fix_mnt_planned_spec _ _ _ _ Hs).
  rewrite (fix_mnt_case_spec mn _ _ _ _ start); [|set_solver| |done].
  - by rewrite <- missing_app.
  - apply has_status_missing_ne. by repeat constructor.
Qed.

Lemma fix_mnt_completed_spec mn start end_ E w :
  inc_StartDate mn = Some start → inc_EndDate mn = Some end_ →
  fix_mnt_completed (with_added mn []) E w
  = (Ret (with_added mn (missing (inc_ID mn)
       [planned_entry start; in_progress_entry start; completed_entry end_] (inc_Statuses mn))), w).
Proof.
  intros Hs He. unfold fix_mnt_completed. rewrite bind_run, (fix_mnt_in_progress_spec _ _ _ _ Hs).
  rewrite (fix_mnt_case_spec mn _ _ _ _ end_); [|set_solver| |done].
  - by rewrite <- missing_app.
  - apply has_status_missing_ne. by repeat constructor.
Qed.

(** The recursion of [fixMntMissedStatuses] adds exactly the entries of the chain that
    the history lacks, in order. *)
Lemma fixMntMissedStatuses_spec mn status chain E w :
  mnt_chain mn status = Some chain →
  fixMntMissedStatuses status (calculateMntStatusHistory mn, mn) E w
  = (Ret (with_added mn (missing (inc_ID mn) chain (inc_Statuses mn))), w).
Proof.
  rewrite with_added_nil. unfold mnt_chain, fixMntMissedStatuses.
  destruct (status == MaintenancePlanned).
  { intros (start & Hs & [= <-])%bind_Some. by apply fix_mnt_planned_spec. }
  destruct (status == MaintenanceInProgress).
  { intros (start & Hs & [= <-])%bind_Some. by apply fix_mnt_in_progress_spec. }
  destruct (status == MaintenanceCompleted).
  { intros (start & Hs & (end_ & He & [= <-])%bind_Some)%bind_Some.
    by apply fix_mnt_completed_spec. }
  destruct (status == MaintenanceCancelled); [|by intros [= <-]].
  cbn [with_added fst snd mh_hasReviewed mh_hasPlanned mnt_history_of]. rewrite app_nil_r.
  destruct (_ || _)%bool; [|by intros [= <-]].
  intros (start & Hs & [= <-])%bind_Some. by apply fix_mnt_planned_spec.
Qed.

(** ** The status by the clock *)

(** The status a maintenance has at instant [n]. *)
Definition mnt_status_at (n start : Z) (mn : Incident) : Status :=
  if has_status MaintenanceCancelled (inc_Statuses mn) then MaintenanceCancelled
  else if inc_Status mn == MaintenanceReviewed then MaintenancePlanned
  else if n <? start then MaintenancePlanned
  else if (start <? n) && match inc_EndDate mn with None => true | Some e => n <? e end
       then MaintenanceInProgress
       else MaintenanceCompleted.

#[global] Instance ro_calculateCurrentMntStatus h mn : ReadOnly (calculateCurrentMntStatus h mn).
Proof. intros P. unfold calculateCurrentMntStatus. pres. Qed.

Lemma calculateCurrentMntStatus_run mn start E w : inc_StartDate mn = Some start →
  ∃ w', calculateCurrentMntStatus (calculateMntStatusHistory mn) mn E w
        = (Ret (mnt_status_at (now_at E (w_tick w)) start mn), w')
    ∧ w_tab w' = w_tab w ∧ w_seq w' = w_seq w ∧ w_stmt w' = w_stmt w
    ∧ (w_tick w' = w_tick w ∨ w_tick w' = S (w_tick w)).
Proof.
  intros Hs. unfold calculateCurrentMntStatus, mnt_status_at.
  rewrite calculateMntStatusHistory_eq. cbn [mnt_history_of mh_hasCancelled].
  destruct (has_status MaintenanceCancelled _); [exists w; by repeat split; auto|].
  destruct (inc_Status mn == MaintenanceReviewed); [exists w; by repeat split; auto|].
  exists (mkWorld (w_tab w) (w_seq w) (S (w_tick w)) (w_stmt w) (w_signal w)).
  rewrite Hs. rewrite bind_run. cbn [now reading deref]. rewrite bind_run, ret_run.
  cbv beta. destruct (_ <? _); [by repeat split; auto|].
  destruct (_ && _)%bool; by repeat split; auto.
Qed.

(** ** Which rows a scan touches *)

(** The row of event [k] is left alone. *)
Definition row_frame (k : Z) (w w' : World) : Prop :=
  t_incident (w_tab w') !! k = t_incident (w_tab w) !! k.

#[global] Instance row_frame_rel k : DbRel (row_frame k).
Proof.
  split; [split|..].
  - intros w. done.
  - intros w1 w2 w3 H12 H23. unfold row_frame in *. congruence.
  - intros w w' Ht _. unfold row_frame. by rewrite Ht.
  - intros w w' _. done.
Qed.

Section RowFrame.
Context (k : Z).
Notation R := (row_frame k).

#[global] Instance frame_ent_check b : Respects R (ent_check b).
Proof. unfold ent_check. resp. Qed.

Lemma frame_update_incidents p f : (∀ r, p k r = false) → Respects R (update_incidents p f).
Proof.
  intros Hp E w o w'. unfold update_incidents. rewrite bind_run. unfold stmt.
  destruct (fault_at _ _); intros [= <- <-]; [done|]. unfold row_frame. simpl.
  rewrite lookup_update_where. destruct (t_incident _ !! k); simpl; [|done]. by rewrite Hp.
Qed.

#[global] Instance frame_insertIncidentStatus s i : Respects R (insertIncidentStatus s i).
Proof.
  unfold insertIncidentStatus. do 3 (apply respects_bind; [apply _..|]; intros ?).
  intros E w o w' [= <- <-]. done.
Qed.
#[global] Instance frame_insertNewStatuses i l : Respects R (insertNewStatuses i l).
Proof. unfold insertNewStatuses. resp. Qed.

Lemma frame_modifyIncident inc : inc_ID inc ≠ k → Respects R (modifyIncident inc).
Proof.
  intros Hk. unfold modifyIncident. destruct (inc_Version inc) as [v|]; [|apply _].
  do 2 (apply respects_bind; [apply _..|]; intros ?).
  apply respects_bind; [apply _| |resp]. apply frame_update_incidents.
  intros r. by rewrite bool_decide_false.
Qed.

#[global] Instance frame_Enqueue row : Respects R (Enqueue true row).
Proof.
  unfold Enqueue, execWithTx, rowExists. destruct (no_DedupKey row == _); [apply _|].
  apply respects_bind; [apply _..|]. intros [|]; [apply _|].
  apply respects_bind; [apply _| |resp]. apply respects_try. unfold insert_outbox.
  do 3 (apply respects_bind; [apply _..|]; intros ?).
  intros E w o w' H. unfold next_outbox_id in H. eval_run H.
  match type of H with context [if ?b then _ else _] => destruct b end; by injection H as <- <-.
Qed.

#[global] Instance frame_PublishTx p ch : Respects R (PublishTx p ch).
Proof.
  unfold PublishTx, BuildRows, enqueue_all. resp.
Qed.

Lemma fix_mnt_case_ID s text ts x E w x' w' :
  fix_mnt_case s text ts x E w = (Ret x', w') → inc_ID x'.2 = inc_ID x.2.
Proof.
  unfold fix_mnt_case. destruct (mh_hasStatus _ _); [by intros [= <- <-]|]. intros H.
  apply bind_Ret_inv in H as (t & w1 & _ & H). by injection H as <- <-.
Qed.

Lemma fix_mnt_in_progress_ID x E w x' w' :
  fix_mnt_in_progress x E w = (Ret x', w') → inc_ID x'.2 = inc_ID x.2.
Proof.
  intros (x1 & w1 & H1 & H2)%bind_Ret_inv. apply fix_mnt_case_ID in H1, H2. congruence.
Qed.

Lemma fix_mnt_ID status x E w x' w' :
  fixMntMissedStatuses status x E w = (Ret x', w') → inc_ID x'.2 = inc_ID x.2.
Proof.
  unfold fixMntMissedStatuses. intros H. split_ifs_in H; try (by injection H as <- <-).
  - by apply fix_mnt_case_ID in H.
  - by apply fix_mnt_in_progress_ID in H.
  - apply bind_Ret_inv in H as (x1 & w1 & H1 & H2).
    apply fix_mnt_in_progress_ID in H1. apply fix_mnt_case_ID in H2. congruence.
  - by apply fix_mnt_case_ID in H.
Qed.

Lemma fix_info_case_ID s text ts x E w x' w' :
  fix_info_case s text ts x E w = (Ret x', w') → inc_ID x'.2 = inc_ID x.2.
Proof.
  unfold fix_info_case. destruct (ih_hasStatus _ _); [by intros [= <- <-]|]. intros H.
  apply bind_Ret_inv in H as (t & w1 & _ & H). by injection H as <- <-.
Qed.

Lemma fix_info_active_ID x E w x' w' :
  fix_info_active x E w = (Ret x', w') → inc_ID x'.2 = inc_ID x.2.
Proof.
  intros (x1 & w1 & H1 & H2)%bind_Ret_inv. apply fix_info_case_ID in H1, H2. congruence.
Qed.

Lemma fix_info_ID status x E w x' w' :
  fixInfoMissedStatuses status x E w = (Ret x', w') → inc_ID x'.2 = inc_ID x.2.
Proof.
  unfold fixInfoMissedStatuses. intros H. split_ifs_in H; try (by injection H as <- <-).
  - by apply fix_info_case_ID in H.
  - by apply fix_info_active_ID in H.
  - apply bind_Ret_inv in H as (x1 & w1 & H1 & H2).
    apply fix_info_active_ID in H1. apply fix_info_case_ID in H2. congruence.
  - by apply fix_info_case_ID in H.
Qed.
End RowFrame.

(** The scan's computations stay within any relation that ignores the clock. *)
Section Computations.
Context (R : World → World → Prop) `{!DbRel R}.

#[global] Instance respects_calculateMnt h mn : Respects R (calculateCurrentMntStatus h mn).
Proof. unfold calculateCurrentMntStatus. resp. Qed.
#[global] Instance respects_calculateInfo h mn : Respects R (calculateCurrentInfoStatus h mn).
Proof. unfold calculateCurrentInfoStatus. resp. Qed.
#[global] Instance respects_fixMnt s x : Respects R (fixMntMissedStatuses s x).
Proof.
  unfold fixMntMissedStatuses, fix_mnt_completed, fix_mnt_in_progress, fix_mnt_planned, fix_mnt_case.
  resp.
Qed.
#[global] Instance respects_fixInfo s x : Respects R (fixInfoMissedStatuses s x).
Proof.
  unfold fixInfoMissedStatuses, fix_info_completed, fix_info_active, fix_info_planned, fix_info_case.
  resp.
Qed.
#[global] Instance respects_needsRefetch mn : Respects R (needsRefetch mn).
Proof. unfold needsRefetch. resp. Qed.
#[global] Instance respects_evaluate mn : Respects R (evaluateAndFixMntStatus mn).
Proof. unfold evaluateAndFixMntStatus. resp. Qed.
#[global] Instance respects_statusesByIncident ids : Respects R (statusesByIncident ids).
Proof. unfold statusesByIncident. resp. Qed.
#[global] Instance respects_GetIncident id : Respects R (GetIncident id).
Proof. unfold GetIncident. resp. Qed.
#[global] Instance respects_getEventsByType t d : Respects R (getEventsByType t d).
Proof. unfold getEventsByType. resp. Qed.
#[global] Instance respects_Notify' p : Respects R (Notify p).
Proof. unfold Notify. resp. Qed.
End Computations.

(** Use what is known of the result of the first effect. *)
Lemma respects_bind_in R `{!PreOrder R} {A B} (Q : A → Prop) (m : M A) (f : A → M B) :
  Respects R m → (∀ E w a w', m E w = (Ret a, w') → Q a) →
  (∀ a, Q a → Respects R (f a)) → Respects R (m ≫= f).
Proof.
  intros Hm HQ Hf E w o w'. rewrite bind_run.
  destruct (m E w) as [[a|e|] w1] eqn:Em; [|intros [= <- <-]; by eapply Hm..].
  intros H. transitivity w1; [by eapply Hm|]. eapply Hf; [by eapply HQ|exact H].
Qed.

Lemma frame_processMaintenance k p mn : inc_ID mn ≠ k →
  Respects (row_frame k) (processMaintenance p mn).
Proof.
  intros Hk. unfold processMaintenance. apply respects_bind; [apply _..|]. intros needs.
  destruct needs; [|apply _]. cbn [negb].
  apply (respects_bind_in _ (λ x, inc_ID x = inc_ID mn)); [apply _| |].
  { intros E w x w' (r & _ & -> & _)%GetIncident_Ret. done. }
  intros fresh Hfresh.
  apply (respects_bind_in _ (λ x : Status * Incident, inc_ID x.2 = inc_ID mn)); [apply _| |].
  { intros E w x w' H. apply bind_Ret_inv in H as (s & w1 & _ & H).
    apply bind_Ret_inv in H as (y & w2 & H1 & H). injection H as <- <-.
    apply fix_mnt_ID in H1. simpl in *. congruence. }
  intros [s x] Hx. simpl in Hx. destruct (inc_Status x == s); [apply _|].
  apply respects_bind; [apply _| |apply _]. apply respects_WithTx; [apply _|].
  apply respects_bind; [apply _| |apply _]. apply frame_modifyIncident. simpl. congruence.
Qed.

Lemma frame_processInfo k info : inc_ID info ≠ k → Respects (row_frame k) (processInfo info).
Proof.
  intros Hk. unfold processInfo. apply respects_bind; [apply _..|]. intros s.
  apply (respects_bind_in _ (λ x : InfoStatusHistory * Incident, inc_ID x.2 = inc_ID info)); [apply _| |].
  { intros E w x w' H. by apply fix_info_ID in H. }
  intros x Hx. destruct (_ != _); [|apply _]. apply respects_bind; [apply _| |apply _].
  apply respects_WithTx; [apply _|]. apply frame_modifyIncident. simpl. congruence.
Qed.

(** ** The batch of a scan *)

(** An event as the scan loads it: without its components. *)
Definition scanned (t : Tables) (k : Z) (r : IncidentRow) : Incident :=
  set_Statuses (incidentFromEnt k r []) (statuses_of t k).

Lemma getEventsByType_Ret ty desc E w l w' :
  getEventsByType ty desc E w = (Ret l, w') →
  NoDup (inc_ID <$> l)
  ∧ ∀ inc, inc ∈ l ↔ ∃ k r, t_incident (w_tab w) !! k = Some r ∧ ir_type r = ty
                       ∧ inc = scanned (w_tab w) k r.
Proof.
  intros H. unfold getEventsByType in H. apply bind_Ret_inv in H as (incs & w1 & H1 & H).
  apply select_Ret in H1 as (-> & -> & _).
  apply bind_Ret_inv in H as (g & w2 & H1 & H). injection H as <- <-.
  set (rs := filterb _ _) in *. set (rs' := if desc then reverse rs else rs) in *.
  assert (rs' ≡ₚ rs) as Hperm by (unfold rs'; destruct desc; [apply reverse_Permutation|done]).
  assert (NoDup rs'.*1) as Hnd.
  { rewrite Hperm. unfold rs. pose proof (NoDup_rows_keys (t_incident (w_tab w))) as Hr.
    clear -Hr. induction (rows _) as [|kr l IH]; [constructor|].
    rewrite fmap_cons in Hr. apply NoDup_cons in Hr as [Hk Hl]. cbn.
    destruct (_ == _); [|by apply IH]. rewrite fmap_cons. constructor; [|by apply IH].
    rewrite list_elem_of_fmap. intros (kr' & Heq & [Hin _]%elem_of_filterb). apply Hk.
    rewrite Heq. apply list_elem_of_fmap. eauto. }
  rewrite (attachStatuses_spec _ _ _ _ _ _ H1).
  - split.
    + rewrite <- !list_fmap_compose. done.
    + intros inc. rewrite <- list_fmap_compose, list_elem_of_fmap. split.
      * intros ([k r] & -> & Hin). rewrite Hperm in Hin. apply elem_of_filterb in Hin as [Hin Hty].
        apply elem_of_rows in Hin. apply bool_decide_eq_true in Hty. exists k, r. done.
      * intros (k & r & Hr & Hty & ->). exists (k, r). split; [done|]. rewrite Hperm.
        apply elem_of_filterb. rewrite elem_of_rows. split; [done|]. by apply bool_decide_eq_true.
  - rewrite <- list_fmap_compose. done.
  - intros inc Hinc. apply list_elem_of_fmap. eauto.
Qed.

Lemma respects_foldM_in R `{!PreOrder R} {A B} (f : B → A → M B) l : ∀ b,
  (∀ b a, a ∈ l → Respects R (f b a)) → Respects R (foldM f b l).
Proof.
  induction l as [|a l IH]; intros b Hf; cbn; [apply _|].
  apply respects_bind; [done|apply Hf; left|]. intros b'. apply IH. intros b'' a' Ha. apply Hf. by right.
Qed.

(** The rows a scan may not touch: manual incidents and drafts. *)
Definition off_limits (r : IncidentRow) : Prop :=
  (ir_type r ≠ TypeMaintenance ∧ ir_type r ≠ TypeInformation)
  ∨ (ir_type r = TypeMaintenance ∧ ir_status r = Some MaintenancePendingReview).

Lemma CheckMaintenance_frame p k r E w o w' :
  t_incident (w_tab w) !! k = Some r → off_limits r ∨ ir_type r = TypeInformation →
  CheckMaintenance p E w = (o, w') → row_frame k w w'.
Proof.
  intros Hr Hoff H. unfold CheckMaintenance, GetMaintenances in H. rewrite bind_run in H.
  destruct (getEventsByType _ _ E w) as [o1 w1] eqn:Hget.
  pose proof (respects_getEventsByType (row_frame k) _ _ _ _ _ _ Hget) as H1.
  destruct o1 as [l|e|]; [|by injection H as <- <-..].
  transitivity w1; [done|]. apply getEventsByType_Ret in Hget as [_ Hl]. revert H.
  match goal with |- ?m E w1 = _ → _ => enough (Respects (row_frame k) m) as Hm; [apply Hm|] end.
  apply respects_foldM_in; [apply _|]. intros _ mn (k' & r' & Hr' & Hty & ->)%Hl.
  destruct (inc_Status _ == MaintenancePendingReview) eqn:Hst; [apply _|].
  unfold quietly. apply respects_bind; [apply _| |apply _]. apply respects_try.
  apply frame_processMaintenance. simpl. intros ->. simplify_eq.
  simpl in Hst. apply bool_decide_eq_false in Hst.
  destruct Hoff as [[[? _]|[_ Hp]]|Hi]; [done| |].
  - by rewrite Hp in Hst.
  - rewrite Hty in Hi. discriminate.
Qed.

Lemma CheckInfoEvents_frame k r E w o w' :
  t_incident (w_tab w) !! k = Some r → ir_type r ≠ TypeInformation →
  CheckInfoEvents E w = (o, w') → row_frame k w w'.
Proof.
  intros Hr Hoff H. unfold CheckInfoEvents, GetInfoEvents in H. rewrite bind_run in H.
  destruct (getEventsByType _ _ E w) as [o1 w1] eqn:Hget.
  pose proof (respects_getEventsByType (row_frame k) _ _ _ _ _ _ Hget) as H1.
  destruct o1 as [l|e|]; [|by injection H as <- <-..].
  transitivity w1; [done|]. apply getEventsByType_Ret in Hget as [_ Hl]. revert H.
  match goal with |- ?m E w1 = _ → _ => enough (Respects (row_frame k) m) as Hm; [apply Hm|] end.
  apply respects_foldM_in; [apply _|]. intros _ mn (k' & r' & Hr' & Hty & ->)%Hl.
  apply frame_processInfo. simpl. intros ->. by simplify_eq.
Qed.

Lemma Check_frame p b k r E w o w' :
  t_incident (w_tab w) !! k = Some r → off_limits r →
  Check p b E w = (o, w') → row_frame k w w'.
Proof.
  intros Hr Hoff H. unfold Check in H. rewrite bind_run in H. unfold ctx_done, reading in H.
  destruct (cancel_at _ _); [by injection H as <- <-|].
  set (w0 := mkWorld _ _ _ _ _) in H.
  assert (ir_type r ≠ TypeInformation) as Hni by (destruct Hoff as [[_ ?]|[-> _]]; [done|discriminate]).
  assert (∀ (c : bool) w1 o1 w2, t_incident (w_tab w1) !! k = Some r →
    (if c then CheckInfoEvents else CheckMaintenance p) E w1 = (o1, w2) → row_frame k w1 w2) as Hhalf.
  { intros [] w1 o1 w2 Hr1 H1; [by eapply CheckInfoEvents_frame|].
    eapply CheckMaintenance_frame; eauto. }
  rewrite bind_run in H. unfold try in H.
  destruct ((if b then CheckInfoEvents else CheckMaintenance p) E w0) as [o1 w1] eqn:H1.
  pose proof (Hhalf b w0 o1 w1 Hr H1) as F1.
  assert (t_incident (w_tab w1) !! k = Some r) as Hr1 by (by rewrite F1).
  destruct o1 as [[]|e|]; [| |injection H as <- <-; exact F1].
  all: rewrite bind_run in H;
    destruct ((if b then CheckMaintenance p else CheckInfoEvents) E w1) as [o2 w2] eqn:H2;
    assert (row_frame k w1 w2) as F2
      by (apply (Hhalf (negb b) _ o2 _ Hr1); by destruct b);
    assert (row_frame k w0 w2) as F by (etrans; [exact F1|exact F2]);
    destruct o2 as [[]|e2|]; injection H as <- <-; exact F.
Qed.
