(* ===== verification/Api.v ===== *)
(** * Requests, validation and views of the /v2 API

    The pure part of [internal/api/v2/v2.go] and [validation.go]: the request and
    response structs, the checks on them, and the mapping of stored events to what a
    caller sees.  JSON and query decoding is gin's: a handler receives the decoded
    struct, or [None] when decoding failed, and [bind_*] are the [binding] tags.
    [net/mail.ParseAddress] (an RFC 5322 parser) is a parameter. *)

From S2P Require Import Prelude GoStrings GoTime Errors Event Rbac Models Store Queries Outbox Notify.
Local Open Scope Z_scope.

Definition defaultIncidentLimit : Z := 50.
Definition defaultPageNumber : Z := 1.
Definition maxDescriptionLength : Z := 1500.
Definition maxComponentID : Z := 2048.

(** ** Structs *)

Record EventUpdateData := mkUpdateData {
  ud_ID : Z; ud_Status : Status; ud_Text : string; ud_Timestamp : Z }.
#[global] Instance EventUpdateData_eq_dec : EqDecision EventUpdateData.
Proof. solve_decision. Defined.

Record IncidentData := mkIncidentData {
  d_Title : string; d_Description : string; d_Impact : option Z; d_Components : list Z;
  d_StartDate : Z; d_EndDate : option Z; d_System : option bool; d_Type : string;
  d_Updates : list EventUpdateData; d_ContactEmail : string; d_CreatedBy : string;
  d_Version : option Z; d_Status : Status }.
#[global] Instance IncidentData_eq_dec : EqDecision IncidentData.
Proof. solve_decision. Defined.

(** An event of a response: its id and its data. *)
Record APIIncident := mkAPIIncident { ai_ID : Z; ai_Data : IncidentData }.

Record APIGetIncidentsQuery := mkQuery {
  q_Types : option string; q_IsActive : option bool; q_Status : option Status;
  q_StartDate : option Z; q_EndDate : option Z; q_Impact : option Z; q_System : option bool;
  q_Components : option string; q_Page : option Z; q_Limit : option Z }.

Record PatchIncidentData := mkPatch {
  pd_Title : option string; pd_Description : option string; pd_Impact : option Z;
  pd_Message : string; pd_Status : Status; pd_UpdateDate : Z; pd_StartDate : option Z;
  pd_EndDate : option Z; pd_Type : string; pd_Version : option Z }.

Record ProcessComponentResp := mkProcResp {
  pr_ComponentID : Z; pr_IncidentID : Z; pr_Error : string }.

(** What the middlewares stored in the request's context. *)
Record Ctx := mkCtx {
  c_userID : option string; c_roles : option (list string); c_email : option string;
  c_role : option Role; c_event : option Incident }.

(** ** Binding tags *)

Definition in_range (lo hi z : Z) : bool := (lo <=? z) && (z <=? hi).

Definition bind_IncidentData (d : IncidentData) : bool :=
  (d_Title d != ""%string)
  && match d_Impact d with Some i => in_range 0 3 i | None => false end
  && negb (IsZero (d_StartDate d)) && valid_type (d_Type d).

Definition bind_PatchIncidentData (d : PatchIncidentData) : bool :=
  (pd_Message d != ""%string) && (pd_Status d != ""%string) && negb (IsZero (pd_UpdateDate d))
  && ((pd_Type d == ""%string) || valid_type (pd_Type d)).

Definition bind_query (q : APIGetIncidentsQuery) : bool :=
  match q_Impact q with Some i => in_range 0 3 i | None => true end
  && match q_Page q with Some p => 1 <=? p | None => true end.

(** ** Query parameters *)

Definition bindIncidentsQuery (q : option APIGetIncidentsQuery) : api_err + APIGetIncidentsQuery :=
  match q with
  | None => inl ErrIncidentFQueryInvalidFormat
  | Some q =>
    if negb (bind_query q) then inl ErrIncidentFQueryInvalidFormat
    else match q_StartDate q, q_EndDate q with
         | Some s, Some e => if e <? s then inl ErrIncidentFQueryInvalidFormat else inr q
         | _, _ => inr q
         end
  end.

Definition IsValidIncidentFilterStatus (status : Status) : bool :=
  IsMaintenanceStatus status || IsInformationStatus status
  || IsIncidentOpenStatus status || IsIncidentClosedStatus status.

Definition validateAndSetStatus (queryStatus : option Status) : api_err + option Status :=
  match queryStatus with
  | None => inr None
  | Some s => if IsValidIncidentFilterStatus s then inr (Some s)
              else inl ErrIncidentFQueryInvalidFormat
  end.

Definition validateAndSetLimit (queryLimit : option Z) : api_err + option Z :=
  match queryLimit with
  | None => inr None
  | Some l => if bool_decide (l ∈ [10; 20; 50]) then inr (Some l)
              else inl ErrIncidentFQueryInvalidFormat
  end.

(** The loop over the comma-separated ids; an empty result means "not set". *)
Fixpoint parse_component_ids (l : list string) : option (list Z) :=
  match l with
  | [] => Some []
  | comp :: l =>
    match Atoi comp with
    | Some uid => if (uid <=? 0) || (maxComponentID <? uid) then None
                  else (uid ::.) <$> parse_component_ids l
    | None => None
    end
  end.

Definition parseAndSetComponents (queryComponents : option string) : api_err + list Z :=
  match queryComponents with
  | None => inr []
  | Some s => match parse_component_ids (Split s ",") with
              | Some l => inr l
              | None => inl ErrIncidentFQueryInvalidFormat
              end
  end.

Definition parseAndSetTypes (queryTypes : option string) : api_err + option (list string) :=
  match queryTypes with
  | None => inr None
  | Some s => if forallb valid_type (Split s ",") then inr (Some (Split s ","))
              else inl ErrIncidentFQueryInvalidFormat
  end.

Definition parseFilterParams (q : option APIGetIncidentsQuery) : api_err + IncidentsParams :=
  match bindIncidentsQuery q with
  | inl e => inl e
  | inr query =>
    if q_IsActive query == Some false then inl ErrIncidentFQueryInvalidFormat
    else match validateAndSetStatus (q_Status query) with
    | inl e => inl e
    | inr status =>
      match parseAndSetComponents (q_Components query) with
      | inl e => inl e
      | inr comps =>
        match parseAndSetTypes (q_Types query) with
        | inl e => inl e
        | inr types =>
          inr (mkParams types status (q_StartDate query) (q_EndDate query) (q_Impact query)
                 (q_System query) comps 0 (q_IsActive query) None None)
        end
      end
    end
  end.

Definition set_page (p : IncidentsParams) (page limit : Z) : IncidentsParams :=
  mkParams (p_Types p) (p_Status p) (p_StartDate p) (p_EndDate p) (p_Impact p) (p_IsSystem p)
    (p_ComponentIDs p) (p_LastCount p) (p_IsActive p) (Some limit) (Some page).

Definition parsePaginationParams (q : option APIGetIncidentsQuery) (params : IncidentsParams) :
    api_err + IncidentsParams :=
  match bindIncidentsQuery q with
  | inl e => inl e
  | inr query =>
    match validateAndSetLimit (q_Limit query) with
    | inl e => inl e
    | inr limit =>
      let page := match q_Page query with
                  | Some p => if 0 <? p then p else defaultPageNumber
                  | None => defaultPageNumber end in
      inr (set_page params page (default defaultIncidentLimit limit))
    end
  end.

(** ** Creation checks *)

Definition validateEventDescription (d : IncidentData) : option api_err :=
  if maxDescriptionLength <? RuneCountInString (d_Description d)
  then Some ErrIncidentDescriptionTooLong else None.

(** Panics on a nil impact, which the binding excludes. *)
Definition validateEventCreationImpact (type : string) (impact : Z) : option api_err :=
  if ((type == TypeMaintenance) || (type == TypeInformation)) && (impact != 0)
  then Some ErrIncidentTypeImpactMismatch
  else if (type == TypeIncident) && (impact == 0)
       then Some ErrIncidentTypeImpactMismatch else None.

(** The clock is read for an incident without an end date only. *)
Definition validateEventCreationTimes (d : IncidentData) : M (option api_err) :=
  if (d_Type d == TypeIncident) && bool_decide (is_Some (d_EndDate d))
  then mret (Some ErrIncidentEndDateShouldBeEmpty)
  else
    future ← (if d_Type d == TypeIncident then n ← now; mret (n <? d_StartDate d) else mret false);
    if future : bool then mret (Some ErrIncidentStartDateInFuture)
    else if (d_Type d == TypeMaintenance) && bool_decide (d_EndDate d = None)
         then mret (Some ErrMaintenanceEndDateEmpty)
         else mret None.

Definition validateEventCreation (d : IncidentData) : M (option api_err) :=
  match validateEventDescription d with
  | Some e => mret (Some e)
  | None =>
    impact ← deref (d_Impact d);
    match validateEventCreationImpact (d_Type d) impact with
    | Some e => mret (Some e)
    | None =>
      r ← validateEventCreationTimes d;
      match r with
      | Some e => mret (Some e)
      | None => mret (match d_Updates d with [] => None | _ => Some ErrIncidentUpdatesShouldBeEmpty end)
      end
    end
  end.

Section Mail.
(** [net/mail.ParseAddress]: whether a string is an RFC 5322 address. *)
Context (ParseAddress : string → bool).

Definition validateMaintenanceCreation (d : IncidentData) : option api_err :=
  if (d_ContactEmail d != ""%string) && negb (ParseAddress (d_ContactEmail d))
  then Some ErrMaintenanceContactEmailInvalid
  else if match d_EndDate d with Some e => e <=? d_StartDate d | None => false end
       then Some ErrMaintenanceEndDateBeforeStart
       else if d_Description d == ""%string then Some ErrMaintenanceDescriptionRequired
            else None.
End Mail.

Definition isSystemIncident (d : IncidentData) : bool :=
  (d_Type d == TypeIncident) && (d_System d == Some true).

Definition resolveMaintenanceCreateStatus (role : Role) : api_err + Status :=
  if Operator <=? role then inr MaintenancePlanned
  else if Creator <=? role then inr MaintenancePendingReview
  else inl ErrInsufficientRole.

(** ** Patch checks *)

Definition validateEffectiveTypeAndImpact (type : string) (impact : Z) : option api_err :=
  if ((type == TypeMaintenance) || (type == TypeInformation)) && (impact != 0)
  then Some ErrIncidentTypeImpactMismatch
  else if (type == TypeIncident) && (impact == 0)
       then Some ErrIncidentTypeImpactMismatch else None.

Definition validateStatusesPatch (incoming : PatchIncidentData) (stored : Incident) : option api_err :=
  if (inc_Type stored == TypeInformation) && negb (IsInformationStatus (pd_Status incoming))
  then Some ErrIncidentPatchInfoStatus
  else if (inc_Type stored == TypeMaintenance) && negb (IsMaintenanceStatus (pd_Status incoming))
  then Some ErrIncidentPatchMaintenanceStatus
  else if (inc_Type stored == TypeIncident) && negb (IsIncidentOpenStatus (pd_Status incoming))
          && negb (IsIncidentClosedStatus (pd_Status incoming))
  then Some ErrIncidentPatchIncidentStatus
  else None.

Definition checkPatchDataForIncident (incoming : PatchIncidentData) (stored : Incident)
    (storedImpact : Z) : option api_err :=
  match inc_EndDate stored with
  | Some _ =>
    if negb (IsIncidentClosedStatus (pd_Status incoming)) then Some ErrIncidentPatchClosedStatus
    else if (bool_decide (is_Some (pd_StartDate incoming)) || bool_decide (is_Some (pd_EndDate incoming)))
            && (pd_Status incoming != IncidentChanged)
    then Some ErrIncidentPatchClosedStatus
    else None
  | None =>
    if match pd_Impact incoming with Some i => i != storedImpact | None => false end
       && (pd_Status incoming != IncidentImpactChanged)
    then Some ErrIncidentPatchImpactStatusWrong
    else if bool_decide (is_Some (pd_StartDate incoming)) then Some ErrIncidentPatchOpenedStartDate
    else None
  end.

(** [storedImpact] is the stored impact behind its pointer. *)
Definition checkPatchData (incoming : PatchIncidentData) (stored : Incident) (storedImpact : Z) :
    option api_err :=
  if match pd_Description incoming with
     | Some s => maxDescriptionLength <? RuneCountInString s | None => false end
  then Some ErrIncidentDescriptionTooLong
  else if (pd_Type incoming != ""%string) && (pd_Type incoming != inc_Type stored)
  then Some ErrIncidentPatchTypeForbidden
  else
    let effectiveImpact := default storedImpact (pd_Impact incoming) in
    match validateEffectiveTypeAndImpact (inc_Type stored) effectiveImpact with
    | Some e => Some e
    | None =>
      match validateStatusesPatch incoming stored with
      | Some e => Some e
      | None => if inc_Type stored == TypeIncident
                then checkPatchDataForIncident incoming stored storedImpact else None
      end
    end.

Definition updateFields (income : PatchIncidentData) (stored : Incident) (storedImpact : Z) : Incident :=
  let s1 := if (storedImpact == 0) || bool_decide (is_Some (inc_EndDate stored))
            then let s := match pd_StartDate income with
                          | Some d => set_StartDate stored (Some d) | None => stored end in
                 match pd_EndDate income with Some d => set_EndDate s (Some d) | None => s end
            else stored in
  let s2 := match pd_Title income with Some t => set_Text s1 (Some t) | None => s1 end in
  let s3 := match pd_Description income with Some t => set_Description s2 (Some t) | None => s2 end in
  let s4 := match pd_Impact income with Some i => set_Impact s3 (Some i) | None => s3 end in
  let s5 := set_Status s4 (pd_Status income) in
  let s6 := if pd_Status income == IncidentReopened then set_EndDate s5 None else s5 in
  if pd_Status income == IncidentResolved then set_EndDate s6 (Some (pd_UpdateDate income)) else s6.

(** An access decision: granted, or the error with its HTTP status. *)
Definition allowMaintenancePatchAsCreator (c : Ctx) (stored : Incident) (incoming : PatchIncidentData) :
    option (Z * api_err) :=
  match c_userID c, inc_CreatedBy stored with
  | Some u, Some o =>
    if u != o then Some (403, ErrAuthForbidden)
    else if inc_Status stored != MaintenancePendingReview
    then Some (409, ErrMaintenanceStatusTransitionConflict)
    else if (pd_Status incoming == MaintenancePendingReview)
            || (pd_Status incoming == MaintenanceCancelled)
    then None
    else Some (409, ErrMaintenanceStatusTransitionConflict)
  | _, _ => Some (403, ErrAuthForbidden)
  end.

Definition allowMaintenancePatch (c : Ctx) (role : Role) (stored : Incident)
    (incoming : PatchIncidentData) : option (Z * api_err) :=
  if Operator <=? role then None
  else if Creator <=? role then allowMaintenancePatchAsCreator c stored incoming
  else Some (403, ErrAuthForbidden).

(** ** Views *)

Definition statusDescription : Status := "description".

Definition normalizeStatus (raw : Status) (endDate : option Z) (eventType : string) : Status :=
  if raw == "analyzing"%string then IncidentAnalysing
  else if raw == "in progress"%string then MaintenanceInProgress
  else if raw == "scheduled"%string then MaintenancePlanned
  else if raw == OutDatedSystem then
    match endDate with
    | None => raw
    | Some _ => if eventType == TypeIncident then IncidentResolved
                else if eventType == TypeInformation then InfoCompleted
                else MaintenanceCompleted
    end
  else raw.

Definition isInternalStatus (status : Status) : bool :=
  (status == MaintenancePendingReview) || (status == MaintenanceReviewed).

(** "changed" and "impact changed" annotate a change of an event. *)
Definition is_annotation (s : Status) : bool := (s == IncidentChanged) || (s == IncidentImpactChanged).

(** The state of the loop of [mapEventUpdates]: updates, next index, last description,
    last status. *)
Definition map_update (isAuth : bool) (endDate : option Z) (eventType : string)
    (acc : list EventUpdateData * Z * string * Status) (s : IncidentStatus) :
    list EventUpdateData * Z * string * Status :=
  let '(updates, idx, latestDescription, lastStatus) := acc in
  if negb isAuth && isInternalStatus (st_Status s) then acc
  else if st_Status s == statusDescription then (updates, idx, st_Text s, lastStatus)
  else
    let status0 := normalizeStatus (st_Status s) endDate eventType in
    let status := if is_annotation status0 then lastStatus else status0 in
    (updates ++ [mkUpdateData idx status (st_Text s) (st_Timestamp s)], idx + 1,
     latestDescription, status).

Definition mapEventUpdates (statuses : list IncidentStatus) (isAuth : bool) (eventStatus : Status)
    (endDate : option Z) (eventType : string) : list EventUpdateData * string :=
  let '(updates, _, latestDescription, _) :=
    foldl (map_update isAuth endDate eventType)
      ([], 0, ""%string, normalizeStatus eventStatus endDate eventType) statuses in
  (updates, latestDescription).

Definition eventStatus (inc : Incident) : Status :=
  let status := normalizeStatus (inc_Status inc) (inc_EndDate inc) (inc_Type inc) in
  if negb (is_annotation status) then status
  else foldl (λ prev s,
         if st_Status s == statusDescription then prev
         else let row := normalizeStatus (st_Status s) (inc_EndDate inc) (inc_Type inc) in
              if is_annotation row then prev else row) status (inc_Statuses inc).

Definition isCancelledWithoutPublicStatus (inc : Incident) : bool :=
  if (inc_Type inc != TypeMaintenance) || (inc_Status inc != MaintenanceCancelled) then false
  else negb (existsb (λ s, bool_decide (st_Status s ∈ publicStatuses)) (inc_Statuses inc)).

(** Panics without a title or a start date. *)
Definition toAPIEvent (inc : Incident) (isAuth : bool) : M APIIncident :=
  let '(updates, latestDescription) :=
    mapEventUpdates (inc_Statuses inc) isAuth (inc_Status inc) (inc_EndDate inc) (inc_Type inc) in
  let description := if latestDescription != ""%string then latestDescription
                     else default ""%string (inc_Description inc) in
  title ← deref (inc_Text inc);
  start ← deref (inc_StartDate inc);
  mret (mkAPIIncident (inc_ID inc)
    (mkIncidentData title description (inc_Impact inc) (comp_ID <$> inc_Components inc) start
       (inc_EndDate inc) (Some (inc_System inc)) (inc_Type inc) updates
       (if isAuth then default ""%string (inc_ContactEmail inc) else ""%string)
       (if isAuth then default ""%string (inc_CreatedBy inc) else ""%string)
       (if isAuth && (inc_Type inc == TypeMaintenance) then inc_Version inc else None)
       (eventStatus inc))).

(** ** Components *)

Record ComponentAttribute := mkAttribute { ca_Name : string; ca_Value : string }.
Record APIComponent := mkAPIComponent {
  ac_ID : Z; ac_Attributes : list ComponentAttribute; ac_Name : string }.

Definition toAPIComponent (comp : Component) : APIComponent :=
  mkAPIComponent (comp_ID comp) ((λ a, mkAttribute (attr_Name a) (attr_Value a)) <$> comp_Attrs comp)
    (comp_Name comp).

Definition availableAttrs : list string := ["type"; "region"; "category"]%string.

(** The loop over the attributes with the names seen so far. *)
Fixpoint check_attr_names (seen : list string) (attrs : list ComponentAttribute) : option (list string) :=
  match attrs with
  | [] => Some seen
  | a :: attrs =>
    if negb (bool_decide (ca_Name a ∈ availableAttrs)) then None
    else if bool_decide (ca_Name a ∈ seen) then None
    else check_attr_names (ca_Name a :: seen) attrs
  end.

Definition checkComponentAttrs (attrs : list ComponentAttribute) : option api_err :=
  if negb (bool_decide (length attrs = 3%nat)) then Some ErrComponentAttrInvalidFormat
  else match check_attr_names [] attrs with
       | None => Some ErrComponentAttrInvalidFormat
       | Some seen => if forallb (λ r, bool_decide (r ∈ seen)) availableAttrs then None
                      else Some ErrComponentAttrInvalidFormat
       end.

(** The requested components of an event, and one more that stays. *)
Fixpoint components_by_id (requested : list Z) (stored : list Component) : err + list Component :=
  match requested with
  | [] => inr []
  | id :: requested =>
    match last (filterb (λ c, comp_ID c == id) stored) with
    | None => inl (EMsg ("component " +:+ Itoa id +:+ " is not in the incident"))
    | Some sc =>
      match components_by_id requested stored with
      | inl e => inl e
      | inr l => inr (sc :: l)
      end
    end
  end.

Definition getComponentsToExtract (requested : list Z) (stored : list Component) : err + list Component :=
  match components_by_id requested stored with
  | inl e => inl e
  | inr moved =>
    if bool_decide (length moved = length stored)
    then inl (EMsg "can not move all components to the new incident, keep at least one")
    else inr moved
  end.
