(* ===== verification/Handlers.v ===== *)
(** * Handlers and middlewares of the /v2 API

    The effectful part of [internal/api/v2/v2.go] and [notifications.go], the
    middlewares of [internal/api/middleware.go] and the chains [routes.go] builds from
    them.  A handler answers with an HTTP status and a body; errors of the storage are
    mapped to responses as the code maps them, and the body of a 500 is always
    [ErrInternalError].  The token verifier is a parameter. *)

From S2P Require Import Prelude GoStrings GoTime Errors Event Rbac Json Auth Models Store Queries Writes Integrity Outbox Notify Facade Checker Api.
Local Open Scope Z_scope.

(** ** Responses *)

Inductive Body :=
| BError (e : err)
| BEvents (l : list APIIncident)
| BPage (l : list APIIncident) (pageIndex recordsPerPage totalRecords totalPages : Z)
| BEvent (i : APIIncident)
| BResult (l : list ProcessComponentResp)
| BUpdate (u : EventUpdateData)
| BComponents (l : list APIComponent)
| BComponent (c : APIComponent)
| BStats (s : NotificationStats)
| BNotifications (l : list NotificationOutbox) (status : string) (limit : Z)
| BRedriven (n : Z).

Record Response := mkResponse { r_status : Z; r_body : Body }.

Definition OK (b : Body) : M Response := mret (mkResponse 200 b).
Definition RaiseInternalErr : M Response := mret (mkResponse 500 (BError (EApi ErrInternalError))).
Definition RaiseBadRequestErr (e : err) : M Response := mret (mkResponse 400 (BError e)).
Definition RaiseNotAuthorizedErr (e : api_err) : M Response := mret (mkResponse 401 (BError (EApi e))).
Definition RaiseForbiddenErr (e : api_err) : M Response := mret (mkResponse 403 (BError (EApi e))).
Definition RaiseStatusNotFoundErr (e : api_err) : M Response := mret (mkResponse 404 (BError (EApi e))).
Definition RaiseConflictErr (e : api_err) : M Response := mret (mkResponse 409 (BError (EApi e))).

(** [x, err := m; if err != nil { return h(err) }]. *)
Definition on_err {A B} (m : M A) (h : err → M B) (k : A → M B) : M B :=
  r ← try m; match r with inl e => h e | inr a => k a end.

(** A request body that did not decode. *)
Definition bind_error : err := EMsg "invalid request body".

(** ** Creating events *)

Section Create.
Context (ParseAddress : string → bool).

Definition publishMaintenanceChange (pub : option Publisher) (inc : Incident)
    (oldStatus : Status) (userID : option string) : M unit :=
  if negb (Enabled pub) || (inc_Type inc != TypeMaintenance) then mret tt
  else PublishTx pub (mkChange (inc_ID inc) (strDeref (inc_Text inc)) oldStatus (inc_Status inc)
         (strDeref (inc_ContactEmail inc)) (strDeref userID) zero_time).

(** The first status of an event, by its type; an unknown type has none. *)
Definition initial_status (inc : Incident) : Status * string :=
  if inc_Type inc == TypeInformation then (InfoPlanned, InfoPlannedStatusText)
  else if inc_Type inc == TypeMaintenance then
    if inc_Status inc == MaintenancePendingReview
    then (MaintenancePendingReview, MaintenancePendingReviewStatusText)
    else (MaintenancePlanned, MaintenancePlannedStatusText)
  else if inc_Type inc == TypeIncident then (IncidentDetected, IncidentDetectedStatusText)
  else (""%string, ""%string).

Definition createEvent (inc : Incident) (userID : option string) (pub : option Publisher) : M Incident :=
  inc' ← WithTx (
    inc1 ← SaveIncidentTx inc;
    n ← now;
    start ← deref (inc_StartDate inc1);
    let timestamp := if start <? n then start else n in
    let '(status, statusText) := initial_status inc1 in
    let inc2 := set_Status (add_Status inc1
                  (newStatus (inc_ID inc1) status statusText timestamp userID)) status in
    inc3 ← ModifyIncidentTx inc2;
    _ ← publishMaintenanceChange pub inc3 ""%string userID;
    mret inc3);
  _ ← (if inc_Type inc' == TypeMaintenance then Notify pub else mret tt);
  mret inc'.

Definition fetchComponents (componentIDs : list Z) : M (list Component) :=
  mapM GetComponent componentIDs.

Definition getActiveEventsForComponent (componentID : Z) : M (list Incident) :=
  GetEventsByComponentID componentID
    (mkParams (Some [TypeIncident; TypeMaintenance]) None None None None None [] 0 (Some true) None None).

(** The parameters of the search for open system incidents. *)
Definition system_params : IncidentsParams :=
  mkParams (Some [TypeIncident]) None None None None (Some true) [] 0 (Some true) None None.

(** The first incident of the list with the target impact. *)
Definition with_impact (impact : Z) (l : list Incident) : option Incident :=
  head (filterb (λ i, inc_Impact i == Some impact) l).

Definition addComponentToSystemIncident (comp : Component) (d : IncidentData) (impact : Z) (system : bool) :
    M Incident :=
  sysIncidents ← GetEventsInternal system_params;
  match with_impact impact sysIncidents with
  | Some sysInc =>
    n ← now;
    AddComponentToIncident sysInc comp
      (newStatus (inc_ID sysInc) (inc_Status sysInc)
         (PrintAttrs comp +:+ " added to the incident by system.") n None)
  | None =>
    createEvent (mkIncident 0 (Some (d_Title d)) (Some (d_Description d)) (Some (d_StartDate d))
      (d_EndDate d) (d_Impact d) [] ""%string system (d_Type d) [comp]
      None None None None None None) None None
  end.

Definition moveComponentFromToSystemIncidents (comp : Component) (d : IncidentData) (impact : Z)
    (oldInc : Incident) : M Incident :=
  sysIncidents ← GetEventsInternal system_params;
  match with_impact impact sysIncidents with
  | Some sysInc =>
    let closeOld := bool_decide (length (inc_Components sysInc) = 1%nat) in
    r ← MoveComponentFromOldToAnotherIncident comp oldInc sysInc closeOld;
    mret r.1
  | None =>
    if bool_decide (length (inc_Components oldInc) = 1%nat)
    then IncreaseIncidentImpact oldInc impact
    else
      r ← ExtractComponentsToNewIncident [comp] oldInc impact (d_Title d) (Some (d_Description d));
      ModifyIncident (set_System r.1 true)
  end.

Definition handleSystemIncidentWithImpactComparison (comp : Component) (d : IncidentData)
    (impact : Z) (evnt : Incident) : M ProcessComponentResp :=
  old ← deref (inc_Impact evnt);
  if impact <=? old then mret (mkProcResp (comp_ID comp) (inc_ID evnt) "")
  else
    sysInc ← moveComponentFromToSystemIncidents comp d impact evnt;
    mret (mkProcResp (comp_ID comp) (inc_ID sysInc) "").

(** The scan of a component's events: a maintenance or a manual incident decides at
    once, otherwise the first system incident. *)
Fixpoint scan_events (comp : Component) (firstSystem : option Incident) (events : list Incident) :
    ProcessComponentResp + option Incident :=
  match events with
  | [] => inr firstSystem
  | evnt :: events =>
    if inc_Type evnt == TypeMaintenance
    then inl (mkProcResp (comp_ID comp) (inc_ID evnt)
                (api_err_text ErrIncidentCreationMaintenanceExists))
    else if negb (inc_System evnt) then inl (mkProcResp (comp_ID comp) (inc_ID evnt) "")
    else scan_events comp (match firstSystem with None => Some evnt | Some i => Some i end) events
  end.

Definition handleComponentWithExistingEvents (comp : Component) (d : IncidentData) (impact : Z)
    (events : list Incident) : M ProcessComponentResp :=
  match scan_events comp None events with
  | inl r => mret r
  | inr (Some evnt) => handleSystemIncidentWithImpactComparison comp d impact evnt
  | inr None => throw (EMsg ("no matching event condition for component " +:+ Itoa (comp_ID comp)))
  end.

Definition handleComponentWithNoEvents (comp : Component) (d : IncidentData) (impact : Z)
    (system : bool) : M ProcessComponentResp :=
  sysInc ← addComponentToSystemIncident comp d impact system;
  mret (mkProcResp (comp_ID comp) (inc_ID sysInc) "").

Definition processSystemIncidentComponent (comp : Component) (d : IncidentData) (impact : Z)
    (system : bool) : M ProcessComponentResp :=
  events ← getActiveEventsForComponent (comp_ID comp);
  match events with
  | [] => handleComponentWithNoEvents comp d impact system
  | _ => handleComponentWithExistingEvents comp d impact events
  end.

Definition set_d_Description (d : IncidentData) (s : string) : IncidentData :=
  mkIncidentData (d_Title d) s (d_Impact d) (d_Components d) (d_StartDate d) (d_EndDate d)
    (d_System d) (d_Type d) (d_Updates d) (d_ContactEmail d) (d_CreatedBy d) (d_Version d) (d_Status d).

Definition handleSystemIncidentCreation (d0 : IncidentData) (system : bool) :
    M (list ProcessComponentResp) :=
  if d_Type d0 != TypeIncident then throw (EApi ErrIncidentSystemCreationWrongType)
  else
    let d := if d_Description d0 == ""%string
             then set_d_Description d0
                    "System-wide incident affecting multiple components. Created automatically."
             else d0 in
    components ← fetchComponents (d_Components d);
    impact ← deref (d_Impact d);
    mapM (λ comp, processSystemIncidentComponent comp d impact system) components.

(** *** Regular creation *)

Definition shouldSkipComponentMovement (opened : list Incident) (d : IncidentData) (impact : Z) : bool :=
  bool_decide (opened = []) || (impact == 0) || (d_Type d == TypeInformation).

Definition createSimpleIncidentResult (incIn : Incident) : list ProcessComponentResp :=
  (λ comp, mkProcResp (comp_ID comp) (inc_ID incIn) "") <$> inc_Components incIn.

Definition shouldSkipIncident (inc : Incident) : bool :=
  (inc_Type inc == TypeInformation) || (inc_Type inc == TypeMaintenance).

(** The opened incidents are shared structs: a move leaves them changed for the next
    component. Returns the target, the incident as left, and whether it moved. *)
Definition tryMoveComponentIfFound (comp : Component) (inc incIn : Incident) :
    M (Incident * Incident * bool) :=
  if existsb (λ c, comp_ID c == comp_ID comp) (inc_Components inc) then
    let closeInc := bool_decide (length (inc_Components inc) = 1%nat) in
    r ← MoveComponentFromOldToAnotherIncident comp inc incIn closeInc;
    mret (r.1, r.2, true)
  else mret (incIn, inc, false).

(** The loop over the opened incidents: [incIn], the incidents as left, and the id of
    the incident the component ended up in (0 for none). *)
Fixpoint process_opened (comp : Component) (incIn : Incident) (opened : list Incident) :
    M (Incident * list Incident * Z) :=
  match opened with
  | [] => mret (incIn, [], 0)
  | inc :: opened =>
    if shouldSkipIncident inc then
      r ← process_opened comp incIn opened;
      let '(incIn', rest, id) := r in mret (incIn', inc :: rest, id)
    else
      r ← tryMoveComponentIfFound comp inc incIn;
      let '(incIn', inc', moved) := r in
      if moved : bool then mret (incIn', inc' :: opened, inc_ID incIn')
      else
        r ← process_opened comp incIn' opened;
        let '(incIn'', rest, id) := r in mret (incIn'', inc' :: rest, id)
  end.

Definition processComponentInOpenedIncidents (comp : Component) (incIn : Incident)
    (opened : list Incident) : M (Incident * list Incident * ProcessComponentResp) :=
  r ← process_opened comp incIn opened;
  let '(incIn', opened', id) := r in
  mret (incIn', opened', mkProcResp (comp_ID comp) (if id == 0 then inc_ID incIn' else id) "").

(** The range is over the components [incIn] had before the moves. *)
Definition processComponentMovement (incIn : Incident) (opened : list Incident) :
    M (list ProcessComponentResp) :=
  r ← foldM (λ (acc : Incident * list Incident * list ProcessComponentResp) comp,
        let '(incIn, opened, result) := acc in
        r ← processComponentInOpenedIncidents comp incIn opened;
        let '(incIn', opened', resp) := r in
        mret (incIn', opened', result ++ [resp])) (incIn, opened, []) (inc_Components incIn);
  mret r.2.

Definition handleRegularIncidentCreation (d : IncidentData) (system : bool)
    (userID : option string) (pub : option Publisher) : M (list ProcessComponentResp) :=
  let components := (λ id, mkComponent id ""%string [] None None None) <$> d_Components d in
  let contactEmail := if d_ContactEmail d == ""%string then None else Some (d_ContactEmail d) in
  let incIn := mkIncident 0 (Some (d_Title d)) (Some (d_Description d)) (Some (d_StartDate d))
    (d_EndDate d) (d_Impact d) [] (d_Status d) system (d_Type d) components
    None None None userID contactEmail None in
  opened ← GetEventsInternal (mkParams None None None None None None [] 0 (Some true) None None);
  incIn' ← createEvent incIn userID pub;
  impact ← deref (d_Impact d);
  if shouldSkipComponentMovement opened d impact
  then mret (createSimpleIncidentResult incIn')
  else processComponentMovement incIn' opened.

Definition routeIncidentCreation (c : Ctx) (d : IncidentData) (system : bool)
    (pub : option Publisher) : M (list ProcessComponentResp) :=
  if system then handleSystemIncidentCreation d system
  else handleRegularIncidentCreation d system (c_userID c) pub.

Definition set_d_Contact (d : IncidentData) (email : string) : IncidentData :=
  mkIncidentData (d_Title d) (d_Description d) (d_Impact d) (d_Components d) (d_StartDate d)
    (d_EndDate d) (d_System d) (d_Type d) (d_Updates d) email (d_CreatedBy d) (d_Version d) (d_Status d).
Definition set_d_Status (d : IncidentData) (s : Status) : IncidentData :=
  mkIncidentData (d_Title d) (d_Description d) (d_Impact d) (d_Components d) (d_StartDate d)
    (d_EndDate d) (d_System d) (d_Type d) (d_Updates d) (d_ContactEmail d) (d_CreatedBy d) (d_Version d) s.

Definition resolveContactEmail (c : Ctx) (d : IncidentData) (pub : option Publisher) :
    Response + IncidentData :=
  if d_ContactEmail d == ""%string
  then inr (match c_email c with Some e => set_d_Contact d e | None => d end)
  else if negb (AllowsDomain pub (d_ContactEmail d))
  then inl (mkResponse 400 (BError (EApi (NewErrMaintenanceContactEmailDomain (AllowedDomains pub)))))
  else inr d.

(** The refusal, or the data with its contact and status settled. *)
Definition prepareIncidentCreate (c : Ctx) (d : IncidentData) (pub : option Publisher) :
    M (Response + IncidentData) :=
  v ← validateEventCreation d;
  match v with
  | Some e => mret (inl (mkResponse 400 (BError (EApi e))))
  | None =>
    match c_role c with
    | None => mret (inl (mkResponse 403 (BError (EApi ErrAuthForbidden))))
    | Some role =>
      if IsReporter role && negb (isSystemIncident d)
      then mret (inl (mkResponse 403 (BError (EApi ErrInsufficientRole))))
      else if d_Type d == TypeMaintenance then
        match validateMaintenanceCreation ParseAddress d with
        | Some e => mret (inl (mkResponse 400 (BError (EApi e))))
        | None =>
          match resolveContactEmail c d pub with
          | inl r => mret (inl r)
          | inr d1 =>
            match resolveMaintenanceCreateStatus role with
            | inl e => mret (inl (mkResponse 403 (BError (EApi e))))
            | inr s => mret (inr (set_d_Status d1 s))
            end
          end
        end
      else mret (inr d)
    end
  end.

Definition PostIncidentHandler (pub : option Publisher) (c : Ctx) (body : option IncidentData) :
    M Response :=
  match body with
  | None => RaiseBadRequestErr bind_error
  | Some d0 =>
    if negb (bind_IncidentData d0) then RaiseBadRequestErr bind_error
    else
      p ← prepareIncidentCreate c d0 pub;
      match p with
      | inl r => mret r
      | inr d =>
        let system := default false (d_System d) in
        on_err (routeIncidentCreation c d system pub)
          (λ e, if decide (e = EApi ErrIncidentSystemCreationWrongType)
                then RaiseBadRequestErr e else RaiseInternalErr)
          (λ result,
            let conflict := existsb (λ r, pr_Error r ==
              api_err_text ErrIncidentCreationMaintenanceExists) result in
            mret (mkResponse (if conflict then 409 else 200) (BResult result)))
      end
  end.
End Create.

(** ** Changing events *)

(** [None] when the caller should stop with the response. *)
Definition persistIncidentPatch (pub : option Publisher) (stored : Incident) (oldStatus : Status)
    (userID : option string) : M (Response + unit) :=
  let statusChanged := inc_Status stored != oldStatus in
  on_err
    (WithTx (
      stored' ← ModifyIncidentTx stored;
      if negb statusChanged then mret tt
      else publishMaintenanceChange pub stored' oldStatus userID))
    (λ e, if decide (e = EDb ErrDBVersionConflict)
          then r ← RaiseConflictErr ErrVersionConflict; mret (inl r)
          else r ← RaiseInternalErr; mret (inl r))
    (λ _, _ ← (if statusChanged && (inc_Type stored == TypeMaintenance) then Notify pub else mret tt);
          mret (inr tt)).

Definition reopenIncident (stored : Incident) (status : Status) : M unit :=
  if status != IncidentReopened then mret tt else ReOpenIncident stored.

Definition prepareIncidentPatch (c : Ctx) (stored : Incident) (d : PatchIncidentData) (impact : Z) :
    option Response :=
  match checkPatchData d stored impact with
  | Some e => Some (mkResponse 400 (BError (EApi e)))
  | None =>
    if inc_Type stored == TypeMaintenance then
      match c_role c with
      | None => Some (mkResponse 403 (BError (EApi ErrAuthForbidden)))
      | Some role =>
        (λ se : Z * api_err, mkResponse se.1 (BError (EApi se.2)))
          <$> allowMaintenancePatch c role stored d
      end
    else None
  end.

(** The stored event with the patch applied, as it is handed to the storage. *)
Definition patched (c : Ctx) (stored : Incident) (d : PatchIncidentData) (impact : Z) : Incident :=
  let s1 := updateFields d stored impact in
  let s2 := set_Status (add_Status s1 (newStatus (inc_ID stored) (pd_Status d) (pd_Message d)
              (pd_UpdateDate d) (c_userID c))) (pd_Status d) in
  match pd_Version d with Some v => set_Version s2 (Some v) | None => s2 end.

Definition PatchIncidentHandler (pub : option Publisher) (c : Ctx) (body : option PatchIncidentData) :
    M Response :=
  match c_event c with
  | None => RaiseInternalErr
  | Some stored =>
    match body with
    | None => RaiseBadRequestErr bind_error
    | Some d =>
      if negb (bind_PatchIncidentData d) then RaiseBadRequestErr bind_error
      else if (inc_Type stored == TypeMaintenance) && bool_decide (pd_Version d = None)
      then RaiseBadRequestErr (EMsg "version is required for maintenance events")
      else
        impact ← deref (inc_Impact stored);
        match prepareIncidentPatch c stored d impact with
        | Some r => mret r
        | None =>
          let stored' := patched c stored d impact in
          p ← persistIncidentPatch pub stored' (inc_Status stored) (c_userID c);
          match p with
          | inl r => mret r
          | inr _ =>
            on_err (reopenIncident stored' (pd_Status d)) (λ _, RaiseInternalErr) (λ _,
              on_err (GetIncident (inc_ID stored)) (λ _, RaiseInternalErr) (λ inc,
                ev ← toAPIEvent inc true; OK (BEvent ev)))
          end
        end
    end
  end.

Definition PostIncidentExtractHandler (c : Ctx) (body : option (list Z)) : M Response :=
  match c_event c with
  | None => RaiseInternalErr
  | Some stored =>
    match c_role c with
    | None => RaiseForbiddenErr ErrAuthForbidden
    | Some role =>
      if negb (CanApprove role) then RaiseForbiddenErr ErrExtractForbiddenRole
      else if inc_Type stored != TypeIncident then RaiseForbiddenErr ErrExtractForbiddenType
      else
        match body with
        | None => RaiseBadRequestErr bind_error
        | Some ids =>
          if bool_decide (ids = []) || negb (bool_decide (NoDup ids)) then RaiseBadRequestErr bind_error
          else match getComponentsToExtract ids (inc_Components stored) with
          | inl e => RaiseBadRequestErr e
          | inr moved =>
            impact ← deref (inc_Impact stored);
            text ← deref (inc_Text stored);
            on_err (ExtractComponentsToNewIncident moved stored impact text (inc_Description stored))
              (λ _, RaiseInternalErr)
              (λ r, ev ← toAPIEvent r.1 true; OK (BEvent ev))
          end
        end
    end
  end.

(** [updID] and [text] as bound from the URI and the body. *)
Definition PatchEventUpdateTextHandler (c : Ctx) (incID : Z) (updID : Z) (text : option string) : M Response :=
  match text with
  | None => RaiseBadRequestErr bind_error
  | Some text =>
    if (text == ""%string) || (incID <=? 0) || (updID <? 0) then RaiseBadRequestErr bind_error
    else on_err (GetEventUpdates incID) (λ _, RaiseInternalErr) (λ updates,
      match updates !! Z.to_nat updID with
      | None => RaiseStatusNotFoundErr ErrUpdateDSNotExist
      | Some u =>
        let target := st_set_ModifiedBy (c_userID c) (st_set_Text text u) in
        on_err (ModifyEventUpdate target) (λ _, RaiseInternalErr) (λ updated,
          OK (BUpdate (mkUpdateData updID (st_Status updated) (st_Text updated) (st_Timestamp updated))))
      end)
  end.

(** ** Reading events *)

Definition hasExtendedView (c : Ctx) (svc : option Service) : bool :=
  match svc, c_roles c with
  | Some s, Some (r :: rs) => CanViewInternalFields (ResolveRole s (r :: rs))
  | _, _ => false
  end.

Definition GetIncidentsHandler (svc : option Service) (c : Ctx) (q : option APIGetIncidentsQuery) :
    M Response :=
  match parseFilterParams q with
  | inl e => RaiseBadRequestErr (EApi e)
  | inr params =>
    let isAuth := hasExtendedView c svc in
    on_err (GetEvents isAuth params) (λ _, RaiseInternalErr) (λ r,
      evs ← mapM (λ inc, toAPIEvent inc isAuth) r; OK (BEvents evs))
  end.

Definition GetEventsHandler (svc : option Service) (c : Ctx) (q : option APIGetIncidentsQuery) :
    M Response :=
  match parseFilterParams q with
  | inl e => RaiseBadRequestErr (EApi e)
  | inr params0 =>
    match parsePaginationParams q params0 with
    | inl e => RaiseBadRequestErr (EApi e)
    | inr params =>
      let isAuth := hasExtendedView c svc in
      on_err (GetEventsWithCount isAuth params) (λ _, RaiseInternalErr) (λ rt,
        let '(r, total) := rt in
        if total =? 0 then OK (BEvents [])
        else
          evs ← mapM (λ inc, toAPIEvent inc isAuth) r;
          let limit := default defaultIncidentLimit (p_Limit params) in
          let page := default 1 (p_Page params) in
          if limit =? 0 then OK (BPage evs 1 total total 1)
          else OK (BPage evs page limit total
                     (if 0 <? total then (total + limit - 1) / limit else 1)))
    end
  end.

(** [id] is the id bound from the URI: [None] when the binding [required,gte=0], which
    wants a positive number, fails. *)
Definition GetIncidentHandler (svc : option Service) (c : Ctx) (id : option Z) : M Response :=
  match id with
  | None => RaiseBadRequestErr bind_error
  | Some id =>
    on_err (GetIncident id)
      (λ e, if decide (e = EDb ErrDBIncidentDSNotExist)
            then RaiseStatusNotFoundErr ErrIncidentDSNotExist else RaiseInternalErr)
      (λ r,
        let isAuth := hasExtendedView c svc in
        if negb isAuth && (inc_Type r == TypeMaintenance)
           && ((inc_Status r == MaintenancePendingReview) || (inc_Status r == MaintenanceReviewed))
        then RaiseStatusNotFoundErr ErrIncidentDSNotExist
        else if negb isAuth && isCancelledWithoutPublicStatus r
        then RaiseStatusNotFoundErr ErrIncidentDSNotExist
        else ev ← toAPIEvent r isAuth; OK (BEvent ev))
  end.

(** ** Components *)

Definition GetComponentsHandler : M Response :=
  on_err GetComponentsWithValues (λ _, RaiseInternalErr) (λ r,
    OK (BComponents (toAPIComponent <$> r))).

Definition GetComponentHandler (id : option Z) : M Response :=
  match id with
  | None => RaiseBadRequestErr (EApi ErrComponentInvalidFormat)
  | Some id =>
    on_err (GetComponent id)
      (λ e, if decide (e = EDb ErrDBComponentDSNotExist)
            then RaiseStatusNotFoundErr ErrComponentDSNotExist else RaiseInternalErr)
      (λ r, OK (BComponent (toAPIComponent r)))
  end.

Definition PostComponentHandler (body : option (string * list ComponentAttribute)) : M Response :=
  match body with
  | None => RaiseBadRequestErr bind_error
  | Some (name, attributes) =>
    if name == ""%string then RaiseBadRequestErr bind_error
    else match checkComponentAttrs attributes with
    | Some e => RaiseBadRequestErr (EApi e)
    | None =>
      let attrs := (λ a, mkAttr 0 0 (ca_Name a) (ca_Value a)) <$> attributes in
      on_err (SaveComponent (mkComponent 0 name attrs None None None))
        (λ e, if decide (e = EDb ErrDBComponentExists)
              then RaiseBadRequestErr (EApi ErrComponentExist) else RaiseInternalErr)
        (λ comp, mret (mkResponse 201 (BComponent (mkAPIComponent (comp_ID comp) attributes name))))
    end
  end.

(** ** Notification operations *)

Definition statsStaleThreshold : Z := 2 * Minute.
Definition defaultFailedListLimit : Z := 100.
Definition maxFailedListLimit : Z := 1000.
Definition maxRedriveIDs : nat := 1000.

Definition requireAdmin (c : Ctx) (k : M Response) : M Response :=
  match c_role c with
  | None => RaiseForbiddenErr ErrAuthForbidden
  | Some role => if role != Admin then RaiseForbiddenErr ErrAuthForbidden else k
  end.

Definition GetNotificationStatsHandler (c : Ctx) : M Response :=
  requireAdmin c (on_err (GetNotificationStats statsStaleThreshold) (λ _, RaiseInternalErr)
    (λ s, OK (BStats s))).

Definition listableStatuses : list string :=
  [NotificationStatusPending; NotificationStatusProcessing; NotificationStatusSent;
   NotificationStatusFailed].
Definition isListableStatus (status : string) : bool := bool_decide (status ∈ listableStatuses).

Definition parseListLimit (raw : string) : api_err + Z :=
  if raw == ""%string then inr defaultFailedListLimit
  else match Atoi raw with
       | Some limit => if (limit <? 1) || (maxFailedListLimit <? limit)
                       then inl (NewErrNotificationLimitInvalid maxFailedListLimit) else inr limit
       | None => inl (NewErrNotificationLimitInvalid maxFailedListLimit)
       end.

Definition GetFailedNotificationsHandler (c : Ctx) (status : option string) (rawLimit : string) : M Response :=
  requireAdmin c (
    let status := default NotificationStatusFailed status in
    if negb (isListableStatus status)
    then RaiseBadRequestErr (EApi (NewErrNotificationStatusInvalid listableStatuses))
    else match parseListLimit rawLimit with
    | inl e => RaiseBadRequestErr (EApi e)
    | inr limit =>
      on_err (ListNotificationsByStatus status limit) (λ _, RaiseInternalErr)
        (λ rows, OK (BNotifications rows status limit))
    end).

(** The body is optional: [Some []] for none, [None] when it does not decode. *)
Definition RedriveNotificationsHandler (pub : option Publisher) (c : Ctx) (ids : option (list Z)) : M Response :=
  requireAdmin c (
    match ids with
    | None => RaiseBadRequestErr bind_error
    | Some ids =>
      if bool_decide (maxRedriveIDs < length ids)%nat
      then RaiseBadRequestErr (EApi (NewErrNotificationRedriveLimitInvalid (Z.of_nat maxRedriveIDs)))
      else on_err (RedriveFailed ids) (λ _, RaiseInternalErr) (λ count,
        _ ← (if 0 <? count then Notify pub else mret tt);
        OK (BRedriven count))
    end).

(** ** Middlewares *)

Section Middlewares.
(** [auth.Provider.Verify] on a raw token. *)
Context (Verify : string → option Claims).

Definition empty_ctx : Ctx := mkCtx None None None None None.

(** [getUserIDFromContext] ignores an empty subject. *)
Definition authenticate (c : Ctx) (rawToken : string) : option Ctx :=
  match Verify rawToken with
  | None => None
  | Some cl =>
    Some (mkCtx (if cl_Subject cl == ""%string then None else Some (cl_Subject cl))
            (Some (cl_Roles cl))
            (if cl_Email cl == ""%string then c_email c else Some (cl_Email cl))
            (c_role c) (c_event c))
  end.

Definition AuthenticationMW (header : string) (k : Ctx → M Response) (c : Ctx) : M Response :=
  if header == ""%string then RaiseNotAuthorizedErr ErrAuthNotAuthenticated
  else match authenticate c (TrimPrefix header "Bearer ") with
       | None => RaiseNotAuthorizedErr ErrAuthTokenInvalid
       | Some c' => k c'
       end.

Definition SetJWTClaims (header : string) (k : Ctx → M Response) (c : Ctx) : M Response :=
  if header == ""%string then k c
  else match authenticate c (TrimPrefix header "Bearer ") with
       | None => RaiseNotAuthorizedErr ErrAuthTokenInvalid
       | Some c' => k c'
       end.

Definition RBACAuthorizationMW (svc : Service) (k : Ctx → M Response) (c : Ctx) : M Response :=
  match c_roles c with
  | None => RaiseNotAuthorizedErr ErrAuthNotAuthenticated
  | Some roles =>
    if negb (HasAuthorizedRole svc roles) then RaiseForbiddenErr ErrAuthForbidden
    else k (mkCtx (c_userID c) (c_roles c) (c_email c) (Some (ResolveRole svc roles)) (c_event c))
  end.

Definition resolveCallerRole (svc : Service) (c : Ctx) : Role :=
  match c_roles c with None => NoRole | Some roles => ResolveRole svc roles end.

Definition DenyReporterScopeMW (svc : Service) (k : Ctx → M Response) (c : Ctx) : M Response :=
  if negb (IsReporter (resolveCallerRole svc c)) then k c
  else RaiseForbiddenErr ErrInsufficientRole.

Definition CheckEventExistenceMW (id : option Z) (k : Ctx → M Response) (c : Ctx) : M Response :=
  match id with
  | None => RaiseBadRequestErr bind_error
  | Some id =>
    on_err (GetIncident id)
      (λ e, if decide (e = EDb ErrDBIncidentDSNotExist)
            then RaiseStatusNotFoundErr ErrIncidentDSNotExist else RaiseInternalErr)
      (λ ev, k (mkCtx (c_userID c) (c_roles c) (c_email c) (c_role c) (Some ev)))
  end.

Definition ValidateComponentsMW (components : option (list Z)) (k : Ctx → M Response) (c : Ctx) :
    M Response :=
  match components with
  | None | Some [] => RaiseBadRequestErr (EApi ErrComponentInvalidFormat)
  | Some ids =>
    on_err GetComponentsAsMap (λ _, RaiseInternalErr) (λ dbComps,
      match head (filterb (λ id, bool_decide (dbComps !! id = None)) ids) with
      | Some bad => RaiseBadRequestErr (EApi (NewErrComponentDSNotExist bad))
      | None => k c
      end)
  end.

(** ** Routes *)

(** One definition per chain of [initV2Routes]; [events] and the deprecated
    [incidents] paths share theirs, except for creation.  A body arrives decoded;
    [None] stands for one that no binding of the chain decodes, answered 400 by the
    first of them, without the detail the decoder adds to the message. *)

Context (ParseAddress : string → bool) (svc : Service) (pub : option Publisher).

Definition post_event (header : string) (body : option IncidentData) : M Response :=
  AuthenticationMW header (RBACAuthorizationMW svc
    (ValidateComponentsMW (d_Components <$> body)
      (λ c, PostIncidentHandler ParseAddress pub c body))) empty_ctx.

Definition post_incident (header : string) (body : option IncidentData) : M Response :=
  AuthenticationMW header (RBACAuthorizationMW svc (DenyReporterScopeMW svc
    (ValidateComponentsMW (d_Components <$> body)
      (λ c, PostIncidentHandler ParseAddress pub c body)))) empty_ctx.

Definition patch_event (header : string) (id : option Z) (body : option PatchIncidentData) : M Response :=
  AuthenticationMW header (RBACAuthorizationMW svc (DenyReporterScopeMW svc
    (CheckEventExistenceMW id (λ c, PatchIncidentHandler pub c body)))) empty_ctx.

Definition extract_event (header : string) (id : option Z) (body : option (list Z)) : M Response :=
  AuthenticationMW header (RBACAuthorizationMW svc (DenyReporterScopeMW svc
    (CheckEventExistenceMW id (ValidateComponentsMW body
      (λ c, PostIncidentExtractHandler c body))))) empty_ctx.

Definition patch_update (header : string) (id : option Z) (updID : Z) (text : option string) : M Response :=
  AuthenticationMW header (RBACAuthorizationMW svc (DenyReporterScopeMW svc
    (CheckEventExistenceMW id (λ c, PatchEventUpdateTextHandler c (default 0 id) updID text)))) empty_ctx.

Definition post_component (header : string) (body : option (string * list ComponentAttribute)) : M Response :=
  AuthenticationMW header (DenyReporterScopeMW svc (λ _, PostComponentHandler body)) empty_ctx.

Definition get_event (header : string) (id : option Z) : M Response :=
  SetJWTClaims header (λ c, GetIncidentHandler (Some svc) c id) empty_ctx.

Definition get_events (header : string) (q : option APIGetIncidentsQuery) : M Response :=
  SetJWTClaims header (λ c, GetEventsHandler (Some svc) c q) empty_ctx.

Definition get_incidents (header : string) (q : option APIGetIncidentsQuery) : M Response :=
  SetJWTClaims header (λ c, GetIncidentsHandler (Some svc) c q) empty_ctx.

Definition get_stats (header : string) : M Response :=
  AuthenticationMW header (RBACAuthorizationMW svc GetNotificationStatsHandler) empty_ctx.

Definition get_failed (header : string) (status : option string) (rawLimit : string) : M Response :=
  AuthenticationMW header (RBACAuthorizationMW svc
    (λ c, GetFailedNotificationsHandler c status rawLimit)) empty_ctx.

Definition redrive (header : string) (ids : option (list Z)) : M Response :=
  AuthenticationMW header (RBACAuthorizationMW svc
    (λ c, RedriveNotificationsHandler pub c ids)) empty_ctx.
End Middlewares.
