(* ===== verification/ApiSpec.v ===== *)
(** * The API and the checker within the facade

    Every route and every scan stays within any relation that the storage facade
    promises: the invariants of the store carry over to the whole system. *)

From S2P Require Import Prelude GoStrings GoTime Errors Event Rbac Json Auth Models Store Queries Writes Integrity Outbox Notify Facade Checker CheckerSpec Api Handlers.
Local Open Scope Z_scope.

Section Client.
Context (R : World → World → Prop) `{!Facade R}.

#[global] Instance client_on_err {A B} (m : M A) (h : err → M B) (k : A → M B) :
  Respects R m → (∀ e, Respects R (h e)) → (∀ a, Respects R (k a)) → Respects R (on_err m h k).
Proof. intros Hm Hh Hk. unfold on_err. resp. Qed.

(** *** Reads *)
#[global] Instance client_GetEventsWithCount a p : Respects R (GetEventsWithCount a p).
Proof. unfold GetEventsWithCount, applyEventsFilters. resp. Qed.
#[global] Instance client_GetEvents a p : Respects R (GetEvents a p).
Proof. unfold GetEvents. resp. Qed.
#[global] Instance client_GetEventsByComponentID c p : Respects R (GetEventsByComponentID c p).
Proof. unfold GetEventsByComponentID. resp. Qed.
#[global] Instance client_GetComponent c : Respects R (GetComponent c).
Proof. unfold GetComponent. resp. Qed.
#[global] Instance client_toAPIEvent i a : Respects R (toAPIEvent i a).
Proof. unfold toAPIEvent. resp. Qed.

(** *** Creation *)
#[global] Instance client_publish pub inc s u : Respects R (publishMaintenanceChange pub inc s u).
Proof. unfold publishMaintenanceChange. resp. Qed.
#[global] Instance client_createEvent inc u pub : Respects R (createEvent inc u pub).
Proof. unfold createEvent, ModifyIncidentTx. resp. Qed.
#[global] Instance client_addComponent c d i s : Respects R (addComponentToSystemIncident c d i s).
Proof. unfold addComponentToSystemIncident, GetEventsInternal. resp. Qed.
#[global] Instance client_ModifyIncident inc : Respects R (ModifyIncident inc).
Proof. unfold ModifyIncident, execWithTx. resp. Qed.
#[global] Instance client_moveSystem c d i o : Respects R (moveComponentFromToSystemIncidents c d i o).
Proof. unfold moveComponentFromToSystemIncidents, GetEventsInternal. resp. Qed.
#[global] Instance client_systemComponent c d i s : Respects R (processSystemIncidentComponent c d i s).
Proof.
  unfold processSystemIncidentComponent, handleComponentWithNoEvents, getActiveEventsForComponent,
    handleComponentWithExistingEvents, handleSystemIncidentWithImpactComparison.
  resp.
Qed.
#[global] Instance client_systemCreation d s : Respects R (handleSystemIncidentCreation d s).
Proof. unfold handleSystemIncidentCreation, fetchComponents. resp. Qed.
#[global] Instance client_tryMove c i n : Respects R (tryMoveComponentIfFound c i n).
Proof. unfold tryMoveComponentIfFound. resp. Qed.
#[global] Instance client_process_opened c l : ∀ n, Respects R (process_opened c n l).
Proof. induction l as [|i l IH]; intros n; cbn; resp. Qed.
#[global] Instance client_movement n l : Respects R (processComponentMovement n l).
Proof. unfold processComponentMovement, processComponentInOpenedIncidents. resp. Qed.
#[global] Instance client_regular d s u pub : Respects R (handleRegularIncidentCreation d s u pub).
Proof. unfold handleRegularIncidentCreation, GetEventsInternal. resp. Qed.
#[global] Instance client_prepareCreate pa c d pub : Respects R (prepareIncidentCreate pa c d pub).
Proof. unfold prepareIncidentCreate, validateEventCreation, validateEventCreationTimes. resp. Qed.
#[global] Instance client_PostIncident pa pub c b : Respects R (PostIncidentHandler pa pub c b).
Proof.
  unfold PostIncidentHandler, routeIncidentCreation, RaiseBadRequestErr, RaiseInternalErr. resp.
Qed.

(** *** Changes *)
#[global] Instance client_persist pub i s u : Respects R (persistIncidentPatch pub i s u).
Proof.
  unfold persistIncidentPatch, ModifyIncidentTx, RaiseConflictErr, RaiseInternalErr.
  apply client_on_err; resp.
Qed.
#[global] Instance client_PatchIncident pub c b : Respects R (PatchIncidentHandler pub c b).
Proof.
  unfold PatchIncidentHandler, reopenIncident, RaiseBadRequestErr, RaiseInternalErr, OK. resp.
Qed.
#[global] Instance client_Extract c b : Respects R (PostIncidentExtractHandler c b).
Proof.
  unfold PostIncidentExtractHandler, RaiseBadRequestErr, RaiseForbiddenErr, RaiseInternalErr, OK. resp.
Qed.
#[global] Instance client_PatchUpdate c i u t : Respects R (PatchEventUpdateTextHandler c i u t).
Proof.
  unfold PatchEventUpdateTextHandler, GetEventUpdates, ModifyEventUpdate, RaiseBadRequestErr,
    RaiseStatusNotFoundErr, RaiseInternalErr, OK. resp.
Qed.
#[global] Instance client_PostComponent b : Respects R (PostComponentHandler b).
Proof.
  unfold PostComponentHandler, RaiseBadRequestErr, RaiseInternalErr. resp.
Qed.

(** *** Scans *)
#[global] Instance client_processMaintenance p mn : Respects R (processMaintenance p mn).
Proof. unfold processMaintenance, ModifyIncidentTx. resp. Qed.
#[global] Instance client_CheckMaintenance p : Respects R (CheckMaintenance p).
Proof. unfold CheckMaintenance, GetMaintenances, quietly. resp. Qed.
#[global] Instance client_CheckInfoEvents : Respects R CheckInfoEvents.
Proof. unfold CheckInfoEvents, GetInfoEvents, processInfo. resp. Qed.
#[global] Instance client_Check p b : Respects R (Check p b).
Proof. unfold Check, ctx_done. destruct b; resp; destruct a, a0; resp. Qed.

(** *** Routes *)
Section Routes.
Context (Verify : string → option Claims) (pa : string → bool) (svc : Service)
  (pub : option Publisher).

Lemma client_Authentication h (k : Ctx → M Response) c :
  (∀ c, Respects R (k c)) → Respects R (AuthenticationMW Verify h k c).
Proof. intros Hk. unfold AuthenticationMW, RaiseNotAuthorizedErr. resp. Qed.
Lemma client_RBAC (k : Ctx → M Response) c :
  (∀ c, Respects R (k c)) → Respects R (RBACAuthorizationMW svc k c).
Proof. intros Hk. unfold RBACAuthorizationMW, RaiseNotAuthorizedErr, RaiseForbiddenErr. resp. Qed.
Lemma client_Deny (k : Ctx → M Response) c :
  (∀ c, Respects R (k c)) → Respects R (DenyReporterScopeMW svc k c).
Proof. intros Hk. unfold DenyReporterScopeMW, RaiseForbiddenErr. resp. Qed.
Lemma client_Existence i (k : Ctx → M Response) c :
  (∀ c, Respects R (k c)) → Respects R (CheckEventExistenceMW i k c).
Proof.
  intros Hk. unfold CheckEventExistenceMW, RaiseBadRequestErr, RaiseStatusNotFoundErr, RaiseInternalErr.
  resp.
Qed.
Lemma client_ValidateComponents l (k : Ctx → M Response) c :
  (∀ c, Respects R (k c)) → Respects R (ValidateComponentsMW l k c).
Proof.
  intros Hk. unfold ValidateComponentsMW, GetComponentsAsMap, RaiseBadRequestErr, RaiseInternalErr.
  resp.
Qed.

#[global] Instance client_post_event h b : Respects R (post_event Verify pa svc pub h b).
Proof.
  apply client_Authentication. intros c. apply client_RBAC. intros c1.
  apply client_ValidateComponents. apply _.
Qed.
#[global] Instance client_post_incident h b : Respects R (post_incident Verify pa svc pub h b).
Proof.
  apply client_Authentication. intros c. apply client_RBAC. intros c1. apply client_Deny.
  intros c2. apply client_ValidateComponents. apply _.
Qed.
#[global] Instance client_patch_event h i b : Respects R (patch_event Verify svc pub h i b).
Proof.
  apply client_Authentication. intros c. apply client_RBAC. intros c1. apply client_Deny.
  intros c2. apply client_Existence. apply _.
Qed.
#[global] Instance client_extract_event h i b : Respects R (extract_event Verify svc h i b).
Proof.
  apply client_Authentication. intros c. apply client_RBAC. intros c1. apply client_Deny.
  intros c2. apply client_Existence. intros c3. apply client_ValidateComponents. apply _.
Qed.
#[global] Instance client_patch_update h i u t : Respects R (patch_update Verify svc h i u t).
Proof.
  apply client_Authentication. intros c. apply client_RBAC. intros c1. apply client_Deny.
  intros c2. apply client_Existence. apply _.
Qed.
#[global] Instance client_post_component h b : Respects R (post_component Verify svc h b).
Proof. apply client_Authentication. intros c. apply client_Deny. apply _. Qed.
End Routes.
End Client.

