(* ===== verification/System.v ===== *)
(** * The whole system

    The writing entry points of the service as one step relation: the API routes, the
    checker's scan, the delivery worker's drain and its retention.  Each step runs in
    an environment of its own, so faults, clocks and mail outcomes are arbitrary.  The
    theorems are the invariants of every reachable state and what a run never loses. *)

From S2P Require Import Prelude GoStrings GoTime Errors Event Rbac Json Auth Models Store Queries Writes Integrity Outbox OutboxSpec Notify NotifySpec Facade WorkerSpec Checker CheckerSpec Api Handlers ApiSpec.
Local Open Scope Z_scope.

(** What a deployment wires together. *)
Record Deployment := mkDeployment {
  dp_Verify : string → option Claims;
  dp_ParseAddress : string → bool;
  dp_rbac : Service;
  dp_notifier : option Publisher;
  dp_worker : Worker }.

Inductive Op :=
| OpPostEvent (header : string) (body : option IncidentData)
| OpPostIncident (header : string) (body : option IncidentData)
| OpPatchEvent (header : string) (id : option Z) (body : option PatchIncidentData)
| OpExtract (header : string) (id : option Z) (body : option (list Z))
| OpPatchUpdate (header : string) (id : option Z) (updID : Z) (text : option string)
| OpPostComponent (header : string) (body : option (string * list ComponentAttribute))
| OpRedrive (header : string) (ids : option (list Z))
| OpCheck (infoFirst : bool)
| OpDrain
| OpRetention.

(** The body of the scan task of [newScheduler] (cmd/main.go). *)
Definition scan_task (p : option Publisher) (infoFirst : bool) : M unit :=
  _ ← Check p infoFirst; Notify p.

Definition forget {A} (m : M A) : M unit := _ ← m; mret tt.

Definition run_op (d : Deployment) (op : Op) : M unit :=
  let v := dp_Verify d in let s := dp_rbac d in let p := dp_notifier d in
  match op with
  | OpPostEvent h b => forget (post_event v (dp_ParseAddress d) s p h b)
  | OpPostIncident h b => forget (post_incident v (dp_ParseAddress d) s p h b)
  | OpPatchEvent h i b => forget (patch_event v s p h i b)
  | OpExtract h i b => forget (extract_event v s h i b)
  | OpPatchUpdate h i u t => forget (patch_update v s h i u t)
  | OpPostComponent h b => forget (post_component v s h b)
  | OpRedrive h ids => forget (redrive v s p h ids)
  | OpCheck b => scan_task p b
  | OpDrain => drainQuietly (dp_worker d)
  | OpRetention => RunRetention
  end.

(** One step: some operation in some environment, however it ends. *)
Inductive step (d : Deployment) (w : World) : World → Prop :=
| step_run E op o w' : run_op d op E w = (o, w') → step d w w'.

Inductive steps (d : Deployment) : World → World → Prop :=
| steps_refl w : steps d w w
| steps_cons w1 w2 w3 : step d w1 w2 → steps d w2 w3 → steps d w1 w3.

(** The empty database. *)
Definition empty_tables : Tables := mkTables ∅ ∅ ∅ ∅ ∅ ∅.
Definition init : World := mkWorld empty_tables (mkSeqs 1 1 1 1 1) 0 0 false.

Definition reachable (d : Deployment) (w : World) : Prop := steps d init w.

(** ** Every operation stays within the relations *)

#[global] Instance respects_forget R {A} (m : M A) : PreOrder R → Respects R m → Respects R (forget m).
Proof. intros HR Hm. unfold forget. apply _. Qed.

#[global] Instance respects_redrive v s p h ids : Respects db_step (redrive v s p h ids).
Proof.
  unfold redrive. apply client_Authentication; [apply _|]. intros c. apply client_RBAC; [apply _|].
  intros c1. unfold RedriveNotificationsHandler, requireAdmin, RaiseForbiddenErr,
    RaiseBadRequestErr, RaiseInternalErr, OK. resp.
Qed.

#[global] Instance queue_redrive maxAttempts v s p h ids : 0 < maxAttempts →
  Respects (queue_step maxAttempts) (redrive v s p h ids).
Proof.
  intros Hm. unfold redrive. pose proof (facade_queue_step maxAttempts Hm) as HF.
  apply client_Authentication; [apply _|]. intros c. apply client_RBAC; [apply _|].
  intros c1. unfold RedriveNotificationsHandler, requireAdmin, RaiseForbiddenErr,
    RaiseBadRequestErr, RaiseInternalErr, OK.
  pose proof (queue_RedriveFailed maxAttempts (default [] ids) Hm). destruct ids; resp.
Qed.

Lemma pruned_queue_ok maxAttempts before m m' :
  pruned before m m' → queue_ok maxAttempts m → queue_ok maxAttempts m'.
Proof.
  intros Hp Hq k r Hr. destruct (Hp k) as [Heq|(r' & _ & _ & Hn)]; [|congruence].
  apply (Hq k). congruence.
Qed.

#[global] Instance queue_RunRetention maxAttempts : Respects (queue_step maxAttempts) RunRetention.
Proof.
  unfold RunRetention, DeleteSentBefore. apply respects_bind; [apply _..|]. intros n.
  apply respects_bind; [apply _| |apply _]. apply respects_bind; [apply _..|]. intros t.
  intros E w o w' H Hq. eapply pruned_queue_ok; [|exact Hq].
  exact (prune_delete_loop _ _ _ _ _ _ _ _ H).
Qed.

Lemma run_op_db d op : Respects db_step (run_op d op).
Proof. destruct op; cbn; unfold scan_task, drainQuietly, quietly; apply _. Qed.

Lemma run_op_queue d op : 0 < wk_maxAttempts (dp_worker d) →
  Respects (queue_step (wk_maxAttempts (dp_worker d))) (run_op d op).
Proof.
  intros Hm. pose proof (facade_queue_step _ Hm) as HF.
  pose proof (λ v s p h ids, queue_redrive _ v s p h ids Hm) as HR.
  destruct op; cbn; unfold scan_task, drainQuietly, quietly; apply _.
Qed.

Lemma wf_init : wf init.
Proof.
  constructor; simpl; intros; try (by inversion H); try lia.
  all: try (intros k [x Hx]; by inversion Hx).
  all: try (rewrite lookup_empty in H; discriminate).
  all: try set_solver.
Qed.

Lemma steps_db_step d w w' : steps d w w' → db_step w w'.
Proof.
  induction 1 as [w|w1 w2 w3 [E op o w2' H] _ IH]; [reflexivity|].
  etrans; [exact (run_op_db d op E _ _ _ H)|done].
Qed.

Lemma steps_queue_step d w w' : 0 < wk_maxAttempts (dp_worker d) → steps d w w' →
  queue_step (wk_maxAttempts (dp_worker d)) w w'.
Proof.
  intros Hm. induction 1 as [w|w1 w2 w3 [E op o w2' H] _ IH]; [reflexivity|].
  etrans; [exact (run_op_queue d op Hm E _ _ _ H)|done].
Qed.
