(* ===== verification/Scheduler.v ===== *)
(** * Scheduler, advisory locks and the replicas of the service

    [internal/scheduler/scheduler.go], [internal/db/lock.go], the task list of
    [newScheduler] and the loop of [Worker.Run].  Several replicas run the same tasks on
    one database; a round of a task holds a session-level advisory lock.  The lock table
    is PostgreSQL's: a lock belongs to a session and counts how often that session took
    it.  A step is one statement or one task body, so the bodies of different replicas
    interleave with requests, ticks, releases and crashes in any order.  Every replica
    has its own wake-up channel; the tables are shared. *)

From S2P Require Import Prelude GoStrings GoTime Errors Event Rbac Models Store Queries Writes Integrity Outbox OutboxSpec Notify NotifySpec Facade WorkerSpec Checker CheckerSpec Api Handlers ApiSpec System.
Local Open Scope Z_scope.

Definition KeyScan : Z := 9001.
Definition KeyNotifySweep : Z := 9002.
Definition KeyRetention : Z := 9003.
Definition scanInterval : Z := 2 * Minute.
Definition sweepInterval : Z := 5 * Minute.
Definition retentionInterval : Z := 24 * Hour.

(** [tk_Fn] is the operation of a round; a scan runs its two checks in either order. *)
Record Task := mkTask { tk_Name : string; tk_Interval : Z; tk_Key : Z; tk_Fn : bool → Op }.

(** [Register] appends. *)
Definition Register (name : string) (interval key : Z) (fn : bool → Op) (tasks : list Task) : list Task :=
  tasks ++ [mkTask name interval key fn].

(** The tasks [newScheduler] registers; the worker's only when there is a worker. *)
Definition newScheduler (hasWorker : bool) : list Task :=
  let scan := Register "scan" scanInterval KeyScan OpCheck [] in
  if hasWorker then
    Register "retention" retentionInterval KeyRetention (λ _, OpRetention)
      (Register "notify_sweep" sweepInterval KeyNotifySweep (λ _, OpDrain) scan)
  else scan.

(** ** The lock table *)

(** A key is held by a session, a number of times. *)
Notation LockTable := (gmap Z (Z * nat)).

(** [pg_try_advisory_lock]: free or the session's own. *)
Definition pg_try_advisory_lock (key sess : Z) (t : LockTable) : option LockTable :=
  match t !! key with
  | None => Some (<[key := (sess, 1%nat)]> t)
  | Some (s, n) => if s == sess then Some (<[key := (sess, S n)]> t) else None
  end.

(** [pg_advisory_unlock]: one level less; a session that does not hold the lock changes
    nothing. *)
Definition pg_advisory_unlock (key sess : Z) (t : LockTable) : LockTable :=
  match t !! key with
  | Some (s, n) =>
    if s == sess then match n with
                      | S (S n) => <[key := (sess, S n)]> t
                      | _ => base.delete key t
                      end
    else t
  | None => t
  end.

(** The end of a session releases its locks. *)
Definition session_end (sess : Z) (t : LockTable) : LockTable := filter (λ kv, kv.2.1 ≠ sess) t.

(** ** The cluster *)

(** A round in progress: the session it locked with, and whether its body has run. *)
Record Round := mkRound { rd_sess : Z; rd_done : bool }.

(** The notification worker's goroutine of a replica. *)
Inductive wphase := WStarting | WWaiting | WDraining | WStopped.
#[global] Instance wphase_eq_dec : EqDecision wphase.
Proof. solve_decision. Defined.

Record Replica := mkReplica { rp_signal : bool; rp_worker : wphase }.

Record Cluster := mkCluster {
  cl_world : World;                      (* the shared tables; its channel is not used *)
  cl_locks : LockTable;
  cl_rounds : gmap (nat * nat) Round;    (* by replica and task *)
  cl_replicas : gmap nat Replica }.

Definition set_signal (b : bool) (w : World) : World :=
  mkWorld (w_tab w) (w_seq w) (w_tick w) (w_stmt w) b.

(** Run an operation on a replica: it sees the replica's own channel. *)
Definition on_replica (d : Deployment) (op : Op) (E : Env) (r : nat) (rep : Replica) (c : Cluster) : Cluster :=
  let w' := (run_op d op E (set_signal (rp_signal rep) (cl_world c))).2 in
  mkCluster w' (cl_locks c) (cl_rounds c)
    (<[r := mkReplica (w_signal w') (rp_worker rep)]> (cl_replicas c)).

Definition session_used (c : Cluster) (sess : Z) : Prop :=
  ∃ rt rd, cl_rounds c !! rt = Some rd ∧ rd_sess rd = sess.

Definition set_worker (r : nat) (signal : bool) (ph : wphase) (c : Cluster) : Cluster :=
  mkCluster (cl_world c) (cl_locks c) (cl_rounds c) (<[r := mkReplica signal ph]> (cl_replicas c)).

(** Requests the API serves, as opposed to the bodies of tasks and drains. *)
Definition is_request (op : Op) : bool :=
  match op with OpCheck _ | OpDrain | OpRetention => false | _ => true end.

(** One step.  [lossy] allows an unlock statement to fail: its error is ignored and the
    pooled session keeps the lock.  A round is skipped, without a change, when no
    connection is available, the lock statement fails or the lock is busy. *)
Inductive cstep (lossy hasWorker : bool) (d : Deployment) (c : Cluster) : Cluster → Prop :=
| c_request r rep E op : cl_replicas c !! r = Some rep → is_request op = true →
    cstep lossy hasWorker d c (on_replica d op E r rep c)
| c_lock r rep i t sess locks : cl_replicas c !! r = Some rep → newScheduler hasWorker !! i = Some t →
    cl_rounds c !! (r, i) = None → ¬ session_used c sess →
    pg_try_advisory_lock (tk_Key t) sess (cl_locks c) = Some locks →
    cstep lossy hasWorker d c
      (mkCluster (cl_world c) locks (<[(r, i) := mkRound sess false]> (cl_rounds c)) (cl_replicas c))
| c_body r rep i t E b rd : cl_replicas c !! r = Some rep → newScheduler hasWorker !! i = Some t →
    cl_rounds c !! (r, i) = Some rd → rd_done rd = false →
    cstep lossy hasWorker d c
      (let c' := on_replica d (tk_Fn t b) E r rep c in
       mkCluster (cl_world c') (cl_locks c') (<[(r, i) := mkRound (rd_sess rd) true]> (cl_rounds c'))
         (cl_replicas c'))
| c_unlock r i t rd : newScheduler hasWorker !! i = Some t → cl_rounds c !! (r, i) = Some rd → rd_done rd = true →
    cstep lossy hasWorker d c
      (mkCluster (cl_world c) (pg_advisory_unlock (tk_Key t) (rd_sess rd) (cl_locks c))
         (base.delete (r, i) (cl_rounds c)) (cl_replicas c))
| c_unlock_lost r i rd : lossy = true → cl_rounds c !! (r, i) = Some rd → rd_done rd = true →
    cstep lossy hasWorker d c
      (mkCluster (cl_world c) (cl_locks c) (base.delete (r, i) (cl_rounds c)) (cl_replicas c))
| c_session_end sess : ¬ session_used c sess →
    cstep lossy hasWorker d c
      (mkCluster (cl_world c) (session_end sess (cl_locks c)) (cl_rounds c) (cl_replicas c))
| c_crash r : (* a process dies: its goroutines and their sessions are gone *)
    cstep lossy hasWorker d c
      (mkCluster (cl_world c)
         (filter (λ kv, ∀ rt rd, cl_rounds c !! rt = Some rd → rt.1 = r → rd_sess rd ≠ kv.2.1) (cl_locks c))
         (filter (λ x, x.1.1 ≠ r) (cl_rounds c)) (base.delete r (cl_replicas c)))
| c_start r : cl_replicas c !! r = None →
    cstep lossy hasWorker d c (set_worker r false (if hasWorker then WStarting else WStopped) c)
(* [Worker.Run]: an immediate drain, then one per signal; the signal is taken first. *)
| c_drain_first r rep : cl_replicas c !! r = Some rep → rp_worker rep = WStarting →
    cstep lossy hasWorker d c (set_worker r (rp_signal rep) WDraining c)
| c_drain_signal r : cl_replicas c !! r = Some (mkReplica true WWaiting) →
    cstep lossy hasWorker d c (set_worker r false WDraining c)
| c_drain r E rep : cl_replicas c !! r = Some rep → rp_worker rep = WDraining →
    cstep lossy hasWorker d c
      (let c' := on_replica d OpDrain E r rep c in
       mkCluster (cl_world c') (cl_locks c') (cl_rounds c')
         (alter (λ rep, mkReplica (rp_signal rep) WWaiting) r (cl_replicas c')))
| c_worker_stop r rep : cl_replicas c !! r = Some rep → rp_worker rep = WWaiting →
    cstep lossy hasWorker d c (set_worker r (rp_signal rep) WStopped c).

Inductive cluster_reachable (lossy hasWorker : bool) (d : Deployment) : Cluster → Prop :=
| cluster_init : cluster_reachable lossy hasWorker d (mkCluster init ∅ ∅ ∅)
| cluster_next c c' : cluster_reachable lossy hasWorker d c → cstep lossy hasWorker d c c' →
    cluster_reachable lossy hasWorker d c'.

(** ** Locks *)

Section Locks.
Context (hasWorker : bool).
Notation tasks := (newScheduler hasWorker).

(** Every round in progress holds its key, with a session of its own. *)
Record rounds_ok (c : Cluster) : Prop := mkRoundsOk {
  ro_held : ∀ r i rd, cl_rounds c !! (r, i) = Some rd →
    ∃ t n, tasks !! i = Some t ∧ cl_locks c !! tk_Key t = Some (rd_sess rd, S n);
  ro_sessions : ∀ a b rd rd', cl_rounds c !! a = Some rd → cl_rounds c !! b = Some rd' →
    rd_sess rd = rd_sess rd' → a = b }.

(** Locks of sessions in use survive when the other locks are dropped. *)
Lemma rounds_ok_sub c locks rounds w reps : rounds_ok c →
  (∀ a rd, rounds !! a = Some rd → ∃ rd0, cl_rounds c !! a = Some rd0 ∧ rd_sess rd0 = rd_sess rd) →
  (∀ a rd k n, rounds !! a = Some rd → cl_locks c !! k = Some (rd_sess rd, S n) →
     ∃ n', locks !! k = Some (rd_sess rd, S n')) →
  rounds_ok (mkCluster w locks rounds reps).
Proof.
  intros [Hh Hs] Hsub Hl. split; cbn.
  - intros r i rd Hr. destruct (Hsub _ _ Hr) as (rd0 & H0 & He).
    destruct (Hh r i rd0 H0) as (t & n & Ht & Hk). rewrite He in Hk.
    destruct (Hl _ _ _ _ Hr Hk) as [n' Hn']. eauto.
  - intros a b rd rd' Ha Hb He. destruct (Hsub _ _ Ha) as (? & ? & ?), (Hsub _ _ Hb) as (? & ? & ?).
    eapply Hs; eauto. congruence.
Qed.

Lemma rounds_ok_same c w reps : rounds_ok c → rounds_ok (mkCluster w (cl_locks c) (cl_rounds c) reps).
Proof. intros H. eapply rounds_ok_sub; eauto. Qed.

Lemma try_lock_Some key sess t t' : pg_try_advisory_lock key sess t = Some t' →
  (∃ n, t' !! key = Some (sess, S n)) ∧ (∀ k, k ≠ key → t' !! k = t !! k)
  ∧ (∀ s n, t !! key = Some (s, n) → s = sess).
Proof.
  unfold pg_try_advisory_lock. destruct (t !! key) as [[s n]|] eqn:Hk.
  - destruct (s == sess) eqn:Hs; [|done]. bool_facts. intros [= <-].
    split_and!; [exists n; by rewrite lookup_insert_eq| |congruence].
    intros k Hne. by rewrite lookup_insert_ne.
  - intros [= <-]. split_and!; [exists O; by rewrite lookup_insert_eq| |congruence].
    intros k Hne. by rewrite lookup_insert_ne.
Qed.

Lemma step_lock c r i t sess locks : rounds_ok c → tasks !! i = Some t → cl_rounds c !! (r, i) = None →
  ¬ session_used c sess → pg_try_advisory_lock (tk_Key t) sess (cl_locks c) = Some locks →
  rounds_ok (mkCluster (cl_world c) locks (<[(r, i) := mkRound sess false]> (cl_rounds c)) (cl_replicas c)).
Proof.
  intros [Hh Hs] Ht Hnone Hfree Hl. apply try_lock_Some in Hl as ([n Hn] & Hother & Hown). split; cbn.
  - intros r' i' rd [[[= <- <-] <-]|[Hne Hr]]%lookup_insert_Some; [eauto|].
    destruct (Hh r' i' rd Hr) as (t' & n' & Ht' & Hk'). exists t'.
    destruct (decide (tk_Key t' = tk_Key t)) as [He|Hne'].
    + exfalso. apply Hfree. rewrite He in Hk'. apply Hown in Hk'. by exists (r', i'), rd.
    + exists n'. by rewrite Hother.
  - intros a b rd rd' [[<- <-]|[_ Ha]]%lookup_insert_Some [[<- <-]|[_ Hb]]%lookup_insert_Some He;
      cbn in *; eauto; exfalso; apply Hfree; [exists b, rd'|exists a, rd]; done.
Qed.

Lemma unlock_other key sess t k s n : t !! k = Some (s, n) → s ≠ sess →
  pg_advisory_unlock key sess t !! k = Some (s, n).
Proof.
  intros Hk Hne. unfold pg_advisory_unlock. destruct (t !! key) as [[s' n']|] eqn:Hkey; [|done].
  destruct (s' == sess) eqn:Hs; [|done]. bool_facts. subst s'.
  assert (key ≠ k) by congruence. destruct n' as [|[|n']];
    [by rewrite lookup_delete_ne..|by rewrite lookup_insert_ne].
Qed.

Lemma step_unlock c r i t rd : rounds_ok c → cl_rounds c !! (r, i) = Some rd →
  rounds_ok (mkCluster (cl_world c) (pg_advisory_unlock (tk_Key t) (rd_sess rd) (cl_locks c))
    (base.delete (r, i) (cl_rounds c)) (cl_replicas c)).
Proof.
  intros H Hr. eapply rounds_ok_sub; [done| |].
  - intros a rd' [_ Ha]%lookup_delete_Some. eauto.
  - intros a rd' k n [Hne Ha]%lookup_delete_Some Hk. exists n. apply unlock_other; [done|].
    intros He. apply Hne. symmetry. by eapply (ro_sessions c H).
Qed.

Lemma cstep_rounds lossy d c c' : cstep lossy hasWorker d c c' → rounds_ok c → rounds_ok c'.
Proof.
  intros Hstep H. destruct Hstep; cbn.
  - by apply rounds_ok_same.
  - by eapply step_lock.
  - eapply rounds_ok_sub; [done| |eauto].
    intros a rd' [[<- <-]|[_ Ha]]%lookup_insert_Some; eauto.
  - by apply step_unlock.
  - eapply rounds_ok_sub; [done| |eauto]. intros a rd' [_ Ha]%lookup_delete_Some. eauto.
  - eapply rounds_ok_sub; [done|eauto|]. intros a rd k n Ha Hk. exists n.
    apply map_lookup_filter_Some. split; [done|]. cbn. intros He. apply H0. by exists a, rd.
  - eapply rounds_ok_sub; [done| |].
    + intros a rd [Ha _]%map_lookup_filter_Some. eauto.
    + intros a rd k n [Ha Hne]%map_lookup_filter_Some Hk. exists n. apply map_lookup_filter_Some.
      split; [done|]. cbn in *. intros rt rd' Hrt Hr He. apply Hne. rewrite <- Hr. f_equal.
      symmetry. by eapply (ro_sessions c H).
  - by apply rounds_ok_same.
  - by apply rounds_ok_same.
  - by apply rounds_ok_same.
  - by apply rounds_ok_same.
  - by apply rounds_ok_same.
Qed.

Lemma reachable_rounds lossy d c : cluster_reachable lossy hasWorker d c → rounds_ok c.
Proof.
  induction 1 as [|c c' _ IH Hstep]; [|by eapply cstep_rounds].
  split; cbn; intros *; by rewrite lookup_empty.
Qed.
End Locks.

(** ** Without a lost unlock *)

Section Lossless.
Context (hasWorker : bool) (d : Deployment).

(** A lock is held by a round in progress, once. *)
Definition no_orphans (c : Cluster) : Prop := ∀ k s n, cl_locks c !! k = Some (s, n) →
  n = 1%nat ∧ ∃ r i rd t, cl_rounds c !! (r, i) = Some rd ∧ rd_sess rd = s
    ∧ newScheduler hasWorker !! i = Some t ∧ tk_Key t = k.

Lemma no_orphans_same c w reps : no_orphans c → no_orphans (mkCluster w (cl_locks c) (cl_rounds c) reps).
Proof. done. Qed.

Lemma try_lock_orphans c r i t sess locks : no_orphans c → newScheduler hasWorker !! i = Some t →
  cl_rounds c !! (r, i) = None → ¬ session_used c sess →
  pg_try_advisory_lock (tk_Key t) sess (cl_locks c) = Some locks →
  no_orphans (mkCluster (cl_world c) locks (<[(r, i) := mkRound sess false]> (cl_rounds c)) (cl_replicas c)).
Proof.
  intros H Ht Hnone Hfree. unfold pg_try_advisory_lock.
  destruct (cl_locks c !! tk_Key t) as [[s n]|] eqn:Hk.
  - destruct (s == sess) eqn:Hs; [|done]. bool_facts. subst s. exfalso.
    destruct (H _ _ _ Hk) as (_ & r' & i' & rd & t' & Hr & He & _). apply Hfree. by exists (r', i'), rd.
  - intros [= <-] k s n. cbn. intros [[<- [= <- <-]]|[Hne Hl]]%lookup_insert_Some.
    + split; [done|]. exists r, i, (mkRound sess false), t. by rewrite lookup_insert_eq.
    + destruct (H _ _ _ Hl) as (-> & r' & i' & rd & t' & Hr & He & Ht' & Hk').
      split; [done|]. exists r', i', rd, t'. rewrite lookup_insert_ne; [done|]. congruence.
Qed.

Lemma unlock_orphans c r i t rd : rounds_ok hasWorker c → no_orphans c →
  newScheduler hasWorker !! i = Some t → cl_rounds c !! (r, i) = Some rd →
  no_orphans (mkCluster (cl_world c) (pg_advisory_unlock (tk_Key t) (rd_sess rd) (cl_locks c))
    (base.delete (r, i) (cl_rounds c)) (cl_replicas c)).
Proof.
  intros Hro H Ht Hr k s n. cbn. destruct (ro_held _ _ Hro r i rd Hr) as (t' & m & Ht' & Hk).
  assert (t' = t) as -> by congruence. unfold pg_advisory_unlock. rewrite Hk, bool_decide_true by done.
  destruct (H _ _ _ Hk) as [[= ->] _]. intros [Hne Hl]%lookup_delete_Some.
  destruct (H _ _ _ Hl) as (-> & r' & i' & rd' & u & Hr' & He & Hu & Hku). split; [done|].
  exists r', i', rd', u. rewrite lookup_delete_ne; [done|]. intros [= -> ->]. congruence.
Qed.

Lemma cstep_orphans c c' : cstep false hasWorker d c c' → rounds_ok hasWorker c → no_orphans c → no_orphans c'.
Proof.
  intros Hstep Hro H. destruct Hstep; cbn; try done.
  - by eapply try_lock_orphans.
  - intros k s n Hl. destruct (H k s n Hl) as (-> & r' & i' & rd' & u & Hr' & He & Hu & Hku).
    split; [done|]. cbn. destruct (decide ((r', i') = (r, i))) as [[= -> ->]|Hne].
    + exists r, i, (mkRound (rd_sess rd) true), u. rewrite lookup_insert_eq.
      split_and!; try done. cbn. congruence.
    + exists r', i', rd', u. by rewrite lookup_insert_ne.
  - by eapply unlock_orphans.
  - intros k s n [Hl _]%map_lookup_filter_Some. exact (H k s n Hl).
  - intros k s n [Hl Hp]%map_lookup_filter_Some.
    destruct (H k s n Hl) as (-> & r' & i' & rd' & u & Hr' & He & Hu & Hku). split; [done|].
    exists r', i', rd', u. split_and!; try done. apply map_lookup_filter_Some. split; [done|].
    cbn in *. intros ->. by eapply Hp.
Qed.

Lemma reachable_orphans c : cluster_reachable false hasWorker d c → no_orphans c.
Proof.
  induction 1 as [|c c' Hc IH Hstep]; [intros k s n H; cbn in H; by rewrite lookup_empty in H|].
  eapply cstep_orphans; [done| |done]. by eapply reachable_rounds.
Qed.
End Lossless.

(** ** The shared tables *)

Section ClusterTables.
Context (R : World → World → Prop) `{!DbRel R} (d : Deployment).
Hypothesis run_op_R : ∀ op, Respects R (run_op d op).

Lemma on_replica_R op E r rep c : R (cl_world c) (cl_world (on_replica d op E r rep c)).
Proof.
  unfold on_replica. cbn. transitivity (set_signal (rp_signal rep) (cl_world c)).
  - by apply db_rel_frame.
  - destruct (run_op d op E (set_signal (rp_signal rep) (cl_world c))) as [o w'] eqn:H.
    exact (run_op_R op _ _ _ _ H).
Qed.

Lemma cluster_world_R lossy hasWorker c : cluster_reachable lossy hasWorker d c → R init (cl_world c).
Proof.
  induction 1 as [|c c' _ IH Hstep]; [reflexivity|]. etrans; [exact IH|].
  destruct Hstep; try reflexivity; exact (on_replica_R _ _ _ _ _).
Qed.
End ClusterTables.
