(* ===== verification/App.v ===== *)
(** * Start-up wiring

    [internal/api/api.go], [internal/app/app.go] and [cmd/main.go]: how the loaded
    settings become a running service.  What start-up asks of other systems (the
    database, the identity provider, the OpenAPI file, the notification schema, the mail
    library) is a [Boot] record. *)

From S2P Require Import Prelude GoStrings GoTime Errors Event Rbac Json Auth Models Store Queries Writes Integrity Outbox Notify Conf StaticCache StaticProxy Checker Api Handlers System Scheduler OpenApi.
Local Open Scope Z_scope.

Record Boot := mkBoot {
  bt_db : bool;                 (* [db.New] *)
  bt_oidc : Idp;                (* the identity provider *)
  bt_spec : option obj;         (* the parsed OpenAPI file *)
  bt_schema : option Z;         (* how many outbox tables the catalogue lists *)
  bt_smtp : string → list mail_option → bool;  (* [mail.NewClient] accepts host and options *)
  bt_leaseOwner : string }.     (* [leaseOwner()] *)

Inductive boot_err :=
| BootDB | BootOIDC (e : provider_err) | BootSpec | BootSchema (e : err) | BootSMTP
| BootStatic (e : conf_err) | BootNotification (e : notif_err).

Record App := mkApp {
  ap_deployment : Deployment; ap_hasWorker : bool; ap_static : option (Proxy * PState);
  ap_openapi : obj; ap_port : string; ap_metricsPort : option string }.

Section Boot.
Context (verifier : string → option (string * option obj)) (ParseAddress : string → bool).

Definition rbac_service (c : Settings) : Service :=
  New (Rbac.mkConfig (rb_Creators (s_RBAC c)) (rb_Operators (s_RBAC c)) (rb_Admins (s_RBAC c))
         (rb_Reporters (s_RBAC c))).

Definition newAuthProvider (boot : Boot) (c : Settings) (roleNames : list string) : boot_err + Provider :=
  match NewProvider (bt_oidc boot)
          (mkProviderConfig (oidc_Issuer (s_OIDC c)) (oidc_ClientID (s_OIDC c)) roleNames
             (oidc_UsernameClaim (s_OIDC c))) with
  | inl e => inl (BootOIDC e)
  | inr p => inr p
  end.

(** [api.New]: the roles, the token provider, the catch-all handler, the publisher and
    the OpenAPI document. *)
Record API := mkAPI {
  api_authn : Provider; api_rbac : Service; api_notifier : Publisher;
  api_static : option (Proxy * PState); api_openapi : obj }.

Definition api_New (boot : Boot) (c : Settings) : boot_err + API :=
  let svc := rbac_service c in
  match newAuthProvider boot c (RoleNames svc) with
  | inl e => inl e
  | inr authn =>
    match NewHandler (s_Static c) with
    | inl e => inl (BootStatic e)
    | inr catchAll =>
      match ConfigFromConf c with
      | inl e => inl (BootNotification e)
      | inr ncfg =>
        match loadOpenAPISpec (bt_spec boot) with
        | None => inl BootSpec
        | Some spec => inr (mkAPI authn svc (NewPublisher ncfg) catchAll spec)
        end
      end
    end
  end.

(** The check of the catalogue: nil ([None]), or the error. *)
Definition EnsureNotificationSchema (count : option Z) : option err :=
  match count with
  | None => Some ESql
  | Some n => if n =? 0 then Some (EDb ErrNotificationSchemaMissing) else None
  end.

(** The worker, and the API's publisher wired to wake it; no worker when notifications
    are disabled. *)
Definition buildWorker (boot : Boot) (c : Settings) (api : API) : boot_err + (option Worker * option Publisher) :=
  match ConfigFromConf c with
  | inl e => inl (BootNotification e)
  | inr ncfg =>
    if negb (cfg_Enabled ncfg) then inr (None, Some (api_notifier api))
    else if EnsureNotificationSchema (bt_schema boot) is Some e then inl (BootSchema e)
    else match NewSMTPSender (bt_smtp boot) ncfg with
         | None => inl BootSMTP
         | Some _ => inr (Some (NewWorker ncfg (bt_leaseOwner boot)), SetNotify (Some (api_notifier api)))
         end
  end.

(** [app.New].  Without a worker the deployment's worker is never run. *)
Definition app_New (boot : Boot) (c : Settings) : boot_err + App :=
  if negb (bt_db boot) then inl BootDB
  else match api_New boot c with
  | inl e => inl e
  | inr api =>
    match buildWorker boot c api with
    | inl e => inl e
    | inr (worker, notifier) =>
      inr (mkApp
        (mkDeployment (Verify verifier (api_authn api)) ParseAddress (api_rbac api) notifier
           (default (mkWorker "" 0 0 0) worker))
        (bool_decide (is_Some worker)) (api_static api) (api_openapi api) (s_Port c)
        (if worker is Some _ then Some (s_MetricsPort c) else None))
    end
  end.
End Boot.

(** ** Shutdown *)

Inductive shutdown_action := StopScheduler | WaitWorker | ShutdownServers | CloseDatabase.

(** [shutdown] of cmd/main.go: the scheduler and the worker are stopped first, each with
    its own deadline; the database pool is closed only when both have stopped. *)
Definition shutdown (schedStopped workerStopped : bool) : list shutdown_action :=
  [StopScheduler; WaitWorker; ShutdownServers]
  ++ (if negb schedStopped || negb workerStopped then [] else [CloseDatabase]).

(** ** Lemmas *)

Lemma ConfigFromConf_ok PA c : settings_ok PA c → ∃ n, ConfigFromConf c = inr n
  ∧ cfg_Enabled n = nt_Enabled (s_Notifications c)
  ∧ (cfg_Enabled n = true → 1 <= cfg_MaxAttempts n ∧ cfg_Timeout n < cfg_LeaseTimeout n
      ∧ 1 <= cfg_Port n <= MaxPortNumber ∧ PA (cfg_From n) = true).
Proof.
  intros H. unfold ConfigFromConf. destruct (nt_Enabled (s_Notifications c)) eqn:He; cbn [negb].
  - destruct (so_notifications _ _ H He) as [_ (p & -> & Hp) [_ Hf] _ _ _ (t & l & -> & -> & ?) (n & -> & ?) [b ->]].
    eexists. split; [reflexivity|]. cbn. split; [done|]. intros _.
    split_and!; first [done | lia].
  - eexists. split; [reflexivity|]. done.
Qed.

Lemma NewHandler_ok PA c : settings_ok PA c → ∃ h, NewHandler (s_Static c) = inr h
  ∧ ∀ p s, h = Some (p, s) → px_origins p ≠ [] ∧ 0 < px_ttl p ∧ 0 < c_maxBytes (ps_cache s).
Proof.
  intros H. destruct (so_static _ _ H) as (origins & Ho & Hrest). unfold NewHandler. rewrite Ho.
  destruct origins as [|o os]; [eexists; split; [reflexivity|done]|].
  destruct (Hrest ltac:(done)) as (ttl & n & -> & ? & -> & ?).
  eexists. split; [reflexivity|]. by intros p s [= <- <-].
Qed.

(** An error that another system caused, and not the settings. *)
Definition external (e : boot_err) : bool :=
  match e with BootStatic _ | BootNotification _ => false | _ => true end.

(** The worker a start-up built runs with the attempts the settings give. *)
Lemma app_New_worker v PA PA' boot c app : settings_ok PA' c → app_New v PA boot c = inr app →
  ap_hasWorker app = true → 1 <= wk_maxAttempts (dp_worker (ap_deployment app)).
Proof.
  intros Hok. destruct (ConfigFromConf_ok PA' c Hok) as (n & Hn & _ & Hen).
  unfold app_New. destruct (bt_db boot); [|done]. cbn [negb].
  destruct (api_New boot c) as [|api]; [done|]. unfold buildWorker. rewrite Hn.
  destruct (cfg_Enabled n); cbn [negb]; [|by intros [= <-]].
  destruct (EnsureNotificationSchema _); [done|]. destruct (NewSMTPSender _ _); [|done].
  intros [= <-] _. cbn. by destruct (Hen eq_refl).
Qed.
