(* ===== verification/Router.v ===== *)
(** * The router

    [internal/api/routes.go], [internal/api/health.go], the Swagger handler of
    [internal/api/swagger.go] and the global middlewares of [internal/api/middleware.go]:
    one dispatch from an HTTP request to its reply, over all routes.

    gin's matching is modelled as it documents it: literal segments and parameters (a
    parameter is one non-empty segment, a catch-all the rest), a redirect when only the
    path with or without the trailing slash has a handler, the catch-all of [NoRoute]
    otherwise, and a recovery that answers 500 to a panic.  A body or query reaches the
    handlers decoded ([Decoded]); the ids of a path are bound here. *)

From S2P Require Import Prelude GoStrings GoTime Errors Event Rbac Json Auth Models Store Queries Availability Rss Writes Integrity Outbox Notify Conf StaticCache StaticProxy Checker Api Handlers System Scheduler OpenApi App.
Local Open Scope Z_scope.

(** ** Requests and replies *)

(** What gin decodes from the body and the query of a request, for the bindings of the
    handlers; [None] where a binding fails. *)
Record Decoded := mkDecoded {
  dc_incident : option IncidentData; dc_patch : option PatchIncidentData;
  dc_components : option (list Z); dc_text : option string;
  dc_component : option (string * list ComponentAttribute); dc_redrive : option (list Z);
  dc_query : option APIGetIncidentsQuery; dc_status : option string; dc_limit : string;
  dc_mt : string; dc_srv : string }.

Record HttpRequest := mkHttp {
  h_req : Request; h_scheme : string; h_authorization : string; h_decoded : Decoded }.

Inductive HttpReply :=
| HApi (r : Handlers.Response)
| HAvailability (l : list ComponentAvailability)
| HFeed (r : FeedReply)
| HDocument (doc : json)
| HText (status : Z) (contentType body : string)
| HAsset (path : string) (status : Z)
| HStatus (status : Z)
| HRedirect (status : Z)
| HStatic (r : Reply).

(** A reply with the header the middlewares have set; a static reply carries its own. *)
Record HttpOut := mkOut { o_header : Header; o_reply : HttpReply }.

(** ** Routes *)

Inductive seg := Lit (s : string) | Param | CatchAll.

(** The values of the parameters when a path matches. *)
Fixpoint match_segs (pat : list seg) (path : list string) : option (list string) :=
  match pat, path with
  | [], [] => Some []
  | CatchAll :: _, _ :: _ => Some [("/" +:+ Join path "/")%string]
  | Lit s :: pat, p :: path => if s == p then match_segs pat path else None
  | Param :: pat, p :: path =>
      if p == ""%string then None else (λ ps, p :: ps) <$> match_segs pat path
  | _, _ => None
  end.

(** The handler chains, with the raw parameters of the path. *)
Inductive Route :=
| Healthz | Readyz
| GetComponents | PostComponent | GetComponentByID (id : string)
| GetIncidents | PostIncident | GetEvents | PostEvent
| GetEventByID (id : string) | PatchEvent (id : string) | ExtractEvent (id : string)
| PatchUpdate (id upd : string)
| GetAvailability | NotificationStats | NotificationsFailed | NotificationsRedrive
| RssV2 | RssLegacy | OpenApiDocument | SwaggerUI (any : string).

(** The paths that [incidents] and [events] share. *)
Definition event_routes (group : string) : list (string * list seg * (list string → option Route)) :=
  let one f := λ ps, match ps with [a] => Some (f a) | _ => None end in
  [("GET", [Lit "v2"; Lit group; Param], one GetEventByID);
   ("PATCH", [Lit "v2"; Lit group; Param], one PatchEvent);
   ("POST", [Lit "v2"; Lit group; Param; Lit "extract"], one ExtractEvent);
   ("PATCH", [Lit "v2"; Lit group; Param; Lit "updates"; Param],
    λ ps, match ps with [a; b] => Some (PatchUpdate a b) | _ => None end)]%string.

(** [InitRoutes]: the health routes, [initV2Routes], [initRSSRoutes], the document and
    the Swagger UI. *)
Definition routes : list (string * list seg * (list string → option Route)) :=
  let c r := λ _, Some r in
  let one f := λ ps, match ps with [a] => Some (f a) | _ => None end in
  ([("GET", [Lit "healthz"], c Healthz); ("GET", [Lit "readyz"], c Readyz);
    ("GET", [Lit "v2"; Lit "components"], c GetComponents);
    ("POST", [Lit "v2"; Lit "components"], c PostComponent);
    ("GET", [Lit "v2"; Lit "components"; Param], one GetComponentByID);
    ("GET", [Lit "v2"; Lit "incidents"], c GetIncidents);
    ("POST", [Lit "v2"; Lit "incidents"], c PostIncident)]%string
   ++ event_routes "incidents"
   ++ [("GET", [Lit "v2"; Lit "events"], c GetEvents); ("POST", [Lit "v2"; Lit "events"], c PostEvent)]%string
   ++ event_routes "events"
   ++ [("GET", [Lit "v2"; Lit "availability"], c GetAvailability);
       ("GET", [Lit "v2"; Lit "notifications"; Lit "stats"], c NotificationStats);
       ("GET", [Lit "v2"; Lit "notifications"; Lit "failed"], c NotificationsFailed);
       ("POST", [Lit "v2"; Lit "notifications"; Lit "redrive"], c NotificationsRedrive);
       ("GET", [Lit "v2"; Lit "rss"; Lit ""], c RssV2);
       ("GET", [Lit "rss"; Lit ""], c RssLegacy);
       ("GET", [Lit "openapi.json"], c OpenApiDocument);
       ("GET", [Lit "swagger"; CatchAll], one SwaggerUI)]%string).

Fixpoint find_route (method : string) (path : list string)
    (table : list (string * list seg * (list string → option Route))) : option Route :=
  match table with
  | [] => None
  | (m, pat, f) :: table =>
    if m == method then
      match match_segs pat path ≫= f with
      | Some r => Some r
      | None => find_route method path table
      end
    else find_route method path table
  end.

(** The segments of a path, after its leading slash. *)
Definition segments (path : string) : option (list string) :=
  match Split path "/" with
  | ""%string :: ((_ :: _) as segs) => Some segs
  | _ => None
  end.

Definition route_of (method path : string) : option Route :=
  segs ← segments path; find_route method segs routes.

(** The path with its trailing slash added or removed. *)
Definition toggle_slash (path : string) : string :=
  if HasSuffix path "/" then TrimSuffix path "/" else (path +:+ "/")%string.

(** ** Handlers of this file *)

(** [required,gte=0] on an id of the path: a positive number. *)
Definition bind_id (s : string) : option Z :=
  match Atoi s with Some n => if 0 <? n then Some n else None | None => None end.
(** [required,gte=0] on a pointer: any number from 0 on; a negative one is refused by the
    handler with the same answer. *)
Definition bind_update (s : string) : Z := default (-1) (Atoi s).

Definition readinessHandler : M HttpReply :=
  r ← try stmt; mret (HStatus (if r is inl _ then 503 else 200)).

(** The script that points the UI at the document. *)
Definition swaggerInitializerJSTmpl (specURL : string) : string :=
  (Join ["window.onload = function() {"; "  window.ui = SwaggerUIBundle({";
    "    url: " +:+ quote +:+ specURL +:+ quote +:+ ","; "    dom_id: '#swagger-ui',"; "    deepLinking: true,";
    "    presets: ["; "      SwaggerUIBundle.presets.apis,"; "      SwaggerUIStandalonePreset"; "    ],";
    "    plugins: ["; "      SwaggerUIBundle.plugins.DownloadUrl"; "    ],";
    "    layout: " +:+ quote +:+ "StandaloneLayout" +:+ quote; "  });"; "};"; ""] Notify.newline)%string.

Section Router.
Context (a : App).
(** [feed.ToRss]; the status of a file of swaggo/files. *)
Context (ToRss : Feed → bool) (swaggerFile : string → Z).

Definition swaggerUIHandler (specURL any : string) : HttpReply :=
  if any == "/swagger-initializer.js"%string
  then HText 200 "application/javascript; charset=utf-8" (swaggerInitializerJSTmpl specURL)
  else HAsset any (swaggerFile any).

Definition rss_request (r : HttpRequest) : RssRequest :=
  mkRssRequest (dc_mt (h_decoded r)) (dc_srv (h_decoded r)) (h_scheme r) (rq_Host (h_req r))
    (rq_RawQuery (h_req r)).

(** The chain of a route. *)
Definition run_route (r : HttpRequest) (route : Route) : M HttpReply :=
  let d := ap_deployment a in
  let v := dp_Verify d in let PA := dp_ParseAddress d in let svc := dp_rbac d in let pub := dp_notifier d in
  let hd := h_authorization r in
  let b := h_decoded r in
  let api m := x ← m; mret (HApi x) in
  match route with
  | Healthz => mret (HStatus 200)
  | Readyz => readinessHandler
  | GetComponents => api GetComponentsHandler
  | PostComponent => api (post_component v svc hd (dc_component b))
  | GetComponentByID id => api (GetComponentHandler (bind_id id))
  | GetIncidents => api (get_incidents v svc hd (dc_query b))
  | PostIncident => api (post_incident v PA svc pub hd (dc_incident b))
  | GetEvents => api (get_events v svc hd (dc_query b))
  | PostEvent => api (post_event v PA svc pub hd (dc_incident b))
  | GetEventByID id => api (get_event v svc hd (bind_id id))
  | PatchEvent id => api (patch_event v svc pub hd (bind_id id) (dc_patch b))
  | ExtractEvent id => api (extract_event v svc hd (bind_id id) (dc_components b))
  | PatchUpdate id upd => api (patch_update v svc hd (bind_id id) (bind_update upd) (dc_text b))
  | GetAvailability =>
      l ← GetComponentsAvailabilityHandler;
      match l with
      | Some l => mret (HAvailability l)
      | None => api RaiseInternalErr
      end
  | NotificationStats => api (get_stats v svc hd)
  | NotificationsFailed => api (get_failed v svc hd (dc_status b) (dc_limit b))
  | NotificationsRedrive => api (redrive v svc pub hd (dc_redrive b))
  | RssV2 => f ← HandleRSS ToRss (rss_request r); mret (HFeed f)
  | RssLegacy => f ← LegacyHandleRSS ToRss (rss_request r); mret (HFeed f)
  | OpenApiDocument => mret (HDocument (JObj (ap_openapi a)))
  | SwaggerUI any => mret (swaggerUIHandler "/openapi.json" any)
  end.

(** ** Middlewares of the engine *)

Definition SecurityHeaders (h : Header) : Header :=
  header_Set "Content-Security-Policy" "frame-ancestors 'none'" (header_Set "X-Frame-Options" "DENY" h).

(** The header, and whether the request ends here. *)
Definition CORSMiddleware (r : HttpRequest) (h : Header) : Header * bool :=
  (header_Set "Access-Control-Allow-Methods" "POST, OPTIONS, GET, PUT, PATCH"
    (header_Set "Access-Control-Allow-Headers"
      ("Content-Type, Content-Length, Accept-Encoding, X-CSRF-Token, "
         +:+ "Authorization, accept, origin, Cache-Control, X-Requested-With")
      (header_Set "Access-Control-Allow-Credentials" "true"
        (header_Set "Access-Control-Allow-Origin" "*" h))),
   rq_Method (h_req r) == "OPTIONS"%string).

(** [gin.Recovery]: a panic of a handler is answered 500 without a body. *)
Definition Recovery (m : M HttpReply) : M HttpReply := λ E w,
  match m E w with
  | (Panic, w') => (Ret (HStatus 500), w')
  | o => o
  end.

(** [NoRoute]: the frontend, or the 404 when no origin is configured. *)
Definition catchAll (dst : Header) (r : HttpRequest) (PE : PEnv) (ps : PState) : Reply * PState :=
  match ap_static a with
  | None => (RPageNotFound, ps)
  | Some (p, _) => handler p dst (h_req r) PE ps
  end.

(** One request.  A redirect is answered before any middleware runs.  No handler records
    an error in the context, so [ErrorHandle] passes every reply through. *)
Definition serve (r : HttpRequest) (E : Env) (PE : PEnv) (s : World * PState) :
    outcome HttpOut * (World * PState) :=
  let method := rq_Method (h_req r) in
  let path := rq_Path (h_req r) in
  let '(dst, done) := CORSMiddleware r (SecurityHeaders ∅) in
  match route_of method path with
  | Some route =>
    match Recovery (run_route r route) E s.1 with
    | (Ret x, w) => (Ret (mkOut dst x), (w, s.2))
    | (Fail e, w) => (Fail e, (w, s.2))
    | (Panic, w) => (Panic, (w, s.2))
    end
  | None =>
    if (path != "/"%string) && bool_decide (is_Some (route_of method (toggle_slash path)))
    then (Ret (mkOut ∅ (HRedirect (if method == "GET"%string then 301 else 307))), s)
    else if done then (Ret (mkOut dst (HStatus 204)), s)
    else let '(x, ps) := catchAll dst r PE s.2 in (Ret (mkOut dst (HStatic x)), (s.1, ps))
  end.
End Router.

(** ** The audit trail and the request log *)

Inductive log_level := LevelInfo | LevelWarn | LevelError.
Record log_entry := mkLog { lg_level : log_level; lg_message : string; lg_fields : list (string * string) }.

(** The middlewares with their [auth_audit] entries.  An audited run threads the log beside
    the world and keeps it through an error or a panic. *)
Module Audited.
Definition Audited (A : Type) : Type := Env → World → outcome A * World * list log_entry.

#[global] Instance Audited_ret : MRet Audited := λ A a E w, (Ret a, w, []).
#[global] Instance Audited_bind : MBind Audited := λ A B f m E w,
  match m E w with
  | (Ret a, w', l) => let '(o, w'', l') := f a E w' in (o, w'', l ++ l')
  | (Fail e, w', l) => (Fail e, w', l)
  | (Panic, w', l) => (Panic, w', l)
  end.

(** A part of a chain that writes no audit entry. *)
Definition lift {A} (m : M A) : Audited A := λ E w, (m E w, []).

Definition audit_entry (action result idpType username reason : string) : log_entry :=
  let opt key v := if v != ""%string then [(key, v)] else [] in
  mkLog (if result == "success"%string then LevelInfo else LevelWarn) "auth_audit"
    ([("event", "auth_audit"); ("action", action); ("result", result)]%string
       ++ opt "idp_type"%string idpType ++ opt "username"%string username ++ opt "reason"%string reason).

Definition authAudit (action result idpType username reason : string) : Audited unit :=
  λ E w, (Ret tt, w, [audit_entry action result idpType username reason]).

Section Chains.
(** [auth.Provider.Verify] on a raw token, and the text of its error. *)
Context (Verify : string → option Claims) (tokenError : string → string) (svc : Service).

Definition authenticate (c : Ctx) (rawToken : string) : Audited (option Ctx) :=
  match Verify rawToken with
  | None =>
    _ ← authAudit "token_validation" "failure" "" "" (tokenError rawToken);
    mret None
  | Some cl =>
    _ ← authAudit "token_validation" "success" (cl_Provider cl) (cl_Username cl) "";
    mret (Handlers.authenticate Verify c rawToken)
  end.

Definition AuthenticationMW (header : string) (k : Ctx → Audited Handlers.Response) (c : Ctx) :
    Audited Handlers.Response :=
  if header == ""%string
  then _ ← authAudit "token_validation" "failure" "" "" "missing_authorization_header";
       lift (RaiseNotAuthorizedErr ErrAuthNotAuthenticated)
  else r ← authenticate c (TrimPrefix header "Bearer ");
       match r with
       | None => lift (RaiseNotAuthorizedErr ErrAuthTokenInvalid)
       | Some c' => k c'
       end.

Definition SetJWTClaims (header : string) (k : Ctx → Audited Handlers.Response) (c : Ctx) :
    Audited Handlers.Response :=
  if header == ""%string then k c
  else r ← authenticate c (TrimPrefix header "Bearer ");
       match r with
       | None => lift (RaiseNotAuthorizedErr ErrAuthTokenInvalid)
       | Some c' => k c'
       end.

(** [userIDStr]: empty without a user. *)
Definition user_of (c : Ctx) : string := default ""%string (c_userID c).

Definition RBACAuthorizationMW (k : Ctx → Audited Handlers.Response) (c : Ctx) : Audited Handlers.Response :=
  match c_roles c with
  | None =>
    _ ← authAudit "authorization" "denied" "" "" "roles_not_in_context";
    lift (RaiseNotAuthorizedErr ErrAuthNotAuthenticated)
  | Some roles =>
    if negb (HasAuthorizedRole svc roles)
    then _ ← authAudit "authorization" "denied" "" (user_of c) "no_matching_rbac_role";
         lift (RaiseForbiddenErr ErrAuthForbidden)
    else
      let role := ResolveRole svc roles in
      _ ← authAudit "authorization" "success" "" (user_of c) ("role=" +:+ Itoa role);
      k (mkCtx (c_userID c) (c_roles c) (c_email c) (Some role) (c_event c))
  end.

Definition DenyReporterScopeMW (k : Ctx → Audited Handlers.Response) (c : Ctx) : Audited Handlers.Response :=
  if negb (IsReporter (resolveCallerRole svc c)) then k c
  else _ ← authAudit "authorization" "denied" "" (user_of c) "reporter_scope_violation";
       lift (RaiseForbiddenErr ErrInsufficientRole).
End Chains.

Section Routes.
Context (a : App) (ToRss : Feed → bool) (swaggerFile : string → Z) (tokenError : string → string).

(** The chain of a route; what follows its guards writes no audit entry. *)
Definition run_route (r : HttpRequest) (route : Route) : Audited HttpReply :=
  let d := ap_deployment a in
  let svc := dp_rbac d in let pub := dp_notifier d in let PA := dp_ParseAddress d in
  let b := h_decoded r in
  let hard k := x ← AuthenticationMW (dp_Verify d) tokenError (h_authorization r) k empty_ctx; mret (HApi x) in
  let soft k := x ← SetJWTClaims (dp_Verify d) tokenError (h_authorization r) (λ c, lift (k c)) empty_ctx;
                mret (HApi x) in
  let rbac k := hard (RBACAuthorizationMW svc (λ c, lift (k c))) in
  let scoped k := hard (RBACAuthorizationMW svc (DenyReporterScopeMW svc (λ c, lift (k c)))) in
  match route with
  | PostComponent => hard (DenyReporterScopeMW svc (λ _, lift (PostComponentHandler (dc_component b))))
  | GetIncidents => soft (λ c, GetIncidentsHandler (Some svc) c (dc_query b))
  | PostIncident => scoped (ValidateComponentsMW (d_Components <$> dc_incident b)
                              (λ c, PostIncidentHandler PA pub c (dc_incident b)))
  | GetEvents => soft (λ c, GetEventsHandler (Some svc) c (dc_query b))
  | PostEvent => rbac (ValidateComponentsMW (d_Components <$> dc_incident b)
                         (λ c, PostIncidentHandler PA pub c (dc_incident b)))
  | GetEventByID id => soft (λ c, GetIncidentHandler (Some svc) c (bind_id id))
  | PatchEvent id => scoped (CheckEventExistenceMW (bind_id id) (λ c, PatchIncidentHandler pub c (dc_patch b)))
  | ExtractEvent id => scoped (CheckEventExistenceMW (bind_id id) (ValidateComponentsMW (dc_components b)
                                (λ c, PostIncidentExtractHandler c (dc_components b))))
  | PatchUpdate id upd => scoped (CheckEventExistenceMW (bind_id id)
                            (λ c, PatchEventUpdateTextHandler c (default 0 (bind_id id)) (bind_update upd) (dc_text b)))
  | NotificationStats => rbac GetNotificationStatsHandler
  | NotificationsFailed => rbac (λ c, GetFailedNotificationsHandler c (dc_status b) (dc_limit b))
  | NotificationsRedrive => rbac (λ c, RedriveNotificationsHandler pub c (dc_redrive b))
  | _ => lift (Router.run_route a ToRss swaggerFile r route)
  end.
End Routes.
End Audited.

(** [Logger], after a reply with that status; [errors] is [c.Errors], which no handler
    fills.  The client's address, its agent and the latency are left out. *)
Definition Logger (r : HttpRequest) (status : Z) (errors : list string) : list log_entry :=
  let path := rq_Path (h_req r) in
  let fields := [("status", Itoa status); ("method", rq_Method (h_req r)); ("path", path)]%string
                  ++ (if rq_RawQuery (h_req r) != ""%string then [("query"%string, rq_RawQuery (h_req r))] else []) in
  if 500 <=? status
  then [mkLog LevelError (default ("panic was recovered, " +:+ api_err_text ErrInternalError) (last errors)) fields]
  else if 400 <=? status then (λ e, mkLog LevelInfo e fields) <$> errors
  else [mkLog LevelInfo path fields].
