(* ===== verification/RouterSpec.v ===== *)
(** * Lemmas on the router

    What a handler can answer ([Answers]), which routes only read, that the headers of the
    middlewares survive the proxy, and the audit trail of a request. *)

From S2P Require Import Prelude GoStrings GoTime Errors Event Rbac Json Auth Models Store Queries Availability Rss Writes Integrity Outbox Notify Conf StaticCache StaticProxy StaticSpec Facade Checker Api Handlers ApiSpec System Scheduler OpenApi App Router.
Local Open Scope Z_scope.

(** ** Answers *)

(** Every run of [m] ends in a value with [ok], or in a panic; never in an error. *)
Class Answers {A} (ok : A → Prop) (m : M A) : Prop :=
  answers : ∀ E w o w', m E w = (o, w') →
    match o with Ret a => ok a | Fail _ => False | Panic => True end.

Lemma answers_ret {A} (ok : A → Prop) a : ok a → Answers ok (mret a).
Proof. intros H E w o w' [= <- <-]. done. Qed.
Lemma answers_bind {A B} (ok : A → Prop) (Q : B → Prop) (m : M B) (f : B → M A) :
  Answers Q m → (∀ b, Q b → Answers ok (f b)) → Answers ok (m ≫= f).
Proof.
  intros Hm Hf E w o w'. rewrite bind_run. destruct (m E w) as [[b|e|] w1] eqn:Em.
  - apply Hf. exact (Hm _ _ _ _ Em).
  - destruct (Hm _ _ _ _ Em).
  - by intros [= <- <-].
Qed.
Lemma answers_try {B} (m : M B) : Answers (λ _, True) (try m).
Proof. intros E w o w' H. destruct o; [done| |done]. by apply try_not_Fail in H. Qed.
Lemma answers_on_err {A B} (ok : A → Prop) (m : M B) h k :
  (∀ e, Answers ok (h e)) → (∀ b, Answers ok (k b)) → Answers ok (on_err m h k).
Proof.
  intros Hh Hk. unfold on_err. eapply answers_bind; [apply answers_try|]. by intros [e|b] _.
Qed.
Lemma answers_weaken {A} (ok ok' : A → Prop) (m : M A) : Answers ok m → (∀ a, ok a → ok' a) → Answers ok' m.
Proof. intros Hm Hw E w o w' H. specialize (Hm _ _ _ _ H). destruct o; auto. Qed.
Lemma answers_deref {A} (p : option A) : Answers (λ _, True) (deref p).
Proof. intros E w o w'. destruct p; by intros [= <- <-]. Qed.
Lemma answers_reading {A} (f : Env → nat → A) : Answers (λ _, True) (reading f).
Proof. intros E w o w' [= <- <-]. done. Qed.
Lemma answers_mapM {A B} (f : A → M B) l : (∀ a, Answers (λ _, True) (f a)) → Answers (λ _, True) (mapM f l).
Proof.
  intros Hf. induction l as [|a l IH]; cbn [mapM]; [by apply answers_ret|].
  eapply answers_bind; [apply Hf|]. intros b _. eapply answers_bind; [exact IH|]. intros bs _. by apply answers_ret.
Qed.

(** Take a handler apart, leaving what it answers. *)
Ltac answers_step :=
  first
  [ apply answers_on_err; intros
  | eapply answers_bind; [solve [apply answers_deref | apply answers_try | apply answers_reading
                                | apply answers_mapM; intros; repeat answers_step; done]|intros ? _]
  | apply answers_ret
  | match goal with |- Answers _ (match ?x with _ => _ end) => destruct x eqn:? end ].

Lemma answers_toAPIEvent inc isAuth : Answers (λ _, True) (toAPIEvent inc isAuth).
Proof. unfold toAPIEvent. repeat answers_step; done. Qed.

(** ** What an API handler answers *)

(** The errors written for clients. *)
Definition client_err (e : err) : Prop := match e with EApi _ | EMsg _ => True | _ => False end.

(** A status of the API; 500 always with the same body, and no error of the storage. *)
Definition api_reply (r : Handlers.Response) : Prop :=
  r_status r ∈ [200; 201; 400; 401; 403; 404; 409; 500]
  ∧ (r_status r = 500 → r_body r = BError (EApi ErrInternalError))
  ∧ (∀ e, r_body r = BError e → client_err e ∧ r_status r ∉ [200; 201]).

Lemma api_reply_ok s b : s ∈ [200; 201; 409] → (∀ e, b ≠ BError e) → api_reply (mkResponse s b).
Proof. intros Hs Hb. split_and!; cbn; [set_solver|set_solver|]. intros e He. by destruct (Hb e). Qed.
Lemma api_reply_err s e : s ∈ [400; 401; 403; 404; 409] → client_err e → api_reply (mkResponse s (BError e)).
Proof. intros Hs He. split_and!; cbn; [set_solver|set_solver|]. intros e' [= <-]. split; [done|set_solver]. Qed.
Lemma api_reply_500 : api_reply (mkResponse 500 (BError (EApi ErrInternalError))).
Proof. split_and!; cbn; [set_solver|done|]. intros e' [= <-]. split; [done|set_solver]. Qed.

Ltac reply_done :=
  first [ exact api_reply_500
        | apply api_reply_ok; [set_solver | intros ? ?; discriminate]
        | apply api_reply_err; [set_solver | done] ].

(** [answers_step], with the response of each leaf. *)
Ltac replies :=
  unfold OK, RaiseInternalErr, RaiseBadRequestErr, RaiseNotAuthorizedErr, RaiseForbiddenErr,
    RaiseStatusNotFoundErr, RaiseConflictErr in *;
  repeat first
    [ eapply answers_bind; [solve [apply answers_toAPIEvent | apply answers_mapM; intros; apply answers_toAPIEvent]|intros ? _]
    | answers_step ];
  try reply_done.

Lemma replies_GetIncidents svc c q : Answers api_reply (GetIncidentsHandler svc c q).
Proof. unfold GetIncidentsHandler. replies. Qed.
Lemma replies_GetEvents svc c q : Answers api_reply (GetEventsHandler svc c q).
Proof. unfold GetEventsHandler. replies. Qed.
Lemma replies_GetIncident svc c id : Answers api_reply (GetIncidentHandler svc c id).
Proof. unfold GetIncidentHandler. replies. Qed.
Lemma replies_GetComponents : Answers api_reply GetComponentsHandler.
Proof. unfold GetComponentsHandler. replies. Qed.
Lemma replies_GetComponent id : Answers api_reply (GetComponentHandler id).
Proof. unfold GetComponentHandler. replies. Qed.
Lemma replies_PostComponent b : Answers api_reply (PostComponentHandler b).
Proof. unfold PostComponentHandler. replies. Qed.
Lemma replies_PatchUpdate c id upd text : Answers api_reply (PatchEventUpdateTextHandler c id upd text).
Proof. unfold PatchEventUpdateTextHandler. replies. Qed.
Lemma replies_Stats c : Answers api_reply (GetNotificationStatsHandler c).
Proof. unfold GetNotificationStatsHandler, requireAdmin. replies. Qed.
Lemma replies_Failed c st l : Answers api_reply (GetFailedNotificationsHandler c st l).
Proof. unfold GetFailedNotificationsHandler, requireAdmin. replies. Qed.

Lemma answers_Notify pub : Answers (λ _, True) (Notify pub).
Proof. unfold Notify, wake. intros E w o w'. destruct pub as [p|]; [destruct (_ || _)|]; by intros [= <- <-]. Qed.

Lemma replies_Redrive pub c ids : Answers api_reply (RedriveNotificationsHandler pub c ids).
Proof.
  unfold RedriveNotificationsHandler, requireAdmin. replies.
  eapply answers_bind; [|intros ? _; replies]. destruct (_ <? _); [apply answers_Notify|by apply answers_ret].
Qed.

(** A step that either refuses with a response or goes on. *)
Definition refusal {A} (p : Handlers.Response + A) : Prop := match p with inl r => api_reply r | inr _ => True end.

Lemma refuses_inl {A} r : api_reply r → Answers refusal (mret (inl r : Handlers.Response + A)).
Proof. intros H. by apply answers_ret. Qed.

Lemma refuses_contact c d pub r : resolveContactEmail c d pub = inl r → api_reply r.
Proof. unfold resolveContactEmail. repeat case_match; try done; intros [= <-]; reply_done. Qed.

Lemma refuses_create PA c d pub : Answers refusal (prepareIncidentCreate PA c d pub).
Proof.
  unfold prepareIncidentCreate, validateEventCreation, validateEventCreationTimes, now.
  eapply (answers_bind _ (λ _, True)).
  { repeat first [ eapply (answers_bind _ (λ _, True)); [|intros ? _] | answers_step ]; try done;
      try apply answers_deref; try apply answers_reading. }
  intros v _. repeat answers_step; try done; cbn [refusal]; try reply_done.
  by eapply refuses_contact.
Qed.

Lemma replies_PostIncident PA pub c b : Answers api_reply (PostIncidentHandler PA pub c b).
Proof.
  unfold PostIncidentHandler. destruct b as [d|]; [|replies]. destruct (negb _); [replies|].
  eapply answers_bind; [apply refuses_create|]. intros [r|d'] Hr; [by apply answers_ret|].
  unfold RaiseBadRequestErr, RaiseInternalErr. apply answers_on_err.
  - intros e. destruct (decide _) as [->|]; apply answers_ret; reply_done.
  - intros res. apply answers_ret. destruct (existsb _ _); reply_done.
Qed.

Lemma components_by_id_err ids stored e : components_by_id ids stored = inl e → client_err e.
Proof.
  revert e. induction ids as [|id ids IH]; intros e; cbn [components_by_id]; [done|].
  destruct (last _); [|by intros [= <-]]. destruct (components_by_id ids stored); [|done].
  intros [= <-]. by apply IH.
Qed.
Lemma getComponentsToExtract_err ids stored e : getComponentsToExtract ids stored = inl e → client_err e.
Proof.
  unfold getComponentsToExtract. destruct (components_by_id ids stored) eqn:H.
  - intros [= <-]. by eapply components_by_id_err.
  - case_bool_decide; [|done]. by intros [= <-].
Qed.

Lemma replies_Extract c b : Answers api_reply (PostIncidentExtractHandler c b).
Proof.
  unfold PostIncidentExtractHandler. replies. apply api_reply_err; [set_solver|].
  by eapply getComponentsToExtract_err.
Qed.

Lemma refuses_patch c stored d impact r : prepareIncidentPatch c stored d impact = Some r → api_reply r.
Proof.
  unfold prepareIncidentPatch, allowMaintenancePatch, allowMaintenancePatchAsCreator.
  repeat case_match; try done; intros [= <-]; reply_done.
Qed.

Lemma refuses_persist pub stored old u : Answers refusal (persistIncidentPatch pub stored old u).
Proof.
  unfold persistIncidentPatch, RaiseConflictErr, RaiseInternalErr. apply answers_on_err.
  - intros e. destruct (decide _); (eapply (answers_bind _ api_reply); [apply answers_ret; reply_done|]);
      intros r Hr; by apply answers_ret.
  - intros _. eapply (answers_bind _ (λ _, True)); [|intros ? _; by apply answers_ret].
    destruct (_ && _); [apply answers_Notify|by apply answers_ret].
Qed.

Lemma replies_Patch pub c b : Answers api_reply (PatchIncidentHandler pub c b).
Proof.
  unfold PatchIncidentHandler. replies; [by eapply refuses_patch|].
  eapply answers_bind; [apply refuses_persist|]. intros [r|u] Hr; [by apply answers_ret|]. replies.
Qed.

(** ** Middlewares and routes *)

Section Chains.
Context (v : string → option Claims) (svc : Service) (k : Ctx → M Handlers.Response)
  (Hk : ∀ c, Answers api_reply (k c)).

Lemma replies_auth hd c : Answers api_reply (AuthenticationMW v hd k c).
Proof using Hk. unfold AuthenticationMW. replies. apply Hk. Qed.
Lemma replies_claims hd c : Answers api_reply (SetJWTClaims v hd k c).
Proof using Hk. unfold SetJWTClaims. replies; apply Hk. Qed.
Lemma replies_rbac c : Answers api_reply (RBACAuthorizationMW svc k c).
Proof using Hk. unfold RBACAuthorizationMW. replies. apply Hk. Qed.
Lemma replies_scope c : Answers api_reply (DenyReporterScopeMW svc k c).
Proof using Hk. unfold DenyReporterScopeMW. replies. apply Hk. Qed.
Lemma replies_exists id c : Answers api_reply (CheckEventExistenceMW id k c).
Proof using Hk. unfold CheckEventExistenceMW. replies. apply Hk. Qed.
Lemma replies_comps ids c : Answers api_reply (ValidateComponentsMW ids k c).
Proof using Hk. unfold ValidateComponentsMW. replies. apply Hk. Qed.
End Chains.

Create HintDb replies.
#[export] Hint Resolve replies_auth replies_claims replies_rbac replies_scope replies_exists replies_comps
  replies_GetIncidents replies_GetEvents replies_GetIncident replies_GetComponents replies_GetComponent
  replies_PostComponent replies_PatchUpdate replies_Stats replies_Failed replies_Redrive replies_PostIncident
  replies_Extract replies_Patch : replies.

(** A reply of a route: no error of the storage, and 5xx without detail. *)
Definition route_reply (x : HttpReply) : Prop :=
  match x with
  | HApi r => api_reply r
  | HFeed (FeedError s msg) => s ∈ [400; 404; 500] ∧ (s = 500 → msg = "internal server error"%string)
  | HStatus s => s ∈ [200; 500; 503]
  | HText s _ _ => s = 200
  | HRedirect _ | HStatic _ => False
  | HFeed (FeedOK _) | HAvailability _ | HDocument _ | HAsset _ _ => True
  end.

Lemma answers_foldM {A B} (f : B → A → M B) b l :
  (∀ b a, Answers (λ _, True) (f b a)) → Answers (λ _, True) (foldM f b l).
Proof.
  intros Hf. revert b. induction l as [|a l IH]; intros b; cbn [foldM]; [by apply answers_ret|].
  eapply answers_bind; [apply Hf|]. intros b' _. apply IH.
Qed.

Lemma answers_availability : Answers (λ _, True) GetComponentsAvailabilityHandler.
Proof.
  unfold GetComponentsAvailabilityHandler. repeat answers_step; [done|].
  eapply (answers_bind _ (λ _, True)); [|intros; by apply answers_ret]. apply answers_mapM. intros ci.
  eapply (answers_bind _ (λ _, True)).
  { apply answers_mapM. intros inc. eapply answers_bind; [apply answers_deref|]. intros. apply answers_deref. }
  intros _ _. eapply (answers_bind _ (λ _, True)); [|intros; by apply answers_ret].
  unfold calculateAvailability. destruct ci.2; [by apply answers_ret|]. unfold now.
  eapply answers_bind; [apply answers_reading|]. intros n _.
  eapply (answers_bind _ (λ _, True)); [|intros; by apply answers_ret]. apply answers_foldM. intros m inc.
  unfold incident_downtime. repeat answers_step; done.
Qed.

Lemma answers_createFeedItems i base : Answers (λ _, True) (createFeedItems i base).
Proof.
  unfold createFeedItems, createMaintenanceFeedItems, createIncidentFeedItems, maintenance_item.
  repeat answers_step; done.
Qed.
Lemma answers_createFeedItem i base : Answers (λ _, True) (createFeedItem i base).
Proof.
  unfold createFeedItem, createFeedContent. repeat answers_step.
  eapply (answers_bind _ (λ _, True)); [|intros; by apply answers_ret]. repeat answers_step; done.
Qed.

Section Feeds.
Context (ToRss : Feed → bool).
Notation feed_ok := (λ f, route_reply (HFeed f)).

Lemma check_params_reply r x : check_params r = Some x → feed_ok x.
Proof. unfold check_params. repeat case_match; try done; intros [= <-]; cbn; (split; [set_solver|done]). Qed.
Lemma feed_error_reply r e : feed_ok (feed_error r e).
Proof. unfold feed_error. destruct (_ && _); cbn; (split; [set_solver|done]). Qed.
Lemma render_reply f : Answers feed_ok (render ToRss f).
Proof. unfold render. apply answers_ret. destruct (ToRss f); [done|]. cbn. split; [set_solver|done]. Qed.

Lemma feed_run {A} (r : RssRequest) (load : M (list Incident)) (one : Incident → M A)
    (sort : list Incident → list Incident) (build : Z → list A → Feed) :
  (∀ i, Answers (λ _, True) (one i)) →
  Answers feed_ok (match check_params r with
    | Some reply => mret reply
    | None => res ← try load;
      match res with
      | inl e => mret (feed_error r e)
      | inr l => created ← now; items ← mapM one (sort l); render ToRss (build created items)
      end
    end).
Proof.
  intros Hone. destruct (check_params r) eqn:Hc; [apply answers_ret; by eapply check_params_reply|].
  eapply answers_bind; [apply answers_try|]. intros [e|l] _; [apply answers_ret, feed_error_reply|].
  eapply answers_bind; [apply answers_reading|]. intros n _.
  eapply answers_bind; [by apply answers_mapM|]. intros items _. apply render_reply.
Qed.

Lemma replies_rss r : Answers feed_ok (HandleRSS ToRss r).
Proof.
  exact (feed_run r (getEvents (rr_mt r) (rr_srv r)) (λ e, createFeedItems e (base_url r)) sortEvents
    (λ created items, let title := prepareFeedTitle (rr_mt r) (rr_srv r) in
       mkFeed title (self_link r) (title +:+ " - Incidents") created (concat items))
    (λ i, answers_createFeedItems i _)).
Qed.
Lemma replies_legacy_rss r : Answers feed_ok (LegacyHandleRSS ToRss r).
Proof.
  exact (feed_run r (getIncidents (rr_mt r) (rr_srv r)) (λ i, createFeedItem i (base_url r)) sortIncidents
    (λ created items, let title := prepareTitle (rr_mt r) (rr_srv r) in
       mkFeed title (self_link r) (title +:+ " - Incidents") created items)
    (λ i, answers_createFeedItem i _)).
Qed.
End Feeds.

Lemma replies_api (m : M Handlers.Response) : Answers api_reply m →
  Answers route_reply (x ← m; mret (HApi x)).
Proof. intros Hm. eapply answers_bind; [exact Hm|]. intros x Hx. by apply answers_ret. Qed.

(** Every route answers. *)
Lemma run_route_replies a ToRss files r route : Answers route_reply (run_route a ToRss files r route).
Proof.
  destruct route; cbn [run_route];
    try (apply replies_api; unfold post_component, get_incidents, post_incident, get_events, post_event, get_event,
           patch_event, extract_event, patch_update, get_stats, get_failed, redrive; eauto 12 with replies).
  - apply answers_ret. cbn. set_solver.
  - unfold readinessHandler. eapply answers_bind; [apply answers_try|]. intros x _. apply answers_ret.
    destruct x; cbn; set_solver.
  - eapply answers_bind; [apply answers_availability|]. intros [l|] _; [by apply answers_ret|].
    apply replies_api, answers_ret, api_reply_500.
  - eapply answers_bind; [apply replies_rss|]. intros x Hx. by apply answers_ret.
  - eapply answers_bind; [apply replies_legacy_rss|]. intros x Hx. by apply answers_ret.
  - by apply answers_ret.
  - apply answers_ret. unfold swaggerUIHandler. by destruct (_ == _).
Qed.

(** ** What a route can change *)

(** Whether the chain of a route ends in a handler that writes. *)
Definition writes (route : Route) : bool :=
  match route with
  | PostComponent | PostIncident | PostEvent | PatchEvent _ | ExtractEvent _ | PatchUpdate _ _
  | NotificationsRedrive => true
  | _ => false
  end.

Lemma ro_availability : ReadOnly GetComponentsAvailabilityHandler.
Proof.
  intros P. unfold GetComponentsAvailabilityHandler, GetComponentsWithIncidents, calculateAvailability,
    incident_downtime. pres.
Qed.
Lemma ro_rss ToRss r : ReadOnly (HandleRSS ToRss r).
Proof. intros P. unfold HandleRSS, render. pres. Qed.
Lemma ro_legacy_rss ToRss r : ReadOnly (LegacyHandleRSS ToRss r).
Proof. intros P. unfold LegacyHandleRSS, getIncidents, render. pres. Qed.

(** A chain of reads, with its refusals. *)
Ltac reads :=
  unfold AuthenticationMW, SetJWTClaims, RBACAuthorizationMW, requireAdmin, on_err, OK, RaiseInternalErr,
    RaiseBadRequestErr, RaiseNotAuthorizedErr, RaiseForbiddenErr, RaiseStatusNotFoundErr;
  pres.

Section Reads.
Context (v : string → option Claims) (svc : Service) (P : Tables → Prop).
Notation ro := (Preserves (on_tab P)).

Lemma ro_toAPIEvent inc isAuth : ro (toAPIEvent inc isAuth).
Proof. unfold toAPIEvent. destruct (mapEventUpdates _ _ _ _ _). pres. Qed.
Local Hint Resolve ro_toAPIEvent : sd.

Lemma ro_events hd q : ro (get_events v svc hd q).
Proof. unfold get_events, GetEventsHandler. reads. Qed.
Lemma ro_incidents hd q : ro (get_incidents v svc hd q).
Proof. unfold get_incidents, GetIncidentsHandler. reads. Qed.
Lemma ro_event hd id : ro (get_event v svc hd id).
Proof. unfold get_event, GetIncidentHandler. reads. Qed.
Lemma ro_components : ro GetComponentsHandler.
Proof. unfold GetComponentsHandler, GetComponentsWithValues. reads. Qed.
Lemma ro_component id : ro (GetComponentHandler id).
Proof. unfold GetComponentHandler. reads. Qed.
Lemma ro_stats hd : ro (get_stats v svc hd).
Proof. unfold get_stats, GetNotificationStatsHandler, GetNotificationStats. reads. Qed.
Lemma ro_failed hd st l : ro (get_failed v svc hd st l).
Proof. unfold get_failed, GetFailedNotificationsHandler, ListNotificationsByStatus. reads. Qed.
End Reads.

Lemma ro_api P (m : M Handlers.Response) : Preserves (on_tab P) m →
  Preserves (on_tab P) (x ← m; mret (HApi x)).
Proof. intros H. pres. Qed.

#[export] Hint Resolve ro_events ro_incidents ro_event ro_components ro_component ro_stats ro_failed : replies.

Lemma run_route_reads a ToRss files r route : writes route = false →
  ReadOnly (run_route a ToRss files r route).
Proof.
  intros Hw P. destruct route; try done; cbn [run_route]; try (apply ro_api; eauto with replies); try apply _.
  - pose proof ro_availability. unfold RaiseInternalErr. pres.
  - pose proof ro_rss. pres.
  - pose proof ro_legacy_rss. pres.
Qed.

(** ** Who can change something *)

#[local] Instance ro_try {A} (m : M A) : ReadOnly m → ReadOnly (try m).
Proof. intros H P. pres. Qed.

(** The run of a chain that changed the tables. *)
Definition changed (m : M Handlers.Response) (E : Env) (w w' : World) : Prop :=
  ∃ o, m E w = (o, w') ∧ w_tab w' ≠ w_tab w.

Section Changed.
Context (v : string → option Claims) (svc : Service).
Implicit Types k : Ctx → M Handlers.Response.

Lemma changed_auth hd k c E w w' : changed (AuthenticationMW v hd k c) E w w' →
  hd ≠ ""%string ∧ ∃ cl c', v (TrimPrefix hd "Bearer ") = Some cl ∧ c_roles c' = Some (cl_Roles cl)
    ∧ changed (k c') E w w'.
Proof.
  intros (o & H & Hne). unfold AuthenticationMW, authenticate in H.
  destruct (hd == _) eqn:Hh; bool_facts; [by injection H as <- <-|].
  destruct (v _) as [cl|] eqn:Hv; [|by injection H as <- <-].
  split; [done|]. exists cl. match type of H with k ?x E w = _ => exists x end.
  split_and!; [done|done|by exists o].
Qed.

Lemma changed_rbac roles k c E w w' : c_roles c = Some roles → changed (RBACAuthorizationMW svc k c) E w w' →
  ResolveRole svc roles ≠ NoRole ∧ ∃ c', c_roles c' = Some roles
    ∧ c_role c' = Some (ResolveRole svc roles) ∧ changed (k c') E w w'.
Proof.
  intros Hc (o & H & Hne). unfold RBACAuthorizationMW in H. rewrite Hc in H.
  destruct (HasAuthorizedRole svc roles) eqn:Ha; [|by injection H as <- <-].
  apply HasAuthorizedRole_spec in Ha. rewrite <- ResolveRole_max_role in Ha. split; [done|].
  cbn [negb] in H. match type of H with k ?x E w = _ => exists x end. split_and!; [done|done|by exists o].
Qed.

Lemma changed_scope roles k c E w w' : c_roles c = Some roles → changed (DenyReporterScopeMW svc k c) E w w' →
  ResolveRole svc roles ≠ Reporter ∧ changed (k c) E w w'.
Proof.
  intros Hc (o & H & Hne). unfold DenyReporterScopeMW, resolveCallerRole in H. rewrite Hc in H.
  unfold IsReporter in H. destruct (_ == Reporter) eqn:Hr; bool_facts; [by injection H as <- <-|].
  split; [done|by exists o].
Qed.

Lemma changed_exists id k c E w w' : changed (CheckEventExistenceMW id k c) E w w' →
  ∃ c' w1, c_role c' = c_role c ∧ w_tab w1 = w_tab w ∧ changed (k c') E w1 w'.
Proof.
  intros (o & H & Hne). destruct id as [id|]; [|by injection H as <- <-].
  cbn [CheckEventExistenceMW] in H. unfold on_err, RaiseStatusNotFoundErr, RaiseInternalErr in H.
  rewrite bind_run in H.
  destruct (try (GetIncident id) E w) as [[[e|ev]|e|] w1] eqn:Ht;
    pose proof (ReadOnly_tab (try (GetIncident id)) _ _ _ _ Ht) as Hw1.
  - destruct (decide _); injection H as <- <-; done.
  - match type of H with k ?x E w1 = _ => exists x, w1 end.
    split_and!; [done|done|]. exists o. by rewrite Hw1.
  - by injection H as <- <-.
  - by injection H as <- <-.
Qed.

Lemma changed_comps ids k c E w w' : changed (ValidateComponentsMW ids k c) E w w' →
  ∃ w1, w_tab w1 = w_tab w ∧ changed (k c) E w1 w'.
Proof.
  intros (o & H & Hne). destruct ids as [[|i ids]|]; [by injection H as <- <-| |by injection H as <- <-].
  cbn [ValidateComponentsMW] in H. unfold on_err, RaiseBadRequestErr, RaiseInternalErr in H.
  rewrite bind_run in H.
  destruct (try GetComponentsAsMap E w) as [[[e|m]|e|] w1] eqn:Ht;
    pose proof (ReadOnly_tab (try GetComponentsAsMap) _ _ _ _ Ht) as Hw1;
    [by injection H as <- <-| |by injection H as <- <-..].
  destruct (head _); [by injection H as <- <-|]. exists w1. split; [done|]. exists o. by rewrite Hw1.
Qed.

Lemma changed_extract c b E w w' : changed (PostIncidentExtractHandler c b) E w w' →
  ∃ role, c_role c = Some role ∧ CanApprove role = true.
Proof.
  intros (o & H & Hne). unfold PostIncidentExtractHandler, RaiseForbiddenErr in H.
  destruct (c_event c); [|by injection H as <- <-]. destruct (c_role c) as [role|]; [|by injection H as <- <-].
  destruct (CanApprove role) eqn:Hr; [eauto|by injection H as <- <-].
Qed.

Lemma changed_redrive pub c ids E w w' : changed (RedriveNotificationsHandler pub c ids) E w w' →
  c_role c = Some Admin.
Proof.
  intros (o & H & Hne). unfold RedriveNotificationsHandler, requireAdmin, RaiseForbiddenErr in H.
  destruct (c_role c) as [role|]; [|by injection H as <- <-].
  destruct (role == Admin) eqn:Hr; bool_facts; [by subst|by injection H as <- <-].
Qed.
End Changed.

(** The caller a change of the tables needs, by route. *)
Definition may_write (svc : Service) (roles : list string) (route : Route) : Prop :=
  let role := ResolveRole svc roles in
  match route with
  | PostEvent => role ≠ NoRole
  | PostComponent => role ≠ Reporter
  | PostIncident | PatchEvent _ | PatchUpdate _ _ => role ≠ NoRole ∧ role ≠ Reporter
  | ExtractEvent _ => CanApprove role = true
  | NotificationsRedrive => role = Admin
  | _ => False
  end.

Lemma changed_api (m : M Handlers.Response) E w x w' : (x0 ← m; mret (HApi x0) : M HttpReply) E w = (x, w') →
  w_tab w' ≠ w_tab w → changed m E w w'.
Proof.
  rewrite bind_run. destruct (m E w) as [[r|e|] w1] eqn:Hm; intros [= <- <-] Hne; unfold changed; eauto.
Qed.

Lemma run_route_guarded a ToRss files r route E w o w' :
  run_route a ToRss files r route E w = (o, w') → w_tab w' ≠ w_tab w →
  h_authorization r ≠ ""%string
  ∧ ∃ cl, dp_Verify (ap_deployment a) (TrimPrefix (h_authorization r) "Bearer ") = Some cl
    ∧ may_write (dp_rbac (ap_deployment a)) (cl_Roles cl) route.
Proof.
  intros H Hne. destruct (writes route) eqn:Hw.
  2: { pose proof (run_route_reads a ToRss files r route Hw) as Hro. by apply ReadOnly_tab in H. }
  destruct route; try done; cbn [run_route] in H; apply changed_api in H; try done;
    apply changed_auth in H as (Hh & cl & c1 & Hv & Hr1 & H); (split; [done|]); exists cl; (split; [done|]);
    cbn [may_write].
  - by apply (changed_scope _ _ _ _ _ _ _ Hr1) in H as [? _].
  - apply (changed_rbac _ _ _ _ _ _ _ Hr1) in H as (? & c2 & Hr2 & _ & H).
    by apply (changed_scope _ _ _ _ _ _ _ Hr2) in H as [? _].
  - by apply (changed_rbac _ _ _ _ _ _ _ Hr1) in H as (? & _).
  - apply (changed_rbac _ _ _ _ _ _ _ Hr1) in H as (? & c2 & Hr2 & _ & H).
    by apply (changed_scope _ _ _ _ _ _ _ Hr2) in H as [? _].
  - apply (changed_rbac _ _ _ _ _ _ _ Hr1) in H as (? & c2 & Hr2 & Hrole & H).
    apply (changed_scope _ _ _ _ _ _ _ Hr2) in H as [_ H].
    apply changed_exists in H as (c3 & w1 & Hc3 & _ & H). apply changed_comps in H as (w2 & _ & H).
    apply changed_extract in H as (role & Hrole' & ?). congruence.
  - apply (changed_rbac _ _ _ _ _ _ _ Hr1) in H as (? & c2 & Hr2 & _ & H).
    by apply (changed_scope _ _ _ _ _ _ _ Hr2) in H as [? _].
  - apply (changed_rbac _ _ _ _ _ _ _ Hr1) in H as (? & c2 & Hr2 & Hrole & H).
    apply changed_redrive in H. congruence.
Qed.

(** A route comes from an entry of the table with the request's method. *)
Lemma find_route_Some method path table route : find_route method path table = Some route →
  ∃ pat f ps, (method, pat, f) ∈ table ∧ f ps = Some route.
Proof.
  induction table as [|[[m pat] f] table IH]; cbn [find_route]; [done|].
  assert (find_route method path table = Some route → ∃ pat' f' ps, (method, pat', f') ∈ (m, pat, f) :: table
    ∧ f' ps = Some route) as Hrest.
  { intros (pat' & f' & ps & ? & ?)%IH. exists pat', f', ps. split; [by right|done]. }
  destruct (m == method) eqn:Hm; bool_facts; [|done]. subst m.
  destruct (match_segs pat path ≫= f) eqn:Hf; [|done]. intros [= ->].
  apply bind_Some in Hf as (ps & _ & Hf). exists pat, f, ps. split; [left|done].
Qed.

Lemma writes_method method path route : route_of method path = Some route → writes route = true →
  method = "POST"%string ∨ method = "PATCH"%string.
Proof.
  unfold route_of. destruct (segments path) as [segs|]; [|done]. cbn [mbind option_bind].
  intros (pat & f & ps & Hin & Hf)%find_route_Some Hw. unfold routes, event_routes in Hin.
  rewrite !elem_of_app in Hin. repeat rewrite elem_of_cons in Hin. rewrite !elem_of_nil in Hin.
  repeat destruct Hin as [Hin|Hin]; try done; injection Hin as -> -> ->; auto;
    repeat (case_match; try done); by simplify_eq.
Qed.

(** ** Headers *)

(** The names the proxy never forwards and does not set. *)
Definition kept_header (key : string) : Prop :=
  passThroughHeader key = false ∧ key ≠ cacheHeader ∧ CanonicalHeaderKey key = key.

Lemma header_Add_other name value h key : CanonicalHeaderKey name ≠ key → header_Add name value h !! key = h !! key.
Proof. intros H. unfold header_Add. by rewrite lookup_insert_ne. Qed.

Lemma add_values_other name key values : CanonicalHeaderKey name ≠ key → ∀ h : Header,
  foldl (λ dst value, header_Add name value dst) h values !! key = h !! key.
Proof.
  intros Hne. induction values as [|x values IH]; intros h; cbn [foldl]; [done|].
  by rewrite IH, header_Add_other.
Qed.

Lemma copyHeaders_other (dst src : Header) key : (∀ name, is_Some (src !! name) → CanonicalHeaderKey name ≠ key) →
  copyHeaders dst src !! key = dst !! key.
Proof.
  unfold copyHeaders. revert key. induction src as [|name values src Hn Hfst IH] using map_first_key_ind;
    intros key Hsrc; [by rewrite map_fold_empty|].
  rewrite map_fold_insert_first_key by done.
  rewrite add_values_other by (apply Hsrc; rewrite lookup_insert_eq; eauto). apply IH. intros n Hs. apply Hsrc.
  destruct (decide (n = name)) as [->|]; [rewrite lookup_insert_eq; eauto|by rewrite lookup_insert_ne].
Qed.

Lemma responseHeaders_names src name : is_Some (responseHeaders src !! name) → passThroughHeader name = true
  ∧ CanonicalHeaderKey name = name.
Proof.
  unfold responseHeaders. induction src as [|n values src Hn Hfst IH] using map_first_key_ind.
  - rewrite map_fold_empty, lookup_empty. by intros [? ?].
  - rewrite map_fold_insert_first_key by done. destruct (passThroughHeader n) eqn:Hp; [|exact IH].
    destruct (decide (name = CanonicalHeaderKey n)) as [->|Hne]; [|by rewrite lookup_insert_ne].
    intros _. unfold passThroughHeader in *. bool_facts. repeat rewrite elem_of_cons in Hp.
    rewrite elem_of_nil in Hp. repeat destruct Hp as [Hp|Hp]; [rewrite Hp; vm_compute; done..|done].
Qed.

Lemma proxied_header dst src status key : kept_header key →
  header_Set cacheHeader status (copyHeaders dst (responseHeaders src)) !! key = dst !! key.
Proof.
  intros (Hp & Hc & Hcan). unfold header_Set. rewrite lookup_insert_ne by (vm_compute CanonicalHeaderKey; done).
  apply copyHeaders_other. intros name [H1 H2]%responseHeaders_names. rewrite H2. intros ->. congruence.
Qed.

Lemma justified_header p E dst req status h body key : kept_header key →
  justified p E dst req (RWritten status h body) → h !! key = dst !! key.
Proof.
  intros Hk Hj. inversion Hj; subst; [| |by apply proxied_header].
  all: match goal with H : prov _ _ _ _ |- _ =>
         destruct H as (? & ? & ? & ? & ? & ? & _ & _ & _ & _ & _ & _ & ->) end; by apply proxied_header.
Qed.

(** ** The audit trail *)

Module AuditSpec.
Import Audited.

(** The audited run is the run, with a log. *)
Class Erases {A} (mm : Audited A) (m : M A) : Prop := erases : ∀ E w, (mm E w).1 = m E w.

#[global] Instance erases_ret {A} (a : A) : Erases (mret a) (mret a).
Proof. done. Qed.
#[global] Instance erases_lift {A} (m : M A) : Erases (lift m) m.
Proof. done. Qed.
#[global] Instance erases_bind {A B} (mm : Audited A) m (ff : A → Audited B) f :
  Erases mm m → (∀ a, Erases (ff a) (f a)) → Erases (mm ≫= ff) (m ≫= f).
Proof.
  intros Hm Hf E w. specialize (Hm E w). rewrite bind_run. unfold mbind, Audited_bind.
  destruct (mm E w) as [[o w'] l]. cbn [fst] in Hm. rewrite <- Hm. destruct o as [x|e|]; [|done..].
  specialize (Hf x E w'). destruct (ff x E w') as [[o w''] l']. exact Hf.
Qed.
Lemma audit_bind {B} ac re idp u why (k : unit → Audited B) E w :
  (authAudit ac re idp u why ≫= k) E w
  = let '(o, w', l) := k tt E w in (o, w', audit_entry ac re idp u why :: l).
Proof. done. Qed.
(** The token is checked, and its outcome recorded. *)
Lemma authenticate_bind v te c raw {B} (k : option Ctx → Audited B) E w :
  (authenticate v te c raw ≫= k) E w
  = let '(o, w', l) := k (Handlers.authenticate v c raw) E w in
    (o, w', match v raw with
            | None => audit_entry "token_validation" "failure" "" "" (te raw)
            | Some cl => audit_entry "token_validation" "success" (cl_Provider cl) (cl_Username cl) ""
            end :: l).
Proof.
  unfold authenticate, Handlers.authenticate. destruct (v raw) as [cl|]; unfold mbind, Audited_bind, authAudit, mret, Audited_ret.
  - cbn. by destruct (k _ E w) as [[o w'] l].
  - cbn. by destruct (k None E w) as [[o w'] l].
Qed.

(** An entry is invisible. *)
#[global] Instance erases_audit {B} ac re idp u why (k : Audited B) m :
  Erases k m → Erases (_ ← authAudit ac re idp u why; k) m.
Proof. intros Hk E w. specialize (Hk E w). rewrite audit_bind. destruct (k E w) as [[o w'] l]. exact Hk. Qed.

Section Erasure.
Context (v : string → option Claims) (te : string → string) (svc : Service).

#[global] Instance erases_auth hd kk k c : (∀ c, Erases (kk c) (k c)) →
  Erases (AuthenticationMW v te hd kk c) (Handlers.AuthenticationMW v hd k c).
Proof.
  intros Hk. unfold AuthenticationMW, Handlers.AuthenticationMW. destruct (hd == ""%string); [apply _|].
  intros E w. rewrite authenticate_bind. destruct (Handlers.authenticate v c _) as [c'|]; [|done].
  specialize (Hk c' E w). destruct (kk c' E w) as [[o w'] l]. exact Hk.
Qed.
#[global] Instance erases_claims hd kk k c : (∀ c, Erases (kk c) (k c)) →
  Erases (SetJWTClaims v te hd kk c) (Handlers.SetJWTClaims v hd k c).
Proof.
  intros Hk. unfold SetJWTClaims, Handlers.SetJWTClaims. destruct (hd == ""%string) eqn:Hhd; [apply _|].
  pose proof (erases_auth hd kk k c Hk) as H. unfold AuthenticationMW, Handlers.AuthenticationMW in H.
  by rewrite Hhd in H.
Qed.
#[global] Instance erases_rbac kk k c : (∀ c, Erases (kk c) (k c)) →
  Erases (RBACAuthorizationMW svc kk c) (Handlers.RBACAuthorizationMW svc k c).
Proof.
  intros Hk. unfold RBACAuthorizationMW, Handlers.RBACAuthorizationMW. destruct (c_roles c) as [roles|]; [|apply _].
  destruct (negb _); apply _.
Qed.
#[global] Instance erases_scope kk k c : (∀ c, Erases (kk c) (k c)) →
  Erases (DenyReporterScopeMW svc kk c) (Handlers.DenyReporterScopeMW svc k c).
Proof. intros Hk. unfold DenyReporterScopeMW, Handlers.DenyReporterScopeMW. destruct (negb _); apply _. Qed.
End Erasure.

#[global] Instance erases_route a ToRss files te r route :
  Erases (Audited.run_route a ToRss files te r route) (Router.run_route a ToRss files r route).
Proof. destruct route; apply _. Qed.

(** ** What the trail says *)

(** How a route authenticates: with a token, with one if there is one, or not at all. *)
Definition route_auth (route : Route) : option bool :=
  match route with
  | GetIncidents | GetEvents | GetEventByID _ => Some false
  | PostComponent | PostIncident | PostEvent | PatchEvent _ | ExtractEvent _ | PatchUpdate _ _
  | NotificationStats | NotificationsFailed | NotificationsRedrive => Some true
  | _ => None
  end.

(** An authorization entry of a user. *)
Definition about (user : string) (e : log_entry) : Prop :=
  ∃ result why, e = audit_entry "authorization" result "" user why.
Definition refused_reply (resp : Handlers.Response) : Prop := r_status resp = 401 ∨ r_status resp = 403.

(** After authentication: the entries are about the user, and one that warns comes with a
    refusal that has touched nothing. *)
Class Guarded (user : string) (mm : Audited Handlers.Response) : Prop :=
  guarded : ∀ E w o w' l, mm E w = (o, w', l) →
    Forall (about user) l
    ∧ ((∃ e, e ∈ l ∧ lg_level e = LevelWarn) → w' = w ∧ ∃ resp, o = Ret resp ∧ refused_reply resp).

#[global] Instance guarded_lift user m : Guarded user (lift m).
Proof.
  intros E w o w' l. unfold lift. intros [= _ <-]. split; [constructor|]. intros (e & He & _). by apply elem_of_nil in He.
Qed.

Lemma guarded_refuse user result why resp : refused_reply resp →
  Guarded user (_ ← authAudit "authorization" result "" user why; lift (mret resp)).
Proof.
  intros Hr E w o w' l. rewrite audit_bind. unfold lift. intros [= <- <- <-]. split; [repeat constructor; by eexists _, _|].
  intros _. split; [done|]. by exists resp.
Qed.

Lemma guarded_pass user role mm : Guarded user mm →
  Guarded user (_ ← authAudit "authorization" "success" "" user role; mm).
Proof.
  intros Hm E w o w' l. rewrite audit_bind. destruct (mm E w) as [[o1 w1] l1] eqn:H. intros [= -> -> <-].
  destruct (Hm _ _ _ _ _ H) as [Hf Hw]. split; [constructor; [by eexists _, _|done]|].
  intros (e & He & Hlv). apply elem_of_cons in He as [->|He]; [done|]. apply Hw. by exists e.
Qed.

Lemma guarded_rbac svc user kk c : user_of c = user → is_Some (c_roles c) →
  (∀ c', user_of c' = user → is_Some (c_roles c') → Guarded user (kk c')) →
  Guarded user (RBACAuthorizationMW svc kk c).
Proof.
  intros Hu [roles Hr] Hk. unfold RBACAuthorizationMW. rewrite Hr, Hu. destruct (negb _).
  - apply guarded_refuse. by right.
  - apply guarded_pass, Hk; [done|by exists roles].
Qed.

Lemma guarded_scope svc user kk c : user_of c = user → Guarded user (kk c) →
  Guarded user (DenyReporterScopeMW svc kk c).
Proof.
  intros Hu Hk. unfold DenyReporterScopeMW. rewrite Hu. destruct (negb _); [done|]. apply guarded_refuse. by right.
Qed.

(** The trail of an authenticated route. *)
Definition trail (v : string → option Claims) (te : string → string) (hd : string) (hard : bool)
    (w w' : World) (o : outcome HttpReply) (l : list log_entry) : Prop :=
  let token := TrimPrefix hd "Bearer " in
  let refused := w' = w ∧ ∃ resp, o = Ret (HApi resp) ∧ refused_reply resp in
  if hd == ""%string
  then if hard then l = [audit_entry "token_validation" "failure" "" "" "missing_authorization_header"] ∧ refused
       else l = []
  else match v token with
       | None => l = [audit_entry "token_validation" "failure" "" "" (te token)] ∧ refused
       | Some cl => ∃ rest, l = audit_entry "token_validation" "success" (cl_Provider cl) (cl_Username cl) "" :: rest
           ∧ Forall (about (cl_Subject cl)) rest ∧ ((∃ e, e ∈ rest ∧ lg_level e = LevelWarn) → refused)
       end.

Lemma api_bind (mm : Audited Handlers.Response) E w o w' l :
  (x ← mm; mret (HApi x)) E w = (o, w', l) →
  ∃ o1, mm E w = (o1, w', l) ∧ o = match o1 with Ret x => Ret (HApi x) | Fail e => Fail e | Panic => Panic end.
Proof.
  unfold mbind, Audited_bind. destruct (mm E w) as [[[x|e|] w1] l1]; [|intros [= <- <- <-]; by eexists..].
  cbn. rewrite app_nil_r. intros [= <- <- <-]. by eexists.
Qed.

(** The context after authentication names the subject. *)
Lemma authenticate_ctx v raw cl c : v raw = Some cl → c_userID c = None →
  ∃ c', Handlers.authenticate v c raw = Some c' ∧ user_of c' = cl_Subject cl ∧ is_Some (c_roles c').
Proof.
  intros Hv Hu. unfold Handlers.authenticate. rewrite Hv. eexists. split; [done|]. unfold user_of. cbn.
  split; [|by eexists]. destruct (cl_Subject cl == ""%string) eqn:Hs; [|done]. by apply bool_decide_eq_true in Hs as ->.
Qed.

Lemma trail_hard v te hd kk E w o w' l :
  (∀ cl c, user_of c = cl_Subject cl → is_Some (c_roles c) → Guarded (cl_Subject cl) (kk c)) →
  (x ← AuthenticationMW v te hd kk empty_ctx; mret (HApi x)) E w = (o, w', l) → trail v te hd true w w' o l.
Proof.
  intros Hk (o1 & H & ->)%api_bind. unfold trail, AuthenticationMW in *. destruct (hd == ""%string).
  { rewrite audit_bind in H. unfold lift in H. injection H as <- <- <-. split; [done|]. split; [done|].
    eexists. split; [done|by left]. }
  rewrite authenticate_bind in H. destruct (v _) as [cl|] eqn:Hv.
  - destruct (authenticate_ctx v _ cl empty_ctx Hv eq_refl) as (c' & Hc & Hu & Hr). rewrite Hc in H.
    destruct (kk c' E w) as [[o2 w2] l2] eqn:Hrun. injection H as -> -> <-.
    destruct (Hk cl c' Hu Hr _ _ _ _ _ Hrun) as [Hf Hw]. exists l2. split; [done|]. split; [done|].
    intros He. destruct (Hw He) as [-> (resp & -> & Hs)]. split; [done|]. by exists resp.
  - unfold Handlers.authenticate in H. rewrite Hv in H. unfold lift in H. injection H as <- <- <-.
    split; [done|]. split; [done|]. eexists. split; [done|by left].
Qed.

Lemma trail_soft v te hd kk E w o w' l :
  (∀ cl c, Guarded (cl_Subject cl) (kk c)) → (∀ E w, (kk empty_ctx E w).2 = []) →
  (x ← SetJWTClaims v te hd kk empty_ctx; mret (HApi x)) E w = (o, w', l) → trail v te hd false w w' o l.
Proof.
  intros Hk Hnil H. destruct (hd == ""%string) eqn:Hhd.
  - apply api_bind in H as (o1 & H & ->). unfold trail. rewrite Hhd. unfold SetJWTClaims in H. rewrite Hhd in H.
    specialize (Hnil E w). by rewrite H in Hnil.
  - assert (trail v te hd true w w' o l) as Ht.
    { eapply (trail_hard v te hd kk E); [by intros cl c _ _|]. unfold AuthenticationMW. rewrite Hhd.
      unfold SetJWTClaims in H. by rewrite Hhd in H. }
    unfold trail in *. by rewrite Hhd in *.
Qed.

(** Every route keeps its trail; a route that does not authenticate has none. *)
Lemma route_trail a ToRss files te r route E w o w' l :
  Audited.run_route a ToRss files te r route E w = (o, w', l) →
  match route_auth route with
  | None => l = []
  | Some hard => trail (dp_Verify (ap_deployment a)) te (h_authorization r) hard w w' o l
  end.
Proof.
  destruct route; cbn [Audited.run_route route_auth].
  all: try (by intros [= _ <-]).
  all: try (apply trail_soft; [intros; apply _|done]).
  all: apply trail_hard; intros cl c Hu Hr.
  all: repeat first [apply guarded_rbac; [done..|]; intros c' Hu' Hr' | apply guarded_scope; [done|] | apply _].
Qed.

Lemma trail_warns v te hd hard w w' o l : trail v te hd hard w w' o l →
  (∃ e, e ∈ l ∧ lg_level e = LevelWarn) → w' = w ∧ ∃ resp, o = Ret (HApi resp) ∧ refused_reply resp.
Proof.
  unfold trail. destruct (hd == ""%string).
  - destruct hard; [by intros [_ ?]|]. intros -> (e & He & _). by apply elem_of_nil in He.
  - destruct (v _) as [cl|]; [|by intros [_ ?]]. intros (rest & -> & _ & Hw) (e & He & Hlv).
    apply Hw. apply elem_of_cons in He as [->|He]; [done|]. by exists e.
Qed.
End AuditSpec.

(** ** The request log *)

(** No handler fills [c.Errors]: a request answered 4xx leaves no entry, and one answered
    5xx is reported as a recovered panic. *)
Lemma Logger_client_error r status : 400 <= status < 500 → Logger r status [] = [].
Proof.
  intros Hs. unfold Logger. rewrite (proj2 (Z.leb_gt 500 status)), (proj2 (Z.leb_le 400 status)) by lia. done.
Qed.
Lemma Logger_server_error r status : 500 <= status →
  lg_message <$> Logger r status [] = ["panic was recovered, internal server error"%string].
Proof. intros Hs. unfold Logger. by rewrite (proj2 (Z.leb_le 500 status)) by lia. Qed.
