(* ===== verification/Samples.v ===== *)
(** * Concrete inputs

    A small store and environments on which the theorems are instantiated: two
    components, an open incident with both, a planned maintenance, a draft and a
    notification. *)

From S2P Require Import Prelude GoStrings GoTime Errors Event Rbac Models Store Queries Writes Integrity Outbox Notify Api Handlers.
Local Open Scope Z_scope.

(** A clock that stands at [t]; nothing fails, every mail is accepted. *)
Definition env_at (t : Z) : Env :=
  mkEnv (λ _, t) (λ _, false) (λ _, "8f14e45f"%string) (λ _ d, d) (λ _ _ _ _, MailOK) (λ _, false).

(** The same with a database that fails from statement [n] on. *)
Definition env_failing (t : Z) (n : nat) : Env :=
  mkEnv (λ _, t) (λ k, bool_decide (n ≤ k)%nat) (λ _, "8f14e45f"%string) (λ _ d, d)
    (λ _ _ _ _, MailOK) (λ _, false).

Lemma env_at_free t : fault_free (env_at t).
Proof. intros n. reflexivity. Qed.

Definition incident_row (type status : string) (start : Z) (end_ : option Z) (impact version : Z) : IncidentRow :=
  mkIncidentRow "Title" (Some "Text"%string) start end_ impact false type (Some status)
    (Some 10) (Some 10) None (Some "alice"%string) (Some "alice@example.com"%string) version.

Definition status_entry (i : Z) (status : string) : StatusRow :=
  mkStatusRow i 20 "update" status (Some 20) (Some 20) None None None.

Definition sample_outbox : OutboxRow :=
  mkOutboxRow "status_changed" 2 "alice@example.com" ∅ "c1" "2:status_changed:>planned:alice@example.com"
    "pending" 0 None None None None 30 30.

Definition sample_tables : Tables :=
  mkTables
    {[ 1 := incident_row TypeIncident IncidentDetected 100 None 2 1;
       2 := incident_row TypeMaintenance MaintenancePlanned 200 (Some 400) 0 3;
       3 := incident_row TypeMaintenance MaintenancePendingReview 200 (Some 400) 0 1;
       4 := incident_row TypeIncident IncidentDetected 150 None 3 1 ]}
    {[ (1, 1); (1, 2); (2, 1) ]}
    {[ 1 := status_entry 1 IncidentDetected; 2 := status_entry 2 MaintenancePlanned;
       3 := status_entry 3 MaintenancePendingReview; 4 := status_entry 4 IncidentDetected ]}
    {[ 1 := mkComponentRow "Compute" None None None; 2 := mkComponentRow "Storage" None None None ]}
    {[ 1 := mkAttrRow 1 "region" "EU"; 2 := mkAttrRow 2 "region" "EU" ]}
    {[ 1 := sample_outbox ]}.

Definition sample_world : World := mkWorld sample_tables (mkSeqs 5 5 3 3 2) 0 0 false.

(** Check a property of every row of a finite table by computation. *)
Lemma table_forall {A} (P : Z → A → Prop) (m : gmap Z A) :
  Forall (λ kx : Z * A, P kx.1 kx.2) (map_to_list m) → ∀ k x, m !! k = Some x → P k x.
Proof.
  intros H k x Hk. rewrite Forall_forall in H.
  apply (H (k, x)). by apply elem_of_map_to_list.
Qed.

Ltac by_rows := apply table_forall; vm_compute; repeat constructor; try done; try lia.

Lemma sample_wf : wf sample_world.
Proof.
  assert (∀ A (m : gmap Z A) n, (∀ k x, m !! k = Some x → 0 < k < n) → ids_below m n) as Hids
    by (intros A m n H k [x Hx]; eauto).
  constructor.
  - simpl. lia.
  - apply Hids. by_rows.
  - apply Hids. by_rows.
  - apply Hids. by_rows.
  - apply Hids. by_rows.
  - apply Hids. by_rows.
  - intros i c Hic.
    assert (Forall (λ ic : Z * Z, is_Some (t_incident sample_tables !! ic.1)
      ∧ is_Some (t_component sample_tables !! ic.2)) (elements (t_rel sample_tables))) as H
      by (vm_compute; repeat (constructor; [split; eauto|]); constructor).
    rewrite Forall_forall in H. apply (H (i, c)). by apply elem_of_elements.
  - apply (table_forall (λ _ a, is_Some (t_component sample_tables !! ar_component a))).
    vm_compute. repeat (constructor; [eauto|]). constructor.
  - intros k1 k2 a1 a2 H1 H2.
    assert (∀ k a, t_attr sample_tables !! k = Some a → ar_component a = k) as H by by_rows.
    intros Hc _. rewrite <- (H _ _ H1), <- (H _ _ H2). done.
  - intros k1 k2 r1 r2 H1 H2 _.
    assert (∀ k (r : OutboxRow), t_outbox sample_tables !! k = Some r → k = 1) as H by by_rows.
    rewrite (H _ _ H1), (H _ _ H2). done.
  - apply (table_forall (λ _ a, is_Some (t_incident sample_tables !! or_incident a))).
    vm_compute. repeat (constructor; [eauto|]). constructor.
  - by_rows.
  - by_rows.
Qed.

(** Requests on them. *)
Definition sample_patch (s : Status) (version : option Z) : PatchIncidentData :=
  mkPatch None None None "message" s 250 None None "" version.
Definition stored_event (id : Z) : Incident :=
  match t_incident sample_tables !! id with
  | Some r => event_of sample_tables (id, r)
  | None => event_of sample_tables (id, incident_row "" "" 0 None 0 0)
  end.
Definition operator_ctx (ev : option Incident) : Ctx :=
  mkCtx (Some "bob"%string) (Some ["operators"%string]) None (Some Operator) ev.
