(* ===== verification/PropsAccess.v ===== *)
(** * Properties of access control, validation and views

    Role resolution, who may create and change what, what the checks on requests
    guarantee, and what callers see. *)

From S2P Require Import Prelude GoStrings GoTime Errors Event Rbac Json Auth Models Store Queries Writes Integrity WritesSpec Outbox Notify Checker Api Handlers Samples.
Local Open Scope Z_scope.

(** ** Roles *)

(** Resolving a caller's role names yields the highest application role any of
    them grants (the early exit at Admin loses nothing), NoRole exactly when none
    grants one, and [HasAuthorizedRole] decides that case. *)
Theorem resolve_role_maximum (s : Service) (names : list string) :
  (∀ n, n ∈ names → roleForName s (normalizeRoleName n) <= ResolveRole s names)
  ∧ (ResolveRole s names = NoRole
     ∨ ∃ n, n ∈ names ∧ roleForName s (normalizeRoleName n) = ResolveRole s names)
  ∧ (HasAuthorizedRole s names = true ↔ ResolveRole s names ≠ NoRole).
Proof.
  rewrite ResolveRole_max_role. split_and!.
  - intros n Hn. by apply max_role_ge.
  - apply max_role_attained.
  - apply HasAuthorizedRole_spec.
Qed.

(** A role name of the identity provider is matched with or without its leading
    slash against the configured comma-separated lists: a caller holds the Admin role
    iff one of the names, stripped, is an entry of the admin list. *)
Theorem admin_iff_listed (cfg : Rbac.Config) (names : list string) :
  ResolveRole (New cfg) names = Admin ↔
  ∃ n part, n ∈ names ∧ part ∈ Split (Admins cfg) ","
    ∧ role_part part ≠ ""%string ∧ normalizeRoleName n = role_part part.
Proof.
  assert (∀ n, roleForName (New cfg) n = Admin ↔ n ∈ parseRoles (Admins cfg)) as Hadm.
  { intros n. unfold roleForName. simpl. split_ifs; bool_facts; split; intros; done. }
  pose proof (max_role_ge (New cfg) names) as Hge.
  pose proof (max_role_attained (New cfg) names) as Hatt.
  rewrite <- ResolveRole_max_role in Hge, Hatt.
  split.
  - intros Hr. destruct Hatt as [Hno|(n & Hn & Heq)]; [by rewrite Hr in Hno|].
    rewrite Hr in Heq. apply Hadm, elem_of_parseRoles in Heq as (Hne & part & Hpart & Heq).
    exists n, part. rewrite <- Heq. done.
  - intros (n & part & Hn & Hpart & Hne & Heq).
    assert (roleForName (New cfg) (normalizeRoleName n) = Admin) as Ha.
    { apply Hadm, elem_of_parseRoles. rewrite Heq. eauto. }
    specialize (Hge n Hn). rewrite Ha in Hge.
    pose proof (max_role_range (New cfg) names) as Hrange.
    rewrite <- ResolveRole_max_role in Hrange. lia.
Qed.

(** ** Creating events *)

(** What the creation of an event may carry past the checks. *)
Record creation_ok (c : Ctx) (n : Z) (d : IncidentData) : Prop := mk_creation_ok {
  co_role : ∃ role, c_role c = Some role ∧ (role = Reporter → isSystemIncident d = true)
    ∧ (d_Type d = TypeMaintenance → Creator <= role
       ∧ d_Status d = if Operator <=? role then MaintenancePlanned else MaintenancePendingReview);
  co_impact : ∃ impact, d_Impact d = Some impact ∧ type_impact_ok (d_Type d) impact;
  co_incident : d_Type d = TypeIncident → d_EndDate d = None ∧ d_StartDate d <= n;
  co_maintenance : d_Type d = TypeMaintenance →
    ∃ end_, d_EndDate d = Some end_ ∧ d_StartDate d < end_ ∧ d_Description d ≠ ""%string;
  co_size : RuneCountInString (d_Description d) <= maxDescriptionLength ∧ d_Updates d = [] }.

Lemma creation_impact_None type impact :
  validateEventCreationImpact type impact = None ↔ type_impact_ok type impact.
Proof.
  unfold validateEventCreationImpact, type_impact_ok, TypeMaintenance, TypeInformation, TypeIncident.
  repeat case_bool_decide; subst; simpl; intuition (congruence || done).
Qed.

Lemma creation_times_None d E w w' :
  validateEventCreationTimes d E w = (Ret None, w') →
  (d_Type d = TypeIncident → d_EndDate d = None ∧ d_StartDate d <= now_at E (w_tick w))
  ∧ (d_Type d = TypeMaintenance → is_Some (d_EndDate d)).
Proof.
  unfold validateEventCreationTimes. rewrite !bool_decide_decide.
  destruct (decide (d_Type d = TypeIncident)) as [Ht|Ht]; simpl.
  - destruct (decide (is_Some (d_EndDate d))) as [He|He]; [done|].
    rewrite !bind_run. cbn [now reading]. rewrite ret_run.
    destruct (now_at E (w_tick w) <? d_StartDate d) eqn:Hn; [done|]. bool_facts. intros _. split.
    + intros _. split; [|lia]. by apply eq_None_not_Some.
    + intros Hm. by rewrite Ht in Hm.
  - destruct (decide (d_Type d = TypeMaintenance)) as [Hm|Hm]; simpl; [|done].
    destruct (decide (d_EndDate d = None)) as [He|He]; [done|].
    intros _. split; [done|]. intros _. by apply not_eq_None_Some.
Qed.

Lemma validateEventCreation_None d E w w' :
  validateEventCreation d E w = (Ret None, w') →
  RuneCountInString (d_Description d) <= maxDescriptionLength ∧ d_Updates d = []
  ∧ (∃ impact, d_Impact d = Some impact ∧ type_impact_ok (d_Type d) impact)
  ∧ (d_Type d = TypeIncident → d_EndDate d = None ∧ d_StartDate d <= now_at E (w_tick w))
  ∧ (d_Type d = TypeMaintenance → is_Some (d_EndDate d)).
Proof.
  unfold validateEventCreation, validateEventDescription.
  destruct (maxDescriptionLength <? _) eqn:Hlen; [done|]. bool_facts. intros H.
  apply bind_Ret_inv in H as (impact & w1 & Hi & H). apply deref_Ret in Hi as [Hi ->].
  destruct (validateEventCreationImpact _ _) eqn:Himp; [done|].
  apply creation_impact_None in Himp.
  apply bind_Ret_inv in H as ([e|] & w2 & Ht & H); [done|].
  apply creation_times_None in Ht as [Ht1 Ht2].
  destruct (d_Updates d); [|done]. split_and!; eauto.
Qed.

#[global] Instance ro_validateEventCreation d : ReadOnly (validateEventCreation d).
Proof. intros P. unfold validateEventCreation, validateEventCreationTimes. pres. Qed.

(** The data that creation settles: the contact and, for a maintenance, the status. *)
Definition settled (d : IncidentData) (email : string) (s : Status) : IncidentData :=
  set_d_Status (set_d_Contact d email) s.

Lemma settled_id d : settled d (d_ContactEmail d) (d_Status d) = d.
Proof. by destruct d. Qed.

Lemma resolveContactEmail_inr c d pub d1 :
  resolveContactEmail c d pub = inr d1 → ∃ email, d1 = set_d_Contact d email.
Proof.
  unfold resolveContactEmail. destruct (_ == _).
  - destruct (c_email c) as [e|]; intros [= <-]; [eauto|]. exists (d_ContactEmail d). by destruct d.
  - destruct (negb _); [done|]. intros [= <-]. exists (d_ContactEmail d). by destruct d.
Qed.

Lemma createStatus_inr role s :
  resolveMaintenanceCreateStatus role = inr s →
  Creator <= role ∧ s = if Operator <=? role then MaintenancePlanned else MaintenancePendingReview.
Proof.
  unfold resolveMaintenanceCreateStatus. unfold Creator, Operator.
  destruct (30 <=? role) eqn:H1; [intros [= <-]; bool_facts; split; [lia|done]|].
  destruct (10 <=? role) eqn:H2; intros [= <-]. bool_facts. done.
Qed.

(** Data that passes the creation checks has an impact that fits its
    type, an incident has started and has no end, a maintenance has a description and
    ends after it starts, a Reporter only creates system incidents, and a maintenance
    is planned at once for an Operator but awaits review when a Creator submits it;
    the checks change nothing but the contact and the status. *)
Theorem create_checks ParseAddress c d pub E w d' w' :
  prepareIncidentCreate ParseAddress c d pub E w = (Ret (inr d'), w') →
  creation_ok c (now_at E (w_tick w)) d' ∧ w_tab w' = w_tab w
  ∧ ∃ email s, d' = settled d email s.
Proof.
  intros H. unfold prepareIncidentCreate in H.
  apply bind_Ret_inv in H as ([e|] & w1 & Hv & H); [done|].
  pose proof (ReadOnly_tab _ _ _ _ _ Hv) as Hw1.
  apply validateEventCreation_None in Hv as (Hlen & Hupd & Himp & Hinc & Hmnt).
  destruct (c_role c) as [role|] eqn:Hrole; [|done].
  destruct (IsReporter role && _)%bool eqn:Hrep; [done|].
  assert (role = Reporter → isSystemIncident d = true) as Hrep'.
  { intros ->. by destruct (isSystemIncident d). }
  case_bool_decide as Hty.
  - destruct (validateMaintenanceCreation _ _) eqn:Hvm; [done|].
    destruct (resolveContactEmail _ _ _) as [|d1] eqn:Hce; [done|].
    destruct (resolveMaintenanceCreateStatus role) as [|s] eqn:Hst; [done|].
    injection H as <- <-.
    apply resolveContactEmail_inr in Hce as [email ->]. apply createStatus_inr in Hst as [Hcr ->].
    destruct (Hmnt Hty) as [end_ Hend].
    unfold validateMaintenanceCreation in Hvm. rewrite Hend in Hvm.
    split_and!; [|done|by eexists _, _].
    split_ifs_in Hvm; try done. bool_facts.
    constructor; simpl; eauto.
  - injection H as <- <-. split_and!; [|done|].
    + constructor; eauto; [|done]. exists role. split_and!; [done..|]. by intros ?.
    + exists (d_ContactEmail d), (d_Status d). by rewrite settled_id.
Qed.

Definition sample_maintenance : IncidentData :=
  mkIncidentData "Upgrade" "Text" (Some 0) [1] 500 (Some 900) None TypeMaintenance [] "" "" None "".
Definition creator_ctx : Ctx :=
  mkCtx (Some "alice"%string) (Some ["creators"%string]) (Some "alice@example.com"%string) (Some Creator) None.

Lemma create_checks_witness :
  ∃ d', prepareIncidentCreate (λ _, true) creator_ctx sample_maintenance None (env_at 300) sample_world
          = (Ret (inr d'), sample_world)
        ∧ creation_ok creator_ctx 300 d' ∧ d_Status d' = MaintenancePendingReview.
Proof.
  eexists. split; [vm_compute; reflexivity|]. split; [|reflexivity].
  eapply (create_checks (λ _, true) creator_ctx sample_maintenance None (env_at 300) sample_world).
  vm_compute. reflexivity.
Defined.

(** ** Changing events *)

(** A maintenance may be patched by Operators and Admins, and by the Creator who
    submitted it while it awaits review, to keep it in review or to cancel it; every
    other caller and every other transition is refused. *)
Theorem maintenance_patch_iff c role stored d :
  allowMaintenancePatch c role stored d = None ↔
  Operator <= role ∨
  (Creator <= role
   ∧ (∃ u, c_userID c = Some u ∧ inc_CreatedBy stored = Some u)
   ∧ inc_Status stored = MaintenancePendingReview
   ∧ (pd_Status d = MaintenancePendingReview ∨ pd_Status d = MaintenanceCancelled)).
Proof.
  unfold allowMaintenancePatch, allowMaintenancePatchAsCreator.
  destruct (Operator <=? role) eqn:Hop; bool_facts; [by split; auto|].
  destruct (Creator <=? role) eqn:Hcr; bool_facts.
  - destruct (c_userID c) as [u|], (inc_CreatedBy stored) as [o|];
      [|split; [done|intros [?|(_ & (u' & ? & ?) & _)]; [lia|done]]..].
    repeat case_bool_decide; simpl; split; intros Hx; try done;
      try (destruct Hx as [?|(_ & (u' & [= <-] & [= <-]) & ? & [?|?])]; [lia|done..]).
    all: right; split_and!; auto; exists u; by subst.
  - split; [done|]. intros [?|(? & _)]; lia.
Qed.

(** The statuses a patch may set, by the type of the event. *)
Definition status_family (type : string) (s : Status) : bool :=
  if type == TypeInformation then IsInformationStatus s
  else if type == TypeMaintenance then IsMaintenanceStatus s
  else if type == TypeIncident then IsIncidentOpenStatus s || IsIncidentClosedStatus s
  else true.

Lemma effective_impact_None type impact :
  validateEffectiveTypeAndImpact type impact = None ↔ type_impact_ok type impact.
Proof. apply creation_impact_None. Qed.

Lemma statuses_patch_None d stored :
  validateStatusesPatch d stored = None ↔ status_family (inc_Type stored) (pd_Status d) = true.
Proof.
  unfold validateStatusesPatch, status_family, TypeMaintenance, TypeInformation, TypeIncident.
  repeat case_bool_decide; try congruence; simpl;
    destruct (IsInformationStatus (pd_Status d)), (IsMaintenanceStatus (pd_Status d)),
      (IsIncidentOpenStatus (pd_Status d)), (IsIncidentClosedStatus (pd_Status d));
    simpl; split; congruence.
Qed.

Lemma checkPatchData_None d stored impact :
  checkPatchData d stored impact = None →
  (pd_Type d = ""%string ∨ pd_Type d = inc_Type stored)
  ∧ type_impact_ok (inc_Type stored) (default impact (pd_Impact d))
  ∧ status_family (inc_Type stored) (pd_Status d) = true
  ∧ (inc_Type stored = TypeIncident → checkPatchDataForIncident d stored impact = None).
Proof.
  unfold checkPatchData. intros H.
  match type of H with (if ?b then _ else _) = _ => destruct b; [done|] end.
  destruct (_ && _)%bool eqn:Hty; [done|].
  destruct (validateEffectiveTypeAndImpact _ _) eqn:Heff; [done|].
  destruct (validateStatusesPatch _ _) eqn:Hst; [done|].
  apply effective_impact_None in Heff. apply statuses_patch_None in Hst. split_and!; try done.
  - apply andb_false_iff in Hty as [Hty|Hty]; bool_facts; auto.
  - intros Ht. by rewrite bool_decide_true in H.
Qed.

(** What holds of the stored event and survives each assignment holds of the result. *)
Lemma updateFields_ind (P : Incident → Prop) d stored impact :
  (∀ s x, P s → P (set_StartDate s x)) → (∀ s x, P s → P (set_EndDate s x)) →
  (∀ s x, P s → P (set_Text s x)) → (∀ s x, P s → P (set_Description s x)) →
  (∀ s, P s → P (match pd_Impact d with Some i => set_Impact s (Some i) | None => s end)) →
  (∀ s x, P s → P (set_Status s x)) →
  P stored → P (updateFields d stored impact).
Proof.
  intros Hstart Hend Htext Hdesc Himp Hst H. unfold updateFields.
  set (s1 := if (_ || _)%bool then _ else _).
  assert (P s1) as H1.
  { subst s1. destruct (_ || _)%bool; [|done].
    destruct (pd_StartDate d), (pd_EndDate d); auto. }
  clearbody s1. set (s2 := match pd_Title d with Some _ => _ | None => _ end).
  assert (P s2) as H2 by (subst s2; destruct (pd_Title d); auto).
  clearbody s2. set (s3 := match pd_Description d with Some _ => _ | None => _ end).
  assert (P s3) as H3 by (subst s3; destruct (pd_Description d); auto).
  clearbody s3. cbv zeta. split_ifs; auto.
Qed.

Lemma updateFields_frame d stored impact :
  let p := updateFields d stored impact in
  inc_Type p = inc_Type stored ∧ inc_ID p = inc_ID stored ∧ inc_Statuses p = inc_Statuses stored
  ∧ inc_CreatedBy p = inc_CreatedBy stored ∧ inc_Components p = inc_Components stored
  ∧ inc_Impact p = opt_set (pd_Impact d) (inc_Impact stored).
Proof.
  split_and!; try (apply updateFields_ind; intros; try done; by destruct (pd_Impact d)).
  unfold updateFields. destruct (pd_Impact d); simpl; [split_ifs; done|].
  by repeat case_match.
Qed.

(** A patch that passes the checks keeps the type of the event and an impact that
    fits it, sets a status of the type's family, adds exactly one entry to the history,
    which carries the status and the author, and leaves the identity, the creator and
    the components alone. *)
Theorem patch_checks c stored d impact :
  prepareIncidentPatch c stored d impact = None →
  inc_Impact stored = Some impact →
  let p := patched c stored d impact in
  inc_Type p = inc_Type stored ∧ inc_ID p = inc_ID stored
  ∧ (∃ impact', inc_Impact p = Some impact' ∧ type_impact_ok (inc_Type p) impact')
  ∧ inc_Status p = pd_Status d ∧ status_family (inc_Type p) (inc_Status p) = true
  ∧ (∃ s, inc_Statuses p = inc_Statuses stored ++ [s] ∧ st_Status s = pd_Status d
        ∧ st_Text s = pd_Message d ∧ st_Timestamp s = pd_UpdateDate d ∧ st_CreatedBy s = c_userID c
        ∧ st_IncidentID s = inc_ID stored)
  ∧ inc_CreatedBy p = inc_CreatedBy stored ∧ inc_Components p = inc_Components stored.
Proof.
  intros Hp Himp. cbv zeta. unfold prepareIncidentPatch in Hp.
  destruct (checkPatchData d stored impact) eqn:Hc; [done|].
  apply checkPatchData_None in Hc as (_ & Heff & Hst & _). clear Hp.
  destruct (updateFields_frame d stored impact) as (Hty & Hid & Hhist & Hby & Hcomps & Himp').
  unfold patched. set (u := updateFields d stored impact) in *.
  assert (∃ i, inc_Impact u = Some i ∧ type_impact_ok (inc_Type stored) i) as Hi.
  { rewrite Himp', Himp. destruct (pd_Impact d); eauto. }
  destruct (pd_Version d); simpl; rewrite Hty, Hhist, Hby, Hcomps; split_and!; try done;
    eexists; by split_and!.
Qed.

Lemma patch_checks_witness :
  prepareIncidentPatch (operator_ctx None) (stored_event 2) (sample_patch MaintenanceCancelled (Some 3)) 0 = None
  ∧ inc_Type (patched (operator_ctx None) (stored_event 2) (sample_patch MaintenanceCancelled (Some 3)) 0)
    = TypeMaintenance.
Proof.
  split; [vm_compute; reflexivity|].
  destruct (patch_checks (operator_ctx None) (stored_event 2)
    (sample_patch MaintenanceCancelled (Some 3)) 0) as [-> _]; vm_compute; reflexivity.
Defined.

(** ** Who reaches a handler *)

(** The request is answered with an error of that HTTP status before anything is read
    or written. *)
Definition refused (status : Z) (m : M Response) : Prop :=
  ∀ E w, ∃ e, m E w = (Ret (mkResponse status (BError (EApi e))), w).

Section Refused.
Context (Verify : string → option Claims) (svc : Service).

Lemma anonymous_refused k c : refused 401 (AuthenticationMW Verify "" k c).
Proof. intros E w. eexists. reflexivity. Qed.

(** A verified caller whose roles resolve to [role]. *)
Definition caller (header : string) (role : Role) : Prop :=
  header ≠ ""%string ∧
  ∃ cl, Verify (TrimPrefix header "Bearer ") = Some cl ∧ ResolveRole svc (cl_Roles cl) = role.

(** Past the authentication, the continuation sees the caller's roles. *)
Lemma caller_refused status header role k c :
  caller header role →
  (∀ c' roles, c_roles c' = Some roles → ResolveRole svc roles = role → refused status (k c')) →
  refused status (AuthenticationMW Verify header k c).
Proof.
  intros (Hne & cl & Hcl & Hrole) Hk. unfold AuthenticationMW, authenticate.
  rewrite bool_decide_false by done. rewrite Hcl. by apply (Hk _ (cl_Roles cl)).
Qed.

Lemma reporter_denied k c roles :
  c_roles c = Some roles → ResolveRole svc roles = Reporter →
  refused 403 (DenyReporterScopeMW svc k c).
Proof.
  intros Hc Hr E w. unfold DenyReporterScopeMW, resolveCallerRole. rewrite Hc, Hr.
  eexists. reflexivity.
Qed.

Lemma no_role_denied k c roles :
  c_roles c = Some roles → ResolveRole svc roles = NoRole →
  refused 403 (RBACAuthorizationMW svc k c).
Proof.
  intros Hc Hr E w. unfold RBACAuthorizationMW. rewrite Hc.
  destruct (HasAuthorizedRole svc roles) eqn:Ha; [|eexists; reflexivity].
  apply HasAuthorizedRole_spec in Ha. rewrite <- ResolveRole_max_role in Ha. done.
Qed.

Lemma authorized k c roles role : c_roles c = Some roles → ResolveRole svc roles = role →
  role ≠ NoRole →
  RBACAuthorizationMW svc k c
  = k (mkCtx (c_userID c) (c_roles c) (c_email c) (Some role) (c_event c)).
Proof.
  intros Hc Hr Hne. unfold RBACAuthorizationMW. rewrite Hc.
  assert (HasAuthorizedRole svc roles = true) as ->.
  { apply HasAuthorizedRole_spec. rewrite <- ResolveRole_max_role. by rewrite Hr. }
  simpl. by rewrite Hr.
Qed.
End Refused.

(** A request without a token is refused with 401 and one whose token grants no
    role with 403 on every writing route of the events; a Reporter is refused with 403
    by every route but the creation of events, and only Admins re-drive notifications.
    A refused request reads and writes nothing, whatever its body. *)
Theorem writing_routes_guarded Verify ParseAddress svc pub header role :
  caller Verify svc header role →
  let guarded := λ status header, ∀ id updID text body patch ids comps,
    refused status (post_incident Verify ParseAddress svc pub header body)
    ∧ refused status (patch_event Verify svc pub header id patch)
    ∧ refused status (extract_event Verify svc header id ids)
    ∧ refused status (patch_update Verify svc header id updID text)
    ∧ (status = 401 ∨ role = Reporter → refused status (post_component Verify svc header comps))
    ∧ (status = 401 ∨ role = NoRole → refused status (post_event Verify ParseAddress svc pub header body)) in
  guarded 401 ""%string
  ∧ (role = NoRole ∨ role = Reporter → guarded 403 header)
  ∧ (role ≠ Admin → ∀ ids, refused 403 (redrive Verify svc pub header ids)).
Proof.
  intros Hcaller guarded. split_and!.
  - intros id updID text body patch ids comps. split_and!; intros; apply anonymous_refused.
  - intros Hrole id updID text body patch ids comps.
    assert (∀ k, refused 403 (AuthenticationMW Verify header
       (RBACAuthorizationMW svc (DenyReporterScopeMW svc k)) empty_ctx)) as Hdeny.
    { intros k. eapply caller_refused; [done|]. intros c' roles Hc' Hr.
      destruct Hrole as [->| ->]; [by eapply no_role_denied|].
      rewrite (authorized svc _ c' roles Reporter) by done. by eapply reporter_denied. }
    split_and!; try apply Hdeny; intros [?|Hr]; try done.
    + eapply caller_refused; [done|]. intros c' roles Hc' Hr'.
      eapply reporter_denied; [done|]. by subst.
    + eapply caller_refused; [done|]. intros c' roles Hc' Hr'.
      eapply no_role_denied; [done|]. by subst.
  - intros Hne ids. eapply caller_refused; [done|]. intros c' roles Hc' Hr.
    destruct (decide (role = NoRole)) as [->|Hno]; [by eapply no_role_denied|].
    rewrite (authorized svc _ c' roles role) by done. intros E w.
    unfold RedriveNotificationsHandler, requireAdmin. simpl. rewrite bool_decide_false by done.
    eexists. reflexivity.
Qed.

Definition sample_service : Service := New (Rbac.mkConfig "creators" "operators" "admins" "reporters").
Definition sample_Verify (token : string) : option Claims :=
  if token == "reporter-token"%string then Some (mkClaims "rita" "" "" ["/reporters"%string] ProviderZitadel) else None.

Lemma writing_routes_guarded_witness :
  caller sample_Verify sample_service "Bearer reporter-token" Reporter
  ∧ refused 403 (patch_event sample_Verify sample_service None "Bearer reporter-token" (Some 1)
                   (Some (sample_patch IncidentResolved None))).
Proof.
  assert (caller sample_Verify sample_service "Bearer reporter-token" Reporter) as H.
  { split; [done|]. exists (mkClaims "rita" "" "" ["/reporters"%string] ProviderZitadel).
    split; by vm_compute. }
  split; [exact H|].
  destruct (writing_routes_guarded sample_Verify (λ _, true) sample_service None _ _ H) as (_ & Hg & _).
  exact (proj1 (proj2 (Hg (or_intror eq_refl) (Some 1) 0 None None
    (Some (sample_patch IncidentResolved None)) None None))).
Defined.

Lemma check_attr_names_Some l : ∀ seen res, check_attr_names seen l = Some res →
  NoDup seen → NoDup res ∧ res ≡ₚ (ca_Name <$> l) ++ seen.
Proof.
  induction l as [|a l IH]; intros seen res H Hnd; simpl in H; [by injection H as <-|].
  destruct (negb _) eqn:Hav; [done|]. destruct (bool_decide (ca_Name a ∈ seen)) eqn:Hin; [done|].
  bool_facts. destruct (IH _ _ H) as [Hres Hp]; [by constructor|]. split; [done|].
  rewrite Hp, fmap_cons. simpl. by rewrite Permutation_middle.
Qed.

Lemma check_attr_names_ex l : ∀ seen, NoDup ((ca_Name <$> l) ++ seen) →
  (∀ x, x ∈ ca_Name <$> l → x ∈ availableAttrs) → is_Some (check_attr_names seen l).
Proof.
  induction l as [|a l IH]; intros seen Hnd Hav; simpl; [eauto|].
  rewrite fmap_cons in Hnd, Hav. simpl in Hnd. apply NoDup_cons in Hnd as [Hna Hnd].
  rewrite bool_decide_true by (apply Hav; left). simpl.
  rewrite bool_decide_false by set_solver. apply IH; [|set_solver].
  apply NoDup_app in Hnd as (? & Hd & ?). apply NoDup_app. split_and!; [done| |constructor; set_solver].
  intros x Hx Hx2. apply elem_of_cons in Hx2 as [->|Hx2]; [|by eapply Hd]. set_solver.
Qed.

(** The attributes of a new component are accepted exactly when they are the
    three required names, each once, in any order. *)
Theorem component_attrs_iff attrs :
  checkComponentAttrs attrs = None ↔ ca_Name <$> attrs ≡ₚ availableAttrs.
Proof.
  assert (NoDup availableAttrs) as Havail by (apply (bool_decide_unpack _); vm_compute; exact I).
  unfold checkComponentAttrs. split.
  - destruct (negb _) eqn:Hlen; [done|]. bool_facts.
    destruct (check_attr_names [] attrs) as [seen|] eqn:Hc; [|done].
    destruct (forallb _ _) eqn:Hall; [|done]. intros _.
    destruct (check_attr_names_Some _ _ _ Hc) as [Hnd Hp]; [constructor|]. rewrite app_nil_r in Hp.
    rewrite <- Hp. symmetry. apply submseteq_length_Permutation.
    + apply NoDup_submseteq; [done|]. intros x Hx. rewrite forallb_true_iff in Hall.
      specialize (Hall x Hx). by bool_facts.
    + rewrite Hp, length_fmap, Hlen. done.
  - intros Hp. assert (length attrs = 3%nat) as Hlen.
    { rewrite <- (length_fmap ca_Name), Hp. done. }
    rewrite bool_decide_true by done. cbn [negb].
    destruct (check_attr_names_ex attrs []) as [seen Hc].
    { rewrite app_nil_r, Hp. done. }
    { intros x. by rewrite Hp. }
    rewrite Hc. destruct (check_attr_names_Some _ _ _ Hc) as [_ Hps]; [constructor|].
    rewrite app_nil_r in Hps.
    assert (forallb (λ r, bool_decide (r ∈ seen)) availableAttrs = true) as ->; [|done].
    apply forallb_true_iff. intros x Hx. apply bool_decide_eq_true. by rewrite Hps, Hp.
Qed.

(** ** What callers see *)

(** The history rows that become updates of the view. *)
Definition shown (isAuth : bool) (s : IncidentStatus) : bool :=
  (isAuth || negb (isInternalStatus (st_Status s))) && (st_Status s != statusDescription).

Lemma map_update_loop isAuth e ty l : ∀ acc idx desc last,
  let '(updates, idx', _, _) := foldl (map_update isAuth e ty) (acc, idx, desc, last) l in
  ∃ new, updates = acc ++ new
    ∧ ud_ID <$> new = seqZ idx (Z.of_nat (length new))
    ∧ ((λ u, (ud_Text u, ud_Timestamp u)) <$> new)
      = ((λ s, (st_Text s, st_Timestamp s)) <$> filterb (shown isAuth) l)
    ∧ ∀ Q : Status → Prop, Q last →
        (∀ s, s ∈ l → shown isAuth s = true → is_annotation (normalizeStatus (st_Status s) e ty) = false →
           Q (normalizeStatus (st_Status s) e ty)) →
        ∀ u, u ∈ new → Q (ud_Status u).
Proof.
  induction l as [|s l IH]; intros acc idx desc last; simpl.
  - exists []. rewrite app_nil_r. split_and!; try done. intros Q _ _ u Hu. inversion Hu.
  - unfold shown at 1. destruct (negb isAuth && _)%bool eqn:Hint.
    { apply andb_true_iff in Hint as [Ha Hi]. rewrite Hi. destruct isAuth; [done|]. simpl.
      specialize (IH acc idx desc last). destruct (foldl _ _ l) as [[[ups i'] d'] s'].
      destruct IH as (new & ? & ? & ? & HQ). exists new. split_and!; try done.
      intros Q Hl Hs. apply HQ; [done|]. intros s0 Hs0. apply Hs. by right. }
    assert (isAuth || negb (isInternalStatus (st_Status s)) = true)%bool as ->.
    { by destruct isAuth, (isInternalStatus _). }
    destruct (st_Status s == statusDescription) eqn:Hd; simpl.
    { specialize (IH acc idx (st_Text s) last). destruct (foldl _ _ l) as [[[ups i'] d'] s'].
      destruct IH as (new & ? & ? & ? & HQ). exists new. split_and!; try done.
      intros Q Hl Hs. apply HQ; [done|]. intros s0 Hs0. apply Hs. by right. }
    set (st := if is_annotation _ then _ else _).
    specialize (IH (acc ++ [mkUpdateData idx st (st_Text s) (st_Timestamp s)]) (idx + 1) desc st).
    destruct (foldl _ _ l) as [[[ups i'] d'] s'].
    destruct IH as (new & -> & Hid & Htx & HQ).
    exists (mkUpdateData idx st (st_Text s) (st_Timestamp s) :: new). split_and!.
    + by rewrite <- app_assoc.
    + rewrite fmap_cons, Hid. cbn [length]. rewrite (seqZ_cons idx) by lia. cbn [ud_ID].
      f_equal. f_equal; lia.
    + rewrite !fmap_cons. by rewrite Htx.
    + intros Q Hl Hs. assert (Q st) as Hst.
      { subst st. destruct (is_annotation _) eqn:Han; [done|]. apply Hs; [left| |done].
        unfold shown. rewrite Hd. by destruct isAuth, (isInternalStatus _). }
      intros u [->|Hu]%elem_of_cons; [done|].
      revert u Hu. apply HQ; [done|]. intros s0 Hs0. apply Hs. by right.
Qed.

Lemma internal_normalize s e ty :
  isInternalStatus s = false → isInternalStatus (normalizeStatus s e ty) = false.
Proof. unfold normalizeStatus. repeat case_match; by intros. Qed.

(** The updates of a view are numbered from 0 without gaps and carry the texts and
    times of the shown history rows in order; a status shown to a caller without
    extended rights is never an internal review status, and never an annotation such
    as "changed", unless the event's own status is one. *)
Theorem view_updates statuses isAuth evStatus e ty updates description :
  mapEventUpdates statuses isAuth evStatus e ty = (updates, description) →
  ud_ID <$> updates = seqZ 0 (Z.of_nat (length updates))
  ∧ ((λ u, (ud_Text u, ud_Timestamp u)) <$> updates)
    = ((λ s, (st_Text s, st_Timestamp s)) <$> filterb (shown isAuth) statuses)
  ∧ (is_annotation (normalizeStatus evStatus e ty) = false →
     ∀ u, u ∈ updates → is_annotation (ud_Status u) = false)
  ∧ (isAuth = false → isInternalStatus evStatus = false →
     ∀ u, u ∈ updates → isInternalStatus (ud_Status u) = false).
Proof.
  unfold mapEventUpdates.
  pose proof (map_update_loop isAuth e ty statuses [] 0 "" (normalizeStatus evStatus e ty)) as H.
  destruct (foldl _ _ statuses) as [[[ups i'] d'] s']. intros [= <- <-].
  destruct H as (new & -> & Hid & Htx & HQ). cbn [app]. split_and!; [done|done| |].
  - intros Hev u Hu. revert u Hu. apply (HQ (λ s, is_annotation s = false)); [done|]. by intros.
  - intros -> Hev u Hu. revert u Hu. apply (HQ (λ s, isInternalStatus s = false)).
    + by apply internal_normalize.
    + intros s Hs Hsh _. apply internal_normalize. unfold shown in Hsh.
      by destruct (isInternalStatus (st_Status s)).
Qed.

Lemma view_updates_witness :
  isInternalStatus MaintenancePlanned = false
  ∧ ∀ u, u ∈ (mapEventUpdates [newStatus 1 MaintenancePendingReview "Sent" 5 None;
                newStatus 1 MaintenancePlanned "Planned" 6 None] false MaintenancePlanned None TypeMaintenance).1 →
      isInternalStatus (ud_Status u) = false.
Proof.
  split; [reflexivity|].
  refine (proj2 (proj2 (proj2 (view_updates
    [newStatus 1 MaintenancePendingReview "Sent" 5 None; newStatus 1 MaintenancePlanned "Planned" 6 None]
    false MaintenancePlanned None TypeMaintenance _ _ _))) eq_refl eq_refl).
  vm_compute. reflexivity.
Defined.

(** ** Public visibility *)

Lemma existsb_public t k :
  existsb (λ s, bool_decide (st_Status s ∈ publicStatuses)) (statuses_of t k)
  = existsb (λ ks : Z * StatusRow, bool_decide (sr_incident ks.2 = k)
              && bool_decide (sr_status ks.2 ∈ publicStatuses)) (rows (t_status t)).
Proof.
  unfold statuses_of. induction (rows (t_status t)) as [|[i s] l IH]; [done|].
  cbn [filterb existsb snd]. destruct (sr_incident s == k); [|done].
  rewrite fmap_cons. cbn [existsb andb]. by rewrite IH.
Qed.

(** The rule of the handler for callers without extended rights. *)
Definition hidden (inc : Incident) : bool :=
  (inc_Type inc == TypeMaintenance)
  && ((inc_Status inc == MaintenancePendingReview) || (inc_Status inc == MaintenanceReviewed))
  || isCancelledWithoutPublicStatus inc.

Lemma public_iff_not_hidden t k r :
  (ir_type r = TypeMaintenance → is_Some (ir_status r)) →
  where_all publicEventPredicates t k r = negb (hidden (event_of t (k, r))).
Proof.
  intros Hst. unfold where_all, publicEventPredicates, hidden, isCancelledWithoutPublicStatus.
  cbn [forallb]. unfold pred_not, pred_and, TypeIn, StatusEQ, StatusIn, noPublicStatus.
  change (inc_Statuses (event_of t (k, r))) with (statuses_of t k).
  change (inc_Type (event_of t (k, r))) with (ir_type r).
  change (inc_Status (event_of t (k, r))) with (default ""%string (ir_status r)).
  rewrite existsb_public. set (pub := existsb _ (rows (t_status t))).
  destruct (decide (ir_type r = TypeMaintenance)) as [Ht|Ht].
  - destruct (Hst Ht) as [s Hs]. rewrite Hs, Ht. cbn [default]. unfold id, col. cbn [fmap option_fmap option_map].
    rewrite (bool_decide_true (TypeMaintenance ∈ [TypeMaintenance])) by left.
    rewrite (bool_decide_true (TypeMaintenance = TypeMaintenance)) by done.
    assert (bool_decide (s ∈ [MaintenancePendingReview; MaintenanceReviewed])
      = bool_decide (s = MaintenancePendingReview) || bool_decide (s = MaintenanceReviewed)) as ->.
    { rewrite <- bool_decide_or. apply bool_decide_ext. set_solver. }
    assert (bool_decide (s ∈ [MaintenanceCancelled]) = bool_decide (s = MaintenanceCancelled)) as ->.
    { apply bool_decide_ext. set_solver. }
    destruct (decide (s = MaintenanceCancelled)) as [->|Hc].
    + destruct pub; reflexivity.
    + rewrite (bool_decide_false (s = MaintenanceCancelled)) by done.
      repeat case_bool_decide; try done; destruct pub; reflexivity.
  - rewrite (bool_decide_false (ir_type r = TypeMaintenance)) by done.
    rewrite (bool_decide_false (ir_type r ∈ [TypeMaintenance])) by set_solver. reflexivity.
Qed.

(** C32: for a caller without extended rights an event can be opened by its id exactly
    when the public listings select it; otherwise the answer is the 404 of an event
    that does not exist, so reading by id reveals no maintenance under review and no
    draft that was cancelled. *)
Theorem detail_matches_listing svc c k r E w :
  fault_free E → t_incident (w_tab w) !! k = Some r →
  (ir_type r = TypeMaintenance → is_Some (ir_status r)) →
  hasExtendedView c svc = false →
  ∃ w', w_tab w' = w_tab w ∧
    if where_all publicEventPredicates (w_tab w) k r
    then ∃ ev, GetIncidentHandler svc c (Some k) E w = (Ret (mkResponse 200 (BEvent ev)), w')
               ∧ ai_ID ev = k ∧ d_ContactEmail (ai_Data ev) = ""%string
               ∧ d_CreatedBy (ai_Data ev) = ""%string ∧ d_Version (ai_Data ev) = None
    else GetIncidentHandler svc c (Some k) E w
         = (Ret (mkResponse 404 (BError (EApi ErrIncidentDSNotExist))), w').
Proof.
  intros HE Hr Hst Hview. destruct (GetIncident_free k r E w HE Hr) as [w' Hget].
  exists w'. split; [exact (ReadOnly_tab _ _ _ _ _ Hget)|].
  rewrite public_iff_not_hidden by done. unfold hidden.
  unfold GetIncidentHandler, on_err. rewrite bind_run. unfold try. rewrite Hget, Hview. cbn [negb andb].
  destruct (_ && _)%bool; [reflexivity|]. cbn [orb].
  destruct (isCancelledWithoutPublicStatus _); [reflexivity|].
  unfold toAPIEvent. destruct (mapEventUpdates _ _ _ _ _) as [ups desc].
  eexists. split; [reflexivity|]. done.
Qed.

Definition anonymous : Ctx := empty_ctx.

Lemma detail_matches_listing_witness :
  where_all publicEventPredicates sample_tables 2
    (incident_row TypeMaintenance MaintenancePlanned 200 (Some 400) 0 3) = true
  ∧ ∃ w', w_tab w' = sample_tables ∧ ∃ ev,
      GetIncidentHandler (Some sample_service) anonymous (Some 2) (env_at 300) sample_world
      = (Ret (mkResponse 200 (BEvent ev)), w').
Proof.
  split; [vm_compute; reflexivity|].
  destruct (detail_matches_listing (Some sample_service) anonymous 2
    (incident_row TypeMaintenance MaintenancePlanned 200 (Some 400) 0 3) (env_at 300) sample_world)
    as (w' & Hw & H); [apply env_at_free|vm_compute; reflexivity|by eexists|reflexivity|].
  exists w'. split; [exact Hw|].
  replace (where_all _ _ _ _) with true in H by (vm_compute; reflexivity).
  destruct H as (ev & H & _). eauto.
Defined.
