(* ===== verification/PropsListing.v ===== *)
(** * Properties of the listings

    What a listing selects, in which order, how its pages divide it, and what the
    checks on the query parameters guarantee. *)

From S2P Require Import Prelude GoStrings GoTime Errors Event Rbac Models Store Queries Writes Integrity Outbox Notify Checker Api Handlers Samples.
Local Open Scope Z_scope.

(** ** Query parameters *)

(** The parameters a listing may be called with. *)
Record params_ok (p : IncidentsParams) : Prop := mk_params_ok {
  po_types : ∀ l t, p_Types p = Some l → t ∈ l → valid_type t = true;
  po_status : ∀ s, p_Status p = Some s → IsValidIncidentFilterStatus s = true;
  po_dates : ∀ s e, p_StartDate p = Some s → p_EndDate p = Some e → s <= e;
  po_impact : ∀ i, p_Impact p = Some i → 0 <= i <= 3;
  po_components : ∀ c, c ∈ p_ComponentIDs p → 1 <= c <= maxComponentID;
  po_active : p_IsActive p ≠ Some false;
  po_last : p_LastCount p = 0 }.

Lemma parse_component_ids_range l : ∀ ids,
  parse_component_ids l = Some ids → ∀ c, c ∈ ids → 1 <= c <= maxComponentID.
Proof.
  induction l as [|x l IH]; intros ids H c Hc; simpl in H; [injection H as <-; inversion Hc|].
  destruct (Atoi x) as [uid|]; [|done]. destruct (_ || _)%bool eqn:Hr; [done|]. bool_facts.
  apply fmap_Some in H as (ids' & H & ->). apply elem_of_cons in Hc as [->|Hc]; [lia|].
  by apply (IH ids').
Qed.

Lemma bindIncidentsQuery_inr q query : bindIncidentsQuery q = inr query →
  (∀ i, q_Impact query = Some i → 0 <= i <= 3) ∧ (∀ p, q_Page query = Some p → 1 <= p)
  ∧ (∀ s e, q_StartDate query = Some s → q_EndDate query = Some e → s <= e).
Proof.
  unfold bindIncidentsQuery, bind_query, in_range. destruct q as [q|]; [|done].
  destruct (negb _) eqn:Hb; [done|]. intros Hret. bool_facts.
  assert (query = q ∧ ∀ s e, q_StartDate q = Some s → q_EndDate q = Some e → s <= e) as [-> Hd].
  { destruct (q_StartDate q) as [s|], (q_EndDate q) as [e|]; try by injection Hret as <-.
    destruct (e <? s) eqn:He; [done|]. injection Hret as <-. split; [done|].
    intros s' e' [= <-] [= <-]. bool_facts. lia. }
  split_and!; [intros i Hi; rewrite Hi in *|intros p Hp; rewrite Hp in *|done]; bool_facts; lia.
Qed.

(** C40: the parameters that reach a listing are within their ranges: known types and
    statuses, components 1 to 2048, impacts 0 to 3, dates in order, "active" not false,
    a page of at least 1 and a page size of 10, 20 or 50. *)
Theorem query_params_sound q params0 params :
  parseFilterParams q = inr params0 → parsePaginationParams q params0 = inr params →
  params_ok params0 ∧ params_ok params
  ∧ ∃ limit page, p_Limit params = Some limit ∧ limit ∈ [10; 20; 50]
      ∧ p_Page params = Some page ∧ 1 <= page.
Proof.
  unfold parseFilterParams, parsePaginationParams. intros Hf Hp.
  destruct (bindIncidentsQuery q) as [|query] eqn:Hq; [done|].
  apply bindIncidentsQuery_inr in Hq as (Himp & Hpage & Hdates).
  destruct (q_IsActive query == Some false) eqn:Hact; [done|]. bool_facts.
  destruct (validateAndSetStatus _) as [|st] eqn:Hst; [done|].
  destruct (parseAndSetComponents _) as [|cs] eqn:Hcs; [done|].
  destruct (parseAndSetTypes _) as [|ts] eqn:Hts; [done|]. injection Hf as <-.
  destruct (validateAndSetLimit _) as [|limit] eqn:Hlim; [done|]. injection Hp as <-.
  assert (params_ok (mkParams ts st (q_StartDate query) (q_EndDate query) (q_Impact query)
    (q_System query) cs 0 (q_IsActive query) None None)) as Hok.
  { constructor; simpl; auto.
    - intros l t -> Ht. unfold parseAndSetTypes in Hts. destruct (q_Types query) as [s|]; [|done].
      destruct (forallb _ _) eqn:Hall; [|done]. injection Hts as <-.
      rewrite forallb_true_iff in Hall. auto.
    - intros s ->. unfold validateAndSetStatus in Hst. destruct (q_Status query) as [s'|]; [|done].
      destruct (IsValidIncidentFilterStatus s') eqn:Hs; [|done]. by injection Hst as <-.
    - intros c Hc. unfold parseAndSetComponents in Hcs.
      destruct (q_Components query) as [s|]; [|injection Hcs as <-; inversion Hc].
      destruct (parse_component_ids _) as [l|] eqn:Hl; [|done]. injection Hcs as <-.
      by eapply parse_component_ids_range. }
  split_and!; [done|by destruct Hok; constructor|].
  eexists _, _. split_and!; [reflexivity| |reflexivity|].
  - unfold validateAndSetLimit in Hlim. destruct (q_Limit query) as [l|]; [|injection Hlim as <-; set_solver].
    case_bool_decide; [|done]. by injection Hlim as <-.
  - destruct (q_Page query) as [p|] eqn:Hq; [|done]. specialize (Hpage p eq_refl).
    destruct (0 <? p) eqn:?; bool_facts; lia.
Qed.

Definition sample_query : APIGetIncidentsQuery :=
  mkQuery (Some "incident,maintenance"%string) (Some true) None None None (Some 2) None
    (Some "1,2"%string) (Some 2) (Some 20).

Lemma query_params_sound_witness :
  ∃ params0 params, parseFilterParams (Some sample_query) = inr params0
    ∧ parsePaginationParams (Some sample_query) params0 = inr params
    ∧ params_ok params ∧ p_ComponentIDs params = [1; 2] ∧ p_Limit params = Some 20.
Proof.
  eexists _, _. split; [vm_compute; reflexivity|]. split; [vm_compute; reflexivity|].
  split; [|split; reflexivity].
  apply (query_params_sound (Some sample_query) _ _ eq_refl eq_refl).
Defined.

(** ** Pages *)

(** The pages of a listing divide it: in page order, the first [n] pages are the
    first [n * limit] rows, so no row is repeated or skipped, as long as the offset
    fits a machine integer. *)
Theorem pages_concat {A} param limit (n : nat) (l : list A) :
  0 < limit → Z.of_nat n * limit <= max_int64 →
  concat ((λ i, default [] (page_of (set_page param (Z.of_nat i) limit) l)) <$> seq 1 n)
  = take (n * Z.to_nat limit) l.
Proof.
  intros Hlim. induction n as [|n IH]; intros Hmax; [by rewrite take_0|].
  rewrite seq_S, fmap_app, concat_app, IH by lia. cbn [fmap list_fmap concat]. rewrite app_nil_r.
  unfold page_of, set_page. cbn [p_Limit p_Page].
  assert ((0 <? limit) = true) as -> by (by apply Z.ltb_lt).
  set (offset := if 1 <? Z.of_nat (1 + n) then _ else 0).
  assert (offset = Z.of_nat n * limit) as Hoff.
  { subst offset. destruct (1 <? Z.of_nat (1 + n)) eqn:H1; bool_facts.
    - rewrite int64_id; [lia|]. unfold min_int64. lia.
    - assert (n = 0%nat) as -> by lia. done. }
  rewrite Hoff. assert ((Z.of_nat n * limit <? 0) = false) as -> by (apply Z.ltb_ge; lia).
  cbn [default]. unfold id.
  replace (Z.to_nat (Z.of_nat n * limit)) with (n * Z.to_nat limit)%nat by lia.
  replace (S n * Z.to_nat limit)%nat with (n * Z.to_nat limit + Z.to_nat limit)%nat by lia.
  by rewrite take_take_drop.
Qed.

Lemma pages_concat_witness :
  0 < 10 ∧ concat ((λ i, default [] (page_of (set_page no_params (Z.of_nat i) 10) (seq 0 25))) <$> seq 1 3)
           = seq 0 25.
Proof. split; [lia|]. rewrite (pages_concat no_params 10 3 (seq 0 25)); [reflexivity|lia|done]. Defined.

(** ** What a listing selects *)

(** The documented meaning of the filters at time [n], over the stored rows. *)
Definition is_active (n : Z) (r : IncidentRow) : Prop :=
  ir_end r = None ∨
  (ir_start r <= n ∧ (∃ e, ir_end r = Some e ∧ n <= e)
   ∧ ∃ s, ir_status r = Some s ∧ s ∉ terminalStatuses).

Record selected (params : IncidentsParams) (isAuth : bool) (n : Z) (t : Tables) (k : Z)
    (r : IncidentRow) : Prop := mk_selected {
  sel_types : ∀ l, p_Types params = Some l → ir_type r ∈ l;
  sel_impact : ∀ i, p_Impact params = Some i → ir_impact r = i;
  sel_system : ∀ b, p_IsSystem params = Some b → ir_system r = b;
  sel_component : p_ComponentIDs params ≠ [] →
    ∃ c, c ∈ p_ComponentIDs params ∧ (k, c) ∈ t_rel t ∧ is_Some (t_component t !! c);
  sel_active : p_IsActive params = Some true → is_active n r;
  sel_status : ∀ s, p_Status params = Some s → ir_status r = Some s;
  sel_start : ∀ d, p_StartDate params = Some d → d <= ir_start r;
  sel_end : ∀ d, p_EndDate params = Some d → ∃ e, ir_end r = Some e ∧ e <= d;
  sel_public : isAuth = false → where_all publicEventPredicates t k r = true }.

Lemma col_true {A} (x : option A) p : col x p = Some true ↔ ∃ a, x = Some a ∧ p a = true.
Proof.
  unfold col. destruct x as [a|]; simpl; [|naive_solver]. split.
  - intros [= H]. eauto.
  - intros (a' & [= <-] & Ha). by rewrite Ha.
Qed.

Lemma where_opt {A} (x : option A) (f : A → pred) (P : A → Prop) t k r :
  (∀ a, f a t k r = Some true ↔ P a) →
  where_all (opt_pred x f) t k r = true ↔ ∀ a, x = Some a → P a.
Proof.
  intros Hf. rewrite where_all_true. destruct x as [a|]; simpl.
  - split.
    + intros H a' [= <-]. apply Hf, H. left.
    + intros H p Hp. apply list_elem_of_singleton in Hp as ->. apply Hf. auto.
  - split; [done|]. intros _ p Hp. inversion Hp.
Qed.

Lemma active_at_true n t k r : active_at terminalStatuses n t k r = Some true ↔ is_active n r.
Proof.
  unfold active_at, pred_or, pred_and, StatusNotIn, is_active.
  rewrite tri_or_true, !tri_and_true, !col_true.
  assert (∀ b, Some b = Some true ↔ b = true) as Hb by (intros b; split; congruence).
  rewrite !Hb, bool_decide_eq_true, Z.leb_le. setoid_rewrite bool_decide_eq_true.
  by setoid_rewrite Z.leb_le.
Qed.

Lemma where_nil t k r : where_all [] t k r = true.
Proof. done. Qed.

(** The clauses the code builds mean what the parameters say. *)
Lemma applyEventsFilters_selected params isAuth E w preds w' :
  applyEventsFilters params isAuth E w = (Ret preds, w') →
  ∀ t k r, where_all preds t k r = true ↔ selected params isAuth (now_at E (w_tick w)) t k r.
Proof.
  intros H t k r. unfold applyEventsFilters in H.
  apply bind_Ret_inv in H as (p2 & w1 & H2 & H). injection H as <- _.
  assert (∀ b, Some b = Some true ↔ b = true) as Hb by (intros b; split; congruence).
  assert (where_all p2 t k r = true ↔
    (p_IsActive params = Some true → is_active (now_at E (w_tick w)) r)) as Hact.
  { destruct (p_IsActive params) as [[|]|]; [|done|].
    - injection H2 as <- _. rewrite where_all_true. setoid_rewrite list_elem_of_singleton.
      rewrite <- (active_at_true _ t k). naive_solver.
    - injection H2 as <- _. by rewrite where_nil. }
  assert (where_all match p_ComponentIDs params with [] => [] | ids => [HasComponentIn ids] end t k r = true
    ↔ (p_ComponentIDs params ≠ [] → ∃ c, c ∈ p_ComponentIDs params ∧ (k, c) ∈ t_rel t
         ∧ is_Some (t_component t !! c))) as Hcomp.
  { destruct (p_ComponentIDs params) as [|c0 cs]; [rewrite where_nil; naive_solver|].
    rewrite where_all_true. setoid_rewrite list_elem_of_singleton.
    trans (HasComponentIn (c0 :: cs) t k r = Some true); [naive_solver|].
    unfold HasComponentIn. rewrite Hb, existsb_true_iff.
    setoid_rewrite andb_true_iff. setoid_rewrite bool_decide_eq_true. naive_solver. }
  assert (where_all (if isAuth then [] else publicEventPredicates) t k r = true ↔
    (isAuth = false → where_all publicEventPredicates t k r = true)) as Hpub.
  { destruct isAuth; [rewrite where_nil|]; naive_solver. }
  rewrite !where_all_app, !andb_true_iff, Hact, Hcomp, Hpub.
  rewrite (where_opt (p_Types params) _ (λ l, ir_type r ∈ l))
    by (intros; unfold TypeIn; by rewrite Hb, bool_decide_eq_true).
  rewrite (where_opt (p_Impact params) _ (λ i, ir_impact r = i))
    by (intros; by rewrite Hb, bool_decide_eq_true).
  rewrite (where_opt (p_IsSystem params) _ (λ b, ir_system r = b))
    by (intros; by rewrite Hb, bool_decide_eq_true).
  rewrite (where_opt (p_Status params) _ (λ s, ir_status r = Some s)).
  2:{ intros s. unfold StatusEQ, StatusIn. rewrite col_true.
      setoid_rewrite bool_decide_eq_true. setoid_rewrite list_elem_of_singleton. naive_solver. }
  rewrite (where_opt (p_StartDate params) _ (λ d, d <= ir_start r))
    by (intros; by rewrite Hb, Z.leb_le).
  rewrite (where_opt (p_EndDate params) _ (λ d, ∃ e, ir_end r = Some e ∧ e <= d)).
  2:{ intros d. rewrite col_true. by setoid_rewrite Z.leb_le. }
  split; [intros ((? & ? & ? & ?) & ? & (? & ? & ?) & ?)|intros []; split_and!]; try done.
Qed.

(** Ordered by start date, latest first. *)
Definition starts_before (a b : Incident) : Prop :=
  ∀ s s', inc_StartDate a = Some s → inc_StartDate b = Some s' → s' <= s.

Lemma sorted_page param (l p : list (Z * IncidentRow)) :
  StronglySorted start_desc l → page_of param l = Some p → StronglySorted start_desc p.
Proof.
  intros Hs Hp. apply page_of_sublist in Hp. revert Hs.
  induction Hp as [|x l k H IH|x l k H IH]; intros Hs; [done| |].
  - apply StronglySorted_inv in Hs as [Hs Hx]. constructor; [auto|].
    rewrite Forall_forall in Hx |- *. intros y Hy. apply Hx. by eapply elem_of_sublist.
  - apply StronglySorted_inv in Hs as [Hs _]. auto.
Qed.

#[global] Instance start_desc_trans : Transitive start_desc.
Proof. intros a b c. unfold start_desc. lia. Qed.
#[global] Instance start_desc_total : Total start_desc.
Proof. intros a b. unfold start_desc. lia. Qed.


