(* ===== verification/PropsStore.v ===== *)
(** * Properties of stored events

    Creating, patching, locking, saving and moving: what each operation leaves in the
    tables, and what it leaves alone when it fails. *)

From S2P Require Import Prelude GoStrings GoTime Errors Event Rbac Models Store Queries Writes Integrity WritesSpec Outbox Notify Facade Checker CheckerSpec Api Handlers Samples.
Local Open Scope Z_scope.

(** Publishing writes the outbox only. *)
Definition outbox_only (w w' : World) : Prop :=
  w_tab w' = set_outbox (t_outbox (w_tab w')) (w_tab w).

#[global] Instance outbox_only_rel : DbRel outbox_only.
Proof.
  unfold outbox_only. split; [split|..].
  - intros w. by destruct (w_tab w).
  - intros w1 w2 w3 H12 H23. rewrite H23, H12. done.
  - intros w w' -> _. by destruct (w_tab w).
  - intros w w' _. simpl. by destruct (w_tab w).
Qed.

#[global] Instance outbox_insert row : Respects outbox_only (insert_outbox row).
Proof.
  unfold insert_outbox, ent_check. destruct (_ && _)%bool; [|apply _].
  enough (Respects outbox_only (_ ← stmt; dbNow ← now; id ← next_outbox_id; t ← get_tab;
    if existsb (λ kr : Z * OutboxRow, or_dedup kr.2 == no_DedupKey row) (rows (t_outbox t))
       || negb (bool_decide (is_Some (t_incident t !! no_IncidentID row)))
    then throw (EEnt ConstraintError)
    else put_tab (set_outbox (<[id := newOutboxCreate row dbNow]> (t_outbox t)) t))) as H by exact H.
  do 2 (apply respects_bind; [apply _..|]; intros ?).
  intros E w o w' H. unfold next_outbox_id in H. eval_run H.
  match type of H with context [if ?b then _ else _] => destruct b end; injection H as <- <-;
    unfold outbox_only; simpl; by destruct (w_tab w).
Qed.

#[global] Instance outbox_PublishTx p ch : Respects outbox_only (PublishTx p ch).
Proof.
  unfold PublishTx, BuildRows, enqueue_all, Enqueue, rowExists, execWithTx. resp.
Qed.

Lemma publish_tables pub inc s u E w o w' :
  publishMaintenanceChange pub inc s u E w = (o, w') →
  w_tab w' = set_outbox (t_outbox (w_tab w')) (w_tab w).
Proof.
  assert (Respects outbox_only (publishMaintenanceChange pub inc s u)) as HR.
  { unfold publishMaintenanceChange. resp. }
  intros H. exact (HR _ _ _ _ H).
Qed.

Lemma Notify_tables pub E w o w' : Notify pub E w = (o, w') → w_tab w' = w_tab w ∧ o = Ret tt.
Proof.
  unfold Notify. destruct pub as [p|]; [destruct (_ || _)%bool|]; intros [= <- <-]; done.
Qed.

Lemma statuses_of_outbox t x i : statuses_of (set_outbox x t) i = statuses_of t i.
Proof. done. Qed.

(** ** Creation *)

(** The stored row of a created event. *)
Definition created_row (inc : Incident) (text : string) (status : Status) (r : IncidentRow) : Prop :=
  ir_text r = text ∧ ir_type r = inc_Type inc ∧ ir_status r = Some status
  ∧ ir_start r = default 0 (inc_StartDate inc) ∧ ir_end r = inc_EndDate inc
  ∧ ir_impact r = default 0 (inc_Impact inc) ∧ ir_system r = inc_System inc
  ∧ ir_description r = inc_Description inc ∧ ir_created_by r = inc_CreatedBy inc
  ∧ ir_contact r = inc_ContactEmail inc ∧ ir_version r = valueOr (inc_Version inc) 1 + 1.

(** The history a modification leaves, when it only adds one entry of the event. *)
Lemma insertNewStatuses_one i s E w l w' :
  insertNewStatuses i [s] E w = (Ret l, w') → st_ID s = 0 → owner s i = i →
  0 < seq_status (w_seq w) → ids_below (t_status (w_tab w)) (seq_status (w_seq w)) →
  status_grow w w' ∧ (∃ st, statuses_of (w_tab w') i = statuses_of (w_tab w) i ++ [st] ∧ appended i s st)
  ∧ ∀ j, j ≠ i → statuses_of (w_tab w') j = statuses_of (w_tab w) j.
Proof.
  intros H H0 Hown Hpos Hids.
  apply insertNewStatuses_Ret in H as (Hg & (new & Hnew & Hall) & Hother & _); [|done..|].
  2:{ intros s' Hs'. by apply list_elem_of_singleton in Hs' as ->. }
  cbn [filterb] in Hall. rewrite H0, bool_decide_true in Hall by done.
  split_and!; [done| |done].
  inversion Hall as [|? st ? new' Hst Hnil]; subst. inversion Hnil; subst. eauto.
Qed.

Lemma update_where_insert {A} p (f : A → A) (m : gmap Z A) k x :
  p k x = true → (∀ j y, j ≠ k → m !! j = Some y → p j y = false) →
  update_where p f (<[k := x]> m) = <[k := f x]> m.
Proof.
  intros Hk Hm. apply map_eq. intros j. rewrite lookup_update_where, !lookup_insert.
  destruct (decide (k = j)) as [<-|Hne]; simpl; [by rewrite Hk|].
  destruct (m !! j) as [y|] eqn:Hj; simpl; [|done]. by rewrite (Hm j y).
Qed.

Lemma modify_matches_new inc v k r : k = inc_ID inc →
  (inc_Type inc = TypeMaintenance → ir_version r = v) → modify_matches inc v k r = true.
Proof.
  intros -> Hv. unfold modify_matches. rewrite bool_decide_true by done. simpl.
  case_bool_decide; [|done]. by apply bool_decide_eq_true, Hv.
Qed.

(** The first status of an event of a known type is not empty. *)
Lemma initial_status_valid inc status text : valid_type (inc_Type inc) = true →
  initial_status inc = (status, text) → status ≠ ""%string.
Proof.
  unfold valid_type, initial_status. intros Hv%bool_decide_eq_true.
  repeat case_bool_decide; intros [= <- <-]; try done. set_solver.
Qed.

(** The event as the creating transaction hands it to the update. *)
Definition with_first_status (inc : Incident) (id : Z) (cr md : Z) (l : list IncidentStatus)
    (status : Status) (s : IncidentStatus) : Incident :=
  set_Status (add_Status (set_Statuses (set_Version (set_ID (set_ModifiedAt (set_CreatedAt inc (Some cr))
    (Some md)) id) (Some (valueOr (inc_Version inc) 1))) l) s) status.

Lemma created_modified_row inc id cr md l status s text n n' :
  inc_Text inc = Some text → is_Some (inc_StartDate inc) → status ≠ ""%string →
  created_row inc text status
    (modified_row (with_first_status inc id cr md l status s) (valueOr (inc_Version inc) 1) n
       (saved_row inc text n')).
Proof.
  intros Ht [start Hs] Hne. unfold created_row, modified_row, applyIncidentPatch. simpl.
  rewrite Ht, Hs, (bool_decide_false (status = _)) by done. unfold valueOr.
  split_and!; try done;
    [by case_bool_decide|by destruct (inc_EndDate inc)|by destruct (inc_Impact inc)
    |by destruct (inc_System inc)|by destruct (inc_Description inc)|by destruct (inc_CreatedBy inc)
    |by destruct (inc_ContactEmail inc)].
Qed.

(** The effects of a creation that committed, one after the other. *)
Lemma createEvent_run inc userID pub E w inc' w' start :
  createEvent inc userID pub E w = (Ret inc', w') → wf w →
  inc_Statuses inc = [] → inc_StartDate inc = Some start →
  let id := seq_incident (w_seq w) in
  ∃ w0 wa wm wd x cr md ts l l' n,
    let s := newStatus id (initial_status inc).1 (initial_status inc).2 ts userID in
    let inc2 := with_first_status inc id cr md [] (initial_status inc).1 s in
    wf w0 ∧ w_tab w0 = w_tab w ∧ w_seq w0 = w_seq w
    ∧ SaveIncidentTx inc E w0 = (Ret l, wa) ∧ ts <= start
    ∧ w_tab wm = with_modified inc2 (valueOr (inc_Version inc) 1) n (w_tab wa) ∧ w_seq wm = w_seq wa
    ∧ insertNewStatuses id [s] E wm = (Ret l', wd)
    ∧ w_tab w' = set_outbox x (w_tab wd) ∧ inc_ID inc' = id.
Proof.
  intros H Hwf Hnil Hstart. unfold createEvent in H.
  apply bind_Ret_inv in H as (inc3 & wtx & Htx & H).
  apply bind_Ret_inv in H as ([] & wn & Hn & H). injection H as <- <-.
  assert (w_tab wn = w_tab wtx) as Hwn.
  { destruct (inc_Type inc3 == TypeMaintenance); [|by injection Hn as <-].
    by apply Notify_tables in Hn as [? _]. }
  apply WithTx_Ret in Htx as (w0 & w1 & Ht0 & Hs0 & _ & _ & _ & Hbody & Ht1 & _).
  assert (wf w0) as Hwf0 by (eapply wf_same; [exact Ht0|rewrite Hs0; reflexivity|exact Hwf]).
  apply bind_Ret_inv in Hbody as (inc1 & wa & Hsave & Hbody).
  pose proof (SaveIncidentTx_struct _ _ _ _ _ Hsave) as (cr & md & l & Hinc1).
  pose proof (SaveIncidentTx_Ret _ _ _ _ _ Hsave Hwf0
    ltac:(rewrite Hnil; intros s Hs; inversion Hs)) as Hspec.
  destruct Hspec as (text & new & Hspec). destruct_and! Hspec.
  assert (inc_Statuses inc1 = []) as Hl by auto.
  assert (l = []) as -> by (rewrite Hinc1 in Hl; exact Hl). rewrite Hs0 in Hinc1.
  apply bind_Ret_inv in Hbody as (n & wb & Hnow & Hbody). injection Hnow as <- <-.
  apply bind_Ret_inv in Hbody as (start' & wc & Hd & Hbody). apply deref_Ret in Hd as [Hst' ->].
  assert (start' = start) as -> by (rewrite Hinc1 in Hst'; simpl in Hst'; congruence).
  assert (initial_status inc1 = initial_status inc) as Hinit by (by rewrite Hinc1).
  rewrite Hinit in Hbody. destruct (initial_status inc) as [status statusText] eqn:Hist.
  set (ts := if start <? _ then start else _) in Hbody.
  assert (ts <= start) as Hts.
  { subst ts. destruct (start <? _) eqn:Hlt; bool_facts; lia. }
  clearbody ts.
  apply bind_Ret_inv in Hbody as (inc3' & wd & Hmod & Hbody).
  apply bind_Ret_inv in Hbody as ([] & we & Hpub & Hbody). injection Hbody as <- <-.
  apply publish_tables in Hpub.
  apply modifyIncident_Ret in Hmod as (v & wm & l' & Hv & Hpv & Htm & Hsm & _ & Hins & ->).
  subst inc1. injection Hv as <-.
  exists w0, wa, wm, wd, (t_outbox (w_tab we)), cr, md, ts. do 3 eexists. simpl.
  split_and!; try done; congruence.
Qed.

(** The body of the creating transaction: one new row, its components and one entry. *)
Lemma createEvent_Ret inc userID pub E w inc' w' start :
  createEvent inc userID pub E w = (Ret inc', w') → wf w →
  inc_Statuses inc = [] → inc_StartDate inc = Some start →
  let id := seq_incident (w_seq w) in
  ∃ text r st,
    inc_ID inc' = id ∧ t_incident (w_tab w) !! id = None
    ∧ t_incident (w_tab w') = <[id := r]> (t_incident (w_tab w))
    ∧ inc_Text inc = Some text ∧ created_row inc text (initial_status inc).1 r
    ∧ attached w' id (nonzero_ids (inc_Components inc)) ∧ rel_frame id w w'
    ∧ statuses_of (w_tab w') id = statuses_of (w_tab w) id ++ [st]
    ∧ st_Status st = (initial_status inc).1 ∧ st_Text st = (initial_status inc).2
    ∧ st_CreatedBy st = userID ∧ st_Timestamp st <= start.
Proof.
  intros H Hwf Hnil Hstart.
  destruct (createEvent_run _ _ _ _ _ _ _ _ H Hwf Hnil Hstart)
    as (w0 & wa & wm & wd & x & cr & md & ts & inc1 & l' & n & Hwf0 & Ht0 & Hs0 & Hsave & Hts & Htm & Hsm
        & Hins & Hfin & Hid).
  assert (wf wa) as Hwfa by (exact (respects_wf _ _ _ _ _ Hsave Hwf0)).
  apply SaveIncidentTx_Ret in Hsave
    as (text & new & Htext & Hne & Hval & Hfresh & Hinc & Hatt & Hrel & Hcomp & Hhist & Hnew & _);
    [|done|by rewrite Hnil; intros s Hs; inversion Hs].
  rewrite Hnil in Hnew. inversion Hnew; subst new. rewrite app_nil_r in Hhist. rewrite Hs0, Ht0 in *.
  apply insertNewStatuses_one in Hins as ((Hgi & Hgr & _) & (st & Hst & Happ) & _);
    [|done|apply owner_new|rewrite Hsm; apply Hwfa|rewrite Htm, Hsm; apply Hwfa].
  destruct Happ as (_ & Hs1 & Hs2 & Hs3 & Hs4). simpl in *.
  exists text. eexists. exists st. split_and!; try done.
  - rewrite Hfin. cbn [t_incident set_outbox]. rewrite Hgi, Htm. cbn [with_modified set_incidents t_incident].
    rewrite Hinc. apply update_where_insert.
    + by apply modify_matches_new.
    + intros k r Hk _. unfold modify_matches. by rewrite bool_decide_false.
  - destruct (initial_status inc) as [status statusText] eqn:Hist.
    apply created_modified_row; [done|by eexists|by eapply initial_status_valid].
  - intros c. rewrite Hfin. cbn [t_rel set_outbox]. rewrite Hgr, Htm. apply Hatt.
  - intros j c Hj. rewrite Hfin. cbn [t_rel set_outbox]. rewrite Hgr, Htm, <- Ht0. by apply Hrel.
  - rewrite Hfin, statuses_of_outbox, Hst, Htm. rewrite <- Hhist. done.
  - lia.
Qed.

Lemma createEvent_failed inc userID pub E w o w' :
  createEvent inc userID pub E w = (o, w') → (∀ a, o ≠ Ret a) → w_tab w' = w_tab w.
Proof.
  unfold createEvent. rewrite bind_run. destruct (WithTx _ E w) as [o1 w1] eqn:Htx. intros H Ho.
  destruct o1 as [inc'|e|]; [|injection H as <- <-; by eapply WithTx_not_Ret..].
  exfalso. rewrite bind_run in H.
  assert (∃ w2, (if inc_Type inc' == TypeMaintenance then Notify pub else mret tt) E w1 = (Ret tt, w2))
    as [w2 Hn].
  { destruct (inc_Type inc' == _); [|by eexists]. destruct (Notify pub E w1) as [o2 w2] eqn:Hn.
    apply Notify_tables in Hn as [_ ->]. by eexists. }
  rewrite Hn in H. injection H as <- <-. by eapply Ho.
Qed.

(** C2: creating an event is all or nothing, whichever statement fails: either one new
    row with the given data, the initial status of its type and version 2, attached to
    exactly its components, with one history entry by its author dated no later than
    its start, every other event untouched; or no table has changed. *)
Theorem create_all_or_nothing inc userID pub E w o w' start :
  createEvent inc userID pub E w = (o, w') → wf w →
  inc_Statuses inc = [] → inc_Version inc = None → inc_StartDate inc = Some start →
  let id := seq_incident (w_seq w) in
  (w_tab w' = w_tab w ∧ ∀ a, o ≠ Ret a) ∨
  ∃ inc' text r st, o = Ret inc' ∧ inc_ID inc' = id
    ∧ t_incident (w_tab w) !! id = None ∧ t_incident (w_tab w') = <[id := r]> (t_incident (w_tab w))
    ∧ inc_Text inc = Some text ∧ created_row inc text (initial_status inc).1 r ∧ ir_version r = 2
    ∧ attached w' id (nonzero_ids (inc_Components inc)) ∧ rel_frame id w w'
    ∧ statuses_of (w_tab w') id = statuses_of (w_tab w) id ++ [st]
    ∧ st_Status st = (initial_status inc).1 ∧ st_CreatedBy st = userID ∧ st_Timestamp st <= start.
Proof.
  intros H Hwf Hnil Hv Hstart. cbv zeta. destruct o as [inc'|e|].
  - right. destruct (createEvent_Ret _ _ _ _ _ _ _ _ H Hwf Hnil Hstart)
      as (text & r & st & Hspec). destruct_and! Hspec.
    exists inc', text, r, st. split_and!; try done.
    match goal with Hr : created_row _ _ _ r |- _ => destruct Hr as (_ & _ & _ & _ & _ & _ & _ & _ & _ & _ & ->) end.
    by rewrite Hv.
  - left. split; [|done]. by eapply createEvent_failed.
  - left. split; [|done]. by eapply createEvent_failed.
Qed.

Definition sample_event : Incident :=
  mkIncident 0 (Some "Upgrade"%string) (Some "Text"%string) (Some 500) (Some 900) (Some 0) []
    MaintenancePendingReview false TypeMaintenance
    [mkComponent 1 "" [] None None None] None None None (Some "alice"%string)
    (Some "alice@example.com"%string) None.

(** The fourth statement fails: the row of the history is not written. *)
Lemma create_all_or_nothing_witness :
  (createEvent sample_event (Some "alice"%string) None (env_failing 300 3) sample_world).1 = Fail ESql
  ∧ w_tab (createEvent sample_event (Some "alice"%string) None (env_failing 300 3) sample_world).2
    = sample_tables.
Proof.
  split; [vm_compute; reflexivity|].
  destruct (createEvent sample_event (Some "alice"%string) None (env_failing 300 3) sample_world)
    as [o w'] eqn:H.
  assert (o = Fail ESql) as -> by (change o with (o, w').1; rewrite <- H; vm_compute; reflexivity).
  destruct (create_all_or_nothing _ _ _ _ _ _ _ 500 H sample_wf) as [[Hw _]|(? & ? & ? & ? & ? & _)];
    [reflexivity..|exact Hw|discriminate].
Defined.

(** ** Patching *)

Lemma statuses_of_ids w i s : wf w → s ∈ statuses_of (w_tab w) i → st_ID s ≠ 0.
Proof.
  intros Hw. unfold statuses_of. rewrite list_elem_of_fmap. intros ([k r] & -> & Hin).
  apply elem_of_filterb in Hin as [Hin _]. apply elem_of_rows in Hin. simpl.
  pose proof (wf_status_ids w Hw k (mk_is_Some _ _ Hin)). lia.
Qed.

(** A modification of an event loaded from the store with entries added. *)
Lemma modify_loaded_list inc ss E w inc' w' :
  modifyIncident inc E w = (Ret inc', w') → wf w →
  inc_Statuses inc = statuses_of (w_tab w) (inc_ID inc) ++ ss →
  (∀ s, s ∈ ss → st_ID s = 0 ∧ owner s (inc_ID inc) = inc_ID inc) →
  ∃ v n new, inc_Version inc = Some v
    ∧ t_incident (w_tab w') = t_incident (with_modified inc v n (w_tab w))
    ∧ t_rel (w_tab w') = t_rel (w_tab w)
    ∧ (inc_Type inc = TypeMaintenance →
       ∃ r, t_incident (w_tab w) !! inc_ID inc = Some r ∧ ir_version r = v)
    ∧ statuses_of (w_tab w') (inc_ID inc) = statuses_of (w_tab w) (inc_ID inc) ++ new
    ∧ Forall2 (appended (inc_ID inc)) ss new
    ∧ (∀ j, j ≠ inc_ID inc → statuses_of (w_tab w') j = statuses_of (w_tab w) j)
    ∧ inc_ID inc' = inc_ID inc.
Proof.
  intros H Hwf Hst Hss.
  apply modifyIncident_Ret in H as (v & wm & l & Hv & _ & Htm & Hsm & Hver & Hins & ->).
  apply insertNewStatuses_Ret in Hins as ((Hgi & Hgr & _) & (new & Hnew & Hall) & Hother & _).
  2:{ rewrite Hsm. apply Hwf. }
  2:{ rewrite Htm, Hsm. apply Hwf. }
  2:{ rewrite Hst. intros s' [Hs'|Hs']%elem_of_app Hz; [by apply statuses_of_ids in Hs'|].
      by apply Hss. }
  rewrite Hst, filterb_app, (filterb_false_nil _ (statuses_of _ _)) in Hall.
  2:{ intros s' Hs'. apply bool_decide_eq_false. by eapply statuses_of_ids. }
  cbn [app] in Hall. rewrite filterb_true_id in Hall.
  2:{ intros s' Hs'. apply bool_decide_eq_true. by apply Hss. }
  exists v, (now_at E (w_tick w)), new. rewrite Hnew. rewrite Htm in Hgi, Hgr, Hother |- *. by split_and!.
Qed.

Lemma modify_loaded inc s E w inc' w' :
  modifyIncident inc E w = (Ret inc', w') → wf w →
  inc_Statuses inc = statuses_of (w_tab w) (inc_ID inc) ++ [s] →
  st_ID s = 0 → owner s (inc_ID inc) = inc_ID inc →
  ∃ v n st, inc_Version inc = Some v
    ∧ t_incident (w_tab w') = t_incident (with_modified inc v n (w_tab w))
    ∧ t_rel (w_tab w') = t_rel (w_tab w)
    ∧ (inc_Type inc = TypeMaintenance →
       ∃ r, t_incident (w_tab w) !! inc_ID inc = Some r ∧ ir_version r = v)
    ∧ statuses_of (w_tab w') (inc_ID inc) = statuses_of (w_tab w) (inc_ID inc) ++ [st]
    ∧ appended (inc_ID inc) s st
    ∧ (∀ j, j ≠ inc_ID inc → statuses_of (w_tab w') j = statuses_of (w_tab w) j).
Proof.
  intros H Hwf Hst H0 Hown.
  destruct (modify_loaded_list _ [s] _ _ _ _ H Hwf Hst) as (v & n & new & Hspec).
  { intros s' Hs'. by apply list_elem_of_singleton in Hs' as ->. }
  destruct Hspec as (? & ? & ? & ? & Hnew & Hall & ? & _).
  inversion Hall as [|? st ? new' Happ Hnil]; subst. inversion Hnil; subst.
  exists v, n, st. by split_and!.
Qed.

Lemma with_modified_row inc v n t r :
  t_incident t !! inc_ID inc = Some r → (inc_Type inc = TypeMaintenance → ir_version r = v) →
  t_incident (with_modified inc v n t) !! inc_ID inc = Some (modified_row inc v n r).
Proof.
  intros Hr Hv. unfold with_modified. cbn [t_incident set_incidents].
  rewrite lookup_update_where, Hr. simpl. by rewrite modify_matches_new.
Qed.

Lemma with_modified_other inc v n t j :
  j ≠ inc_ID inc → t_incident (with_modified inc v n t) !! j = t_incident t !! j.
Proof.
  intros Hj. unfold with_modified. cbn [t_incident set_incidents]. rewrite lookup_update_where.
  destruct (t_incident t !! j); simpl; [|done]. unfold modify_matches. by rewrite bool_decide_false.
Qed.

(** The patched event as it is loaded, by field. *)
Lemma patched_fields c t k r d impact :
  let p := patched c (event_of t (k, r)) d impact in
  inc_ID p = k ∧ inc_Type p = ir_type r ∧ inc_Status p = pd_Status d
  ∧ inc_Version p = Some (default (ir_version r) (pd_Version d))
  ∧ inc_Statuses p = statuses_of t k ++ [newStatus k (pd_Status d) (pd_Message d) (pd_UpdateDate d) (c_userID c)]
  ∧ (pd_Status d = IncidentResolved → inc_EndDate p = Some (pd_UpdateDate d)).
Proof.
  unfold patched. set (u := updateFields _ _ _).
  assert (inc_ID u = k ∧ inc_Type u = ir_type r ∧ inc_Version u = Some (ir_version r)
    ∧ inc_Statuses u = statuses_of t k
    ∧ (pd_Status d = IncidentResolved → inc_EndDate u = Some (pd_UpdateDate d))) as Hu.
  { subst u. split_and!;
      try (unfold updateFields; by repeat case_match).
    intros Hs. unfold updateFields. rewrite Hs. by rewrite (bool_decide_true (IncidentResolved = _)). }
  destruct Hu as (Hid & Hty & Hv & Hst & Hend).
  destruct (pd_Version d); simpl; rewrite ?Hst; by split_and!.
Qed.

Lemma on_err_Ret {A B} (m : M A) (h : err → M B) (k : A → M B) E w b w' :
  on_err m h k E w = (Ret b, w') →
  (∃ a w1, m E w = (Ret a, w1) ∧ k a E w1 = (Ret b, w'))
  ∨ (∃ e w1, m E w = (Fail e, w1) ∧ h e E w1 = (Ret b, w')).
Proof.
  intros H. unfold on_err in H. apply bind_Ret_inv in H as ([e|a] & w1 & Ht & H);
    apply try_Ret in Ht; [right|left]; eauto.
Qed.

(** A patch that was stored: the modification committed, then nothing but the outbox. *)
Lemma persist_inr pub inc oldStatus u E w w' :
  persistIncidentPatch pub inc oldStatus u E w = (Ret (inr tt), w') →
  ∃ w0 w1 inc' x, w_tab w0 = w_tab w ∧ w_seq w0 = w_seq w
    ∧ modifyIncident inc E w0 = (Ret inc', w1) ∧ w_tab w' = set_outbox x (w_tab w1).
Proof.
  unfold persistIncidentPatch. intros H.
  apply on_err_Ret in H as [([] & w1 & Htx & H)|(e & w1 & _ & H)].
  2:{ destruct (decide _) in H; done. }
  apply bind_Ret_inv in H as ([] & w2 & Hn & H). injection H as <-.
  assert (w_tab w2 = w_tab w1) as Hw2.
  { destruct (_ && _)%bool; [by apply Notify_tables in Hn as [? _]|by injection Hn as <-]. }
  apply WithTx_Ret in Htx as (w0 & wb & Ht0 & Hs0 & _ & _ & _ & Hbody & Ht1 & _).
  apply bind_Ret_inv in Hbody as (inc' & wm & Hmod & Hbody).
  exists w0, wm, inc'.
  assert (∃ x, w_tab wb = set_outbox x (w_tab wm)) as [x Hx].
  { destruct (negb _); [injection Hbody as <-; exists (t_outbox (w_tab wm)); by destruct (w_tab wm)|].
    apply publish_tables in Hbody. by eexists. }
  exists x. split_and!; try done. congruence.
Qed.

(** Reopening clears the end of the row and touches nothing else. *)
Lemma reopen_Ret inc s E w w' r :
  reopenIncident inc s E w = (Ret tt, w') → t_incident (w_tab w) !! inc_ID inc = Some r →
  w_tab w' = set_incidents (if s == IncidentReopened
    then <[inc_ID inc := clear_end r]> (t_incident (w_tab w)) else t_incident (w_tab w)) (w_tab w).
Proof.
  unfold reopenIncident, ReOpenIncident. intros H Hr. case_bool_decide; simpl in H.
  2:{ injection H as <-. by destruct (w_tab w). }
  apply bind_Ret_inv in H as ([e|[]] & w1 & Ht & H); apply try_Ret in Ht.
  - destruct (decide (e = EEnt NotFoundError)) as [->|]; [|done]. exfalso.
    unfold update_incident_one in Ht. rewrite bind_run in Ht. unfold stmt in Ht.
    destruct (fault_at _ _); [done|]. rewrite bind_run in Ht. simpl in Ht. by rewrite Hr in Ht.
  - injection H as <-. unfold update_incident_one in Ht.
    apply bind_Ret_inv in Ht as ([] & w2 & Hs & Ht). apply stmt_Ret in Hs as [_ ->].
    rewrite bind_run in Ht. simpl in Ht. rewrite Hr in Ht. by injection Ht as <-.
Qed.

Lemma prepare_not_200 c stored d impact resp :
  prepareIncidentPatch c stored d impact = Some resp → r_status resp ≠ 200.
Proof.
  unfold prepareIncidentPatch, allowMaintenancePatch, allowMaintenancePatchAsCreator. intros H.
  repeat (case_match; simplify_eq/=; try done).
Qed.

Lemma persist_not_200 pub inc s u E w resp w' :
  persistIncidentPatch pub inc s u E w = (Ret (inl resp), w') → r_status resp ≠ 200.
Proof.
  unfold persistIncidentPatch. intros H.
  apply on_err_Ret in H as [([] & w1 & _ & H)|(e & w1 & _ & H)].
  - apply bind_Ret_inv in H as ([] & w2 & _ & H). done.
  - destruct (decide _) in H; by injection H as <- _.
Qed.

Lemma toAPIEvent_tab inc isAuth E w ev w' :
  toAPIEvent inc isAuth E w = (Ret ev, w') → w_tab w' = w_tab w.
Proof.
  unfold toAPIEvent. destruct (mapEventUpdates _ _ _ _ _). intros Hev.
  repeat (apply bind_Ret_inv in Hev as (? & ? & Hd & Hev); apply deref_Ret in Hd as [_ ->]).
  by injection Hev as _ <-.
Qed.

(** The effects behind a 200: the modification, the outbox, and the reopening. *)
Lemma PatchIncidentHandler_200 pub c stored d E w b w' :
  PatchIncidentHandler pub c (Some d) E w = (Ret (mkResponse 200 b), w') → c_event c = Some stored →
  ∃ impact w0 wm w2 w3 inc' x,
    let p := patched c stored d impact in
    bind_PatchIncidentData d = true ∧ (inc_Type stored = TypeMaintenance → is_Some (pd_Version d))
    ∧ w_tab w0 = w_tab w ∧ w_seq w0 = w_seq w ∧ modifyIncident p E w0 = (Ret inc', wm)
    ∧ w_tab w2 = set_outbox x (w_tab wm)
    ∧ reopenIncident p (pd_Status d) E w2 = (Ret tt, w3) ∧ w_tab w' = w_tab w3.
Proof.
  intros H Hc. unfold PatchIncidentHandler in H. rewrite Hc in H.
  destruct (negb (bind_PatchIncidentData d)) eqn:Hbind; [done|].
  destruct ((inc_Type _ == TypeMaintenance) && _)%bool eqn:Hver; [done|].
  apply bind_Ret_inv in H as (impact & w1 & Hi & H). apply deref_Ret in Hi as [Hi ->].
  destruct (prepareIncidentPatch _ _ _ _) as [resp|] eqn:Hprep.
  { injection H as -> _. by apply prepare_not_200 in Hprep. }
  apply bind_Ret_inv in H as ([resp|[]] & w2 & Hp & H).
  { injection H as -> ->. by apply persist_not_200 in Hp. }
  apply on_err_Ret in H as [([] & w3 & Hre & H)|(e & w3 & _ & H)]; [|done].
  apply on_err_Ret in H as [(inc & w4 & Hget & H)|(e & w4 & _ & H)]; [|done].
  destruct (persist_inr _ _ _ _ _ _ _ Hp) as (w0 & wm & inc' & x & Ht0 & Hs0 & Hmod & Hw2).
  exists impact, w0, wm, w2, w3, inc', x. split_and!; try done.
  - by apply negb_false_iff.
  - intros Hty. rewrite Hty, bool_decide_true in Hver by done. simpl in Hver. bool_facts.
    by apply not_eq_None_Some.
  - rewrite <- (ReadOnly_tab _ _ _ _ _ Hget). apply bind_Ret_inv in H as (ev & w5 & Hev & H).
    injection H as _ <-. by eapply toAPIEvent_tab.
Qed.

(** The row a patch leaves, with the end cleared when the event reopens. *)
Lemma patched_row p d v n r :
  inc_Status p = pd_Status d → inc_Type p = ir_type r → pd_Status d ≠ ""%string →
  (pd_Status d = IncidentResolved → inc_EndDate p = Some (pd_UpdateDate d)) →
  let r' := if pd_Status d == IncidentReopened then clear_end (modified_row p v n r)
            else modified_row p v n r in
  ir_status r' = Some (pd_Status d) ∧ ir_type r' = ir_type r ∧ ir_version r' = v + 1
  ∧ (pd_Status d = IncidentResolved → ir_end r' = Some (pd_UpdateDate d))
  ∧ (pd_Status d = IncidentReopened → ir_end r' = None).
Proof.
  intros Hs Ht Hne Hend. cbv zeta. unfold modified_row, applyIncidentPatch. rewrite Hs, Ht.
  rewrite (bool_decide_false (pd_Status d = ""%string)) by done.
  assert ((if ir_type r == ""%string then ir_type r else ir_type r) = ir_type r) as -> by (by case_match).
  destruct (decide (pd_Status d = IncidentReopened)) as [Hre|Hre].
  - rewrite bool_decide_true by done. simpl. split_and!; try done. intros Hx. by rewrite Hx in Hre.
  - rewrite bool_decide_false by done. simpl. split_and!; try done. intros Hx. by rewrite (Hend Hx).
Qed.

(** C3: a patch that is answered with 200 is in the store: the event has the new
    status, its type, the next version, and one more history entry, by the caller; a
    resolved event ends at the update's date and a reopened one has no end; a
    maintenance had exactly the version the caller gave; no other event and no
    component of any event changed. *)
Theorem patch_persisted pub c stored k r d E w b w' :
  PatchIncidentHandler pub c (Some d) E w = (Ret (mkResponse 200 b), w') → wf w →
  c_event c = Some stored → t_incident (w_tab w) !! k = Some r → stored = event_of (w_tab w) (k, r) →
  (∃ r', t_incident (w_tab w') !! k = Some r' ∧ ir_status r' = Some (pd_Status d)
     ∧ ir_type r' = ir_type r ∧ ir_version r' = default (ir_version r) (pd_Version d) + 1
     ∧ (pd_Status d = IncidentResolved → ir_end r' = Some (pd_UpdateDate d))
     ∧ (pd_Status d = IncidentReopened → ir_end r' = None))
  ∧ (∃ st, statuses_of (w_tab w') k = statuses_of (w_tab w) k ++ [st]
     ∧ st_Status st = pd_Status d ∧ st_Text st = pd_Message d ∧ st_CreatedBy st = c_userID c)
  ∧ (ir_type r = TypeMaintenance → pd_Version d = Some (ir_version r))
  ∧ (∀ j, j ≠ k → t_incident (w_tab w') !! j = t_incident (w_tab w) !! j
       ∧ statuses_of (w_tab w') j = statuses_of (w_tab w) j)
  ∧ t_rel (w_tab w') = t_rel (w_tab w).
Proof.
  intros H Hwf Hc Hr ->.
  destruct (PatchIncidentHandler_200 _ _ _ _ _ _ _ _ H Hc)
    as (impact & w0 & wm & w2 & w3 & inc' & x & Hbind & Hreq & Ht0 & Hs0 & Hmod & Hw2 & Hre & Hw').
  destruct (patched_fields c (w_tab w) k r d impact) as (Hpid & Hpty & Hpst & Hpv & Hphist & Hpend).
  set (p := patched _ _ _ _) in *. clearbody p.
  assert (wf w0) as Hwf0 by (eapply wf_same; [exact Ht0|rewrite Hs0; reflexivity|exact Hwf]).
  apply (modify_loaded _ (newStatus k (pd_Status d) (pd_Message d) (pd_UpdateDate d) (c_userID c)))
    in Hmod as (v & n & st & Hv & Hti & Htr & Hmv & Hst & Happ & Hother); [|done|by rewrite Hpid, Ht0|done|].
  2:{ by rewrite Hpid, owner_new. }
  rewrite Hpid, Hpty, Ht0 in *. rewrite Hpv in Hv. injection Hv as <-.
  assert (ir_type r = TypeMaintenance → ir_version r = default (ir_version r) (pd_Version d)) as Hvok.
  { intros Hm. destruct (Hmv Hm) as (r0 & Hr0 & ?). congruence. }
  pose proof (with_modified_row p (default (ir_version r) (pd_Version d)) n (w_tab w) r) as Hrow.
  rewrite Hpid, Hpty in Hrow. specialize (Hrow Hr Hvok).
  set (v := default (ir_version r) (pd_Version d)) in *. set (r1 := modified_row p v n r) in *.
  apply (reopen_Ret _ _ _ _ _ r1) in Hre; [|rewrite Hpid, Hw2; cbn [t_incident set_outbox]; congruence].
  rewrite Hpid, Hw2 in Hre. cbn [t_incident set_outbox] in Hre. rewrite Hti in Hre. rewrite Hw', Hre.
  destruct Happ as (_ & Happ1 & Happ2 & _ & Happ3).
  split_and!.
  - exists (if pd_Status d == IncidentReopened then clear_end r1 else r1). split.
    { cbn [t_incident set_incidents]. case_bool_decide; [apply lookup_insert_eq|done]. }
    apply patched_row; try done. unfold bind_PatchIncidentData in Hbind. by bool_facts.
  - exists st. by split_and!.
  - intros Hm. destruct (Hreq Hm) as [v' Hv']. specialize (Hvok Hm). subst v. rewrite Hv' in Hvok |- *.
    by rewrite Hvok.
  - intros j Hj. split; [|by apply Hother]. cbn [t_incident set_incidents].
    case_bool_decide; rewrite ?lookup_insert_ne by done; apply with_modified_other; by rewrite Hpid.
  - cbn [t_rel set_incidents set_outbox]. done.
Qed.

Definition resolve_ctx : Ctx := operator_ctx (Some (stored_event 1)).
Definition resolve_run : outcome Response * World :=
  PatchIncidentHandler None resolve_ctx (Some (sample_patch IncidentResolved None)) (env_at 300) sample_world.

Lemma patch_persisted_witness :
  ∃ b, resolve_run.1 = Ret (mkResponse 200 b)
  ∧ ∃ r', t_incident (w_tab resolve_run.2) !! 1 = Some r' ∧ ir_end r' = Some 250 ∧ ir_version r' = 2.
Proof.
  assert (∃ b, resolve_run.1 = Ret (mkResponse 200 b)) as [b Hb] by (eexists; vm_compute; reflexivity).
  exists b. split; [exact Hb|].
  destruct (patch_persisted None resolve_ctx (stored_event 1) 1
    (incident_row TypeIncident IncidentDetected 100 None 2 1) (sample_patch IncidentResolved None)
    (env_at 300) sample_world b resolve_run.2) as ((r' & Hr' & _ & _ & Hv & He & _) & _);
    [rewrite <- Hb; apply surjective_pairing|apply sample_wf|reflexivity|vm_compute; reflexivity|vm_compute; reflexivity|].
  exists r'. split; [exact Hr'|]. split; [by apply He|exact Hv].
Defined.

(** ** Optimistic locking *)

(** A modification of a maintenance that the validators accept. *)
Record modification (inc : Incident) (v : Z) : Prop := mk_modification {
  md_version : inc_Version inc = Some v;
  md_type : inc_Type inc = TypeMaintenance;
  md_valid : patch_valid inc = true;
  md_updates : ∀ s, s ∈ inc_Statuses inc → st_ID s = 0 → status_valid s }.

Lemma ModifyIncident_conflict inc v E w : fault_free E → modification inc v →
  (∀ r, t_incident (w_tab w) !! inc_ID inc = Some r → ir_version r ≠ v) →
  ∃ w', ModifyIncident inc E w = (Fail (EDb ErrDBVersionConflict), w') ∧ w_tab w' = w_tab w.
Proof.
  intros HE [Hv Ht Hp _] Hr. destruct (ModifyIncident inc E w) as [o w'] eqn:H.
  pose proof (WithTx_free (modifyIncident inc) E w HE) as Hfree. cbv zeta in Hfree.
  unfold ModifyIncident, execWithTx in H. rewrite H in Hfree. simpl in Hfree.
  rewrite (modifyIncident_conflict inc v) in Hfree by done. subst o.
  exists w'. split; [done|]. by eapply WithTx_not_Ret.
Qed.

Lemma modifyIncident_rows inc E w inc' w' :
  modifyIncident inc E w = (Ret inc', w') →
  ∃ v n, inc_Version inc = Some v ∧ inc_Version inc' = Some (v + 1)
    ∧ ∀ j, t_incident (w_tab w') !! j = t_incident (with_modified inc v n (w_tab w)) !! j.
Proof.
  intros H. apply modifyIncident_Ret in H as (v & wm & l & Hv & _ & Htm & _ & _ & Hins & ->).
  exists v, (now_at E (w_tick w)). split_and!; [done..|]. intros j. rewrite <- Htm.
  exact (frame_insertNewStatuses j _ _ _ _ _ _ Hins).
Qed.

(** Without faults, a modification of a maintenance succeeds exactly when the
    version it was read at is the stored one; it then raises the version by one.
    Otherwise it is refused as a version conflict and changes nothing. *)
Theorem version_checked inc v r E w :
  fault_free E → modification inc v → t_incident (w_tab w) !! inc_ID inc = Some r →
  if ir_version r =? v
  then ∃ inc' w' r', ModifyIncident inc E w = (Ret inc', w') ∧ inc_Version inc' = Some (v + 1)
       ∧ t_incident (w_tab w') !! inc_ID inc = Some r' ∧ ir_version r' = v + 1
       ∧ ∀ j, j ≠ inc_ID inc → t_incident (w_tab w') !! j = t_incident (w_tab w) !! j
  else ∃ w', ModifyIncident inc E w = (Fail (EDb ErrDBVersionConflict), w') ∧ w_tab w' = w_tab w.
Proof.
  intros HE Hm Hr. destruct (ir_version r =? v) eqn:Hv; bool_facts.
  - destruct Hm as [Hver Ht Hp Hst].
    set (w0 := mkWorld (w_tab w) (w_seq w) (w_tick w) (S (w_stmt w)) (w_signal w)).
    destruct (modifyIncident_free inc v r E w0) as (inc' & w1 & Hmod); [done..|].
    exists inc'. eexists. unfold ModifyIncident, execWithTx, WithTx.
    rewrite (stmt_free E w HE). fold w0. rewrite Hmod, (stmt_free E w1 HE).
    destruct (modifyIncident_rows _ _ _ _ _ Hmod) as (v' & n & Hv' & Hver' & Hrows).
    assert (v' = v) as -> by congruence.
    exists (modified_row inc v n r). split_and!; try done; intros; cbn [w_tab]; rewrite Hrows.
    + by apply with_modified_row.
    + by apply with_modified_other.
  - apply (ModifyIncident_conflict inc v); [done..|]. intros r'. by rewrite Hr; intros [= <-].
Qed.

Definition sample_modification : Incident := set_Version (stored_event 2) (Some 3).

Lemma sample_modification_ok : modification sample_modification 3.
Proof.
  split; [reflexivity..|]. intros s Hs H0.
  assert (Forall (λ s, st_ID s ≠ 0) (inc_Statuses sample_modification)) as H
    by (vm_compute; repeat constructor; discriminate).
  rewrite Forall_forall in H. by destruct (H s Hs).
Qed.

Lemma version_checked_witness :
  modification sample_modification 3
  ∧ ∃ inc' w' r', ModifyIncident sample_modification (env_at 300) sample_world = (Ret inc', w')
      ∧ t_incident (w_tab w') !! 2 = Some r' ∧ ir_version r' = 4.
Proof.
  pose proof sample_modification_ok as Hm.
  split; [exact Hm|].
  destruct (version_checked sample_modification 3
    (incident_row TypeMaintenance MaintenancePlanned 200 (Some 400) 0 3) (env_at 300) sample_world)
    as (inc' & w' & r' & H & _ & Hr & Hv & _); [apply env_at_free|exact Hm|vm_compute; reflexivity|].
  exists inc', w', r'. split; [exact H|]. split; [exact Hr|exact Hv].
Defined.

(** C4: two writers that read a maintenance at the same version cannot both save it:
    once the first has committed, the second is refused as a conflict and the first
    one's row stands, whatever the second wanted to write. *)
Theorem no_lost_update inc1 inc2 v E1 E2 w inc1' w1 w2 :
  ModifyIncident inc1 E1 w = (Ret inc1', w1) →
  modification inc1 v → modification inc2 v → inc_ID inc1 = inc_ID inc2 →
  t_incident (w_tab w2) = t_incident (w_tab w1) → fault_free E2 →
  ∃ w3, ModifyIncident inc2 E2 w2 = (Fail (EDb ErrDBVersionConflict), w3) ∧ w_tab w3 = w_tab w2.
Proof.
  intros H1 Hm1 Hm2 Hid Hw2 HE2. apply (ModifyIncident_conflict inc2 v); [done..|]. rewrite Hw2, <- Hid.
  unfold ModifyIncident, execWithTx in H1.
  apply WithTx_Ret in H1 as (w0 & wb & Ht0 & _ & _ & _ & _ & Hmod & Ht1 & _). rewrite Ht1.
  destruct (modifyIncident_rows _ _ _ _ _ Hmod) as (v' & n & Hv' & _ & Hrows).
  assert (v' = v) as -> by (pose proof (md_version _ _ Hm1); congruence).
  intros r. rewrite Hrows. unfold with_modified. cbn [t_incident set_incidents].
  rewrite lookup_update_where. intros (r0 & Hr0 & ->)%fmap_Some.
  destruct (modify_matches _ _ _ _) eqn:Hm; [simpl; lia|].
  unfold modify_matches in Hm. rewrite (md_type _ _ Hm1) in Hm. rewrite !bool_decide_true in Hm by done.
  simpl in Hm. by bool_facts.
Qed.

Lemma no_lost_update_witness :
  ∃ inc' w1 w3, ModifyIncident sample_modification (env_at 300) sample_world = (Ret inc', w1)
    ∧ ModifyIncident sample_modification (env_at 301) w1 = (Fail (EDb ErrDBVersionConflict), w3)
    ∧ w_tab w3 = w_tab w1.
Proof.
  pose proof sample_modification_ok as Hm.
  destruct (ModifyIncident sample_modification (env_at 300) sample_world) as [o w1] eqn:H.
  assert (∃ inc', o = Ret inc') as [inc' ->].
  { change o with (o, w1).1. rewrite <- H. eexists. vm_compute. reflexivity. }
  destruct (no_lost_update sample_modification sample_modification 3 (env_at 300) (env_at 301)
    sample_world inc' w1 w1 H Hm Hm eq_refl eq_refl (env_at_free 301)) as (w3 & H3 & Hw3).
  exists inc', w1, w3. split; [reflexivity|]. split; [exact H3|exact Hw3].
Defined.

(** ** Saving and loading *)

Lemma elem_of_components_of t i c :
  c ∈ comp_ID <$> components_of t i ↔ (i, c) ∈ t_rel t ∧ is_Some (t_component t !! c).
Proof.
  unfold components_of. rewrite list_elem_of_fmap. setoid_rewrite elem_of_omap. split.
  - intros (x & -> & [k r] & Hin & Hx). apply elem_of_rows in Hin. simpl in Hx.
    case_bool_decide; [|done]. injection Hx as <-. split; [done|by eexists].
  - intros [Hrel [r Hr]]. eexists. split; [|exists (c, r); split; [by apply elem_of_rows|]].
    2:{ simpl. by rewrite bool_decide_true. }
    done.
Qed.

Lemma nullable_Some v : (∀ t, v = Some t → t ≠ zero_time) → nullable_time v = v.
Proof.
  unfold nullable_time, optTimePtr, IsZero. destruct v as [t|]; simpl; [|done]. intros H.
  rewrite bool_decide_false; [done|]. by apply H.
Qed.


