(* ===== verification/PropsMove.v ===== *)
(** * Properties of components and their events

    Extraction and moves of components between events, the creation of components,
    and what a system incident does with a component that other events cover. *)

From S2P Require Import Prelude GoStrings GoTime Errors Event Rbac Models Store Queries Writes Integrity WritesSpec Outbox Notify Facade Checker CheckerSpec Api Handlers Samples PropsStore.
Local Open Scope Z_scope.

(** ** Extraction *)

Lemma components_by_id_inr ids stored : ∀ moved, components_by_id ids stored = inr moved →
  comp_ID <$> moved = ids ∧ ∀ c, c ∈ moved → c ∈ stored.
Proof.
  induction ids as [|id ids IH]; intros moved H; simpl in H; [injection H as <-; set_solver|].
  destruct (last _) as [sc|] eqn:Hl; [|done].
  destruct (components_by_id ids stored) as [|l] eqn:Hc; [done|]. injection H as <-.
  destruct (IH l eq_refl) as [Hids Hin].
  assert (sc ∈ filterb (λ c, comp_ID c == id) stored) as Hsc by (by apply last_Some_elem_of).
  apply elem_of_filterb in Hsc as [Hsc Heq]. bool_facts. rewrite fmap_cons, Hids, Heq. split; [done|].
  intros c [->|?]%elem_of_cons; auto.
Qed.

Lemma last_filterb {A} (f : A → bool) l x : x ∈ l → f x = true → is_Some (last (filterb f l)).
Proof.
  intros Hx Hf. apply last_is_Some. intros Hnil.
  assert (x ∈ filterb f l) as Hin by (by apply elem_of_filterb). rewrite Hnil in Hin. inversion Hin.
Qed.

Lemma components_by_id_ex ids stored : (∀ id, id ∈ ids → id ∈ comp_ID <$> stored) →
  ∃ moved, components_by_id ids stored = inr moved.
Proof.
  induction ids as [|id ids IH]; intros Hin; simpl; [by eexists|].
  destruct (IH ltac:(set_solver)) as [l ->].
  assert (id ∈ comp_ID <$> stored) as Hid by (apply Hin; left).
  apply list_elem_of_fmap in Hid as (c & -> & Hc).
  destruct (last_filterb (λ c', comp_ID c' == comp_ID c) stored c) as [sc ->]; [done| |by eexists].
  by apply bool_decide_eq_true.
Qed.

(** A set of components can be extracted from an event exactly when all of them
    belong to it and at least one other stays; the components are then those, in the
    requested order. *)
Theorem extract_selection ids stored :
  NoDup ids → NoDup (comp_ID <$> stored) →
  ((∃ moved, getComponentsToExtract ids stored = inr moved ∧ comp_ID <$> moved = ids
      ∧ ∀ c, c ∈ moved → c ∈ stored) ↔
   (∀ id, id ∈ ids → id ∈ comp_ID <$> stored) ∧ ∃ c, c ∈ stored ∧ comp_ID c ∉ ids).
Proof.
  intros Hids Hstored. unfold getComponentsToExtract.
  assert (∀ moved, comp_ID <$> moved = ids → length moved = length ids) as Hlen.
  { intros moved <-. by rewrite length_fmap. }
  split.
  - intros (moved & H & Heq & Hin). destruct (components_by_id ids stored) as [|l] eqn:Hc; [done|].
    case_bool_decide as Hn; [done|]. injection H as ->. split.
    + rewrite <- Heq. intros id (c & -> & Hc')%list_elem_of_fmap. apply list_elem_of_fmap. eauto.
    + destruct (decide (Forall (λ c, comp_ID c ∈ ids) stored)) as [Hall|Hall].
      * exfalso. apply Hn. rewrite (Hlen moved Heq).
        assert (comp_ID <$> stored ≡ₚ ids) as Hp.
        { apply NoDup_Permutation; [done..|]. intros x. split.
          - intros (c & -> & Hcs)%list_elem_of_fmap. rewrite Forall_forall in Hall. auto.
          - rewrite <- Heq. intros (c & -> & Hcs)%list_elem_of_fmap. apply list_elem_of_fmap. eauto. }
        by rewrite <- Hp, length_fmap.
      * apply not_Forall_Exists in Hall; [|apply _]. apply Exists_exists in Hall as (c & ? & ?). eauto.
  - intros (Hsub & c & Hc & Hcn). destruct (components_by_id_ex ids stored Hsub) as [moved Hm].
    rewrite Hm. destruct (components_by_id_inr _ _ _ Hm) as [Heq Hin].
    rewrite bool_decide_false; [eauto|]. rewrite (Hlen moved Heq). intros Hl.
    assert (ids ≡ₚ comp_ID <$> stored) as Hp.
    { apply submseteq_length_Permutation; [by apply NoDup_submseteq|]. rewrite length_fmap. lia. }
    apply Hcn. rewrite Hp. apply list_elem_of_fmap. eauto.
Qed.

Lemma extract_selection_witness :
  NoDup [2] ∧ ∃ moved, getComponentsToExtract [2] (inc_Components (stored_event 1)) = inr moved
                       ∧ comp_ID <$> moved = [2].
Proof.
  assert (NoDup [2]) as H by (repeat constructor; set_solver).
  assert (NoDup (comp_ID <$> inc_Components (stored_event 1))) as H'
    by (apply (bool_decide_unpack _); vm_compute; exact I).
  split; [exact H|].
  destruct (proj2 (extract_selection [2] (inc_Components (stored_event 1)) H H')) as (moved & Hm & Hi & _).
  - vm_compute. split.
    + intros id Hid. apply list_elem_of_singleton in Hid as ->. right. left.
    + eexists. split; [left|]. vm_compute. intros Hx. inversion Hx as [|? ? ? Hx']; inversion Hx'.
  - exists moved. split; [exact Hm|exact Hi].
Defined.

(** An event as it is loaded from the store. *)
Definition loaded (w : World) (k : Z) (inc : Incident) : Prop :=
  ∃ r, t_incident (w_tab w) !! k = Some r ∧ inc = event_of (w_tab w) (k, r).

Lemma loaded_ID w k inc : loaded w k inc → inc_ID inc = k.
Proof. by intros (r & _ & ->). Qed.

Lemma loaded_owned w k inc : wf w → loaded w k inc → updates_owned inc.
Proof.
  intros Hw (r & _ & ->) s Hs H0. exfalso. by apply (statuses_of_ids w k s Hw).
Qed.

(** Its components are those attached to it. *)
Lemma loaded_components w k inc c : wf w → loaded w k inc →
  c ∈ nonzero_ids (inc_Components inc) ↔ (k, c) ∈ t_rel (w_tab w).
Proof.
  intros Hw (r & _ & ->).
  change (inc_Components (event_of (w_tab w) (k, r))) with (components_of (w_tab w) k).
  rewrite elem_of_nonzero_ids.
  trans (c ≠ 0 ∧ c ∈ comp_ID <$> components_of (w_tab w) k).
  { rewrite list_elem_of_fmap. split; intros [? (x & ? & ?)]; split; try done; by exists x. }
  rewrite elem_of_components_of. split; [by intros (_ & ? & _)|]. intros Hrel.
  destruct (wf_rel_fk w Hw _ _ Hrel) as [_ Hc]. split; [|done].
  pose proof (wf_component_ids w Hw c Hc). lia.
Qed.


Definition extract_run : outcome Response * World :=
  PostIncidentExtractHandler (operator_ctx (Some (stored_event 1))) (Some [2]) (env_at 300) sample_world.


(** ** Moves *)

#[global] Instance atomic_Move comp old new close :
  Atomic (MoveComponentFromOldToAnotherIncident comp old new close).
Proof.
  unfold MoveComponentFromOldToAnotherIncident.
  apply atomic_bind; [apply _|]. intros n. apply atomic_bind.
  { destruct (comp_Name comp == _); apply _. }
  intros c. apply atomic_bind; [apply _|]. intros ol. apply atomic_bind; [apply _|]. intros nl. apply _.
Qed.

(** Moving a component between two stored events either moves it or, whichever
    statement fails, changes no table.  After a move the target has the component; the
    source has lost it and keeps its status, or, when it is closed by the move, it keeps
    its components and is resolved with the time of the move as its end. *)
Theorem move_all_or_nothing comp old new ko kn close E w o w' :
  MoveComponentFromOldToAnotherIncident comp old new close E w = (o, w') →
  wf w → loaded w ko old → loaded w kn new → ko ≠ kn → comp_ID comp ≠ 0 →
  (w_tab w' = w_tab w ∧ ∀ a, o ≠ Ret a) ∨
  ((∀ x, (kn, x) ∈ t_rel (w_tab w') ↔ (kn, x) ∈ t_rel (w_tab w) ∨ x = comp_ID comp)
   ∧ (∀ x, (ko, x) ∈ t_rel (w_tab w') ↔
        (ko, x) ∈ t_rel (w_tab w) ∧ (close = true ∨ x ≠ comp_ID comp))
   ∧ ∃ r, t_incident (w_tab w') !! ko = Some r
       ∧ ir_status r = Some (if close then IncidentResolved else inc_Status old)
       ∧ ir_end r = (if close then Some (now_at E (w_tick w)) else inc_EndDate old)).
Proof.
  intros H Hwf Ho Hn Hne Hc. destruct o as [[new' old']|e|].
  2,3: left; split; [|done]; by eapply atomic_Move.
  right. pose proof (loaded_ID _ _ _ Ho) as Hko. pose proof (loaded_ID _ _ _ Hn) as Hkn.
  pose proof (loaded_owned _ _ _ Hwf Ho) as Hoo. pose proof (loaded_owned _ _ _ Hwf Hn) as Hon.
  apply Move_Ret in H as (Hnew & Hold & Hr); [|try done; congruence..].
  rewrite Hko in Hold, Hr. rewrite Hkn in Hnew. split_and!; [| |done].
  - intros x. rewrite (Hnew x), elem_of_app, list_elem_of_singleton.
    by rewrite (loaded_components w kn).
  - intros x. rewrite (Hold x). destruct close.
    + rewrite (loaded_components w ko) by done. naive_solver.
    + rewrite elem_of_filterb, (loaded_components w ko), negb_true_iff, bool_decide_eq_false by done.
      naive_solver.
Qed.

Definition move_run : outcome (Incident * Incident) * World :=
  MoveComponentFromOldToAnotherIncident (mkComponent 2 "Storage" [] None None None)
    (stored_event 1) (stored_event 4) false (env_at 300) sample_world.

Lemma move_all_or_nothing_witness :
  loaded sample_world 1 (stored_event 1) ∧ loaded sample_world 4 (stored_event 4)
  ∧ (∃ a, move_run.1 = Ret a)
  ∧ ∀ x, (4, x) ∈ t_rel (w_tab move_run.2) ↔ (4, x) ∈ t_rel sample_tables ∨ x = 2.
Proof.
  assert (loaded sample_world 1 (stored_event 1)) as H1.
  { exists (incident_row TypeIncident IncidentDetected 100 None 2 1). split; vm_compute; reflexivity. }
  assert (loaded sample_world 4 (stored_event 4)) as H4.
  { exists (incident_row TypeIncident IncidentDetected 150 None 3 1). split; vm_compute; reflexivity. }
  assert (∃ a, move_run.1 = Ret a) as [a Ha] by (eexists; vm_compute; reflexivity).
  split; [exact H1|]. split; [exact H4|]. split; [by exists a|].
  destruct (move_all_or_nothing (mkComponent 2 "Storage" [] None None None) (stored_event 1)
    (stored_event 4) 1 4 false (env_at 300) sample_world move_run.1 move_run.2
    (surjective_pairing move_run) sample_wf H1 H4 ltac:(lia) ltac:(simpl; lia))
    as [[_ Hn]|(Hx & _)]; [exfalso; exact (Hn a Ha)|exact Hx].
Defined.

(** ** New components *)

Definition name_value (a : ComponentAttr) : string * string := (attr_Name a, attr_Value a).

Lemma attrs_of_insert t k a i : (∀ j, is_Some (t_attr t !! j) → j < k) →
  attrs_of (set_attrs (<[k := a]> (t_attr t)) t) i
  = attrs_of t i ++ (if ar_component a == i then [componentAttrFromEnt k a] else []).
Proof.
  intros Hk. unfold attrs_of. cbn [t_attr set_attrs]. rewrite rows_insert_last by done.
  rewrite omap_app. f_equal. cbn. by destruct (ar_component a == i).
Qed.

Lemma insert_attr_Ret i a E w a' w' :
  insert_attr i a E w = (Ret a', w') →
  let k := seq_attr (w_seq w) in
  a' = mkAttr k i (attr_Name a) (attr_Value a)
  ∧ w_tab w' = set_attrs (<[k := mkAttrRow i (attr_Name a) (attr_Value a)]> (t_attr (w_tab w))) (w_tab w)
  ∧ seq_attr (w_seq w') = k + 1.
Proof.
  unfold insert_attr, ent_check. destruct (_ && _)%bool; [|done]. intros H.
  apply bind_Ret_inv in H as ([] & w1 & Hs & H). injection Hs as <-.
  apply bind_Ret_inv in H as ([] & w1 & Hs & H). apply stmt_Ret in Hs as [_ ->].
  unfold next_attr_id in H. eval_run H. destruct (existsb _ _); [done|]. by injection H as <- <-.
Qed.

Lemma insert_attrs_Ret i l : ∀ E w l' w',
  mapM (insert_attr i) l E w = (Ret l', w') → ids_below (t_attr (w_tab w)) (seq_attr (w_seq w)) →
  0 < seq_attr (w_seq w) →
  attrs_of (w_tab w') i = attrs_of (w_tab w) i ++ l' ∧ name_value <$> l' = name_value <$> l
  ∧ (∀ j, j ≠ i → attrs_of (w_tab w') j = attrs_of (w_tab w) j)
  ∧ t_component (w_tab w') = t_component (w_tab w).
Proof.
  induction l as [|a l IH]; intros E w l' w' H Hids Hpos.
  { injection H as <- <-. by rewrite app_nil_r. }
  apply bind_Ret_inv in H as (a' & w1 & Ha & H). apply bind_Ret_inv in H as (l1 & w2 & Hl & H).
  injection H as <- <-. apply insert_attr_Ret in Ha as (-> & Ht & Hs).
  assert (∀ j, is_Some (t_attr (w_tab w) !! j) → j < seq_attr (w_seq w)) as Hlast
    by (intros j Hj; apply Hids in Hj; lia).
  assert (ids_below (t_attr (w_tab w1)) (seq_attr (w_seq w1))) as Hids1
    by (rewrite Ht, Hs; by apply ids_below_insert).
  destruct (IH _ _ _ _ Hl Hids1 ltac:(lia)) as (H1 & H2 & H3 & H4).
  split_and!.
  - rewrite H1, Ht, attrs_of_insert by done. simpl. rewrite bool_decide_true by done.
    by rewrite <- app_assoc.
  - rewrite !fmap_cons, H2. done.
  - intros j Hj. rewrite H3, Ht, attrs_of_insert by done. simpl.
    rewrite bool_decide_false by done. by rewrite app_nil_r.
  - by rewrite H4, Ht.
Qed.

Lemma attrs_of_fresh w : wf w → attrs_of (w_tab w) (seq_component (w_seq w)) = [].
Proof.
  intros Hwf. destruct (attrs_of (w_tab w) (seq_component (w_seq w))) as [|x l] eqn:Hl; [done|].
  assert (x ∈ attrs_of (w_tab w) (seq_component (w_seq w))) as Hx by (rewrite Hl; left).
  unfold attrs_of in Hx. apply elem_of_omap in Hx as ([k a] & Hka & Hx). simpl in Hx.
  case_bool_decide as Hc; [|done]. apply elem_of_rows in Hka.
  pose proof (wf_attr_fk w Hwf _ _ Hka) as Hfk. rewrite Hc in Hfk.
  pose proof (wf_component_ids w Hwf _ Hfk). lia.
Qed.

#[global] Instance atomic_SaveComponent comp : Atomic (SaveComponent comp).
Proof.
  unfold SaveComponent. destruct (head _) as [a|].
  2:{ intros E w o w' [= <- <-] _. done. }
  apply atomic_bind; [apply _|]. intros [|]; [intros E w o w' [= <- <-] _; done|].
  apply atomic_bind; [apply _|]. intros n. apply _.
Qed.

(** Creating a component either stores it under a new id with exactly the given
    attributes, the attributes of every other component unchanged, or changes no table;
    it never stores one whose name is already taken in its region. *)
Theorem component_created comp E w o w' :
  SaveComponent comp E w = (o, w') → wf w →
  (w_tab w' = w_tab w ∧ ∀ a, o ≠ Ret a) ∨
  ∃ comp' a r, o = Ret comp' ∧ a ∈ comp_Attrs comp ∧ attr_Name a = regionAttrName
    ∧ component_taken (w_tab w) (comp_Name comp) (attr_Value a) = false
    ∧ t_component (w_tab w) !! comp_ID comp' = None
    ∧ t_component (w_tab w') = <[comp_ID comp' := r]> (t_component (w_tab w))
    ∧ cr_name r = comp_Name comp
    ∧ attrs_of (w_tab w') (comp_ID comp') = comp_Attrs comp'
    ∧ name_value <$> comp_Attrs comp' = name_value <$> comp_Attrs comp
    ∧ ∀ j, j ≠ comp_ID comp' → attrs_of (w_tab w') j = attrs_of (w_tab w) j.
Proof.
  intros H Hwf. destruct o as [comp'|e|]; [right|left; split; [by eapply atomic_SaveComponent|done]..].
  unfold SaveComponent in H.
  destruct (head _) as [a|] eqn:Ha; [|done].
  assert (a ∈ filterb (λ a, attr_Name a == regionAttrName) (comp_Attrs comp)) as Hin.
  { destruct (filterb _ _); [done|]. injection Ha as ->. left. }
  apply elem_of_filterb in Hin as [Hin Hreg]. bool_facts.
  apply bind_Ret_inv in H as (b & w1 & Hs & H). apply select_Ret in Hs as (-> & -> & _).
  destruct (component_taken _ _ _) eqn:Htaken; [done|].
  apply bind_Ret_inv in H as (n & w1 & Hn & H). injection Hn as <- <-.
  apply WithTx_Ret in H as (w0 & wb & Ht0 & Hs0 & _ & _ & _ & Hb & Htb & _). cbn [w_tab w_seq] in Ht0, Hs0.
  apply bind_Ret_inv in Hb as ([] & w1 & Hc & Hb).
  unfold ent_check in Hc. destruct (comp_Name comp != _); [|done]. injection Hc as <-.
  apply bind_Ret_inv in Hb as ([] & w1 & Hs & Hb). apply stmt_Ret in Hs as [_ ->].
  apply bind_Ret_inv in Hb as (id & w1 & Hid & Hb). injection Hid as <- <-.
  apply bind_Ret_inv in Hb as (t & w1 & Hg & Hb). injection Hg as <- <-.
  apply bind_Ret_inv in Hb as ([] & w1 & Hp & Hb). injection Hp as <-.
  apply bind_Ret_inv in Hb as (attrs & w1 & Hattrs & Hb). injection Hb as <- <-.
  cbn [w_tab w_seq] in *. rewrite Ht0, Hs0 in *.
  apply insert_attrs_Ret in Hattrs as (H1 & H2 & H3 & H4);
    [|cbn [w_tab w_seq seq_attr]; rewrite ?Hs0; apply Hwf..].
  cbn [w_tab set_components t_component] in *.
  eexists _, a, _. split; [reflexivity|]. rewrite Htb. cbn [comp_ID comp_Attrs].
  assert (attrs_of (w_tab w) (seq_component (w_seq w)) = []) as Hnone by (by apply attrs_of_fresh).
  split_and!; try done.
  - eapply ids_below_fresh, Hwf.
  - rewrite H1. change (attrs_of (set_components _ (w_tab w))) with (attrs_of (w_tab w)).
    by rewrite Hnone.
Qed.

Definition sample_component (name : string) : Component :=
  mkComponent 0 name [mkAttr 0 0 "region" "EU"; mkAttr 0 0 "type" "db"] None None None.

Lemma component_created_witness :
  (SaveComponent (sample_component "Compute") (env_at 300) sample_world).1
    = Fail (EDb ErrDBComponentExists)
  ∧ (∃ c, (SaveComponent (sample_component "Network") (env_at 300) sample_world).1 = Ret c)
  ∧ ∃ r, t_component (w_tab (SaveComponent (sample_component "Network") (env_at 300) sample_world).2) !! 3
         = Some r ∧ cr_name r = "Network"%string.
Proof.
  split; [vm_compute; reflexivity|]. split; [eexists; vm_compute; reflexivity|].
  destruct (SaveComponent (sample_component "Network") (env_at 300) sample_world) as [o w'] eqn:H.
  assert (∃ c, o = Ret c ∧ comp_ID c = 3) as (c & -> & Hid).
  { change o with (o, w').1. rewrite <- H. eexists. split; vm_compute; reflexivity. }
  destruct (component_created (sample_component "Network") (env_at 300) sample_world (Ret c) w' H sample_wf)
    as [[_ Hn]|(c' & a & r & [= <-] & _ & _ & _ & _ & Ht & Hr & _)]; [by destruct (Hn c)|].
  exists r. cbn [snd]. rewrite Ht, Hid. split; [apply lookup_insert_eq|exact Hr].
Defined.

(** ** System incidents *)

(** Whether an event decides for the component at once: a maintenance, or an incident
    somebody reported. *)
Definition decisive (ev : Incident) : bool :=
  (inc_Type ev == TypeMaintenance) || negb (inc_System ev).

Lemma scan_events_spec comp first l :
  scan_events comp first l =
  match head (filterb decisive l) with
  | Some ev => inl (mkProcResp (comp_ID comp) (inc_ID ev)
                 (if inc_Type ev == TypeMaintenance
                  then api_err_text ErrIncidentCreationMaintenanceExists else ""%string))
  | None => inr (match first with Some i => Some i | None => head l end)
  end.
Proof.
  revert first. induction l as [|ev l IH]; intros first; [by destruct first|].
  cbn [scan_events filterb]. unfold decisive at 1. destruct (inc_Type ev == TypeMaintenance) eqn:Ht; simpl.
  { by rewrite Ht. }
  destruct (inc_System ev); simpl; [|by rewrite Ht].
  rewrite IH. destruct (head (filterb decisive l)); [done|]. by destruct first.
Qed.

(** A system incident for a component that a maintenance or a reported incident
    covers, or whose system incident is already as severe, changes nothing: the answer
    names the covering event, with the conflict text for a maintenance.  Only a system
    incident of lower impact is escalated. *)
Theorem covered_component_untouched comp d impact events E w :
  let answer id text := (Ret (mkProcResp (comp_ID comp) id text), w) in
  match head (filterb decisive events), head events with
  | Some ev, _ =>
    handleComponentWithExistingEvents comp d impact events E w
    = answer (inc_ID ev) (if inc_Type ev == TypeMaintenance
        then api_err_text ErrIncidentCreationMaintenanceExists else ""%string)
  | None, Some ev => ∀ old, inc_Impact ev = Some old → impact <= old →
    handleComponentWithExistingEvents comp d impact events E w = answer (inc_ID ev) ""%string
  | None, None => True
  end.
Proof.
  cbv zeta. unfold handleComponentWithExistingEvents. rewrite scan_events_spec.
  destruct (head (filterb decisive events)) as [ev|]; [done|].
  destruct (head events) as [ev|]; [|done]. intros old Hi Hle.
  unfold handleSystemIncidentWithImpactComparison. rewrite Hi. rewrite bind_run. cbn [deref].
  rewrite ret_run. by rewrite (proj2 (Z.leb_le _ _) Hle).
Qed.
