(* ===== verification/PropsChecker.v ===== *)
(** * Properties of the status checker

    The status a maintenance has by the clock, the entries the checker back-fills, what
    one pass over a maintenance leaves in the store, and what a scan never touches. *)

From S2P Require Import Prelude GoStrings GoTime Errors Event Rbac Models Store Queries Writes Integrity WritesSpec Outbox Notify Facade Checker CheckerSpec Api Handlers Samples PropsStore.
Local Open Scope Z_scope.

(** ** The clock *)

(** The checker's status of a maintenance with an end is a function of the clock
    and of the history: cancelled once it was cancelled, planned while it is reviewed or
    not started, in progress strictly between its start and its end, completed from its
    end on; at the very instant of its start the code answers completed. *)
Theorem maintenance_clock mn start end_ E w :
  inc_StartDate mn = Some start → inc_EndDate mn = Some end_ →
  ∃ w' s, calculateCurrentMntStatus (calculateMntStatusHistory mn) mn E w = (Ret s, w')
    ∧ w_tab w' = w_tab w
    ∧ let n := now_at E (w_tick w) in
      (s = MaintenanceCancelled ↔ ∃ st, st ∈ inc_Statuses mn ∧ st_Status st = MaintenanceCancelled)
      ∧ (s ≠ MaintenanceCancelled →
         (s = MaintenancePlanned ↔ inc_Status mn = MaintenanceReviewed ∨ n < start)
         ∧ (inc_Status mn ≠ MaintenanceReviewed →
            (s = MaintenanceInProgress ↔ start < n < end_)
            ∧ (s = MaintenanceCompleted ↔ n = start ∨ (start < n ∧ end_ <= n)))).
Proof.
  intros Hs He.
  destruct (calculateCurrentMntStatus_run mn start E w Hs) as (w' & Hrun & Ht & _).
  exists w', (mnt_status_at (now_at E (w_tick w)) start mn). split_and!; [done..|]. cbv zeta.
  set (n := now_at E (w_tick w)). unfold mnt_status_at. rewrite He.
  destruct (has_status MaintenanceCancelled (inc_Statuses mn)) eqn:Hc.
  - split; [|done]. split; [|done]. intros _.
    apply existsb_true_iff in Hc as (st & Hst & Heq). bool_facts. eauto.
  - unfold has_status in Hc. rewrite existsb_false_iff in Hc. split.
    + split.
      * repeat case_match; discriminate.
      * intros (st & Hst & Heq). specialize (Hc st Hst). by bool_facts.
    + intros _. case_bool_decide as Hrev; [by split; [split; auto|]|].
      destruct (n <? start) eqn:H1; bool_facts.
      { split; [split; auto|]. intros _. split; (split; [discriminate|lia]). }
      destruct (start <? n) eqn:H2, (n <? end_) eqn:H3; simpl; bool_facts.
      all: split; [split; [discriminate|intros [?|?]; [done|lia]]|intros _].
      all: split; (split; [first [discriminate|intros _; lia]|first [done|lia]]).
Qed.

Lemma maintenance_clock_witness :
  ∃ w' s, calculateCurrentMntStatus (calculateMntStatusHistory (stored_event 2)) (stored_event 2)
            (env_at 300) sample_world = (Ret s, w') ∧ s = MaintenanceInProgress.
Proof.
  destruct (maintenance_clock (stored_event 2) 200 400 (env_at 300) sample_world)
    as (w' & s & Hrun & _ & Hc & Hs); [vm_compute; reflexivity|vm_compute; reflexivity|].
  exists w', s. split; [exact Hrun|]. apply Hs.
  - intros Hx. apply Hc in Hx as (st & Hst & Heq).
    assert (Forall (λ st, st_Status st ≠ MaintenanceCancelled) (inc_Statuses (stored_event 2))) as H
      by (vm_compute; repeat constructor; discriminate).
    rewrite Forall_forall in H. by destruct (H st Hst).
  - intros Hx. vm_compute in Hx. discriminate.
  - cbn. lia.
Defined.

(** ** Back-filling *)

Lemma missing_fresh id chain l st : st ∈ missing id chain l → has_status (st_Status st) l = false.
Proof.
  induction chain as [|[[s text] ts] chain IH]; cbn [missing]; [intros H; inversion H|].
  destruct (has_status s l) eqn:Hs; [done|]. intros [->|H]%elem_of_cons; [done|auto].
Qed.

Lemma missing_complete id chain l e : e ∈ chain → has_status e.1.1 (l ++ missing id chain l) = true.
Proof.
  induction chain as [|[[s text] ts] chain IH]; intros He; [inversion He|]. cbn [missing].
  rewrite has_status_app. destruct (has_status s l) eqn:Hs.
  - apply elem_of_cons in He as [->|He]; [simpl; by rewrite Hs|]. by rewrite <- has_status_app, IH.
  - apply elem_of_cons in He as [->|He]; [simpl; by rewrite bool_decide_true, orb_true_r|].
    specialize (IH He). rewrite has_status_app in IH. simpl.
    destruct (has_status e.1.1 l); simpl in *; [done|]. by rewrite IH, orb_true_r.
Qed.

Lemma missing_nil id chain l : (∀ e, e ∈ chain → has_status e.1.1 l = true) → missing id chain l = [].
Proof.
  induction chain as [|[[s text] ts] chain IH]; [done|]. intros H. cbn [missing].
  pose proof (H (s, text, ts) ltac:(left)) as Hs. simpl in Hs. rewrite Hs. apply IH. intros e He. apply H. by right.
Qed.

Lemma missing_NoDup id chain l : NoDup chain.*1.*1 → NoDup (st_Status <$> missing id chain l).
Proof.
  induction chain as [|[[s text] ts] chain IH]; [constructor|]. rewrite !fmap_cons.
  intros [Hs Hnd]%NoDup_cons. cbn [missing]. destruct (has_status s l); [auto|].
  rewrite fmap_cons. constructor; [|auto]. simpl. intros (st & Hst & Hin)%list_elem_of_fmap.
  apply Hs. clear -Hst Hin. induction chain as [|[[s' text'] ts'] chain IH]; cbn [missing] in Hin; [inversion Hin|].
  rewrite !fmap_cons. destruct (has_status s' l); [right; auto|].
  apply elem_of_cons in Hin as [->|Hin]; [simpl in *; subst; left|right; auto].
Qed.

(** Back-filling does not change which statuses are due. *)
Lemma mnt_chain_stable mn status chain :
  mnt_chain mn status = Some chain →
  mnt_chain (set_Statuses mn (inc_Statuses mn ++ missing (inc_ID mn) chain (inc_Statuses mn))) status
  = Some chain.
Proof.
  intros Hchain. unfold mnt_chain in *. cbn [inc_Statuses set_Statuses inc_StartDate inc_EndDate].
  repeat (case_bool_decide; [done|]).
  destruct (status == MaintenanceCancelled); [|done].
  rewrite !has_status_app.
  destruct (has_status MaintenanceReviewed (inc_Statuses mn)) eqn:Hrv; [done|].
  destruct (has_status MaintenancePlanned (inc_Statuses mn)) eqn:Hpl; simpl in *; [by rewrite orb_true_r|].
  by injection Hchain as <-.
Qed.

(** Whatever updates were missed, one evaluation leaves a complete history: every
    status on the way to the current one is recorded, each added entry is dated by the
    schedule (the start, or the end for completed) and none repeats a recorded status;
    evaluating the result again adds nothing. *)
Theorem backfill_complete mn start end_ status :
  inc_StartDate mn = Some start → inc_EndDate mn = Some end_ →
  ∃ chain added,
    let mn' := set_Statuses mn (inc_Statuses mn ++ added) in
    mnt_chain mn status = Some chain
    ∧ (∀ E w, ∃ h, fixMntMissedStatuses status (calculateMntStatusHistory mn, mn) E w = (Ret (h, mn'), w))
    ∧ (∀ e, e ∈ chain → has_status e.1.1 (inc_Statuses mn') = true)
    ∧ (∀ st, st ∈ added → has_status (st_Status st) (inc_Statuses mn) = false
         ∧ st_IncidentID st = inc_ID mn
         ∧ st_Timestamp st = if st_Status st == MaintenanceCompleted then end_ else start)
    ∧ NoDup (st_Status <$> added)
    ∧ (∀ E w, ∃ h, fixMntMissedStatuses status (calculateMntStatusHistory mn', mn') E w = (Ret (h, mn'), w)).
Proof.
  intros Hs He.
  assert (∃ chain, mnt_chain mn status = Some chain) as [chain Hchain].
  { unfold mnt_chain. rewrite Hs, He. repeat case_match; by eexists. }
  exists chain, (missing (inc_ID mn) chain (inc_Statuses mn)). cbv zeta.
  assert (NoDup chain.*1.*1 ∧ ∀ e, e ∈ chain →
    e.2 = if e.1.1 == MaintenanceCompleted then end_ else start) as [Hnd Hts].
  { unfold mnt_chain in Hchain. rewrite Hs, He in Hchain.
    repeat case_match; simplify_eq/=; (split; [apply (bool_decide_unpack _); vm_compute; exact I|]).
    all: intros e Hin; repeat (apply elem_of_cons in Hin as [->|Hin]; [reflexivity|]); inversion Hin. }
  split_and!; [done| | | | |].
  - intros E w. eexists. by apply fixMntMissedStatuses_spec.
  - intros e Hin. by apply missing_complete.
  - intros st Hst. split; [by eapply missing_fresh|].
    clear -Hst Hts. induction chain as [|[[s text] ts] chain IH]; cbn [missing] in Hst; [inversion Hst|].
    assert (∀ e, e ∈ chain → e.2 = if e.1.1 == MaintenanceCompleted then end_ else start) as Hts'
      by (intros e Hin; apply Hts; by right).
    destruct (has_status s _); [auto|]. apply elem_of_cons in Hst as [->|Hst]; [|auto].
    split; [done|]. exact (Hts (s, text, ts) ltac:(left)).
  - by apply missing_NoDup.
  - intros E w. eexists. rewrite (fixMntMissedStatuses_spec _ status chain).
    2:{ by apply mnt_chain_stable. }
    cbn [inc_Statuses set_Statuses inc_ID].
    rewrite (missing_nil _ chain (inc_Statuses mn ++ _)) by (intros e Hin; by apply missing_complete).
    unfold with_added. cbn [inc_Statuses set_Statuses]. by rewrite app_nil_r.
Qed.

Lemma backfill_complete_witness :
  ∃ added, NoDup (st_Status <$> added)
    ∧ ∀ E w, ∃ h, fixMntMissedStatuses MaintenanceCompleted
        (calculateMntStatusHistory (stored_event 2), stored_event 2) E w
      = (Ret (h, set_Statuses (stored_event 2) (inc_Statuses (stored_event 2) ++ added)), w).
Proof.
  destruct (backfill_complete (stored_event 2) 200 400 MaintenanceCompleted)
    as (chain & added & _ & Hrun & _ & _ & Hnd & _); [vm_compute; reflexivity|vm_compute; reflexivity|].
  exists added. split; [exact Hnd|exact Hrun].
Defined.

(** ** One pass over a maintenance *)

#[global] Instance ro_evaluateAndFix mn : ReadOnly (evaluateAndFixMntStatus mn).
Proof.
  intros P. unfold evaluateAndFixMntStatus, fixMntMissedStatuses, fix_mnt_completed,
    fix_mnt_in_progress, fix_mnt_planned, fix_mnt_case. pres.
Qed.
#[global] Instance ro_needsRefetch mn : ReadOnly (needsRefetch mn).
Proof. intros P. unfold needsRefetch. pres. Qed.

(** What a pass leaves: nothing changed, with the stored status right at [n], or the
    status of instant [n] with its history. *)
Inductive passed (w w' : World) (k : Z) (r : IncidentRow) (n : Z) : Prop :=
| pass_idle :
    mnt_status_at n (ir_start r) (event_of (w_tab w) (k, r)) = default ""%string (ir_status r) →
    w_tab w' = w_tab w → passed w w' k r n
| pass_advanced s chain new r' :
    s = mnt_status_at n (ir_start r) (event_of (w_tab w) (k, r)) → Some s ≠ ir_status r →
    mnt_chain (event_of (w_tab w) (k, r)) s = Some chain →
    t_incident (w_tab w') !! k = Some r' → ir_status r' = Some s → ir_version r' = ir_version r + 1 →
    ir_start r' = ir_start r → ir_end r' = ir_end r →
    statuses_of (w_tab w') k = statuses_of (w_tab w) k ++ new →
    Forall2 (appended k) (missing k chain (statuses_of (w_tab w) k)) new →
    (∀ j, j ≠ k → t_incident (w_tab w') !! j = t_incident (w_tab w) !! j
                  ∧ statuses_of (w_tab w') j = statuses_of (w_tab w) j) →
    passed w w' k r n.

Lemma evaluateAndFix_run mn start end_ E w :
  inc_StartDate mn = Some start → inc_EndDate mn = Some end_ →
  ∃ w1 chain, let s := mnt_status_at (now_at E (w_tick w)) start mn in
    mnt_chain mn s = Some chain
    ∧ evaluateAndFixMntStatus mn E w
      = (Ret (s, set_Statuses mn (inc_Statuses mn ++ missing (inc_ID mn) chain (inc_Statuses mn))), w1)
    ∧ w_tab w1 = w_tab w ∧ w_seq w1 = w_seq w.
Proof.
  intros Hs He. destruct (calculateCurrentMntStatus_run mn start E w Hs) as (w1 & Hrun & Ht & Hq & _).
  set (s := mnt_status_at _ _ _) in *.
  assert (∃ chain, mnt_chain mn s = Some chain) as [chain Hchain].
  { unfold mnt_chain. rewrite Hs, He. repeat case_match; by eexists. }
  exists w1, chain. cbv zeta. split; [done|]. split; [|done].
  unfold evaluateAndFixMntStatus. rewrite (bind_run_Ret _ _ _ _ _ _ Hrun).
  rewrite (bind_run_Ret _ _ _ _ _ _ (fixMntMissedStatuses_spec mn s chain E w1 Hchain)). done.
Qed.

Lemma mnt_status_nonempty n start mn : mnt_status_at n start mn ≠ ""%string.
Proof. unfold mnt_status_at. repeat case_match; discriminate. Qed.

Lemma missing_new id chain l s : s ∈ missing id chain l → st_ID s = 0 ∧ owner s id = id.
Proof.
  induction chain as [|[[s' text] ts] chain IH]; cbn [missing]; [intros H; inversion H|].
  destruct (has_status s' l); [done|]. intros [->|H]%elem_of_cons; [|auto].
  split; [done|apply owner_new].
Qed.

(** The committed write of a pass. *)
Lemma pass_write w k r e s chain n E w0 wm wd inc' x w' :
  wf w → t_incident (w_tab w) !! k = Some r → ir_type r = TypeMaintenance →
  ir_end r = Some e → e ≠ zero_time →
  let ev := event_of (w_tab w) (k, r) in
  s = mnt_status_at n (ir_start r) ev → inc_Status ev ≠ s → mnt_chain ev s = Some chain →
  w_tab w0 = w_tab w → wf w0 →
  modifyIncident (set_Status (set_Statuses ev (inc_Statuses ev ++ missing k chain (inc_Statuses ev))) s) E w0
    = (Ret inc', wm) →
  w_tab wd = set_outbox x (w_tab wm) → w_tab w' = w_tab wd → passed w w' k r n.
Proof.
  intros Hwf Hr Hty He Hz ev Hs Hne Hchain Ht0 Hwf0 Hmod Hwd Hw'.
  apply (modify_loaded_list _ (missing k chain (statuses_of (w_tab w) k)))
    in Hmod as (v & n' & new & Hv & Hti & _ & _ & Hst & Hall & Hother & _);
    [|done|by rewrite Ht0|intros st Hst; by apply missing_new in Hst].
  cbn [inc_Version inc_ID set_Status set_Statuses] in Hv, Hti, Hst, Hall, Hother.
  change (inc_ID ev) with k in *. change (inc_Version ev) with (Some (ir_version r)) in Hv.
  injection Hv as <-. rewrite Ht0 in *.
  set (fresh := set_Status _ s) in *.
  pose proof (with_modified_row fresh (ir_version r) n' (w_tab w) r Hr ltac:(done)) as Hrow.
  change (inc_ID fresh) with k in Hrow.
  eapply (pass_advanced _ _ _ _ _ s chain new (modified_row fresh (ir_version r) n' r)); try done.
  - intros Heq. apply Hne. unfold ev. simpl. by rewrite <- Heq.
  - rewrite Hw', Hwd. cbn [t_incident set_outbox]. by rewrite Hti.
  - simpl. rewrite bool_decide_false; [done|]. rewrite Hs. apply mnt_status_nonempty.
  - unfold modified_row, applyIncidentPatch. cbn [ir_end set_version_modified].
    change (inc_EndDate fresh) with (nullable_time (ir_end r)). rewrite nullable_Some; rewrite He; [done|].
    by intros t [= <-].
  - by rewrite Hw', Hwd, statuses_of_outbox.
  - intros j Hj. rewrite Hw', Hwd, statuses_of_outbox. cbn [t_incident set_outbox]. rewrite Hti.
    split; [by apply with_modified_other|by apply Hother].
Qed.

Lemma processMaintenance_cases notifier k r e E w o w' :
  processMaintenance notifier (scanned (w_tab w) k r) E w = (o, w') → wf w →
  t_incident (w_tab w) !! k = Some r → ir_type r = TypeMaintenance →
  ir_end r = Some e → e ≠ zero_time →
  ((∀ a, o ≠ Ret a) ∧ w_tab w' = w_tab w) ∨ (o = Ret tt ∧ ∃ t, passed w w' k r (now_at E t)).
Proof.
  intros H Hwf Hr Hty He Hz. set (ev := event_of (w_tab w) (k, r)).
  assert (inc_EndDate ev = Some e) as Hend.
  { change (inc_EndDate ev) with (nullable_time (ir_end r)). rewrite He. apply nullable_Some. by intros t [= <-]. }
  unfold processMaintenance, needsRefetch in H. rewrite bind_run in H.
  destruct (calculateCurrentMntStatus_run (scanned (w_tab w) k r) (ir_start r) E w eq_refl)
    as (w1 & Hrun & Ht1 & Hq1 & _).
  rewrite bind_run, Hrun in H. rewrite ret_run in H.
  change (mnt_status_at (now_at E (w_tick w)) (ir_start r) (scanned (w_tab w) k r))
    with (mnt_status_at (now_at E (w_tick w)) (ir_start r) ev) in H.
  case_bool_decide as Hidle; cbn [negb] in H.
  { injection H as <- <-. right. split; [done|]. exists (w_tick w). apply pass_idle; [exact (eq_sym Hidle)|done]. }
  assert (wf w1) as Hwf1 by (eapply wf_same; [exact Ht1|rewrite Hq1; reflexivity|exact Hwf]).
  rewrite bind_run in H. destruct (GetIncident _ E w1) as [o2 w2] eqn:Hget.
  pose proof (ReadOnly_tab _ _ _ _ _ Hget) as Ht2.
  assert (wf w2) as Hwf2 by (exact (respects_wf _ _ _ _ _ Hget Hwf1)).
  destruct o2 as [fresh0|e2|]; [|injection H as <- <-; left; split; [done|congruence]..].
  apply GetIncident_Ret in Hget as (r2 & Hr2 & -> & _).
  change (inc_ID (scanned (w_tab w) k r)) with k in *. rewrite Ht1 in *.
  assert (r2 = r) as -> by congruence. fold ev in H.
  destruct (evaluateAndFix_run ev (ir_start r) e E w2 eq_refl Hend) as (w3 & chain & Hchain & Hev & Ht3 & Hq3).
  rewrite (bind_run_Ret _ _ _ _ _ _ Hev) in H. cbv beta iota in H.
  set (s := mnt_status_at (now_at E (w_tick w2)) (ir_start r) ev) in *.
  case_bool_decide as Hsame.
  { injection H as <- <-. right. split; [done|]. exists (w_tick w2). apply pass_idle; [exact (eq_sym Hsame)|congruence]. }
  rewrite bind_run in H. destruct (WithTx _ E w3) as [o4 w4] eqn:Htx.
  destruct o4 as [[]|e4|];
    [|injection H as <- <-; left; (split; [done|]); apply WithTx_not_Ret in Htx; [congruence|done]..].
  right. apply Notify_tables in H as [Hn ->]. split; [done|]. exists (w_tick w2).
  apply WithTx_Ret in Htx as (w0 & wb & Ht0 & Hs0 & _ & _ & _ & Hbody & Htb & _).
  apply bind_Ret_inv in Hbody as (inc' & wm & Hmod & Hpub).
  pose proof (outbox_PublishTx _ _ _ _ _ _ Hpub) as Hout. unfold outbox_only in Hout.
  assert (wf w0) as Hwf0.
  { apply (wf_same w2); [congruence|rewrite Hs0, Hq3; reflexivity|exact Hwf2]. }
  eapply (pass_write w k r e s chain (now_at E (w_tick w2)) E w0 wm wb); try done; congruence.
Qed.

Lemma chain_texts mn s chain e : mnt_chain mn s = Some chain → e ∈ chain → e.1.1 ≠ ""%string ∧ e.1.2 ≠ ""%string.
Proof.
  unfold mnt_chain. intros H He.
  destruct (inc_StartDate mn) as [start|], (inc_EndDate mn) as [end_|];
    repeat case_match; simplify_eq/=;
    repeat (apply elem_of_cons in He as [->|He]; [split; discriminate|]); inversion He.
Qed.

Lemma missing_valid id chain l s :
  (∀ e, e ∈ chain → e.1.1 ≠ ""%string ∧ e.1.2 ≠ ""%string) → s ∈ missing id chain l → status_valid s.
Proof.
  induction chain as [|[[s' text] ts] chain IH]; intros Hc; cbn [missing]; [intros H; inversion H|].
  assert (∀ e, e ∈ chain → e.1.1 ≠ ""%string ∧ e.1.2 ≠ ""%string) as Hc' by (intros; apply Hc; by right).
  destruct (has_status s' l); [auto|]. intros [->|H]%elem_of_cons; [|auto].
  destruct (Hc (s', text, ts) ltac:(left)) as [? ?]. by split.
Qed.

(** Without faults and without notifications a pass returns. *)
Lemma processMaintenance_total k r e E w :
  fault_free E → wf w → t_incident (w_tab w) !! k = Some r → ir_type r = TypeMaintenance →
  ir_end r = Some e → e ≠ zero_time →
  ∃ w', processMaintenance None (scanned (w_tab w) k r) E w = (Ret tt, w').
Proof.
  intros HE Hwf Hr Hty He Hz. set (ev := event_of (w_tab w) (k, r)).
  assert (inc_EndDate ev = Some e) as Hend.
  { change (inc_EndDate ev) with (nullable_time (ir_end r)). rewrite He. apply nullable_Some. by intros t [= <-]. }
  unfold processMaintenance, needsRefetch. rewrite bind_run.
  destruct (calculateCurrentMntStatus_run (scanned (w_tab w) k r) (ir_start r) E w eq_refl)
    as (w1 & Hrun & Ht1 & _).
  rewrite bind_run, Hrun, ret_run. case_bool_decide; cbn [negb]; [by eexists|].
  destruct (GetIncident_free k r E w1 HE) as [w2 Hget]; [by rewrite Ht1|].
  change (inc_ID (scanned (w_tab w) k r)) with k. rewrite (bind_run_Ret _ _ _ _ _ _ Hget), Ht1. fold ev.
  pose proof (ReadOnly_tab _ _ _ _ _ Hget) as Ht2.
  destruct (evaluateAndFix_run ev (ir_start r) e E w2 eq_refl Hend) as (w3 & chain & Hchain & Hev & Ht3 & _).
  rewrite (bind_run_Ret _ _ _ _ _ _ Hev). cbv beta iota.
  set (s := mnt_status_at (now_at E (w_tick w2)) _ _) in *. case_bool_decide; [by eexists|].
  rewrite bind_run. set (fresh := set_Status _ s).
  set (w0 := mkWorld (w_tab w3) (w_seq w3) (w_tick w3) (S (w_stmt w3)) (w_signal w3)).
  destruct (wf_rows w Hwf k r Hr) as [Htext Hvt].
  destruct (modifyIncident_free fresh (ir_version r) r E w0) as (inc' & wm & Hmod); try done.
  - unfold patch_valid. change (inc_Text fresh) with (Some (ir_text r)).
    change (inc_Type fresh) with (ir_type r). rewrite Hvt, orb_true_r, andb_true_r.
    apply negb_true_iff, bool_decide_eq_false. congruence.
  - cbn [w_tab w0]. change (inc_ID fresh) with k. congruence.
  - intros st Hst Hst0. apply elem_of_app in Hst as [Hst|Hst].
    + exfalso. by apply (statuses_of_ids w k st).
    + eapply missing_valid; [|exact Hst]. intros en Hen. by eapply chain_texts.
  - unfold WithTx. rewrite (stmt_free E w3 HE). fold w0. unfold ModifyIncidentTx.
    rewrite (bind_run_Ret _ _ _ _ _ _ Hmod). cbn [PublishTx]. rewrite ret_run, (stmt_free E wm HE).
    by eexists.
Qed.

(** C28: a pass over a maintenance that failed changed no table.  One that returned
    either found the stored status right for the instant it read, and changed nothing,
    or stored the status of that instant with the next version and exactly the missing
    history entries, leaving the schedule and every other event alone. *)
Theorem checker_pass notifier k r e E w o w' :
  processMaintenance notifier (scanned (w_tab w) k r) E w = (o, w') → wf w →
  t_incident (w_tab w) !! k = Some r → ir_type r = TypeMaintenance →
  ir_end r = Some e → e ≠ zero_time →
  ((∀ a, o ≠ Ret a) ∧ w_tab w' = w_tab w) ∨ (o = Ret tt ∧ ∃ t, passed w w' k r (now_at E t)).
Proof. apply processMaintenance_cases. Qed.

Definition sample_planned : IncidentRow := incident_row TypeMaintenance MaintenancePlanned 200 (Some 400) 0 3.
Definition pass_run : outcome unit * World :=
  processMaintenance None (scanned sample_tables 2 sample_planned) (env_at 300) sample_world.

Lemma checker_pass_witness :
  pass_run.1 = Ret tt
  ∧ ∃ r', t_incident (w_tab pass_run.2) !! 2 = Some r' ∧ ir_status r' = Some MaintenanceInProgress.
Proof.
  assert (pass_run.1 = Ret tt) as Hret by (vm_compute; reflexivity). split; [exact Hret|].
  destruct (checker_pass None 2 sample_planned 400 (env_at 300) sample_world pass_run.1 pass_run.2
    (surjective_pairing pass_run) sample_wf) as [[Hn _]|(_ & t & [Hidle _|s ? ? r' Hs _ _ Hr' Hst _ _ _ _ _ _])];
    [vm_compute; reflexivity|reflexivity|reflexivity|vm_compute; discriminate| | |].
  - by destruct (Hn tt).
  - vm_compute in Hidle. discriminate.
  - exists r'. split; [exact Hr'|]. rewrite Hst, Hs. vm_compute. reflexivity.
Defined.



(** ** What a scan leaves alone *)

(** The periodic check never touches the row of an incident or of a maintenance
    that awaits review, whatever the order of its two scans, the faults and the clock. *)
Theorem check_off_limits notifier infoFirst k r E w o w' :
  Check notifier infoFirst E w = (o, w') → t_incident (w_tab w) !! k = Some r → off_limits r →
  t_incident (w_tab w') !! k = Some r.
Proof. intros H Hr Hoff. rewrite <- Hr. by eapply Check_frame. Qed.

Lemma check_off_limits_witness :
  ∃ o w' r, Check None false (env_at 300) sample_world = (o, w')
    ∧ t_incident (w_tab w') !! 3 = Some r ∧ ir_status r = Some MaintenancePendingReview.
Proof.
  destruct (Check None false (env_at 300) sample_world) as [o w'] eqn:H.
  exists o, w', (incident_row TypeMaintenance MaintenancePendingReview 200 (Some 400) 0 1).
  split; [reflexivity|]. split; [|reflexivity].
  apply (check_off_limits None false 3 _ (env_at 300) sample_world o w' H); [vm_compute; reflexivity|].
  right. split; reflexivity.
Defined.
