(* ===== verification/PropsNotify.v ===== *)
(** * Properties of notifications

    Who is notified, that a change is announced once, and what the delivery worker does
    with the queue. *)

From S2P Require Import Prelude GoStrings GoTime Errors Event Rbac Models Store Queries Writes Integrity WritesSpec Outbox OutboxSpec Notify NotifySpec Facade WorkerSpec Metrics Api Handlers Samples.
Local Open Scope Z_scope.

(** ** Recipients *)

Lemma elem_of_add r l raw e :
  e ∈ add_recipient r l raw ↔
  e ∈ l ∨ (e = normalizeEmail raw ∧ e ≠ ""%string ∧ e ∉ rv_excluded r).
Proof.
  unfold add_recipient. repeat case_bool_decide; rewrite ?elem_of_app, ?list_elem_of_singleton; split;
    try naive_solver.
Qed.

Lemma elem_of_add_all r l : ∀ acc e,
  e ∈ foldl (add_recipient r) acc l ↔
  e ∈ acc ∨ ∃ raw, raw ∈ l ∧ e = normalizeEmail raw ∧ e ≠ ""%string ∧ e ∉ rv_excluded r.
Proof.
  induction l as [|x l IH]; intros acc e; simpl.
  - split; [auto|]. intros [?|(raw & Hraw & _)]; [done|inversion Hraw].
  - rewrite IH, elem_of_add. setoid_rewrite elem_of_cons. naive_solver.
Qed.

Lemma NoDup_add r l raw : NoDup l → NoDup (add_recipient r l raw).
Proof.
  intros Hl. unfold add_recipient. repeat (case_bool_decide; [done|]).
  apply NoDup_app. split_and!; [done| |apply NoDup_singleton]. set_solver.
Qed.

Lemma NoDup_add_all r l : ∀ acc, NoDup acc → NoDup (foldl (add_recipient r) acc l).
Proof. induction l as [|x l IH]; intros acc Hacc; simpl; [done|]. by apply IH, NoDup_add. Qed.

(** The recipients of a change are, each once and normalized, the contact of the
    event when its domain is allowed and, for the review statuses, the reviewers; an
    excluded or empty address is never among them. *)
Theorem recipients_spec cfg status contact e :
  let r := NewResolver cfg in
  NoDup (Recipients r status contact) ∧
  (e ∈ Recipients r status contact ↔
   e ≠ ""%string ∧ (∀ x, x ∈ cfg_ExcludedEmails cfg → normalizeEmail x ≠ e)
   ∧ ∃ raw, e = normalizeEmail raw ∧
     ((raw = contact ∧ allowedDomain (cfg_AllowedDomains cfg) contact = true)
      ∨ (isReviewStatus status = true
         ∧ raw ∈ cfg_ReviewSMOD cfg :: cfg_ReviewOperators cfg ++ cfg_ReviewAdmins cfg))).
Proof.
  cbv zeta. unfold Recipients. cbn [NewResolver rv_smod rv_operators rv_admins rv_allowed].
  set (r := NewResolver cfg). set (l1 := if isReviewStatus status then _ else []).
  assert (NoDup l1) as Hl1.
  { subst l1. destruct (isReviewStatus status); [|constructor].
    by apply NoDup_add_all, NoDup_add_all, NoDup_add, NoDup_nil_2. }
  assert (e ∉ rv_excluded r ↔ ∀ x, x ∈ cfg_ExcludedEmails cfg → normalizeEmail x ≠ e) as Hex.
  { subst r. cbn [NewResolver rv_excluded]. rewrite elem_of_list_to_set, list_elem_of_fmap. naive_solver. }
  assert (e ∈ l1 ↔ isReviewStatus status = true ∧ ∃ raw,
    raw ∈ cfg_ReviewSMOD cfg :: cfg_ReviewOperators cfg ++ cfg_ReviewAdmins cfg
    ∧ e = normalizeEmail raw ∧ e ≠ ""%string ∧ e ∉ rv_excluded r) as Hin.
  { subst l1. destruct (isReviewStatus status); [|set_solver].
    rewrite !elem_of_add_all, elem_of_add. setoid_rewrite elem_of_cons. setoid_rewrite elem_of_app.
    split; [|naive_solver]. intros [[[H|H]|H]|H]; [inversion H|naive_solver..]. }
  split; [destruct (allowedDomain _ _); [by apply NoDup_add|done]|].
  rewrite <- Hex. destruct (allowedDomain _ _); [rewrite elem_of_add|]; rewrite Hin; naive_solver.
Qed.

(** ** Deduplication keys *)

Lemma Itoa_no_colon z : no_char ":" (Itoa z) = true.
Proof.
  assert (∀ x s, no_char ":" s = true → no_char ":" (pretty_N_go x s) = true) as Hgo.
  { intros x. induction (N.lt_wf_0 x) as [x _ IH]. intros s Hs.
    destruct (decide (0 < x)%N) as [Hx|Hx].
    - rewrite pretty_N_go_step by done. apply IH; [apply N.div_lt; lia|]. cbn. rewrite Hs, andb_true_r.
      unfold pretty_N_char. by repeat case_match.
    - assert (x = 0%N) as -> by lia. by rewrite pretty_N_go_0. }
  assert (∀ x : N, no_char ":" (pretty x) = true) as HN.
  { intros x. unfold pretty, pretty_N. case_decide; [done|]. by apply Hgo. }
  unfold Itoa. destruct z as [|p|p]; [done|apply (HN (Npos p))|].
  change (no_char ":" (String "-" (pretty (Npos p))) = true). cbn [no_char]. by rewrite HN.
Qed.

(** The statuses of a maintenance, and the empty one of an event without a past. *)
Definition change_status (s : Status) : bool := (s == ""%string) || IsMaintenanceStatus s.

Lemma change_status_plain s : change_status s = true →
  no_char ":" s = true ∧ no_char ">" s = true ∧ no_char ":" (KindForStatus s) = true.
Proof.
  unfold change_status. rewrite orb_true_iff. intros [H|H]; bool_facts; [by subst|].
  unfold IsMaintenanceStatus in H. apply bool_decide_eq_true in H.
  repeat (apply elem_of_cons in H as [->|H]; [by vm_compute|]). inversion H.
Qed.

(** The deduplication key of a notification identifies the event, the transition
    and the recipient: two notifications of maintenance transitions with the same key
    announce the same transition of the same event to the same address. *)
Theorem dedup_key_injective i i' o o' n n' rcpt rcpt' :
  change_status o = true → change_status o' = true →
  change_status n = true → change_status n' = true →
  DedupKey i (KindForStatus n) o n rcpt = DedupKey i' (KindForStatus n') o' n' rcpt' →
  i = i' ∧ o = o' ∧ n = n' ∧ rcpt = rcpt'.
Proof.
  intros Ho Ho' Hn Hn' Heq. unfold DedupKey in Heq.
  destruct (change_status_plain o Ho) as (Ho1 & Ho2 & _).
  destruct (change_status_plain o' Ho') as (Ho1' & Ho2' & _).
  destruct (change_status_plain n Hn) as (Hn1 & Hn2 & Hk).
  destruct (change_status_plain n' Hn') as (Hn1' & Hn2' & Hk').
  apply (split_at ":") in Heq as [Hi Heq]; [|apply Itoa_no_colon..].
  apply (split_at ":") in Heq as [_ Heq]; [|done..].
  apply (split_at ">") in Heq as [-> Heq]; [|done..].
  apply (split_at ":") in Heq as [-> ->]; [|done..].
  split_and!; try done. by apply (inj pretty).
Qed.

Lemma dedup_key_injective_witness :
  change_status MaintenancePlanned = true
  ∧ (DedupKey 7 (KindForStatus MaintenancePlanned) "" MaintenancePlanned "a@example.com"
     = DedupKey 7 (KindForStatus MaintenancePlanned) "" MaintenancePlanned "a@example.com"
     → "a@example.com"%string = "a@example.com"%string).
Proof.
  split; [vm_compute; reflexivity|]. intros H.
  apply (dedup_key_injective 7 7 "" "" MaintenancePlanned MaintenancePlanned "a@example.com" "a@example.com");
    [vm_compute; reflexivity..|exact H].
Defined.

(** ** Publishing *)

Definition has_key (w : World) (key : string) : Prop :=
  ∃ k r, t_outbox (w_tab w) !! k = Some r ∧ or_dedup r = key.

Lemma existsb_key w key :
  existsb (λ kr : Z * OutboxRow, or_dedup kr.2 == key) (rows (t_outbox (w_tab w))) = true ↔ has_key w key.
Proof.
  rewrite existsb_true_iff. unfold has_key. split.
  - intros ([k r] & Hin & Heq). apply elem_of_rows in Hin. bool_facts. eauto.
  - intros (k & r & Hr & Heq). exists (k, r). rewrite elem_of_rows. split; [done|].
    by apply bool_decide_eq_true.
Qed.

(** What one enqueue within a transaction does. *)
Inductive enqueued (row : NotificationOutbox) (w w' : World) : outcome unit → Prop :=
| enq_new n : ¬ has_key w (no_DedupKey row) →
    w_tab w' = set_outbox (<[seq_outbox (w_seq w) := newOutboxCreate row n]> (t_outbox (w_tab w))) (w_tab w) →
    enqueued row w w' (Ret tt)
| enq_duplicate : has_key w (no_DedupKey row) → w_tab w' = w_tab w →
    enqueued row w w' (Fail (EDb ErrNotificationDuplicate))
| enq_error e : e ≠ EDb ErrNotificationDuplicate → w_tab w' = w_tab w → enqueued row w w' (Fail e).

Lemma Enqueue_outcome row E w o w' :
  Enqueue true row E w = (o, w') → is_Some (t_incident (w_tab w) !! no_IncidentID row) →
  enqueued row w w' o.
Proof.
  intros H Hinc. unfold Enqueue, execWithTx, rowExists in H.
  destruct (no_DedupKey row == ""%string); [injection H as <- <-; by apply enq_error|].
  rewrite bind_run, select_run in H. destruct (fault_at E (w_stmt w)); [injection H as <- <-; by apply enq_error|].
  cbv zeta in H. destruct (existsb _ _) eqn:Hex.
  { injection H as <- <-. apply enq_duplicate; [by apply existsb_key|done]. }
  assert (¬ has_key w (no_DedupKey row)) as Hno by (rewrite <- existsb_key; by rewrite Hex).
  rewrite bind_run in H. unfold try, insert_outbox, ent_check in H.
  destruct (_ && _)%bool; [|injection H as <- <-; by apply enq_error].
  rewrite bind_run, ret_run, bind_run in H. unfold stmt in H.
  destruct (fault_at _ _); [injection H as <- <-; by apply enq_error|].
  unfold now, reading, next_outbox_id in H. eval_run H.
  rewrite Hex, bool_decide_true in H by done. cbn [orb negb] in H. injection H as <- <-. by eapply enq_new.
Qed.

Record announced (l : list NotificationOutbox) (w w' : World) : Prop := mk_announced {
  an_keys : ∀ row, row ∈ l → has_key w' (no_DedupKey row);
  an_old : ∀ k r, t_outbox (w_tab w) !! k = Some r → t_outbox (w_tab w') !! k = Some r;
  an_new : ∀ k r, t_outbox (w_tab w') !! k = Some r →
    t_outbox (w_tab w) !! k = Some r ∨ ∃ row n, row ∈ l ∧ r = newOutboxCreate row n;
  an_rest : w_tab w' = set_outbox (t_outbox (w_tab w')) (w_tab w) }.

Lemma announced_one row n w w' : wf w →
  w_tab w' = set_outbox (<[seq_outbox (w_seq w) := newOutboxCreate row n]> (t_outbox (w_tab w))) (w_tab w) →
  announced [row] w w'.
Proof.
  intros Hwf Ht. pose proof (ids_below_fresh _ _ (wf_outbox_ids w Hwf)) as Hfresh.
  constructor; rewrite ?Ht; cbn [t_outbox set_outbox].
  - intros r ->%list_elem_of_singleton. exists (seq_outbox (w_seq w)), (newOutboxCreate row n).
    rewrite Ht. cbn [t_outbox set_outbox]. split; [apply lookup_insert_eq|done].
  - intros k r Hr. rewrite lookup_insert_ne; [done|]. intros <-. congruence.
  - intros k r [[_ <-]|[_ ?]]%lookup_insert_Some; [right|by left]. exists row, n. split; [left|done].
  - done.
Qed.

Lemma announced_app l k w1 w2 w3 : announced l w1 w2 → announced k w2 w3 → announced (l ++ k) w1 w3.
Proof.
  intros [Hk1 Ho1 Hn1 Hr1] [Hk2 Ho2 Hn2 Hr2]. constructor.
  - intros row [H|H]%elem_of_app; [|auto]. destruct (Hk1 row H) as (i & r & ? & ?). exists i, r. auto.
  - auto.
  - intros i r Hi. destruct (Hn2 i r Hi) as [Hi2|(row & n & ? & ->)].
    + destruct (Hn1 i r Hi2) as [?|(row & n & ? & ->)]; [by left|right]. exists row, n.
      split; [apply elem_of_app; by left|done].
    + right. exists row, n. split; [apply elem_of_app; by right|done].
  - rewrite Hr2, Hr1. done.
Qed.

Lemma enqueue_all_Ret l : ∀ E w w',
  enqueue_all l E w = (Ret tt, w') → wf w →
  (∀ row, row ∈ l → is_Some (t_incident (w_tab w) !! no_IncidentID row)) →
  announced l w w' ∧ ((∀ row, row ∈ l → has_key w (no_DedupKey row)) → w_tab w' = w_tab w).
Proof.
  induction l as [|row l IH]; intros E w w' H Hwf Hinc.
  { injection H as <-. split; [|done]. constructor; [intros row Hr; inversion Hr|auto|auto|by destruct (w_tab w)]. }
  apply bind_Ret_inv in H as ([] & w1 & H1 & H).
  apply bind_Ret_inv in H1 as (res & w1' & Htry & H1).
  assert (wf w1') as Hwf1.
  { eapply respects_wf; [apply (respects_try _ _ (respects_Enqueue_db row true))|exact Htry|exact Hwf]. }
  assert (w1 = w1' ∧ ∃ o, enqueued row w w1' o ∧ (o = Ret tt ∨ o = Fail (EDb ErrNotificationDuplicate)))
    as (-> & o & Hq & Ho).
  { apply try_Ret in Htry. destruct res as [e|[]].
    - destruct (decide (e = EDb ErrNotificationDuplicate)) as [->|]; [|done]. injection H1 as <-.
      split; [done|]. eexists. split; [apply (Enqueue_outcome _ _ _ _ _ Htry), Hinc; left|by right].
    - injection H1 as <-. split; [done|]. eexists.
      split; [apply (Enqueue_outcome _ _ _ _ _ Htry), Hinc; left|by left]. }
  assert (announced [row] w w1' ∧ (has_key w (no_DedupKey row) → w_tab w1' = w_tab w)) as [Hone Hsame].
  { inversion Hq as [n Hno Ht|Hk Ht|e He Ht]; subst o; [| |by destruct Ho as [|[= ->]]].
    - split; [|done]. eapply announced_one; [done|exact Ht].
    - split; [|done]. constructor; rewrite ?Ht; auto; [|by destruct (w_tab w)].
      intros r ->%list_elem_of_singleton. destruct Hk as (k & r & Hr & Hd). exists k, r. by rewrite Ht. }
  destruct (IH E w1' w' H Hwf1) as [Hrest Hsame'].
  { intros r Hr. rewrite (an_rest _ _ _ Hone). cbn [t_incident set_outbox]. apply Hinc. by right. }
  split; [exact (announced_app [row] l w w1' w' Hone Hrest)|]. intros Hkeys.
  rewrite Hsame', Hsame; [done|apply Hkeys; left|].
  intros r Hr. destruct (Hkeys r ltac:(by right)) as (k & x & Hx & Hd). exists k, x.
  split; [by apply (an_old _ _ _ Hone)|done].
Qed.

(** The rows a publication enqueues, and that there is one for every recipient. *)
Lemma BuildRows_complete r ch E w l w' :
  BuildRows r ch E w = (Ret l, w') →
  ∀ rcpt, rcpt ∈ Recipients r (ch_NewStatus ch) (ch_ContactEmail ch) →
    ∃ row, row ∈ l ∧ no_DedupKey row = DedupKey (ch_IncidentID ch) (KindForStatus (ch_NewStatus ch))
             (ch_OldStatus ch) (ch_NewStatus ch) rcpt.
Proof.
  unfold BuildRows. destruct (Recipients _ _ _) as [|x rs] eqn:Hrs; [intros _ rcpt Hr; inversion Hr|].
  intros H. apply bind_Ret_inv in H as (u & w1 & _ & H). apply bind_Ret_inv in H as (t & w2 & _ & H).
  injection H as <- <-. intros rcpt Hr. set (f := outbox_row ch _ u).
  exists (f rcpt). split; [|done]. change (f rcpt ∈ f <$> x :: rs). apply list_elem_of_fmap. eauto.
Qed.

Section PublishRun.
Context (pub : Publisher) (ch : Change).
Notation rcpts := (Recipients (pub_resolver pub) (ch_NewStatus ch) (ch_ContactEmail ch)).
Notation key rcpt := (DedupKey (ch_IncidentID ch) (KindForStatus (ch_NewStatus ch)) (ch_OldStatus ch)
                        (ch_NewStatus ch) rcpt).

Lemma PublishTx_run E w w' : PublishTx (Some pub) ch E w = (Ret tt, w') → pub_enabled pub = true → wf w →
  is_Some (t_incident (w_tab w) !! ch_IncidentID ch) →
  ∃ l w1, wf w1 ∧ w_tab w1 = w_tab w ∧ enqueue_all l E w1 = (Ret tt, w')
    ∧ (∀ row, row ∈ l → ∃ payload changeID rcpt, row = outbox_row ch payload changeID rcpt ∧ rcpt ∈ rcpts)
    ∧ (∀ rcpt, rcpt ∈ rcpts → ∃ row, row ∈ l ∧ no_DedupKey row = key rcpt)
    ∧ (∀ row, row ∈ l → is_Some (t_incident (w_tab w1) !! no_IncidentID row)).
Proof.
  intros H Hen Hwf Hinc. unfold PublishTx in H. rewrite Hen in H. cbn [negb] in H.
  apply bind_Ret_inv in H as (l & w1 & Hb & H).
  assert (wf w1) as Hwf1 by (exact (respects_wf _ _ _ _ _ Hb Hwf)).
  assert (w_tab w1 = w_tab w) as Hw1.
  { eapply ReadOnly_tab; [|exact Hb]. intros P. unfold BuildRows. pres. }
  exists l, w1. split_and!; try done.
  - by eapply BuildRows_rows.
  - by eapply BuildRows_complete.
  - intros row Hrow. destruct (BuildRows_rows _ _ _ _ _ _ Hb row Hrow) as (? & ? & ? & -> & _).
    by rewrite Hw1.
Qed.

Lemma PublishTx_announced E w w' : PublishTx (Some pub) ch E w = (Ret tt, w') → wf w →
  pub_enabled pub = true → is_Some (t_incident (w_tab w) !! ch_IncidentID ch) →
  ∃ l, (∀ row, row ∈ l → ∃ payload changeID rcpt, row = outbox_row ch payload changeID rcpt ∧ rcpt ∈ rcpts)
    ∧ (∀ rcpt, rcpt ∈ rcpts → ∃ row, row ∈ l ∧ no_DedupKey row = key rcpt) ∧ announced l w w'.
Proof.
  intros H Hwf Hen Hinc.
  destruct (PublishTx_run E w w' H Hen Hwf Hinc) as (l & w1 & Hwf1 & Hw1 & Hall & Hl & Hk & Hi).
  exists l. split_and!; [done..|]. destruct (enqueue_all_Ret l E w1 w' Hall Hwf1 Hi) as [[Hka Ho Hn Hr] _].
  rewrite Hw1 in *. by constructor.
Qed.

Lemma PublishTx_again E w w' : PublishTx (Some pub) ch E w = (Ret tt, w') → wf w →
  pub_enabled pub = true → is_Some (t_incident (w_tab w) !! ch_IncidentID ch) →
  (∀ rcpt, rcpt ∈ rcpts → has_key w (key rcpt)) → w_tab w' = w_tab w.
Proof.
  intros H Hwf Hen Hinc Hkeys.
  destruct (PublishTx_run E w w' H Hen Hwf Hinc) as (l & w1 & Hwf1 & Hw1 & Hall & Hl & Hk & Hi).
  rewrite <- Hw1. apply (enqueue_all_Ret l E w1 w' Hall Hwf1 Hi). intros row Hrow.
  destruct (Hl row Hrow) as (payload & changeID & rcpt & -> & Hr).
  destruct (Hkeys rcpt Hr) as (k & r & Hkr & Hd). exists k, r. by rewrite Hw1.
Qed.
End PublishRun.


Definition sample_config : Notify.Config :=
  Notify.mkConfig true "dash@example.com" "smtp.example.com" 587 "" "" true (10 * Second) (5 * Minute) 5 (30 * Second) "smod@example.com" [] [] [] []
    "https://status.example.com".
Definition sample_publisher : Publisher := NewPublisher sample_config.
Definition sample_change : Change :=
  mkChange 3 "Upgrade" "" MaintenancePendingReview "alice@example.com" "alice" 300.
Definition publish_run : outcome unit * World :=
  PublishTx (Some sample_publisher) sample_change (env_at 300) sample_world.


(** ** The queue *)

Lemma StronglySorted_app_le {A} (R : A → A → Prop) l k :
  StronglySorted R (l ++ k) → ∀ x y, x ∈ l → y ∈ k → R x y.
Proof.
  induction l as [|a l IH]; intros H x y Hx Hy; [inversion Hx|].
  apply StronglySorted_inv in H as [H Ha]. rewrite Forall_forall in Ha.
  apply elem_of_cons in Hx as [->|Hx]; [|by apply IH]. apply Ha, elem_of_app. by right.
Qed.

(** The due rows left out come after those taken, and are left out for the limit only. *)
Lemma claimable_least dueAt limit t k r : 0 <= limit →
  t_outbox t !! k = Some r → due dueAt r = true → k ∉ (claimable dueAt limit t).*1 →
  Z.of_nat (length (claimable dueAt limit t).*1) = limit ∧ ∀ i, i ∈ (claimable dueAt limit t).*1 → i < k.
Proof.
  intros Hlim Hr Hdue. unfold claimable. set (l := filterb _ (rows (t_outbox t))).
  assert ((k, r) ∈ l) as Hin by (apply elem_of_filterb; split; [by apply elem_of_rows|done]).
  assert (StronglySorted key_le l) as Hs by apply StronglySorted_filterb, rows_sorted.
  intros Hk. rewrite <- (take_drop (Z.to_nat limit) l) in Hin, Hs.
  apply elem_of_app in Hin as [Hin|Hin].
  { destruct Hk. apply list_elem_of_fmap. by exists (k, r). }
  split.
  - rewrite length_fmap, length_take. destruct (decide (Z.to_nat limit ≤ length l)%nat); [lia|].
    rewrite drop_ge in Hin by lia. inversion Hin.
  - intros i ([i' x] & -> & Hi)%list_elem_of_fmap. simpl.
    pose proof (StronglySorted_app_le _ _ _ Hs _ _ Hi Hin) as Hle. unfold key_le in Hle. simpl in Hle.
    enough (i' ≠ k) by lia. intros ->. apply Hk. apply list_elem_of_fmap. by exists (k, x).
Qed.


Definition claim_run : outcome (list NotificationOutbox) * World :=
  ClaimPending false 1 "worker-1" (env_at 300) sample_world.


(** Recovery takes exactly the rows whose lease is older than the timeout: each
    loses its lease and goes back to the queue, due at once, or fails when its attempts
    are used up; no attempt is counted, every other row stays, and no lease older than
    the timeout is left. *)
Theorem recovery_spec lease maxAttempts E w res w' :
  RecoverStaleProcessing false lease maxAttempts E w = (Ret res, w') →
  let cutoff := now_at E (w_tick w) - lease in
  let n := now_at E (S (w_tick w)) in
  (∀ k r, t_outbox (w_tab w) !! k = Some r → stale cutoff r = false → t_outbox (w_tab w') !! k = Some r)
  ∧ (∀ k r, t_outbox (w_tab w) !! k = Some r → stale cutoff r = true →
       ∃ r', t_outbox (w_tab w') !! k = Some r' ∧ or_locked_by r' = None ∧ or_locked_at r' = None
         ∧ or_attempts r' = or_attempts r ∧ or_recipient r' = or_recipient r
         ∧ (if maxAttempts <=? or_attempts r
            then or_status r' = NotificationStatusFailed ∧ or_next r' = None
            else due n r' = true))
  ∧ (∀ k r, t_outbox (w_tab w') !! k = Some r → stale cutoff r = false)
  ∧ dom (t_outbox (w_tab w')) = dom (t_outbox (w_tab w)).
Proof.
  intros H. apply RecoverStaleProcessing_Ret in H as (Ht & _). cbv zeta. rewrite Ht.
  cbn [t_outbox set_outbox].
  assert (∀ c r, stale c (recover maxAttempts (now_at E (S (w_tick w))) r) = false) as Hclear.
  { intros c r. unfold stale, recover. cbn [or_locked_at set_recovered no_LockedAt recovered_row].
    apply andb_false_r. }
  split_and!.
  - intros k r Hr Hst. rewrite lookup_update_where, Hr. cbn. by rewrite Hst.
  - intros k r Hr Hst. eexists. rewrite lookup_update_where, Hr. cbn. rewrite Hst. split; [reflexivity|].
    split_and!; try done. unfold due, recover, recovered_row, set_recovered.
    cbn [or_status or_next no_Status no_NextAttemptAt no_Attempts scanOutboxRow].
    destruct (maxAttempts <=? or_attempts r); [done|]. cbn. by apply Z.leb_le.
  - intros k r. rewrite lookup_update_where. intros (r0 & Hr0 & ->)%fmap_Some.
    destruct (stale _ r0) eqn:Hst; [apply Hclear|done].
  - apply dom_update_where.
Qed.

(** The state a delivery of row [r] is recorded in, by what the mail library said. *)
Definition recorded (maxAttempts : Z) (mail : mail_result) (r r' : OutboxRow) : Prop :=
  let retry := if maxAttempts <=? or_attempts r
               then or_status r' = NotificationStatusFailed ∧ or_next r' = None
               else or_status r' = NotificationStatusPending ∧ is_Some (or_next r') in
  match mail with
  | MailOK => or_status r' = NotificationStatusSent
  | MailReply temp code _ =>
    if isPermanent temp code then or_status r' = NotificationStatusFailed ∧ or_next r' = None else retry
  | _ => retry
  end.

(** C14: with a healthy database every delivery is recorded by its outcome: an accepted
    mail is sent; a permanent rejection fails at once; any other error, a panic of the
    mail library included, is retried later while attempts remain and fails after the
    last; the lease is released and only this row changes. *)
Theorem delivery_recorded wk row r E w :
  fault_free E → t_outbox (w_tab w) !! no_ID row = Some r →
  let mail := mail_at E (w_tick w) (no_Recipient row) (em_Subject (Render row)) (em_Body (Render row)) in
  ∃ w' r', deliver wk row E w = (Ret tt, w')
    ∧ t_outbox (w_tab w') = <[no_ID row := r']> (t_outbox (w_tab w))
    ∧ recorded (wk_maxAttempts wk) mail r r'
    ∧ or_attempts r' = or_attempts r ∧ or_locked_by r' = None ∧ or_locked_at r' = None.
Proof.
  intros HE Hr mail. unfold deliver, sendGuarded. rewrite !bind_run. cbn [reading]. rewrite ret_run.
  fold mail. set (w1 := mkWorld _ _ _ _ _). change (w_tab w) with (w_tab w1) in Hr |- *.
  assert (∀ txt, ∃ w' r', quietly (MarkFailed false (no_ID row) txt (wk_maxAttempts wk)
      (Backoff (wk_backoffBase wk))) E w1 = (Ret tt, w')
    ∧ t_outbox (w_tab w') = <[no_ID row := r']> (t_outbox (w_tab w1))
    ∧ (if wk_maxAttempts wk <=? or_attempts r
       then or_status r' = NotificationStatusFailed ∧ or_next r' = None
       else or_status r' = NotificationStatusPending ∧ is_Some (or_next r'))
    ∧ or_attempts r' = or_attempts r ∧ or_locked_by r' = None ∧ or_locked_at r' = None) as Hretry.
  { intros txt. destruct (MarkFailed_free wk _ _ _ _ HE Hr txt) as (w' & n & next & Hq & Hn & Ht).
    eexists w', _. split; [exact Hq|]. split; [exact Ht|].
    destruct (wk_maxAttempts wk <=? or_attempts r); [by rewrite Hn|done]. }
  destruct mail as [|t|t|t|temp code t|t]; unfold recorded, markFailure; cbn [se_permanent se_text];
    try apply Hretry.
  - destruct (MarkSent_free _ _ _ _ HE Hr) as (w' & Hq & Ht). eexists w', _.
    split; [exact Hq|]. split; [exact Ht|]. done.
  - destruct (isPermanent temp code); [|apply Hretry].
    cbn [se_permanent se_text]. edestruct (MarkFailedTerminal_free _ _ _ _ HE Hr) as (w' & Hq & Ht).
    eexists w', _. split; [exact Hq|]. split; [exact Ht|]. done.
Qed.

Definition sample_worker : Worker := NewWorker sample_config "worker-1".

Lemma delivery_recorded_witness :
  ∃ w' r', deliver sample_worker (scanOutboxRow 1 sample_outbox) (env_at 300) sample_world = (Ret tt, w')
    ∧ t_outbox (w_tab w') = <[1 := r']> (t_outbox sample_tables) ∧ or_status r' = NotificationStatusSent.
Proof.
  destruct (delivery_recorded sample_worker (scanOutboxRow 1 sample_outbox) sample_outbox (env_at 300)
    sample_world) as (w' & r' & H & Ht & Hr & _); [apply env_at_free|vm_compute; reflexivity|].
  exists w', r'. split; [exact H|]. split; [exact Ht|exact Hr].
Defined.

Definition recover_world : World :=
  mkWorld (set_outbox {[ 1 := claim "worker-0" 5 sample_outbox ]} sample_tables) (mkSeqs 5 5 3 3 2) 0 0 false.
Definition recover_run : outcome (list NotificationOutbox) * World :=
  RecoverStaleProcessing false 100 5 (env_at 300) recover_world.

Lemma recovery_spec_witness :
  (∃ res, recover_run.1 = Ret res) ∧ ∃ r', t_outbox (w_tab recover_run.2) !! 1 = Some r' ∧ due 300 r' = true.
Proof.
  assert (∃ res, recover_run.1 = Ret res) as [res Hret] by (eexists; vm_compute; reflexivity).
  split; [by exists res|].
  destruct (recovery_spec 100 5 (env_at 300) recover_world res recover_run.2) as (_ & Hst & _);
    [rewrite <- Hret; apply surjective_pairing|].
  destruct (Hst 1 (claim "worker-0" 5 sample_outbox)) as (r' & Hr' & _ & _ & _ & _ & Hdue);
    [vm_compute; reflexivity|vm_compute; reflexivity|].
  exists r'. split; [exact Hr'|]. exact Hdue.
Defined.



(** C36: the delivery metrics agree with the queue: counting changes nothing in a drain,
    nil metrics stay nil, every attempt is counted once as sent or failed and timed once,
    a drain that returns counts the stale rows it recovered, and for every kind no more
    rows become sent than the counter grew by, exactly as many when no statement fails. *)
Theorem metrics_account elapsed wk E w mo o w' mo' :
  Metered.Drain elapsed wk E w mo = (o, w', mo') →
  Drain wk E w = (o, w') ∧ (mo' = None ↔ mo = None)
  ∧ ∀ m m', mo = Some m → mo' = Some m' →
    mt_attempts m' - mt_attempts m
      = (total (mt_sent m') - total (mt_sent m)) + (total (mt_failed m') - total (mt_failed m))
    ∧ mt_attempts m' - mt_attempts m = Z.of_nat (length (mt_duration m')) - Z.of_nat (length (mt_duration m))
    ∧ 0 <= mt_staleRecovered m' - mt_staleRecovered m <= stale_rows wk E w
    ∧ (∀ b, o = Ret b → mt_staleRecovered m' - mt_staleRecovered m = stale_rows wk E w)
    ∧ ∀ kind, let grown := value_of kind (mt_sent m') - value_of kind (mt_sent m) in
        sent_rows kind w' - sent_rows kind w <= grown
        ∧ (fault_free E → sent_rows kind w' - sent_rows kind w = grown).
Proof.
  intros H. destruct (erases_Drain elapsed wk E w mo) as [He Hn]. rewrite H in He, Hn. cbn [fst snd] in *.
  split; [done|]. split; [done|]. intros m m' -> ->.
  apply Drain_account in H as (m1 & n & [= <-] & Hn1 & Hret & [Ho Ht Hs Hr Hf]). cbn in *.
  split_and!; [lia|lia|lia|lia| |].
  - intros b Hb. specialize (Hret b Hb). lia.
  - intros kind. split; [apply Hr|intros HE; by apply Hf].
Qed.

Definition metered_run : outcome bool * World * option Metrics :=
  Metered.Drain (λ _, Second) sample_worker (env_at 300) sample_world (Some NewMetrics).

Lemma metrics_account_witness :
  ∃ m', metered_run.2 = Some m' ∧ mt_attempts m' = 1
    ∧ sent_rows NotificationKindStatusChanged metered_run.1.2
      - sent_rows NotificationKindStatusChanged sample_world
      = value_of NotificationKindStatusChanged (mt_sent m').
Proof.
  assert (∃ m', metered_run.2 = Some m') as [m' Hm'] by (eexists; vm_compute; reflexivity).
  exists m'. split; [exact Hm'|]. split; [vm_compute in Hm'; injection Hm' as <-; reflexivity|].
  destruct (metrics_account (λ _, Second) sample_worker (env_at 300) sample_world (Some NewMetrics)
    metered_run.1.1 metered_run.1.2 metered_run.2) as (_ & _ & H).
  { unfold metered_run. by destruct (Metered.Drain _ _ _ _ _) as [[] ?]. }
  destruct (H NewMetrics m' eq_refl Hm') as (_ & _ & _ & _ & Hk).
  destruct (Hk NotificationKindStatusChanged) as [_ Hf]. specialize (Hf (env_at_free 300)). cbv zeta in Hf.
  change (value_of _ (mt_sent NewMetrics)) with 0 in Hf. lia.
Defined.

(** Retention removes delivered rows past their age and nothing else: no pending,
    leased or failed row and no recent one is ever deleted, and a run that completes
    reports how many rows it removed and leaves no expired one. *)
Theorem retention_spec before batchSize E w o w' :
  DeleteSentBefore before batchSize E w = (o, w') → 0 < batchSize →
  (∀ k r, t_outbox (w_tab w) !! k = Some r →
     t_outbox (w_tab w') !! k = Some r
     ∨ (t_outbox (w_tab w') !! k = None ∧ or_status r = NotificationStatusSent ∧ or_updated r < before))
  ∧ (∀ k r, t_outbox (w_tab w') !! k = Some r → t_outbox (w_tab w) !! k = Some r)
  ∧ (∀ res, o = Ret res →
       res = Some (Z.of_nat (length (expired_rows before (t_outbox (w_tab w)))))
       ∧ ∀ k r, t_outbox (w_tab w') !! k = Some r → expired before r = false).
Proof.
  unfold DeleteSentBefore. rewrite bind_run. cbn [get_tab]. intros H Hb.
  pose proof (prune_delete_loop _ _ _ _ _ _ _ _ H) as Hp. split_and!.
  - intros k r Hr. destruct (Hp k) as [Heq|(r' & Hr' & Hex & Hn)]; [left; congruence|right].
    unfold expired in Hex. bool_facts. rewrite Hr in Hr'. injection Hr' as <-. by split_and!.
  - intros k r Hr. destruct (Hp k) as [Heq|(r' & _ & _ & Hn)]; congruence.
  - intros res ->. apply delete_loop_spec in H as [-> Hnil]; [|done|].
    + split; [f_equal; lia|]. intros k r Hr. destruct (expired before r) eqn:Hex; [|done].
      assert ((k, r) ∈ expired_rows before (t_outbox (w_tab w'))) as Hin.
      { unfold expired_rows. rewrite elem_of_filterb, elem_of_rows. done. }
      rewrite Hnil in Hin. inversion Hin.
    + pose proof (expired_rows_size before (t_outbox (w_tab w))). lia.
Qed.

Lemma retention_spec_witness :
  0 < 500 ∧ ∀ k r, t_outbox (w_tab (DeleteSentBefore 1000 500 (env_at 300) sample_world).2) !! k = Some r →
              t_outbox sample_tables !! k = Some r.
Proof.
  split; [lia|].
  apply (retention_spec 1000 500 (env_at 300) sample_world _ _ (surjective_pairing _)). lia.
Defined.

(** ** Back-off *)

Lemma backoff_loop_eq rounds : ∀ delay, 0 < delay < maxBackoff →
  backoff_loop rounds delay = Z.min (delay * 2 ^ Z.of_nat rounds) maxBackoff.
Proof.
  induction rounds as [|rounds IH]; intros delay Hd; cbn [backoff_loop]; [rewrite Z.pow_0_r; lia|].
  assert (maxBackoff * 2 < max_int64) as Hmax by (vm_compute; reflexivity).
  rewrite int64_id by (unfold min_int64; lia). rewrite Nat2Z.inj_succ, Z.pow_succ_r by lia.
  assert (0 < 2 ^ Z.of_nat rounds) by (apply Z.pow_pos_nonneg; lia).
  destruct (maxBackoff <=? delay * 2) eqn:Hle; bool_facts.
  - rewrite Z.min_r; [done|]. nia.
  - rewrite IH by lia. f_equal. lia.
Qed.

(** The delay before a retry doubles with every attempt up to two hours and does
    not overflow: before jitter it is the smaller of [base * 2^(attempts-1)] and two
    hours, for every number of attempts and every base below 2^62 nanoseconds. *)
Theorem backoff_closed_form base attempts :
  0 < base < 2 ^ 62 → 1 <= attempts →
  backoff_delay base attempts = Z.min (base * 2 ^ (attempts - 1)) maxBackoff.
Proof.
  intros Hb Ha. unfold backoff_delay.
  assert (0 < 2 ^ (attempts - 1)) as Hpow by (apply Z.pow_pos_nonneg; lia).
  destruct (decide (base < maxBackoff)) as [Hlt|Hge].
  - rewrite backoff_loop_eq by lia. rewrite Z2Nat.id by lia.
    destruct (maxBackoff <? _) eqn:Hx; bool_facts; lia.
  - rewrite Z.min_r by nia. destruct (Z.to_nat (attempts - 1)) as [|rounds]; cbn [backoff_loop].
    + destruct (maxBackoff <? base) eqn:Hx; bool_facts; lia.
    + rewrite int64_id by (unfold min_int64, max_int64; lia).
      assert ((maxBackoff <=? base * 2) = true) as -> by (apply Z.leb_le; lia).
      by rewrite Z.ltb_irrefl.
Qed.

Lemma backoff_closed_form_witness :
  0 < 30 * Second < 2 ^ 62 ∧ backoff_delay (30 * Second) 4 = 240 * Second.
Proof.
  split; [vm_compute; split; reflexivity|].
  rewrite (backoff_closed_form (30 * Second) 4); [vm_compute; reflexivity|vm_compute; split; reflexivity|lia].
Defined.
