(* ===== verification/PropsSystem.v ===== *)
(** * Properties of the whole service

    What holds in every state the service can reach from an empty database, by any
    requests, checks, deliveries and prunings in any order, with any faults, clocks and
    mail outcomes; and what no run of it ever loses. *)

From S2P Require Import Prelude GoStrings GoTime Errors Event Rbac Json Auth Models Store Queries Writes Integrity WritesSpec Outbox OutboxSpec Notify NotifySpec Facade WorkerSpec Checker Api Handlers ApiSpec System Samples EntRead.
Local Open Scope Z_scope.

(** C1: the stored data stays consistent in every reachable state: ids are positive and
    below their serials, every relation, attribute and notification refers to existing
    rows, attribute names are unique per component and notification keys unique, events
    have a title and a known type, history entries a text and a status. *)
Theorem reachable_integrity d w : reachable d w → wf w.
Proof. intros H. by destruct (steps_db_step d init w H) as [_ [? _]]; [apply wf_init|]. Qed.

Definition sample_deployment : Deployment :=
  mkDeployment (λ token, if token == "t"%string then Some (mkClaims "root" "" "" ["admins"%string] ProviderZitadel) else None)
    (λ _, true) (New (Rbac.mkConfig "creators" "operators" "admins" "reporters")) None
    (mkWorker "worker-1" Minute 5 Second).
Definition first_component : Op :=
  OpPostComponent "Bearer t" (Some ("Compute"%string,
    [mkAttribute "type" "vm"; mkAttribute "region" "EU"; mkAttribute "category" "compute"])).
Definition first_event : Op :=
  OpPostEvent "Bearer t" (Some (mkIncidentData "Upgrade" "Text" (Some 0) [1] 500 (Some 900) None
    TypeMaintenance [] "" "" None "")).
Definition world1 : World := (run_op sample_deployment first_component (env_at 300) init).2.
Definition world2 : World := (run_op sample_deployment first_event (env_at 301) world1).2.

Lemma world2_reachable : reachable sample_deployment world2.
Proof.
  eapply steps_cons; [|eapply steps_cons; [|apply steps_refl]]; eapply step_run; apply surjective_pairing.
Qed.

Lemma reachable_integrity_witness :
  reachable sample_deployment world2 ∧ wf world2
  ∧ ∃ r, t_incident (w_tab world2) !! 1 = Some r ∧ ir_status r = Some MaintenancePlanned.
Proof.
  split; [apply world2_reachable|]. split; [apply (reachable_integrity sample_deployment), world2_reachable|].
  eexists. split; vm_compute; reflexivity.
Defined.





(** C27: the notification queue is consistent in every reachable state: a row is pending
    with attempts left and no lease, leased to a worker, sent, or failed for good; no
    row has more attempts than allowed, and only a row in processing carries a lease. *)
Theorem reachable_queue d w :
  0 < wk_maxAttempts (dp_worker d) → reachable d w →
  ∀ k r, t_outbox (w_tab w) !! k = Some r → row_ok (wk_maxAttempts (dp_worker d)) r.
Proof.
  intros Hm H. apply (steps_queue_step d init w Hm H). intros k r Hk. by inversion Hk.
Qed.

Definition notifying_deployment : Deployment :=
  mkDeployment (dp_Verify sample_deployment) (λ _, true) (dp_rbac sample_deployment)
    (Some (NewPublisher (Notify.mkConfig true "dash@example.com" "smtp.example.com" 587 "" "" true (10 * Second) Minute 5 Second "smod@example.com" [] [] [] []
       "https://status.example.com"))) (dp_worker sample_deployment).
Definition queue_event : Op :=
  OpPostEvent "Bearer t" (Some (mkIncidentData "Upgrade" "Text" (Some 0) [1] 500 (Some 900) None
    TypeMaintenance [] "alice@example.com" "" None "")).
Definition world3 : World := (run_op notifying_deployment first_component (env_at 300) init).2.
Definition world4 : World := (run_op notifying_deployment queue_event (env_at 301) world3).2.

Lemma reachable_queue_witness :
  reachable notifying_deployment world4
  ∧ ∃ r, t_outbox (w_tab world4) !! 1 = Some r ∧ or_recipient r = "alice@example.com"%string ∧ row_ok 5 r.
Proof.
  assert (reachable notifying_deployment world4) as H.
  { eapply steps_cons; [|eapply steps_cons; [|apply steps_refl]]; eapply step_run; apply surjective_pairing. }
  split; [exact H|].
  assert (∃ r, t_outbox (w_tab world4) !! 1 = Some r ∧ or_recipient r = "alice@example.com"%string)
    as (r & Hr & Hrec) by (eexists; split; vm_compute; reflexivity).
  exists r. split; [exact Hr|]. split; [exact Hrec|].
  apply (reachable_queue notifying_deployment world4 ltac:(vm_compute; reflexivity) H 1 r Hr).
Defined.
