(* ===== verification/PropsStatic.v ===== *)
(** * Properties of the frontend proxy

    The response cache against its specification, where every reply comes from, and
    what a GET returns while origins fail. *)

From S2P Require Import Prelude GoStrings GoTime StaticCache Notify Conf StaticProxy StaticSpec.
Local Open Scope Z_scope.

(** ** The cache *)

(** C7: the response cache refines a bounded list in the order of use.  Whatever
    sequence of [get], [getStale], [put], [Len] and [Bytes] is called on a new cache,
    the answers are those of the specification, and the final state holds the items the
    specification holds in the same order: the index, the list and the byte count agree
    and the bytes stay within the budget. *)
Theorem cache_refines_lru max os :
  (run_calls exec os (newCache max)).1 = (run_calls (spec_exec max) os []).1
  ∧ represents max (run_calls exec os (newCache max)).2 (run_calls (spec_exec max) os []).2.
Proof. apply run_refines. split; [apply newCache_wf|done]. Qed.

(** ** Replies *)


(** C38: no waiting request is forgotten.  In every state the proxy can reach, a request
    that waits has either its result or a fetch for its key in progress; whichever it
    is, the step that serves it is possible, and the fetch gives every waiter of its key
    a result. *)
Theorem waiter_served opts E f id w : proxy_reachable opts E f → fl_waiting f !! id = Some w →
  if wt_result w is Some _ then ∃ f' rep, pstep (newProxy opts).1 E (Deliver id) f = Some (f', Some (id, rep))
  else ∃ f', pstep (newProxy opts).1 E (Finish (cacheKey (wt_req w))) f = Some (f', None)
       ∧ ∃ w', fl_waiting f' !! id = Some w' ∧ wt_req w' = wt_req w ∧ is_Some (wt_result w').
Proof.
  intros Hf Hid. apply reachable_ok in Hf. destruct (fo_waiting _ _ _ Hf id w Hid) as [Hm Hw].
  destruct (wt_result w) as [r|] eqn:Hr; cbn [pstep].
  - rewrite Hid. cbn [mbind option_bind]. rewrite Hr. cbn [mbind option_bind].
    destruct (serveResult _ _ _ _ _ _ _) as [rep s]. eauto.
  - destruct Hw as [req Hreq]. rewrite Hreq. cbn [mbind option_bind].
    destruct (shared_fetch _ _ _ _) as [r s]. eexists. split; [done|]. cbn. rewrite lookup_fmap, Hid. cbn.
    eexists. split; [done|]. unfold publish_result. rewrite Hr, !bool_decide_true by done. cbn. eauto.
Qed.

(** ** Failover *)

(** The reply to a GET that passes on [resp]. *)
Definition miss (dst : Header) (resp : Response) : Reply :=
  RWritten (rp_StatusCode resp)
    (header_Set cacheHeader cacheMiss (copyHeaders dst (responseHeaders (rp_Header resp)))) (rp_body resp).

Lemma fallback_use dst req t l : fallback dst req t (Lru.use (cacheKey req) l) = fallback dst req t l.
Proof. unfold fallback. by rewrite find_use. Qed.

Lemma writeEntry_entry_of p dst req resp t : rq_Method req = MethodGet →
  writeEntry dst req (entry_of p resp t) cacheMiss = miss dst resp.
Proof.
  intros Hm. unfold writeEntry, miss, entry_of. rewrite Hm.
  destruct (cacheTTL _ _); [destruct (_ == StatusOK)|]; done.
Qed.

(** A GET that the cache does not answer. *)
Lemma get_uncached p E dst req s rep s' r s2 : wf_cache (ps_cache s) → rq_Method req = MethodGet →
  shared_fetch p req E s = (r, s2) → serveResult p dst req (cacheKey req) r E s2 = (rep, s') →
  match first_answer E usable (ps_calls s) (px_origins p) req with
  | Some (_, resp) =>
      if too_large resp then
        ∃ n t, rep = match first_answer E streamable n (px_origins p) req with
                     | Some (_, resp') => miss dst resp' | None => fallback dst req t (held s) end
      else rep = miss dst resp
           ∧ held s' = (let e := entry_of p resp (clock_at E (ps_tick s)) in
                        if e_storable e then Lru.store (c_maxBytes (ps_cache s)) (cacheKey req) e (held s)
                        else held s)
  | None => ∃ t, rep = fallback dst req t (held s)
  end.
Proof.
  intros W Hm. unfold shared_fetch. rewrite P_bind_eq. destruct (fetch p req E s) as [r1 s1] eqn:Hf.
  apply fetch_loop_spec in Hf as [-> [Hc Ho]]. rewrite <- Hc in W. unfold fetch_result.
  destruct (first_answer _ _ _ _ _) as [[o resp]|] eqn:Hfa.
  - destruct (too_large resp); [intros [= <- <-]|].
    + cbn [serveResult]. intros H. apply stream_loop_spec in H. exists (ps_calls s1).
      destruct (first_answer E streamable _ _ _) as [[o' resp']|] eqn:Hfs; [exists 0; by destruct H|].
      destruct H as (s3 & [Hc3 _] & _ & H). rewrite <- Hc3 in W.
      apply serveUnavailable_spec in H as [-> _]; [|done]. rewrite Hc3, Hc. eauto.
    + set (e := entry_of _ _ _). rewrite P_bind_eq. destruct (e_storable e) eqn:Hst; cbn.
      * intros [= <- <-] H. injection H as <- <-. cbn. split; [by apply writeEntry_entry_of|].
        destruct (put_refines (ps_cache s1) (cacheKey req) e W) as (_ & -> & _). by rewrite Hc.
      * intros [= <- <-] H. injection H as <- <-. rewrite Hc. split; [by apply writeEntry_entry_of|done].
  - intros [= <- <-] H. apply serveUnavailable_spec in H as [-> _]; [|done]. rewrite Hc. eauto.
Qed.


(** ** A proxy at work *)

Definition sample_opts : Options := mkOptions ["one.example"; "two.example"]%string (300 * Second) 1000.
(** The first origin is down; the second serves a page. *)
Definition sample_penv : PEnv :=
  mkPEnv (λ n method url host,
    if host == "one.example"%string then None
    else Some (mkResponse 200 {[ "Content-Type"%string := ["text/html"%string] ]} 5 "hello" false false))
    (λ n, Z.of_nat n).
Definition sample_get : Request := mkRequest "GET" "status.example" "/index.html" "" "/index.html".

Definition run_events (evs : list pevent) (f : Flights) : Flights :=
  foldl (λ f ev, match pstep (newProxy sample_opts).1 sample_penv ev f with
                 | Some (f', _) => f' | None => f end) f evs.
(** Two requests wait for the same page; the fetch has returned. *)
Definition sample_flights (evs : list pevent) : Flights :=
  run_events evs (mkFlights (newProxy sample_opts).2 ∅ ∅).

Lemma sample_flights_reachable evs : proxy_reachable sample_opts sample_penv (sample_flights evs).
Proof.
  unfold sample_flights. assert (∀ f, proxy_reachable sample_opts sample_penv f →
    proxy_reachable sample_opts sample_penv (run_events evs f)) as H; [|apply H; constructor].
  induction evs as [|ev evs IH]; intros f Hf; cbn; [done|].
  destruct (pstep _ _ ev f) as [[f' out]|] eqn:Hs; apply IH; [by econstructor|done].
Qed.


Lemma waiter_served_witness :
  ∃ f', pstep (newProxy sample_opts).1 sample_penv (Finish (cacheKey sample_get))
          (sample_flights [Arrive 1 ∅ sample_get]) = Some (f', None).
Proof.
  destruct (waiter_served sample_opts sample_penv (sample_flights [Arrive 1 ∅ sample_get]) 1
    (mkWaiter sample_get ∅ None) (sample_flights_reachable _)) as (f' & Hf & _).
  - vm_compute. reflexivity.
  - exists f'. exact Hf.
Defined.

