(* ===== verification/PropsConfig.v ===== *)
(** * Properties of configuration, start-up and replicas *)

From S2P Require Import Prelude GoStrings GoTime GoFloat Errors Event Rbac Json Auth Models Store Queries Writes Integrity Outbox OutboxSpec Notify NotifySpec Conf StaticCache StaticProxy Facade WorkerSpec Checker Api Handlers ApiSpec System Scheduler OpenApi App.
Local Open Scope Z_scope.

(** ** A configuration to start from *)

Section SampleSettings.
Local Open Scope string_scope.

(** What the environment sets; the .env file adds the rest. *)
Definition sample_settings : Settings :=
  mkSettings "postgresql://db" "" (mkOIDC "https://idp.example.com" "dashboard" "") "" "" "" "" ""
    (mkRBAC "creators" "operators" "admins" "reporters")
    (mkSMTP "smtp.example.com" "587" "dash@example.com" "" "" true "")
    (mkNotifications true "" "" "" "smod@example.com" "" "" "" "")
    (mkStatic "one.example, two.example" "" "").
Definition sample_dotenv : gmap string string :=
  {[ "SD_NOTIFICATIONS_MAX_ATTEMPTS" := "7"; "SD_PORT" := "8080" ]}.
Definition sample_idp : Idp :=
  mkIdp (λ _, Some [("jwks_uri", JStr "https://idp.example.com/keys")])
        (λ _, Some (200%Z, Some (JObj [("keys", JArr [JObj []])]))).
Definition sample_boot : Boot := mkBoot true sample_idp (Some []) (Some 1%Z) (λ _ _, true) "worker-1".
Definition no_verifier (token : string) : option (string * option obj) := None.
End SampleSettings.

Definition sample_loaded : Settings := FillDefaults (merged sample_dotenv sample_settings).
Lemma sample_load : LoadConf (λ _, true) (λ l, l) (Some sample_dotenv) (Some sample_settings) = inr sample_loaded.
Proof. vm_compute. reflexivity. Qed.

(** ** Configuration *)

(** C25: [LoadConf] accepts exactly the usable settings.  It succeeds iff the
    environment was processed and the settings, with every empty field read from its
    SD_ variable of the .env file and the defaults filled in, satisfy [settings_ok]:
    ports in range and distinct, issuer, client and admin roles set, and, when
    notifications are enabled, a parseable transport, addresses and domains that parse,
    a lease longer than the mail timeout and at least one attempt, and usable static
    origins.  The order in which Go ranges over its map does not matter. *)
Theorem settings_accepted_iff PA range env processed c :
  (∀ l, range l ≡ₚ l) →
  LoadConf PA range (Some env) processed = inr c
  ↔ ∃ c0, processed = Some c0 ∧ c = FillDefaults (merged env c0) ∧ settings_ok PA c.
Proof.
  intros Hr. unfold LoadConf. destruct processed as [c0|]; [|naive_solver].
  rewrite merge_settings_Some. set (c1 := FillDefaults (merged env c0)).
  destruct (Validate PA range c1) as [e|] eqn:Hv.
  - split; [done|]. intros (c' & [= <-] & -> & Hok). fold c1 in Hok.
    apply (Validate_None PA range Hr) in Hok. congruence.
  - apply (Validate_None PA range Hr) in Hv. naive_solver.
Qed.

Lemma settings_accepted_iff_witness :
  settings_ok (λ _, true) sample_loaded ∧ nt_MaxAttempts (s_Notifications sample_loaded) = "7"%string
  ∧ s_Port sample_loaded = "8080"%string ∧ sm_Timeout (s_SMTP sample_loaded) = "30s"%string.
Proof.
  split; [|split_and!; vm_compute; reflexivity].
  destruct (settings_accepted_iff (λ _, true) (λ l, l) sample_dotenv (Some sample_settings) sample_loaded
    (λ l, Permutation_refl l)) as [H _].
  destruct (H sample_load) as (c0 & _ & _ & Hok). exact Hok.
Defined.

(** Start-up cannot fail for a reason in loaded settings: whatever the database,
    the identity provider, the OpenAPI file, the schema and the mail library answer, the
    only errors [app.New] reports are theirs.  The service then has a worker iff
    notifications are enabled, with at least one attempt, a metrics port other than the
    API's, and a proxy, if any, with at least one origin, a positive lifetime and a
    positive budget. *)
Theorem loaded_settings_boot verifier PA range env processed boot c :
  (∀ l, range l ≡ₚ l) → LoadConf PA range env processed = inr c →
  (∀ e, app_New verifier PA boot c = inl e → external e = true)
  ∧ ∀ app, app_New verifier PA boot c = inr app →
    (ap_hasWorker app = nt_Enabled (s_Notifications c))
    ∧ (ap_hasWorker app = true → 1 <= wk_maxAttempts (dp_worker (ap_deployment app)))
    ∧ (∀ p s, ap_static app = Some (p, s) → px_origins p ≠ [] ∧ 0 < px_ttl p ∧ 0 < c_maxBytes (ps_cache s))
    ∧ (∀ q, ap_metricsPort app = Some q → q ≠ ap_port app).
Proof.
  intros Hr Hl. pose proof (LoadConf_ok PA range Hr _ _ _ Hl) as Hok.
  destruct (ConfigFromConf_ok PA c Hok) as (n & Hn & Hen & Hlim).
  destruct (NewHandler_ok PA c Hok) as (h & Hh & Hprops).
  unfold app_New, api_New, buildWorker, newAuthProvider. rewrite Hh, Hn.
  destruct (bt_db boot); cbn [negb]; [|split; [by intros e [= <-]|done]].
  destruct (NewProvider (bt_oidc boot) _) as [pe|pv]; [split; [by intros e [= <-]|done]|].
  destruct (loadOpenAPISpec (bt_spec boot)) as [spec|]; [|split; [by intros e [= <-]|done]].
  rewrite Hen. destruct (nt_Enabled (s_Notifications c)) eqn:He; cbn [negb].
  - destruct (EnsureNotificationSchema _) as [es|]; [split; [by intros e [= <-]|done]|].
    destruct (NewSMTPSender (bt_smtp boot) n); [|split; [by intros e [= <-]|done]].
    split; [done|]. intros app [= <-]. cbn. split_and!; [done| |done|].
    + intros _. apply Hlim. by rewrite Hen.
    + intros q [= <-] Heq. destruct (so_port _ _ Hok) as (p & [Hp1 Hp2] & [Hm|(q & [Hq _] & Hne)]);
        [rewrite Hm in Heq; rewrite <- Heq in Hp1; done|congruence].
  - split; [done|]. intros app [= <-]. cbn. split_and!; done.
Qed.

Definition sample_app : boot_err + App := app_New no_verifier (λ _, true) sample_boot sample_loaded.

Lemma loaded_settings_boot_witness :
  ∃ app, sample_app = inr app ∧ ap_hasWorker app = true ∧ 1 <= wk_maxAttempts (dp_worker (ap_deployment app)).
Proof.
  destruct (loaded_settings_boot no_verifier (λ _, true) (λ l, l) (Some sample_dotenv) (Some sample_settings)
    sample_boot sample_loaded (λ l, Permutation_refl l) sample_load) as [_ H].
  destruct sample_app as [e|app] eqn:Ha; [vm_compute in Ha; discriminate Ha|].
  destruct (H app Ha) as (Hw & Hm & _). exists app. split; [reflexivity|].
  rewrite Hw in *. split; [vm_compute; reflexivity|]. apply Hm. vm_compute. reflexivity.
Defined.

(** ** Replicas *)

(** Two replicas have started; the first holds the scan's lock and its body has run. *)
Definition idle_deployment : Deployment :=
  mkDeployment (λ _, None) (λ _, true) (New (Rbac.mkConfig "" "" "admins" "")) None (mkWorker "worker-1" Minute 5 Second).
Definition two_replicas : Cluster :=
  set_worker 2 false WStopped (set_worker 1 false WStopped (mkCluster init ∅ ∅ ∅)).
Definition scanning : Cluster :=
  mkCluster init {[KeyScan := (11, 1%nat)]} {[(1%nat, 0%nat) := mkRound 11 false]} (cl_replicas two_replicas).

Lemma two_replicas_reachable lossy : cluster_reachable lossy false idle_deployment two_replicas.
Proof.
  eapply cluster_next; [eapply cluster_next; [apply cluster_init|]|].
  - apply (c_start lossy false idle_deployment _ 1%nat). reflexivity.
  - apply (c_start lossy false idle_deployment (set_worker 1 false WStopped (mkCluster init ∅ ∅ ∅)) 2%nat).
    reflexivity.
Qed.

Lemma scanning_reachable lossy : cluster_reachable lossy false idle_deployment scanning.
Proof.
  eapply cluster_next; [apply two_replicas_reachable|].
  refine (c_lock _ _ _ _ 1%nat (mkReplica false WStopped) 0%nat
    (mkTask "scan" scanInterval KeyScan OpCheck) 11 _ _ _ _ _ _); try (vm_compute; reflexivity).
  intros (rt & rd & H & _). cbn in H. by rewrite lookup_empty in H.
Qed.



(** A lock is never left behind when unlock statements succeed.  In every such
    reachable state a locked key belongs to a round in progress; so whenever no round of
    a task is in progress, the next tick of any replica gets the lock, whatever failed
    before: a task that returned an error, a busy key or a replica that died. *)
Theorem lock_released hasWorker d c i t sess :
  cluster_reachable false hasWorker d c → newScheduler hasWorker !! i = Some t →
  (∀ r j rd u, cl_rounds c !! (r, j) = Some rd → newScheduler hasWorker !! j = Some u → tk_Key u ≠ tk_Key t) →
  ∀ r rep, cl_replicas c !! r = Some rep → ¬ session_used c sess →
  ∃ locks, pg_try_advisory_lock (tk_Key t) sess (cl_locks c) = Some locks
  ∧ cstep false hasWorker d c
      (mkCluster (cl_world c) locks (<[(r, i) := mkRound sess false]> (cl_rounds c)) (cl_replicas c)).
Proof.
  intros Hc Ht Hidle r rep Hrep Hfree.
  assert (cl_locks c !! tk_Key t = None) as Hnone.
  { destruct (cl_locks c !! tk_Key t) as [[s n]|] eqn:Hk; [|done].
    destruct (reachable_orphans _ _ _ Hc _ _ _ Hk) as (_ & r' & j & rd & u & Hr & _ & Hu & Hku).
    by destruct (Hidle _ _ _ _ Hr Hu). }
  assert (pg_try_advisory_lock (tk_Key t) sess (cl_locks c)
          = Some (<[tk_Key t := (sess, 1%nat)]> (cl_locks c))) as Hl.
  { unfold pg_try_advisory_lock. by rewrite Hnone. }
  eexists. split; [exact Hl|]. eapply c_lock; [exact Hrep|exact Ht| |exact Hfree|exact Hl].
  destruct (cl_rounds c !! (r, i)) as [rd|] eqn:Hr; [|done]. by destruct (Hidle _ _ _ _ Hr Ht).
Qed.

Lemma lock_released_witness :
  ∃ locks, pg_try_advisory_lock KeyScan 12 (cl_locks two_replicas) = Some locks.
Proof.
  destruct (lock_released false idle_deployment two_replicas 0 (mkTask "scan" scanInterval KeyScan OpCheck) 12
    (two_replicas_reachable false) eq_refl) with (r := 2%nat) (rep := mkReplica false WStopped)
    as (locks & Hl & _).
  - intros r j rd u H. cbn in H. by rewrite lookup_empty in H.
  - reflexivity.
  - intros (rt & rd & H & _). cbn in H. by rewrite lookup_empty in H.
  - exists locks. exact Hl.
Defined.

(** C18: the whole deployment keeps its promises.  Start any number of replicas from
    loaded settings and let them serve requests, run their tasks, drain, crash and
    restart in any order: the stored data is consistent in every state reached, and so is
    the notification queue under the attempt limit of the settings. *)
Theorem deployed_service_consistent verifier PA range env processed boot c app lossy cl :
  (∀ l, range l ≡ₚ l) → LoadConf PA range env processed = inr c →
  app_New verifier PA boot c = inr app →
  cluster_reachable lossy (ap_hasWorker app) (ap_deployment app) cl →
  wf (cl_world cl)
  ∧ (ap_hasWorker app = true →
     queue_ok (wk_maxAttempts (dp_worker (ap_deployment app))) (t_outbox (w_tab (cl_world cl)))).
Proof.
  intros Hr Hl Happ Hcl. split.
  - pose proof (cluster_world_R db_step (ap_deployment app) (run_op_db _) _ _ _ Hcl) as [_ H].
    by destruct (H wf_init).
  - intros Hw. pose proof (LoadConf_ok PA range Hr _ _ _ Hl) as Hok.
    pose proof (app_New_worker _ _ _ _ _ _ Hok Happ Hw) as Hm.
    assert (0 < wk_maxAttempts (dp_worker (ap_deployment app))) as Hm' by lia.
    apply (cluster_world_R (queue_step _) (ap_deployment app) (λ op, run_op_queue _ op Hm') _ _ _ Hcl).
    intros k r Hk. cbn in Hk. by rewrite lookup_empty in Hk.
Qed.

(** A replica that has started and served a request. *)
Definition served (app : App) : Cluster :=
  on_replica (ap_deployment app) (OpPostEvent "" None) (mkEnv (λ _, 300) (λ _, false) (λ _, "u"%string)
    (λ _ d, d) (λ _ _ _ _, MailOK) (λ _, false)) 1 (mkReplica false WStarting)
    (set_worker 1 false WStarting (mkCluster init ∅ ∅ ∅)).

Lemma served_reachable app lossy : ap_hasWorker app = true →
  cluster_reachable lossy (ap_hasWorker app) (ap_deployment app) (served app).
Proof.
  intros ->. eapply cluster_next; [eapply cluster_next; [apply cluster_init|]|].
  - apply (c_start _ true _ _ 1%nat). reflexivity.
  - by apply c_request.
Qed.

Lemma deployed_service_consistent_witness :
  ∃ app, sample_app = inr app ∧ wf (cl_world (served app)).
Proof.
  destruct sample_app as [e|app] eqn:Ha; [vm_compute in Ha; discriminate Ha|].
  assert (ap_hasWorker app = true) as Hw by (vm_compute in Ha; injection Ha as <-; reflexivity).
  exists app. split; [reflexivity|].
  exact (proj1 (deployed_service_consistent no_verifier (λ _, true) (λ l, l) (Some sample_dotenv)
    (Some sample_settings) sample_boot sample_loaded app true _ (λ l, Permutation_refl l) sample_load Ha
    (served_reachable app true Hw))).
Defined.

(** ** The log of the settings *)

Section LogSecrets.
Import Url UrlSpec.
Local Open Scope string_scope.

(** C37: credentials stay out of the log: settings that differ only in the user and the
    password of a database URL that parses, and in an SMTP password that is set, are
    logged alike. *)
Theorem log_hides_secrets parseHost scheme ui1 ui2 host tail p1 p2 c :
  scheme ≠ "" → all_chars is_letter scheme = true →
  none_of ["/"; "?"; "#"]%char ui1 = true → none_of ["/"; "?"; "#"]%char ui2 = true →
  none_of ["@"; "/"; "?"; "#"]%char host = true → tail_ok tail = true →
  is_Some (Parse parseHost (db_url scheme ui1 host tail)) →
  is_Some (Parse parseHost (db_url scheme ui2 host tail)) →
  p1 ≠ "" → p2 ≠ "" →
  Log parseHost (with_secrets c (db_url scheme ui1 host tail) p1)
  = Log parseHost (with_secrets c (db_url scheme ui2 host tail) p2).
Proof.
  intros Hs Hl H1 H2 Hh Ht P1 P2 Hp1 Hp2. unfold Log, with_secrets. cbn.
  rewrite (sanitize_db_url parseHost scheme ui1 ui2 host tail) by done.
  unfold maskSecret. by rewrite !bool_decide_eq_false_2.
Qed.

Lemma log_hides_secrets_witness :
  Log (λ _ h, Some h) (with_secrets sample_settings (db_url "postgresql" "app:s3cret" "db:5432" "/sd?ssl=on") "x")
  = Log (λ _ h, Some h) (with_secrets sample_settings (db_url "postgresql" "root:%41" "db:5432" "/sd?ssl=on") "y").
Proof.
  apply (log_hides_secrets (λ _ h, Some h) "postgresql" "app:s3cret" "root:%41" "db:5432" "/sd?ssl=on" "x" "y"
    sample_settings); try reflexivity; try discriminate; eexists; vm_compute; reflexivity.
Defined.

(** A URL that does not parse is logged as it is.  A password with a byte that needs
    escaping is such a case, whatever hosts are accepted. *)
Theorem log_shows_unparsable parseHost c :
  s_DB c = db_url "postgresql" "app:p^w" "db" "/sd" →
  ∃ rest, ("Storage and logging configuration", LString "db" "postgresql://app:p^w@db/sd" :: rest)
    ∈ Log parseHost c.
Proof.
  intros Hdb. eexists. unfold Log. rewrite Hdb.
  assert (sanitizeDBString parseHost (db_url "postgresql" "app:p^w" "db" "/sd") = "postgresql://app:p^w@db/sd") as ->.
  { unfold sanitizeDBString. destruct (Parse _ _) as [u|] eqn:Hp; [|reflexivity].
    apply Parse_db_url in Hp as (_ & _ & _ & Hu); [vm_compute in Hu; discriminate|done..]. }
  do 4 apply list_elem_of_further. apply list_elem_of_here.
Qed.
End LogSecrets.
