(* ===== verification/PropsPublic.v ===== *)
(** * Properties of tokens and of the public document *)

From S2P Require Import Prelude GoStrings Rbac Json Auth OpenApi.
Local Open Scope Z_scope.

(** ** Tokens *)

Definition role_names (svc : Service) : gset string :=
  creators svc ∪ operators svc ∪ admins svc ∪ reporters svc.

(** Configured names without surrounding space and without a second leading slash. *)
Definition plain_names (svc : Service) : Prop :=
  ∀ n, n ∈ role_names svc → TrimSpace n = n ∧ normalizeRoleName n = n ∧ n ≠ ""%string.

(** The provider knows the names of the role service. *)
Lemma known_names svc n : plain_names svc → n ∈ roleNameSet (RoleNames svc) ↔ n ∈ role_names svc.
Proof.
  intros Hp. unfold roleNameSet. rewrite elem_of_list_to_set, elem_of_filterb, list_elem_of_fmap.
  rewrite negb_true_iff, bool_decide_eq_false.
  assert (∀ y, y ∈ RoleNames svc ↔ y ∈ role_names svc) as Hn.
  { intros y. unfold RoleNames. rewrite merge_sort_Permutation. apply elem_of_elements. }
  split.
  - intros [(y & -> & Hy) _]. apply Hn in Hy. by destruct (Hp y Hy) as (-> & _).
  - intros Hin. destruct (Hp n Hin) as (Ht & _ & Hne). split; [|done]. exists n.
    split; [done|]. by apply Hn.
Qed.

Lemma roleForName_known svc n : NoRole < roleForName svc n → n ∈ role_names svc.
Proof.
  unfold roleForName, role_names. repeat case_bool_decide; try set_solver. unfold NoRole. lia.
Qed.


Definition token_service : Service := New (Rbac.mkConfig "creators" "operators" "admins" "reporters").
(** A Zitadel token: roles are keys, each with its organisations. *)
Definition token_payload : obj :=
  [("email", JStr "alice@example.com");
   ("urn:zitadel:iam:org:project:42:roles", JObj [("operators", JObj [("7", JStr "example.com")])]);
   ("comment", JStr "admins")]%string.

(** An issuer with one key. *)
Definition token_idp : Idp :=
  mkIdp (λ _, Some [("jwks_uri", JStr "k")]%string) (λ _, Some (200, Some (JObj [("keys"%string, JArr [JNull])]))).


(** ** The public document *)


Definition sample_spec : obj :=
  [("security", JArr []); ("servers", JArr []);
   ("paths", JObj [("/v2/events", JObj [("get", JObj [("tags", JArr [JStr "events"])]); ("post", JObj [])]);
                   ("/v2/login", JObj [("post", JObj [])])]);
   ("tags", JArr [JObj [("name", JStr "events")]; JObj [("name", JStr "auth")]]);
   ("components", JObj [("securitySchemes", JObj []);
      ("schemas", JObj [("TokenRequest", JObj []); ("Event", JObj [("properties", JObj [("version", JNull)])])])])]%string.

