(* ===== verification/PropsReport.v ===== *)
(** * Properties of the availability report and of the feeds *)

From S2P Require Import Prelude GoStrings GoTime GoFloat GoSort Calendar Errors Event Models Store Queries Availability Rss Samples.
Local Open Scope Z_scope.

(** ** Availability *)

(** C24: the availability report is exact before it is rounded.  For a component with
    events, the report lists the twelve months up to the current one, latest first; the
    downtime of a month is, for every closed event of impact 3, the time the event
    overlaps that month and the reporting period, no more and no less, each added once;
    and a month that no outage touches reports exactly 100. *)
Theorem availability_exact incidents E w : incidents ≠ [] → Forall complete incidents →
  let periodEnd := now_at E (w_tick w) in
  let period := month_of periodEnd - availabilityMonths in
  ∃ l w', calculateAvailability incidents E w = (Ret l, w') ∧ w_tab w' = w_tab w
  ∧ sortComponentAvailability l
    = (λ i, month_entry period periodEnd incidents (month_of periodEnd - Z.of_nat i)) <$> seq 0 12
  ∧ (∀ k, month_downtimes period periodEnd k incidents = [] →
       ma_Percentage (month_entry period periodEnd incidents k) = f_of_Z 100)
  ∧ (∀ k, month_start k < month_start (k + 1) ∧ ∀ t, month_start k <= t < month_start (k + 1) → month_of t = k).
Proof.
  intros Hne Hc periodEnd period.
  destruct (calculateAvailability_run incidents E w Hne Hc) as (w' & Hrun & Htab).
  fold periodEnd in Hrun. fold period in Hrun. eexists _, w'. split; [exact Hrun|]. split; [exact Htab|].
  split_and!.
  - rewrite sort_months by done. rewrite <- fmap_reverse.
    assert (∀ n : nat, reverse (seq 0 n) = (λ i, (n - 1 - i)%nat) <$> seq 0 n) as Hrev.
    { induction n as [|n IH]; [done|]. rewrite seq_S at 1. rewrite reverse_snoc, IH. change (seq 0 (S n)) with (0 :: seq 1 n)%nat.
      rewrite fmap_cons. f_equal; [lia|]. rewrite <- fmap_S_seq, <- list_fmap_compose. apply list_fmap_ext.
      intros j i Hj. cbn. lia. }
    rewrite Hrev, <- list_fmap_compose. apply list_fmap_ext. intros j i Hj.
    apply lookup_seq in Hj as [-> Hj]. cbn [compose]. f_equal. subst period. unfold availabilityMonths. lia.
  - intros k Hk. cbn [ma_Percentage month_entry]. rewrite Hk. apply full_month.
  - intros k. split; [apply month_start_lt|]. intros t Ht. by apply month_of_unique.
Qed.

(** An outage of two days across the end of February 2024, seen in March. *)
Definition outage_event (start end_ : Z) : Incident :=
  incidentFromEnt 1 (incident_row TypeIncident IncidentResolved start (Some end_) 3 1) [].
Definition march_15 : Z := 19797 * Day.
Definition february : Z := 2024 * 12 + 1.

Lemma availability_exact_witness :
  month_downtimes (month_of march_15 - 11) march_15 february [outage_event (19782 * Day) (19784 * Day)] = [Day]
  ∧ ∃ l w', calculateAvailability [outage_event (19782 * Day) (19784 * Day)] (env_at march_15) sample_world
            = (Ret l, w')
    ∧ ma_Percentage (month_entry (month_of march_15 - 11) march_15
        [outage_event (19782 * Day) (19784 * Day)] (february - 1)) = f_of_Z 100.
Proof.
  split; [vm_compute; reflexivity|].
  destruct (availability_exact [outage_event (19782 * Day) (19784 * Day)] (env_at march_15) sample_world)
    as (l & w' & Hrun & _ & _ & Hfull & _).
  - discriminate.
  - repeat constructor; eauto.
  - exists l, w'. split; [exact Hrun|]. apply Hfull. vm_compute. reflexivity.
Defined.

(** Two outages recorded for the same time are counted twice, and a month they cover
    is reported below zero. *)
Lemma overlapping_outages_negative :
  SpecFloat.SFltb (ma_Percentage (month_entry (month_of march_15 - 11) march_15
    [outage_event (19754 * Day) (19783 * Day); outage_event (19754 * Day) (19783 * Day)] february)) (f_of_Z 0) = true.
Proof. vm_compute. reflexivity. Qed.

(** ** Feeds *)

(** [e] is a stored event that everyone may see. *)
Definition public_event (t : Tables) (e : Incident) : Prop :=
  ∃ r sts, t_incident t !! inc_ID e = Some r ∧ where_all publicEventPredicates t (inc_ID e) r = true
  ∧ e = set_Statuses (load t (inc_ID e, r)) sts.

Lemma attach_public t rs g :
  (∀ kr, kr ∈ rs → t_incident t !! kr.1 = Some kr.2 ∧ where_all publicEventPredicates t kr.1 kr.2 = true) →
  Forall (public_event t) (attachStatuses (load t <$> rs) g) ∧ length (attachStatuses (load t <$> rs) g) = length rs.
Proof.
  intros H. unfold attachStatuses. split; [|by rewrite !length_fmap].
  apply Forall_forall. intros e (i & -> & (kr & -> & Hkr)%list_elem_of_fmap)%list_elem_of_fmap.
  destruct (H kr Hkr) as [Hl Hp]. destruct kr as [k r]. exists r, (default [] (g !! inc_ID (load t (k, r)))).
  by split_and!.
Qed.

Lemma byID_public t (chunks : list (list Z)) : ∀ byID E w g w', w_tab w = t →
  (∀ id e, byID !! id = Some e → ∃ r, e = load t (id, r) ∧ t_incident t !! id = Some r) →
  foldM (λ byID chunk,
      rs ← select (λ t, (λ kr, (kr.1, load t kr)) <$>
             filterb (λ kr : Z * IncidentRow, bool_decide (kr.1 ∈ chunk)) (rows (t_incident t)));
      mret (foldl (λ (m : gmap Z Incident) kr, <[kr.1 := kr.2]> m) byID rs)) byID chunks E w = (Ret g, w') →
  ∀ id e, g !! id = Some e → ∃ r, e = load t (id, r) ∧ t_incident t !! id = Some r.
Proof.
  induction chunks as [|c cs IH]; intros byID E w g w' Hw Hby H; cbn in H; [injection H as <- _; done|].
  apply bind_Ret_inv in H as (m & w1 & H1 & H). apply bind_Ret_inv in H1 as (rs & w2 & H1 & H2).
  apply select_Ret in H1 as (-> & -> & _). injection H2 as <- <-. refine (IH _ _ _ _ _ _ _ H); [exact Hw|].
  rewrite Hw. set (l := filterb _ (rows (t_incident t))).
  assert (∀ kr, kr ∈ l → t_incident t !! kr.1 = Some kr.2) as Hl.
  { intros [k r] [Hin _]%elem_of_filterb. by apply elem_of_rows. }
  clear H. clearbody l. revert byID Hby. induction l as [|kr l IHl]; intros byID Hby; cbn; [done|].
  apply IHl; [intros kr' Hk; apply Hl; by right|].
  intros id e [[<- <-]|[_ He]]%lookup_insert_Some; [|by apply Hby].
  exists kr.2. split; [by destruct kr|]. apply Hl. left.
Qed.

(** The two parts of the listing by component, and the listing by attribute. *)
Lemma by_component_public id E w evs w' : GetEventsByComponentID id feed_params E w = (Ret evs, w') →
  Forall (public_event (w_tab w)) evs ∧ (length evs <= 10)%nat.
Proof.
  unfold GetEventsByComponentID. cbn [p_IsActive feed_params p_Types p_LastCount].
  rewrite bind_run, ret_run. cbn beta iota zeta. intros H.
  apply bind_Ret_inv in H as (l & w2 & H2 & H). apply select_Ret in H2 as (-> & -> & _).
  apply bind_Ret_inv in H as (g & w3 & H3 & H). injection H as <- <-.
  set (m := matching (HasComponentIn [id] :: publicEventPredicates) (w_tab w)).
  change (map (load (w_tab w))) with (fmap (M := list) (load (w_tab w))).
  destruct (attach_public (w_tab w) (take (Z.to_nat maxEvents) (reverse m)) g) as [Hf Hl].
  { intros [k r] Hin. apply elem_of_take in Hin as (i & Hi & _). apply list_elem_of_lookup_2 in Hi.
    rewrite elem_of_reverse in Hi. apply elem_of_matching in Hi as [Hk Hp]. split; [done|]. cbn [fst snd].
    by apply andb_true_iff in Hp as [_ ?]. }
  split; [exact Hf|]. refine (Nat.le_trans _ _ _ (Nat.eq_le_incl _ _ Hl) _).
  rewrite length_take. unfold maxEvents. lia.
Qed.

Lemma ids_by_attr_public name value t id : id ∈ ids_by_attr name value t →
  ∃ r, t_incident t !! id = Some r ∧ where_all publicEventPredicates t id r = true.
Proof.
  unfold ids_by_attr. rewrite list_elem_of_In, in_flat_map. intros ([k r] & Hin & Hid).
  apply list_elem_of_In, elem_of_rows in Hin. cbn [fst snd] in Hid.
  destruct (where_all publicEventPredicates t k r) eqn:Hp; [|inversion Hid].
  apply list_elem_of_In, elem_of_omap in Hid as (ka & _ & Hka).
  destruct (_ && _); [|done]. injection Hka as <-. eauto.
Qed.

Lemma by_attr_public attr E w evs w' : GetIncidentsByComponentAttr attr feed_params E w = (Ret evs, w') →
  Forall (public_event (w_tab w)) evs ∧ (length evs <= 10)%nat.
Proof.
  unfold GetIncidentsByComponentAttr. intros H. apply bind_Ret_inv in H as (ids & w2 & H2 & H).
  apply select_Ret in H2 as (Hids & -> & _). cbn [p_LastCount feed_params] in Hids.
  rewrite bool_decide_false in Hids by done.
  assert (∀ id, id ∈ ids → ∃ r, t_incident (w_tab w) !! id = Some r
    ∧ where_all publicEventPredicates (w_tab w) id r = true) as Hpub.
  { intros id Hin. rewrite Hids in Hin. apply elem_of_take in Hin as (i & Hi & _).
    apply list_elem_of_lookup_2 in Hi. rewrite elem_of_reverse in Hi. by eapply ids_by_attr_public. }
  assert (length ids <= 10)%nat as Hlen by (rewrite Hids, length_take; unfold maxEvents; lia). clear Hids.
  unfold incidentsByIDs in H. destruct ids as [|id0 ids']; [injection H as <- _; split; [constructor|cbn; lia]|].
  set (ids := id0 :: ids') in *. apply bind_Ret_inv in H as (byID & w3 & H3 & H).
  apply bind_Ret_inv in H as (g & w4 & H4 & H). rewrite ret_run in H.
  assert (evs = attachStatuses (omap (λ id, byID !! id) ids) g) as -> by congruence.
  assert (∀ id e, byID !! id = Some e → ∃ r, e = load (w_tab w) (id, r) ∧ t_incident (w_tab w) !! id = Some r) as Hby.
  { eapply (byID_public (w_tab w)); [| |exact H3]; [done|]. intros ? ? Hx. by rewrite lookup_empty in Hx. }
  unfold attachStatuses. split.
  - apply Forall_forall. intros e (i & -> & (id & Hin & Hi)%elem_of_omap)%list_elem_of_fmap.
    destruct (Hby id i Hi) as (r & -> & Hr). destruct (Hpub id Hin) as (r' & Hr' & Hp). simplify_eq.
    exists r, (default [] (g !! inc_ID (load (w_tab w) (id, r)))). by split_and!.
  - rewrite length_fmap. etrans; [|exact Hlen]. clear. induction ids as [|x l IH]; [done|].
    rewrite omap_cons. destruct (byID !! x); cbn; lia.
Qed.

Lemma listing_public E w evs w' : GetEvents false feed_params E w = (Ret evs, w') →
  Forall (public_event (w_tab w)) evs ∧ (length evs <= 10)%nat.
Proof.
  unfold GetEvents. intros H. apply bind_Ret_inv in H as ([l total] & w1 & H1 & H). injection H as <- <-.
  apply GetEventsWithCount_Ret in H1 as (preds & w2 & page & Hp & Hpage & -> & _ & _).
  assert (applyEventsFilters feed_params false E w = (Ret publicEventPredicates, w)) as Hf by reflexivity.
  assert (preds = publicEventPredicates) as -> by congruence.
  unfold page_of in Hpage. cbn [feed_params p_Limit p_LastCount maxEvents] in Hpage. injection Hpage as <-.
  split; [|rewrite length_fmap, length_take; exact (Nat.le_min_l 10 _)].
  apply Forall_forall. intros e ([k r] & -> & Hin)%list_elem_of_fmap.
  apply elem_of_take in Hin as (i & Hi & _). apply list_elem_of_lookup_2 in Hi.
  rewrite merge_sort_Permutation in Hi. apply elem_of_matching in Hi as [Hk Hpub].
  exists r, (statuses_of (w_tab w) k). by split_and!.
Qed.

(** Whatever the filter, a feed selects at most ten events, all of them public. *)
Lemma getEvents_public region comp E w evs w' : getEvents region comp E w = (Ret evs, w') →
  Forall (public_event (w_tab w)) evs ∧ (length evs <= 10)%nat ∧ w_tab w' = w_tab w.
Proof.
  unfold getEvents. intros H.
  destruct (_ && _); [|destruct ((comp == _) && _)].
  - apply bind_Ret_inv in H as (c & w1 & H1 & H). pose proof (ReadOnly_tab _ _ _ _ _ H1) as Hw1.
    pose proof (ReadOnly_tab _ _ _ _ _ H) as Hw'. apply by_component_public in H. rewrite Hw1 in H.
    destruct H. split_and!; try done. congruence.
  - pose proof (ReadOnly_tab _ _ _ _ _ H) as Hw'. apply by_attr_public in H as [? ?]. done.
  - pose proof (ReadOnly_tab _ _ _ _ _ H) as Hw'. apply listing_public in H as [? ?]. done.
Qed.

(** Open events first, the latest start first; then closed ones, the latest end first. *)
Definition feed_le (a b : Incident) : Prop :=
  match inc_EndDate a, inc_EndDate b with
  | None, None => start_of b <= start_of a
  | None, Some _ => True
  | Some x, Some y => y <= x
  | Some _, None => False
  end.

Lemma sortEvents_spec l : sortEvents l ≡ₚ l ∧ StronglySorted feed_le (sortEvents l).
Proof.
  unfold sortEvents. set (op := λ i, bool_decide (inc_EndDate i = None)). split.
  - rewrite !SliceSort_perm. change (filterb (λ i, inc_EndDate i != None) l) with (filterb (λ i, negb (op i)) l).
    clearbody op. induction l as [|x l IH]; cbn [filterb]; [done|].
    destruct (op x); cbn [negb app]; [by rewrite IH|]. rewrite <- Permutation_middle. by rewrite IH.
  - assert (∀ x, x ∈ SliceSort (λ a b, start_of b <? start_of a) (filterb op l) → inc_EndDate x = None) as Ho.
    { intros x. rewrite SliceSort_perm, elem_of_filterb. unfold op. rewrite bool_decide_eq_true. tauto. }
    assert (∀ x, x ∈ SliceSort (λ a b, end_of b <? end_of a) (filterb (λ i, negb (op i)) l) → is_Some (inc_EndDate x)) as Hc.
    { intros x. rewrite SliceSort_perm, elem_of_filterb. unfold op. intros [_ H]. bool_facts. by apply not_eq_None_Some. }
    apply StronglySorted_app_intro.
    + eapply StronglySorted_impl_in; [|apply (SliceSort_sorted (λ a b, start_of b <? start_of a))].
      * intros x y Hx Hy. unfold sort_le, feed_le. rewrite (Ho x Hx), (Ho y Hy). intros H. bool_facts. lia.
      * intros x y. unfold sort_le. rewrite Z.ltb_lt, Z.ltb_ge. lia.
      * intros x y z. unfold sort_le. rewrite !Z.ltb_ge. lia.
    + eapply StronglySorted_impl_in; [|apply (SliceSort_sorted (λ a b, end_of b <? end_of a))].
      * intros x y Hx Hy. unfold sort_le, feed_le, end_of. destruct (Hc x Hx) as [ex ->], (Hc y Hy) as [ey ->].
        intros H. bool_facts. cbn in *. lia.
      * intros x y. unfold sort_le. rewrite Z.ltb_lt, Z.ltb_ge. lia.
      * intros x y z. unfold sort_le. rewrite !Z.ltb_ge. lia.
    + intros x y Hx Hy. unfold feed_le. rewrite (Ho x Hx). by destruct (Hc y Hy) as [ey ->].
Qed.

(** ** What the items show *)

Lemma mapM_elem {A B} (f : A → M B) l : ∀ E w ys w' y, mapM f l E w = (Ret ys, w') → y ∈ ys →
  ∃ x w1 w2, x ∈ l ∧ f x E w1 = (Ret y, w2).
Proof.
  induction l as [|x l IH]; intros E w ys w' y H Hy; cbn in H; [injection H as <- _; inversion Hy|].
  apply bind_Ret_inv in H as (y0 & w1 & H0 & H). apply bind_Ret_inv in H as (ys' & w2 & H1 & H).
  injection H as <- <-. apply elem_of_cons in Hy as [->|Hy]; [exists x, w, w1; split; [left|done]|].
  destruct (IH _ _ _ _ _ H1 Hy) as (x' & wa & wb & Hin & Hx'). exists x', wa, wb. split; [by right|done].
Qed.

(** The maintenance statuses a feed tells about. *)
Definition shown_statuses : list Status :=
  [MaintenancePlanned; MaintenanceInProgress; MaintenanceModified; MaintenanceCompleted; MaintenanceCancelled].

Definition shows (baseURL : string) (e : Incident) (it : Item) : Prop :=
  it_Href it = event_link baseURL e ∧ inc_Type e ≠ TypeInformation
  ∧ (inc_Type e = TypeMaintenance →
     ∃ s, s ∈ inc_Statuses e ∧ st_Status s ∈ shown_statuses ∧ it_Created it = st_Timestamp s).

Lemma maintenance_item_shows m b sn ln g s E w it w' :
  maintenance_item m b sn ln g s E w = (Ret (Some it), w') →
  it_Href it = event_link b m ∧ st_Status s ∈ shown_statuses ∧ it_Created it = st_Timestamp s.
Proof.
  unfold maintenance_item.
  assert (∀ d title, st_Status s ∈ shown_statuses →
    (mret (Some (mkItem (title +:+ sn)%string (event_link b m) (st_Timestamp s) None d)) : M _) E w
      = (Ret (Some it), w') →
    it_Href it = event_link b m ∧ st_Status s ∈ shown_statuses ∧ it_Created it = st_Timestamp s) as Hitem.
  { intros d title Hs H. rewrite ret_run in H. by injection H as <- <-. }
  assert (∀ A (p : option A) k, (deref p ≫= k) E w = (Ret (Some it), w') → ∃ x, (k x : M _) E w = (Ret (Some it), w')) as Hd.
  { intros A [x|] k H; [by exists x|done]. }
  repeat match goal with
  | |- context [st_Status s == ?x] =>
      destruct (st_Status s == x) eqn:Hs;
      [apply bool_decide_eq_true in Hs;
       assert (st_Status s ∈ shown_statuses) as Hin by (rewrite Hs; unfold shown_statuses; set_solver);
       intros H; repeat (apply Hd in H as [? H]); by eapply Hitem|clear Hs]
  end. by intros [= ].
Qed.

Lemma createFeedItems_shows e b E w items w' it : createFeedItems e b E w = (Ret items, w') → it ∈ items →
  shows b e it.
Proof.
  unfold createFeedItems. destruct (_ == TypeMaintenance) eqn:Hm; bool_facts.
  - unfold createMaintenanceFeedItems. intros H Hin. apply bind_Ret_inv in H as (os & w1 & H1 & H).
    rewrite ret_run in H. injection H as <- _. apply elem_of_omap in Hin as (o & Ho & Hid). cbn in Hid. subst o.
    destruct (mapM_elem _ _ _ _ _ _ _ H1 Ho) as (s & wa & wb & Hs & Hit).
    destruct (maintenance_item_shows _ _ _ _ _ _ _ _ _ _ Hit) as (? & ? & ?).
    split_and!; [done|rewrite Hm; done|]. intros _. eauto.
  - destruct (_ == TypeInformation) eqn:Hi; bool_facts; [intros [= <- _] Hin; inversion Hin|].
    unfold createIncidentFeedItems. intros H Hin. apply bind_Ret_inv in H as (im & w1 & H1 & H).
    apply bind_Ret_inv in H as (st & w2 & H2 & H). apply bind_Ret_inv in H as (us & w3 & H3 & H).
    rewrite ret_run in H. injection H as <- _. split_and!; [|done|done].
    apply elem_of_cons in Hin as [->|Hin]; [done|].
    destruct (mapM_elem _ _ _ _ _ _ _ H3 Hin) as (s & wa & wb & _ & Hit).
    apply bind_Ret_inv in Hit as (t & ? & ? & Hit). by injection Hit as <- _.
Qed.

(** An event without the review entries of its history. *)
Definition visible (e : Incident) : Incident :=
  set_Statuses e (filterb (λ s, negb (hidden_status e s)) (inc_Statuses e)).

Lemma filterb_reverse {A} (f : A → bool) l : filterb f (reverse l) = reverse (filterb f l).
Proof.
  induction l as [|x l IH]; [done|]. rewrite reverse_cons, filterb_app, IH. cbn [filterb].
  destruct (f x); [by rewrite reverse_cons|by rewrite app_nil_r].
Qed.

Lemma createFeedItem_visible e b E w : createFeedItem e b E w = createFeedItem (visible e) b E w.
Proof.
  unfold createFeedItem, createFeedContent. cbn [visible set_Statuses inc_Text inc_StartDate inc_EndDate inc_Impact inc_Statuses].
  assert (∀ l acc, foldl (λ content s, if hidden_status e s then content else content +:+ status_content s)%string acc l
    = foldl (λ content s, if hidden_status (visible e) s then content else content +:+ status_content s)%string acc
        (filterb (λ s, negb (hidden_status e s)) l)) as Hf.
  { induction l as [|s l IH]; intros acc; cbn [foldl filterb]; [done|].
    destruct (hidden_status e s) eqn:Hs; cbn [negb foldl]; [apply IH|].
    change (hidden_status (visible e) s) with (hidden_status e s). rewrite Hs. apply IH. }
  rewrite Hf, filterb_reverse. done.
Qed.

(** What both handlers read before they build a feed. *)
Lemma feed_events (r : RssRequest) E w res w1 :
  try (getEvents (rr_mt r) (rr_srv r)) E w = (Ret (inr res), w1) →
  Forall (public_event (w_tab w)) (sortEvents res) ∧ (length (sortEvents res) <= 10)%nat
  ∧ StronglySorted feed_le (sortEvents res) ∧ w_tab w1 = w_tab w.
Proof.
  intros H. apply try_Ret in H. destruct (getEvents_public _ _ _ _ _ _ H) as (Hp & Hl & Ht).
  destruct (sortEvents_spec res) as [Hperm Hs]. split_and!; try done.
  - by rewrite Hperm.
  - by rewrite Hperm.
Qed.


Definition sample_feed_request : RssRequest := mkRssRequest "" "" "" "status.example.com" "".

