(* ===== verification/PropsRouter.v ===== *)
(** * Properties of the router

    Every request is answered, what an answer may tell, and who can change the store. *)

From S2P Require Import Prelude GoStrings GoTime Errors Event Rbac Json Auth Models Store Queries Availability Rss Writes Integrity Outbox Notify Conf StaticCache StaticProxy StaticSpec Facade Checker Api Handlers ApiSpec System Scheduler OpenApi App Samples Router RouterSpec.
Local Open Scope Z_scope.
Import AuditSpec.

(** The cached entries of the proxy stem from answers of its origins. *)
Definition proxy_sound (a : App) (PE : PEnv) (ps : PState) : Prop :=
  ∀ p s0, ap_static a = Some (p, s0) → sound p PE ps.

(** What the client sees of a reply: its header. *)
Definition sent_header (out : HttpOut) : Header :=
  match o_reply out with HStatic (RWritten _ h _) => h | _ => o_header out end.

(** A reply of the router, for a request with method [m]. *)
Definition router_reply (m : string) (out : HttpOut) : Prop :=
  match o_reply out with
  | HRedirect s => s ∈ [301; 307]
  | HStatic _ => m ≠ "OPTIONS"%string
  | HStatus s => (s = 204 ∧ m = "OPTIONS"%string) ∨ route_reply (HStatus s)
  | x => route_reply x
  end.

Lemma Recovery_answers m : Answers route_reply m →
  ∀ E w, ∃ x w', Recovery m E w = (Ret x, w') ∧ route_reply x.
Proof.
  intros Hm E w. unfold Recovery. destruct (m E w) as [o w'] eqn:H. specialize (Hm _ _ _ _ H).
  destruct o; [by eauto|done|]. eexists _, _. split; [done|]. cbn. set_solver.
Qed.

Lemma catchAll_sound a dst r PE ps x ps' : proxy_sound a PE ps → catchAll a dst r PE ps = (x, ps') →
  proxy_sound a PE ps' ∧ ∀ s h b key, x = RWritten s h b → kept_header key → h !! key = dst !! key.
Proof.
  unfold catchAll, proxy_sound. destruct (ap_static a) as [[p s0]|]; intros Hs.
  - specialize (Hs p s0 eq_refl). intros H. apply handler_justified in H as [Hj [Hs' _]]; [|done].
    split; [by intros p' s' [= <- <-]|]. intros s h b key -> Hk. by eapply justified_header.
  - intros [= <- <-]. split; done.
Qed.

Lemma frame_kept key : key ∈ ["X-Frame-Options"; "Content-Security-Policy"]%string → kept_header key.
Proof. rewrite !elem_of_cons, elem_of_nil. intros [->|[->|[]]]; by vm_compute. Qed.


(** C30: nothing changes the store without a caller who may.  If serving a request leaves
    other tables than it found, then the request is a POST or PATCH of a route of the
    table, its token was accepted, and the role of its names allows the route: a reporter
    may only report events, creating a component needs any caller but a reporter, an
    extraction an approver, a re-drive an admin, and every other change a role above
    reporter.  So reads, feeds, reports, probes and the frontend change nothing. *)
Theorem changes_authorised a ToRss files r E PE w ps o w' ps' :
  serve a ToRss files r E PE (w, ps) = (o, (w', ps')) → w_tab w' ≠ w_tab w →
  ∃ route cl, route_of (rq_Method (h_req r)) (rq_Path (h_req r)) = Some route
  ∧ (rq_Method (h_req r) = "POST"%string ∨ rq_Method (h_req r) = "PATCH"%string)
  ∧ h_authorization r ≠ ""%string
  ∧ dp_Verify (ap_deployment a) (TrimPrefix (h_authorization r) "Bearer ") = Some cl
  ∧ may_write (dp_rbac (ap_deployment a)) (cl_Roles cl) route.
Proof.
  unfold serve. cbn [CORSMiddleware]. destruct (route_of _ _) as [route|] eqn:Hr.
  - intros H Hne. assert (∃ o1, run_route a ToRss files r route E w = (o1, w')) as [o1 H1].
    { unfold Recovery in H. cbn [fst snd] in H. destruct (run_route a ToRss files r route E w) as [[x|e|] w1];
        injection H as _ <- _; eauto. }
    destruct (run_route_guarded _ _ _ _ _ _ _ _ _ H1 Hne) as (Hh & cl & Hv & Hm).
    exists route, cl. split_and!; [done| |done..]. eapply writes_method; [exact Hr|]. by destruct route.
  - cbn [fst snd]. destruct (_ && _); [by intros [= _ <- _]|]. destruct (_ == _); [by intros [= _ <- _]|].
    destruct (catchAll _ _ _ _ _). by intros [= _ <- _].
Qed.


(** ** A service to ask *)

Definition router_service : Service := New (Rbac.mkConfig "creators" "operators" "admins" "reporters").
Definition router_Verify (token : string) : option Claims :=
  if token == "admin-token"%string
  then Some (mkClaims "ada" "" "" ["admins"%string] ProviderZitadel) else None.
Definition router_app : App :=
  mkApp (mkDeployment router_Verify (λ _, true) router_service None (mkWorker "" 0 0 0)) false
    (Some (newProxy (mkOptions ["origin.example"%string] Minute 1000))) [] "8000" None.
Definition no_body : Decoded :=
  mkDecoded None None None None (Some ("Network"%string, [mkAttribute "region" "EU"; mkAttribute "type" "net";
    mkAttribute "category" "Network"])) None None None "" "" "".
Definition to_router (method path : string) : HttpRequest :=
  mkHttp (mkRequest method "dash.example" path "" path) "" "Bearer admin-token" no_body.
Definition router_penv : PEnv := mkPEnv (λ _ _ _ _, None) (λ _, 0).

Example routes_found :
  route_of "GET" "/v2/events/5" = Some (GetEventByID "5") ∧ route_of "PATCH" "/v2/incidents/5/updates/0" = Some (PatchUpdate "5" "0")
  ∧ route_of "GET" "/v2/events/" = None ∧ route_of "GET" (toggle_slash "/v2/events/") = Some GetEvents
  ∧ route_of "GET" "/swagger/index.html" = Some (SwaggerUI "/index.html") ∧ route_of "DELETE" "/v2/events/5" = None
  ∧ route_of "GET" "/" = None ∧ route_of "GET" "/rss/" = Some RssLegacy.
Proof. by vm_compute. Qed.

Definition router_run (r : HttpRequest) : outcome HttpOut * (World * PState) :=
  serve router_app (λ _, true) (λ _, 200) r (env_at 300) router_penv
    (sample_world, (newProxy (mkOptions ["origin.example"%string] Minute 1000)).2).


Lemma changes_authorised_witness :
  ∃ o w' ps', router_run (to_router "POST" "/v2/components") = (o, (w', ps'))
  ∧ w_tab w' ≠ w_tab sample_world
  ∧ ∃ cl, router_Verify "admin-token" = Some cl ∧ may_write router_service (cl_Roles cl) PostComponent.
Proof.
  assert (base.size (t_component (w_tab (router_run (to_router "POST" "/v2/components")).2.1)) = 3%nat) as Hsz
    by (vm_compute; reflexivity).
  destruct (router_run (to_router "POST" "/v2/components")) as [o [w' ps']] eqn:H. cbn [fst snd] in Hsz.
  assert (w_tab w' ≠ w_tab sample_world) as Hne.
  { intros Heq. rewrite Heq in Hsz. vm_compute in Hsz. discriminate Hsz. }
  exists o, w', ps'. split; [reflexivity|]. split; [exact Hne|].
  unfold router_run in H.
  destruct (changes_authorised router_app (λ _, true) (λ _, 200) (to_router "POST" "/v2/components") (env_at 300)
    router_penv sample_world _ o w' ps' H Hne) as (route & cl & Hr & _ & _ & Hv & Hm).
  exists cl. split; [exact Hv|]. assert (route = PostComponent) as -> by (vm_compute in Hr; congruence). exact Hm.
Defined.

Definition audited_run (path : string) : outcome HttpReply * World * list log_entry :=
  Audited.run_route router_app (λ _, true) (λ _, 200) (λ _, "refused"%string) (to_router "POST" path) PostComponent
    (env_at 300) sample_world.

