(* ===== verification/PropsWorkers.v ===== *)
(** * Properties of the workers that share the outbox *)

From S2P Require Import Prelude GoStrings GoTime Errors Event Models Store Queries Writes Integrity Outbox OutboxSpec Notify Workers WorkersHands.
Local Open Scope Z_scope.

(** C8: however the statements of the workers interleave, every step changes the outbox as
    one whole operation does: the commit of a claim moves rows that are pending in the
    committed table to processing, the commit of a recovery releases rows that are stale
    there, and nobody sees a part of either.  No row is locked by two transactions. *)
Theorem transactions_serialise tm owner s s' :
  pool_reachable tm owner s → wstep tm owner s s' →
  atomic_op tm owner (po_rows s) (po_rows s')
  ∧ ∀ w w' ph ph' k, w ≠ w' → po_phase s !! w = Some ph → po_phase s !! w' = Some ph' →
      k ∈ tx_ids ph → k ∉ tx_ids ph'.
Proof.
  intros Hr%lock_reachable Hst. split; [by apply step_atomic|].
  intros w w' ph ph' k. apply Hr.
Qed.

(** The commit of a recovery in the run with the tight lease. *)
Lemma transactions_serialise_witness :
  ∃ s s', wrun tight_timing sample_owner (take 13 tight_run) pool0 = Some s
    ∧ wexec tight_timing sample_owner (WNext 1 None 0) s = Some s'
    ∧ atomic_op tight_timing sample_owner (po_rows s) (po_rows s')
    ∧ or_status <$> po_rows s' !! 1 = Some NotificationStatusPending.
Proof.
  assert (bool_decide (is_Some (s ← wrun tight_timing sample_owner (take 13 tight_run) pool0;
    wexec tight_timing sample_owner (WNext 1 None 0) s)) = true) as Hc by (vm_compute; reflexivity).
  destruct (wrun tight_timing sample_owner (take 13 tight_run) pool0) as [s|] eqn:Hs; [|discriminate Hc].
  apply bool_decide_eq_true in Hc as [s' Hs']. change (wexec tight_timing sample_owner (WNext 1 None 0) s = Some s') in Hs'.
  exists s, s'. split; [done|split; [done|split]].
  2: { assert (((λ p, or_status <$> po_rows p !! 1) <$> (s ← wrun tight_timing sample_owner (take 13 tight_run) pool0;
         wexec tight_timing sample_owner (WNext 1 None 0) s)) = Some (Some NotificationStatusPending)) as Hp by (vm_compute; reflexivity).
       rewrite Hs in Hp. cbn [mbind option_bind] in Hp. rewrite Hs' in Hp. by injection Hp. }
  apply (transactions_serialise tight_timing sample_owner s s').
  - apply (wrun_reachable _ _ _ _ _ Hs). apply pool_init.
  - apply (wexec_sound _ _ _ _ _ Hs').
Defined.

(** C9: when the lease covers a claim, a send and the write of its outcome, and a claim
    takes one row, a row is in the hands of one live worker at most; the worker that sends
    it holds its lease; the queue stays well formed; and a row that was sent stays as it is
    until it is pruned, so it is not sent again. *)
Theorem row_in_one_hand tm owner s :
  roomy tm → pool_reachable tm owner s →
  (∀ w w' ph ph' k, w ≠ w' → po_phase s !! w = Some ph → po_phase s !! w' = Some ph' →
     k ∈ in_hand ph → k ∉ in_hand ph')
  ∧ (∀ w row since rest, po_phase s !! w = Some (Sending row since rest) →
       ∃ r, po_rows s !! no_ID row = Some r ∧ or_status r = NotificationStatusProcessing
         ∧ or_locked_by r = Some (owner w))
  ∧ queue_ok (tm_maxAttempts tm) (po_rows s)
  ∧ (∀ s' k r, wstep tm owner s s' → po_rows s !! k = Some r → or_status r = NotificationStatusSent →
       po_rows s' !! k = Some r ∨ po_rows s' !! k = None).
Proof.
  intros Hroom Hr. pose proof (hand_reachable tm owner Hroom s Hr) as Hh. split_and!.
  - apply Hh.
  - intros w row since rest Hw. destruct (proj2 Hh _ _ Hw) as (_ & n & r & (? & ? & _ & ?) & _). eauto.
  - by apply (queue_reachable tm owner).
  - intros s' k r Hst. eapply sent_step; eauto using lock_reachable.
Qed.

(** With the default times, a worker that has a row in hand, and one that comes a second
    later and finds nothing to recover or to claim. *)
Definition default_run : list wcmd :=
  [WEnqueue 1 (waiting_row "a")] ++ take_rows 0 0 1 ++ [WTick (seconds 30); WStart 1; WRecover 1; WNext 1 None 0; WClaim 1].

Lemma row_in_one_hand_witness :
  ∃ s row, wrun default_timing sample_owner default_run pool0 = Some s ∧ roomy default_timing
    ∧ po_phase s !! 0%nat = Some (Sending row 0 []) ∧ no_ID row = 1 ∧ both_hold s = []
    ∧ ∃ r, po_rows s !! 1 = Some r ∧ or_locked_by r = Some "pod-1"%string.
Proof.
  assert ((λ s, (po_phase s !! 0%nat, both_hold s)) <$> wrun default_timing sample_owner default_run pool0
    = Some (Some (Sending (claimed_row "pod-1" 0 (scanOutboxRow 1 (waiting_row "a"))) 0 []), [])) as Hc by (vm_compute; reflexivity).
  destruct (wrun default_timing sample_owner default_run pool0) as [s|] eqn:Hs; [|discriminate Hc].
  injection Hc as Hp Hb. exists s, (claimed_row "pod-1" 0 (scanOutboxRow 1 (waiting_row "a"))).
  split_and!; [done|apply default_timing_roomy|done|done|done|].
  destruct (row_in_one_hand default_timing sample_owner s default_timing_roomy) as (_ & Hsend & _).
  { apply (wrun_reachable _ _ _ _ _ Hs). apply pool_init. }
  destruct (Hsend _ _ _ _ Hp) as (r & ? & _ & ?). eauto.
Defined.

(** The configuration accepts a lease that is longer than the mail timeout alone.  With
    such a lease the write of the outcome can come after it has run out, and a second
    worker has the row in hand while the first still records its send. *)
Theorem tight_lease_races : ∃ s ph ph',
  tm_send tight_timing < tm_lease tight_timing ∧ tm_batch tight_timing = claimBatchSize
  ∧ pool_reachable tight_timing sample_owner s
  ∧ po_phase s !! 0%nat = Some ph ∧ po_phase s !! 1%nat = Some ph' ∧ 1 ∈ in_hand ph ∧ 1 ∈ in_hand ph'.
Proof.
  pose proof tight_run_both as Hb.
  destruct (wrun tight_timing sample_owner tight_run pool0) as [s|] eqn:Hs; [|discriminate Hb].
  injection Hb as Hb. unfold both_hold in Hb.
  destruct (po_phase s !! 0%nat) as [ph|] eqn:H0; [|discriminate Hb].
  destruct (po_phase s !! 1%nat) as [ph'|] eqn:H1; [|discriminate Hb].
  assert (1 ∈ filterb (λ k, bool_decide (k ∈ in_hand ph')) (in_hand ph)) as [Hin Hin']%elem_of_filterb by (rewrite Hb; by left).
  exists s, ph, ph'. split_and!; [done|done| |done|done|done|by apply bool_decide_eq_true in Hin'].
  apply (wrun_reachable _ _ _ _ _ Hs). apply pool_init.
Qed.

(** With two rows per claim and a lease that covers one, the second row of the claim
    outlives its lease while the first is sent: the reason [claimBatchSize] is one. *)
Theorem larger_batch_races : ∃ s ph ph',
  tm_claim batch_timing + tm_send batch_timing + tm_mark batch_timing <= tm_lease batch_timing
  ∧ pool_reachable batch_timing sample_owner s
  ∧ po_phase s !! 0%nat = Some ph ∧ po_phase s !! 1%nat = Some ph' ∧ 2 ∈ in_hand ph ∧ 2 ∈ in_hand ph'.
Proof.
  pose proof batch_run_both as Hb.
  destruct (wrun batch_timing sample_owner batch_run pool0) as [s|] eqn:Hs; [|discriminate Hb].
  injection Hb as Hb. unfold both_hold in Hb.
  destruct (po_phase s !! 0%nat) as [ph|] eqn:H0; [|discriminate Hb].
  destruct (po_phase s !! 1%nat) as [ph'|] eqn:H1; [|discriminate Hb].
  assert (2 ∈ filterb (λ k, bool_decide (k ∈ in_hand ph')) (in_hand ph)) as [Hin Hin']%elem_of_filterb by (rewrite Hb; by left).
  exists s, ph, ph'. split_and!; [done| |done|done|done|by apply bool_decide_eq_true in Hin'].
  apply (wrun_reachable _ _ _ _ _ Hs). apply pool_init.
Qed.
