(* ===== verification/PropsEnt.v ===== *)
(** * The generated data layer: theorems *)

From S2P Require Import Prelude GoStrings GoTime Errors Event Models Store Queries Availability Writes Outbox EntCore EntComponent EntComponentAttr EntIncident EntIncidentStatus EntNotificationOutbox EntComponentBuild EntComponentAttrBuild EntIncidentBuild EntIncidentStatusBuild EntNotificationOutboxBuild EntWhere EntLaws EntQuery EntGraph EntFacade EntQuerySpec EntRead EntRun EntSpec EntRefine EntReadSpec Samples.
Local Open Scope Z_scope.

(** A server: bytewise order of strings, no pattern matches, and the raw subquery. *)
Definition sample_server : Server :=
  {| collate_lt a b := String.ltb a b; text_match _ _ _ := false;
     raw_predicate _ args t i :=
       raw_subquery (omap (λ v, match v with VString s => Some s | _ => None end) args) t i |}.

Lemma sample_server_raw : @RawSubquery sample_server.
Proof.
  intros l t i. unfold raw_predicate, sample_server. f_equal. induction l as [|s l IH]; [done|]. cbn. by f_equal.
Qed.


(** The filters of a listing, built from the generated predicates, are refused for the
    same parameters as those of the model, and otherwise select the same rows in every
    state of the tables, for any server that gives the raw subquery its meaning. *)
Theorem event_filters_equiv (S : Server) (HR : @RawSubquery S) params isAuth E w :
  match applyEventsFilters params isAuth E w with
  | (Ret preds, _) => ∃ ps, events_filters params isAuth (now_at E (w_tick w)) = inr ps
      ∧ ∀ t id r, holds t ps id (incident_cols id r) = where_all preds t id r
  | (Fail e, _) => e = EDb ErrDBIncidentFilterActiveFalse
      ∧ events_filters params isAuth (now_at E (w_tick w)) = inl ErrDBIncidentFilterActiveFalse
  | (Panic, _) => False
  end.
Proof.
  pose proof (filters_agree params isAuth E w) as H. destruct (applyEventsFilters params isAuth E w) as [[preds| |] w']; [|done..].
  destruct H as (ps & Hps & Hall). exists ps. split; [done|]. intros t id r. by apply holds_where_all.
Qed.

Lemma event_filters_equiv_witness :
  let params := mkParams (Some [TypeMaintenance]) None (Some 0) None None None [1] 0 (Some true) None None in
  match applyEventsFilters params false (env_at 100) sample_world with
  | (Ret preds, _) => ∃ ps, events_filters params false 100 = inr ps
      ∧ ∀ t id r, @holds sample_server t ps id (incident_cols id r) = where_all preds t id r
  | _ => False
  end.
Proof.
  intros params. pose proof (event_filters_equiv sample_server sample_server_raw params false (env_at 100) sample_world) as H. exact H.
Defined.


(** C6: every read of the storage facade that goes through a generated query (the filtered
    and paged listing with its count, one event, the events of a component or of a type, by
    ids, the components with attributes and events, the history of updates, the lookups of
    the queue) is, with its selection, order, page, eager loads and mappers, the read that
    the other theorems are about, for every world and every failure of the database, on any
    server that gives the raw subquery its meaning; and the components that a full save
    reconciles are those that the traversal reads. *)
Theorem reads_through_queries (S : Server) (HR : @RawSubquery S) cfg :
  (∀ isAuth param, Reads.GetEventsWithCount cfg isAuth param ≡ₘ GetEventsWithCount isAuth param)
  ∧ (∀ id, Reads.GetIncident cfg id ≡ₘ GetIncident id)
  ∧ (∀ c param, 0 ≤ p_LastCount param → Reads.GetEventsByComponentID cfg c param ≡ₘ GetEventsByComponentID c param)
  ∧ (∀ ids, Reads.incidentsByIDs cfg ids ≡ₘ incidentsByIDs ids)
  ∧ (∀ ty desc, Reads.getEventsByType cfg ty desc ≡ₘ getEventsByType ty desc)
  ∧ (∀ id, Reads.GetEventUpdates cfg id ≡ₘ GetEventUpdates id)
  ∧ (∀ id, Reads.GetComponent cfg id ≡ₘ GetComponent id) ∧ (Reads.GetComponentsAsMap cfg ≡ₘ GetComponentsAsMap)
  ∧ (Reads.GetComponentsWithValues cfg ≡ₘ GetComponentsWithValues) ∧ (Reads.GetComponentsWithIncidents cfg ≡ₘ GetComponentsWithIncidents)
  ∧ (∀ name attr, Reads.GetComponentFromNameAttrs cfg name attr ≡ₘ GetComponentFromNameAttrs name attr)
  ∧ (∀ name region, Reads.component_taken cfg name region ≡ₘ select (λ t, component_taken t name region))
  ∧ (∀ key, Reads.rowExists cfg key ≡ₘ rowExists key) ∧ (∀ id, Reads.getRowByID cfg id ≡ₘ getRowByID id)
  ∧ (∀ status limit, Reads.ListNotificationsByStatus cfg status limit ≡ₘ ListNotificationsByStatus status limit)
  ∧ (∀ E w id, (∀ c, (id, c) ∈ t_rel (w_tab w) → is_Some (t_incident (w_tab w) !! id)) →
       Reads.stored_components cfg id E w = select (λ t, stored_components t id) E w).
Proof.
  split_and!; [apply GetEventsWithCount_refines|apply GetIncident_refines|apply GetEventsByComponentID_refines
    |apply incidentsByIDs_refines|apply getEventsByType_refines|apply GetEventUpdates_refines|apply GetComponent_refines
    |apply GetComponentsAsMap_refines|apply GetComponentsWithValues_refines|apply GetComponentsWithIncidents_refines
    |apply GetComponentFromNameAttrs_refines|apply component_taken_refines|apply rowExists_refines|apply getRowByID_refines
    |apply ListNotificationsByStatus_refines|apply stored_components_refines]; exact HR.
Qed.


#[local] Existing Instance sample_server.

(** A builder for a new incident and one for a first update. *)
Definition sample_create : IncidentCreate :=
  incident_create (mkConfig true) (stored_event 1) "Outage" 100 100 100.
Definition sample_status_create : IncidentStatusCreate :=
  status_create (mkConfig true) (newStatus 5 IncidentDetected "detected" 100 None) 5 100 100.

Lemma saved_parts {A C D} (r : (ent_error + A) * C * D) n : r.1.1 = inr n → r = (inr n, r.1.2, r.2).
Proof. destruct r as [[x c] d]. by intros [= ->]. Qed.


(** The public listing of the sample events, newest start first, one event a page. *)
Definition sample_page : IncidentsParams := mkParams None None None None None None [] 0 None (Some 1) (Some 2).

Lemma reads_through_queries_witness :
  @Reads.GetEventsWithCount sample_server (mkConfig true) false sample_page (env_at 100) sample_world
    = GetEventsWithCount false sample_page (env_at 100) sample_world
  ∧ match @Reads.GetEventsWithCount sample_server (mkConfig true) false sample_page (env_at 100) sample_world with
    | (Ret (evs, total), _) => (inc_ID <$> evs, total) = ([4], 3) | _ => False
    end
  ∧ @Reads.stored_components sample_server (mkConfig true) 1 (env_at 100) sample_world
    = select (λ t, stored_components t 1) (env_at 100) sample_world
  ∧ @Reads.GetEventsByComponentID sample_server (mkConfig true) 1 no_params (env_at 100) sample_world
    = GetEventsByComponentID 1 no_params (env_at 100) sample_world.
Proof.
  pose proof (reads_through_queries sample_server sample_server_raw (mkConfig true)) as H.
  split; [apply (proj1 H)|]. split; [vm_compute; reflexivity|]. split.
  - do 15 apply proj2 in H. apply H. intros c _. eexists. reflexivity.
  - apply (proj1 (proj2 (proj2 H))). discriminate.
Defined.
